(* ===== verification/_CoqProject ===== *)
-Q . S2P
Prelude.v
Allocator.v
PagedAllocator.v
PagedProofs.v
SWAAllocator.v
ReqPool.v
SamplingParams.v
Request.v
KVAllocator.v
FreeGroups.v
RadixCache.v
RadixInv.v
RadixOwn.v
RadixSplit.v
RadixMatch.v
RadixInsert.v
RadixLocks.v
RadixTraverse.v
RadixEvict.v
RadixReq.v
ChunkCache.v
SchedulePolicy.v
SchedulePolicyProofs.v
PrefixCache.v
PrefillAdder.v
PrefillAdderProofs.v
ScheduleBatch.v
TreeCache.v
Scheduler.v
AdmissionProofs.v
BatchKernels.v
BatchMemory.v
MemoryAccount.v
BatchExtend.v
BatchRetract.v
SchedulerProofs.v
BatchDecode.v
SchedulerDecode.v
LiveRows.v
OutputProcessor.v
PoolFrame.v
OutputProofs.v
PrefillOutput.v
EventLoop.v
Serving.v
Completion.v
ServingLimits.v
Intake.v
IntakeProofs.v
ServerLoop.v
Eplb.v
EplbProofs.v
ExpertLocation.v
ExpertInit.v
ExpertUpdater.v
ExpertTransfer.v
ExpertMigration.v
EplbManager.v
ExpertService.v
RWLock.v
InputBlocker.v
MultiModalCache.v
PyString.v
Reasoning.v
LoraPool.v
LoraPoolProofs.v
LoraShards.v
LoraManager.v
LoraManagerProofs.v
LoraExamples.v
LoraRegistry.v
LoraRegistryProofs.v
LoraService.v
