(* ===== verification/Prelude.v ===== *)
(** * The memory and scheduling core of the SGLang runtime

    SGLang serves language models.  Its scheduler process
    ([python/sglang/srt/managers/scheduler.py]) keeps a queue of requests,
    builds prefill and decode batches, and stores the key/value (KV) tensors
    of every token in a pool of slots on the device.  This library models the
    part of the runtime that decides which slot belongs to whom and which
    request runs next, and proves that slots are neither lost nor shared by
    accident, that the caches answer correctly, and that what the scheduler
    admits can be allocated.

    ** The program and its models

    - Slot allocators ([mem_cache/allocator.py], kernels included).
      [Allocator]: [Base] (the common state) and [Token] (page size one);
      [PagedAllocator]: [Paged] with the Triton kernels [alloc_extend_kernel]
      and [alloc_decode_kernel] as the list of stores each program issues;
      [PagedProofs]: the reference assignment [ref_extend], the kernels
      against it, page ownership ([Own]); [SWAAllocator]: [SWA], the hybrid
      allocator with its full-to-window mapping.
    - Request rows ([mem_cache/memory_pool.py], [ReqToTokenPool]): [ReqPool].
    - Requests and sampling parameters ([managers/schedule_batch.py] [Req],
      [sampling/sampling_params.py]): [Request], [SamplingParams].
    - Prefix caches.  [mem_cache/radix_cache.py]: [RadixCache] (definitions:
      nodes are a store indexed by node id, as the code links objects),
      [RadixInv] (the invariant [repr c G H]: every node has a path of tokens
      with slots, [H] lists the nodes locked by requests), [RadixOwn] (slots
      of the tree), [RadixSplit], [RadixMatch], [RadixInsert], [RadixLocks],
      [RadixTraverse], [RadixEvict], [RadixReq] (the request-level methods).
      [mem_cache/chunk_cache.py]: [ChunkCache].
    - Interfaces: [KVAllocator] is the class of what the caches need from an
      allocator (implemented by [Token] and [Paged]); [PrefixCache] is
      [mem_cache/base_prefix_cache.py] with the laws the admission code needs
      (implemented by the radix and the chunk cache).
    - Scheduling ([managers/schedule_policy.py]): [SchedulePolicy] and
      [SchedulePolicyProofs] (queue orders), [PrefillAdder] and
      [PrefillAdderProofs] (admission).
    - Batches ([managers/schedule_batch.py], [ScheduleBatch]):
      [ScheduleBatch] (allocation, prefill, decode, retraction, filtering,
      merging, the kernels over [req_to_token]), [BatchKernels],
      [BatchMemory] (allocation succeeds when the pages fit), [BatchExtend]
      (prefill batches), [BatchRetract], [BatchDecode] (decode batches),
      [MemoryAccount] (sizes of the cache in pages).
    - The scheduler ([managers/scheduler.py]): [TreeCache] (the cache it is
      configured with, as an instance of [PrefixCache]), [Scheduler] (state,
      [get_new_batch_prefill], [update_running_batch],
      [get_next_batch_to_run], [check_memory]), [AdmissionProofs] and
      [SchedulerProofs] (prefill), [SchedulerDecode] (decoding).
    - Results ([managers/scheduler_output_processor_mixin.py],
      [Scheduler.abort_request], [Scheduler.event_loop_normal]):
      [OutputProcessor]; [FreeGroups] is the interface for the frees the code
      delays; [PoolFrame] (the pool keeps its size), [LiveRows] (the requests
      of a batch that still hold memory), [OutputProofs] (a decode batch),
      [PrefillOutput] (a prefill batch), [EventLoop] (decoding a batch to its
      end).
    - The loop as a whole: [Serving] (the invariant of [event_loop_normal] with
      prefill, merging, decoding, retraction and the idle check),
      [Completion] (every request completes), [ServingLimits] (runs outside
      the conditions of the two).
    - Messages ([process_input_requests] and the handlers of [scheduler.py],
      [managers/session_controller.py], [managers/utils.py], the limits of
      [managers/tp_worker.py], the cache of
      [constrained/base_grammar_backend.py]): [Intake]; [IntakeProofs] (what
      reaches the queues); [ServerLoop] (messages, grammar queue and event
      loop together).
    - Expert placement ([srt/eplb]): [Eplb] and [EplbProofs] (the balancing
      algorithm), [ExpertLocation] and [ExpertInit] (the maps between logical
      and physical experts, the dispatch of tokens), [ExpertUpdater] (one
      layer's weights moving between the ranks), [ExpertTransfer] (senders and
      receivers agree) and [ExpertMigration] (all ranks), [EplbManager] (the
      loops over layers and the manager) and [ExpertService] (the whole).
    - LoRA adapters ([srt/lora], and their use in
      [managers/tokenizer_manager.py]): [LoraPool] and [LoraPoolProofs] (the
      memory pool with its slots), [LoraShards] (slicing for tensor
      parallelism), [LoraManager] and [LoraManagerProofs] (reading, loading and
      unloading adapters, preparing batches), [LoraExamples] (a small model),
      [LoraRegistry] and [LoraRegistryProofs] (names and counters in the
      tokenizer process, with the scheduler as the class [LoraBackend]) and
      [LoraService] (the manager as this backend; the whole).
    - The cache of image features ([mem_cache/multimodal_cache.py]):
      [MultiModalCache].
    - The reasoning parser ([reasoning_parser.py]): [Reasoning], on the
      string operations of [PyString].
    - Input control ([managers/scheduler_input_blocker.py],
      [poll_based_barrier.py], [managers/scheduler_recv_skipper.py]):
      [InputBlocker].  The readers-writer lock ([aio_rwlock.py]): [RWLock].

    ** What the theorems show

    - Ownership: over any history of operations each slot or page is free or
      held by exactly one owner; failed allocations change nothing.
    - The kernels compute the reference assignment, in any order of their
      programs, with every output written once; the batch kernels agree with
      the tensor code they replace.
    - The radix cache: matching returns the longest cached prefix in whole
      pages, inserting extends the content by exactly the new key and reports
      the part already cached, insert-then-match is a round trip, locks count
      the requests at or below a node, eviction refines
      least-recently-used removal of unlocked leaves, and finishing a request
      hands every page to the tree or back to the allocator exactly once.
    - Admission and batches: the pages of the admitted prefills fit the free
      and evictable memory; a batch admitted (or approved by
      [check_decode_mem]) can be allocated; retraction terminates, keeps a
      request and restores memory.
    - The scheduler: from a state whose memory is accounted for, a prefill
      round without a pending chunk never runs out of memory, and neither does
      a decoding round, for pages of at most [retract_decode_steps] tokens and
      batches of which each request alone leaves some of the pool free; they
      lose no request and leave an accounted state.  A running batch that
      fits the pool is decoded to its end without retraction, and the idle
      memory check then passes.
    - The server: started with a paged pool and a radix cache, without chunked
      prefill, mixed batches, overlap, speculation and LoRA, the event loop
      never raises for requests that alone leave a page of the pool free
      ([wanted]), and once no more arrive it completes all of them if they
      also fit beside the tokens that admission reserves ([modest]).  With the
      limits that the server imposes, a pool larger than the context and a
      grammar backend that works, no stream of [acceptable] messages raises:
      generation requests outside sessions, rejected ones included, aborts
      and session messages.  [IntakeProofs] says what becomes of every
      generation request, errors included, and that no request is lost on the
      way in; [ServingLimits] and the end of [ServerLoop] show runs outside
      the conditions that fail or starve.
    - Experts: the placement is consistent for every load and the replication
      is optimal; moving the weights of a layer matches every send with a
      receive and ends with the weights where the new placement has them; at
      every forward pass, also in the middle of a rebalance, a token sent to a
      logical expert is computed with its weights; a rebalance finishes.
    - LoRA: a batch is accepted exactly when its adapters fit beside the pinned
      ones, and then each request finds the weights, rank and scaling of its
      own adapter, from the start of the server on and under any interleaving of
      requests, loads and unloads; an adapter stays loaded while a request uses
      it, and unloading it ends exactly if no use of it leaks.  This is for
      requests without parallel sampling and server errors and for adapters
      whose files have the shapes their configuration promises; examples show
      what happens otherwise.
    - Requests and policies: what ends a request, and with which reason, for
      every request; which sampling parameters are accepted; the exact order
      in which each policy puts the waiting queue.
    - State machines: mutual exclusion and absence of lost wake-ups for the
      lock, whose fields count its users exactly; order preservation and the
      global barrier for the input blocker.
    - Reasoning text: where parsing in chunks agrees with parsing at once.
    - Some theorems exhibit behaviour of the code that looks unintended; they
      say so in their comment.

    ** Conventions

    Python integers are [Z] (machine widths are written out where the code
    stores into int32 or int64 tensors); floats are rationals, in the sampling
    parameters with infinities and NaN ([pyfloat]); lists and
    tensors are lists, with slices that clamp and negative indices that wrap
    as in Python; dicts are association lists where order matters.  Code that
    can raise is in the monad [pyres].  Objects that the code mutates and
    shares are explicit state.  Loops that are not structural take fuel; the
    fuel is an argument fixed by the calling definition (the number of nodes,
    the length of the list) and each theorem about such a loop proves that it
    does not run out.

    Parameters stand for what is outside the source: the hash of a page, the
    clock, [heapq] (any priority queue satisfying [HeapQ]), the tokenizer, the
    content of uninitialised memory ([garbage], [tl_other]),
    [random.shuffle], the model worker ([forward]: one token per request), the
    grammar objects ([accept_token]) and their compilation
    ([grammar_result]: it goes on, has failed, or has a result), the order of equal elements in [torch.sort] and
    [torch.max] ([TorchOrder]), [random.sample], and
    [torch.distributed.batch_isend_irecv] ([PointToPoint]: messages between two
    ranks arrive in order), the order in which a loop visits a Python set
    ([PySet]), the files of an adapter, and the ids [uuid4] gives, which are new.

    ** Not modelled

    Model execution, attention and sampling kernels, weights, sockets and
    processes, HTTP and tokenization: they compute on tensors or do I/O.  The
    hierarchical cache and its storage back ends, the sliding-window and LoRA
    radix caches, disaggregation, speculative decoding, grammar compilers and the
    function-call and Harmony parsers are not modelled yet.  Of a batch, the
    sampling state, multimodal inputs, encoder caches and hybrid pools are left
    out; of the results, log probabilities, hidden states and the output
    stream; of the loop, the overlap schedule; of the messages, weight updates,
    profiling and remote calls.  Of expert placement, the vectorised algorithm and
    the recorder of loads.  Of LoRA, the kernels and the forward passes of the
    layers, and in the scheduler model the batches without LoRA only. *)

From stdpp Require Export base tactics gmap list sorting strings.
From Stdlib Require Export ZArith Lia.

#[export] Set Default Goal Selector "!".
Global Open Scope Z_scope.

(** ** Exceptions

    Code that can raise is modelled in a result monad; stdpp's monadic
    notation [x ← c; k] sequences it. *)

Inductive pyexn :=
  | AssertionError
  | IndexError
  | KeyError
  | ValueError
  | RuntimeError
  | TypeError
  | AttributeError
  | NotImplementedError
  | ZeroDivisionError
  | UnboundLocalError
  | OutOfFuel.

#[export] Instance pyexn_eq_dec : EqDecision pyexn.
Proof. solve_decision. Defined.

Inductive pyres (A : Type) :=
  | Ok (a : A)
  | Raise (e : pyexn).
Arguments Ok {A} _.
Arguments Raise {A} _.

#[export] Instance pyres_ret : MRet pyres := fun A a => Ok a.
#[export] Instance pyres_bind : MBind pyres := fun A B f m =>
  match m with Ok a => f a | Raise e => Raise e end.

#[export] Instance pyres_eq_dec {A} `{EqDecision A} : EqDecision (pyres A).
Proof. solve_decision. Defined.

Lemma pyres_bind_ok {A B} (f : A → pyres B) m b :
  m ≫= f = Ok b → ∃ a, m = Ok a ∧ f a = Ok b.
Proof. destruct m; simpl; naive_solver. Qed.

(** [assert c] of Python. *)
Definition py_assert (c : bool) : pyres unit :=
  if c then Ok tt else Raise AssertionError.

Lemma py_assert_ok c u : py_assert c = Ok u → c = true.
Proof. by destruct c. Qed.

(** Strip the monadic structure of a successful run. *)
Ltac pyinv :=
  repeat match goal with
  | H : mbind _ _ = Ok _ |- _ =>
      let a := fresh "a" in let E := fresh "E" in
      apply pyres_bind_ok in H as (a & E & H)
  | H : py_assert _ = Ok _ |- _ => apply py_assert_ok in H
  | H : mret _ = Ok _ |- _ => injection H as H
  | H : Ok _ = Ok _ |- _ => injection H as H
  end; simplify_eq.

(** ** Lengths and slices

    Python lengths are unbounded integers. *)

Declare Scope py_scope.
Delimit Scope py_scope with py.

Definition len {A} (l : list A) : Z := Z.of_nat (length l).

(** The position a Python slice bound denotes in a sequence of [n]
    elements: negative bounds count from the end, both ends clamp. *)
Definition py_norm (n i : Z) : nat :=
  Z.to_nat (Z.min n (if i <? 0 then Z.max 0 (i + n) else i)).

(** [l[:hi]], [l[lo:]] and [l[lo:hi]]. *)
Definition py_take {A} (hi : Z) (l : list A) : list A :=
  take (py_norm (len l) hi) l.
Definition py_drop {A} (lo : Z) (l : list A) : list A :=
  drop (py_norm (len l) lo) l.
Definition py_slice {A} (lo hi : Z) (l : list A) : list A :=
  take (py_norm (len l) hi - py_norm (len l) lo) (drop (py_norm (len l) lo) l).

Notation "l .[: hi ]" := (py_take hi l)
  (at level 1, left associativity, hi at level 200) : py_scope.
Notation "l .[ lo :]" := (py_drop lo l)
  (at level 1, left associativity, lo at level 50) : py_scope.
Notation "l .[ lo :: hi ]" := (py_slice lo hi l)
  (at level 1, left associativity, lo at level 50, hi at level 200) : py_scope.
Global Open Scope py_scope.

(** [torch.arange(lo, hi)], [torch.sort(t)[0]] and [torch.unique(t)]. *)
Definition arange (lo hi : Z) : list Z := seqZ lo (hi - lo).
Definition torch_sort (l : list Z) : list Z := merge_sort Z.le l.
Definition torch_unique (l : list Z) : list Z := torch_sort (remove_dups l).

Create Rewrite HintDb pylen.

Section lists.
Context {A : Type}.
Implicit Types (l k : list A) (n : nat).

Lemma len_nonneg l : 0 ≤ len l.
Proof. unfold len. lia. Qed.
Lemma len_nil : len (@nil A) = 0.
Proof. done. Qed.
Lemma len_cons x l : len (x :: l) = 1 + len l.
Proof. unfold len. simpl. lia. Qed.
Lemma len_app l k : len (l ++ k) = len l + len k.
Proof. unfold len. rewrite length_app. lia. Qed.
Lemma len_take n l : len (take n l) = Z.min (Z.of_nat n) (len l).
Proof. unfold len. rewrite length_take. lia. Qed.
Lemma len_drop n l : len (drop n l) = Z.max 0 (len l - Z.of_nat n).
Proof. unfold len. rewrite length_drop. lia. Qed.
Lemma len_perm l k : l ≡ₚ k → len l = len k.
Proof. intros H. unfold len. by rewrite (Permutation_length H). Qed.
Lemma len_zero l : len l = 0 ↔ l = [].
Proof. unfold len. destruct l; simpl; split; done || lia. Qed.

Lemma py_norm_nonneg m i : 0 ≤ i ≤ m → py_norm m i = Z.to_nat i.
Proof. intros. unfold py_norm. destruct (i <? 0) eqn:?; lia. Qed.
Lemma py_take_nonneg hi l : 0 ≤ hi → py_take hi l = take (Z.to_nat hi) l.
Proof.
  intros. unfold py_take, py_norm, len. destruct (hi <? 0) eqn:?; [lia|].
  destruct (decide (hi ≤ Z.of_nat (length l))).
  - f_equal. lia.
  - rewrite !take_ge by lia. done.
Qed.
Lemma py_drop_nonneg lo l : 0 ≤ lo → py_drop lo l = drop (Z.to_nat lo) l.
Proof.
  intros. unfold py_drop, py_norm, len. destruct (lo <? 0) eqn:?; [lia|].
  destruct (decide (lo ≤ Z.of_nat (length l))).
  - f_equal. lia.
  - rewrite !drop_ge by lia. done.
Qed.
Lemma py_slice_nonneg lo hi l :
  0 ≤ lo → 0 ≤ hi →
  py_slice lo hi l = take (Z.to_nat hi - Z.to_nat lo) (drop (Z.to_nat lo) l).
Proof.
  intros. unfold py_slice, py_norm, len.
  destruct (lo <? 0) eqn:?, (hi <? 0) eqn:?; try lia.
  destruct (decide (lo ≤ Z.of_nat (length l))).
  - rewrite (Z.min_r _ lo) by lia.
    destruct (decide (hi ≤ Z.of_nat (length l))).
    + rewrite Z.min_r by lia. done.
    + rewrite Z.min_l, !(take_ge (drop _ _)) by (rewrite ?length_drop; lia). done.
  - rewrite !(drop_ge l) by lia. by rewrite !take_nil.
Qed.
Lemma py_take_drop i l : py_take i l ++ py_drop i l = l.
Proof. apply take_drop. Qed.
Lemma len_py_take i l : 0 ≤ i → len (py_take i l) = Z.min i (len l).
Proof. intros. rewrite py_take_nonneg, len_take by done. lia. Qed.
Lemma len_py_drop i l : 0 ≤ i → len (py_drop i l) = Z.max 0 (len l - i).
Proof. intros. rewrite py_drop_nonneg, len_drop by done. lia. Qed.
End lists.

#[export] Hint Rewrite @len_nil @len_cons @len_app @len_take @len_drop : pylen.

(** Record that every length in sight is non-negative. *)
Ltac len_pos :=
  repeat match goal with
  | |- context [len ?l] =>
      lazymatch goal with
      | _ : 0 ≤ len l |- _ => fail | _ => pose proof (len_nonneg l) end
  | _ : context [len ?l] |- _ =>
      lazymatch goal with
      | _ : 0 ≤ len l |- _ => fail | _ => pose proof (len_nonneg l) end
  end.

(** Normalise lengths, then decide. *)
Ltac lenlia := autorewrite with pylen in *; len_pos; lia.

Lemma len_fmap {A B} (f : A → B) l : len (f <$> l) = len l.
Proof. unfold len. by rewrite length_fmap. Qed.
Lemma len_seqZ m n : len (seqZ m n) = Z.max 0 n.
Proof. unfold len. rewrite length_seqZ. lia. Qed.
Lemma len_arange lo hi : len (arange lo hi) = Z.max 0 (hi - lo).
Proof. apply len_seqZ. Qed.
#[export] Hint Rewrite @len_fmap len_seqZ len_arange : pylen.

Lemma elem_of_arange x lo hi : x ∈ arange lo hi ↔ lo ≤ x < hi.
Proof. unfold arange. rewrite elem_of_seqZ. lia. Qed.
Lemma NoDup_arange lo hi : NoDup (arange lo hi).
Proof. apply NoDup_seqZ. Qed.

Lemma arange_app a b c : a ≤ b ≤ c → arange a c = arange a b ++ arange b c.
Proof.
  intros. unfold arange. replace (c - a) with ((b - a) + (c - b)) by lia.
  rewrite seqZ_app by lia. do 2 f_equal. lia.
Qed.
Lemma arange_shift k a b : Z.add k <$> arange a b = arange (k + a) (k + b).
Proof. unfold arange. rewrite fmap_add_seqZ. f_equal. lia. Qed.
Lemma arange_empty a b : b ≤ a → arange a b = [].
Proof. intros. unfold arange. apply seqZ_nil. lia. Qed.
Lemma arange_cons a b : a < b → arange a b = a :: arange (a + 1) b.
Proof.
  intros. unfold arange. rewrite seqZ_cons by lia. f_equal. f_equal; lia.
Qed.
Lemma arange_fmap_lookup {A B} (l : list A) (f : Z → B) (g : A → B) :
  (∀ i x, l !! i = Some x → f (Z.of_nat i) = g x) → f <$> arange 0 (len l) = g <$> l.
Proof.
  intros H. apply list_eq. intros i. rewrite !list_lookup_fmap. unfold arange.
  destruct (l !! i) as [x|] eqn:E; simpl.
  - rewrite lookup_seqZ_lt; simpl.
    + by rewrite <-(H _ _ E).
    + apply lookup_lt_Some in E. unfold len. lia.
  - apply lookup_ge_None in E. rewrite lookup_seqZ_ge; [done|]. unfold len. lia.
Qed.

Lemma fmap_ext_elem {A B} (f g : A → B) (l : list A) :
  (∀ x, x ∈ l → f x = g x) → f <$> l = g <$> l.
Proof.
  intros H. apply list_fmap_ext. intros i x E. apply H. apply list_elem_of_lookup. eauto.
Qed.

Lemma filter_all {A} (P : A → Prop) `{∀ x, Decision (P x)} (l : list A) :
  (∀ x, x ∈ l → P x) → filter P l = l.
Proof.
  induction l as [|x l IH]; intros Hl; [done|].
  rewrite filter_cons_True, IH; [done|set_solver..].
Qed.
Lemma filter_none {A} (P : A → Prop) `{∀ x, Decision (P x)} (l : list A) :
  (∀ x, x ∈ l → ¬ P x) → filter P l = [].
Proof.
  induction l as [|x l IH]; intros Hl; [done|].
  rewrite filter_cons_False, IH; [done|set_solver..].
Qed.

(** Sums of integer lists ([sum] of Python, [tl.sum]). *)
Definition zsum (l : list Z) : Z := foldr Z.add 0 l.
#[global] Arguments zsum : simpl never.

Lemma zsum_cons x l : zsum (x :: l) = x + zsum l.
Proof. done. Qed.
Lemma zsum_app l k : zsum (l ++ k) = zsum l + zsum k.
Proof. unfold zsum. induction l; simpl; lia. Qed.
Lemma zsum_perm l k : l ≡ₚ k → zsum l = zsum k.
Proof. unfold zsum. induction 1; simpl; lia. Qed.
Lemma zsum_nonneg l : (∀ x, x ∈ l → 0 ≤ x) → 0 ≤ zsum l.
Proof.
  induction l as [|x l IH]; simpl; [done|]. intros H.
  assert (0 ≤ x) by (apply H; set_solver).
  assert (0 ≤ zsum l) by (apply IH; set_solver). rewrite zsum_cons. lia.
Qed.
Lemma zsum_submseteq l k : l ⊆+ k → (∀ x, x ∈ k → 0 ≤ x) → zsum l ≤ zsum k.
Proof.
  intros [r Hr]%submseteq_Permutation Hk. rewrite (zsum_perm _ _ Hr), zsum_app.
  assert (0 ≤ zsum r); [|lia]. apply zsum_nonneg. intros x Hx. apply Hk. rewrite Hr. set_solver.
Qed.
Lemma zsum_zeros {A} (l : list A) : zsum ((fun _ => 0) <$> l) = 0.
Proof. unfold zsum. induction l as [|x l IH]; csimpl; [done|]. rewrite IH. lia. Qed.

Lemma torch_sort_perm l : torch_sort l ≡ₚ l.
Proof. apply merge_sort_Permutation. Qed.
Lemma torch_sort_sorted l : StronglySorted Z.le (torch_sort l).
Proof. apply StronglySorted_merge_sort; [apply _|]. intros x y. lia. Qed.
Lemma torch_unique_NoDup l : NoDup (torch_unique l).
Proof. unfold torch_unique. rewrite torch_sort_perm. apply NoDup_remove_dups. Qed.
Lemma elem_of_torch_unique x l : x ∈ torch_unique l ↔ x ∈ l.
Proof. unfold torch_unique. by rewrite torch_sort_perm, elem_of_remove_dups. Qed.

Example slice_forms : [1; 2; 3; 4].[: -1] = [1; 2; 3] ∧ [1; 2; 3].[1 :] = [2; 3]
  ∧ [1; 2; 3; 4].[1 :: 3] = [2; 3] ∧ [1; 2].[3 :: 1] = [].
Proof. done. Qed.

(** ** Ordered dictionaries

    A Python dict keeps insertion order; assigning an existing key keeps its
    place. *)

Section odict.
Context {K V : Type} `{EqDecision K}.
Implicit Types (d : list (K * V)) (k : K) (v : V).

Fixpoint od_get k d : option V :=
  match d with
  | [] => None
  | (k', v) :: d => if decide (k = k') then Some v else od_get k d
  end.

Fixpoint od_set k v d : list (K * V) :=
  match d with
  | [] => [(k, v)]
  | (k', v') :: d => if decide (k = k') then (k, v) :: d else (k', v') :: od_set k v d
  end.

Fixpoint od_del k d : list (K * V) :=
  match d with
  | [] => []
  | (k', v') :: d => if decide (k = k') then d else (k', v') :: od_del k d
  end.

Lemma od_get_elem k v d : od_get k d = Some v → (k, v) ∈ d.
Proof.
  induction d as [|[k' v'] d IH]; simpl; [done|].
  case_decide; [intros [= ->]; subst|]; set_solver.
Qed.

Lemma od_elem_get k v d : NoDup d.*1 → (k, v) ∈ d → od_get k d = Some v.
Proof.
  induction d as [|[k' v'] d IH]; simpl; [set_solver|].
  intros [Hk Hnd]%NoDup_cons [[= -> ->]|Hin]%elem_of_cons.
  - by rewrite decide_True.
  - rewrite decide_False; [by apply IH|]. intros ->. apply Hk.
    apply list_elem_of_fmap. by exists (k', v).
Qed.

Lemma od_get_None k d : od_get k d = None ↔ k ∉ d.*1.
Proof.
  induction d as [|[k' v'] d IH]; simpl; [set_solver|].
  case_decide; subst; [set_solver|]. rewrite IH. set_solver.
Qed.

Lemma od_get_set_eq k v d : od_get k (od_set k v d) = Some v.
Proof.
  induction d as [|[k' v'] d IH]; simpl; [by rewrite decide_True|].
  case_decide; simpl; [by rewrite decide_True|by rewrite decide_False].
Qed.

Lemma od_get_set_ne k k' v d : k ≠ k' → od_get k' (od_set k v d) = od_get k' d.
Proof.
  intros Hne. induction d as [|[k'' v'] d IH]; simpl; [by rewrite decide_False|].
  case_decide; subst; simpl; [by rewrite !decide_False|]. by rewrite IH.
Qed.

Lemma od_set_keys k v d x : x ∈ (od_set k v d).*1 ↔ x = k ∨ x ∈ d.*1.
Proof.
  induction d as [|[k' v'] d IH]; simpl; [set_solver|].
  case_decide; subst; simpl; set_solver.
Qed.

Lemma od_set_NoDup k v d : NoDup d.*1 → NoDup (od_set k v d).*1.
Proof.
  induction d as [|[k' v'] d IH]; simpl; [intros; apply NoDup_singleton|].
  intros [Hk Hnd]%NoDup_cons. case_decide; subst; simpl; apply NoDup_cons; [done|].
  split; [|by apply IH]. rewrite od_set_keys. naive_solver.
Qed.

Lemma od_del_keys k d : NoDup d.*1 → NoDup (od_del k d).*1 ∧ k ∉ (od_del k d).*1.
Proof.
  induction d as [|[k' v'] d IH]; simpl; [set_solver|]. intros [Hk Hnd]%NoDup_cons.
  destruct (IH Hnd) as [IH1 IH2]. case_decide; subst; [done|]. simpl.
  assert (∀ x, x ∈ (od_del k d).*1 → x ∈ d.*1) as Hsub.
  { clear. induction d as [|[k' v'] d IH]; simpl; [done|]. case_decide; set_solver. }
  split; [apply NoDup_cons; split; [by intros ?%Hsub|done]|set_solver].
Qed.

Lemma od_get_del_eq k d : NoDup d.*1 → od_get k (od_del k d) = None.
Proof. intros Hnd. apply od_get_None. by apply od_del_keys. Qed.

Lemma od_get_del_ne k k' d : k ≠ k' → od_get k' (od_del k d) = od_get k' d.
Proof.
  intros Hne. induction d as [|[k'' v'] d IH]; simpl; [done|].
  case_decide; subst; simpl; [by rewrite decide_False|]. by rewrite IH.
Qed.

End odict.

(** *** Prefixes and pages *)
Lemma page_of_prefix {A} ps (l1 l2 : list A) i :
  l1 `prefix_of` l2 → (i + ps ≤ length l1)%nat →
  take ps (drop i l1) = take ps (drop i l2).
Proof.
  intros [r ->] Hi. rewrite drop_app_le by lia.
  rewrite take_app_le; [done|]. rewrite length_drop. lia.
Qed.

(** Page-aligned lengths differ by whole pages. *)
Lemma aligned_gap ps a b :
  (a mod ps = 0)%nat → (b mod ps = 0)%nat → (a < b)%nat → (a + ps ≤ b)%nat.
Proof.
  intros [x Hx]%Nat.Div0.mod_divides [y Hy]%Nat.Div0.mod_divides Hlt.
  assert (x < y)%nat by (apply Nat.nle_gt; intros ?; nia). nia.
Qed.

Lemma prefix_same_length {A} (l1 l2 l : list A) :
  l1 `prefix_of` l → l2 `prefix_of` l → length l1 = length l2 → l1 = l2.
Proof. intros [r ->] [r' E] Hl. by apply app_inj_1 in E as [? _]. Qed.

Lemma prefix_shorter {A} (l1 l2 l : list A) :
  l1 `prefix_of` l → l2 `prefix_of` l → (length l1 ≤ length l2)%nat → l1 `prefix_of` l2.
Proof.
  intros H1 H2 Hl. destruct (prefix_weak_total l1 l2 l H1 H2) as [|Hp]; [done|].
  pose proof (prefix_length _ _ Hp). rewrite (prefix_length_eq _ _ Hp) by lia. done.
Qed.

Lemma prefix_fmap_fst {A B} (l1 l2 : list (A * B)) : l1 `prefix_of` l2 → l1.*1 `prefix_of` l2.*1.
Proof. intros [r ->]. rewrite fmap_app. by apply prefix_app_r. Qed.

Lemma filter_ext_elem {A} (P Q : A → Prop) `{∀ x, Decision (P x), ∀ x, Decision (Q x)} (l : list A) :
  (∀ x, x ∈ l → P x ↔ Q x) → filter P l = filter Q l.
Proof.
  induction l as [|x l IH]; intros E; [done|].
  rewrite !filter_cons, IH by (intros; apply E; by right).
  assert (P x ↔ Q x) by (apply E; left). repeat case_decide; tauto || done.
Qed.

Lemma aligned_drop {A} ps m (k : list A) :
  (length k mod ps = 0)%nat → (m mod ps = 0)%nat → (length (drop m k) mod ps = 0)%nat.
Proof.
  intros [x Hx]%Nat.Div0.mod_divides [y Hy]%Nat.Div0.mod_divides.
  rewrite length_drop, Hx, Hy, <-Nat.mul_sub_distr_l, Nat.mul_comm. apply Nat.Div0.mod_mul.
Qed.
