(* ===== verification/Allocator.v ===== *)
(** * KV-slot allocators ([python/sglang/srt/mem_cache/allocator.py])

    [BaseTokenToKVPoolAllocator] and its token-granular subclass
    [TokenToKVPoolAllocator].  Tensors of slot indices are lists of
    integers; [dtype], [device] and the backing [_kvcache] carry no
    allocation state and are left out.

    The ownership invariant [owned a used] says that the free list, the
    released list, the pending free group and the slots [used] handed out to
    clients partition the pool exactly: no slot is lost, none is handed out
    twice and the padding slot 0 is never handed out. *)

From S2P Require Import Prelude.

(** ** Base class *)

Module Base.

Record t := mk {
  size : Z;
  page_size : Z;
  need_sort : bool;
  free_pages : list Z;
  release_pages : list Z;
  is_not_in_free_group : bool;
  free_group : list (list Z);
}.

#[export] Instance t_eq_dec : EqDecision t.
Proof. solve_decision. Defined.

(** The abstract constructor: no page list yet ([None] in the source). *)
Definition init (size page_size : Z) (need_sort : bool) : t :=
  mk size page_size need_sort [] [] true [].

Definition with_pages (fp rp : list Z) (a : t) : t :=
  mk (size a) (page_size a) (need_sort a) fp rp
     (is_not_in_free_group a) (free_group a).

Definition with_group (out : bool) (g : list (list Z)) (a : t) : t :=
  mk (size a) (page_size a) (need_sort a) (free_pages a) (release_pages a) out g.

Definition available_size (a : t) : Z :=
  (len (free_pages a) + len (release_pages a)) * page_size a.

Definition backup_state (a : t) : list Z * list Z :=
  (free_pages a, release_pages a).

Definition restore_state (state : list Z * list Z) (a : t) : t :=
  with_pages state.1 state.2 a.

Definition free_group_begin (a : t) : t := with_group false [] a.

(** [free_group_end] calls the subclass's [free], passed as an argument. *)
Definition free_group_end (free : list Z → t → t) (a : t) : t :=
  let a := with_group true (free_group a) a in
  match free_group a with
  | [] => a
  | g => free (concat g) a
  end.

Definition merge_and_sort_free (a : t) : t :=
  if 0 <? len (release_pages a)
  then with_pages (torch_sort (free_pages a ++ release_pages a)) [] a
  else a.

(** The guard in front of [merge_and_sort_free] in every [alloc] variant. *)
Definition merge_if_short (need : Z) (a : t) : t :=
  if need_sort a && (len (free_pages a) <? need)
  then merge_and_sort_free a else a.

(** The common [clear] of both subclasses: every page from 1 to [n] is free. *)
Definition reset_to (n : Z) (a : t) : t :=
  mk (size a) (page_size a) (need_sort a) (arange 1 (n + 1)) [] true [].

(** Pages waiting in an open free group. *)
Definition pending (a : t) : list Z :=
  if is_not_in_free_group a then [] else concat (free_group a).

(** Everything the pool still holds. *)
Definition held (a : t) : list Z := free_pages a ++ release_pages a.

Lemma merge_held a : held (merge_and_sort_free a) ≡ₚ held a.
Proof.
  unfold merge_and_sort_free, held. case_match; simpl; [|done].
  by rewrite app_nil_r, torch_sort_perm.
Qed.

Lemma merge_release a : release_pages (merge_and_sort_free a) = [].
Proof.
  unfold merge_and_sort_free. case_match; simpl; [done|].
  apply len_zero. pose proof (len_nonneg (release_pages a)). lia.
Qed.

Lemma merge_free_len a :
  len (free_pages (merge_and_sort_free a)) = len (held a).
Proof.
  rewrite <-(len_perm _ _ (merge_held a)). unfold held.
  by rewrite merge_release, app_nil_r.
Qed.

Lemma merge_frame a :
  size (merge_and_sort_free a) = size a ∧
  page_size (merge_and_sort_free a) = page_size a ∧
  need_sort (merge_and_sort_free a) = need_sort a ∧
  pending (merge_and_sort_free a) = pending a ∧
  is_not_in_free_group (merge_and_sort_free a) = is_not_in_free_group a.
Proof. unfold merge_and_sort_free. by case_match. Qed.

(** [backup_state] and [restore_state] undo any change of the page lists
    made in between, whatever happened to them. *)
Lemma restore_backup a fp rp :
  restore_state (backup_state a) (with_pages fp rp a) = a.
Proof. by destruct a. Qed.

End Base.

(** ** Token allocator *)

Module Token.
Import Base.

Definition clear (a : t) : t := reset_to (size a) a.

Definition init (size : Z) (need_sort : bool) : t :=
  clear (Base.init size 1 need_sort).

Definition available_size (a : t) : Z :=
  len (free_pages a) + len (release_pages a).

Definition alloc (need_size : Z) (a : t) : option (list Z) * t :=
  let a := merge_if_short need_size a in
  if len (free_pages a) <? need_size then (None, a)
  else ((Some (free_pages a).[: need_size]),
        with_pages (free_pages a).[need_size :] (release_pages a) a).

Definition free (free_index : list Z) (a : t) : t :=
  if len free_index =? 0 then a
  else if is_not_in_free_group a then
    if need_sort a
    then with_pages (free_pages a) (release_pages a ++ free_index) a
    else with_pages (free_pages a ++ free_index) (release_pages a) a
  else with_group false (free_group a ++ [free_index]) a.

(** Ownership: the pool's slots are [1..size], each in exactly one place.
    Without sorting the released list is never used. *)
Record owned (a : t) (used : list Z) : Prop := mk_owned {
  owned_partition : held a ++ pending a ++ used ≡ₚ arange 1 (size a + 1);
  owned_nosort : need_sort a = false → release_pages a = [];
  owned_page : page_size a = 1;
}.

#[global] Instance owned_proper a : Proper ((≡ₚ) ==> iff) (owned a).
Proof.
  intros u v E; split; intros [H1 H2 H3]; split; try done;
    [rewrite <-H1|rewrite <-H1]; by rewrite E.
Qed.

Lemma owned_init n ns : owned (init n ns) [].
Proof. split; [|done..]. unfold held, pending. simpl. by rewrite !app_nil_r. Qed.

Lemma owned_clear a used : owned a used → owned (clear a) [].
Proof. intros []. split; [|done..]. unfold held, pending. simpl. by rewrite !app_nil_r. Qed.

Lemma owned_merge a used : owned a used → owned (merge_and_sort_free a) used.
Proof.
  intros [H1 H2 H3]. destruct (merge_frame a) as (E1 & E2 & E3 & E4 & _).
  split; rewrite ?E1, ?E2, ?E3, ?E4; [by rewrite merge_held| |done].
  intros _. apply merge_release.
Qed.

Lemma owned_bounds a used x : owned a used → x ∈ used → 1 ≤ x ≤ size a.
Proof.
  intros [H _ _] Hx. assert (x ∈ arange 1 (size a + 1)) as E%elem_of_arange.
  { rewrite <-H. set_solver. }
  lia.
Qed.

Lemma owned_NoDup a used : owned a used → NoDup (held a ++ pending a ++ used).
Proof. intros [H _ _]. rewrite H. apply NoDup_arange. Qed.

(** The allocator state after the optional merge in [alloc]. *)
Lemma alloc_pre a used n :
  owned a used →
  let a' := merge_if_short n a in
  owned a' used ∧ held a' ≡ₚ held a ∧ pending a' = pending a ∧ size a' = size a ∧
  (len (free_pages a') < n ↔ available_size a < n).
Proof.
  intros Ho. unfold available_size, merge_if_short. simpl.
  destruct (need_sort a) eqn:Es; simpl.
  - destruct (Z.ltb_spec (len (free_pages a)) n); simpl.
    + destruct (merge_frame a) as (E1 & _ & _ & E4 & _).
      rewrite merge_free_len. unfold held.
      split_and!; try done; [by apply owned_merge|apply merge_held|lenlia..].
    + split_and!; try done; pose proof (len_nonneg (release_pages a)); lia.
  - rewrite (owned_nosort _ _ Ho Es). split_and!; try done; lenlia.
Qed.

Lemma alloc_some a used n idx a' :
  owned a used → 0 ≤ n → alloc n a = (Some idx, a') →
  len idx = n ∧ owned a' (idx ++ used) ∧
  available_size a' = available_size a - n.
Proof.
  intros Ho Hn. unfold alloc.
  destruct (alloc_pre a used n Ho) as (Ho' & Hh & Hp & Hs & _). revert Ho' Hh Hp Hs.
  set (b := merge_if_short n a). intros Ho' Hh Hp Hs.
  destruct (Z.ltb_spec (len (free_pages b)) n); [done|]. intros [= <- <-].
  pose proof (py_take_drop n (free_pages b)) as Htd.
  rewrite len_py_take by done. split; [lia|]. split.
  - destruct Ho' as [H1 H2 H3]. split; [|done..]. simpl. rewrite <-H1.
    unfold held, pending. simpl. revert Htd.
    generalize (free_pages b).[: n], (free_pages b).[n :]. intros ?? <-.
    solve_Permutation.
  - apply len_perm in Hh. unfold available_size, held in *. simpl.
    rewrite len_py_drop by done. lenlia.
Qed.

Lemma alloc_none a used n :
  owned a used → (alloc n a).1 = None ↔ available_size a < n.
Proof.
  intros Ho. destruct (alloc_pre a used n Ho) as (_ & _ & _ & _ & Hlt).
  unfold alloc. revert Hlt. set (b := merge_if_short n a). intros <-.
  destruct (Z.ltb_spec (len (free_pages b)) n); simpl; split; (done || lia).
Qed.

Lemma alloc_none_owned a used n a' :
  owned a used → alloc n a = (None, a') →
  owned a' used ∧ available_size a' = available_size a.
Proof.
  intros Ho. destruct (alloc_pre a used n Ho) as (Ho' & Hh & _ & _ & _).
  unfold alloc. revert Ho' Hh. set (b := merge_if_short n a). intros Ho' Hh.
  case_match; [intros [= <-]|done]. split; [done|].
  apply len_perm in Hh. unfold available_size, held in *. lenlia.
Qed.

Lemma free_owned a idx rest :
  owned a (idx ++ rest) → owned (free idx a) rest.
Proof.
  intros [H1 H2 H3]. unfold free.
  destruct (Z.eqb_spec (len idx) 0) as [->%len_zero|]; [done|].
  destruct (is_not_in_free_group a) eqn:Eg; [destruct (need_sort a) eqn:Es|];
    (split; [simpl; rewrite <-H1|simpl; intros; (congruence || auto)|done]);
    unfold held, pending; simpl; rewrite ?Eg.
  - solve_Permutation.
  - solve_Permutation.
  - rewrite concat_app. simpl. rewrite app_nil_r. solve_Permutation.
Qed.

Lemma free_available a idx :
  is_not_in_free_group a = true →
  available_size (free idx a) = available_size a + len idx.
Proof.
  intros Hg. unfold free, available_size. rewrite Hg.
  destruct (Z.eqb_spec (len idx) 0); [lia|]. case_match; simpl; lenlia.
Qed.

(** *** Grouped frees *)

Definition free_all (idxs : list (list Z)) (a : t) : t :=
  foldl (fun a idx => free idx a) a idxs.

Lemma free_open i g a :
  free i (with_group false g a) =
  with_group false (if decide (i = []) then g else g ++ [i]) a.
Proof.
  unfold free. simpl. destruct (Z.eqb_spec (len i) 0) as [E|E];
    rewrite len_zero in E; by case_decide.
Qed.

Lemma free_all_open idxs a g :
  free_all idxs (with_group false g a) =
  with_group false (g ++ filter (fun i => i ≠ []) idxs) a.
Proof.
  revert g. induction idxs as [|i idxs IH]; intros g; simpl.
  { by rewrite app_nil_r. }
  rewrite free_open. fold (free_all idxs). rewrite IH. case_decide.
  - by rewrite filter_cons_False by naive_solver.
  - by rewrite filter_cons_True, <-app_assoc by done.
Qed.

Lemma free_pages_closed idx a :
  is_not_in_free_group a = true →
  free idx a = if need_sort a
               then with_pages (free_pages a) (release_pages a ++ idx) a
               else with_pages (free_pages a ++ idx) (release_pages a) a.
Proof.
  intros Hg. unfold free. rewrite Hg.
  destruct (Z.eqb_spec (len idx) 0) as [->%len_zero|]; [|done].
  rewrite !app_nil_r. destruct a; simpl. by case_match.
Qed.

Lemma free_all_closed idxs a :
  is_not_in_free_group a = true →
  free_all idxs a = free (concat idxs) a.
Proof.
  revert a. induction idxs as [|i idxs IH]; intros a Hg; simpl; [done|].
  rewrite IH by (rewrite free_pages_closed by done; by case_match).
  rewrite !free_pages_closed by (try done; rewrite free_pages_closed by done; by case_match).
  by destruct (need_sort a) eqn:E; simpl; rewrite E; simpl; rewrite <-app_assoc.
Qed.

Lemma concat_filter_nonempty (idxs : list (list Z)) :
  concat (filter (fun i => i ≠ []) idxs) = concat idxs.
Proof.
  induction idxs as [|i idxs IH]; [done|].
  destruct (decide (i = [])) as [->|].
  - rewrite filter_cons_False by naive_solver. done.
  - rewrite filter_cons_True by done. simpl. by rewrite IH.
Qed.

Lemma group_end_owned a used :
  is_not_in_free_group a = false → owned a used → owned (free_group_end free a) used.
Proof.
  intros Hg [H1 H2 H3]. unfold free_group_end. simpl.
  assert (owned (with_group true (free_group a) a) (concat (free_group a) ++ used)) as H.
  { split; [|done..]. simpl. rewrite <-H1. unfold held, pending. simpl. by rewrite Hg. }
  destruct (free_group a) as [|x g]; [done|]. by apply free_owned.
Qed.

(** *** Histories

    A client holds the slots [used]; every call the code makes is a step.
    [free_group_begin]/[free_group_end] bracket the frees of one batch. *)
Inductive step : t * list Z → t * list Z → Prop :=
  | step_alloc n idx a a' used :
      0 ≤ n → alloc n a = (Some idx, a') → step (a, used) (a', idx ++ used)
  | step_alloc_fail n a a' used :
      alloc n a = (None, a') → step (a, used) (a', used)
  | step_free idx rest a used :
      used ≡ₚ idx ++ rest → step (a, used) (free idx a, rest)
  | step_group_begin a used :
      is_not_in_free_group a = true → step (a, used) (free_group_begin a, used)
  | step_group_end a used :
      is_not_in_free_group a = false → step (a, used) (free_group_end free a, used)
  | step_clear a used : step (a, used) (clear a, []).

Lemma free_size idx a : size (free idx a) = size a.
Proof. unfold free. by repeat case_match. Qed.

Lemma free_closed idx a :
  is_not_in_free_group a = true → is_not_in_free_group (free idx a) = true.
Proof. intros H. unfold free. rewrite H. by repeat case_match. Qed.

Lemma alloc_frame n a r a' :
  alloc n a = (r, a') →
  size a' = size a ∧ is_not_in_free_group a' = is_not_in_free_group a.
Proof.
  assert (size (merge_if_short n a) = size a ∧
          is_not_in_free_group (merge_if_short n a) = is_not_in_free_group a) as [E1 E2].
  { unfold merge_if_short. case_match; [|done]. by destruct (merge_frame a) as (? & _ & _ & _ & ?). }
  unfold alloc. case_match; intros [= <- <-]; simpl; by rewrite E1, E2.
Qed.

Lemma owned_available a used :
  owned a used → is_not_in_free_group a = true →
  available_size a + len used = Z.max 0 (size a).
Proof.
  intros [H _ _] Hg. apply len_perm in H. unfold pending in H. rewrite Hg in H.
  unfold held, available_size in *. lenlia.
Qed.

Lemma step_owned s s' : step s s' → owned s.1 s.2 → owned s'.1 s'.2.
Proof.
  destruct 1 as [n idx a a' used Hn E|n a a' used E|idx rest a used E|a used Hg|a used Hg|a used];
    simpl; intros Ho.
  - by eapply alloc_some.
  - by eapply alloc_none_owned.
  - apply free_owned. by rewrite <-E.
  - destruct Ho as [H1 H2 H3]. split; [|done..]. simpl. rewrite <-H1.
    unfold held, pending. simpl. by rewrite Hg.
  - by apply group_end_owned.
  - by eapply owned_clear.
Qed.

Lemma step_size s s' : step s s' → size s'.1 = size s.1.
Proof.
  destruct 1 as [n idx a a' used Hn E|n a a' used E|idx rest a used E|a used Hg|a used Hg|a used];
    simpl in *; try done.
  - by apply alloc_frame in E as [? _].
  - by apply alloc_frame in E as [? _].
  - apply free_size.
  - unfold free_group_end. case_match; rewrite ?free_size; done.
Qed.

(** C27: in every history of the token allocator that starts from a fresh pool
    of [n] slots, the slots handed out are distinct, lie in [1..n] (slot 0 is
    never given out), and free, pending and used slots always add up to [n]. *)
Theorem token_history_conserves n ns a used :
  0 ≤ n → rtc step (init n ns, []) (a, used) →
  NoDup used ∧ (∀ x, x ∈ used → 1 ≤ x ≤ n) ∧
  (∀ x, x ∈ used → x ∉ held a) ∧
  available_size a + len (pending a) + len used = n.
Proof.
  intros Hn Hr.
  assert (owned a used ∧ size a = n) as [Ho Hs].
  { cut (owned (a, used).1 (a, used).2 ∧ size (a, used).1 = n); [done|].
    revert Hr. generalize (a, used). apply rtc_ind_r.
    - split; [apply owned_init|done].
    - intros y z _ Hyz [IH1 IH2]. split; [by eapply step_owned|].
      by rewrite (step_size _ _ Hyz). }
  pose proof (owned_NoDup _ _ Ho) as (_ & Hd & (_ & _ & Hu)%NoDup_app)%NoDup_app.
  split; [done|]. split; [|split].
  - intros x Hx. rewrite <-Hs. by eapply owned_bounds.
  - intros x Hx Hin. apply (Hd x); set_solver.
  - destruct Ho as [H1 _ _]. apply len_perm in H1. unfold held, available_size in *.
    lenlia.
Qed.

Lemma token_history_conserves_witness :
  NoDup [1; 2] ∧ (∀ x, x ∈ [1; 2] → 1 ≤ x ≤ 3) ∧
  (∀ x, x ∈ [1; 2] → x ∉ held (alloc 2 (init 3 true)).2) ∧
  available_size (alloc 2 (init 3 true)).2 + len (pending (alloc 2 (init 3 true)).2)
    + len [1; 2] = 3.
Proof.
  apply (token_history_conserves 3 true); [lia|].
  apply rtc_once. apply (step_alloc 2 [1; 2]); [lia|reflexivity].
Defined.

(** freeing a batch inside [free_group_begin]/[free_group_end] leaves
    exactly the same free and released lists, in the same order, as freeing
    each index tensor at once. *)
Theorem token_free_group_equiv a idxs :
  is_not_in_free_group a = true →
  let grouped := free_group_end free (free_all idxs (free_group_begin a)) in
  let direct := free_all idxs a in
  free_pages grouped = free_pages direct ∧
  release_pages grouped = release_pages direct ∧
  is_not_in_free_group grouped = true.
Proof.
  intros Hg grouped direct. subst grouped direct.
  unfold free_group_begin. rewrite free_all_open. simpl.
  rewrite free_all_closed, free_pages_closed by done.
  unfold free_group_end. simpl.
  pose proof (concat_filter_nonempty idxs) as Hc.
  case_match eqn:E; rewrite <-Hc, ?E; simpl.
  - rewrite !app_nil_r. by case_match.
  - rewrite <-E, free_pages_closed by done. simpl. by case_match.
Qed.

Lemma token_free_group_equiv_witness :
  free_pages (free_group_end free (free_all [[1]; []; [2]]
    (free_group_begin (alloc 2 (init 3 false)).2))) = [3; 1; 2] ∧
  is_not_in_free_group (alloc 2 (init 3 false)).2 = true.
Proof.
  split; [|reflexivity].
  rewrite (proj1 (token_free_group_equiv (alloc 2 (init 3 false)).2 [[1]; []; [2]] eq_refl)).
  reflexivity.
Defined.

(** [alloc n] refuses exactly when fewer than [n] slots are available
    (released slots count: they are merged first), and a refusal loses nothing;
    otherwise it returns [n] slots and the available count drops by [n]. *)
Theorem token_alloc_complete a used n :
  owned a used → 0 ≤ n →
  match alloc n a with
  | (None, a') =>
      available_size a < n ∧ owned a' used ∧ available_size a' = available_size a
  | (Some idx, a') =>
      n ≤ available_size a ∧ len idx = n ∧ owned a' (idx ++ used) ∧
      available_size a' = available_size a - n
  end.
Proof.
  intros Ho Hn. pose proof (alloc_none a used n Ho) as Hiff.
  destruct (alloc n a) as [[idx|] a'] eqn:E; simpl in Hiff.
  - destruct (alloc_some a used n idx a' Ho Hn E) as (? & ? & ?).
    split_and!; try done. destruct (decide (available_size a < n)); [|lia].
    naive_solver.
  - split; [by apply Hiff|]. by eapply alloc_none_owned.
Qed.

Lemma token_alloc_complete_witness :
  owned (init 4 true) [] ∧ 4 ≤ available_size (init 4 true).
Proof.
  split; [apply owned_init|].
  exact (proj1 (token_alloc_complete (init 4 true) [] 4 (owned_init 4 true) ltac:(lia))).
Defined.

End Token.
