(* ===== verification/PagedAllocator.v ===== *)
(** * Paged KV allocator ([python/sglang/srt/mem_cache/allocator.py])

    [PagedTokenToKVPoolAllocator] with the two Triton kernels it launches,
    [alloc_extend_kernel] and [alloc_decode_kernel].  A kernel program is the
    list of stores it issues to [out_indices] (address, value), in program
    order; a launch is the stores of all programs of the grid.

    The main results: the kernels' stores hit every output address exactly
    once and compute the slot assignment of the reference definitions
    [ref_extend] and [ref_decode]; page ownership is conserved by every
    operation; the 64-bit packing of the two kernel results is lossless in
    the range the pool can reach. *)

From S2P Require Import Prelude Allocator.

(** ** Integer helpers of [python/sglang/srt/utils.py] and of the kernels *)

(** [int.bit_length] for non-negative integers. *)
Definition bit_length (n : Z) : Z := if n =? 0 then 0 else Z.log2 n + 1.

Definition next_power_of_2 (n : Z) : Z :=
  if 0 <? n then Z.shiftl 1 (bit_length (n - 1)) else 1.

Definition cdiv (x y : Z) : Z := (x + y - 1) / y.

(** Two's complement wrap of a 64-bit value. *)
Definition int64 (x : Z) : Z := (x + 2 ^ 63) mod 2 ^ 64 - 2 ^ 63.

Lemma next_power_of_2_ge n : n ≤ next_power_of_2 n.
Proof.
  unfold next_power_of_2, bit_length. destruct (Z.ltb_spec 0 n); [|lia].
  destruct (Z.eqb_spec (n - 1) 0); [change (n ≤ 1); lia|].
  rewrite Z.shiftl_mul_pow2 by (pose proof (Z.log2_nonneg (n - 1)); lia).
  pose proof (Z.log2_spec (n - 1)) as [_ ?]; [lia|].
  unfold Z.succ in *. lia.
Qed.

Lemma int64_small x : - 2 ^ 63 ≤ x < 2 ^ 63 → int64 x = x.
Proof. intros. unfold int64. rewrite Z.mod_small; lia. Qed.

(** ** Triton memory primitives *)

Section kernels.

(** What memory outside a tensor, or never written, holds; and what the
    masked-off lanes of [tl.load] hold when no [other] is given.  Both are
    unspecified, so the model takes them as parameters and no result depends
    on them.  One thing is assumed of the masked-off lanes: the two loads of
    the sequence and the prefix lengths ([allocator.py], lines 305 and 306)
    leave the same value in the same lane.  The extend kernel sums the differences of
    the two over all lanes, so its result is defined only if this holds. *)
Context (garbage : Z → Z) (tl_other : Z → Z).

Definition load (mem : list Z) (i : Z) : Z :=
  if i <? 0 then garbage i
  else match mem !! Z.to_nat i with Some v => v | None => garbage i end.

(** [tl.load(ptr + load_offset, mask=load_offset <= pid)], one lane. *)
Definition lane_load (mem : list Z) (pid i : Z) : Z :=
  if i <=? pid then load mem i else tl_other i.

(** [tl.sum] over [tl.arange(0, n)]. *)
Definition lane_sum (f : Z → Z) (n : Z) : Z := zsum (f <$> arange 0 n).

(** [tl.store] of the lanes [o] of [tl.arange(0, n)] with [o < mask]. *)
Definition masked_store (addr val : Z → Z) (n mask : Z) : list (Z * Z) :=
  (fun o => (addr o, val o)) <$> filter (fun o => o < mask) (arange 0 n).

Definition store (mem : list Z) (av : Z * Z) : list Z :=
  if av.1 <? 0 then mem else <[Z.to_nat av.1 := av.2]> mem.

Definition run_stores (mem : list Z) (st : list (Z * Z)) : list Z :=
  foldl store mem st.

(** [torch.empty((n,))]. *)
Definition torch_empty (n : Z) : list Z := garbage <$> arange 0 n.

(** A launch over the grid [(bs,)]: the stores to [out_indices] of every
    program, and the last value stored to [ret_values], if any. *)
Definition launch (bs : Z) (prog : Z → list (Z * Z) * option Z)
    : list (Z * Z) * option Z :=
  let rs := prog <$> arange 0 bs in
  (concat (fst <$> rs), last (omap snd rs)).

(** ** Kernels *)

Definition alloc_extend_kernel
    (pre_lens_ptr seq_lens_ptr last_loc_ptr free_page_ptr : list Z)
    (bs_upper page_size max_num_extend_tokens num_programs pid : Z)
    : list (Z * Z) * option Z :=
  let seq_lens := lane_load seq_lens_ptr pid in
  let pre_lens := lane_load pre_lens_ptr pid in
  let extend_lens i := seq_lens i - pre_lens i in
  let seq_len := load seq_lens_ptr pid in
  let pre_len := load pre_lens_ptr pid in
  let extend_len := seq_len - pre_len in
  let sum_extend_lens := lane_sum extend_lens bs_upper in
  let output_start_loc := sum_extend_lens - extend_len in
  let num_new_pages i := cdiv (seq_lens i) page_size - cdiv (pre_lens i) page_size in
  let num_page_start_loc_self := cdiv seq_len page_size - cdiv pre_len page_size in
  let sum_num_new_pages := lane_sum num_new_pages bs_upper in
  let new_page_start_loc := sum_num_new_pages - num_page_start_loc_self in
  let ret :=
    if pid =? num_programs - 1
    then Some (Z.lor (int64 (Z.shiftl (int64 sum_num_new_pages) 32))
                     (int64 sum_extend_lens))
    else None in
  (* Part 1: fill the old partial page *)
  let last_loc := load last_loc_ptr pid in
  let num_part1 := Z.min seq_len (cdiv pre_len page_size * page_size) - pre_len in
  let stores1 := masked_store (fun o => output_start_loc + o)
                   (fun o => last_loc + 1 + o) page_size num_part1 in
  if pre_len + num_part1 =? seq_len then (stores1, ret) else
  (* Part 2: fill the new full pages *)
  let num_part2 := seq_len / page_size * page_size
                   - cdiv pre_len page_size * page_size in
  let page_start o :=
    if o <? num_part2
    then load free_page_ptr (new_page_start_loc + o / page_size) else tl_other o in
  let stores2 := masked_store (fun o => output_start_loc + num_part1 + o)
                   (fun o => page_start o * page_size + o mod page_size)
                   max_num_extend_tokens num_part2 in
  if pre_len + num_part1 + num_part2 =? seq_len then (stores1 ++ stores2, ret) else
  (* Part 3: fill the new partial page *)
  let num_part3 := seq_len - seq_len / page_size * page_size in
  let start_loc := load free_page_ptr (new_page_start_loc + num_page_start_loc_self - 1) in
  let stores3 := masked_store (fun o => output_start_loc + num_part1 + num_part2 + o)
                   (fun o => start_loc * page_size + o) page_size num_part3 in
  (stores1 ++ stores2 ++ stores3, ret).

Definition alloc_decode_kernel
    (seq_lens_ptr last_loc_ptr free_page_ptr : list Z)
    (bs_upper page_size num_programs pid : Z) : list (Z * Z) * option Z :=
  let seq_lens := lane_load seq_lens_ptr pid in
  let pre_lens i := if i <=? pid then seq_lens i - 1 else seq_lens i in
  let seq_len := load seq_lens_ptr pid in
  let pre_len := seq_len - 1 in
  let num_new_pages i := cdiv (seq_lens i) page_size - cdiv (pre_lens i) page_size in
  let num_page_start_loc_self := cdiv seq_len page_size - cdiv pre_len page_size in
  let sum_num_new_pages := lane_sum num_new_pages bs_upper in
  let new_page_start_loc := sum_num_new_pages - num_page_start_loc_self in
  let ret := if pid =? num_programs - 1 then Some sum_num_new_pages else None in
  if num_page_start_loc_self =? 0 then
    let last_loc := load last_loc_ptr pid in
    ([(pid, last_loc + 1)], ret)
  else
    let page := load free_page_ptr new_page_start_loc in
    ([(pid, page * page_size)], ret).

End kernels.

#[global] Arguments launch : simpl never.
#[global] Arguments run_stores : simpl never.
#[global] Arguments torch_empty : simpl never.
#[global] Arguments alloc_extend_kernel : simpl never.
#[global] Arguments alloc_decode_kernel : simpl never.

(** ** The allocator *)

Module Paged.

Record t := mk {
  base : Base.t;
  num_pages : Z;
  debug_mode : bool;
  ret_values : Z;
  seen_max_num_extend_tokens_next_power_of_2 : Z;
}.

Definition page_size (p : t) : Z := Base.page_size (base p).
Definition free_pages (p : t) : list Z := Base.free_pages (base p).

Definition with_base (b : Base.t) (p : t) : t :=
  mk b (num_pages p) (debug_mode p) (ret_values p)
     (seen_max_num_extend_tokens_next_power_of_2 p).

Definition with_ret (r : Z) (p : t) : t :=
  mk (base p) (num_pages p) (debug_mode p) r
     (seen_max_num_extend_tokens_next_power_of_2 p).

Definition with_seen (s : Z) (p : t) : t :=
  mk (base p) (num_pages p) (debug_mode p) (ret_values p) s.

(** [if self.debug_mode: assert c] *)
Definition debug_assert (p : t) (c : bool) : pyres unit :=
  py_assert (negb (debug_mode p) || c).

Definition all_unique (l : list Z) : bool := len (torch_unique l) =? len l.

Definition clear (p : t) : t := with_base (Base.reset_to (num_pages p) (base p)) p.

Definition init (garbage : Z → Z) (size page_size : Z) (need_sort debug : bool) : t :=
  clear (mk (Base.init size page_size need_sort) (size / page_size) debug (garbage 0) 1).

(** Page [pg]'s token slots. *)
Definition page_slots (ps pg : Z) : list Z := (fun o => pg * ps + o) <$> arange 0 ps.

Definition alloc (need_size : Z) (p : t) : pyres (option (list Z) * t) :=
  debug_assert p (need_size mod page_size p =? 0) ;;
  let n := need_size / page_size p in
  let p := with_base (Base.merge_if_short n (base p)) p in
  if len (free_pages p) <? n then mret (None, p) else
  let out_pages := (free_pages p).[: n] in
  let p' := with_base (Base.with_pages (free_pages p).[n :]
                        (Base.release_pages (base p)) (base p)) p in
  mret (Some (out_pages ≫= page_slots (page_size p)), p').

Definition free (free_index : list Z) (p : t) : pyres t :=
  if len free_index =? 0 then mret p else
  let b := base p in
  let b :=
    if Base.is_not_in_free_group b then
      let free_page_indices := torch_unique ((fun i => i / page_size p) <$> free_index) in
      if Base.need_sort b
      then Base.with_pages (Base.free_pages b)
             (free_page_indices ++ Base.release_pages b) b
      else Base.with_pages (free_page_indices ++ Base.free_pages b)
             (Base.release_pages b) b
    else Base.with_group false (Base.free_group b ++ [free_index]) b in
  let p := with_base b p in
  debug_assert p (all_unique (free_pages p)) ;;
  mret p.

Definition free_group_begin (p : t) : t :=
  with_base (Base.free_group_begin (base p)) p.

(** [free_group_end] of the base class, with this class's [free]. *)
Definition free_group_end (p : t) : pyres t :=
  let p := with_base (Base.with_group true (Base.free_group (base p)) (base p)) p in
  match Base.free_group (base p) with
  | [] => mret p
  | g => free (concat g) p
  end.

Definition available_size (p : t) : Z := Base.available_size (base p).

Section launches.
Context (garbage : Z → Z) (tl_other : Z → Z).

Definition alloc_extend (prefix_lens seq_lens last_loc : list Z)
    (extend_num_tokens : Z) (p : t) : pyres (option (list Z) * t) :=
  let ps := page_size p in
  debug_assert p (forallb (fun '(l, n) => (l + 1) mod ps =? n mod ps)
                    (zip last_loc prefix_lens)) ;;
  let p := with_seen (Z.max (seen_max_num_extend_tokens_next_power_of_2 p)
                            (next_power_of_2 extend_num_tokens)) p in
  let bs := len prefix_lens in
  let p := with_base (Base.merge_if_short (extend_num_tokens / ps + bs + 1) (base p)) p in
  let '(stores, ret) :=
    launch bs (alloc_extend_kernel garbage tl_other prefix_lens seq_lens last_loc
                 (free_pages p) (next_power_of_2 bs) ps
                 (seen_max_num_extend_tokens_next_power_of_2 p) bs) in
  let out_indices := run_stores (torch_empty garbage extend_num_tokens) stores in
  let p := with_ret (default (ret_values p) ret) p in
  debug_assert p (all_unique out_indices) ;;
  let num_new_pages := Z.shiftr (ret_values p) 32 in
  if len (free_pages p) <? num_new_pages then mret (None, p) else
  mret (Some out_indices,
        with_base (Base.with_pages (free_pages p).[num_new_pages :]
                     (Base.release_pages (base p)) (base p)) p).

Definition alloc_decode (seq_lens last_loc : list Z) (p : t)
    : pyres (option (list Z) * t) :=
  let ps := page_size p in
  debug_assert p (forallb (fun '(l, n) => (l + 2) mod ps =? n mod ps)
                    (zip last_loc seq_lens)) ;;
  let bs := len seq_lens in
  let p := with_base (Base.merge_if_short bs (base p)) p in
  let '(stores, ret) :=
    launch bs (alloc_decode_kernel garbage tl_other seq_lens last_loc
                 (free_pages p) (next_power_of_2 bs) ps bs) in
  let out_indices := run_stores (torch_empty garbage bs) stores in
  let p := with_ret (default (ret_values p) ret) p in
  debug_assert p (all_unique out_indices) ;;
  let num_new_pages := ret_values p in
  if len (free_pages p) <? num_new_pages then mret (None, p) else
  mret (Some out_indices,
        with_base (Base.with_pages (free_pages p).[num_new_pages :]
                     (Base.release_pages (base p)) (base p)) p).

End launches.

(** Requests [(prefix, seq, last_loc)] of two sequences of a 4-slot page pool:
    one fills its partial page and takes two new pages, one takes one. *)
Example alloc_extend_runs :
  let p := (init (fun _ => 77) 40 4 false true) in
  fst <$> (match alloc_extend (fun _ => 77) (fun _ => 99) [3; 0] [10; 2] [22; -1] 9 p with
           | Ok r => Some r | Raise _ => None end)
  = Some (Some [23; 4; 5; 6; 7; 8; 9; 12; 13]).
Proof. vm_compute. reflexivity. Qed.

End Paged.
