(* ===== verification/PagedProofs.v ===== *)
(** * Correctness of the paged allocator

    Reference definitions of the slots a batch receives, the proof that the
    kernels of [PagedAllocator] compute them, and page ownership. *)

From S2P Require Import Prelude Allocator PagedAllocator.

(** ** Reference assignment *)

(** Slot of position [t] of a request that already has [pre] tokens, the last
    of them in slot [last]: positions up to the end of the last old page
    continue after [last]; later ones go to the request's new pages in order,
    each page filled from its start. *)
Definition ref_slot (ps pre last : Z) (page : Z → Z) (t : Z) : Z :=
  if t <? cdiv pre ps * ps then last + 1 + (t - pre)
  else page ((t - cdiv pre ps * ps) / ps) * ps + t mod ps.

Definition new_pages (ps pre seq : Z) : Z := cdiv seq ps - cdiv pre ps.

(** Requests are processed in batch order, each taking the next pages of the
    free list; [off] is the number of pages taken so far. *)
Fixpoint ref_extend (ps : Z) (page : Z → Z) (off : Z)
    (reqs : list (Z * Z * Z)) : list Z :=
  match reqs with
  | [] => []
  | (pre, seq, last) :: reqs =>
      (ref_slot ps pre last (fun k => page (off + k)) <$> arange pre seq)
      ++ ref_extend ps page (off + new_pages ps pre seq) reqs
  end.

Definition total_pages (ps : Z) (reqs : list (Z * Z * Z)) : Z :=
  zsum ((fun r => new_pages ps r.1.1 r.1.2) <$> reqs).

Definition total_tokens (reqs : list (Z * Z * Z)) : Z :=
  zsum ((fun r => r.1.2 - r.1.1) <$> reqs).

(** ** Arithmetic of pages *)

Lemma cdiv_bounds x ps : 0 < ps → x ≤ cdiv x ps * ps < x + ps.
Proof.
  intros. unfold cdiv.
  pose proof (Z.div_mod (x + ps - 1) ps). pose proof (Z.mod_pos_bound (x + ps - 1) ps). nia.
Qed.

Lemma cdiv_mono x y ps : 0 < ps → x ≤ y → cdiv x ps ≤ cdiv y ps.
Proof. intros. unfold cdiv. apply Z.div_le_mono; lia. Qed.

Lemma cdiv_floor x ps : 0 < ps → x mod ps ≠ 0 → cdiv x ps = x / ps + 1.
Proof.
  intros Hp Hx. unfold cdiv.
  pose proof (Z.div_mod x ps ltac:(lia)) as E. pose proof (Z.mod_pos_bound x ps Hp).
  replace (x + ps - 1) with ((x / ps + 1) * ps + (x mod ps - 1)) by nia.
  rewrite Z.div_add_l, (Z.div_small (x mod ps - 1)) by lia. lia.
Qed.

Lemma new_pages_nonneg ps pre seq : 0 < ps → pre ≤ seq → 0 ≤ new_pages ps pre seq.
Proof. intros. unfold new_pages. pose proof (cdiv_mono pre seq ps). lia. Qed.

(** ** One program of the extend kernel *)

Section extend.
Context (garbage tl_other : Z → Z).

Lemma masked_store_eq addr val n m :
  0 ≤ m ≤ n → masked_store addr val n m = (fun o => (addr o, val o)) <$> arange 0 m.
Proof.
  intros. unfold masked_store. f_equal.
  rewrite (arange_app 0 m n), filter_app by lia.
  rewrite filter_all, filter_none, app_nil_r; [done|..];
    intros x ?%elem_of_arange; lia.
Qed.

(** A masked store re-indexed by token position. *)
Lemma masked_store_at addr val (f : Z → Z * Z) n m t0 t1 :
  t1 = t0 + m → 0 ≤ m ≤ n →
  (∀ o, 0 ≤ o < m → (addr o, val o) = f (t0 + o)) →
  masked_store addr val n m = f <$> arange t0 t1.
Proof.
  intros -> Hm Hf. rewrite masked_store_eq by done.
  replace t0 with (t0 + 0) at 1 by lia. rewrite <-arange_shift, <-list_fmap_compose.
  apply fmap_ext_elem. intros o Ho%elem_of_arange. apply Hf. lia.
Qed.

(** The sum of the lanes up to [pid]: masked-off lanes cancel. *)
Lemma lane_sum_prefix (f : Z → Z) pid n :
  0 ≤ pid < n → (∀ i, pid < i < n → f i = 0) →
  lane_sum f n = zsum (f <$> arange 0 (pid + 1)).
Proof.
  intros Hp Hf. unfold lane_sum. rewrite (arange_app 0 (pid + 1) n) by lia.
  rewrite fmap_app, zsum_app.
  rewrite (fmap_ext_elem f (fun _ => 0) (arange (pid + 1) n)).
  - rewrite zsum_zeros. lia.
  - intros i Hi%elem_of_arange. apply Hf. lia.
Qed.

Definition pres (reqs : list (Z * Z * Z)) : list Z := (fun r => r.1.1) <$> reqs.
Definition seqs (reqs : list (Z * Z * Z)) : list Z := (fun r => r.1.2) <$> reqs.
Definition lasts (reqs : list (Z * Z * Z)) : list Z := (fun r => r.2) <$> reqs.

Lemma load_fmap {A} (f : A → Z) (l : list A) i x :
  l !! i = Some x → load garbage (f <$> l) (Z.of_nat i) = f x.
Proof.
  intros E. unfold load. destruct (Z.ltb_spec (Z.of_nat i) 0); [lia|].
  by rewrite Nat2Z.id, list_lookup_fmap, E.
Qed.

Lemma lane_sum_reqs (h : Z → Z → Z) reqs pid r n :
  reqs !! pid = Some r → len reqs ≤ n → (∀ z, h z z = 0) →
  lane_sum (fun i => h (lane_load garbage tl_other (seqs reqs) (Z.of_nat pid) i)
                       (lane_load garbage tl_other (pres reqs) (Z.of_nat pid) i)) n
  = zsum ((fun r => h r.1.2 r.1.1) <$> take (S pid) reqs).
Proof.
  intros E Hn Hh. pose proof (lookup_lt_Some _ _ _ E). unfold len in Hn.
  rewrite (lane_sum_prefix _ (Z.of_nat pid)); [|lia|].
  2:{ intros i Hi. unfold lane_load. destruct (Z.leb_spec i (Z.of_nat pid)); [lia|]. apply Hh. }
  replace (Z.of_nat pid + 1) with (len (take (S pid) reqs)) by (unfold len; rewrite length_take; lia).
  f_equal. apply arange_fmap_lookup. intros i x Ei.
  apply lookup_take_Some in Ei as [Ei Hi]. unfold lane_load.
  destruct (Z.leb_spec (Z.of_nat i) (Z.of_nat pid)); [|lia].
  unfold seqs, pres. by rewrite !(load_fmap _ _ _ _ Ei).
Qed.

Lemma zsum_take_S {A} (f : A → Z) (l : list A) i x :
  l !! i = Some x → zsum (f <$> take (S i) l) = zsum (f <$> take i l) + f x.
Proof.
  intros E. rewrite (take_S_r _ _ _ E), fmap_app, zsum_app. unfold zsum at 2. simpl. lia.
Qed.

(** The value the last program stores to [ret_values]. *)
Definition packed (pages tokens : Z) : Z :=
  Z.lor (int64 (Z.shiftl (int64 pages) 32)) (int64 tokens).

(** The three parts of a program cover the request's new positions in order. *)
Lemma extend_parts fp ps pre seq last maxn T P :
  0 < ps → 0 ≤ pre ≤ seq → seq - pre ≤ maxn →
  let page k := load garbage fp (P + k) in
  let self := cdiv seq ps - cdiv pre ps in
  let c := cdiv pre ps * ps in
  let part1 := Z.min seq c - pre in
  let part2 := seq / ps * ps - c in
  let part3 := seq - seq / ps * ps in
  let s1 := masked_store (fun o => T + o) (fun o => last + 1 + o) ps part1 in
  let s2 := masked_store (fun o => T + part1 + o)
    (fun o => (if o <? part2 then load garbage fp (P + o / ps) else tl_other o) * ps
              + o mod ps) maxn part2 in
  let s3 := masked_store (fun o => T + part1 + part2 + o)
    (fun o => load garbage fp (P + self - 1) * ps + o) ps part3 in
  (if pre + part1 =? seq then s1
   else if pre + part1 + part2 =? seq then s1 ++ s2 else s1 ++ s2 ++ s3) =
  (fun t => (T + (t - pre), ref_slot ps pre last page t)) <$> arange pre seq.
Proof.
  intros Hps Hseq Hmax page self c part1 part2 part3. cbv zeta.
  pose proof (cdiv_bounds pre ps Hps) as Hc. fold c in Hc.
  set (f := fun t => (T + (t - pre), ref_slot ps pre last page t)).
  assert (masked_store (fun o => T + o) (fun o => last + 1 + o) ps part1 =
          f <$> arange pre (pre + part1)) as ->.
  { apply masked_store_at; [done|lia|]. intros o Ho. unfold f, ref_slot. fold c.
    destruct (Z.ltb_spec (pre + o) c); [|lia]. f_equal; lia. }
  destruct (Z.eqb_spec (pre + part1) seq) as [Eq|Hlt]; [by rewrite Eq|].
  assert (part1 = c - pre) as Hp1 by lia.
  pose proof (Z.div_mod seq ps ltac:(lia)) as Hdm.
  pose proof (Z.mod_pos_bound seq ps Hps) as Hmod.
  assert (c ≤ seq / ps * ps) as Hfl.
  { unfold c. apply Z.mul_le_mono_nonneg_r; [lia|].
    apply Z.div_le_lower_bound; [lia|]. unfold c in *. lia. }
  assert (∀ o, 0 ≤ o → (c + o) mod ps = o mod ps) as Hcm.
  { intros o _. unfold c. rewrite Z.add_comm. apply Z.mod_add. lia. }
  cut (masked_store (fun o => T + part1 + o)
    (fun o => (if o <? part2 then load garbage fp (P + o / ps) else tl_other o) * ps
              + o mod ps) maxn part2 = f <$> arange c (c + part2)).
  2:{ apply masked_store_at; [done|lia|]. intros o Ho. unfold f, ref_slot. fold c.
      destruct (Z.ltb_spec (c + o) c); [lia|]. destruct (Z.ltb_spec o part2); [|lia].
      rewrite Hcm by lia. f_equal; [lia|]. unfold page. do 5 f_equal. lia. }
  intros ->. destruct (Z.eqb_spec (pre + part1 + part2) seq) as [Eq|Hlt2].
  { rewrite <-fmap_app. f_equal. replace (pre + part1) with c by lia.
    rewrite <-arange_app by lia. f_equal. lia. }
  assert (seq mod ps ≠ 0) by lia.
  rewrite (masked_store_at _ _ f ps part3 (c + part2) seq); [|lia..|].
  - rewrite <-!fmap_app. f_equal. replace (pre + part1) with c by lia.
    by rewrite <-!arange_app by lia.
  - intros o Ho. unfold f, ref_slot. fold c.
    destruct (Z.ltb_spec (c + part2 + o) c); [lia|].
    replace (c + part2 + o) with (seq / ps * ps + o) by lia.
    rewrite (Z.add_comm (seq / ps * ps) o), Z.mod_add, Z.mod_small by lia.
    f_equal; [lia|]. unfold page, self. rewrite (cdiv_floor seq) by done. do 3 f_equal.
    replace (o + seq / ps * ps - c) with ((seq / ps - cdiv pre ps) * ps + o) by (unfold c; lia).
    rewrite Z.div_add_l, (Z.div_small o) by lia. lia.
Qed.

Lemma extend_program_spec reqs pid pre seq last fp n ps maxn np :
  reqs !! pid = Some (pre, seq, last) →
  len reqs ≤ n → 0 < ps → 0 ≤ pre ≤ seq → seq - pre ≤ maxn →
  alloc_extend_kernel garbage tl_other (pres reqs) (seqs reqs) (lasts reqs) fp
    n ps maxn np (Z.of_nat pid) =
  ((fun t => (total_tokens (take pid reqs) + (t - pre),
              ref_slot ps pre last
                (fun k => load garbage fp (total_pages ps (take pid reqs) + k)) t))
     <$> arange pre seq,
   if Z.of_nat pid =? np - 1
   then Some (packed (total_pages ps (take (S pid) reqs)) (total_tokens (take (S pid) reqs)))
   else None).
Proof.
  intros E Hn Hps Hseq Hmax. unfold alloc_extend_kernel.
  rewrite (lane_sum_reqs (fun s p => s - p) reqs pid _ n E Hn) by lia.
  rewrite (lane_sum_reqs (fun s p => cdiv s ps - cdiv p ps) reqs pid _ n E Hn) by lia.
  unfold seqs, pres, lasts. rewrite !(load_fmap _ _ _ _ E). simpl.
  fold (total_tokens (take (S pid) reqs)) (total_pages ps (take (S pid) reqs)).
  unfold total_tokens, total_pages. rewrite !(zsum_take_S _ _ _ _ E). simpl.
  fold (total_tokens (take pid reqs)) (total_pages ps (take pid reqs)).
  unfold new_pages, packed.
  set (T := total_tokens (take pid reqs)). set (P := total_pages ps (take pid reqs)).
  change (zsum ((fun r => cdiv r.1.2 ps - cdiv r.1.1 ps) <$> take pid reqs)) with P.
  replace (T + (seq - pre) - (seq - pre)) with T by lia.
  set (self := cdiv seq ps - cdiv pre ps).
  replace (P + self - self) with P by lia.
  pose proof (extend_parts fp ps pre seq last maxn T P Hps Hseq Hmax) as Hp.
  cbv zeta in Hp. fold self in Hp. rewrite <-Hp. by repeat case_match.
Qed.

(** *** The whole grid *)

Definition valid_batch (reqs : list (Z * Z * Z)) : Prop :=
  Forall (fun r => 0 ≤ r.1.1 ≤ r.1.2) reqs.

Lemma ref_extend_app ps page off l1 l2 :
  ref_extend ps page off (l1 ++ l2) =
  ref_extend ps page off l1 ++ ref_extend ps page (off + total_pages ps l1) l2.
Proof.
  revert off. induction l1 as [|[[pre seq] last] l1 IH]; intros off; simpl.
  - by rewrite Z.add_0_r.
  - rewrite IH, <-app_assoc. unfold total_pages. rewrite fmap_cons, zsum_cons.
    by rewrite Z.add_assoc.
Qed.

Lemma len_ref_extend ps page off reqs :
  valid_batch reqs → len (ref_extend ps page off reqs) = total_tokens reqs.
Proof.
  unfold total_tokens. revert off.
  induction reqs as [|[[pre seq] last] reqs IH]; intros off Hv; [done|].
  apply Forall_cons in Hv as [Hr Hv]. simpl in Hr.
  cbn [ref_extend]. rewrite fmap_cons, len_app, IH, zsum_cons by done.
  autorewrite with pylen. cbn [fst snd]. lia.
Qed.

Lemma total_tokens_nonneg reqs : valid_batch reqs → 0 ≤ total_tokens reqs.
Proof.
  intros Hv. rewrite <-(len_ref_extend 1 (fun _ => 0) 0 reqs Hv). apply len_nonneg.
Qed.

Lemma total_pages_nonneg ps reqs : 0 < ps → valid_batch reqs → 0 ≤ total_pages ps reqs.
Proof.
  intros Hps Hv. apply zsum_nonneg. intros x (r & -> & Hr)%list_elem_of_fmap.
  apply new_pages_nonneg; [done|].
  pose proof (proj1 (Forall_forall _ _) Hv r Hr). simpl in *. lia.
Qed.

Lemma total_tokens_app l1 l2 : total_tokens (l1 ++ l2) = total_tokens l1 + total_tokens l2.
Proof. unfold total_tokens. by rewrite fmap_app, zsum_app. Qed.

Lemma request_tokens_le reqs r :
  valid_batch reqs → r ∈ reqs → r.1.2 - r.1.1 ≤ total_tokens reqs.
Proof.
  intros Hv (l1 & l2 & ->)%list_elem_of_split.
  apply Forall_app in Hv as [Hv1 [Hr Hv2]%Forall_cons].
  rewrite total_tokens_app. change (r :: l2) with ([r] ++ l2). rewrite total_tokens_app.
  pose proof (total_tokens_nonneg _ Hv1). pose proof (total_tokens_nonneg _ Hv2).
  change (total_tokens [r]) with (r.1.2 - r.1.1 + 0). lia.
Qed.

Lemma fmap_zip_arange (f : Z → Z) T pre seq :
  (fun t => (T + (t - pre), f t)) <$> arange pre seq =
  zip (arange T (T + (seq - pre))) (f <$> arange pre seq).
Proof.
  rewrite <-(fmap_ext_elem (fun t => (Z.add (T - pre) t, f t))) by (intros; f_equal; lia).
  replace (arange T _) with (Z.add (T - pre) <$> arange pre seq)
    by (rewrite arange_shift; f_equal; lia).
  rewrite <-prod_map_zip, zip_diag, <-list_fmap_compose. done.
Qed.

Lemma store_at filled r rest v :
  store (filled ++ r :: rest) (len filled, v) = (filled ++ [v]) ++ rest.
Proof.
  unfold store. simpl. pose proof (len_nonneg filled).
  destruct (Z.ltb_spec (len filled) 0); [lia|].
  unfold len. rewrite Nat2Z.id, insert_app_r_alt, Nat.sub_diag, <-app_assoc by lia. done.
Qed.

(** Sequential stores to consecutive addresses fill the output. *)
Lemma run_stores_fill vals filled rest :
  length vals = length rest →
  run_stores (filled ++ rest) (zip (arange (len filled) (len filled + len vals)) vals)
  = filled ++ vals.
Proof.
  revert filled rest. induction vals as [|v vals IH]; intros filled rest Hl.
  { destruct rest; [|done]. by rewrite zip_with_nil_r. }
  destruct rest as [|r rest]; [done|]. simpl in Hl.
  rewrite len_cons, arange_cons by (pose proof (len_nonneg vals); lia).
  unfold run_stores. cbn [zip_with foldl]. rewrite store_at.
  specialize (IH (filled ++ [v]) rest ltac:(lia)).
  rewrite len_app in IH. change (len [v]) with 1 in IH.
  replace (len filled + 1 + len vals) with (len filled + (1 + len vals)) in IH by lia.
  unfold run_stores in IH. rewrite IH. by rewrite <-app_assoc.
Qed.

(** The first [k] programs of the grid. *)
Lemma extend_grid_prefix reqs fp n ps maxn k :
  valid_batch reqs → len reqs ≤ n → 0 < ps → total_tokens reqs ≤ maxn →
  (k ≤ length reqs)%nat →
  concat (fst <$> (alloc_extend_kernel garbage tl_other (pres reqs) (seqs reqs)
                     (lasts reqs) fp n ps maxn (len reqs) <$> arange 0 (Z.of_nat k))) =
  zip (arange 0 (total_tokens (take k reqs)))
      (ref_extend ps (load garbage fp) 0 (take k reqs)).
Proof.
  intros Hv Hn Hps Hmax. induction k as [|k IH]; intros Hk; [done|].
  destruct (lookup_lt_is_Some_2 reqs k) as [[[pre seq] last] E]; [lia|].
  assert (0 ≤ pre ≤ seq) as Hr.
  { by apply (proj1 (Forall_lookup _ _) Hv _ _ E). }
  assert (seq - pre ≤ total_tokens reqs).
  { apply (request_tokens_le reqs (pre, seq, last) Hv). by eapply list_elem_of_lookup_2. }
  assert (valid_batch (take k reqs)) as Hvk by by apply Forall_take.
  rewrite (arange_app 0 (Z.of_nat k)), !fmap_app, concat_app, IH by lia.
  rewrite (arange_cons (Z.of_nat k)), (arange_empty (Z.of_nat k + 1)) by lia. simpl.
  rewrite (extend_program_spec _ _ _ _ _ fp n ps maxn _ E) by lia. simpl.
  rewrite app_nil_r, fmap_zip_arange, (take_S_r _ _ _ E), total_tokens_app, ref_extend_app.
  simpl. rewrite app_nil_r, Z.add_0_l.
  change (total_tokens [(pre, seq, last)]) with (seq - pre + 0). rewrite Z.add_0_r.
  rewrite <-zip_with_app.
  - f_equal. rewrite <-arange_app; [done|].
    pose proof (total_tokens_nonneg _ Hvk). lia.
  - pose proof (len_ref_extend ps (load garbage fp) 0 _ Hvk) as Hl. unfold len in Hl.
    pose proof (len_arange 0 (total_tokens (take k reqs))) as Hl'. unfold len in Hl'.
    pose proof (total_tokens_nonneg _ Hvk). lia.
Qed.

Lemma last_omap_snoc {A B} (f : A → option B) l x y :
  f x = Some y → last (omap f (l ++ [x])) = Some y.
Proof. intros E. rewrite omap_app. simpl. rewrite E. by rewrite last_snoc. Qed.

Lemma extend_launch_spec reqs fp n ps maxn :
  valid_batch reqs → reqs ≠ [] → len reqs ≤ n → 0 < ps → total_tokens reqs ≤ maxn →
  launch (len reqs)
    (alloc_extend_kernel garbage tl_other (pres reqs) (seqs reqs) (lasts reqs) fp
       n ps maxn (len reqs)) =
  (zip (arange 0 (total_tokens reqs)) (ref_extend ps (load garbage fp) 0 reqs),
   Some (packed (total_pages ps reqs) (total_tokens reqs))).
Proof.
  intros Hv Hne Hn Hps Hmax. unfold launch. f_equal.
  - unfold len at 2. rewrite extend_grid_prefix by done. by rewrite take_ge.
  - destruct (exists_last Hne) as (l & [[pre seq] last] & ->).
    assert ((l ++ [(pre, seq, last)]) !! length l = Some (pre, seq, last)) as E.
    { by rewrite lookup_app_r, Nat.sub_diag. }
    pose proof Hv as [_ [Hr _]%Forall_cons]%Forall_app. simpl in Hr.
    pose proof (request_tokens_le _ (pre, seq, last) Hv ltac:(set_solver)).
    rewrite (arange_app 0 (len l) (len (l ++ [(pre, seq, last)]))), fmap_app by lenlia.
    rewrite (arange_cons (len l)), (arange_empty (len l + 1)) by lenlia. rewrite fmap_cons.
    eapply last_omap_snoc. change (len l) with (Z.of_nat (length l)).
    rewrite (extend_program_spec _ _ _ _ _ fp n ps maxn _ E) by (simpl in *; lia). simpl.
    rewrite take_ge by (rewrite length_app; simpl; lia).
    destruct (Z.eqb_spec (Z.of_nat (length l)) (len (l ++ [(pre, seq, last)]) - 1)); [done|].
    unfold len in *. rewrite length_app in *. simpl in *. lia.
Qed.

(** *** Result packing *)

Lemma packed_pages pages tokens :
  0 ≤ pages < 2 ^ 31 → 0 ≤ tokens < 2 ^ 32 →
  Z.shiftr (packed pages tokens) 32 = pages.
Proof.
  intros Hp Ht. unfold packed.
  rewrite (int64_small pages), (int64_small tokens) by lia.
  rewrite Z.shiftl_mul_pow2, int64_small by lia.
  rewrite Z.shiftr_lor, !Z.shiftr_div_pow2 by lia.
  rewrite Z.div_mul, (Z.div_small tokens) by lia. apply Z.lor_0_r.
Qed.

(** A batch never needs more pages than the merge guard of [alloc_extend]
    reserves. *)
Lemma new_pages_le ps pre seq :
  0 < ps → pre ≤ seq → new_pages ps pre seq ≤ (seq - pre) / ps + 1.
Proof.
  intros Hps Hle. unfold new_pages.
  pose proof (cdiv_bounds pre ps Hps). pose proof (cdiv_bounds seq ps Hps).
  pose proof (Z.div_mod (seq - pre) ps ltac:(lia)).
  pose proof (Z.mod_pos_bound (seq - pre) ps Hps). nia.
Qed.

Lemma div_superadditive a b ps : 0 < ps → a / ps + b / ps ≤ (a + b) / ps.
Proof.
  intros. apply Z.div_le_lower_bound; [lia|].
  pose proof (Z.mul_div_le a ps). pose proof (Z.mul_div_le b ps). lia.
Qed.

Lemma total_pages_le ps reqs :
  0 < ps → valid_batch reqs → total_pages ps reqs ≤ total_tokens reqs / ps + len reqs.
Proof.
  intros Hps. unfold total_pages, total_tokens.
  induction reqs as [|[[pre seq] last] reqs IH]; intros Hv.
  { change (0 ≤ 0 / ps + 0). pose proof (Z.div_0_l ps). lia. }
  apply Forall_cons in Hv as [Hr Hv]. specialize (IH Hv). simpl in Hr.
  rewrite !fmap_cons, !zsum_cons, len_cons. cbn [fst snd].
  pose proof (new_pages_le ps pre seq Hps ltac:(lia)).
  pose proof (div_superadditive (seq - pre)
    (zsum ((fun r => r.1.2 - r.1.1) <$> reqs)) ps Hps). lia.
Qed.

(** *** Decode is extend by one token *)

Definition decode_reqs (sl : list (Z * Z)) : list (Z * Z * Z) :=
  (fun '(seq, last) => (seq - 1, seq, last)) <$> sl.

Lemma total_pages_take_S ps reqs i r :
  reqs !! i = Some r →
  total_pages ps (take (S i) reqs) =
  total_pages ps (take i reqs) + new_pages ps r.1.1 r.1.2.
Proof. intros E. exact (zsum_take_S (fun r => new_pages ps r.1.1 r.1.2) _ _ _ E). Qed.

Lemma decode_new_page ps seq :
  0 < ps → (new_pages ps (seq - 1) seq = 0 ↔ seq - 1 < cdiv (seq - 1) ps * ps).
Proof.
  intros Hps. unfold new_pages.
  pose proof (cdiv_bounds (seq - 1) ps Hps). pose proof (cdiv_bounds seq ps Hps).
  pose proof (cdiv_mono (seq - 1) seq ps Hps ltac:(lia)). split; nia.
Qed.

Lemma total_tokens_decode sl k :
  total_tokens (take k (decode_reqs sl)) = Z.of_nat (length (take k (decode_reqs sl))).
Proof.
  assert (Forall (fun r => r.1.2 - r.1.1 = 1) (take k (decode_reqs sl))) as H.
  { apply Forall_take, Forall_fmap, Forall_forall. intros [??] _. simpl. lia. }
  unfold total_tokens. induction H as [|r l Hr _ IH]; [done|].
  rewrite fmap_cons, zsum_cons, IH. simpl. lia.
Qed.

Lemma decode_program_spec sl pid seq last fp n ps np :
  sl !! pid = Some (seq, last) → len sl ≤ n → 0 < ps → 1 ≤ seq →
  alloc_decode_kernel garbage tl_other (fst <$> sl) (snd <$> sl) fp n ps np (Z.of_nat pid) =
  ([(Z.of_nat pid, ref_slot ps (seq - 1) last
       (fun k => load garbage fp (total_pages ps (take pid (decode_reqs sl)) + k)) (seq - 1))],
   if Z.of_nat pid =? np - 1
   then Some (total_pages ps (take (S pid) (decode_reqs sl))) else None).
Proof.
  intros E Hn Hps Hseq.
  assert (decode_reqs sl !! pid = Some (seq - 1, seq, last)) as E'.
  { unfold decode_reqs. by rewrite list_lookup_fmap, E. }
  pose proof (lookup_lt_Some _ _ _ E). unfold len in Hn.
  unfold alloc_decode_kernel. rewrite (load_fmap fst _ _ _ E). cbn [fst].
  rewrite (lane_sum_prefix _ (Z.of_nat pid)); [|lia|].
  2:{ intros i Hi. unfold lane_load. destruct (Z.leb_spec i (Z.of_nat pid)); lia. }
  replace (Z.of_nat pid + 1) with (len (take (S pid) (decode_reqs sl)))
    by (unfold len, decode_reqs; rewrite length_take, length_fmap; lia).
  rewrite (arange_fmap_lookup (take (S pid) (decode_reqs sl)) _
             (fun r => new_pages ps r.1.1 r.1.2)).
  2:{ intros i x [Ei Hi]%lookup_take_Some. unfold lane_load, decode_reqs in *.
      rewrite list_lookup_fmap in Ei. destruct (sl !! i) as [[s l]|] eqn:Es; [|done].
      simpl in Ei. simplify_eq. destruct (Z.leb_spec (Z.of_nat i) (Z.of_nat pid)); [|lia].
      by rewrite (load_fmap fst _ _ _ Es). }
  fold (total_pages ps (take (S pid) (decode_reqs sl))).
  rewrite (total_pages_take_S _ _ _ _ E'). cbn [fst snd].
  change (cdiv seq ps - cdiv (seq - 1) ps) with (new_pages ps (seq - 1) seq).
  set (P := total_pages ps (take pid (decode_reqs sl))).
  set (self := new_pages ps (seq - 1) seq).
  replace (P + self - self) with P by lia.
  rewrite (load_fmap snd _ _ _ E). cbn [snd]. unfold ref_slot.
  pose proof (decode_new_page ps seq Hps) as Hnew. fold self in Hnew.
  destruct (Z.eqb_spec self 0).
  - destruct (Z.ltb_spec (seq - 1) (cdiv (seq - 1) ps * ps)); [|lia].
    do 3 f_equal. lia.
  - destruct (Z.ltb_spec (seq - 1) (cdiv (seq - 1) ps * ps)); [lia|].
    assert (seq - 1 = cdiv (seq - 1) ps * ps) as Ec by (pose proof (cdiv_bounds (seq - 1) ps Hps); lia).
    assert ((seq - 1) mod ps = 0) as Hm by (rewrite Ec; apply Z.mod_mul; lia).
    by rewrite <-Ec, Z.sub_diag, Z.div_0_l, Hm, !Z.add_0_r by lia.
Qed.

Lemma decode_grid_prefix sl fp n ps k :
  Forall (fun r => 1 ≤ r.1) sl → len sl ≤ n → 0 < ps → (k ≤ length sl)%nat →
  concat (fst <$> (alloc_decode_kernel garbage tl_other (fst <$> sl) (snd <$> sl) fp n ps
                     (len sl) <$> arange 0 (Z.of_nat k))) =
  zip (arange 0 (Z.of_nat k)) (ref_extend ps (load garbage fp) 0 (take k (decode_reqs sl))).
Proof.
  intros Hv Hn Hps. induction k as [|k IH]; intros Hk; [done|].
  destruct (lookup_lt_is_Some_2 sl k) as [[seq last] E]; [lia|].
  assert (decode_reqs sl !! k = Some (seq - 1, seq, last)) as E'.
  { unfold decode_reqs. by rewrite list_lookup_fmap, E. }
  assert (1 ≤ seq) as Hs by by apply (proj1 (Forall_lookup _ _) Hv _ _ E).
  rewrite (arange_app 0 (Z.of_nat k) (Z.of_nat (S k))), !fmap_app, concat_app, IH by lia.
  rewrite (arange_cons (Z.of_nat k)), (arange_empty (Z.of_nat k + 1)) by lia. simpl.
  rewrite (decode_program_spec _ _ _ _ fp n ps _ E) by lia. simpl.
  rewrite (take_S_r _ _ _ E'), ref_extend_app. simpl.
  rewrite (arange_cons (seq - 1)), (arange_empty (seq - 1 + 1)), Z.add_0_l by lia. simpl.
  rewrite zip_with_app; [done|].
  assert (valid_batch (take k (decode_reqs sl))) as Hvk.
  { apply Forall_take, Forall_fmap. eapply Forall_impl; [done|]. intros [??]; simpl. lia. }
  pose proof (len_ref_extend ps (load garbage fp) 0 _ Hvk) as Hl.
  assert (total_tokens (take k (decode_reqs sl)) = Z.of_nat k) as Ht.
  { rewrite total_tokens_decode. rewrite length_take. unfold decode_reqs.
    rewrite length_fmap. lia. }
  unfold len in Hl. pose proof (len_arange 0 (Z.of_nat k)) as Hl'. unfold len in Hl'. lia.
Qed.

Lemma decode_launch_spec sl fp n ps :
  Forall (fun r => 1 ≤ r.1) sl → sl ≠ [] → len sl ≤ n → 0 < ps →
  launch (len sl)
    (alloc_decode_kernel garbage tl_other (fst <$> sl) (snd <$> sl) fp n ps (len sl)) =
  (zip (arange 0 (len sl)) (ref_extend ps (load garbage fp) 0 (decode_reqs sl)),
   Some (total_pages ps (decode_reqs sl))).
Proof.
  intros Hv Hne Hn Hps. unfold launch. f_equal.
  - unfold len at 2 3. rewrite decode_grid_prefix by done.
    rewrite take_ge; [done|]. unfold decode_reqs. by rewrite length_fmap.
  - destruct (exists_last Hne) as (l & [seq last] & ->).
    assert ((l ++ [(seq, last)]) !! length l = Some (seq, last)) as E.
    { by rewrite lookup_app_r, Nat.sub_diag. }
    pose proof Hv as [_ [Hr _]%Forall_cons]%Forall_app. simpl in Hr.
    rewrite (arange_app 0 (len l) (len (l ++ [(seq, last)]))), fmap_app by lenlia.
    rewrite (arange_cons (len l)), (arange_empty (len l + 1)) by lenlia. rewrite fmap_cons.
    eapply last_omap_snoc. change (len l) with (Z.of_nat (length l)).
    rewrite (decode_program_spec _ _ _ _ fp n ps _ E) by (simpl in *; lia). simpl.
    rewrite take_ge by (unfold decode_reqs; rewrite length_fmap, length_app; simpl; lia).
    destruct (Z.eqb_spec (Z.of_nat (length l)) (len (l ++ [(seq, last)]) - 1)); [done|].
    unfold len in *. rewrite length_app in *. simpl in *. lia.
Qed.

Lemma decode_valid sl : Forall (fun r => 1 ≤ r.1) sl → valid_batch (decode_reqs sl).
Proof.
  intros H. apply Forall_fmap. eapply Forall_impl; [done|]. intros [??]; simpl. lia.
Qed.

Lemma decode_total_tokens sl : total_tokens (decode_reqs sl) = len sl.
Proof.
  pose proof (total_tokens_decode sl (length sl)) as H.
  rewrite take_ge in H by (unfold decode_reqs; by rewrite length_fmap).
  rewrite H. unfold decode_reqs. by rewrite length_fmap.
Qed.

Lemma decode_total_pages ps sl :
  0 < ps → total_pages ps (decode_reqs sl) ≤ len sl.
Proof.
  intros Hps. unfold total_pages, decode_reqs. induction sl as [|[seq last] sl IH]; [done|].
  rewrite !fmap_cons, zsum_cons, len_cons. cbn [fst snd].
  enough (new_pages ps (seq - 1) seq ≤ 1) by lia. unfold new_pages.
  pose proof (cdiv_bounds (seq - 1) ps Hps). pose proof (cdiv_bounds seq ps Hps). nia.
Qed.

End extend.

(** ** Distinct slots *)

(** The pages whose slots request [r] writes: its last partial page, if it has
    one, and its new pages. *)
Definition touched (ps : Z) (page : Z → Z) (off : Z) (r : Z * Z * Z) : list Z :=
  (if r.1.1 <? cdiv r.1.1 ps * ps then [r.2 / ps] else []) ++
  ((fun k => page (off + k)) <$> arange 0 (new_pages ps r.1.1 r.1.2)).

Fixpoint touched_all (ps : Z) (page : Z → Z) (off : Z) (reqs : list (Z * Z * Z)) : list Z :=
  match reqs with
  | [] => []
  | r :: reqs =>
      touched ps page off r ++ touched_all ps page (off + new_pages ps r.1.1 r.1.2) reqs
  end.

(** The page alignment the debug assertion of [alloc_extend] checks. *)
Definition aligned (ps : Z) (r : Z * Z * Z) : Prop := (r.2 + 1) mod ps = r.1.1 mod ps.

Section slots.
Context (ps pre seq last : Z) (page : Z → Z).
Context (Hps : 0 < ps) (Hseq : 0 ≤ pre ≤ seq) (Hal : (last + 1) mod ps = pre mod ps).

#[local] Abbreviation c := (cdiv pre ps * ps).

Lemma c_mod t : (t - c) mod ps = t mod ps.
Proof.
  replace (t - c) with (t + (- cdiv pre ps) * ps) by lia. apply Z.mod_add. lia.
Qed.

(** Position [t] goes to offset [t mod ps] of its page. *)
Lemma ref_slot_page t :
  pre ≤ t < seq →
  ref_slot ps pre last page t =
    (if t <? c then last / ps else page ((t - c) / ps)) * ps + t mod ps.
Proof.
  intros Ht. unfold ref_slot. destruct (Z.ltb_spec t c) as [Hlt|]; [|done].
  pose proof (cdiv_bounds pre ps Hps) as Hc.
  pose proof (Z.div_mod last ps ltac:(lia)) as Hl.
  pose proof (Z.mod_pos_bound last ps Hps) as Hlb.
  pose proof (Z.div_mod t ps ltac:(lia)) as Hd. pose proof (Z.mod_pos_bound t ps Hps) as Htb.
  assert (t / ps = cdiv pre ps - 1) as Et.
  { symmetry. apply Z.div_unique with (t - (cdiv pre ps - 1) * ps); lia. }
  assert (pre / ps = cdiv pre ps - 1) as Ep.
  { symmetry. apply Z.div_unique with (pre - (cdiv pre ps - 1) * ps); lia. }
  pose proof (Z.div_mod pre ps ltac:(lia)) as Hpd. rewrite Ep in Hpd. rewrite Et in Hd.
  assert (pre mod ps = last mod ps + 1) as Em.
  { rewrite <-Hal. destruct (decide (last mod ps + 1 = ps)) as [E|].
    - assert ((last + 1) mod ps = 0) as E0.
      { replace (last + 1) with ((last / ps + 1) * ps) by lia. apply Z.mod_mul. lia. }
      rewrite Hal in E0. lia.
    - symmetry. apply Z.mod_unique with (last / ps); lia. }
  lia.
Qed.

Lemma ref_slot_div t :
  pre ≤ t < seq →
  ref_slot ps pre last page t / ps = if t <? c then last / ps else page ((t - c) / ps).
Proof.
  intros Ht. rewrite ref_slot_page by done. pose proof (Z.mod_pos_bound t ps Hps).
  rewrite Z.div_add_l, (Z.div_small (t mod ps)) by lia. lia.
Qed.

Lemma ref_slot_mod t : pre ≤ t < seq → ref_slot ps pre last page t mod ps = t mod ps.
Proof.
  intros Ht. rewrite ref_slot_page, Z.add_comm, Z.mod_add, Z.mod_mod by lia. done.
Qed.

Lemma page_index_bound t :
  c ≤ t < seq → 0 ≤ (t - c) / ps < new_pages ps pre seq.
Proof.
  intros Ht. unfold new_pages. pose proof (cdiv_bounds seq ps Hps).
  split; [apply Z.div_pos; lia|]. apply Z.div_lt_upper_bound; lia.
Qed.

End slots.

Lemma ref_slot_in_touched ps pre seq last page off t :
  0 < ps → 0 ≤ pre ≤ seq → aligned ps (pre, seq, last) → pre ≤ t < seq →
  ref_slot ps pre last (fun k => page (off + k)) t / ps ∈ touched ps page off (pre, seq, last).
Proof.
  intros Hps Hseq Hal Ht. rewrite (ref_slot_div ps pre seq) by done.
  unfold touched. cbn [fst snd]. rewrite elem_of_app.
  destruct (Z.ltb_spec t (cdiv pre ps * ps)) as [Hlt|Hge].
  - left. destruct (Z.ltb_spec pre (cdiv pre ps * ps)); [set_solver|lia].
  - right. apply list_elem_of_fmap. eexists; split; [done|].
    apply elem_of_arange. apply page_index_bound; lia.
Qed.

Lemma ref_extend_in_touched ps page off reqs x :
  0 < ps → valid_batch reqs → Forall (aligned ps) reqs →
  x ∈ ref_extend ps page off reqs → x / ps ∈ touched_all ps page off reqs.
Proof.
  intros Hps. revert off. induction reqs as [|[[pre seq] last] reqs IH]; intros off Hv Ha Hx.
  { by apply not_elem_of_nil in Hx. }
  apply Forall_cons in Hv as [Hr Hv]. apply Forall_cons in Ha as [Har Ha].
  cbn [ref_extend touched_all] in *. apply elem_of_app in Hx as [Hx|Hx]; apply elem_of_app.
  - left. apply list_elem_of_fmap in Hx as (t & -> & Ht%elem_of_arange).
    by apply ref_slot_in_touched.
  - right. by apply IH.
Qed.

(** Within a request, positions get distinct slots. *)
Lemma ref_slot_inj ps pre seq last page off t1 t2 :
  0 < ps → 0 ≤ pre ≤ seq → aligned ps (pre, seq, last) →
  NoDup (touched ps page off (pre, seq, last)) →
  pre ≤ t1 < seq → pre ≤ t2 < seq → t1 < t2 →
  ref_slot ps pre last (fun k => page (off + k)) t1 ≠
  ref_slot ps pre last (fun k => page (off + k)) t2.
Proof.
  intros Hps Hseq Hal Hnd H1 H2 Hlt Heq.
  set (c := cdiv pre ps * ps). pose proof (cdiv_bounds pre ps Hps) as Hc. fold c in Hc.
  pose proof (f_equal (fun x => x / ps) Heq) as Hd. simpl in Hd.
  pose proof (f_equal (fun x => x mod ps) Heq) as Hm. simpl in Hm.
  rewrite !(ref_slot_mod ps pre seq) in Hm by done.
  rewrite !(ref_slot_div ps pre seq) in Hd by done. fold c in Hd.
  unfold touched in Hnd. cbn [fst snd] in Hnd. fold c in Hnd.
  apply NoDup_app in Hnd as (_ & Hdis & Hnd).
  destruct (Z.ltb_spec t1 c), (Z.ltb_spec t2 c); try lia.
  - unfold ref_slot in Heq. fold c in Heq. destruct (Z.ltb_spec t1 c), (Z.ltb_spec t2 c); lia.
  - destruct (Z.ltb_spec pre c); [|lia]. apply (Hdis (last / ps)); [set_solver|].
    rewrite Hd. apply list_elem_of_fmap. eexists; split; [done|].
    apply elem_of_arange. apply page_index_bound; [done|]. fold c. lia.
  - assert ((t1 - c) / ps = (t2 - c) / ps) as Hi.
    { pose proof (page_index_bound ps pre seq Hps t1 ltac:(fold c; lia)) as Hb1.
      pose proof (page_index_bound ps pre seq Hps t2 ltac:(fold c; lia)) as Hb2.
      fold c in Hb1, Hb2.
      assert (∀ k, 0 ≤ k < new_pages ps pre seq →
        ((fun k => page (off + k)) <$> arange 0 (new_pages ps pre seq)) !! Z.to_nat k
        = Some (page (off + k))) as Hlk.
      { intros k Hk. rewrite list_lookup_fmap. unfold arange.
        rewrite lookup_seqZ_lt by lia. simpl. do 2 f_equal. lia. }
      rewrite NoDup_alt in Hnd.
      pose proof (Hnd _ _ _ (Hlk _ Hb1) ltac:(rewrite Hd; by apply Hlk)). lia. }
    pose proof (Z.div_mod (t1 - c) ps ltac:(lia)). pose proof (Z.div_mod (t2 - c) ps ltac:(lia)).
    rewrite Hi in *. unfold c in *. rewrite !c_mod in * by done. lia.
Qed.

(** A batch's slots are pairwise distinct when the pages it touches are. *)
Lemma ref_extend_NoDup ps page off reqs :
  0 < ps → valid_batch reqs → Forall (aligned ps) reqs →
  NoDup (touched_all ps page off reqs) → NoDup (ref_extend ps page off reqs).
Proof.
  intros Hps. revert off. induction reqs as [|[[pre seq] last] reqs IH]; intros off Hv Ha Hnd.
  { constructor. }
  pose proof (Forall_cons_1 _ _ _ Hv) as [Hr Hv']. simpl in Hr.
  pose proof (Forall_cons_1 _ _ _ Ha) as [Har Ha'].
  cbn [ref_extend touched_all] in *. apply NoDup_app in Hnd as (Hnd1 & Hdis & Hnd2).
  apply NoDup_app. split; [|split].
  - apply NoDup_alt. intros i j x Hi Hj. rewrite list_lookup_fmap in Hi, Hj.
    unfold arange in *. apply fmap_Some in Hi as (t1 & Hi & ->).
    apply fmap_Some in Hj as (t2 & Hj & E).
    apply lookup_seqZ in Hi as [-> Hi], Hj as [-> Hj].
    destruct (Nat.lt_trichotomy i j) as [Hij|[Hij|Hij]]; [exfalso|done|exfalso].
    + eapply (ref_slot_inj ps pre seq last page off); [done|done|done|done| | | |exact E]; lia.
    + symmetry in E. eapply (ref_slot_inj ps pre seq last page off); [done|done|done|done| | | |exact E]; lia.
  - intros x Hx Hx'. apply (Hdis (x / ps)).
    + apply list_elem_of_fmap in Hx as (t & -> & Ht%elem_of_arange).
      by apply ref_slot_in_touched.
    + by apply ref_extend_in_touched.
  - by apply IH.
Qed.

(** The old partial pages of a batch. *)
Definition old_pages (ps : Z) (reqs : list (Z * Z * Z)) : list Z :=
  reqs ≫= fun r => if r.1.1 <? cdiv r.1.1 ps * ps then [r.2 / ps] else [].

Lemma touched_all_perm ps page off reqs :
  0 < ps → valid_batch reqs →
  touched_all ps page off reqs
  ≡ₚ old_pages ps reqs ++ (page <$> arange off (off + total_pages ps reqs)).
Proof.
  intros Hps. revert off. induction reqs as [|r reqs IH]; intros off Hv.
  { simpl. rewrite arange_empty; [done|]. change (total_pages ps []) with 0. lia. }
  pose proof (Forall_cons_1 _ _ _ Hv) as [Hr Hv'].
  cbn [touched_all]. unfold touched, old_pages, total_pages. rewrite bind_cons, fmap_cons, zsum_cons.
  fold (total_pages ps reqs) (old_pages ps reqs). rewrite IH by done.
  pose proof (new_pages_nonneg ps r.1.1 r.1.2 Hps ltac:(lia)) as Hn.
  pose proof (total_pages_nonneg ps reqs Hps Hv').
  set (n := new_pages ps r.1.1 r.1.2) in *.
  rewrite (arange_app off (off + n)), fmap_app by lia.
  replace (arange off (off + n)) with (Z.add off <$> arange 0 n)
    by (rewrite arange_shift; f_equal; lia).
  rewrite <-list_fmap_compose, Z.add_assoc. unfold compose. solve_Permutation.
Qed.

Lemma ref_extend_ext ps page1 page2 off reqs :
  0 < ps → valid_batch reqs →
  (∀ k, off ≤ k < off + total_pages ps reqs → page1 k = page2 k) →
  ref_extend ps page1 off reqs = ref_extend ps page2 off reqs.
Proof.
  intros Hps. revert off. induction reqs as [|[[pre seq] last] reqs IH]; intros off Hv He; [done|].
  pose proof (Forall_cons_1 _ _ _ Hv) as [Hr Hv']. simpl in Hr.
  unfold total_pages in He. rewrite fmap_cons, zsum_cons in He. cbn [fst snd] in He.
  fold (total_pages ps reqs) in He. cbn [ref_extend].
  pose proof (new_pages_nonneg ps pre seq Hps ltac:(lia)).
  pose proof (total_pages_nonneg ps reqs Hps Hv'). f_equal.
  - apply fmap_ext_elem. intros t Ht%elem_of_arange. unfold ref_slot. case_match; [done|].
    pose proof (page_index_bound ps pre seq Hps t ltac:(lia)).
    f_equal. f_equal. apply He. lia.
  - apply IH; [done|]. intros k Hk. apply He. lia.
Qed.

(** ** Order independence of stores *)

Lemma store_comm m a b : a.1 ≠ b.1 → store (store m a) b = store (store m b) a.
Proof.
  intros Hne. unfold store. repeat case_match; try done.
  apply list_insert_insert_ne. lia.
Qed.

Lemma run_stores_perm m st st' :
  NoDup st.*1 → st ≡ₚ st' → run_stores m st = run_stores m st'.
Proof.
  intros Hnd Hp. revert m Hnd. induction Hp as [|x l l' Hp IH|x y l|l l' l'' H1 IH1 H2 IH2];
    intros m Hnd; unfold run_stores in *; simpl in *.
  - done.
  - apply IH. by apply NoDup_cons in Hnd as [_ ?].
  - apply NoDup_cons in Hnd as [Hy _]. rewrite (store_comm m); [done|]. set_solver.
  - rewrite IH1 by done. apply IH2. by rewrite <-H1.
Qed.

(** ** Page ownership *)

Definition pages_of (ps : Z) (idx : list Z) : list Z :=
  torch_unique ((fun i => i / ps) <$> idx).

Module Own.
Import Paged.

Definition pending (p : t) : list Z :=
  if Base.is_not_in_free_group (base p) then []
  else pages_of (page_size p) (concat (Base.free_group (base p))).

Record owned (p : t) (pgs : list Z) : Prop := mk_owned {
  owned_partition : Base.held (base p) ++ pending p ++ pgs ≡ₚ arange 1 (num_pages p + 1);
  owned_nosort : Base.need_sort (base p) = false → Base.release_pages (base p) = [];
  owned_page : 0 < page_size p;
}.

#[global] Instance owned_proper p : Proper ((≡ₚ) ==> iff) (owned p).
Proof.
  intros u v E; split; intros [H1 H2 H3]; split; try done;
    [rewrite <-H1|rewrite <-H1]; by rewrite E.
Qed.

Lemma paged_owned_init garbage size ps ns dbg :
  0 < ps → owned (init garbage size ps ns dbg) [].
Proof. intros. split; [|done..]. unfold Base.held, pending. simpl. by rewrite !app_nil_r. Qed.

Lemma paged_owned_NoDup p pgs : owned p pgs → NoDup (Base.held (base p) ++ pending p ++ pgs).
Proof. intros [H _ _]. rewrite H. apply NoDup_arange. Qed.

(** [merge_if_short] keeps ownership and leaves enough free pages whenever the
    pool has them. *)
Lemma merge_if_short_spec p pgs n :
  owned p pgs →
  let b := Base.merge_if_short n (base p) in
  owned (with_base b p) pgs ∧ Base.held b ≡ₚ Base.held (base p) ∧
  page_size (with_base b p) = page_size p ∧
  (∀ m, m ≤ n → len (Base.free_pages b) < m ↔ len (Base.held (base p)) < m).
Proof.
  intros [H1 H2 H3]. unfold Base.merge_if_short. cbn zeta.
  destruct (Base.need_sort (base p)) eqn:Es; simpl.
  - destruct (Z.ltb_spec (len (Base.free_pages (base p))) n); simpl.
    + destruct (Base.merge_frame (base p)) as (E1 & E2 & E3 & E4 & E5).
      pose proof (Base.merge_held (base p)) as Hh.
      assert (pending (with_base (Base.merge_and_sort_free (base p)) p) = pending p) as Hp.
      { unfold pending, page_size. simpl. rewrite E5, E2.
        unfold Base.merge_and_sort_free. by destruct (0 <? _). }
      split; [|split; [done|split]].
      * split; simpl; [by rewrite Hp, Hh|intros _; apply Base.merge_release|].
        unfold page_size in *. simpl. by rewrite E2.
      * unfold page_size. simpl. done.
      * intros m _. rewrite Base.merge_free_len. done.
    + split; [split; [done|simpl; congruence|done]|]. split_and!; [done..|].
      intros m Hm. unfold Base.held. lenlia.
  - split; [split; [done|intros _; by apply H2|done]|]. split_and!; [done..|].
    intros m _. unfold Base.held. rewrite H2 by done. lenlia.
Qed.

Lemma all_unique_NoDup l : NoDup l → all_unique l = true.
Proof.
  intros Hnd. unfold all_unique. apply Z.eqb_eq, len_perm.
  apply NoDup_Permutation; [apply torch_unique_NoDup|done|].
  intros x. apply elem_of_torch_unique.
Qed.

Lemma debug_assert_true p c : c = true → debug_assert p c = Ok tt.
Proof. intros ->. unfold debug_assert. by destruct (debug_mode p). Qed.

Lemma debug_assert_off p c : debug_mode p = false → debug_assert p c = Ok tt.
Proof. intros E. unfold debug_assert. by rewrite E. Qed.

(** Taking the first [n] pages of the free list. *)
Lemma take_pages_owned p pgs n :
  owned p pgs → 0 ≤ n ≤ len (free_pages p) →
  owned (with_base (Base.with_pages (free_pages p).[n :]
           (Base.release_pages (base p)) (base p)) p) (take (Z.to_nat n) (free_pages p) ++ pgs).
Proof.
  intros [H1 H2 H3] Hn. rewrite py_drop_nonneg by lia.
  split; [simpl|done..]. rewrite <-H1. unfold Base.held, pending, page_size, free_pages. simpl.
  pose proof (take_drop (Z.to_nat n) (Base.free_pages (base p))) as Htd. revert Htd.
  generalize (take (Z.to_nat n) (Base.free_pages (base p))).
  generalize (drop (Z.to_nat n) (Base.free_pages (base p))). intros d k <-.
  solve_Permutation.
Qed.

Lemma load_newp garbage (fp newp : list Z) n k :
  newp = take n fp → 0 ≤ k < len newp → load garbage fp k = newp !!! Z.to_nat k.
Proof.
  intros -> Hk. unfold load. destruct (Z.ltb_spec k 0); [lia|].
  unfold len in Hk. rewrite length_take in Hk.
  rewrite list_lookup_total_alt, lookup_take_lt by lia.
  destruct (lookup_lt_is_Some_2 fp (Z.to_nat k)) as [v ->]; [lia|done].
Qed.

Lemma fmap_load_take garbage (fp : list Z) n :
  0 ≤ n ≤ len fp → load garbage fp <$> arange 0 n = take (Z.to_nat n) fp.
Proof.
  intros Hn. unfold len in Hn.
  replace n with (len (take (Z.to_nat n) fp)) at 1 by (unfold len; rewrite length_take; lia).
  rewrite <-(list_fmap_id (take (Z.to_nat n) fp)) at 2.
  apply arange_fmap_lookup. intros i x [Ei Hi]%lookup_take_Some.
  unfold load. destruct (Z.ltb_spec (Z.of_nat i) 0); [lia|]. by rewrite Nat2Z.id, Ei.
Qed.

(** The pages a batch touches are distinct: its old pages are owned and its new
    ones come from the free list. *)
Lemma batch_pages_NoDup garbage p pgs rest reqs :
  owned p pgs → valid_batch reqs →
  pgs ≡ₚ old_pages (page_size p) reqs ++ rest →
  total_pages (page_size p) reqs ≤ len (free_pages p) →
  NoDup (touched_all (page_size p) (load garbage (free_pages p)) 0 reqs).
Proof.
  intros Ho Hv Hold Htot. pose proof (owned_page _ _ Ho) as Hps.
  rewrite touched_all_perm, Z.add_0_l by done.
  pose proof (total_pages_nonneg _ _ Hps Hv).
  rewrite fmap_load_take by lia.
  pose proof (paged_owned_NoDup _ _ (take_pages_owned p pgs _ Ho (conj H Htot))) as Hnd.
  rewrite Hold in Hnd.
  apply NoDup_app in Hnd as (_ & _ & (_ & _ & Hnd)%NoDup_app).
  rewrite app_assoc in Hnd. apply NoDup_app in Hnd as (Hnd & _ & _).
  by rewrite Permutation_app_comm.
Qed.

Lemma aligned_check ps reqs :
  Forall (aligned ps) reqs →
  forallb (fun '(l, n) => (l + 1) mod ps =? n mod ps) (zip (lasts reqs) (pres reqs)) = true.
Proof.
  unfold lasts, pres. induction 1 as [|r reqs Hr _ IH]; [done|].
  rewrite !fmap_cons. cbn [zip_with forallb]. rewrite IH, andb_true_r. by apply Z.eqb_eq.
Qed.

(** The run of [alloc_extend] up to the page-count test. *)
Section run.
Context (garbage tl_other : Z → Z) (p : t) (pgs : list Z) (reqs : list (Z * Z * Z)).
Context (Ho : owned p pgs) (Hv : valid_batch reqs) (Hne : reqs ≠ []).
Context (Hal : Forall (aligned (page_size p)) reqs).
Context (Hsize : total_tokens reqs + len reqs < 2 ^ 31).

Let b := Base.merge_if_short (total_tokens reqs / page_size p + len reqs + 1) (base p).
Let tp := total_pages (page_size p) reqs.
Let out := ref_extend (page_size p) (load garbage (Base.free_pages b)) 0 reqs.
Let p1 := with_ret (packed tp (total_tokens reqs))
  (with_base b (with_seen (Z.max (seen_max_num_extend_tokens_next_power_of_2 p)
                                 (next_power_of_2 (total_tokens reqs))) p)).

Lemma tp_bounds : 0 ≤ tp < 2 ^ 31 ∧ tp ≤ total_tokens reqs / page_size p + len reqs + 1.
Proof.
  pose proof (owned_page _ _ Ho) as Hps. unfold tp.
  pose proof (total_pages_nonneg _ _ Hps Hv). pose proof (total_pages_le _ _ Hps Hv).
  pose proof (total_tokens_nonneg _ Hv).
  assert (total_tokens reqs / page_size p ≤ total_tokens reqs) by (apply Z.div_le_upper_bound; nia).
  lia.
Qed.

Lemma alloc_extend_run :
  alloc_extend garbage tl_other (pres reqs) (seqs reqs) (lasts reqs) (total_tokens reqs) p =
  (debug_assert p1 (all_unique out) ;;
   if len (Base.free_pages b) <? tp then mret (None, p1)
   else mret (Some out, with_base (Base.with_pages (Base.free_pages b).[tp :]
                          (Base.release_pages b) b) p1)).
Proof.
  pose proof (owned_page _ _ Ho) as Hps. pose proof tp_bounds as [Htp _].
  pose proof (total_tokens_nonneg _ Hv) as Htt. len_pos.
  unfold alloc_extend. rewrite (debug_assert_true p _ (aligned_check _ _ Hal)).
  replace (len (pres reqs)) with (len reqs) by (unfold pres; by rewrite len_fmap).
  unfold free_pages. cbn [mbind pyres_bind base with_base with_seen]. fold b.
  rewrite extend_launch_spec; [|done|done|apply next_power_of_2_ge|done|
    pose proof (next_power_of_2_ge (total_tokens reqs));
    cbn [seen_max_num_extend_tokens_next_power_of_2 with_base with_seen]; lia].
  cbv beta iota. fold out.
  assert (run_stores (torch_empty garbage (total_tokens reqs))
            (zip (arange 0 (total_tokens reqs)) out) = out) as ->.
  { pose proof (len_ref_extend (page_size p) (load garbage (Base.free_pages b)) 0 reqs Hv) as Hl.
    fold out in Hl.
    pose proof (run_stores_fill out [] (torch_empty garbage (total_tokens reqs))) as Hr.
    rewrite !app_nil_l, len_nil, Z.add_0_l, Hl in Hr. apply Hr.
    unfold torch_empty, len in *. rewrite length_fmap.
    pose proof (len_arange 0 (total_tokens reqs)) as Ha. unfold len in Ha. lia. }
  simpl. fold tp. rewrite packed_pages by lia. done.
Qed.

End run.

Lemma decode_aligned ps sl :
  Forall (fun r => (r.2 + 2) mod ps = r.1 mod ps) sl → Forall (aligned ps) (decode_reqs sl).
Proof.
  intros H. apply Forall_fmap. eapply Forall_impl; [done|]. intros [seq last]; simpl.
  unfold aligned. simpl. intros E. replace (last + 1) with (last + 2 - 1) by lia.
  rewrite Zminus_mod, E, <-Zminus_mod. done.
Qed.

Lemma decode_check ps sl :
  Forall (fun r => (r.2 + 2) mod ps = r.1 mod ps) sl →
  forallb (fun '(l, n) => (l + 2) mod ps =? n mod ps) (zip (snd <$> sl) (fst <$> sl)) = true.
Proof.
  induction 1 as [|r sl Hr _ IH]; [done|].
  rewrite !fmap_cons. cbn [zip_with forallb]. rewrite IH, andb_true_r. by apply Z.eqb_eq.
Qed.

(** The run of [alloc_decode] up to the page-count test. *)
Lemma alloc_decode_run garbage tl_other p sl :
  0 < page_size p → Forall (fun r => 1 ≤ r.1) sl → sl ≠ [] →
  Forall (fun r => (r.2 + 2) mod page_size p = r.1 mod page_size p) sl →
  let b := Base.merge_if_short (len sl) (base p) in
  let tp := total_pages (page_size p) (decode_reqs sl) in
  let out := ref_extend (page_size p) (load garbage (Base.free_pages b)) 0 (decode_reqs sl) in
  let p1 := with_ret tp (with_base b p) in
  alloc_decode garbage tl_other (fst <$> sl) (snd <$> sl) p =
  (debug_assert p1 (all_unique out) ;;
   if len (Base.free_pages b) <? tp then mret (None, p1)
   else mret (Some out, with_base (Base.with_pages (Base.free_pages b).[tp :]
                          (Base.release_pages b) b) p1)).
Proof.
  intros Hps Hv Hne Hal b tp out p1. unfold alloc_decode.
  rewrite (debug_assert_true p _ (decode_check _ _ Hal)).
  replace (len (fst <$> sl)) with (len sl) by (by rewrite len_fmap).
  unfold free_pages. cbn [mbind pyres_bind base with_base]. fold b.
  rewrite decode_launch_spec; [|done|done|apply next_power_of_2_ge|done].
  cbv beta iota. fold out.
  assert (run_stores (torch_empty garbage (len sl)) (zip (arange 0 (len sl)) out) = out) as ->; [|done].
  pose proof (len_ref_extend (page_size p) (load garbage (Base.free_pages b)) 0 _ (decode_valid _ Hv)) as Hl.
  fold out in Hl. rewrite decode_total_tokens in Hl.
  pose proof (run_stores_fill out [] (torch_empty garbage (len sl))) as Hr.
  rewrite !app_nil_l, len_nil, Z.add_0_l, Hl in Hr. apply Hr.
  unfold torch_empty, len in *. rewrite length_fmap.
  pose proof (len_arange 0 (Z.of_nat (length sl))) as Ha. unfold len in Ha. lia.
Qed.

Lemma alloc_extend_ok garbage tl_other p pgs rest reqs :
  owned p pgs → valid_batch reqs → reqs ≠ [] →
  Forall (aligned (page_size p)) reqs →
  pgs ≡ₚ old_pages (page_size p) reqs ++ rest →
  total_tokens reqs + len reqs < 2 ^ 31 →
  total_pages (page_size p) reqs ≤ len (Base.held (base p)) →
  ∃ newp p',
    alloc_extend garbage tl_other (pres reqs) (seqs reqs) (lasts reqs)
      (total_tokens reqs) p
    = Ok (Some (ref_extend (page_size p) (fun k => newp !!! Z.to_nat k) 0 reqs), p') ∧
    len newp = total_pages (page_size p) reqs ∧
    NoDup (ref_extend (page_size p) (fun k => newp !!! Z.to_nat k) 0 reqs) ∧
    owned p' (newp ++ pgs).
Proof.
  intros Ho Hv Hne Hal Hold Hsz Htot. pose proof (owned_page _ _ Ho) as Hps.
  rewrite (alloc_extend_run garbage tl_other p pgs reqs Ho Hv Hne Hal Hsz).
  pose proof (tp_bounds p pgs reqs Ho Hv Hsz) as [Htp Hmrg].
  set (n := total_tokens reqs / page_size p + len reqs + 1) in *.
  destruct (merge_if_short_spec p pgs n Ho) as (Ho' & Hh & Hpp & Hlt).
  set (b := Base.merge_if_short n (base p)) in *.
  set (tp := total_pages (page_size p) reqs) in *.
  assert (tp ≤ len (Base.free_pages b)) as Hle by (pose proof (Hlt tp Hmrg); lia).
  set (newp := take (Z.to_nat tp) (Base.free_pages b)).
  assert (len newp = tp) as Hnl by (unfold newp; rewrite len_take; lia).
  assert (ref_extend (page_size p) (load garbage (Base.free_pages b)) 0 reqs =
          ref_extend (page_size p) (fun k => newp !!! Z.to_nat k) 0 reqs) as Heq.
  { apply ref_extend_ext; [done..|]. intros k Hk. fold tp in Hk.
    eapply load_newp; [done|lia]. }
  assert (NoDup (ref_extend (page_size p) (load garbage (Base.free_pages b)) 0 reqs)) as Hnd.
  { apply ref_extend_NoDup; [done..|].
    pose proof (batch_pages_NoDup garbage (with_base b p) pgs rest reqs) as Hb.
    rewrite Hpp in Hb. by apply Hb. }
  rewrite debug_assert_true by (by apply all_unique_NoDup). simpl.
  destruct (Z.ltb_spec (len (Base.free_pages b)) tp); [lia|].
  rewrite Heq in Hnd |- *. eexists newp, _. split; [done|]. split; [done|]. split; [done|].
  pose proof (take_pages_owned (with_base b p) pgs tp Ho' ltac:(unfold free_pages; simpl; lia)) as [H1 H2 H3].
  split; [exact H1|exact H2|exact H3].
Qed.

(** C23: for a batch whose old partial pages it owns, [alloc_extend] succeeds
    exactly when the pool (free and released pages) has the pages the batch
    needs; it then returns the reference assignment [ref_extend] over the new
    pages, all slots distinct (the debug assertions hold), and moves exactly
    those pages from the pool to the batch. *)
Theorem paged_alloc_extend_correct garbage tl_other p pgs rest reqs :
  owned p pgs → valid_batch reqs → reqs ≠ [] →
  Forall (aligned (page_size p)) reqs →
  pgs ≡ₚ old_pages (page_size p) reqs ++ rest →
  total_tokens reqs + len reqs < 2 ^ 31 →
  total_pages (page_size p) reqs ≤ len (Base.held (base p)) →
  ∃ newp p',
    alloc_extend garbage tl_other (pres reqs) (seqs reqs) (lasts reqs)
      (total_tokens reqs) p
    = Ok (Some (ref_extend (page_size p) (fun k => newp !!! Z.to_nat k) 0 reqs), p') ∧
    len newp = total_pages (page_size p) reqs ∧
    NoDup (ref_extend (page_size p) (fun k => newp !!! Z.to_nat k) 0 reqs) ∧
    owned p' (newp ++ pgs).
Proof. apply alloc_extend_ok. Qed.

(** when the pool lacks the pages, [alloc_extend] (debug checks off)
    returns [None] and every page stays where it was, whatever the kernel read
    past the end of the free list. *)
Theorem paged_alloc_extend_oom garbage tl_other p pgs reqs :
  owned p pgs → valid_batch reqs → reqs ≠ [] →
  Forall (aligned (page_size p)) reqs →
  total_tokens reqs + len reqs < 2 ^ 31 → debug_mode p = false →
  len (Base.held (base p)) < total_pages (page_size p) reqs →
  ∃ p', alloc_extend garbage tl_other (pres reqs) (seqs reqs) (lasts reqs)
          (total_tokens reqs) p = Ok (None, p') ∧
        owned p' pgs ∧ Base.held (base p') ≡ₚ Base.held (base p).
Proof.
  intros Ho Hv Hne Hal Hsz Hdbg Hlack.
  rewrite (alloc_extend_run garbage tl_other p pgs reqs Ho Hv Hne Hal Hsz).
  pose proof (tp_bounds p pgs reqs Ho Hv Hsz) as [_ Hmrg].
  set (n := total_tokens reqs / page_size p + len reqs + 1) in *.
  destruct (merge_if_short_spec p pgs n Ho) as ([H1 H2 H3] & Hh & _ & Hlt).
  rewrite debug_assert_off by done. cbn [mbind pyres_bind].
  apply Hlt in Hlack; [|done].
  destruct (Z.ltb_spec (len (Base.free_pages (Base.merge_if_short n (base p))))
              (total_pages (page_size p) reqs)); [|lia].
  eexists; split; [done|]. split; [|exact Hh]. split; [exact H1|exact H2|exact H3].
Qed.

Lemma alloc_decode_ok garbage tl_other p pgs rest sl :
  owned p pgs → Forall (fun r => 1 ≤ r.1) sl → sl ≠ [] →
  Forall (fun r => (r.2 + 2) mod page_size p = r.1 mod page_size p) sl →
  pgs ≡ₚ old_pages (page_size p) (decode_reqs sl) ++ rest →
  total_pages (page_size p) (decode_reqs sl) ≤ len (Base.held (base p)) →
  ∃ newp p',
    alloc_decode garbage tl_other (fst <$> sl) (snd <$> sl) p
    = Ok (Some (ref_extend (page_size p) (fun k => newp !!! Z.to_nat k) 0 (decode_reqs sl)), p') ∧
    len newp = total_pages (page_size p) (decode_reqs sl) ∧
    NoDup (ref_extend (page_size p) (fun k => newp !!! Z.to_nat k) 0 (decode_reqs sl)) ∧
    owned p' (newp ++ pgs).
Proof.
  intros Ho Hv Hne Hal Hold Htot. pose proof (owned_page _ _ Ho) as Hps.
  destruct (merge_if_short_spec p pgs (len sl) Ho) as (Ho' & Hh & Hpp & Hlt).
  set (b := Base.merge_if_short (len sl) (base p)) in *.
  pose proof (decode_total_pages _ sl Hps) as Hmrg.
  set (reqs := decode_reqs sl) in *. set (tp := total_pages (page_size p) reqs) in *.
  assert (valid_batch reqs) as Hvb by by apply decode_valid.
  assert (tp ≤ len (Base.free_pages b)) as Hle by (pose proof (Hlt tp Hmrg); lia).
  pose proof (total_pages_nonneg _ _ Hps Hvb) as Htp0. fold tp in Htp0.
  assert (Forall (aligned (page_size p)) reqs) as Hal' by by apply decode_aligned.
  set (newp := take (Z.to_nat tp) (Base.free_pages b)).
  assert (len newp = tp) as Hnl by (unfold newp; rewrite len_take; lia).
  set (out := ref_extend (page_size p) (load garbage (Base.free_pages b)) 0 reqs).
  assert (out = ref_extend (page_size p) (fun k => newp !!! Z.to_nat k) 0 reqs) as Heq.
  { apply ref_extend_ext; [done..|]. intros k Hk. fold tp in Hk. eapply load_newp; [done|lia]. }
  assert (NoDup out) as Hnd.
  { apply ref_extend_NoDup; [done..|].
    pose proof (batch_pages_NoDup garbage (with_base b p) pgs rest reqs) as Hb.
    rewrite Hpp in Hb. by apply Hb. }
  rewrite (alloc_decode_run garbage tl_other p sl Hps Hv Hne Hal). fold b reqs tp out.
  rewrite debug_assert_true by (by apply all_unique_NoDup). cbn [mbind pyres_bind].
  destruct (Z.ltb_spec (len (Base.free_pages b)) tp); [lia|].
  rewrite Heq in Hnd |- *. eexists newp, _. split; [done|]. split; [done|]. split; [done|].
  pose proof (take_pages_owned (with_base b p) pgs tp Ho' ltac:(unfold free_pages; simpl; lia)) as [H1 H2 H3].
  split; [exact H1|exact H2|exact H3].
Qed.

Lemma alloc_extend_frame garbage tl_other prefix_lens seq_lens last_loc n p o p' :
  alloc_extend garbage tl_other prefix_lens seq_lens last_loc n p = Ok (o, p') →
  page_size p' = page_size p ∧ num_pages p' = num_pages p ∧
  Base.is_not_in_free_group (base p') = Base.is_not_in_free_group (base p).
Proof.
  unfold alloc_extend. intros E. apply pyres_bind_ok in E as (_ & _ & E). simpl base in E.
  set (b := Base.merge_if_short _ (base p)) in *.
  assert (Base.page_size b = Base.page_size (base p) ∧
          Base.is_not_in_free_group b = Base.is_not_in_free_group (base p)) as [Hp Hg].
  { unfold b, Base.merge_if_short. destruct (_ && _); [|done]. by destruct (Base.merge_frame (base p)) as (_ & ? & _ & _ & ?). }
  destruct (launch _ _) as [stores ret]. apply pyres_bind_ok in E as (_ & _ & E).
  destruct (_ <? _); injection E as _ <-; done.
Qed.

Lemma alloc_decode_frame garbage tl_other seq_lens last_loc p o p' :
  alloc_decode garbage tl_other seq_lens last_loc p = Ok (o, p') →
  page_size p' = page_size p ∧ num_pages p' = num_pages p ∧
  Base.is_not_in_free_group (base p') = Base.is_not_in_free_group (base p).
Proof.
  unfold alloc_decode. intros E. apply pyres_bind_ok in E as (_ & _ & E).
  set (b := Base.merge_if_short (len seq_lens) (base p)) in *.
  assert (Base.page_size b = Base.page_size (base p) ∧
          Base.is_not_in_free_group b = Base.is_not_in_free_group (base p)) as [Hp Hg].
  { unfold b, Base.merge_if_short. destruct (_ && _); [|done]. by destruct (Base.merge_frame (base p)) as (_ & ? & _ & _ & ?). }
  destruct (launch _ _) as [stores ret]. apply pyres_bind_ok in E as (_ & _ & E).
  destruct (_ <? _); injection E as _ <-; done.
Qed.

(** [alloc_decode] gives each request the slot that extending it by one
    token would: the next slot of its page, or the first slot of a new page
    when the page is full; success is decided by the pool's page count. *)
Theorem paged_alloc_decode_correct garbage tl_other p pgs rest sl :
  owned p pgs → Forall (fun r => 1 ≤ r.1) sl → sl ≠ [] →
  Forall (fun r => (r.2 + 2) mod page_size p = r.1 mod page_size p) sl →
  pgs ≡ₚ old_pages (page_size p) (decode_reqs sl) ++ rest →
  total_pages (page_size p) (decode_reqs sl) ≤ len (Base.held (base p)) →
  ∃ newp p',
    alloc_decode garbage tl_other (fst <$> sl) (snd <$> sl) p
    = Ok (Some (ref_extend (page_size p) (fun k => newp !!! Z.to_nat k) 0 (decode_reqs sl)), p') ∧
    len newp = total_pages (page_size p) (decode_reqs sl) ∧
    NoDup (ref_extend (page_size p) (fun k => newp !!! Z.to_nat k) 0 (decode_reqs sl)) ∧
    owned p' (newp ++ pgs).
Proof. apply alloc_decode_ok. Qed.

(** *** [free], [alloc] and the free group *)

Lemma elem_of_pages_of ps idx x : x ∈ pages_of ps idx ↔ ∃ i, i ∈ idx ∧ x = i / ps.
Proof. unfold pages_of. rewrite elem_of_torch_unique, list_elem_of_fmap. naive_solver. Qed.

Lemma pages_of_app ps i j :
  NoDup (pages_of ps i ++ pages_of ps j) →
  pages_of ps (i ++ j) ≡ₚ pages_of ps i ++ pages_of ps j.
Proof.
  intros Hnd. apply NoDup_Permutation; [apply torch_unique_NoDup|done|].
  intros x. rewrite elem_of_app, !elem_of_pages_of. set_solver.
Qed.

Lemma free_pages_NoDup p pgs : owned p pgs → NoDup (free_pages p).
Proof.
  intros Ho. pose proof (paged_owned_NoDup _ _ Ho) as (Hnd & _)%NoDup_app.
  unfold Base.held in Hnd. by apply NoDup_app in Hnd as (? & _).
Qed.

Lemma free_ok p idx rest :
  owned p (pages_of (page_size p) idx ++ rest) →
  ∃ p', free idx p = Ok p' ∧ owned p' rest ∧ page_size p' = page_size p ∧
        num_pages p' = num_pages p ∧
        Base.is_not_in_free_group (base p') = Base.is_not_in_free_group (base p).
Proof.
  intros Ho. unfold free. destruct (Z.eqb_spec (len idx) 0) as [->%len_zero|Hne].
  { exists p. done. }
  set (b := if Base.is_not_in_free_group (base p) then _ else _).
  assert (owned (with_base b p) rest ∧ page_size (with_base b p) = page_size p ∧
          Base.is_not_in_free_group b = Base.is_not_in_free_group (base p)) as (Ho' & Hps & Hg).
  { pose proof (paged_owned_NoDup _ _ Ho) as Hnd. destruct Ho as [H1 H2 H3]. unfold b.
    destruct (Base.is_not_in_free_group (base p)) eqn:Eg;
      [destruct (Base.need_sort (base p)) eqn:Es|]; (split; [|done]);
      (split; [simpl; rewrite <-H1|simpl; intros; (congruence || auto)|done]);
      unfold Base.held, pending, pages_of; simpl; rewrite ?Eg.
    - fold (pages_of (page_size p) idx). solve_Permutation.
    - fold (pages_of (page_size p) idx). solve_Permutation.
    - change (page_size (with_base _ p)) with (page_size p).
      fold (pages_of (page_size p) (concat (Base.free_group (base p) ++ [idx]))).
      fold (pages_of (page_size p) (concat (Base.free_group (base p)))).
      rewrite concat_app. simpl. rewrite app_nil_r, pages_of_app; [solve_Permutation|].
      unfold pending in Hnd. rewrite Eg in Hnd.
      apply NoDup_app in Hnd as (_ & _ & Hnd). rewrite app_assoc in Hnd.
      by apply NoDup_app in Hnd as (? & _). }
  rewrite debug_assert_true by (by eapply all_unique_NoDup, free_pages_NoDup).
  eexists. split; [done|]. done.
Qed.

Lemma paged_free_available p idx p' :
  Base.is_not_in_free_group (base p) = true → free idx p = Ok p' →
  available_size p' = available_size p + len (pages_of (page_size p) idx) * page_size p.
Proof.
  intros Hg. unfold free, available_size, Base.available_size.
  destruct (Z.eqb_spec (len idx) 0) as [->%len_zero|Hne].
  { intros [= <-]. change (len (pages_of _ [])) with 0. lia. }
  rewrite Hg. fold (pages_of (page_size p) idx).
  intros H. pyinv. unfold page_size. case_match; simpl; lenlia.
Qed.

Lemma group_end_ok p pgs :
  owned p pgs → Base.is_not_in_free_group (base p) = false →
  ∃ p', free_group_end p = Ok p' ∧ owned p' pgs ∧
        Base.is_not_in_free_group (base p') = true.
Proof.
  intros [H1 H2 H3] Hg. unfold free_group_end.
  set (p1 := with_base _ p).
  assert (owned p1 (pages_of (page_size p1) (concat (Base.free_group (base p1))) ++ pgs)) as Ho.
  { split; [|done..]. change (num_pages p1) with (num_pages p). rewrite <-H1.
    unfold pending, Base.held. simpl. by rewrite Hg. }
  destruct (Base.free_group (base p1)) as [|i g].
  - exists p1. split; [done|]. split; [exact Ho|done].
  - destruct (free_ok _ _ _ Ho) as (p' & -> & ? & _ & _ & E). eexists. rewrite E. done.
Qed.

(** [free] gives back exactly the pages its indices touch, each once; the
    debug assertion on the free list never fires, and outside a free group the
    available size grows by those pages. *)
Theorem paged_free_correct p idx rest :
  owned p (pages_of (page_size p) idx ++ rest) →
  ∃ p', free idx p = Ok p' ∧ owned p' rest ∧
    (Base.is_not_in_free_group (base p) = true →
     available_size p' =
       available_size p + len (pages_of (page_size p) idx) * page_size p).
Proof.
  intros Ho. destruct (free_ok p idx rest Ho) as (p' & E & Ho' & _).
  exists p'. split_and!; [done..|]. intros Hg. by eapply paged_free_available.
Qed.

(** a free group that is closed hands back the union of the pages freed in
    it, each page once, even when several frees of the group hit one page. *)
Theorem paged_free_group_correct p pgs :
  owned p pgs → Base.is_not_in_free_group (base p) = false →
  ∃ p', free_group_end p = Ok p' ∧ owned p' pgs ∧ pending p' = [].
Proof.
  intros Ho Hg. destruct (group_end_ok p pgs Ho Hg) as (p' & E & Ho' & E').
  exists p'. split_and!; [done..|]. unfold pending. by rewrite E'.
Qed.

Lemma len_bind_page_slots ps l : 0 ≤ ps → len (l ≫= page_slots ps) = len l * ps.
Proof.
  intros. induction l as [|x l IH]; [done|]. rewrite bind_cons, len_app, IH, len_cons.
  unfold page_slots. autorewrite with pylen. lia.
Qed.

Lemma pages_of_page_slots ps l :
  0 < ps → NoDup l → pages_of ps (l ≫= page_slots ps) ≡ₚ l.
Proof.
  intros Hps Hnd. apply NoDup_Permutation; [apply torch_unique_NoDup|done|].
  intros x. rewrite elem_of_pages_of. split.
  - intros (i & (pg & Hi & Hpg)%list_elem_of_bind & ->).
    apply list_elem_of_fmap in Hi as (o & -> & Ho%elem_of_arange).
    rewrite Z.div_add_l, (Z.div_small o) by lia. by rewrite Z.add_0_r.
  - intros Hx. exists (x * ps + 0). split.
    + apply list_elem_of_bind. exists x. split; [|done]. apply list_elem_of_fmap.
      exists 0. split; [done|]. apply elem_of_arange. lia.
    + rewrite Z.add_0_r, Z.div_mul; lia.
Qed.

(** page-granular [alloc]: it fails exactly when the pool has fewer pages
    than requested, and otherwise returns all slots of that many whole pages
    taken from the pool, in page order. *)
Theorem paged_alloc_correct p pgs n :
  owned p pgs → 0 ≤ n →
  let pages := len (Base.held (base p)) in
  ∃ r p', alloc (n * page_size p) p = Ok (r, p') ∧
  match r with
  | None => pages < n ∧ owned p' pgs
  | Some idx => n ≤ pages ∧ len idx = n * page_size p ∧
                owned p' (pages_of (page_size p) idx ++ pgs)
  end.
Proof.
  intros Ho Hn pages. pose proof (owned_page _ _ Ho) as Hps. unfold alloc.
  rewrite Z.mod_mul, Z.div_mul, debug_assert_true by (done || lia). cbn [mbind pyres_bind].
  destruct (merge_if_short_spec p pgs n Ho) as (Ho' & Hh & Hpp & Hlt).
  set (b := Base.merge_if_short n (base p)) in *. specialize (Hlt n ltac:(lia)).
  destruct (Z.ltb_spec (len (free_pages (with_base b p))) n) as [Hl|Hl].
  - eexists _, _. split; [done|]. split; [by apply Hlt|done].
  - eexists _, _. split; [done|]. rewrite Hpp, py_take_nonneg by done.
    pose proof (take_pages_owned _ _ n Ho' (conj Hn Hl)) as Hto.
    split; [unfold free_pages in Hl; simpl in Hl; lia|]. split.
    + rewrite len_bind_page_slots, len_take by lia. f_equal. lia.
    + rewrite pages_of_page_slots; [exact Hto|done|].
      pose proof (paged_owned_NoDup _ _ Hto) as (_ & _ & (_ & _ & Hnd)%NoDup_app)%NoDup_app.
      by apply NoDup_app in Hnd as (? & _).
Qed.

(** C29: the programs of an [alloc_extend_kernel] launch may run in any order:
    they write disjoint addresses that together cover the output exactly, so
    every schedule produces the reference assignment. *)
Theorem alloc_extend_kernel_race_free garbage tl_other fp ps maxn reqs order :
  0 < ps → valid_batch reqs → total_tokens reqs ≤ maxn →
  order ≡ₚ arange 0 (len reqs) →
  run_stores (torch_empty garbage (total_tokens reqs))
    (concat (fst <$> (alloc_extend_kernel garbage tl_other (pres reqs) (seqs reqs)
       (lasts reqs) fp (next_power_of_2 (len reqs)) ps maxn (len reqs) <$> order)))
  = ref_extend ps (load garbage fp) 0 reqs.
Proof.
  intros Hps Hv Hmax Hord.
  pose proof (extend_grid_prefix garbage tl_other reqs fp (next_power_of_2 (len reqs)) ps maxn
    (length reqs) Hv ltac:(apply next_power_of_2_ge) Hps Hmax ltac:(lia)) as Hgrid.
  rewrite take_ge in Hgrid by done. fold (len reqs) in Hgrid.
  set (prog := alloc_extend_kernel _ _ _ _ _ _ _ _ _ _) in *.
  set (out := ref_extend ps (load garbage fp) 0 reqs) in *.
  pose proof (len_ref_extend ps (load garbage fp) 0 reqs Hv) as Hl. fold out in Hl.
  pose proof (total_tokens_nonneg _ Hv).
  pose proof (len_arange 0 (total_tokens reqs)) as Ha.
  assert (concat (prog <$> arange 0 (len reqs)).*1 ≡ₚ concat (prog <$> order).*1) as Hperm.
  { by rewrite Hord. }
  rewrite <-(run_stores_perm _ (concat (prog <$> arange 0 (len reqs)).*1)); [|  |done].
  { rewrite Hgrid.
    pose proof (run_stores_fill out [] (torch_empty garbage (total_tokens reqs))) as Hr.
    rewrite !app_nil_l, len_nil, Z.add_0_l, Hl in Hr. apply Hr.
    unfold torch_empty, len in *. rewrite length_fmap. lia. }
  rewrite Hgrid, fst_zip by (unfold len in *; lia). apply NoDup_arange.
Qed.

(** *** Witnesses: a pool of ten 4-slot pages, debug checks on *)

Definition pool10 : t := init (fun _ => 77) 40 4 true true.

(** One new 6-token request. *)
Definition req6 : list (Z * Z * Z) := [(0, 6, -1)].

Lemma pool10_owned : owned pool10 [].
Proof. apply paged_owned_init. lia. Qed.

Lemma req6_valid : valid_batch req6.
Proof. repeat constructor; simpl; lia. Qed.

Lemma paged_alloc_extend_correct_witness :
  ∃ newp p',
    alloc_extend (fun _ => 77) (fun _ => 99) [0] [6] [-1] 6 pool10
    = Ok (Some (ref_extend 4 (fun k => newp !!! Z.to_nat k) 0 req6), p') ∧
    len newp = 2 ∧ NoDup (ref_extend 4 (fun k => newp !!! Z.to_nat k) 0 req6) ∧
    owned p' (newp ++ []).
Proof.
  apply (paged_alloc_extend_correct (fun _ => 77) (fun _ => 99) pool10 [] [] req6).
  - apply pool10_owned.
  - apply req6_valid.
  - discriminate.
  - repeat constructor.
  - reflexivity.
  - vm_compute. reflexivity.
  - vm_compute. discriminate.
Defined.

(** A request for more pages than the pool of two has. *)
Lemma paged_alloc_extend_oom_witness :
  ∃ p', alloc_extend (fun _ => 77) (fun _ => 99) [0] [9] [-1] 9
          (init (fun _ => 77) 8 4 true false) = Ok (None, p') ∧
        owned p' [] ∧ Base.held (base p') ≡ₚ [1; 2].
Proof.
  apply (paged_alloc_extend_oom (fun _ => 77) (fun _ => 99)
           (init (fun _ => 77) 8 4 true false) [] [(0, 9, -1)]).
  - apply paged_owned_init. lia.
  - repeat constructor; simpl; lia.
  - discriminate.
  - repeat constructor.
  - vm_compute. reflexivity.
  - reflexivity.
  - vm_compute. reflexivity.
Defined.

(** The fifth token of a request whose four tokens fill page 1. *)
Definition pool10_page1 : t :=
  with_base (Base.with_pages [2; 3] [] (base (init (fun _ => 77) 12 4 true true)))
    (init (fun _ => 77) 12 4 true true).

Lemma pool10_page1_owned : owned pool10_page1 [1].
Proof. split; [|done..]. vm_compute. solve_Permutation. Qed.

Lemma paged_alloc_decode_correct_witness :
  ∃ newp p',
    alloc_decode (fun _ => 77) (fun _ => 99) [5] [7] pool10_page1
    = Ok (Some (ref_extend 4 (fun k => newp !!! Z.to_nat k) 0 [(4, 5, 7)]), p') ∧
    len newp = 1 ∧ NoDup (ref_extend 4 (fun k => newp !!! Z.to_nat k) 0 [(4, 5, 7)]) ∧
    owned p' (newp ++ [1]).
Proof.
  apply (paged_alloc_decode_correct (fun _ => 77) (fun _ => 99) pool10_page1 [1] [1] [(5, 7)]).
  - apply pool10_page1_owned.
  - repeat constructor; simpl; lia.
  - discriminate.
  - repeat constructor.
  - reflexivity.
  - vm_compute. discriminate.
Defined.

Lemma paged_free_correct_witness :
  ∃ p', free [5; 6] pool10_page1 = Ok p' ∧ owned p' [] ∧
    (true = true → available_size p' = available_size pool10_page1 + 1 * 4).
Proof.
  apply (paged_free_correct pool10_page1 [5; 6] []).
  change (pages_of (page_size pool10_page1) [5; 6] ++ []) with [1]. apply pool10_page1_owned.
Defined.

(** Two frees of page 1 inside one group. *)
Lemma paged_free_group_correct_witness :
  let p := with_base (Base.with_group false [[4; 5]; [6; 7]] (base pool10_page1)) pool10_page1 in
  ∃ p', free_group_end p = Ok p' ∧ owned p' [] ∧ pending p' = [].
Proof.
  apply paged_free_group_correct; [|reflexivity].
  split; [|done..]. vm_compute. solve_Permutation.
Defined.

Lemma paged_alloc_correct_witness :
  ∃ r p', alloc (2 * 4) pool10 = Ok (r, p') ∧
  match r with
  | None => 10 < 2 ∧ owned p' []
  | Some idx => 2 ≤ 10 ∧ len idx = 2 * 4 ∧ owned p' (pages_of 4 idx ++ [])
  end.
Proof. apply (paged_alloc_correct pool10 [] 2); [apply pool10_owned|lia]. Defined.

Lemma alloc_extend_kernel_race_free_witness :
  run_stores (torch_empty (fun _ => 77) 9)
    (concat (fst <$> (alloc_extend_kernel (fun _ => 77) (fun _ => 99) [3; 0] [10; 2]
       [22; -1] [1; 2; 3] (next_power_of_2 2) 4 16 2 <$> [1; 0])))
  = ref_extend 4 (load (fun _ => 77) [1; 2; 3]) 0 [(3, 10, 22); (0, 2, -1)].
Proof.
  apply (alloc_extend_kernel_race_free (fun _ => 77) (fun _ => 99) [1; 2; 3] 4 16
           [(3, 10, 22); (0, 2, -1)] [1; 0]).
  - lia.
  - repeat constructor; simpl; lia.
  - vm_compute. discriminate.
  - vm_compute. constructor.
Defined.

End Own.
