(* ===== verification/SWAAllocator.v ===== *)
(** * Hybrid sliding-window allocator ([python/sglang/srt/mem_cache/allocator.py])

    [SWATokenToKVPoolAllocator] pairs two token allocators, one for the
    full-attention layers and one for the sliding-window (SWA) layers, and a
    mapping tensor from full-attention slots to SWA slots, 0 meaning "no SWA
    slot".  Tensor gather and scatter follow torch indexing: an index in
    [-n, n) is taken modulo [n], any other raises. *)

From S2P Require Import Prelude Allocator.

(** ** Tensor indexing *)

Definition tensor_pos (n i : Z) : option nat :=
  if (- n <=? i) && (i <? n) then Some (Z.to_nat (i mod n)) else None.

(** [t[idx]] *)
Fixpoint gather (t : list Z) (idx : list Z) : pyres (list Z) :=
  match idx with
  | [] => mret []
  | i :: idx =>
      match tensor_pos (len t) i with
      | None => Raise IndexError
      | Some k => vs ← gather t idx; mret (t !!! k :: vs)
      end
  end.

(** [t[idx] = vals]; the stores of a scatter happen in order. *)
Fixpoint scatter (t : list Z) (idx vals : list Z) : pyres (list Z) :=
  match idx, vals with
  | i :: idx, v :: vals =>
      match tensor_pos (len t) i with
      | None => Raise IndexError
      | Some k => scatter (<[k := v]> t) idx vals
      end
  | _, _ => mret t
  end.

Definition in_range (t : list Z) (idx : list Z) : Prop :=
  ∀ i, i ∈ idx → 0 ≤ i < len t.

Lemma tensor_pos_nonneg n i : 0 ≤ i < n → tensor_pos n i = Some (Z.to_nat i).
Proof.
  intros H. unfold tensor_pos. rewrite Z.mod_small by lia.
  destruct (Z.leb_spec (- n) i), (Z.ltb_spec i n); simpl; done || lia.
Qed.

Lemma gather_ok t idx :
  in_range t idx → gather t idx = Ok ((fun i => t !!! Z.to_nat i) <$> idx).
Proof.
  induction idx as [|i idx IH]; intros Hr; [done|]. cbn [gather].
  rewrite tensor_pos_nonneg by (apply Hr; set_solver).
  rewrite IH by (intros ??; apply Hr; set_solver). done.
Qed.

(** A scatter to distinct valid positions sets exactly those positions. *)
Lemma scatter_ok t idx vals :
  in_range t idx → NoDup idx → length vals = length idx →
  ∃ t', scatter t idx vals = Ok t' ∧ length t' = length t ∧
    ((fun i => t' !!! Z.to_nat i) <$> idx = vals) ∧
    (∀ i, 0 ≤ i → i ∉ idx → t' !!! Z.to_nat i = t !!! Z.to_nat i).
Proof.
  revert t vals. induction idx as [|i idx IH]; intros t [|v vals] Hr Hnd Hl; try done.
  { exists t. done. }
  apply NoDup_cons in Hnd as [Hi Hnd]. cbn [scatter].
  assert (0 ≤ i < len t) as Hir by (apply Hr; set_solver).
  rewrite tensor_pos_nonneg by done.
  destruct (IH (<[Z.to_nat i := v]> t) vals) as (t' & E & Hlen & Hin & Hout).
  - intros j Hj. unfold len. rewrite length_insert. apply Hr. set_solver.
  - done.
  - simpl in Hl. lia.
  - exists t'. rewrite E. split; [done|]. rewrite length_insert in Hlen. split; [done|].
    unfold len in Hir. split.
    + rewrite fmap_cons, Hin, Hout by (done || lia).
      by rewrite list_lookup_total_insert_eq by lia.
    + intros j Hj Hji. rewrite Hout by set_solver.
      rewrite list_lookup_total_insert_ne; [done|]. set_solver by lia.
Qed.

Module SWA.

Record t := mk {
  size_full : Z;
  size_swa : Z;
  full_attn_allocator : Base.t;
  swa_attn_allocator : Base.t;
  full_to_swa_index_mapping : list Z;
  is_not_in_free_group : bool;
  free_group : list (list Z);
  (** assigned by [clear] and never read *)
  is_in_free_group : bool;
}.

Definition with_allocs (f w : Base.t) (mp : list Z) (s : t) : t :=
  mk (size_full s) (size_swa s) f w mp
     (is_not_in_free_group s) (free_group s) (is_in_free_group s).

Definition with_group (out : bool) (g : list (list Z)) (s : t) : t :=
  mk (size_full s) (size_swa s) (full_attn_allocator s) (swa_attn_allocator s)
     (full_to_swa_index_mapping s) out g (is_in_free_group s).

Definition clear (s : t) : t :=
  mk (size_full s) (size_swa s)
     (Token.clear (full_attn_allocator s)) (Token.clear (swa_attn_allocator s))
     ((fun _ => 0) <$> full_to_swa_index_mapping s)
     (is_not_in_free_group s) [] false.

Definition init (garbage : Z → Z) (size size_swa : Z) (need_sort : bool) : t :=
  clear (mk size size_swa (Token.init size need_sort) (Token.init size_swa need_sort)
            (garbage <$> arange 0 (size + size_swa + 1)) true [] false).

Definition full_available_size (s : t) : Z := Token.available_size (full_attn_allocator s).
Definition swa_available_size (s : t) : Z := Token.available_size (swa_attn_allocator s).

Definition translate_loc_from_full_to_swa (kv_indices : list Z) (s : t) : pyres (list Z) :=
  gather (full_to_swa_index_mapping s) kv_indices.

Definition alloc (need_size : Z) (s : t) : pyres (option (list Z) * t) :=
  if full_available_size s <? need_size then mret (None, s) else
  if swa_available_size s <? need_size then mret (None, s) else
  match Token.alloc need_size (full_attn_allocator s),
        Token.alloc need_size (swa_attn_allocator s) with
  | (Some alloc_full_indices, f), (Some alloc_swa_indices, w) =>
      mp ← scatter (full_to_swa_index_mapping s) alloc_full_indices alloc_swa_indices;
      mret (Some alloc_full_indices, with_allocs f w mp s)
  | _, _ => Raise RuntimeError (* not reached: both sizes were tested *)
  end.

Definition free_swa (free_index : list Z) (s : t) : pyres t :=
  swa_indices ← gather (full_to_swa_index_mapping s) free_index;
  let swa_indices := filter (fun i => 0 < i) swa_indices in
  let w := Token.free swa_indices (swa_attn_allocator s) in
  mp ← scatter (full_to_swa_index_mapping s) free_index ((fun _ => 0) <$> free_index);
  mret (with_allocs (full_attn_allocator s) w mp s).

Definition free (free_index : list Z) (s : t) : pyres t :=
  if len free_index =? 0 then mret s else
  s ← (if is_not_in_free_group s then
         let f := Token.free free_index (full_attn_allocator s) in
         free_swa free_index
           (with_allocs f (swa_attn_allocator s) (full_to_swa_index_mapping s) s)
       else mret (with_group false (free_group s ++ [free_index]) s));
  py_assert (Token.available_size (full_attn_allocator s)
               <=? Base.size (full_attn_allocator s)) ;;
  py_assert (Token.available_size (swa_attn_allocator s)
               <=? Base.size (swa_attn_allocator s)) ;;
  mret s.

Definition free_group_begin (s : t) : t := with_group false [] s.

Definition free_group_end (s : t) : pyres t :=
  let s := with_group true (free_group s) s in
  match free_group s with
  | [] => mret s
  | g => free (concat g) s
  end.

(** ** Invariant *)

Definition mapping_at (s : t) (i : Z) : Z := full_to_swa_index_mapping s !!! Z.to_nat i.

(** SWA slots attached to the full slots [used]. *)
Definition live_swa (s : t) (used : list Z) : list Z :=
  filter (fun i => 0 < i) (mapping_at s <$> used).

Definition pending (s : t) : list Z :=
  if is_not_in_free_group s then [] else concat (free_group s).

(** [owned s used]: the client holds the full slots [used]; every full slot is
    free, pending or used, every SWA slot is free or attached to exactly one
    pending or used full slot, and slots that are free have no attachment. *)
Record owned (s : t) (used : list Z) : Prop := mk_owned {
  owned_full : Token.owned (full_attn_allocator s) (pending s ++ used);
  owned_swa : Token.owned (swa_attn_allocator s) (live_swa s (pending s ++ used));
  owned_full_closed : Base.is_not_in_free_group (full_attn_allocator s) = true;
  owned_swa_closed : Base.is_not_in_free_group (swa_attn_allocator s) = true;
  owned_sizes : Base.size (full_attn_allocator s) = size_full s ∧
                Base.size (swa_attn_allocator s) = size_swa s ∧
                0 ≤ size_full s ∧ 0 ≤ size_swa s;
  owned_length : len (full_to_swa_index_mapping s) = size_full s + size_swa s + 1;
  owned_unused : ∀ i, 0 ≤ i < len (full_to_swa_index_mapping s) →
                 i ∉ pending s ++ used → mapping_at s i = 0;
  owned_nonneg : ∀ i, 0 ≤ i < len (full_to_swa_index_mapping s) → 0 ≤ mapping_at s i;
}.

#[global] Instance live_swa_proper s : Proper ((≡ₚ) ==> (≡ₚ)) (live_swa s).
Proof. intros u v E. unfold live_swa. by rewrite E. Qed.

Lemma swa_owned_perm s u v : u ≡ₚ v → owned s u → owned s v.
Proof.
  intros E [H1 H2 H3 H4 H5 H6 H7 H8]. split; try done.
  - by rewrite <-E.
  - by rewrite <-E.
  - intros i Hi Hn. apply H7; [done|]. by rewrite E.
Qed.

#[global] Instance swa_owned_proper s : Proper ((≡ₚ) ==> iff) (owned s).
Proof. intros u v E; split; by apply swa_owned_perm. Qed.

Lemma used_in_range s used :
  owned s used → in_range (full_to_swa_index_mapping s) (pending s ++ used).
Proof.
  intros Ho i Hi. pose proof (Token.owned_bounds _ _ i (owned_full _ _ Ho) Hi).
  destruct (owned_sizes _ _ Ho) as (? & ? & ? & ?). rewrite (owned_length _ _ Ho). lia.
Qed.

Lemma used_NoDup s used : owned s used → NoDup (pending s ++ used).
Proof.
  intros Ho. pose proof (Token.owned_NoDup _ _ (owned_full _ _ Ho)) as Hnd.
  apply NoDup_app in Hnd as (_ & _ & Hnd). by apply NoDup_app in Hnd as (_ & _ & ?).
Qed.

Lemma live_swa_app s l k : live_swa s (l ++ k) = live_swa s l ++ live_swa s k.
Proof. unfold live_swa. by rewrite fmap_app, filter_app. Qed.

(** The mapping only matters on the slots asked about. *)
Lemma live_swa_ext s s' l :
  (∀ i, i ∈ l → mapping_at s' i = mapping_at s i) → live_swa s' l = live_swa s l.
Proof. intros H. unfold live_swa. by rewrite (fmap_ext_elem _ (mapping_at s)). Qed.

Lemma swa_owned_init garbage n m ns :
  0 ≤ n → 0 ≤ m → owned (init garbage n m ns) [].
Proof.
  intros Hn Hm.
  assert (∀ i, 0 ≤ i < n + m + 1 → mapping_at (init garbage n m ns) i = 0) as H0.
  { intros i Hi. unfold mapping_at, init, clear. cbn [full_to_swa_index_mapping].
    rewrite list_lookup_total_alt, !list_lookup_fmap. unfold arange.
    by rewrite lookup_seqZ_lt by lia. }
  assert (len (full_to_swa_index_mapping (init garbage n m ns)) = n + m + 1) as Hlen.
  { unfold init, clear. cbn [full_to_swa_index_mapping]. rewrite !len_fmap, len_arange. lia. }
  split; try done.
  - apply (Token.owned_init n ns).
  - apply (Token.owned_init m ns).
  - intros i Hi _. apply H0. lia.
  - intros i Hi. rewrite H0; lia.
Qed.

(** [free_swa] zeroes the attachments of [idx] and leaves the others. *)
Lemma free_swa_ok s idx :
  in_range (full_to_swa_index_mapping s) idx → NoDup idx →
  ∃ mp, free_swa idx s =
        Ok (with_allocs (full_attn_allocator s)
              (Token.free (live_swa s idx) (swa_attn_allocator s)) mp s) ∧
    len mp = len (full_to_swa_index_mapping s) ∧
    (∀ i, i ∈ idx → mp !!! Z.to_nat i = 0) ∧
    (∀ i, 0 ≤ i → i ∉ idx → mp !!! Z.to_nat i = mapping_at s i).
Proof.
  intros Hri Hnd. unfold free_swa. rewrite gather_ok by done. cbn [mbind pyres_bind].
  destruct (scatter_ok _ idx ((fun _ => 0) <$> idx) Hri Hnd) as (mp & -> & Hl & Hin & Hout).
  { by rewrite length_fmap. }
  exists mp. split; [done|]. split; [unfold len; by rewrite Hl|]. split; [|done].
  intros i Hi. by apply (list_fmap_inj_1 _ _ _ _ Hin).
Qed.

(** Mapping facts after zeroing [idx], shared by the two ways of freeing. *)
Lemma zeroed_mapping s used idx rest (mp : list Z) :
  owned s used → pending s ++ used ≡ₚ idx ++ rest →
  (∀ i, i ∈ idx → mp !!! Z.to_nat i = 0) →
  (∀ i, 0 ≤ i → i ∉ idx → mp !!! Z.to_nat i = mapping_at s i) →
  (∀ i, i ∈ rest → mp !!! Z.to_nat i = mapping_at s i) ∧
  (∀ i, 0 ≤ i < len (full_to_swa_index_mapping s) → i ∉ rest → mp !!! Z.to_nat i = 0) ∧
  (∀ i, 0 ≤ i < len (full_to_swa_index_mapping s) → 0 ≤ mp !!! Z.to_nat i).
Proof.
  intros Ho Hp Hin Hout. pose proof (used_NoDup _ _ Ho) as Hnd. rewrite Hp in Hnd.
  apply NoDup_app in Hnd as (_ & Hdis & _). pose proof (used_in_range _ _ Ho) as Hr.
  split; [|split].
  - intros i Hi. apply Hout; [|by intros ?%Hdis].
    apply (Hr i). rewrite Hp. set_solver.
  - intros i Hi Hni. destruct (decide (i ∈ idx)); [by apply Hin|].
    rewrite Hout by (done || lia). apply (owned_unused _ _ Ho); [done|].
    rewrite Hp. set_solver.
  - intros i Hi. destruct (decide (i ∈ idx)) as [E|E]; [by rewrite Hin|].
    rewrite Hout by (done || lia). by apply (owned_nonneg _ _ Ho).
Qed.

Lemma swa_free_closed s used idx rest :
  owned s used → is_not_in_free_group s = true → used ≡ₚ idx ++ rest →
  ∃ s', free_swa idx (with_allocs (Token.free idx (full_attn_allocator s))
           (swa_attn_allocator s) (full_to_swa_index_mapping s) s) = Ok s' ∧
        owned s' rest ∧ is_not_in_free_group s' = true.
Proof.
  intros Ho Hg Hp.
  assert (pending s = []) as Hpe by (unfold pending; by rewrite Hg).
  assert (pending s ++ used ≡ₚ idx ++ rest) as Hpu by (by rewrite Hpe).
  pose proof (used_in_range _ _ Ho) as Hr. pose proof (used_NoDup _ _ Ho) as Hnd.
  rewrite Hpu in Hnd. apply NoDup_app in Hnd as (Hnd & _ & _).
  set (s1 := with_allocs _ _ _ _).
  destruct (free_swa_ok s1 idx) as (mp & E & Hlen & Hin & Hout); [|done|].
  { intros i Hi. apply Hr. rewrite Hpu. set_solver. }
  destruct (zeroed_mapping s used idx rest mp Ho Hpu Hin Hout) as (Hrest & Hun & Hnn).
  eexists. split; [exact E|]. split; [|done].
  destruct Ho as [H1 H2 H3 H4 H5 H6 H7 H8].
  rewrite Hpu in H1, H2. rewrite live_swa_app in H2.
  split; simpl; unfold pending; simpl; rewrite ?Hg, ?app_nil_l, ?Token.free_size; try done.
  - by apply Token.free_owned.
  - rewrite (live_swa_ext s _ rest) by done. exact (Token.free_owned _ _ _ H2).
  - by apply Token.free_closed.
  - by apply Token.free_closed.
  - unfold s1 in Hlen. simpl in Hlen. lia.
  - rewrite Hlen. exact Hun.
  - rewrite Hlen. exact Hnn.
Qed.

(** On slots the client holds, [free] never raises: the size assertions hold,
    and the slots and their SWA slots go back to the pools (or to the open
    free group). *)
Lemma swa_free_ok s idx rest :
  owned s (idx ++ rest) → ∃ s', free idx s = Ok s' ∧ owned s' rest.
Proof.
  intros Ho. unfold free.
  destruct (Z.eqb_spec (len idx) 0) as [->%len_zero|Hne]; [by exists s|].
  assert (∀ s', owned s' rest →
    ((py_assert (Token.available_size (full_attn_allocator s') <=? Base.size (full_attn_allocator s')) ;;
      py_assert (Token.available_size (swa_attn_allocator s') <=? Base.size (swa_attn_allocator s')) ;;
      mret s') = Ok s')) as Hassert.
  { intros s' Ho'. pose proof (Token.owned_available _ _ (owned_full _ _ Ho') (owned_full_closed _ _ Ho')).
    pose proof (Token.owned_available _ _ (owned_swa _ _ Ho') (owned_swa_closed _ _ Ho')).
    destruct (owned_sizes _ _ Ho') as (? & ? & ? & ?). len_pos.
    rewrite !(proj2 (Z.leb_le _ _)) by lia. done. }
  destruct (is_not_in_free_group s) eqn:Hg.
  - destruct (swa_free_closed s (idx ++ rest) idx rest Ho Hg) as (s' & E & Ho' & _); [done|].
    rewrite E. cbn [mbind pyres_bind]. exists s'. by rewrite Hassert.
  - cbn [mbind pyres_bind mret pyres_ret]. eexists.
    assert (owned (with_group false (free_group s ++ [idx]) s) rest) as Ho'; [|by rewrite Hassert].
    destruct Ho as [H1 H2 H3 H4 H5 H6 H7 H8].
    assert (pending (with_group false (free_group s ++ [idx]) s) ++ rest = pending s ++ idx ++ rest) as Hpe.
    { unfold pending. simpl. rewrite Hg, concat_app. simpl. by rewrite app_nil_r, <-app_assoc. }
    split; rewrite ?Hpe; done.
Qed.

(** Releasing only the SWA half of slots the client keeps detaches exactly
    those slots. *)
Lemma swa_evict_ok s idx rest :
  owned s (idx ++ rest) →
  ∃ s', free_swa idx s = Ok s' ∧ owned s' (idx ++ rest) ∧
    (∀ i, i ∈ idx → mapping_at s' i = 0) ∧
    (∀ i, i ∈ rest → mapping_at s' i = mapping_at s i) ∧
    swa_available_size s' = swa_available_size s + len (live_swa s idx).
Proof.
  intros Ho.
  assert (pending s ++ idx ++ rest ≡ₚ idx ++ pending s ++ rest) as Hpu by solve_Permutation.
  pose proof (used_in_range _ _ Ho) as Hr. pose proof (used_NoDup _ _ Ho) as Hnd.
  rewrite Hpu in Hnd. apply NoDup_app in Hnd as (Hnd & _ & _).
  destruct (free_swa_ok s idx) as (mp & E & Hlen & Hin & Hout); [|done|].
  { intros i Hi. apply Hr. set_solver. }
  destruct (zeroed_mapping s _ idx _ mp Ho Hpu Hin Hout) as (Hrest & Hun & Hnn).
  eexists. split; [exact E|]. split; [|split; [done|split; [|]]].
  - destruct Ho as [H1 H2 H3 H4 H5 H6 H7 H8]. rewrite Hpu in H2.
    rewrite live_swa_app in H2. set (s' := with_allocs _ _ _ _).
    change (pending s) with (pending s') in Hpu, Hrest, Hun, H2.
    split; rewrite ?Hpu; simpl; rewrite ?Token.free_size; try done.
    + by rewrite <-Hpu.
    + rewrite live_swa_app, (live_swa_ext s s' (pending s' ++ rest)) by done.
      assert (live_swa s' idx = []) as ->.
      { unfold live_swa. apply filter_none. intros x (i & -> & Hi)%list_elem_of_fmap.
        unfold mapping_at, s'. simpl. rewrite Hin by done. lia. }
      by apply Token.free_owned.
    + by apply Token.free_closed.
    + lia.
    + rewrite Hlen. intros i Hi Hni. apply Hun; [done|]. set_solver.
    + rewrite Hlen. exact Hnn.
  - intros i Hi. apply Hrest. set_solver.
  - unfold swa_available_size. simpl. apply Token.free_available. apply (owned_swa_closed _ _ Ho).
Qed.

(** [alloc n] succeeds exactly when both pools have [n] slots; it returns [n]
    full slots, each attached to its own fresh SWA slot. *)
Lemma swa_alloc_ok s used n :
  owned s used → 0 ≤ n →
  ∃ r s', alloc n s = Ok (r, s') ∧
  match r with
  | None => (full_available_size s < n ∨ swa_available_size s < n) ∧ s' = s
  | Some idx =>
      n ≤ full_available_size s ∧ n ≤ swa_available_size s ∧ len idx = n ∧
      owned s' (idx ++ used) ∧
      (∀ i, i ∈ idx → 1 ≤ mapping_at s' i ≤ size_swa s) ∧
      NoDup (mapping_at s' <$> idx)
  end.
Proof.
  intros Ho Hn. unfold alloc.
  destruct (Z.ltb_spec (full_available_size s) n); [eexists _, _; split; [done|]; simpl; tauto|].
  destruct (Z.ltb_spec (swa_available_size s) n); [eexists _, _; split; [done|]; simpl; tauto|].
  pose proof (used_in_range _ _ Ho) as Hr0. pose proof (used_NoDup _ _ Ho) as Hnd0.
  pose proof (owned_length _ _ Ho) as Hlen0. destruct (owned_sizes _ _ Ho) as (Es1 & Es2 & Es3 & Es4).
  unfold full_available_size, swa_available_size in *.
  pose proof (Token.alloc_none _ _ n (owned_full _ _ Ho)) as Hf.
  pose proof (Token.alloc_none _ _ n (owned_swa _ _ Ho)) as Hw.
  destruct (Token.alloc n (full_attn_allocator s)) as [[idx|] f] eqn:Ef; simpl in Hf;
    [|exfalso; assert (Token.available_size (full_attn_allocator s) < n) by (by apply Hf); lia].
  destruct (Token.alloc n (swa_attn_allocator s)) as [[sidx|] w] eqn:Ew; simpl in Hw;
    [|exfalso; assert (Token.available_size (swa_attn_allocator s) < n) by (by apply Hw); lia].
  destruct (Token.alloc_some _ _ _ _ _ (owned_full _ _ Ho) Hn Ef) as (Hl1 & Hof & _).
  destruct (Token.alloc_some _ _ _ _ _ (owned_swa _ _ Ho) Hn Ew) as (Hl2 & Hos & _).
  destruct (Token.alloc_frame _ _ _ _ Ef) as [Ff1 Ff2].
  destruct (Token.alloc_frame _ _ _ _ Ew) as [Fw1 Fw2].
  pose proof (Token.owned_NoDup _ _ Hof) as (_ & _ & (_ & _ & Hndf)%NoDup_app)%NoDup_app.
  apply NoDup_app in Hndf as (Hndi & Hdis & _).
  assert (in_range (full_to_swa_index_mapping s) idx) as Hri.
  { intros i Hi. pose proof (Token.owned_bounds _ _ i Hof ltac:(set_solver)). lia. }
  destruct (scatter_ok _ idx sidx Hri Hndi) as (mp & -> & Hml & Hin & Hout).
  { unfold len in *. lia. }
  cbn [mbind pyres_bind]. eexists _, _. split; [done|]. cbn beta iota.
  set (s' := with_allocs f w mp s).
  assert (∀ i, i ∈ sidx → 1 ≤ i ≤ size_swa s) as Hsb.
  { intros i Hi. pose proof (Token.owned_bounds _ _ i Hos ltac:(set_solver)). lia. }
  assert (∀ i, i ∈ pending s ++ used → mapping_at s' i = mapping_at s i) as Hold.
  { intros i Hi. apply Hout; [by apply Hr0|]. intros ?. by apply (Hdis i). }
  assert (mapping_at s' <$> idx = sidx) as Hnew by exact Hin.
  pose proof (Token.owned_NoDup _ _ Hos) as (_ & _ & (_ & _ & Hnds)%NoDup_app)%NoDup_app.
  split_and!; [lia|lia|done| |rewrite <-Hnew in Hsb|rewrite Hnew; by apply NoDup_app in Hnds as (? & _)].
  2:{ intros i Hi. apply Hsb. apply list_elem_of_fmap. eauto. }
  assert (live_swa s' (idx ++ pending s ++ used) = sidx ++ live_swa s (pending s ++ used)) as Hlive.
  { rewrite live_swa_app, (live_swa_ext s s' (pending s ++ used)) by done. f_equal.
    unfold live_swa. rewrite Hnew. apply filter_all. intros i Hi%Hsb. lia. }
  assert (pending s' ++ idx ++ used ≡ₚ idx ++ pending s ++ used) as Hpp.
  { change (pending s') with (pending s). solve_Permutation. }
  destruct Ho as [H1 H2 H3 H4 H5 H6 H7 H8].
  assert (len mp = len (full_to_swa_index_mapping s)) as Hml' by (unfold len; by rewrite Hml).
  split; simpl.
  - by rewrite Hpp.
  - by rewrite Hpp, Hlive.
  - congruence.
  - congruence.
  - rewrite Ff1, Fw1. done.
  - lia.
  - intros i Hi Hni. rewrite Hpp in Hni. rewrite Hml' in Hi.
    unfold mapping_at. simpl. rewrite Hout; [apply H7; [done|]|lia|]; set_solver.
  - intros i Hi. rewrite Hml' in Hi. destruct (decide (i ∈ idx)) as [Ei|Ei].
    + assert (mapping_at s' i ∈ sidx) as Hb%Hsb; [|unfold mapping_at in *; simpl in *; lia].
      rewrite <-Hnew. apply list_elem_of_fmap. eauto.
    + unfold mapping_at. simpl. rewrite Hout by (done || lia). by apply H8.
Qed.

Lemma swa_group_end_ok s used :
  owned s used → is_not_in_free_group s = false →
  ∃ s', free_group_end s = Ok s' ∧ owned s' used.
Proof.
  intros [H1 H2 H3 H4 H5 H6 H7 H8] Hg. unfold free_group_end.
  set (s1 := with_group true (free_group s) s).
  assert (owned s1 (concat (free_group s1) ++ used)) as Ho.
  { assert (pending s1 ++ concat (free_group s1) ++ used = pending s ++ used) as E.
    { unfold pending. simpl. by rewrite Hg. }
    split; rewrite ?E; done. }
  destruct (free_group s1) as [|i g]; [by exists s1|]. by apply swa_free_ok.
Qed.

(** [clear] takes all slots back, also while a group is open. *)
Lemma swa_clear_ok s used : owned s used → owned (clear s) [].
Proof.
  intros [H1 H2 H3 H4 H5 H6 H7 H8].
  assert (pending (clear s) = []) as Hp by (unfold pending; simpl; by destruct (is_not_in_free_group s)).
  assert (∀ i, 0 ≤ i < len (full_to_swa_index_mapping s) → mapping_at (clear s) i = 0) as H0.
  { intros i Hi. unfold mapping_at, clear. simpl. rewrite list_lookup_total_alt, list_lookup_fmap.
    destruct (full_to_swa_index_mapping s !! Z.to_nat i) eqn:E; [done|]. apply lookup_ge_None in E. unfold len in Hi. lia. }
  split; rewrite ?Hp; simpl; rewrite ?len_fmap; try done.
  - by eapply Token.owned_clear.
  - by eapply Token.owned_clear.
  - intros i Hi _. by apply H0.
  - intros i Hi. by rewrite H0.
Qed.

(** ** Histories

    Each call the code makes on behalf of a client that holds [used]; the
    outcome is a state or an exception. *)
Inductive step : t * list Z → pyres (t * list Z) → Prop :=
  | step_alloc n s used :
      0 ≤ n →
      step (s, used) ('(r, s') ← alloc n s; mret (s', default [] r ++ used))
  | step_free idx rest s used :
      used ≡ₚ idx ++ rest →
      step (s, used) (s' ← free idx s; mret (s', rest))
  | step_free_swa idx rest s used :
      used ≡ₚ idx ++ rest →
      step (s, used) (s' ← free_swa idx s; mret (s', used))
  | step_clear s used :
      step (s, used) (mret (clear s, []))
  | step_group_begin s used :
      is_not_in_free_group s = true →
      step (s, used) (mret (free_group_begin s, used))
  | step_group_end s used :
      is_not_in_free_group s = false →
      step (s, used) (s' ← free_group_end s; mret (s', used)).

Inductive reach (garbage : Z → Z) (n m : Z) (ns : bool) : t * list Z → Prop :=
  | reach_init : reach garbage n m ns (init garbage n m ns, [])
  | reach_step x y : reach garbage n m ns x → step x (Ok y) → reach garbage n m ns y.

(** Every call of a client that respects ownership succeeds and preserves it. *)
Lemma swa_step_ok s used r :
  owned s used → step (s, used) r → ∃ s' used', r = Ok (s', used') ∧ owned s' used'.
Proof.
  intros Ho Hs. inversion Hs as [n ?? Hn|idx rest ?? Hp|idx rest ?? Hp| |?? Hg|?? Hg]; subst.
  - destruct (swa_alloc_ok s used n Ho Hn) as ([idx|] & s' & -> & H); cbn; eexists _, _; split; try done.
    + apply H.
    + destruct H as [_ ->]. done.
  - rewrite Hp in Ho. destruct (swa_free_ok s idx rest Ho) as (s' & -> & ?). cbn. eauto.
  - rewrite Hp in Ho. destruct (swa_evict_ok s idx rest Ho) as (s' & -> & Ho' & _).
    cbn. eexists _, _. split; [done|]. by rewrite Hp.
  - cbn. eexists _, _. split; [done|]. by eapply swa_clear_ok.
  - cbn. eexists _, _. split; [done|]. destruct Ho as [H1 H2 H3 H4 H5 H6 H7 H8].
    assert (pending (free_group_begin s) = pending s) as E by (unfold pending; simpl; by rewrite Hg).
    split; rewrite ?E; done.
  - destruct (swa_group_end_ok s used Ho Hg) as (s' & -> & ?). cbn. eauto.
Qed.

Lemma reach_owned garbage n m ns x :
  0 ≤ n → 0 ≤ m → reach garbage n m ns x → owned x.1 x.2.
Proof.
  intros Hn Hm. induction 1 as [|[s used] [s' used'] _ IH Hs]; [by apply swa_owned_init|].
  destruct (swa_step_ok s used _ IH Hs) as (? & ? & [= <- <-] & ?). done.
Qed.

(** C30: histories of the hybrid allocator.  A client calls [alloc] with sizes
    that are not negative, [free] and [free_swa] on slots it holds, inside or
    outside a free group, [clear], after which it holds nothing, and begins a
    free group only when none is open and ends one only when one is.  In
    every such history no call raises (neither the size assertions nor an
    out-of-range mapping access), the slots held or waiting in the group are
    distinct, and both pools add up: every full slot is free, held or waiting
    in the group, and every SWA slot is free or attached to exactly one full
    slot that is held or waiting. *)
Theorem swa_history_safe garbage n m ns s used :
  0 ≤ n → 0 ≤ m → reach garbage n m ns (s, used) →
  (∀ r, step (s, used) r → ∃ y, r = Ok y) ∧
  NoDup (pending s ++ used) ∧ NoDup (live_swa s (pending s ++ used)) ∧
  full_available_size s + len (pending s ++ used) = size_full s ∧
  swa_available_size s + len (live_swa s (pending s ++ used)) = size_swa s.
Proof.
  intros Hn Hm Hr. pose proof (reach_owned _ _ _ _ _ Hn Hm Hr) as Ho. simpl in Ho.
  destruct (owned_sizes _ _ Ho) as (E1 & E2 & E3 & E4). split_and!.
  - intros r Hs. destruct (swa_step_ok s used r Ho Hs) as (? & ? & -> & _). eauto.
  - by apply used_NoDup.
  - pose proof (Token.owned_NoDup _ _ (owned_swa _ _ Ho)) as (_ & _ & (_ & _ & ?)%NoDup_app)%NoDup_app.
    done.
  - pose proof (Token.owned_available _ _ (owned_full _ _ Ho) (owned_full_closed _ _ Ho)).
    unfold full_available_size. lia.
  - pose proof (Token.owned_available _ _ (owned_swa _ _ Ho) (owned_swa_closed _ _ Ho)).
    unfold swa_available_size. lia.
Qed.

(** A pool of 4 full and 2 SWA slots after handing out two slots. *)
Definition demo : t :=
  match alloc 2 (init (fun _ => 5) 4 2 true) with
  | Ok (_, s) => s | Raise _ => init (fun _ => 5) 4 2 true
  end.

Lemma swa_history_safe_witness :
  (∀ r, step (demo, [1; 2]) r → ∃ y, r = Ok y) ∧
  NoDup (pending demo ++ [1; 2]) ∧ NoDup (live_swa demo (pending demo ++ [1; 2])) ∧
  full_available_size demo + len (pending demo ++ [1; 2]) = size_full demo ∧
  swa_available_size demo + len (live_swa demo (pending demo ++ [1; 2])) = size_swa demo.
Proof.
  apply (swa_history_safe (fun _ => 5) 4 2 true); [lia|lia|].
  apply (reach_step _ _ _ _ (init (fun _ => 5) 4 2 true, [])); [apply reach_init|].
  apply (step_alloc 2). lia.
Defined.

(** sliding-window eviction ([free_swa]) returns to the SWA pool exactly
    the slots attached to [idx], detaches them, leaves every other attachment
    alone, and the client keeps its full slots. *)
Theorem swa_free_swa_correct s idx rest :
  owned s (idx ++ rest) →
  ∃ s', free_swa idx s = Ok s' ∧ owned s' (idx ++ rest) ∧
    translate_loc_from_full_to_swa idx s' = Ok ((fun _ => 0) <$> idx) ∧
    translate_loc_from_full_to_swa rest s' = translate_loc_from_full_to_swa rest s ∧
    swa_available_size s' = swa_available_size s + len (live_swa s idx).
Proof.
  intros Ho. destruct (swa_evict_ok s idx rest Ho) as (s' & E & Ho' & Hz & Hr & Ha).
  exists s'. split; [done|]. split; [done|].
  pose proof (used_in_range _ _ Ho) as H1. pose proof (used_in_range _ _ Ho') as H2.
  unfold translate_loc_from_full_to_swa.
  rewrite !gather_ok by (intros i Hi; (apply H1 || apply H2); set_solver).
  split; [f_equal; by apply fmap_ext_elem|]. split; [f_equal; by apply fmap_ext_elem|done].
Qed.

Lemma swa_free_swa_correct_witness :
  ∃ s', free_swa [1] demo = Ok s' ∧ owned s' ([1] ++ [2]) ∧
    translate_loc_from_full_to_swa [1] s' = Ok [0] ∧
    translate_loc_from_full_to_swa [2] s' = Ok [2] ∧
    swa_available_size s' = 0 + 1.
Proof.
  apply (swa_free_swa_correct demo [1] [2]).
  assert (reach (fun _ => 5) 4 2 true (demo, [1; 2])) as Hr.
  { apply (reach_step _ _ _ _ (init (fun _ => 5) 4 2 true, [])); [apply reach_init|].
    apply (step_alloc 2). lia. }
  exact (reach_owned (fun _ => 5) 4 2 true _ ltac:(lia) ltac:(lia) Hr).
Defined.

(** [clear] does not close an open free group: it resets
    [is_in_free_group], a field nothing reads, and leaves the flag [free]
    tests, so slots freed after a [clear] inside a group stay pending. *)
Theorem swa_clear_keeps_group_open s idx :
  is_not_in_free_group s = false → idx ≠ [] →
  full_available_size (clear s) ≤ Base.size (full_attn_allocator (clear s)) →
  swa_available_size (clear s) ≤ Base.size (swa_attn_allocator (clear s)) →
  ∃ s', free idx (clear s) = Ok s' ∧ pending s' = idx ∧
        full_available_size s' = full_available_size (clear s).
Proof.
  intros Hg Hne Hf Hw. unfold full_available_size, swa_available_size in *.
  unfold free. destruct (Z.eqb_spec (len idx) 0) as [E%len_zero|_]; [done|].
  simpl is_not_in_free_group. rewrite Hg. cbn [mbind pyres_bind mret pyres_ret].
  eexists. split.
  - cbn [full_attn_allocator swa_attn_allocator with_group].
    rewrite !(proj2 (Z.leb_le _ _)) by done. done.
  - unfold pending. simpl. by rewrite app_nil_r.
Qed.

Lemma swa_clear_keeps_group_open_witness :
  ∃ s', free [1] (clear (free_group_begin (init (fun _ => 5) 4 2 true))) = Ok s' ∧
        pending s' = [1] ∧
        full_available_size s' =
        full_available_size (clear (free_group_begin (init (fun _ => 5) 4 2 true))).
Proof.
  apply swa_clear_keeps_group_open; [reflexivity|discriminate|vm_compute; discriminate..].
Defined.

End SWA.
