(* ===== verification/ReqPool.v ===== *)
(** * Request-to-token pool ([python/sglang/srt/mem_cache/memory_pool.py])

    [ReqToTokenPool] maps a request slot to the KV slots of its tokens: a
    [size x max_context_len] int32 tensor plus a list of free request slots. *)

From S2P Require Import Prelude.

(** Storing into the int32 tensor wraps. *)
Definition int32 (x : Z) : Z := (x + 2 ^ 31) mod 2 ^ 32 - 2 ^ 31.

Lemma int32_small x : - 2 ^ 31 ≤ x < 2 ^ 31 → int32 x = x.
Proof. intros. unfold int32. rewrite Z.mod_small; lia. Qed.

Module ReqPool.

Record t := mk {
  size : Z;
  max_context_len : Z;
  req_to_token : list (list Z);
  free_slots : list Z;
}.

Definition init (size max_context_len : Z) : t :=
  mk size max_context_len
     (replicate (Z.to_nat size) (replicate (Z.to_nat max_context_len) 0))
     (arange 0 size).

Definition with_slots (fs : list Z) (p : t) : t :=
  mk (size p) (max_context_len p) (req_to_token p) fs.

Definition row (i : Z) (p : t) : list Z := req_to_token p !!! Z.to_nat i.

(** [self.req_to_token[req_pool_idx, : n]] *)
Definition read (i n : Z) (p : t) : list Z := (row i p).[: n].

(** [write((i, slice(lo, hi)), values)]: the slice and the values must have
    the same number of elements (one value is broadcast), or torch raises. *)
Definition write (i lo hi : Z) (values : list Z) (p : t) : pyres t :=
  let r := row i p in
  let a := py_norm (len r) lo in
  let b := Nat.max a (py_norm (len r) hi) in
  let set vs := mk (size p) (max_context_len p)
    (<[Z.to_nat i := take a r ++ vs ++ drop b r]> (req_to_token p)) (free_slots p) in
  if decide (length values = (b - a)%nat) then mret (set (int32 <$> values))
  else match values with
       | [v] => mret (set (replicate (b - a) (int32 v)))
       | _ => Raise RuntimeError
       end.

Definition available_size (p : t) : Z := len (free_slots p).

Definition alloc (need_size : Z) (p : t) : option (list Z) * t :=
  if available_size p <? need_size then (None, p)
  else (Some (free_slots p).[: need_size], with_slots (free_slots p).[need_size :] p).

(** [free] takes one index or a list of them; one index is a singleton. *)
Definition free (free_index : list Z) (p : t) : t :=
  with_slots (free_slots p ++ free_index) p.

Definition clear (p : t) : t := with_slots (arange 0 (size p)) p.

(** Every request slot is free or held exactly once. *)
Definition owned (p : t) (used : list Z) : Prop :=
  free_slots p ++ used ≡ₚ arange 0 (size p).

Lemma reqpool_alloc_owned p used n :
  owned p used → 0 ≤ n →
  match alloc n p with
  | (None, p') => available_size p < n ∧ p' = p
  | (Some idx, p') => len idx = n ∧ owned p' (idx ++ used) ∧ req_to_token p' = req_to_token p
  end.
Proof.
  intros Ho Hn. unfold alloc. destruct (Z.ltb_spec (available_size p) n) as [Hl|Hl]; [done|].
  unfold available_size in Hl. rewrite len_py_take by done. split; [lia|]. split; [|done].
  unfold owned in *. simpl. rewrite <-Ho. rewrite <-(py_take_drop n (free_slots p)) at 3.
  generalize (free_slots p).[: n], (free_slots p).[n :]. intros. solve_Permutation.
Qed.

Lemma reqpool_free_owned p idx rest : owned p (idx ++ rest) → owned (free idx p) rest.
Proof. unfold owned, free. simpl. intros <-. solve_Permutation. Qed.

(** Rows of the tensor keep their shape. *)
Definition wf (p : t) : Prop :=
  len (req_to_token p) = size p ∧
  (∀ i, 0 ≤ i < size p → len (row i p) = max_context_len p) ∧ 0 ≤ max_context_len p.

Lemma write_context i lo hi vs p p' : write i lo hi vs p = Ok p' → max_context_len p' = max_context_len p.
Proof. unfold write. case_decide; [by intros [= <-]|]. repeat case_match; try done. by intros [= <-]. Qed.

(** Writing KV slots that fit an int32 and reading them back. *)
Lemma write_read p i lo vs :
  wf p → 0 ≤ i < size p → 0 ≤ lo → lo + len vs ≤ max_context_len p →
  Forall (fun v => 0 ≤ v < 2 ^ 31) vs →
  ∃ p', write i lo (lo + len vs) vs p = Ok p' ∧ wf p' ∧ size p' = size p ∧
    free_slots p' = free_slots p ∧
    row i p' = take (Z.to_nat lo) (row i p) ++ vs ++ drop (Z.to_nat lo + length vs) (row i p) ∧
    (∀ j, 0 ≤ j → j ≠ i → row j p' = row j p).
Proof.
  intros (Hlen & Hrows & Hm) Hi Hlo Hhi Hvs. pose proof (Hrows i Hi) as Hr.
  assert (int32 <$> vs = vs) as Hcast.
  { rewrite <-(list_fmap_id vs) at 2. apply fmap_ext_elem. intros v Hv.
    pose proof (proj1 (Forall_forall _ _) Hvs v Hv) as Hb. cbv beta in Hb.
    apply int32_small. unfold id. lia. }
  unfold write. len_pos. rewrite !py_norm_nonneg by lia.
  replace (Nat.max (Z.to_nat lo) (Z.to_nat (lo + len vs)))
    with (Z.to_nat lo + length vs)%nat by (unfold len; lia).
  rewrite decide_True by lia. eexists. split; [done|]. rewrite Hcast.
  set (r' := take (Z.to_nat lo) (row i p) ++ vs ++ drop (Z.to_nat lo + length vs) (row i p)).
  assert (row i (mk (size p) (max_context_len p)
    (<[Z.to_nat i := r']> (req_to_token p)) (free_slots p)) = r') as Hrow.
  { unfold row. simpl. apply list_lookup_total_insert_eq. unfold len in *. lia. }
  assert (∀ j, 0 ≤ j → j ≠ i → row j (mk (size p) (max_context_len p)
    (<[Z.to_nat i := r']> (req_to_token p)) (free_slots p)) = row j p) as Hne.
  { intros j Hj Hji. unfold row. simpl. apply list_lookup_total_insert_ne. lia. }
  split; [|done]. split; [|split; [|done]].
  - unfold len. simpl. rewrite length_insert. done.
  - simpl. intros j Hj. destruct (decide (j = i)) as [->|]; [|rewrite Hne by lia; by apply Hrows].
    rewrite Hrow. unfold r'. unfold len in *.
    rewrite !length_app, length_take, length_drop. lia.
Qed.

End ReqPool.
