(* ===== verification/SamplingParams.v ===== *)
(** * Sampling parameters ([python/sglang/srt/sampling/sampling_params.py])

    A Python float is a rational number, an infinity or NaN, with the
    comparisons of IEEE 754.
    [tokenizer] is an object of the transformers library: a parameter with
    the methods the runtime calls.  [py_int] stands for [int(s)] on a key of
    [logit_bias], which raises on a non-numeral. *)

From Stdlib Require Import QArith.
From S2P Require Import Prelude.
Open Scope Z_scope.

(** ** Floats *)

Inductive pyfloat :=
  | Fin (q : Q)
  | Inf (negative : bool)
  | NaN.

Coercion Fin : Q >-> pyfloat.

(** [x <= y] and [x < y]: false as soon as one of them is NaN. *)
Definition fle (x y : pyfloat) : bool :=
  match x, y with
  | NaN, _ | _, NaN => false
  | Fin p, Fin q => Qle_bool p q
  | Inf neg, Fin _ => neg
  | Fin _, Inf neg => negb neg
  | Inf n1, Inf n2 => n1 || negb n2
  end.

Definition flt (x y : pyfloat) : bool :=
  match x, y with
  | NaN, _ | _, NaN => false
  | x, y => negb (fle y x)
  end.

Record Tokenizer := mkTokenizer {
  encode : string → list Z;
  decode : list Z → string;
  eos_token_id : option Z;
  additional_stop_token_ids : list Z;
}.

(** [stop]: absent, one string, or a list. *)
Inductive stop_arg :=
  | StopNone
  | StopStr (s : string)
  | StopList (l : list string).

Module SamplingParams.

(** The double nearest to 1e-6. *)
Definition _SAMPLING_EPS : Q := 4722366482869645 # 2 ^ 72.
Definition TOP_K_ALL : Z := Z.shiftl 1 30.

(** [stop_token_ids] is a set; its iteration order is the order of the list
    ([None] and the empty set are both falsy: []). *)
Record t := mk {
  max_new_tokens : option Z;
  stop : stop_arg;
  stop_strs : list string;
  stop_str_max_len : Z;
  stop_token_ids : list Z;
  temperature : pyfloat;
  top_p : pyfloat;
  top_k : Z;
  min_p : pyfloat;
  frequency_penalty : pyfloat;
  presence_penalty : pyfloat;
  repetition_penalty : pyfloat;
  min_new_tokens : Z;
  n : Z;
  json_schema : option string;
  regex : option string;
  ebnf : option string;
  ignore_eos : bool;
  logit_bias : option (list string);
}.

Definition set_max_new_tokens (x : option Z) (p : t) : t :=
  mk x (stop p) (stop_strs p) (stop_str_max_len p) (stop_token_ids p) (temperature p) (top_p p) (top_k p) (min_p p)
    (frequency_penalty p) (presence_penalty p) (repetition_penalty p) (min_new_tokens p) (n p) (json_schema p) (regex p)
    (ebnf p) (ignore_eos p) (logit_bias p).

(** [__init__], from the raw arguments. *)
Definition init (sp : t) : t :=
  let greedy := fle 0%Q (temperature sp) && flt (temperature sp) _SAMPLING_EPS in
  let temp : pyfloat := if greedy then Fin 1 else temperature sp in
  let k := if greedy then 1 else top_k sp in
  let k := if k =? -1 then TOP_K_ALL else k in
  mk (max_new_tokens sp) (stop sp) [] 0 (remove_dups (stop_token_ids sp)) temp (top_p sp) k (min_p sp)
     (frequency_penalty sp) (presence_penalty sp) (repetition_penalty sp) (min_new_tokens sp)
     (n sp) (json_schema sp) (regex sp) (ebnf sp) (ignore_eos sp) (logit_bias sp).

Definition raise_if (b : bool) : pyres unit := if b then Raise ValueError else mret tt.

Fixpoint check_bias (py_int : string → pyres Z) (vocab_size : Z) (keys : list string) : pyres unit :=
  match keys with
  | [] => mret tt
  | token_id :: keys =>
      i ← py_int token_id;
      raise_if (negb ((0 <=? i) && (i <? vocab_size))) ;;
      check_bias py_int vocab_size keys
  end.

Definition verify (py_int : string → pyres Z) (vocab_size : Z) (sp : t) : pyres unit :=
  raise_if (flt (temperature sp) 0%Q) ;;
  raise_if (negb (flt 0%Q (top_p sp) && fle (top_p sp) 1%Q)) ;;
  raise_if (negb (fle 0%Q (min_p sp) && fle (min_p sp) 1%Q)) ;;
  raise_if ((top_k sp <? 1) || (top_k sp =? -1)) ;;
  raise_if (negb (fle (-2)%Q (frequency_penalty sp) && fle (frequency_penalty sp) 2%Q)) ;;
  raise_if (negb (fle (-2)%Q (presence_penalty sp) && fle (presence_penalty sp) 2%Q)) ;;
  raise_if (negb (fle 0%Q (repetition_penalty sp) && fle (repetition_penalty sp) 2%Q)) ;;
  raise_if (negb (0 <=? min_new_tokens sp)) ;;
  match max_new_tokens sp with
  | Some m => raise_if (m <? 0) ;; raise_if (negb (min_new_tokens sp <=? m))
  | None => mret tt
  end ;;
  match logit_bias sp with
  | Some keys => check_bias py_int vocab_size keys
  | None => mret tt
  end ;;
  raise_if (1 <? len (omap id [json_schema sp; regex sp; ebnf sp])).

(** The length of a stop string in tokens, or in characters. *)
Definition stop_str_len (tokenizer : option Tokenizer) (s : string) : Z :=
  match tokenizer with
  | Some tk => len (encode tk s)
  | None => Z.of_nat (String.length s)
  end.

Definition normalize (tokenizer : option Tokenizer) (sp : t) : t :=
  let strs := match stop sp with StopNone => [] | StopStr s => [s] | StopList l => l end in
  mk (max_new_tokens sp) (stop sp) strs
     (foldl (fun m s => Z.max m (stop_str_len tokenizer s)) 0 strs)
     (stop_token_ids sp) (temperature sp) (top_p sp) (top_k sp) (min_p sp)
     (frequency_penalty sp) (presence_penalty sp) (repetition_penalty sp) (min_new_tokens sp)
     (n sp) (json_schema sp) (regex sp) (ebnf sp) (ignore_eos sp) (logit_bias sp).

(** ** Specification *)

(** A number between [lo] and [hi]. *)
Definition in_range (lo : Q) (x : pyfloat) (hi : Q) : Prop := ∃ q, x = Fin q ∧ (lo <= q /\ q <= hi)%Q.

Record valid (py_int : string → pyres Z) (vocab_size : Z) (sp : t) : Prop := mk_valid {
  v_temperature : temperature sp = NaN ∨ temperature sp = Inf false ∨ ∃ q, temperature sp = Fin q ∧ (0 <= q)%Q;
  v_top_p : ∃ q, top_p sp = Fin q ∧ (0 < q /\ q <= 1)%Q;
  v_min_p : in_range 0 (min_p sp) 1;
  v_top_k : 1 ≤ top_k sp;
  v_frequency : in_range (-2) (frequency_penalty sp) 2;
  v_presence : in_range (-2) (presence_penalty sp) 2;
  v_repetition : in_range 0 (repetition_penalty sp) 2;
  v_min_new : 0 ≤ min_new_tokens sp;
  v_max_new : ∀ m, max_new_tokens sp = Some m → min_new_tokens sp ≤ m;
  v_bias : ∀ keys k, logit_bias sp = Some keys → k ∈ keys →
    ∃ i, py_int k = Ok i ∧ 0 ≤ i < vocab_size;
  v_grammar : (length (omap id [json_schema sp; regex sp; ebnf sp]) ≤ 1)%nat;
}.

(** What [verify] may raise: [ValueError], or what [int] raises on a key. *)
Definition verify_error (py_int : string → pyres Z) (sp : t) (e : pyexn) : Prop :=
  e = ValueError ∨ ∃ keys k, logit_bias sp = Some keys ∧ k ∈ keys ∧ py_int k = Raise e.

(** A temperature that asks for greedy sampling. *)
Definition greedy (sp : t) : Prop := ∃ q, temperature sp = Fin q ∧ (0 <= q /\ q < _SAMPLING_EPS)%Q.

(** What the constructor makes of the raw arguments. *)
Record constructed (raw sp : t) : Prop := mk_constructed {
  k_greedy : greedy raw → temperature sp = 1%Q ∧ top_k sp = 1;
  k_sampled : ¬ greedy raw → temperature sp = temperature raw ∧
    (top_k raw = -1 → top_k sp = 2 ^ 30) ∧ (top_k raw ≠ -1 → top_k sp = top_k raw);
  k_stop_ids : NoDup (stop_token_ids sp) ∧ ∀ x, x ∈ stop_token_ids sp ↔ x ∈ stop_token_ids raw;
  k_rest : max_new_tokens sp = max_new_tokens raw ∧ stop sp = stop raw ∧ top_p sp = top_p raw ∧ min_p sp = min_p raw ∧
    frequency_penalty sp = frequency_penalty raw ∧ presence_penalty sp = presence_penalty raw ∧
    repetition_penalty sp = repetition_penalty raw ∧ min_new_tokens sp = min_new_tokens raw ∧ n sp = n raw ∧
    json_schema sp = json_schema raw ∧ regex sp = regex raw ∧ ebnf sp = ebnf raw ∧ ignore_eos sp = ignore_eos raw ∧
    logit_bias sp = logit_bias raw;
}.

(** What [normalize] fills in: the stop strings as a list, and the length of
    the longest, in tokens, or in characters if there is no tokenizer. *)
Record normalized (tk : option Tokenizer) (sp sp' : t) : Prop := mk_normalized {
  z_strs : stop_strs sp' = match stop sp with StopNone => [] | StopStr s => [s] | StopList l => l end;
  z_upper : ∀ s, s ∈ stop_strs sp' → stop_str_len tk s ≤ stop_str_max_len sp';
  z_least : stop_str_max_len sp' = 0 ∨ ∃ s, s ∈ stop_strs sp' ∧ stop_str_max_len sp' = stop_str_len tk s;
  z_rest : sp' = mk (max_new_tokens sp) (stop sp) (stop_strs sp') (stop_str_max_len sp') (stop_token_ids sp)
    (temperature sp) (top_p sp) (top_k sp) (min_p sp) (frequency_penalty sp) (presence_penalty sp)
    (repetition_penalty sp) (min_new_tokens sp) (n sp) (json_schema sp) (regex sp) (ebnf sp) (ignore_eos sp) (logit_bias sp);
}.

(** ** Proofs *)

Lemma raise_if_ok b : raise_if b = Ok tt ↔ b = false.
Proof. by destruct b. Qed.

Lemma raise_if_error b e : raise_if b = Raise e → e = ValueError.
Proof. destruct b; [by intros [= <-]|done]. Qed.

Lemma bind_tt_ok (m k : pyres unit) : (m ;; k) = Ok tt ↔ m = Ok tt ∧ k = Ok tt.
Proof. destruct m as [[]|]; simpl; naive_solver. Qed.

Lemma bind_tt_error (m k : pyres unit) e : (m ;; k) = Raise e → m = Raise e ∨ k = Raise e.
Proof. destruct m as [[]|]; simpl; auto. Qed.

Lemma Qle_bool_false p q : Qle_bool p q = false ↔ (q < p)%Q.
Proof.
  rewrite <-not_true_iff_false, Qle_bool_iff. split; [apply Qnot_le_lt|apply Qlt_not_le].
Qed.

Lemma range_ok lo x hi :
  negb (fle (Fin lo) x && fle x (Fin hi)) = false ↔ in_range lo x hi.
Proof.
  unfold in_range. rewrite negb_false_iff, andb_true_iff.
  destruct x as [q|[]|]; simpl; rewrite ?Qle_bool_iff; naive_solver.
Qed.

Lemma temperature_ok x :
  flt x (Fin 0) = false ↔ x = NaN ∨ x = Inf false ∨ ∃ q, x = Fin q ∧ (0 <= q)%Q.
Proof.
  destruct x as [q|[]|]; simpl; rewrite ?negb_false_iff, ?Qle_bool_iff; naive_solver.
Qed.

Lemma top_p_ok x :
  negb (flt (Fin 0) x && fle x (Fin 1)) = false ↔ ∃ q, x = Fin q ∧ (0 < q /\ q <= 1)%Q.
Proof.
  rewrite negb_false_iff, andb_true_iff.
  destruct x as [q|[]|]; simpl; rewrite ?negb_true_iff, ?Qle_bool_false, ?Qle_bool_iff; naive_solver.
Qed.

Lemma greedy_ok sp : fle 0%Q (temperature sp) && flt (temperature sp) _SAMPLING_EPS = true ↔ greedy sp.
Proof.
  unfold greedy. rewrite andb_true_iff.
  destruct (temperature sp) as [q|[]|]; unfold flt, fle; rewrite ?negb_true_iff, ?Qle_bool_false, ?Qle_bool_iff; naive_solver.
Qed.

Lemma check_bias_ok py_int v keys :
  check_bias py_int v keys = Ok tt ↔
  ∀ k, k ∈ keys → ∃ i, py_int k = Ok i ∧ 0 ≤ i < v.
Proof.
  induction keys as [|k keys IH]; simpl.
  { split; [|done]. intros _ k Hk. by apply elem_of_nil in Hk. }
  destruct (py_int k) as [i|e] eqn:Ei; simpl.
  - rewrite bind_tt_ok, raise_if_ok, IH, negb_false_iff, andb_true_iff, Z.leb_le, Z.ltb_lt.
    split.
    + intros [Hi Hk] k' [->|Hk']%elem_of_cons; [eauto|by apply Hk].
    + intros Hall. split; [|intros k' Hk'; apply Hall; by right].
      destruct (Hall k) as (j & Ej & Hj); [left|]. rewrite Ei in Ej. injection Ej as ->. done.
  - split; [done|]. intros Hall. destruct (Hall k) as (i & ? & _); [left|congruence].
Qed.

Lemma check_bias_error py_int v keys e :
  check_bias py_int v keys = Raise e → e = ValueError ∨ ∃ k, k ∈ keys ∧ py_int k = Raise e.
Proof.
  induction keys as [|k keys IH]; simpl; [done|].
  destruct (py_int k) as [i|e'] eqn:Ei; simpl.
  - intros [H%raise_if_error|H]%bind_tt_error; [by left|].
    destruct (IH H) as [?|(k' & ? & ?)]; [by left|right]. exists k'. split; [by right|done].
  - intros [= <-]. right. exists k. split; [left|done].
Qed.

Lemma verify_iff py_int v sp : verify py_int v sp = Ok tt ↔ valid py_int v sp.
Proof.
  unfold verify. rewrite !bind_tt_ok, !raise_if_ok, !range_ok, temperature_ok, top_p_ok.
  rewrite orb_false_iff, Z.ltb_ge, Z.eqb_neq, negb_false_iff, Z.leb_le, Z.ltb_ge.
  assert ((match max_new_tokens sp with
    | Some m => raise_if (m <? 0) ;; raise_if (negb (min_new_tokens sp <=? m))
    | None => mret tt end) = Ok tt ↔
    ∀ m, max_new_tokens sp = Some m → 0 ≤ m ∧ min_new_tokens sp ≤ m) as ->.
  { destruct (max_new_tokens sp) as [m|]; [|naive_solver].
    rewrite bind_tt_ok, !raise_if_ok, negb_false_iff, Z.ltb_ge, Z.leb_le. naive_solver. }
  assert ((match logit_bias sp with
    | Some keys => check_bias py_int v keys | None => mret tt end) = Ok tt ↔
    ∀ keys k, logit_bias sp = Some keys → k ∈ keys → ∃ i, py_int k = Ok i ∧ 0 ≤ i < v) as ->.
  { destruct (logit_bias sp) as [keys|]; [|naive_solver]. rewrite check_bias_ok. naive_solver. }
  split.
  - intros (H1 & H2 & H3 & H4 & H5 & H6 & H7 & H8 & H9 & H10 & H11).
    split; try done; try lia.
    + intros m Hm. by apply H9.
    + unfold len in H11. lia.
  - intros [H1 H2 H3 H4 H5 H6 H7 H8 H9 H10 H11]. split_and!; try done; try lia.
    + intros m Hm. specialize (H9 m Hm). lia.
    + unfold len. lia.
Qed.

Lemma verify_raises py_int v sp e : verify py_int v sp = Raise e → verify_error py_int sp e.
Proof.
  unfold verify, verify_error. intros H.
  repeat (apply bind_tt_error in H as [H|H]; [try (left; by eapply raise_if_error)|]); [| |left; by eapply raise_if_error].
  - destruct (max_new_tokens sp); [|done]. apply bind_tt_error in H as [H%raise_if_error|H%raise_if_error]; by left.
  - destruct (logit_bias sp) as [keys|]; [|done]. apply check_bias_error in H as [?|(k & ? & ?)]; eauto 6.
Qed.

Lemma foldl_max_bounds {A} (f : A → Z) l m0 :
  m0 ≤ foldl (fun m s => Z.max m (f s)) m0 l ∧
  (∀ s, s ∈ l → f s ≤ foldl (fun m s => Z.max m (f s)) m0 l) ∧
  (foldl (fun m s => Z.max m (f s)) m0 l = m0 ∨ ∃ s, s ∈ l ∧ foldl (fun m s => Z.max m (f s)) m0 l = f s).
Proof.
  revert m0. induction l as [|x l IH]; intros m0; simpl.
  { split; [lia|]. split; [|by left]. intros s Hs. by apply elem_of_nil in Hs. }
  destruct (IH (Z.max m0 (f x))) as (I1 & I2 & I3). split; [lia|]. split.
  - intros s [->|Hs]%elem_of_cons; [lia|by apply I2].
  - destruct I3 as [I3|(s & Hs & I3)]; [|right; exists s; split; [by right|done]].
    destruct (Z.max_spec m0 (f x)) as [[_ E]|[_ E]]; rewrite E in I3 |- *; [|by left].
    right. exists x. split; [left|done].
Qed.

Lemma init_constructed sp : constructed sp (init sp).
Proof.
  pose proof (greedy_ok sp) as Hg. unfold init. destruct (fle _ _ && flt _ _) eqn:E; split; simpl; try done.
  - intros H. by destruct H; apply Hg.
  - split; [apply NoDup_remove_dups|]. intros x. apply elem_of_remove_dups.
  - intros H. apply Hg in H. done.
  - intros _. split; [done|]. destruct (Z.eqb_spec (top_k sp) (-1)); done.
  - split; [apply NoDup_remove_dups|]. intros x. apply elem_of_remove_dups.
Qed.

Lemma normalize_normalized tk sp : normalized tk sp (normalize tk sp).
Proof.
  pose proof (foldl_max_bounds (stop_str_len tk) (stop_strs (normalize tk sp)) 0) as (_ & H2 & H3).
  by split; [|exact H2|exact H3|].
Qed.

(** C33: sampling parameters.  The constructor makes a temperature in
    [[0, 1e-6)] greedy (temperature 1, [top_k] 1), reads a [top_k] of -1 as
    2^30 otherwise, turns the stop ids into a set and keeps everything else.
    [normalize] keeps the given stop strings, all of them in their order, as
    a list, and computes the length of the longest in tokens, or in
    characters without a tokenizer; it changes nothing else.  [verify]
    accepts exactly the parameters inside the ranges it documents with the
    [logit_bias] keys in the vocabulary and at most one of the three
    grammars, where infinities and NaN are rejected except a temperature
    that is NaN or positive infinity; on everything else it raises
    [ValueError] or what [int] raises on a key. *)
Theorem sampling_params_correct py_int vocab_size tk sp :
  constructed sp (init sp) ∧ normalized tk sp (normalize tk sp) ∧
  (verify py_int vocab_size sp = Ok tt ↔ valid py_int vocab_size sp) ∧
  ∀ e, verify py_int vocab_size sp = Raise e → verify_error py_int sp e.
Proof.
  split_and!; [apply init_constructed|apply normalize_normalized|apply verify_iff|apply verify_raises].
Qed.

End SamplingParams.
