(* ===== verification/Request.v ===== *)
(** * Requests ([Req] of [python/sglang/srt/managers/schedule_batch.py])

    The fields the scheduler and the caches use; logprob buffers, metrics and
    disaggregation fields are left out.  [eos_token_ids] and [stop_token_ids]
    are sets ([None] is []), iterated in list order.  [grammar] is the answer
    of the grammar object's [is_terminated()]; [last_node] identifies a node
    of the prefix cache. *)

From Stdlib Require Import QArith.
From S2P Require Import Prelude SamplingParams.
Open Scope Z_scope.

Inductive finish_reason :=
  | FINISH_MATCHED_TOKEN (matched : Z)
  | FINISH_MATCHED_STR (matched : string)
  | FINISH_LENGTH (length : Z)
  | FINISH_ABORT (message : string) (status_code : option Z) (err_type : option string).

(** [FINISH_ABORT(message)]: a missing or empty message becomes "Aborted". *)
Definition finish_abort (message : option string) (status_code : option Z)
    (err_type : option string) : finish_reason :=
  FINISH_ABORT (match message with None | Some EmptyString => "Aborted" | Some m => m end)
    status_code err_type.

Definition is_error (f : finish_reason) : bool :=
  match f with FINISH_ABORT _ _ _ => true | _ => false end.

Definition INIT_INCREMENTAL_DETOKENIZATION_OFFSET : Z := 5.

Module Req.

Record t := mk {
  rid : string;
  origin_input_ids_unpadded : list Z;
  origin_input_ids : list Z;
  output_ids : list Z;
  fill_ids : list Z;
  sampling_params : SamplingParams.t;
  lora_id : option string;
  req_pool_idx : option Z;
  tokenizer : option Tokenizer;
  finished_reason : option finish_reason;
  to_abort : bool;
  to_abort_message : option string;
  eos_token_ids : list Z;
  vocab_size : Z;
  surr_offset : option Z;
  read_offset : option Z;
  decoded_text : string;
  multimodal_inputs : option nat;
  prefix_indices : list Z;
  extend_input_len : Z;
  extend_logprob_start_len : Z;
  last_node : option nat;
  last_host_node : option nat;
  host_hit_length : Z;
  swa_uuid_for_lock : option Z;
  is_chunked : Z;
  is_retracted : bool;
  return_logprob : bool;
  logprob_start_len : Z;
  grammar : option bool;
  cached_tokens : Z;
  already_computed : Z;
  evicted_seqlen_local : Z;
}.

(** Field assignment. *)
Definition set_origin_input_ids (x : list Z) (r : t) : t :=
  mk (rid r) (origin_input_ids_unpadded r) x (output_ids r) (fill_ids r)
    (sampling_params r) (lora_id r) (req_pool_idx r) (tokenizer r) (finished_reason r)
    (to_abort r) (to_abort_message r) (eos_token_ids r) (vocab_size r) (surr_offset r)
    (read_offset r) (decoded_text r) (multimodal_inputs r) (prefix_indices r)
    (extend_input_len r) (extend_logprob_start_len r) (last_node r) (last_host_node r)
    (host_hit_length r) (swa_uuid_for_lock r) (is_chunked r) (is_retracted r)
    (return_logprob r) (logprob_start_len r) (grammar r) (cached_tokens r)
    (already_computed r)
    (evicted_seqlen_local r).
Definition set_output_ids (x : list Z) (r : t) : t :=
  mk (rid r) (origin_input_ids_unpadded r) (origin_input_ids r) x (fill_ids r)
    (sampling_params r) (lora_id r) (req_pool_idx r) (tokenizer r) (finished_reason r)
    (to_abort r) (to_abort_message r) (eos_token_ids r) (vocab_size r) (surr_offset r)
    (read_offset r) (decoded_text r) (multimodal_inputs r) (prefix_indices r)
    (extend_input_len r) (extend_logprob_start_len r) (last_node r) (last_host_node r)
    (host_hit_length r) (swa_uuid_for_lock r) (is_chunked r) (is_retracted r)
    (return_logprob r) (logprob_start_len r) (grammar r) (cached_tokens r)
    (already_computed r)
    (evicted_seqlen_local r).
Definition set_fill_ids (x : list Z) (r : t) : t :=
  mk (rid r) (origin_input_ids_unpadded r) (origin_input_ids r) (output_ids r) x
    (sampling_params r) (lora_id r) (req_pool_idx r) (tokenizer r) (finished_reason r)
    (to_abort r) (to_abort_message r) (eos_token_ids r) (vocab_size r) (surr_offset r)
    (read_offset r) (decoded_text r) (multimodal_inputs r) (prefix_indices r)
    (extend_input_len r) (extend_logprob_start_len r) (last_node r) (last_host_node r)
    (host_hit_length r) (swa_uuid_for_lock r) (is_chunked r) (is_retracted r)
    (return_logprob r) (logprob_start_len r) (grammar r) (cached_tokens r)
    (already_computed r)
    (evicted_seqlen_local r).
Definition set_req_pool_idx (x : option Z) (r : t) : t :=
  mk (rid r) (origin_input_ids_unpadded r) (origin_input_ids r) (output_ids r) (fill_ids
    r) (sampling_params r) (lora_id r) x (tokenizer r) (finished_reason r) (to_abort r)
    (to_abort_message r) (eos_token_ids r) (vocab_size r) (surr_offset r) (read_offset
    r) (decoded_text r) (multimodal_inputs r) (prefix_indices r) (extend_input_len r)
    (extend_logprob_start_len r) (last_node r) (last_host_node r) (host_hit_length r)
    (swa_uuid_for_lock r) (is_chunked r) (is_retracted r) (return_logprob r)
    (logprob_start_len r) (grammar r) (cached_tokens r) (already_computed r)
    (evicted_seqlen_local r).
Definition set_finished_reason (x : option finish_reason) (r : t) : t :=
  mk (rid r) (origin_input_ids_unpadded r) (origin_input_ids r) (output_ids r) (fill_ids
    r) (sampling_params r) (lora_id r) (req_pool_idx r) (tokenizer r) x (to_abort r)
    (to_abort_message r) (eos_token_ids r) (vocab_size r) (surr_offset r) (read_offset
    r) (decoded_text r) (multimodal_inputs r) (prefix_indices r) (extend_input_len r)
    (extend_logprob_start_len r) (last_node r) (last_host_node r) (host_hit_length r)
    (swa_uuid_for_lock r) (is_chunked r) (is_retracted r) (return_logprob r)
    (logprob_start_len r) (grammar r) (cached_tokens r) (already_computed r)
    (evicted_seqlen_local r).
Definition set_to_abort (x : bool) (r : t) : t :=
  mk (rid r) (origin_input_ids_unpadded r) (origin_input_ids r) (output_ids r) (fill_ids
    r) (sampling_params r) (lora_id r) (req_pool_idx r) (tokenizer r) (finished_reason r) x
    (to_abort_message r) (eos_token_ids r) (vocab_size r) (surr_offset r) (read_offset
    r) (decoded_text r) (multimodal_inputs r) (prefix_indices r) (extend_input_len r)
    (extend_logprob_start_len r) (last_node r) (last_host_node r) (host_hit_length r)
    (swa_uuid_for_lock r) (is_chunked r) (is_retracted r) (return_logprob r)
    (logprob_start_len r) (grammar r) (cached_tokens r) (already_computed r)
    (evicted_seqlen_local r).
Definition set_surr_offset (x : option Z) (r : t) : t :=
  mk (rid r) (origin_input_ids_unpadded r) (origin_input_ids r) (output_ids r) (fill_ids
    r) (sampling_params r) (lora_id r) (req_pool_idx r) (tokenizer r) (finished_reason
    r) (to_abort r) (to_abort_message r) (eos_token_ids r) (vocab_size r) x (read_offset
    r) (decoded_text r) (multimodal_inputs r) (prefix_indices r) (extend_input_len r)
    (extend_logprob_start_len r) (last_node r) (last_host_node r) (host_hit_length r)
    (swa_uuid_for_lock r) (is_chunked r) (is_retracted r) (return_logprob r)
    (logprob_start_len r) (grammar r) (cached_tokens r) (already_computed r)
    (evicted_seqlen_local r).
Definition set_read_offset (x : option Z) (r : t) : t :=
  mk (rid r) (origin_input_ids_unpadded r) (origin_input_ids r) (output_ids r) (fill_ids
    r) (sampling_params r) (lora_id r) (req_pool_idx r) (tokenizer r) (finished_reason
    r) (to_abort r) (to_abort_message r) (eos_token_ids r) (vocab_size r) (surr_offset
    r) x (decoded_text r) (multimodal_inputs r) (prefix_indices r) (extend_input_len r)
    (extend_logprob_start_len r) (last_node r) (last_host_node r) (host_hit_length r)
    (swa_uuid_for_lock r) (is_chunked r) (is_retracted r) (return_logprob r)
    (logprob_start_len r) (grammar r) (cached_tokens r) (already_computed r)
    (evicted_seqlen_local r).
Definition set_multimodal_inputs (x : option nat) (r : t) : t :=
  mk (rid r) (origin_input_ids_unpadded r) (origin_input_ids r) (output_ids r) (fill_ids
    r) (sampling_params r) (lora_id r) (req_pool_idx r) (tokenizer r) (finished_reason
    r) (to_abort r) (to_abort_message r) (eos_token_ids r) (vocab_size r) (surr_offset
    r) (read_offset r) (decoded_text r) x (prefix_indices r) (extend_input_len r)
    (extend_logprob_start_len r) (last_node r) (last_host_node r) (host_hit_length r)
    (swa_uuid_for_lock r) (is_chunked r) (is_retracted r) (return_logprob r)
    (logprob_start_len r) (grammar r) (cached_tokens r) (already_computed r)
    (evicted_seqlen_local r).
Definition set_prefix_indices (x : list Z) (r : t) : t :=
  mk (rid r) (origin_input_ids_unpadded r) (origin_input_ids r) (output_ids r) (fill_ids
    r) (sampling_params r) (lora_id r) (req_pool_idx r) (tokenizer r) (finished_reason
    r) (to_abort r) (to_abort_message r) (eos_token_ids r) (vocab_size r) (surr_offset
    r) (read_offset r) (decoded_text r) (multimodal_inputs r) x (extend_input_len r)
    (extend_logprob_start_len r) (last_node r) (last_host_node r) (host_hit_length r)
    (swa_uuid_for_lock r) (is_chunked r) (is_retracted r) (return_logprob r)
    (logprob_start_len r) (grammar r) (cached_tokens r) (already_computed r)
    (evicted_seqlen_local r).
Definition set_extend_input_len (x : Z) (r : t) : t :=
  mk (rid r) (origin_input_ids_unpadded r) (origin_input_ids r) (output_ids r) (fill_ids
    r) (sampling_params r) (lora_id r) (req_pool_idx r) (tokenizer r) (finished_reason
    r) (to_abort r) (to_abort_message r) (eos_token_ids r) (vocab_size r) (surr_offset
    r) (read_offset r) (decoded_text r) (multimodal_inputs r) (prefix_indices r) x
    (extend_logprob_start_len r) (last_node r) (last_host_node r) (host_hit_length r)
    (swa_uuid_for_lock r) (is_chunked r) (is_retracted r) (return_logprob r)
    (logprob_start_len r) (grammar r) (cached_tokens r) (already_computed r)
    (evicted_seqlen_local r).
Definition set_extend_logprob_start_len (x : Z) (r : t) : t :=
  mk (rid r) (origin_input_ids_unpadded r) (origin_input_ids r) (output_ids r) (fill_ids
    r) (sampling_params r) (lora_id r) (req_pool_idx r) (tokenizer r) (finished_reason
    r) (to_abort r) (to_abort_message r) (eos_token_ids r) (vocab_size r) (surr_offset
    r) (read_offset r) (decoded_text r) (multimodal_inputs r) (prefix_indices r)
    (extend_input_len r) x (last_node r) (last_host_node r) (host_hit_length r)
    (swa_uuid_for_lock r) (is_chunked r) (is_retracted r) (return_logprob r)
    (logprob_start_len r) (grammar r) (cached_tokens r) (already_computed r)
    (evicted_seqlen_local r).
Definition set_last_node (x : option nat) (r : t) : t :=
  mk (rid r) (origin_input_ids_unpadded r) (origin_input_ids r) (output_ids r) (fill_ids
    r) (sampling_params r) (lora_id r) (req_pool_idx r) (tokenizer r) (finished_reason
    r) (to_abort r) (to_abort_message r) (eos_token_ids r) (vocab_size r) (surr_offset
    r) (read_offset r) (decoded_text r) (multimodal_inputs r) (prefix_indices r)
    (extend_input_len r) (extend_logprob_start_len r) x (last_host_node r)
    (host_hit_length r) (swa_uuid_for_lock r) (is_chunked r) (is_retracted r)
    (return_logprob r) (logprob_start_len r) (grammar r) (cached_tokens r)
    (already_computed r)
    (evicted_seqlen_local r).
Definition set_last_host_node (x : option nat) (r : t) : t :=
  mk (rid r) (origin_input_ids_unpadded r) (origin_input_ids r) (output_ids r) (fill_ids
    r) (sampling_params r) (lora_id r) (req_pool_idx r) (tokenizer r) (finished_reason
    r) (to_abort r) (to_abort_message r) (eos_token_ids r) (vocab_size r) (surr_offset
    r) (read_offset r) (decoded_text r) (multimodal_inputs r) (prefix_indices r)
    (extend_input_len r) (extend_logprob_start_len r) (last_node r) x (host_hit_length
    r) (swa_uuid_for_lock r) (is_chunked r) (is_retracted r) (return_logprob r)
    (logprob_start_len r) (grammar r) (cached_tokens r) (already_computed r)
    (evicted_seqlen_local r).
Definition set_host_hit_length (x : Z) (r : t) : t :=
  mk (rid r) (origin_input_ids_unpadded r) (origin_input_ids r) (output_ids r) (fill_ids
    r) (sampling_params r) (lora_id r) (req_pool_idx r) (tokenizer r) (finished_reason
    r) (to_abort r) (to_abort_message r) (eos_token_ids r) (vocab_size r) (surr_offset
    r) (read_offset r) (decoded_text r) (multimodal_inputs r) (prefix_indices r)
    (extend_input_len r) (extend_logprob_start_len r) (last_node r) (last_host_node r) x
    (swa_uuid_for_lock r) (is_chunked r) (is_retracted r) (return_logprob r)
    (logprob_start_len r) (grammar r) (cached_tokens r) (already_computed r)
    (evicted_seqlen_local r).
Definition set_swa_uuid_for_lock (x : option Z) (r : t) : t :=
  mk (rid r) (origin_input_ids_unpadded r) (origin_input_ids r) (output_ids r) (fill_ids
    r) (sampling_params r) (lora_id r) (req_pool_idx r) (tokenizer r) (finished_reason
    r) (to_abort r) (to_abort_message r) (eos_token_ids r) (vocab_size r) (surr_offset
    r) (read_offset r) (decoded_text r) (multimodal_inputs r) (prefix_indices r)
    (extend_input_len r) (extend_logprob_start_len r) (last_node r) (last_host_node r)
    (host_hit_length r) x (is_chunked r) (is_retracted r) (return_logprob r)
    (logprob_start_len r) (grammar r) (cached_tokens r) (already_computed r)
    (evicted_seqlen_local r).
Definition set_is_chunked (x : Z) (r : t) : t :=
  mk (rid r) (origin_input_ids_unpadded r) (origin_input_ids r) (output_ids r) (fill_ids
    r) (sampling_params r) (lora_id r) (req_pool_idx r) (tokenizer r) (finished_reason
    r) (to_abort r) (to_abort_message r) (eos_token_ids r) (vocab_size r) (surr_offset
    r) (read_offset r) (decoded_text r) (multimodal_inputs r) (prefix_indices r)
    (extend_input_len r) (extend_logprob_start_len r) (last_node r) (last_host_node r)
    (host_hit_length r) (swa_uuid_for_lock r) x (is_retracted r) (return_logprob r)
    (logprob_start_len r) (grammar r) (cached_tokens r) (already_computed r)
    (evicted_seqlen_local r).
Definition set_is_retracted (x : bool) (r : t) : t :=
  mk (rid r) (origin_input_ids_unpadded r) (origin_input_ids r) (output_ids r) (fill_ids
    r) (sampling_params r) (lora_id r) (req_pool_idx r) (tokenizer r) (finished_reason
    r) (to_abort r) (to_abort_message r) (eos_token_ids r) (vocab_size r) (surr_offset
    r) (read_offset r) (decoded_text r) (multimodal_inputs r) (prefix_indices r)
    (extend_input_len r) (extend_logprob_start_len r) (last_node r) (last_host_node r)
    (host_hit_length r) (swa_uuid_for_lock r) (is_chunked r) x (return_logprob r)
    (logprob_start_len r) (grammar r) (cached_tokens r) (already_computed r)
    (evicted_seqlen_local r).
Definition set_return_logprob (x : bool) (r : t) : t :=
  mk (rid r) (origin_input_ids_unpadded r) (origin_input_ids r) (output_ids r) (fill_ids
    r) (sampling_params r) (lora_id r) (req_pool_idx r) (tokenizer r) (finished_reason
    r) (to_abort r) (to_abort_message r) (eos_token_ids r) (vocab_size r) (surr_offset
    r) (read_offset r) (decoded_text r) (multimodal_inputs r) (prefix_indices r)
    (extend_input_len r) (extend_logprob_start_len r) (last_node r) (last_host_node r)
    (host_hit_length r) (swa_uuid_for_lock r) (is_chunked r) (is_retracted r) x
    (logprob_start_len r) (grammar r) (cached_tokens r) (already_computed r)
    (evicted_seqlen_local r).
Definition set_sampling_params (x : SamplingParams.t) (r : t) : t :=
  mk (rid r) (origin_input_ids_unpadded r) (origin_input_ids r) (output_ids r) (fill_ids
    r) x (lora_id r) (req_pool_idx r) (tokenizer r) (finished_reason
    r) (to_abort r) (to_abort_message r) (eos_token_ids r) (vocab_size r) (surr_offset
    r) (read_offset r) (decoded_text r) (multimodal_inputs r) (prefix_indices r)
    (extend_input_len r) (extend_logprob_start_len r) (last_node r) (last_host_node r)
    (host_hit_length r) (swa_uuid_for_lock r) (is_chunked r) (is_retracted r)
    (return_logprob r) (logprob_start_len r) (grammar r) (cached_tokens r) (already_computed r)
    (evicted_seqlen_local r).
Definition set_tokenizer (x : option Tokenizer) (r : t) : t :=
  mk (rid r) (origin_input_ids_unpadded r) (origin_input_ids r) (output_ids r) (fill_ids
    r) (sampling_params r) (lora_id r) (req_pool_idx r) x (finished_reason
    r) (to_abort r) (to_abort_message r) (eos_token_ids r) (vocab_size r) (surr_offset
    r) (read_offset r) (decoded_text r) (multimodal_inputs r) (prefix_indices r)
    (extend_input_len r) (extend_logprob_start_len r) (last_node r) (last_host_node r)
    (host_hit_length r) (swa_uuid_for_lock r) (is_chunked r) (is_retracted r)
    (return_logprob r) (logprob_start_len r) (grammar r) (cached_tokens r) (already_computed r)
    (evicted_seqlen_local r).
Definition set_logprob_start_len (x : Z) (r : t) : t :=
  mk (rid r) (origin_input_ids_unpadded r) (origin_input_ids r) (output_ids r) (fill_ids
    r) (sampling_params r) (lora_id r) (req_pool_idx r) (tokenizer r) (finished_reason
    r) (to_abort r) (to_abort_message r) (eos_token_ids r) (vocab_size r) (surr_offset
    r) (read_offset r) (decoded_text r) (multimodal_inputs r) (prefix_indices r)
    (extend_input_len r) (extend_logprob_start_len r) (last_node r) (last_host_node r)
    (host_hit_length r) (swa_uuid_for_lock r) (is_chunked r) (is_retracted r)
    (return_logprob r) x (grammar r) (cached_tokens r) (already_computed r)
    (evicted_seqlen_local r).
Definition set_grammar (x : option bool) (r : t) : t :=
  mk (rid r) (origin_input_ids_unpadded r) (origin_input_ids r) (output_ids r) (fill_ids
    r) (sampling_params r) (lora_id r) (req_pool_idx r) (tokenizer r) (finished_reason
    r) (to_abort r) (to_abort_message r) (eos_token_ids r) (vocab_size r) (surr_offset
    r) (read_offset r) (decoded_text r) (multimodal_inputs r) (prefix_indices r)
    (extend_input_len r) (extend_logprob_start_len r) (last_node r) (last_host_node r)
    (host_hit_length r) (swa_uuid_for_lock r) (is_chunked r) (is_retracted r)
    (return_logprob r) (logprob_start_len r) x (cached_tokens r) (already_computed r)
    (evicted_seqlen_local r).
Definition set_already_computed (x : Z) (r : t) : t :=
  mk (rid r) (origin_input_ids_unpadded r) (origin_input_ids r) (output_ids r) (fill_ids
    r) (sampling_params r) (lora_id r) (req_pool_idx r) (tokenizer r) (finished_reason
    r) (to_abort r) (to_abort_message r) (eos_token_ids r) (vocab_size r) (surr_offset
    r) (read_offset r) (decoded_text r) (multimodal_inputs r) (prefix_indices r)
    (extend_input_len r) (extend_logprob_start_len r) (last_node r) (last_host_node r)
    (host_hit_length r) (swa_uuid_for_lock r) (is_chunked r) (is_retracted r)
    (return_logprob r) (logprob_start_len r) (grammar r) (cached_tokens r) x (evicted_seqlen_local r).
Definition set_cached_tokens (x : Z) (r : t) : t :=
  mk (rid r) (origin_input_ids_unpadded r) (origin_input_ids r) (output_ids r) (fill_ids
    r) (sampling_params r) (lora_id r) (req_pool_idx r) (tokenizer r) (finished_reason
    r) (to_abort r) (to_abort_message r) (eos_token_ids r) (vocab_size r) (surr_offset
    r) (read_offset r) (decoded_text r) (multimodal_inputs r) (prefix_indices r)
    (extend_input_len r) (extend_logprob_start_len r) (last_node r) (last_host_node r)
    (host_hit_length r) (swa_uuid_for_lock r) (is_chunked r) (is_retracted r)
    (return_logprob r) (logprob_start_len r) (grammar r) x (already_computed r) (evicted_seqlen_local r).
Definition set_evicted_seqlen_local (x : Z) (r : t) : t :=
  mk (rid r) (origin_input_ids_unpadded r) (origin_input_ids r) (output_ids r) (fill_ids
    r) (sampling_params r) (lora_id r) (req_pool_idx r) (tokenizer r) (finished_reason
    r) (to_abort r) (to_abort_message r) (eos_token_ids r) (vocab_size r) (surr_offset
    r) (read_offset r) (decoded_text r) (multimodal_inputs r) (prefix_indices r)
    (extend_input_len r) (extend_logprob_start_len r) (last_node r) (last_host_node r)
    (host_hit_length r) (swa_uuid_for_lock r) (is_chunked r) (is_retracted r)
    (return_logprob r) (logprob_start_len r) (grammar r) (cached_tokens r) (already_computed r) x.

(** [Req.__init__] for the fields above. *)
Definition init (rid : string) (origin_input_ids : list Z) (sampling_params : SamplingParams.t)
    (return_logprob : bool) (origin_input_ids_unpadded : list Z) (lora_id : option string)
    (eos_token_ids : list Z) (vocab_size : Z) : t :=
  mk rid
    (match origin_input_ids_unpadded with [] => origin_input_ids | l => l end)
    origin_input_ids [] [] sampling_params lora_id None None None false None eos_token_ids vocab_size
    None None EmptyString None [] 0 0 None None 0 None 0 false return_logprob 0 None 0 0 0.

Definition seqlen (r : t) : Z := len (origin_input_ids r) + len (output_ids r).

Definition finished (r : t) : bool := bool_decide (is_Some (finished_reason r)).

(** Comparing with a [max_new_tokens] of [None] raises. *)
Definition get_max_new_tokens (r : t) : pyres Z :=
  match SamplingParams.max_new_tokens (sampling_params r) with
  | Some m => mret m
  | None => Raise TypeError
  end.

Definition adjust_max_prefix_ids (r : t) : pyres (list Z * t) :=
  let r := set_fill_ids (origin_input_ids r ++ output_ids r) r in
  let input_len := len (fill_ids r) in
  let max_prefix_len := input_len - 1 in
  m ← get_max_new_tokens r;
  let max_prefix_len := if 0 <? m then Z.min max_prefix_len (input_len - 1) else max_prefix_len in
  let max_prefix_len :=
    if return_logprob r then Z.min max_prefix_len (logprob_start_len r) else max_prefix_len in
  let max_prefix_len := Z.max max_prefix_len 0 in
  mret ((fill_ids r).[: max_prefix_len], r).

(** [init_next_round_input] against a prefix cache with state [C]:
    [match_prefix] returns indices, last node, last host node, host hits. *)
Definition init_next_round_input {C}
    (match_prefix : list Z → C → pyres (list Z * option nat * option nat * Z * C))
    (r : t) (tree_cache : option C) : pyres (t * option C) :=
  let r := set_fill_ids (origin_input_ids r ++ output_ids r) r in
  '(r, tree_cache) ←
    match tree_cache with
    | None => mret (r, None)
    | Some c =>
        '(key, r) ← adjust_max_prefix_ids r;
        '(indices, node, host_node, hits, c) ← match_prefix key c;
        mret (set_host_hit_length hits (set_last_host_node host_node
               (set_last_node node (set_prefix_indices indices r))), Some c)
    end;
  mret (set_extend_input_len (len (fill_ids r) - len (prefix_indices r)) r, tree_cache).

Definition init_incremental_detokenize (r : t) : list Z * Z * t :=
  let r :=
    match surr_offset r, read_offset r with
    | Some _, Some _ => r
    | _, _ =>
        let ro := len (origin_input_ids_unpadded r) in
        set_surr_offset (Some (Z.max (ro - INIT_INCREMENTAL_DETOKENIZATION_OFFSET) 0))
          (set_read_offset (Some ro) r)
    end in
  let so := default 0 (surr_offset r) in
  let ro := default 0 (read_offset r) in
  let all_ids := origin_input_ids_unpadded r ++ output_ids r in
  (all_ids.[so :], ro - so, r).

(** [s in t] on strings. *)
Definition str_in (s t : string) : bool :=
  match String.index 0 s t with Some _ => true | None => false end.

(** [self.output_ids[-1]] *)
Definition last_output (r : t) : pyres Z :=
  match last (output_ids r) with Some x => mret x | None => Raise IndexError end.

Definition set_last_output (x : Z) (r : t) : t :=
  set_output_ids (removelast (output_ids r) ++ [x]) r.

Definition mem (x : Z) (l : list Z) : bool := bool_decide (x ∈ l).

Definition matched_eos (r : t) (last_token_id : Z) : bool :=
  mem last_token_id (SamplingParams.stop_token_ids (sampling_params r))
  || mem last_token_id (eos_token_ids r)
  || match tokenizer r with
     | Some tk => bool_decide (eos_token_id tk = Some last_token_id)
                  || mem last_token_id (additional_stop_token_ids tk)
     | None => false
     end.

Definition finish (f : finish_reason) (r : t) : t := set_finished_reason (Some f) r.

Definition check_stop_strs (r : t) : pyres t :=
  let sp := sampling_params r in
  match SamplingParams.stop_strs sp with
  | [] => mret r
  | strs =>
      match tokenizer r with
      | None => Raise AttributeError
      | Some tk =>
          let tail_str := decode tk (output_ids r).[- (SamplingParams.stop_str_max_len sp + 1) :] in
          match find (fun s => str_in s tail_str || str_in s (decoded_text r)) strs with
          | Some s => mret (finish (FINISH_MATCHED_STR s) r)
          | None => mret r
          end
      end
  end.

Definition check_finished (r : t) : pyres t :=
  let sp := sampling_params r in
  if finished r then mret r
  else if to_abort r then mret (finish (finish_abort (to_abort_message r) None None) r)
  else
    m ← get_max_new_tokens r;
    if m <=? len (output_ids r) then mret (finish (FINISH_LENGTH m) r)
    else if bool_decide (grammar r = Some true)
    then x ← last_output r; mret (finish (FINISH_MATCHED_TOKEN x) r)
    else
      last_token_id ← last_output r;
      if negb (SamplingParams.ignore_eos sp) && matched_eos r last_token_id
      then mret (finish (FINISH_MATCHED_TOKEN last_token_id) r)
      else if (vocab_size r <? last_token_id) || (last_token_id <? 0)
      then
        let r := match SamplingParams.stop_token_ids sp with
                 | x :: _ => set_last_output x r | [] => r end in
        let r := match eos_token_ids r with
                 | x :: _ => set_last_output x r | [] => r end in
        mret (finish (FINISH_MATCHED_STR "NaN happened") r)
      else check_stop_strs r.

Definition reset_for_retract (r : t) : t :=
  set_already_computed 0 (set_req_pool_idx None (set_is_chunked 0
    (set_extend_logprob_start_len 0 (set_is_retracted true (set_extend_input_len 0
      (set_swa_uuid_for_lock None (set_last_node None (set_prefix_indices [] r)))))))).

Definition set_finish_with_abort (error_msg : string) (r : t) : t :=
  set_finished_reason (Some (finish_abort (Some error_msg) (Some 400) (Some "BadRequestError")))
    (set_return_logprob false (set_origin_input_ids [0]
      (set_grammar None (set_multimodal_inputs None r)))).

(** ** Properties *)

Lemma str_prefix_split s t : String.prefix s t = true ↔ ∃ b, t = (s ++ b)%string.
Proof.
  revert t. induction s as [|x s IH]; intros t; simpl.
  { split; [by exists t|]. by destruct t. }
  destruct t as [|y t]; [split; [done|by intros (b & ?)]|].
  cbn [String.prefix String.append]. destruct (Ascii.ascii_dec x y) as [->|Hne].
  - rewrite IH. split; intros (b & E); exists b; [by rewrite E|by injection E].
  - split; [done|]. intros (b & E). change (String y t = String x (s +:+ b)) in E. congruence.
Qed.

(** Whether [s] occurs in [t]. *)
Definition occurs (s t : string) : Prop := ∃ a b, t = (a ++ s ++ b)%string.

Lemma str_in_occurs s t : str_in s t = true ↔ occurs s t.
Proof.
  unfold str_in, occurs. revert s. induction t as [|y t IH]; intros s.
  - destruct s as [|x s]; simpl; (split; [|]); [by exists ""%string, ""%string|done|done|].
    intros (a & b & E). by destruct a.
  - cbn [String.index]. destruct (String.prefix s (String y t)) eqn:Ep.
    + split; [|done]. intros _. apply str_prefix_split in Ep as [b Eb]. by exists ""%string, b.
    + specialize (IH s). destruct (String.index 0 s t) eqn:Ei; (split; [|]); try done.
      * intros _. destruct IH as [(a & b & ->) _]; [done|]. by exists (String y a), b.
      * intros (a & b & E). destruct a as [|z a].
        { rewrite (proj2 (str_prefix_split s (String y t))) in Ep; [done|]. by exists b. }
        injection E as _ E. destruct IH as [_ IH]. by specialize (IH (ex_intro _ a (ex_intro _ b E))).
Qed.

(** *** When a request stops *)

(** The last token is a stop token of the request, the model or the tokenizer. *)
Definition stop_token (r : t) (x : Z) : Prop :=
  x ∈ SamplingParams.stop_token_ids (sampling_params r) ∨ x ∈ eos_token_ids r ∨
  ∃ tk, tokenizer r = Some tk ∧ (eos_token_id tk = Some x ∨ x ∈ additional_stop_token_ids tk).

(** A stop string occurs in the decoded text or at the end of the output. *)
Definition stop_text (r : t) (tk : Tokenizer) (s : string) : Prop :=
  occurs s (decode tk (output_ids r).[- (SamplingParams.stop_str_max_len (sampling_params r) + 1) :]) ∨
  occurs s (decoded_text r).

(** The request runs, is not aborted, and is below its limit with last token [x]. *)
Definition under_limit (r : t) (x : Z) : Prop :=
  finished_reason r = None ∧ to_abort r = false ∧ last (output_ids r) = Some x ∧
  ∃ m, SamplingParams.max_new_tokens (sampling_params r) = Some m ∧ len (output_ids r) < m.

(** Neither the grammar nor the last token stops it. *)
Definition no_stop_token (r : t) (x : Z) : Prop :=
  under_limit r x ∧ grammar r ≠ Some true ∧
  (SamplingParams.ignore_eos (sampling_params r) = true ∨ ¬ stop_token r x).

(** What replaces an invalid last token. *)
Definition repaired (r : t) (x : Z) : Z :=
  default (default x (head (SamplingParams.stop_token_ids (sampling_params r)))) (head (eos_token_ids r)).

(** What becomes of a request. *)
Inductive settles (r : t) : pyres t → Prop :=
  | settle_done : is_Some (finished_reason r) → settles r (Ok r)
  | settle_abort : finished_reason r = None → to_abort r = true →
      settles r (Ok (finish (finish_abort (to_abort_message r) None None) r))
  | settle_unlimited : finished_reason r = None → to_abort r = false →
      SamplingParams.max_new_tokens (sampling_params r) = None → settles r (Raise TypeError)
  | settle_length m : finished_reason r = None → to_abort r = false →
      SamplingParams.max_new_tokens (sampling_params r) = Some m → m ≤ len (output_ids r) →
      settles r (Ok (finish (FINISH_LENGTH m) r))
  | settle_no_output m : finished_reason r = None → to_abort r = false →
      SamplingParams.max_new_tokens (sampling_params r) = Some m → 0 < m → output_ids r = [] →
      settles r (Raise IndexError)
  | settle_grammar x : under_limit r x → grammar r = Some true →
      settles r (Ok (finish (FINISH_MATCHED_TOKEN x) r))
  | settle_token x : under_limit r x → grammar r ≠ Some true →
      SamplingParams.ignore_eos (sampling_params r) = false → stop_token r x →
      settles r (Ok (finish (FINISH_MATCHED_TOKEN x) r))
  | settle_invalid x : no_stop_token r x → vocab_size r < x ∨ x < 0 →
      settles r (Ok (finish (FINISH_MATCHED_STR "NaN happened") (set_last_output (repaired r x) r)))
  | settle_no_tokenizer x : no_stop_token r x → 0 ≤ x ≤ vocab_size r →
      SamplingParams.stop_strs (sampling_params r) ≠ [] → tokenizer r = None → settles r (Raise AttributeError)
  | settle_string x tk before s after : no_stop_token r x → 0 ≤ x ≤ vocab_size r → tokenizer r = Some tk →
      SamplingParams.stop_strs (sampling_params r) = before ++ s :: after →
      Forall (fun s' => ¬ stop_text r tk s') before → stop_text r tk s →
      settles r (Ok (finish (FINISH_MATCHED_STR s) r))
  | settle_runs x : no_stop_token r x → 0 ≤ x ≤ vocab_size r →
      SamplingParams.stop_strs (sampling_params r) = [] ∨
        (∃ tk, tokenizer r = Some tk ∧ Forall (fun s => ¬ stop_text r tk s) (SamplingParams.stop_strs (sampling_params r))) →
      settles r (Ok r).

Lemma finish_reason_finish f r : finished_reason (finish f r) = Some f.
Proof. done. Qed.

Lemma matched_eos_iff r x : matched_eos r x = true ↔ stop_token r x.
Proof.
  unfold matched_eos, stop_token, mem. rewrite !orb_true_iff, !bool_decide_eq_true.
  destruct (tokenizer r) as [tk|]; [rewrite orb_true_iff, !bool_decide_eq_true|]; naive_solver.
Qed.

Lemma set_last_output_last x r : last (output_ids r) = Some x → set_last_output x r = r.
Proof.
  intros [l E]%last_Some. unfold set_last_output. rewrite E, removelast_last, <-E. by destruct r.
Qed.

Lemma set_last_output_twice x y r : output_ids r ≠ [] → set_last_output y (set_last_output x r) = set_last_output y r.
Proof.
  intros Hne. unfold set_last_output. simpl. by rewrite removelast_last.
Qed.

Lemma find_first {A} (p : A → bool) l :
  match find p l with
  | Some x => ∃ before after, l = before ++ x :: after ∧ Forall (fun y => p y = false) before ∧ p x = true
  | None => Forall (fun y => p y = false) l
  end.
Proof.
  induction l as [|y l IH]; simpl; [done|]. destruct (p y) eqn:E; [by exists [], l|].
  destruct (find p l) as [x|]; [|by constructor].
  destruct IH as (b & a & -> & Hb & Hx). exists (y :: b), a. by repeat constructor.
Qed.

Lemma stop_text_iff r tk s :
  str_in s (decode tk (output_ids r).[- (SamplingParams.stop_str_max_len (sampling_params r) + 1) :]) || str_in s (decoded_text r) = true
  ↔ stop_text r tk s.
Proof. by rewrite orb_true_iff, !str_in_occurs. Qed.

Lemma check_stop_strs_settles r x : no_stop_token r x → 0 ≤ x ≤ vocab_size r → settles r (check_stop_strs r).
Proof.
  intros Hn Hx. unfold check_stop_strs.
  destruct (SamplingParams.stop_strs (sampling_params r)) as [|s0 strs] eqn:Es; [by eapply settle_runs; eauto|].
  destruct (tokenizer r) as [tk|] eqn:Et; [|by eapply settle_no_tokenizer; rewrite ?Es].
  set (p := fun s => str_in s _ || _).
  assert (∀ s, p s = false → ¬ stop_text r tk s) as Hp.
  { intros s Ep Hs%stop_text_iff. unfold p in Ep. congruence. }
  pose proof (find_first p (s0 :: strs)) as Hf. destruct (find p (s0 :: strs)) as [s|].
  - destruct Hf as (b & a & E & Hb & Hs). eapply settle_string; [done..|by rewrite Es| |by apply stop_text_iff].
    by eapply Forall_impl.
  - eapply settle_runs; [done..|]. right. exists tk. split; [done|]. rewrite Es. by eapply Forall_impl.
Qed.

Lemma find_at {A} (p : A → bool) before x after :
  Forall (fun y => p y = false) before → p x = true → find p (before ++ x :: after) = Some x.
Proof. intros F Hx. induction F as [|y b Hy F IH]; simpl; [by rewrite Hx|]. by rewrite Hy. Qed.

Lemma find_none {A} (p : A → bool) l : Forall (fun y => p y = false) l → find p l = None.
Proof. induction 1 as [|y l Hy F IH]; simpl; [done|]. by rewrite Hy. Qed.

(** [check_finished] below the limit. *)
Lemma check_under_limit r x : under_limit r x →
  check_finished r =
    if bool_decide (grammar r = Some true) then Ok (finish (FINISH_MATCHED_TOKEN x) r)
    else if negb (SamplingParams.ignore_eos (sampling_params r)) && matched_eos r x
    then Ok (finish (FINISH_MATCHED_TOKEN x) r)
    else if (vocab_size r <? x) || (x <? 0)
    then Ok (finish (FINISH_MATCHED_STR "NaN happened") (set_last_output (repaired r x) r))
    else check_stop_strs r.
Proof.
  intros (Hf & Ha & Hx & m & Hm & Hl). unfold check_finished, finished, get_max_new_tokens, last_output, repaired.
  rewrite Hf, Ha, Hm, Hx. simpl. destruct (Z.leb_spec m (len (output_ids r))) as [|_]; [lia|].
  destruct (bool_decide _); [done|]. destruct (negb _ && _); [done|]. destruct (_ || _); [|done].
  assert (output_ids r ≠ []) as Hne by (intros E; by rewrite E in Hx).
  destruct (SamplingParams.stop_token_ids _) as [|y ys]; simpl; destruct (eos_token_ids r) as [|z zs]; simpl; try done.
  - by rewrite set_last_output_last.
  - by rewrite set_last_output_twice.
Qed.

Lemma check_no_stop_token r x : no_stop_token r x → 0 ≤ x ≤ vocab_size r → check_finished r = check_stop_strs r.
Proof.
  intros (Hu & Hg & He) Hx. rewrite (check_under_limit r x Hu), bool_decide_eq_false_2 by done.
  destruct (Z.ltb_spec (vocab_size r) x); [lia|]. destruct (Z.ltb_spec x 0); [lia|].
  destruct He as [->|He]; [done|]. rewrite <-matched_eos_iff, not_true_iff_false in He. by rewrite He, andb_false_r.
Qed.

Lemma settles_check_finished r o : settles r o → check_finished r = o.
Proof.
  destruct 1 as [Hf|Hf Ha|Hf Ha Hm|m Hf Ha Hm Hl|m Hf Ha Hm Hl Ho|x Hu Hg|x Hu Hg Hi Hs|x Hn Hx|x Hn Hx Hs Ht
    |x tk b s a Hn Hx Ht Es Hb Hs|x Hn Hx Hs].
  - unfold check_finished, finished. by rewrite bool_decide_eq_true_2.
  - unfold check_finished, finished. by rewrite Hf, Ha.
  - unfold check_finished, finished, get_max_new_tokens. by rewrite Hf, Ha, Hm.
  - unfold check_finished, finished, get_max_new_tokens. rewrite Hf, Ha, Hm. simpl.
    by destruct (Z.leb_spec m (len (output_ids r))); [|lia].
  - unfold check_finished, finished, get_max_new_tokens, last_output. rewrite Hf, Ha, Hm, Ho. simpl.
    change (len []) with 0. destruct (Z.leb_spec m 0); [lia|]. by destruct (bool_decide _).
  - by rewrite (check_under_limit r x Hu), bool_decide_eq_true_2.
  - apply matched_eos_iff in Hs. by rewrite (check_under_limit r x Hu), bool_decide_eq_false_2, Hi, Hs.
  - destruct Hn as (Hu & Hg & He). rewrite (check_under_limit r x Hu), bool_decide_eq_false_2 by done.
    assert (negb (SamplingParams.ignore_eos (sampling_params r)) && matched_eos r x = false) as ->.
    { destruct He as [->|He]; [done|]. rewrite <-matched_eos_iff, not_true_iff_false in He. by rewrite He, andb_false_r. }
    by destruct (Z.ltb_spec (vocab_size r) x), (Z.ltb_spec x 0); try lia.
  - rewrite (check_no_stop_token r x) by done. unfold check_stop_strs. rewrite Ht.
    by destruct (SamplingParams.stop_strs _).
  - rewrite (check_no_stop_token r x) by done. unfold check_stop_strs. rewrite Ht, Es.
    destruct (b ++ s :: a) as [|s0 strs] eqn:E; [by destruct b|]. rewrite <-E, find_at; [done| |by apply stop_text_iff].
    eapply Forall_impl; [exact Hb|]. intros s' Hs'. simpl in Hs'. rewrite <-stop_text_iff in Hs'. by apply not_true_iff_false.
  - rewrite (check_no_stop_token r x) by done. unfold check_stop_strs.
    destruct Hs as [->|(tk & Ht & Hs)]; [done|]. rewrite Ht.
    destruct (SamplingParams.stop_strs _) as [|s0 strs]; [done|]. rewrite find_none; [done|].
    eapply Forall_impl; [exact Hs|]. intros s' Hs'. simpl in Hs'. rewrite <-stop_text_iff in Hs'. by apply not_true_iff_false.
Qed.

Lemma check_finished_settles r : settles r (check_finished r).
Proof.
  destruct (finished_reason r) as [f|] eqn:Hf.
  { unfold check_finished, finished. rewrite Hf. apply settle_done. by rewrite Hf. }
  destruct (to_abort r) eqn:Ha.
  { unfold check_finished, finished. rewrite Hf, Ha. by apply settle_abort. }
  destruct (SamplingParams.max_new_tokens (sampling_params r)) as [m|] eqn:Em.
  2:{ unfold check_finished, finished, get_max_new_tokens. rewrite Hf, Ha, Em. by apply settle_unlimited. }
  destruct (decide (m ≤ len (output_ids r))) as [Hl|Hl].
  { rewrite (settles_check_finished r _ (settle_length r m Hf Ha Em Hl)). by apply settle_length. }
  destruct (last (output_ids r)) as [x|] eqn:Hx.
  2:{ apply last_None in Hx. rewrite Hx in Hl. change (len []) with 0 in Hl.
      rewrite (settles_check_finished r (Raise IndexError)); by eapply settle_no_output; eauto with lia. }
  assert (under_limit r x) as Hu by (split_and!; eauto with lia).
  rewrite (check_under_limit r x Hu). case_bool_decide as Hg; [by eapply settle_grammar|].
  destruct (negb _ && matched_eos r x) eqn:Heos.
  { apply andb_true_iff in Heos as [H1%negb_true_iff H2%matched_eos_iff]. by eapply settle_token. }
  assert (no_stop_token r x) as Hn.
  { split_and!; [done..|]. apply andb_false_iff in Heos as [H1%negb_false_iff|H1]; [by left|right].
    rewrite <-matched_eos_iff. congruence. }
  destruct ((vocab_size r <? x) || (x <? 0)) eqn:Hnan.
  - apply orb_true_iff in Hnan. rewrite !Z.ltb_lt in Hnan. by apply settle_invalid.
  - apply orb_false_iff in Hnan as [Hv%Z.ltb_ge Hz%Z.ltb_ge]. by eapply check_stop_strs_settles.
Qed.

(** Preconditions under which [check_finished] does not raise. *)
Definition checkable (r : t) : Prop :=
  is_Some (SamplingParams.max_new_tokens (sampling_params r)) ∧ output_ids r ≠ [] ∧
  (SamplingParams.stop_strs (sampling_params r) = [] ∨ is_Some (tokenizer r)).

Lemma check_finished_returns r : checkable r → ∃ r', check_finished r = Ok r'.
Proof.
  intros ([m Hm] & Hne & Hs). pose proof (check_finished_settles r) as Hc. revert Hc.
  generalize (check_finished r) as o. intros o Hc. destruct Hc; eauto; try congruence.
  destruct Hs as [|[tk ?]]; congruence.
Qed.

(** C32: what [check_finished] does to every request, errors included, is
    exactly what [settles] prescribes.  A finished request is left alone.
    Else decide, in this order: an abort; the token limit, without which
    comparing raises [TypeError]; an empty output, which raises [IndexError];
    a terminated grammar; unless ignored, a last token among the stop ids of
    the request, the eos ids of the model, the eos id or the additional stop
    ids of the tokenizer; a last token above the vocabulary size or negative,
    which is replaced by the first eos id or stop id if there is one; and the
    first of the stop strings that occurs in the decoded text or in the
    decoded last [stop_str_max_len + 1] tokens, where a missing tokenizer
    raises [AttributeError].  A request to which nothing applies is left as
    it is. *)
Theorem req_check_finished_correct r out : check_finished r = out ↔ settles r out.
Proof.
  split; [intros <-; apply check_finished_settles|].
  apply settles_check_finished.
Qed.

(** A concrete request. *)
Definition demo_params : SamplingParams.t :=
  SamplingParams.mk (Some 8) StopNone [] 0 [7] 1%Q 1%Q 1 0%Q 0%Q 0%Q 1%Q 0 1 None None None false None.

Definition demo_req (out : list Z) : t :=
  mk "r" [1; 2; 3] [1; 2; 3] out [] demo_params None (Some 0) None None false None [] 32000
    None None "" None [] 0 0 None None 0 None 0 false true 2 None 0 0 0.

Lemma req_check_finished_correct_witness :
  check_finished (demo_req [5; 7]) = Ok (finish (FINISH_MATCHED_TOKEN 7) (demo_req [5; 7])).
Proof.
  apply req_check_finished_correct. apply settle_token; [|discriminate|reflexivity|left; left].
  repeat split. exists 8. split; [reflexivity|vm_compute; reflexivity].
Defined.

(** a sampled id equal to the vocabulary size is out of range, but
    [check_finished] lets it pass (it compares with [>]), while the next id
    is reported as a NaN. *)
Theorem req_vocab_size_off_by_one r m :
  SamplingParams.max_new_tokens (sampling_params r) = Some m →
  finished_reason r = None → to_abort r = false → grammar r = None →
  SamplingParams.ignore_eos (sampling_params r) = true →
  SamplingParams.stop_strs (sampling_params r) = [] → 0 < vocab_size r →
  len (output_ids r) + 1 < m →
  check_finished (set_output_ids (output_ids r ++ [vocab_size r]) r) =
    Ok (set_output_ids (output_ids r ++ [vocab_size r]) r) ∧
  ∃ r', check_finished (set_output_ids (output_ids r ++ [vocab_size r + 1]) r) = Ok r' ∧
    finished_reason r' = Some (FINISH_MATCHED_STR "NaN happened").
Proof.
  intros Hm Hf Ha Hg Hi Hs Hv Hl.
  split.
  - unfold check_finished, finished, get_max_new_tokens, last_output, check_stop_strs. simpl.
    rewrite Hf, Ha, Hm, Hg, Hi, last_snoc. simpl. rewrite len_app. change (len [_]) with 1.
    destruct (Z.leb_spec m (len (output_ids r) + 1)); [lia|]. simpl.
    rewrite Z.ltb_irrefl. destruct (Z.ltb_spec (vocab_size r) 0); [lia|]. simpl. by rewrite Hs.
  - unfold check_finished, finished, get_max_new_tokens, last_output. simpl.
    rewrite Hf, Ha, Hm, Hg, Hi, last_snoc. simpl. rewrite len_app. change (len [_]) with 1.
    destruct (Z.leb_spec m (len (output_ids r) + 1)); [lia|]. simpl.
    destruct (Z.ltb_spec (vocab_size r) (vocab_size r + 1)); [|lia]. simpl.
    eexists. split; reflexivity.
Qed.

Definition demo_ignore : t :=
  mk "r" [1; 2; 3] [1; 2; 3] [4] []
    (SamplingParams.mk (Some 8) StopNone [] 0 [] 1%Q 1%Q 1 0%Q 0%Q 0%Q 1%Q 0 1 None None None true None)
    None (Some 0) None None false None [] 32000
    None None "" None [] 0 0 None None 0 None 0 false true 2 None 0 0 0.

Lemma req_vocab_size_off_by_one_witness :
  check_finished (set_output_ids [4; 32000] demo_ignore) = Ok (set_output_ids [4; 32000] demo_ignore).
Proof.
  apply (req_vocab_size_off_by_one demo_ignore 8); first [reflexivity | vm_compute; reflexivity].
Defined.

(** *** The part of a request looked up in the prefix cache *)

Lemma adjust_max_prefix_ids_ok r m :
  SamplingParams.max_new_tokens (sampling_params r) = Some m → 0 < seqlen r →
  ∃ ids r', adjust_max_prefix_ids r = Ok (ids, r') ∧
    r' = set_fill_ids (origin_input_ids r ++ output_ids r) r ∧
    ids `prefix_of` origin_input_ids r ++ output_ids r ∧
    len ids = (if return_logprob r
               then Z.max 0 (Z.min (seqlen r - 1) (logprob_start_len r)) else seqlen r - 1).
Proof.
  intros Hm Hpos. unfold adjust_max_prefix_ids, get_max_new_tokens. simpl. rewrite Hm. simpl.
  rewrite len_app. fold (seqlen r). eexists _, _. split; [done|]. split; [done|].
  set (z := Z.max _ 0). assert (0 ≤ z) as Hz by lia.
  split; [rewrite py_take_nonneg by done; apply prefix_take|].
  rewrite len_py_take, len_app by done. fold (seqlen r). unfold z.
  destruct (0 <? m), (return_logprob r); lia.
Qed.

(** [init_next_round_input] always leaves at least one token to
    prefill: the key it looks up is a proper prefix of the request's tokens,
    and with a cache that returns at most as many indices as key tokens the
    extend length is positive and the prefix and extend lengths add up to the
    whole input. *)
Theorem req_init_next_round_input_correct {C} match_prefix (r : t) (c : C) m :
  SamplingParams.max_new_tokens (sampling_params r) = Some m → 0 < seqlen r →
  (∀ key, ∃ idx n hn hits c', match_prefix key c = Ok (idx, n, hn, hits, c') ∧ len idx ≤ len key) →
  ∃ r' c', init_next_round_input match_prefix r (Some c) = Ok (r', Some c') ∧
    fill_ids r' = origin_input_ids r ++ output_ids r ∧
    len (prefix_indices r') + extend_input_len r' = seqlen r ∧
    0 < extend_input_len r' ∧
    (return_logprob r = true → len (prefix_indices r') ≤ Z.max 0 (logprob_start_len r)).
Proof.
  intros Hm Hpos Hc. unfold init_next_round_input.
  set (r0 := set_fill_ids _ r).
  destruct (adjust_max_prefix_ids_ok r0 m Hm Hpos) as (ids & r1 & E & -> & Hpre & Hlen).
  rewrite E. cbn [mbind pyres_bind].
  destruct (Hc ids) as (idx & n & hn & hits & c' & Ec & Hidx). rewrite Ec. simpl.
  eexists _, _. split; [done|]. simpl. rewrite len_app. unfold seqlen in *. simpl in *.
  split; [done|]. destruct (return_logprob r); split_and!; try lia; done.
Qed.

Lemma req_init_next_round_input_correct_witness :
  ∃ r' c', init_next_round_input (fun key c => Ok (key, None, None, 0, c)) (demo_req [5]) (Some tt)
    = Ok (r', Some c') ∧ extend_input_len r' = 2 ∧ 0 < extend_input_len r'.
Proof.
  destruct (req_init_next_round_input_correct (fun key (c : unit) => Ok (key, None, None, 0, c))
    (demo_req [5]) tt 8) as (r' & c' & E & _ & _ & Hp & _); [reflexivity|reflexivity| |].
  { intros key. exists key, None, None, 0, tt. split; [reflexivity|lia]. }
  exists r', c'. split; [exact E|]. split; [|exact Hp]. vm_compute in E. injection E as <- _. reflexivity.
Defined.

End Req.
