(* ===== verification/KVAllocator.v ===== *)
(** * What the prefix caches need from a KV allocator

    The caches call only [free] and [available_size] of
    [token_to_kv_pool_allocator].  [KVAllocator] states what they rely on:
    ownership is a multiset of chunks of at most [ps] slots, and freeing a
    part of every chunk of a group returns the whole group.  (The paged
    allocator frees whole pages however many of their slots it is given, and
    the caches depend on this.)  The token allocator implements the interface
    for single slots, the paged allocator for pages. *)

From S2P Require Import Prelude Allocator PagedAllocator PagedProofs.

(** A non-empty part of a chunk. *)
Definition part_of (s c : list Z) : Prop := s ≠ [] ∧ s `sublist_of` c.

Class KVAllocator (ps : nat) (A : Type) := {
  kv_free : list Z → A → pyres A;
  kv_available : A → Z;
  (** no free group is open *)
  kv_closed : A → Prop;
  kv_owned : A → list (list Z) → Prop;
  kv_owned_perm : ∀ a, Proper ((≡ₚ) ==> iff) (kv_owned a);
  kv_free_ok : ∀ a subs cs rest,
    Forall2 part_of subs cs → kv_owned a (cs ++ rest) →
    ∃ a', kv_free (concat subs) a = Ok a' ∧ kv_owned a' rest ∧
      (kv_closed a → kv_closed a' ∧ kv_available a' = kv_available a + Z.of_nat ps * len cs);
}.
#[export] Existing Instance kv_owned_perm.

Lemma part_of_refl c : c ≠ [] → part_of c c.
Proof. by split. Qed.

(** ** The token allocator *)

Definition singletons (cs : list (list Z)) : Prop := Forall (fun c => length c = 1%nat) cs.

Lemma singleton_parts subs cs :
  Forall2 part_of subs cs → singletons cs → subs = cs.
Proof.
  induction 1 as [|s c subs cs [Hs Hp] _ IH]; intros Hc; [done|].
  apply Forall_cons in Hc as [Hc Hcs]. rewrite IH by done. f_equal.
  destruct c as [|x [|]]; [done| |done].
  inversion Hp as [|? ? ? Hn|? ? ? Hn]; subst; apply sublist_nil_r in Hn; by subst.
Qed.

Lemma singletons_len cs : singletons cs → len (concat cs) = len cs.
Proof.
  induction 1 as [|c cs Hc _ IH]; [done|]. simpl. unfold len in *.
  rewrite length_app, Hc. simpl. lia.
Qed.

#[export] Program Instance token_kv : KVAllocator 1 Base.t := {|
  kv_free idx a := Ok (Token.free idx a);
  kv_available := Token.available_size;
  kv_closed a := Base.is_not_in_free_group a = true;
  kv_owned a cs := singletons cs ∧ Token.owned a (concat cs);
|}.
Next Obligation.
  intros a cs cs' E. unfold singletons. by rewrite E.
Qed.
Next Obligation.
  intros a subs cs rest Hp [Hs Ho]. unfold singletons in Hs. apply Forall_app in Hs as [Hs Hr].
  rewrite (singleton_parts subs cs Hp Hs). rewrite concat_app in Ho.
  eexists. split; [done|]. split; [split; [done|by apply Token.free_owned]|].
  intros Hg. split; [by apply Token.free_closed|].
  rewrite Token.free_available, singletons_len by done. lia.
Qed.

(** ** The paged allocator *)

(** The chunk [c] is the beginning of the physical page [pg], in order. *)
Definition chunk_on (ps : Z) (c : list Z) (pg : Z) : Prop :=
  c ≠ [] ∧ c `prefix_of` Paged.page_slots ps pg.

Lemma page_slots_lookup ps pg i x :
  Paged.page_slots ps pg !! i = Some x → x = pg * ps + Z.of_nat i ∧ Z.of_nat i < ps.
Proof.
  unfold Paged.page_slots. rewrite list_lookup_fmap. intros (j & Hj & ->)%fmap_Some.
  unfold arange in Hj. apply lookup_seqZ in Hj as [-> Hj]. lia.
Qed.

Lemma chunk_lookup ps c pg i x : chunk_on ps c pg → c !! i = Some x → x = pg * ps + Z.of_nat i ∧ Z.of_nat i < ps.
Proof. intros [_ Hp] Hi. apply page_slots_lookup. by eapply prefix_lookup_Some. Qed.

Lemma chunk_div ps c pg : chunk_on ps c pg → Forall (fun i => i / ps = pg) c.
Proof.
  intros Hc. apply Forall_forall. intros x (i & Hi)%list_elem_of_lookup. destruct (chunk_lookup ps c pg i x Hc Hi) as [-> Hlt].
  rewrite Z.div_add_l by lia. rewrite Z.div_small by lia. lia.
Qed.

#[export] Instance chunk_on_dec ps c pg : Decision (chunk_on ps c pg).
Proof. unfold chunk_on. apply _. Defined.

(** Chunks grow at their end. *)
Lemma chunk_snoc ps c pg :
  c = [] ∨ chunk_on ps c pg → len c < ps → chunk_on ps (c ++ [pg * ps + len c]) pg.
Proof.
  intros Hc Hl. split; [by intros [_ ?]%app_nil|].
  assert (c `prefix_of` Paged.page_slots ps pg) as [k Hk] by (destruct Hc as [->|[_ ?]]; [apply prefix_nil|done]).
  assert (length (Paged.page_slots ps pg) = Z.to_nat ps) as Hlen.
  { unfold Paged.page_slots, arange. by rewrite length_fmap, length_seqZ, Z.sub_0_r. }
  destruct k as [|v k].
  - rewrite Hk, app_nil_r in Hlen. unfold len in Hl. lia.
  - assert (Paged.page_slots ps pg !! length c = Some v) as Hv by (rewrite Hk; by rewrite list_lookup_middle).
    apply page_slots_lookup in Hv as [-> _]. exists k. by rewrite Hk, <-app_assoc.
Qed.

Lemma pages_of_parts ps subs cs pgs :
  Forall2 part_of subs cs → Forall2 (chunk_on ps) cs pgs → NoDup pgs →
  pages_of ps (concat subs) ≡ₚ pgs.
Proof.
  intros Hp Hc Hnd. apply NoDup_Permutation; [apply torch_unique_NoDup|done|].
  intros x. rewrite Own.elem_of_pages_of. clear Hnd. revert pgs Hc.
  induction Hp as [|s c subs cs [Hs Hsub] _ IH]; intros pgs Hc;
    inversion_clear Hc as [|? pg ? pgs' Hall%chunk_div Hrest].
  { simpl. set_solver. }
  simpl. setoid_rewrite elem_of_app. rewrite elem_of_cons, <-IH by done.
  assert (∀ i, i ∈ s → i / ps = pg) as Hpg.
  { intros i Hi. apply (proj1 (Forall_forall _ _) Hall). by eapply elem_of_sublist. }
  split.
  - intros (i & [Hi|Hi] & ->); [left; by apply Hpg|right; eauto].
  - intros [->|(i & Hi & ->)]; [|by eauto]. destruct s as [|i s]; [done|].
    exists i. split; [left; left|]. symmetry. apply Hpg. left.
Qed.

(** Chunks on distinct pages of the pool; its slots fit the 32-bit entries of
    the request table. *)
Definition paged_holds (ps : nat) (p : Paged.t) (cs : list (list Z)) : Prop :=
  (Paged.page_size p = Z.of_nat ps ∧ (Paged.num_pages p + 1) * Z.of_nat ps ≤ 2 ^ 31) ∧
  ∃ pgs, Forall2 (chunk_on (Z.of_nat ps)) cs pgs ∧ Own.owned p pgs.

Lemma paged_holds_perm ps p cs cs' : cs ≡ₚ cs' → paged_holds ps p cs → paged_holds ps p cs'.
Proof.
  intros E [Hps (pgs & Hf & Ho)]. split; [done|].
  destruct (Permutation_Forall2 E Hf) as (pgs' & E' & Hf').
  exists pgs'. split; [done|]. by rewrite <-E'.
Qed.

#[export] Program Instance paged_kv (ps : nat) : KVAllocator ps Paged.t := {|
  kv_free := Paged.free;
  kv_available := Paged.available_size;
  kv_closed p := Base.is_not_in_free_group (Paged.base p) = true;
  kv_owned := paged_holds ps;
|}.
Next Obligation.
  intros ps p cs cs' E. split; apply paged_holds_perm; by rewrite E.
Qed.
Next Obligation.
  intros ps p subs cs rest Hp [[Hps Hsm] (pgs & Hf & Ho)].
  apply Forall2_app_inv_l in Hf as (pg1 & pg2 & Hf1 & Hf2 & ->).
  assert (NoDup pg1) as Hnd.
  { pose proof (Own.paged_owned_NoDup _ _ Ho) as X. rewrite !NoDup_app in X. tauto. }
  pose proof (pages_of_parts _ _ _ _ Hp Hf1 Hnd) as Hpg.
  destruct (Own.free_ok p (concat subs) pg2) as (p' & E & Ho' & Hps' & Hn & Hg).
  { rewrite Hps, Hpg. done. }
  exists p'. split_and!; [done|split; [split; congruence|eauto]|].
  intros Hc. split; [congruence|].
  rewrite (Own.paged_free_available p (concat subs) p' Hc E), Hps, (len_perm _ _ Hpg).
  unfold len. rewrite (Forall2_length _ _ _ Hf1). lia.
Qed.
