(* ===== verification/FreeGroups.v ===== *)
(** * Free groups

    A client brackets the frees of one batch between [free_group_begin] and
    [free_group_end] ([mem_cache/allocator.py]): the freed slots are collected
    and returned together.  [FreeGroups] is the interface of both allocators:
    ownership does not change at the brackets, and frees keep a group open. *)

From S2P Require Import Prelude Allocator PagedAllocator PagedProofs KVAllocator.

Class FreeGroups (ps : nat) (A : Type) `{KVAllocator ps A} := {
  fg_begin : A → A;
  fg_end : A → pyres A;
  fg_open : A → Prop;
  fg_nonneg : ∀ a cs, kv_owned a cs → 0 ≤ kv_available a;
  fg_begin_ok : ∀ a cs, kv_closed a → kv_owned a cs → kv_owned (fg_begin a) cs ∧ fg_open (fg_begin a);
  fg_free_open : ∀ idx a a', fg_open a → kv_free idx a = Ok a' → fg_open a';
  fg_end_ok : ∀ a cs, fg_open a → kv_owned a cs →
    ∃ a', fg_end a = Ok a' ∧ kv_closed a' ∧ kv_owned a' cs;
}.

#[export] Program Instance token_groups : FreeGroups 1 Base.t := {|
  fg_begin := Base.free_group_begin;
  fg_end a := Ok (Base.free_group_end Token.free a);
  fg_open a := Base.is_not_in_free_group a = false;
|}.
Next Obligation.
  intros a cs _. simpl. unfold Token.available_size. len_pos. lia.
Qed.
Next Obligation.
  intros a cs Hc [Hs [H1 H2 H3]]. split; [|done]. split; [done|]. split; [|done..].
  simpl. rewrite <-H1. unfold Base.held, Base.pending. simpl. change (Base.is_not_in_free_group a = true) in Hc. by rewrite Hc.
Qed.
Next Obligation.
  intros idx a a' Hg E. injection E as <-. unfold Token.free. destruct (_ =? _); [done|]. by rewrite Hg.
Qed.
Next Obligation.
  intros a cs Hg [Hs Ho]. eexists. split; [done|]. split; [|split; [done|by apply Token.group_end_owned]].
  unfold Base.free_group_end. simpl. destruct (Base.free_group a); [done|]. by apply Token.free_closed.
Qed.

Lemma paged_free_frame idx p p' : Paged.free idx p = Ok p' →
  Paged.page_size p' = Paged.page_size p ∧ Paged.num_pages p' = Paged.num_pages p ∧
  Base.is_not_in_free_group (Paged.base p') = Base.is_not_in_free_group (Paged.base p).
Proof.
  unfold Paged.free. destruct (_ =? _); [intros E; by injection E as <-|]. intros E.
  apply pyres_bind_ok in E as (_ & _ & E). injection E as <-. unfold Paged.page_size. simpl.
  destruct (Base.is_not_in_free_group (Paged.base p)) eqn:Eg; [destruct (Base.need_sort (Paged.base p))|]; by rewrite ?Eg.
Qed.

#[export] Program Instance paged_groups (ps : nat) : FreeGroups ps Paged.t := {|
  fg_begin := Paged.free_group_begin;
  fg_end := Paged.free_group_end;
  fg_open p := Base.is_not_in_free_group (Paged.base p) = false;
|}.
Next Obligation.
  intros ps p cs [[Hp _] _]. simpl. unfold Paged.available_size, Base.available_size.
  change (Base.page_size (Paged.base p)) with (Paged.page_size p). rewrite Hp. len_pos. nia.
Qed.
Next Obligation.
  intros ps p cs Hc [Hp (pgs & Hf & [H1 H2 H3])]. split; [|done]. split; [done|]. exists pgs. split; [done|]. split; [|done..].
  simpl. rewrite <-H1. unfold Base.held, Own.pending. simpl. change (Base.is_not_in_free_group (Paged.base p) = true) in Hc. by rewrite Hc.
Qed.
Next Obligation.
  intros ps idx p p' Hg E. destruct (paged_free_frame _ _ _ E) as (_ & _ & E2). congruence.
Qed.
Next Obligation.
  intros ps p cs Hg [[Hp Hsm] (pgs & Hf & Ho)]. destruct (Own.group_end_ok p pgs Ho Hg) as (p' & E & Ho' & Hc).
  exists p'. split; [done|]. split; [done|].
  assert (Paged.page_size p' = Paged.page_size p ∧ Paged.num_pages p' = Paged.num_pages p) as [E1 E2].
  { unfold Paged.free_group_end in E. simpl in E. destruct (Base.free_group (Paged.base p)); [by injection E as <-|].
    destruct (paged_free_frame _ _ _ E) as (-> & -> & _). done. }
  split; [by rewrite E1, E2|]. by exists pgs.
Qed.
