(* ===== verification/RadixCache.v ===== *)
(** * Radix prefix cache ([python/sglang/srt/mem_cache/radix_cache.py])

    [TreeNode] objects live in a store [nodes] indexed by object identity (the
    node's [id]); a reference is an identity, so the aliasing between the tree
    and the nodes held by requests is explicit.  Nodes removed from the tree
    stay in the store, as the Python objects do while something refers to
    them.  [children] is an insertion-ordered dict.

    A child key is [key[0]] for page size 1 and [tuple(key[:page_size])]
    otherwise; both are modelled as the list of the first [page_size] tokens.
    Reading the slots of a node whose [value] is [None] yields []; nodes in
    the tree always have a value (part of the invariant in [RadixInv]).

    Parameters: [hash], Python's built-in hash of a tuple of ints; [clock],
    the successive readings of [time.monotonic()]. *)

From S2P Require Import Prelude.

(** ** KV cache events ([python/sglang/srt/disaggregation/kv_events.py]) *)

Inductive kv_event :=
  | BlockStored (block_hashes : list Z) (parent_block_hash : option Z)
      (token_ids : list Z) (block_size : Z) (lora_id : option Z)
  | BlockRemoved (block_hashes : list Z)
  | AllBlocksCleared.

#[export] Instance kv_event_eq_dec : EqDecision kv_event.
Proof. solve_decision. Defined.

(** ** Tree nodes *)

Record TreeNode := mkNode {
  children : list (list Z * nat);
  parent : option nat;
  key : list Z;
  value : option (list Z);
  lock_ref : Z;
  last_access_time : Z;
  hit_count : Z;
  loading : bool;
  host_ref_counter : Z;
  host_value : option (list Z);
  hash_value : option (list string);
  id : nat;
}.

(** [TreeNode(id)] created at time [now]. *)
Definition new_TreeNode (id : nat) (now : Z) : TreeNode :=
  mkNode [] None [] None 0 now 0 false 0 None None id.

#[export] Instance TreeNode_inhabited : Inhabited TreeNode := populate (new_TreeNode 0 0).

Definition evicted (nd : TreeNode) : bool := bool_decide (value nd = None).
Definition backuped (nd : TreeNode) : bool := bool_decide (host_value nd ≠ None).

(** The slots of a node. *)
Definition slots (nd : TreeNode) : list Z := default [] (value nd).

Definition set_children (x : list (list Z * nat)) (nd : TreeNode) : TreeNode :=
  mkNode x (parent nd) (key nd) (value nd) (lock_ref nd) (last_access_time nd)
    (hit_count nd) (loading nd) (host_ref_counter nd) (host_value nd) (hash_value nd) (id nd).
Definition set_parent (x : option nat) (nd : TreeNode) : TreeNode :=
  mkNode (children nd) x (key nd) (value nd) (lock_ref nd) (last_access_time nd)
    (hit_count nd) (loading nd) (host_ref_counter nd) (host_value nd) (hash_value nd) (id nd).
Definition set_kv (k : list Z) (v : option (list Z)) (nd : TreeNode) : TreeNode :=
  mkNode (children nd) (parent nd) k v (lock_ref nd) (last_access_time nd)
    (hit_count nd) (loading nd) (host_ref_counter nd) (host_value nd) (hash_value nd) (id nd).
Definition set_lock_ref (x : Z) (nd : TreeNode) : TreeNode :=
  mkNode (children nd) (parent nd) (key nd) (value nd) x (last_access_time nd)
    (hit_count nd) (loading nd) (host_ref_counter nd) (host_value nd) (hash_value nd) (id nd).
Definition set_last_access_time (x : Z) (nd : TreeNode) : TreeNode :=
  mkNode (children nd) (parent nd) (key nd) (value nd) (lock_ref nd) x
    (hit_count nd) (loading nd) (host_ref_counter nd) (host_value nd) (hash_value nd) (id nd).
Definition set_host_ref_counter (x : Z) (nd : TreeNode) : TreeNode :=
  mkNode (children nd) (parent nd) (key nd) (value nd) (lock_ref nd) (last_access_time nd)
    (hit_count nd) (loading nd) x (host_value nd) (hash_value nd) (id nd).
Definition set_host_value (x : option (list Z)) (nd : TreeNode) : TreeNode :=
  mkNode (children nd) (parent nd) (key nd) (value nd) (lock_ref nd) (last_access_time nd)
    (hit_count nd) (loading nd) (host_ref_counter nd) x (hash_value nd) (id nd).

Definition protect_host (nd : TreeNode) : TreeNode :=
  set_host_ref_counter (host_ref_counter nd + 1) nd.

Definition release_host (nd : TreeNode) : pyres TreeNode :=
  if 0 <? host_ref_counter nd
  then mret (set_host_ref_counter (host_ref_counter nd - 1) nd)
  else Raise RuntimeError.

Definition get_last_hash_value (nd : TreeNode) : option string :=
  match hash_value nd with None => None | Some l => last l end.

(** ** Key matching *)

Fixpoint _key_match_page_size1 (key0 key1 : list Z) : nat :=
  match key0, key1 with
  | k0 :: key0, k1 :: key1 =>
      if decide (k0 = k1) then S (_key_match_page_size1 key0 key1) else 0
  | _, _ => 0
  end.

(** The [while] loop from position [i]; every round advances by [page_size],
    so [min_len] rounds are enough when [page_size] is positive. *)
Fixpoint key_match_loop (fuel i page_size min_len : nat) (key0 key1 : list Z) : nat :=
  match fuel with
  | O => i
  | S fuel =>
      if (i <? min_len)%nat then
        if decide (take page_size (drop i key0) = take page_size (drop i key1))
        then key_match_loop fuel (i + page_size) page_size min_len key0 key1
        else i
      else i
  end.

Definition _key_match_paged (page_size : nat) (key0 key1 : list Z) : nat :=
  let min_len := Nat.min (length key0) (length key1) in
  key_match_loop min_len 0 page_size min_len key0 key1.

(** ** The cache *)

Record RadixCache := mkCache {
  page_size : nat;
  disable : bool;
  enable_kv_cache_events : bool;
  kv_event_queue : list kv_event;
  nodes : gmap nat TreeNode;
  (** [TreeNode.counter] *)
  counter : nat;
  root_node : nat;
  evictable_size_ : Z;
  protected_size_ : Z;
  (** number of clock readings so far *)
  ticks : nat;
}.

Record MatchResult := mkMatch {
  device_indices : list Z;
  last_device_node : nat;
  last_host_node : nat;
  host_hit_length : Z;
}.

Definition node_at (c : RadixCache) (n : nat) : TreeNode := nodes c !!! n.

Definition set_nodes (x : gmap nat TreeNode) (c : RadixCache) : RadixCache :=
  mkCache (page_size c) (disable c) (enable_kv_cache_events c) (kv_event_queue c) x
    (counter c) (root_node c) (evictable_size_ c) (protected_size_ c) (ticks c).
Definition set_sizes (ev pr : Z) (c : RadixCache) : RadixCache :=
  mkCache (page_size c) (disable c) (enable_kv_cache_events c) (kv_event_queue c) (nodes c)
    (counter c) (root_node c) ev pr (ticks c).
Definition set_queue (q : list kv_event) (c : RadixCache) : RadixCache :=
  mkCache (page_size c) (disable c) (enable_kv_cache_events c) q (nodes c)
    (counter c) (root_node c) (evictable_size_ c) (protected_size_ c) (ticks c).

(** Assign to fields of the object [n]. *)
Definition upd (n : nat) (f : TreeNode → TreeNode) (c : RadixCache) : RadixCache :=
  set_nodes (alter f n (nodes c)) c.

Definition key_match_fn (c : RadixCache) (key0 key1 : list Z) : nat :=
  if (page_size c =? 1)%nat then _key_match_page_size1 key0 key1
  else _key_match_paged (page_size c) key0 key1.

Definition get_child_key_fn (c : RadixCache) (key : list Z) : list Z :=
  take (page_size c) key.

Definition evictable_size (c : RadixCache) : Z := evictable_size_ c.
Definition protected_size (c : RadixCache) : Z := protected_size_ c.

Section cache.
Context (hash : list Z → Z) (clock : nat → Z).

(** A clock reading. *)
Definition now (c : RadixCache) : Z := clock (ticks c).
Definition tick (c : RadixCache) : RadixCache :=
  mkCache (page_size c) (disable c) (enable_kv_cache_events c) (kv_event_queue c) (nodes c)
    (counter c) (root_node c) (evictable_size_ c) (protected_size_ c) (S (ticks c)).

(** [node.last_access_time = time.monotonic()] *)
Definition touch (n : nat) (c : RadixCache) : RadixCache :=
  upd n (set_last_access_time (now c)) (tick c).

(** [TreeNode()]: allocate, stamped with the current time. *)
Definition alloc_node (c : RadixCache) : nat * RadixCache :=
  (counter c,
   mkCache (page_size c) (disable c) (enable_kv_cache_events c) (kv_event_queue c)
     (<[counter c := new_TreeNode (counter c) (now c)]> (nodes c))
     (S (counter c)) (root_node c) (evictable_size_ c) (protected_size_ c) (S (ticks c))).

(** *** Events *)

(** [range(0, len(key), page_size)] pages of a key. *)
Definition pages (ps : nat) (k : list Z) : list (list Z) :=
  (fun i => take ps (drop (i * ps) k)) <$> seq 0 ((length k + ps - 1) / ps)%nat.

Fixpoint store_events (parent_block_hash : option Z) (pgs : list (list Z)) : list kv_event :=
  match pgs with
  | [] => []
  | page_tokens :: pgs =>
      match page_tokens with
      | [] => store_events parent_block_hash pgs
      | _ =>
          let block_hash := hash page_tokens in
          BlockStored [block_hash] parent_block_hash page_tokens (len page_tokens) None
            :: store_events (Some block_hash) pgs
      end
  end.

Definition _record_store_event (n : nat) (c : RadixCache) : RadixCache :=
  if enable_kv_cache_events c then
    let node := node_at c n in
    let parent_block_hash :=
      match parent node with
      | None => None
      | Some p =>
          if negb (n =? root_node c)%nat then None
          else
            let pk := key (node_at c p) in
            let last_page_start := ((length pk - 1) / page_size c * page_size c)%nat in
            Some (hash (drop last_page_start pk))
      end in
    set_queue (kv_event_queue c
               ++ store_events parent_block_hash (pages (page_size c) (key node))) c
  else c.

Definition _record_remove_event (n : nat) (c : RadixCache) : RadixCache :=
  if enable_kv_cache_events c then
    set_queue (kv_event_queue c ++
      (omap (fun page_tokens => match page_tokens with
                                | [] => None
                                | _ => Some (BlockRemoved [hash page_tokens]) end)
        (pages (page_size c) (key (node_at c n))))) c
  else c.

Definition _record_all_cleared_event (c : RadixCache) : RadixCache :=
  if enable_kv_cache_events c
  then set_queue (kv_event_queue c ++ [AllBlocksCleared]) c else c.

Definition take_events (c : RadixCache) : list kv_event * RadixCache :=
  if negb (enable_kv_cache_events c) then ([], c)
  else (kv_event_queue c, set_queue [] c).

(** *** Construction *)

Definition reset (c : RadixCache) : RadixCache :=
  let '(root, c) := alloc_node c in
  let c := upd root (fun nd => set_lock_ref 1 (set_host_value (Some []) (set_kv [] (Some []) nd))) c in
  let c := mkCache (page_size c) (disable c) (enable_kv_cache_events c) (kv_event_queue c)
             (nodes c) (counter c) root 0 0 (ticks c) in
  _record_all_cleared_event c.

Definition init_RadixCache (page_size : nat) (disable enable_kv_cache_events : bool) : RadixCache :=
  reset (mkCache page_size disable enable_kv_cache_events [] ∅ 0 0 0 0 0).

(** *** Splitting, matching, inserting *)

Definition _split_node (k : list Z) (child : nat) (split_len : nat) (c : RadixCache)
    : nat * RadixCache :=
  let c := _record_remove_event child c in
  let '(new_node, c) := alloc_node c in
  let ch := node_at c child in
  let c := upd new_node (fun nd =>
    set_kv (take split_len (key ch)) (take split_len <$> value ch)
      (set_lock_ref (lock_ref ch)
        (set_parent (parent ch)
          (set_children [(get_child_key_fn c (drop split_len k), child)] nd)))) c in
  let c := upd child (fun nd =>
    set_kv (drop split_len (key nd)) (drop split_len <$> value nd)
      (set_parent (Some new_node) nd)) c in
  let c := match parent (node_at c new_node) with
           | Some p => upd p (fun nd =>
               set_children (od_set (get_child_key_fn c k) new_node (children nd)) nd) c
           | None => c
           end in
  let c := _record_store_event new_node c in
  let c := _record_store_event child c in
  (new_node, c).

Fixpoint match_loop (fuel : nat) (node : nat) (k : list Z) (value : list (list Z))
    (c : RadixCache) : pyres (list (list Z) * nat * RadixCache) :=
  match fuel with
  | O => Raise OutOfFuel
  | S fuel =>
      match k, od_get (get_child_key_fn c k) (children (node_at c node)) with
      | _ :: _, Some child =>
          let c := touch child c in
          let prefix_len := key_match_fn c (key (node_at c child)) k in
          if (prefix_len <? length (key (node_at c child)))%nat then
            let '(new_node, c) := _split_node (key (node_at c child)) child prefix_len c in
            mret (value ++ [slots (node_at c new_node)], new_node, c)
          else
            match_loop fuel child (drop prefix_len k)
              (value ++ [slots (node_at c child)]) c
      | _, _ => mret (value, node, c)
      end
  end.

(** [get_child_key_fn(key)] before the loop raises on an empty key when
    [page_size] is 1. *)
Definition _match_prefix_helper (node : nat) (k : list Z) (c : RadixCache)
    : pyres (list (list Z) * nat * RadixCache) :=
  let c := touch node c in
  if (page_size c =? 1)%nat && bool_decide (k = []) then Raise IndexError
  else match_loop (S (length k)) node k [] c.

Definition match_prefix (k : list Z) (c : RadixCache) : pyres (MatchResult * RadixCache) :=
  if disable c || bool_decide (k = [])
  then mret (mkMatch [] (root_node c) (root_node c) 0, c)
  else
    let k := if (page_size c =? 1)%nat then k
             else take (length k / page_size c * page_size c)%nat k in
    '(value, last_node, c) ← _match_prefix_helper (root_node c) k c;
    mret (mkMatch (concat value) last_node last_node 0, c).

Fixpoint insert_loop (fuel : nat) (node : nat) (k v : list Z) (total_prefix_length : Z)
    (c : RadixCache) : pyres (nat * list Z * list Z * Z * RadixCache) :=
  match fuel with
  | O => Raise OutOfFuel
  | S fuel =>
      match k, od_get (get_child_key_fn c k) (children (node_at c node)) with
      | _ :: _, Some node =>
          let c := touch node c in
          let prefix_len := key_match_fn c (key (node_at c node)) k in
          let total_prefix_length := total_prefix_length + Z.of_nat prefix_len in
          let k := drop prefix_len k in
          let v := drop prefix_len v in
          let '(node, c) :=
            if (prefix_len <? length (key (node_at c node)))%nat
            then _split_node (key (node_at c node)) node prefix_len c
            else (node, c) in
          insert_loop fuel node k v total_prefix_length c
      | _, _ => mret (node, k, v, total_prefix_length, c)
      end
  end.

Definition _insert_helper (node : nat) (k v : list Z) (c : RadixCache)
    : pyres (Z * RadixCache) :=
  let c := touch node c in
  match k with
  | [] => mret (0, c)
  | _ =>
      '(node, k, v, total_prefix_length, c) ← insert_loop (S (length k)) node k v 0 c;
      match k with
      | [] => mret (total_prefix_length, c)
      | _ =>
          let '(new_node, c) := alloc_node c in
          let c := upd new_node (fun nd => set_kv k (Some v) (set_parent (Some node) nd)) c in
          let c := upd node (fun nd =>
            set_children (od_set (get_child_key_fn c k) new_node (children nd)) nd) c in
          let c := set_sizes (evictable_size_ c + len v) (protected_size_ c) c in
          let c := _record_store_event new_node c in
          mret (total_prefix_length, c)
      end
  end.

(** [value=None] stores the key itself. *)
Definition insert (k : list Z) (value : option (list Z)) (c : RadixCache)
    : pyres (Z * RadixCache) :=
  if disable c then mret (0, c)
  else _insert_helper (root_node c) k (default k value) c.

(** *** Locks

    The loops walk parent pointers up to the root; the number of objects in
    the store bounds the length of the walk.  A missing parent would raise
    [AttributeError] in the source ([None] has no attributes). *)

Fixpoint inc_loop (fuel : nat) (node : nat) (delta : Z) (c : RadixCache)
    : pyres (Z * RadixCache) :=
  if (node =? root_node c)%nat then mret (delta, c) else
  match fuel with
  | O => Raise OutOfFuel
  | S fuel =>
      let nd := node_at c node in
      let n := len (slots nd) in
      let '(c, delta) :=
        if lock_ref nd =? 0
        then (set_sizes (evictable_size_ c - n) (protected_size_ c + n) c, delta - n)
        else (c, delta) in
      let c := upd node (fun nd => set_lock_ref (lock_ref nd + 1) nd) c in
      match parent nd with
      | Some p => inc_loop fuel p delta c
      | None => Raise RuntimeError
      end
  end.

Definition inc_lock_ref (node : nat) (c : RadixCache) : pyres (Z * RadixCache) :=
  if disable c then mret (0, c) else inc_loop (size (nodes c)) node 0 c.

Fixpoint dec_loop (fuel : nat) (node : nat) (delta : Z) (c : RadixCache)
    : pyres (Z * RadixCache) :=
  if (node =? root_node c)%nat then mret (delta, c) else
  match fuel with
  | O => Raise OutOfFuel
  | S fuel =>
      let nd := node_at c node in
      let n := len (slots nd) in
      let '(c, delta) :=
        if lock_ref nd =? 1
        then (set_sizes (evictable_size_ c + n) (protected_size_ c - n) c, delta + n)
        else (c, delta) in
      let c := upd node (fun nd => set_lock_ref (lock_ref nd - 1) nd) c in
      match parent nd with
      | Some p => dec_loop fuel p delta c
      | None => Raise RuntimeError
      end
  end.

Definition dec_lock_ref (node : nat) (c : RadixCache) : pyres (Z * RadixCache) :=
  if disable c then mret (0, c) else dec_loop (size (nodes c)) node 0 c.

(** *** Traversals *)

(** The stack loops of [_collect_leaves] and [_total_size_helper]: the top of
    the stack is the head of the list, so [stack.extend] prepends in reverse. *)
Fixpoint collect_loop (fuel : nat) (stack : list nat) (ret : list nat) (c : RadixCache)
    : pyres (list nat) :=
  match stack with
  | [] => mret ret
  | cur :: stack =>
      match fuel with
      | O => Raise OutOfFuel
      | S fuel =>
          match children (node_at c cur) with
          | [] => collect_loop fuel stack (ret ++ [cur]) c
          | ch => collect_loop fuel (reverse ch.*2 ++ stack) ret c
          end
      end
  end.

Definition _collect_leaves (c : RadixCache) : pyres (list nat) :=
  collect_loop (size (nodes c)) [root_node c] [] c.

Fixpoint total_size_loop (fuel : nat) (stack : list nat) (total_size : Z) (c : RadixCache)
    : pyres Z :=
  match stack with
  | [] => mret total_size
  | cur :: stack =>
      match fuel with
      | O => Raise OutOfFuel
      | S fuel =>
          let nd := node_at c cur in
          let live := filter (fun n => evicted (node_at c n) = false) (children nd).*2 in
          total_size_loop fuel (reverse live ++ stack) (total_size + len (slots nd)) c
      end
  end.

Definition total_size (c : RadixCache) : pyres Z :=
  total_size_loop (size (nodes c)) [root_node c] 0 c.

(** [all_values_flatten]: depth first, a child's value before its subtree;
    [torch.cat] of an empty list raises. *)
Fixpoint flatten_loop (fuel : nat) (node : nat) (c : RadixCache) : pyres (list (list Z)) :=
  match fuel with
  | O => Raise OutOfFuel
  | S fuel =>
      foldr (fun child acc =>
               vs ← flatten_loop fuel child c;
               rest ← acc;
               mret (slots (node_at c child) :: vs ++ rest))
            (mret []) (children (node_at c node)).*2
  end.

Definition all_values_flatten (c : RadixCache) : pyres (list Z) :=
  values ← flatten_loop (size (nodes c)) (root_node c) c;
  match values with [] => Raise RuntimeError | _ => mret (concat values) end.

(** *** Eviction *)

(** The key the [for] loop of [_delete_leaf] stops at: the key of [node], or
    the last key when no child is [node]. *)
Fixpoint leaf_key (node : nat) (items : list (list Z * nat)) : option (list Z) :=
  match items with
  | [] => None
  | [(k, _)] => Some k
  | (k, v) :: items => if (v =? node)%nat then Some k else leaf_key node items
  end.

Definition _delete_leaf (node : nat) (c : RadixCache) : pyres RadixCache :=
  let nd := node_at c node in
  match parent nd with
  | None => Raise RuntimeError
  | Some p =>
      match leaf_key node (children (node_at c p)) with
      | None => Raise KeyError
      | Some k =>
          let c := upd p (fun nd => set_children (od_del k (children nd)) nd) c in
          mret (set_sizes (evictable_size_ c - len (key nd)) (protected_size_ c) c)
      end
  end.

End cache.

(** ** Priority queues *)

(** The order of nodes, by which [heapq] keeps the queue of leaves. *)
Definition __lt__ (self other : TreeNode) : bool :=
  last_access_time self <? last_access_time other.

(** A strict weak order: what a heap needs of the comparison of its elements. *)
Class WeakOrder (lt : nat → nat → bool) : Prop := {
  lt_asym : ∀ x y, lt x y = true → lt y x = false;
  lt_between : ∀ x y z, lt x z = true → lt x y = true ∨ lt y z = true;
}.

#[export] Instance node_lt_order (c : RadixCache) :
  WeakOrder (fun m n => __lt__ (node_at c m) (node_at c n)).
Proof. split; unfold __lt__; intros *; rewrite ?Z.ltb_lt, ?Z.ltb_ge; lia. Qed.

(** [heapq] on nodes compared by [lt]: popping returns an element below which
    there is none; which one among equals is not specified. *)
Class HeapQ := {
  heappop : (nat → nat → bool) → list nat → option (nat * list nat);
  heappop_nil : ∀ lt, heappop lt [] = None;
  heappop_cons : ∀ lt `{!WeakOrder lt} x l,
    ∃ y l', heappop lt (x :: l) = Some (y, l') ∧ x :: l ≡ₚ y :: l' ∧
            ∀ z, z ∈ x :: l → lt z y = false;
}.

(** An instance: pop the leftmost minimum. *)
Fixpoint pop_min (lt : nat → nat → bool) (x : nat) (l : list nat) : nat * list nat :=
  match l with
  | [] => (x, [])
  | y :: l' =>
      let '(m, r) := pop_min lt y l' in
      if lt m x then (m, x :: r) else (x, l)
  end.

Lemma lt_irrefl lt `{!WeakOrder lt} x : lt x x = false.
Proof. destruct (lt x x) eqn:E; [|done]. rewrite <-E. by apply lt_asym. Qed.

Lemma pop_min_spec lt `{!WeakOrder lt} x l :
  x :: l ≡ₚ (pop_min lt x l).1 :: (pop_min lt x l).2 ∧
  ∀ z, z ∈ x :: l → lt z (pop_min lt x l).1 = false.
Proof.
  revert x. induction l as [|y l IH]; intros x; simpl.
  { split; [done|]. intros z ->%list_elem_of_singleton. by apply lt_irrefl. }
  destruct (IH y) as [IH1 IH2]. destruct (pop_min lt y l) as [m r]. simpl in *.
  destruct (lt m x) eqn:E; simpl; (split; [|]).
  - rewrite IH1. apply Permutation_swap.
  - intros z [->|Hz]%elem_of_cons; [by apply lt_asym|]. by apply IH2.
  - done.
  - intros z [->|Hz]%elem_of_cons; [by apply lt_irrefl|].
    destruct (lt z x) eqn:Ez; [|done].
    destruct (lt_between z m x Ez) as [H|H]; [|congruence]. by rewrite IH2 in H.
Qed.

#[export] Instance leftmost_heapq : HeapQ.
Proof.
  refine {| heappop lt l :=
    match l with [] => None | x :: l => Some (pop_min lt x l) end |}.
  - done.
  - intros lt ? x l. destruct (pop_min_spec lt x l) as [H1 H2].
    destruct (pop_min lt x l) as [y l']. eauto.
Defined.

(** Inserting two keys that share a prefix splits the first one's node. *)
Example insert_splits :
  match ('(_, c) ← insert (fun _ => 0) Z.of_nat [1; 2; 3] (Some [10; 20; 30])
                     (init_RadixCache Z.of_nat 1 false false);
         '(n, c) ← insert (fun _ => 0) Z.of_nat [1; 2; 4; 5] (Some [11; 21; 40; 50]) c;
         '(m, c) ← match_prefix (fun _ => 0) Z.of_nat [1; 2; 4; 9] c;
         ts ← total_size c;
         mret (n, device_indices m, evictable_size_ c, ts)) with
  | Ok r => r = (2, [10; 20; 40], 5, 5)
  | Raise _ => False
  end.
Proof. vm_compute. reflexivity. Qed.
