(* ===== verification/RadixInv.v ===== *)
(** * Invariant of the radix tree

    [repr c G H] describes a consistent cache.  [G] is the abstract view: it
    gives every node of the tree its path, the (token, slot) pairs from the
    root down to the end of the node's key.  [H] is the multiset of nodes held
    by requests (each [inc_lock_ref] not yet undone by [dec_lock_ref]).

    The content of the cache is the prefix-closed set [stored G] of paths.
    The lemmas here show that the tree is a trie: a path determines its node,
    and no node ends in the middle of another node's edge. *)

From S2P Require Import Prelude RadixCache.

(** ** Sums over the nodes of the tree *)

Definition gsum {A} (f : nat → A → Z) (G : gmap nat A) : Z :=
  map_fold (fun n l acc => f n l + acc) 0 G.

Lemma gsum_empty {A} (f : nat → A → Z) : gsum f ∅ = 0.
Proof. apply map_fold_empty. Qed.

Lemma gsum_insert {A} (f : nat → A → Z) G n l :
  G !! n = None → gsum f (<[n := l]> G) = f n l + gsum f G.
Proof.
  intros Hn. unfold gsum. rewrite map_fold_insert_L; [done| |done].
  intros. lia.
Qed.

Lemma gsum_delete {A} (f : nat → A → Z) G n l :
  G !! n = Some l → gsum f G = f n l + gsum f (delete n G).
Proof.
  intros Hn. rewrite <-gsum_insert by apply lookup_delete_eq.
  by rewrite insert_delete_id.
Qed.

Lemma gsum_ext {A} (f g : nat → A → Z) G :
  (∀ n l, G !! n = Some l → f n l = g n l) → gsum f G = gsum g G.
Proof.
  induction G as [|n l G Hn IH] using map_ind; intros H.
  { by rewrite !gsum_empty. }
  rewrite !gsum_insert by done. rewrite H by apply lookup_insert_eq. f_equal.
  apply IH. intros m k Hm. apply H. rewrite lookup_insert_ne; [done|]. naive_solver.
Qed.

Lemma gsum_nonneg {A} (f : nat → A → Z) G :
  (∀ n l, G !! n = Some l → 0 ≤ f n l) → 0 ≤ gsum f G.
Proof.
  induction G as [|n l G Hn IH] using map_ind; intros H.
  { by rewrite gsum_empty. }
  rewrite gsum_insert by done.
  assert (0 ≤ f n l) by (apply H, lookup_insert_eq).
  assert (0 ≤ gsum f G); [|lia]. apply IH. intros m k Hm. apply H.
  rewrite lookup_insert_ne; [done|]. naive_solver.
Qed.

Lemma gsum_zero {A} (f : nat → A → Z) G :
  (∀ n l, G !! n = Some l → 0 ≤ f n l) → gsum f G = 0 →
  ∀ n l, G !! n = Some l → f n l = 0.
Proof.
  intros Hf H0 n l Hn. rewrite (gsum_delete f G n l Hn) in H0.
  assert (0 ≤ gsum f (delete n G)).
  { apply gsum_nonneg. intros m k [_ Hm]%lookup_delete_Some. by apply Hf. }
  pose proof (Hf n l Hn). lia.
Qed.

(** Changing the summand at one node. *)
Lemma gsum_update {A} (f g : nat → A → Z) G n l :
  G !! n = Some l → (∀ m k, G !! m = Some k → m ≠ n → g m k = f m k) →
  gsum g G = gsum f G - f n l + g n l.
Proof.
  intros Hn H. rewrite (gsum_delete f G n l Hn), (gsum_delete g G n l Hn).
  rewrite (gsum_ext g f (delete n G)); [lia|].
  intros m k [Hne Hm]%lookup_delete_Some. by apply H.
Qed.

(** ** The invariant *)

(** A path: tokens with the KV slots that hold them. *)
Abbreviation path := (list (Z * Z)).

(** Number of holders whose path extends [l]. *)
Definition holders (G : gmap nat path) (H : list nat) (l : path) : Z :=
  len (filter (fun h => l `prefix_of` default [] (G !! h)) H).

Definition weight (c : RadixCache) (n : nat) : Z := len (key (node_at c n)).

Definition evictable_weight (c : RadixCache) (n : nat) (_ : path) : Z :=
  if decide (n = root_node c) then 0
  else if decide (lock_ref (node_at c n) = 0) then weight c n else 0.

Definition protected_weight (c : RadixCache) (n : nat) (_ : path) : Z :=
  if decide (n = root_node c) then 0
  else if decide (lock_ref (node_at c n) = 0) then 0 else weight c n.

(** A non-root node: linked from its parent under its first page, with a
    non-empty page-aligned key and one slot per token. *)
Record node_ok (c : RadixCache) (G : gmap nat path) (n : nat) (l : path)
    (p : nat) (lp : path) : Prop := mk_node_ok {
  ok_parent : parent (node_at c n) = Some p;
  ok_gparent : G !! p = Some lp;
  ok_linked : od_get (get_child_key_fn c (key (node_at c n))) (children (node_at c p)) = Some n;
  ok_nonempty : key (node_at c n) ≠ [];
  ok_aligned : (length (key (node_at c n)) mod page_size c = 0)%nat;
  ok_value : value (node_at c n) = Some (slots (node_at c n));
  ok_length : length (slots (node_at c n)) = length (key (node_at c n));
  ok_path : l = lp ++ zip (key (node_at c n)) (slots (node_at c n));
}.

Record repr (c : RadixCache) (G : gmap nat path) (H : list nat) : Prop := mk_repr {
  r_page : (0 < page_size c)%nat;
  r_root : G !! root_node c = Some [];
  r_rootnode : parent (node_at c (root_node c)) = None ∧
               key (node_at c (root_node c)) = [] ∧
               value (node_at c (root_node c)) = Some [];
  r_store : ∀ n l, G !! n = Some l → is_Some (nodes c !! n);
  r_fresh : ∀ n, is_Some (nodes c !! n) → (n < counter c)%nat;
  r_node : ∀ n l, G !! n = Some l → n ≠ root_node c → ∃ p lp, node_ok c G n l p lp;
  r_children : ∀ n l k m, G !! n = Some l →
    od_get k (children (node_at c n)) = Some m →
    is_Some (G !! m) ∧ m ≠ root_node c ∧ parent (node_at c m) = Some n ∧
    get_child_key_fn c (key (node_at c m)) = k;
  r_nodup : ∀ n l, G !! n = Some l → NoDup (children (node_at c n)).*1;
  r_locks : ∀ n l, G !! n = Some l → n ≠ root_node c →
    lock_ref (node_at c n) = holders G H l;
  r_handles : ∀ h, h ∈ H → is_Some (G !! h);
  r_evictable : evictable_size_ c = gsum (evictable_weight c) G;
  r_protected : protected_size_ c = gsum (protected_weight c) G;
}.

(** The content: all prefixes of node paths. *)
Definition stored (G : gmap nat path) (l : path) : Prop :=
  ∃ n l', G !! n = Some l' ∧ l `prefix_of` l'.

(** ** Caches that differ in timestamps and events only *)

Definition node_same (a b : TreeNode) : Prop :=
  children a = children b ∧ parent a = parent b ∧ key a = key b ∧
  value a = value b ∧ lock_ref a = lock_ref b.

Record same (c c' : RadixCache) : Prop := mk_same {
  same_page : page_size c' = page_size c;
  same_root : root_node c' = root_node c;
  same_counter : counter c' = counter c;
  same_ev : evictable_size_ c' = evictable_size_ c;
  same_pr : protected_size_ c' = protected_size_ c;
  same_disable : disable c' = disable c;
  same_events : enable_kv_cache_events c' = enable_kv_cache_events c;
  same_dom : ∀ n, is_Some (nodes c' !! n) ↔ is_Some (nodes c !! n);
  same_node : ∀ n, node_same (node_at c' n) (node_at c n);
}.

Lemma same_refl c : same c c.
Proof. split; try done; naive_solver. Qed.

Lemma same_trans c1 c2 c3 : same c1 c2 → same c2 c3 → same c1 c3.
Proof.
  intros [] []; split; try congruence.
  - intros n. by rewrite same_dom1.
  - intros n. destruct (same_node0 n) as (?&?&?&?&?), (same_node1 n) as (?&?&?&?&?).
    repeat split; congruence.
Qed.

Lemma same_slots c c' n : same c c' → slots (node_at c' n) = slots (node_at c n).
Proof. intros S. destruct (same_node _ _ S n) as (_&_&_&E&_). unfold slots. by rewrite E. Qed.

Lemma repr_same c c' G H : same c c' → repr c G H → repr c' G H.
Proof.
  intros S [R1 R2 R3 R4 R5 R6 R7 R8 R9 R10 R11 R12].
  assert (∀ n, children (node_at c' n) = children (node_at c n)) as Ec by apply S.
  assert (∀ n, parent (node_at c' n) = parent (node_at c n)) as Ep by apply S.
  assert (∀ n, key (node_at c' n) = key (node_at c n)) as Ek by apply S.
  assert (∀ n, value (node_at c' n) = value (node_at c n)) as Ev by apply S.
  assert (∀ n, lock_ref (node_at c' n) = lock_ref (node_at c n)) as El by apply S.
  assert (∀ n, slots (node_at c' n) = slots (node_at c n)) as Es by (intros; by apply same_slots).
  destruct S as [S1 S2 S3 S4 S5 S6 S6' S7 _].
  split; unfold get_child_key_fn in *;
    rewrite ?S1, ?S2, ?S3, ?S4, ?S5, ?Ep, ?Ek, ?Ev; try done.
  - intros n l Hn. apply S7. eauto.
  - intros n Hn. by apply R5, S7.
  - intros n l Hn Hne. destruct (R6 n l Hn Hne) as (p & lp & [H1 H2 H3 H4 H5 H6 H7 H8]).
    exists p, lp. split; unfold get_child_key_fn in *;
      rewrite ?Ep, ?Ec, ?Ek, ?Ev, ?Es, ?S1; done.
  - intros n l k m Hn. rewrite Ec. intros Hm. rewrite Ep, Ek. eauto.
  - intros n l Hn. rewrite Ec. eauto.
  - intros n l Hn Hne. rewrite El. eauto.
  - rewrite R11. apply gsum_ext. intros n l _. unfold evictable_weight, weight.
    by rewrite S2, El, Ek.
  - rewrite R12. apply gsum_ext. intros n l _. unfold protected_weight, weight.
    by rewrite S2, El, Ek.
Qed.

(** ** The trie *)

Section trie.
Context (c : RadixCache) (G : gmap nat path) (H : list nat) (R : repr c G H).

Local Abbreviation ps := (page_size c).

Lemma path_aligned n l : G !! n = Some l → (length l mod ps = 0)%nat.
Proof.
  remember (length l) as m eqn:Em. revert n l Em.
  induction m as [m IH] using lt_wf_ind. intros n l -> Hn.
  destruct (decide (n = root_node c)) as [->|Hne].
  { rewrite (r_root _ _ _ R) in Hn. simplify_eq. simpl. apply Nat.Div0.mod_0_l. }
  destruct (r_node _ _ _ R n l Hn Hne) as (p & lp & [H1 H2 H3 H4 H5 H6 H7 ->]).
  rewrite length_app, length_zip_with, H7, Nat.min_id.
  assert (0 < length (key (node_at c n)))%nat.
  { destruct (key (node_at c n)); [done|simpl; lia]. }
  assert (length lp mod ps = 0)%nat as Hlp.
  { eapply IH; [|done|done]. rewrite length_app, length_zip_with, H7. lia. }
  rewrite <-Nat.Div0.add_mod_idemp_l, Hlp. done.
Qed.

(** The first page of a node's key on its path. *)
Lemma first_page n l p lp :
  node_ok c G n l p lp →
  get_child_key_fn c (key (node_at c n)) = take ps (drop (length lp) l.*1).
Proof.
  intros [H1 H2 H3 H4 H5 H6 H7 ->]. unfold get_child_key_fn.
  rewrite fmap_app, drop_app_length' by (by rewrite length_fmap).
  by rewrite fst_zip by lia.
Qed.

Lemma path_longer n l p lp :
  node_ok c G n l p lp → (length lp + ps ≤ length l)%nat ∧ lp `prefix_of` l.
Proof.
  intros [H1 H2 H3 H4 H5 H6 H7 ->]. split; [|by apply prefix_app_r].
  rewrite length_app, length_zip_with, H7, Nat.min_id.
  pose proof (r_page _ _ _ R).
  assert (length (key (node_at c n)) ≠ 0)%nat by (by destruct (key (node_at c n))).
  apply Nat.Div0.mod_divides in H5 as [q Hq]. rewrite Hq in *. destruct q; lia.
Qed.

Lemma nonroot_path n l : G !! n = Some l → l ≠ [] → n ≠ root_node c.
Proof. intros Hn Hl ->. rewrite (r_root _ _ _ R) in Hn. congruence. Qed.

Lemma root_of_nil n : G !! n = Some [] → n = root_node c.
Proof.
  intros Hn. destruct (decide (n = root_node c)) as [|Hne]; [done|].
  destruct (r_node _ _ _ R n [] Hn Hne) as (p & lp & Hok).
  pose proof (path_longer _ _ _ _ Hok) as [Hl _]. pose proof (r_page _ _ _ R). simpl in Hl. lia.
Qed.

(** Tokens identify nodes, up to length [m]; below [p], every path goes
    through a child of [p] whose edge lies on it. *)
Definition trie_inj (m : nat) : Prop :=
  ∀ n n' l l', (length l ≤ m)%nat → G !! n = Some l → G !! n' = Some l' →
    l.*1 = l'.*1 → n = n'.

Definition trie_down (m : nat) : Prop :=
  ∀ n l p lp, (length l ≤ m)%nat → G !! n = Some l → G !! p = Some lp →
    lp.*1 `prefix_of` l.*1 → (length lp < length l)%nat →
    ∃ k lk, od_get (take ps (drop (length lp) l.*1)) (children (node_at c p)) = Some k ∧
            G !! k = Some lk ∧ lk `prefix_of` l.

Lemma trie_inj_step m :
  (∀ m', (m' < m)%nat → trie_inj m' ∧ trie_down m') → trie_inj m.
Proof.
  intros IH n n' l l' Hm Hn Hn' E.
  assert (length l = length l') as El by (by rewrite <-(length_fmap fst), E, length_fmap).
  destruct (decide (l = [])) as [->|Hl].
  { destruct l'; [|done]. by rewrite (root_of_nil n), (root_of_nil n'). }
  assert (l' ≠ []) as Hl' by (by destruct l, l').
  destruct (r_node _ _ _ R n l Hn (nonroot_path _ _ Hn Hl)) as (q & lq & Hok).
  destruct (r_node _ _ _ R n' l' Hn' (nonroot_path _ _ Hn' Hl')) as (q' & lq' & Hok').
  pose proof (path_longer _ _ _ _ Hok) as [Hlen Hpre].
  pose proof (path_longer _ _ _ _ Hok') as [Hlen' Hpre'].
  pose proof (r_page _ _ _ R) as Hps.
  pose proof (first_page _ _ _ _ Hok) as Hf. pose proof (first_page _ _ _ _ Hok') as Hf'.
  pose proof (prefix_fmap_fst _ _ Hpre) as Pt. pose proof (prefix_fmap_fst _ _ Hpre') as Pt'.
  rewrite <-E in Pt', Hf'.
  destruct (IH (length l - 1)%nat ltac:(lia)) as [IHi IHd].
  destruct Hok as [H1 H2 H3 _ _ _ _ _], Hok' as [H1' H2' H3' _ _ _ _ _].
  rewrite Hf in H3. rewrite Hf' in H3'.
  destruct (lt_eq_lt_dec (length lq) (length lq')) as [[Hlt|Heq]|Hgt].
  - destruct (IHd q' lq' q lq) as (k & lk & Hk & Hgk & Hp); [lia|done..| |lia|].
    { eapply prefix_shorter; [done..|]. rewrite !length_fmap. lia. }
    rewrite (page_of_prefix _ _ l.*1) in Hk; [|done|].
    2:{ rewrite length_fmap. apply aligned_gap; eauto using path_aligned. }
    rewrite H3 in Hk. simplify_eq. apply prefix_length in Hp. lia.
  - assert (q = q') as <-.
    { apply (IHi q q' lq lq'); [lia|done..|].
      eapply prefix_same_length; [done..|]. by rewrite !length_fmap. }
    rewrite Heq in H3. congruence.
  - destruct (IHd q lq q' lq') as (k & lk & Hk & Hgk & Hp); [lia|done..| |lia|].
    { eapply prefix_shorter; [done..|]. rewrite !length_fmap. lia. }
    rewrite (page_of_prefix _ _ l.*1) in Hk; [|done|].
    2:{ rewrite length_fmap. apply aligned_gap; eauto using path_aligned. }
    rewrite H3' in Hk. simplify_eq. apply prefix_length in Hp. lia.
Qed.

Lemma trie_down_step m :
  (∀ m', (m' < m)%nat → trie_inj m' ∧ trie_down m') → trie_down m.
Proof.
  intros IH n l p lp Hm Hn Hp Hpre Hlt.
  assert (l ≠ []) as Hl by (intros ->; simpl in Hlt; lia).
  destruct (r_node _ _ _ R n l Hn (nonroot_path _ _ Hn Hl)) as (q & lq & Hok).
  pose proof (path_longer _ _ _ _ Hok) as [Hlen Hq].
  pose proof (first_page _ _ _ _ Hok) as Hf.
  pose proof (r_page _ _ _ R) as Hps.
  pose proof (prefix_fmap_fst _ _ Hq) as Pt.
  destruct (IH (length l - 1)%nat ltac:(lia)) as [IHi IHd].
  pose proof Hok as [H1 H2 H3 _ _ _ _ _]. rewrite Hf in H3.
  destruct (lt_eq_lt_dec (length lp) (length lq)) as [[Hl1|Heq]|Hgt].
  - destruct (IHd q lq p lp) as (k & lk & Hk & Hgk & Hpk); [lia|done..| |lia|].
    { eapply prefix_shorter; [done..|]. rewrite !length_fmap. lia. }
    exists k, lk. split_and!; [|done|by etrans].
    rewrite <-(page_of_prefix _ lq.*1 l.*1); [done..|].
    rewrite length_fmap. apply aligned_gap; eauto using path_aligned.
  - assert (p = q) as ->.
    { apply (IHi p q lp lq); [lia|done..|].
      eapply prefix_same_length; [done..|]. by rewrite !length_fmap. }
    exists n, l. by rewrite Heq.
  - destruct (IHd p lp q lq) as (k & lk & Hk & Hgk & Hpk); [lia|done..| |lia|].
    { eapply prefix_shorter; [done..|]. rewrite !length_fmap. lia. }
    rewrite (page_of_prefix _ _ l.*1) in Hk; [|done|].
    2:{ rewrite length_fmap. apply aligned_gap; eauto using path_aligned. }
    rewrite H3 in Hk. simplify_eq. apply prefix_length in Hpk. lia.
Qed.

Lemma trie_facts m : trie_inj m ∧ trie_down m.
Proof.
  induction m as [m IH] using lt_wf_ind.
  split; [by apply trie_inj_step|by apply trie_down_step].
Qed.

(** Tokens identify nodes. *)
Lemma path_inj n n' l l' :
  G !! n = Some l → G !! n' = Some l' → l.*1 = l'.*1 → n = n'.
Proof. intros. by eapply (proj1 (trie_facts (length l))). Qed.

(** Below [p], every path goes through a child of [p] whose edge lies on it. *)
Lemma path_down n l p lp :
  G !! n = Some l → G !! p = Some lp → lp.*1 `prefix_of` l.*1 → (length lp < length l)%nat →
  ∃ k lk, od_get (take ps (drop (length lp) l.*1)) (children (node_at c p)) = Some k ∧
          G !! k = Some lk ∧ lk `prefix_of` l.
Proof. intros. by eapply (proj2 (trie_facts (length l))). Qed.

(** Between nodes, a prefix on tokens is a prefix on slots as well. *)
Lemma token_prefix_path p lp m lm :
  G !! p = Some lp → G !! m = Some lm → lm.*1 `prefix_of` lp.*1 → lm `prefix_of` lp.
Proof.
  intros Hp Hm Hmp.
  pose proof (prefix_length _ _ Hmp) as Hml. rewrite !length_fmap in Hml.
  destruct (decide (length lm = length lp)) as [Heq|].
  { assert (lm.*1 = lp.*1) as E.
    { eapply prefix_same_length; [done..|]. by rewrite !length_fmap. }
    rewrite (path_inj m p lm lp Hm Hp E) in Hm. naive_solver. }
  destruct (path_down p lp m lm Hp Hm Hmp ltac:(lia)) as (k & lk & Hk & Hgk & Hkp).
  destruct (r_children _ _ _ R m lm _ k Hm Hk) as (_ & Hkr & Hkpar & Hkk).
  destruct (r_node _ _ _ R k lk Hgk Hkr) as (p' & lp' & Hok).
  pose proof (path_longer _ _ _ _ Hok) as [_ Hpk]. destruct Hok. simplify_eq.
  by etrans.
Qed.

(** No node ends in the middle of another node's edge. *)
Lemma no_mid_edge n l p lp m lm :
  G !! n = Some l → node_ok c G n l p lp → G !! m = Some lm →
  lm.*1 `prefix_of` l.*1 → m = n ∨ lm `prefix_of` lp.
Proof.
  intros Hn Hok Hm Hpre.
  pose proof (path_longer _ _ _ _ Hok) as [Hlen Hp].
  pose proof (first_page _ _ _ _ Hok) as Hf. pose proof (r_page _ _ _ R).
  pose proof Hok as [H1 H2 H3 _ _ _ _ _].
  pose proof (prefix_fmap_fst _ _ Hp) as Pt.
  destruct (decide (length lm ≤ length lp)%nat) as [Hle|Hgt].
  - right. eapply token_prefix_path; [done..|].
    eapply prefix_shorter; [done..|]. rewrite !length_fmap. lia.
  - left. destruct (path_down m lm p lp Hm H2) as (k & lk & Hk & Hgk & Hkp).
    { eapply prefix_shorter; [done..|]. rewrite !length_fmap. lia. }
    { lia. }
    rewrite (page_of_prefix _ _ l.*1) in Hk; [|done|].
    2:{ rewrite length_fmap. apply aligned_gap; eauto using path_aligned. lia. }
    rewrite <-Hf, H3 in Hk. injection Hk as <-. rewrite Hn in Hgk. injection Hgk as <-.
    apply (path_inj m n lm l Hm Hn).
    eapply prefix_same_length; [done|reflexivity|].
    apply prefix_length in Hkp, Hpre. rewrite !length_fmap in *. lia.
Qed.

End trie.
