(* ===== verification/RadixOwn.v ===== *)
(** * Ownership of KV slots by the radix tree

    The tree owns its slots in pages: [tree_chunks] lists the pages of every
    node's value.  The lemmas say how the list changes when an edge is split,
    a leaf is added or a leaf is removed; they connect the tree to the
    [KVAllocator] interface. *)

From S2P Require Import Prelude KVAllocator RadixCache RadixInv.

(** ** Pages of a list *)

Section pages.
Context (ps : nat) (Hps : (0 < ps)%nat).

Lemma pages_nil : pages ps [] = [].
Proof. unfold pages. simpl. rewrite Nat.div_small by lia. done. Qed.

Lemma pages_unfold k : k ≠ [] → pages ps k = take ps k :: pages ps (drop ps k).
Proof.
  intros Hk. unfold pages. assert (0 < length k)%nat by (destruct k; [done|simpl; lia]).
  assert ((length k + ps - 1) / ps = S ((length (drop ps k) + ps - 1) / ps))%nat as ->.
  { rewrite length_drop. destruct (decide (ps ≤ length k)%nat).
    - replace (length k + ps - 1)%nat with ((length k - ps + ps - 1) + 1 * ps)%nat by lia.
      rewrite Nat.div_add by lia. lia.
    - rewrite (Nat.div_small (length k - ps + ps - 1)) by lia.
      replace (length k + ps - 1)%nat with ((length k - 1) + 1 * ps)%nat by lia.
      rewrite Nat.div_add, Nat.div_small by lia. done. }
  rewrite <-cons_seq, fmap_cons. f_equal.
  rewrite <-seq_shift, <-list_fmap_compose. apply list_fmap_ext. intros i j _. simpl.
  rewrite drop_drop. done.
Qed.

Lemma pages_ind (P : list Z → Prop) :
  P [] → (∀ k, k ≠ [] → P (drop ps k) → P k) → ∀ k, P k.
Proof.
  intros H0 HS k. remember (length k) as n eqn:En. revert k En.
  induction n as [n IH] using lt_wf_ind. intros k ->.
  destruct (decide (k = [])) as [->|Hk]; [done|]. apply HS; [done|].
  eapply IH; [|done]. rewrite length_drop. destruct k; [done|]. simpl. lia.
Qed.

Lemma concat_pages k : concat (pages ps k) = k.
Proof.
  induction k as [|k Hk IH] using pages_ind; [by rewrite pages_nil|].
  rewrite pages_unfold by done. simpl. by rewrite IH, take_drop.
Qed.

Lemma pages_nonempty k : Forall (.≠ []) (pages ps k).
Proof.
  induction k as [|k Hk IH] using pages_ind; [by rewrite pages_nil|].
  rewrite pages_unfold by done. apply Forall_cons. split; [|done].
  destruct k, ps; done || lia.
Qed.

Lemma pages_app k1 k2 : (length k1 mod ps = 0)%nat → pages ps (k1 ++ k2) = pages ps k1 ++ pages ps k2.
Proof.
  induction k1 as [|k1 Hk IH] using pages_ind; intros Ha; [by rewrite pages_nil|].
  assert (ps ≤ length k1)%nat.
  { apply (aligned_gap ps 0 (length k1)); [apply Nat.Div0.mod_0_l|done|].
    destruct k1; [done|simpl; lia]. }
  rewrite (pages_unfold (k1 ++ k2)) by (by destruct k1). rewrite (pages_unfold k1) by done.
  rewrite take_app_le, drop_app_le by done. simpl. f_equal. apply IH.
  apply aligned_drop; [done|]. apply Nat.Div0.mod_same.
Qed.

Lemma pages_length k : (length k mod ps = 0)%nat → Z.of_nat ps * len (pages ps k) = len k.
Proof.
  induction k as [|k Hk IH] using pages_ind; intros Ha; [rewrite pages_nil; unfold len; simpl; lia|].
  assert (ps ≤ length k)%nat.
  { apply (aligned_gap ps 0 (length k)); [apply Nat.Div0.mod_0_l|done|].
    destruct k; [done|simpl; lia]. }
  rewrite pages_unfold by done. unfold len in *. simpl.
  assert (length (drop ps k) mod ps = 0)%nat as Hd.
  { apply aligned_drop; [done|]. apply Nat.Div0.mod_same. }
  specialize (IH Hd). rewrite length_drop in IH. lia.
Qed.

Lemma pages_parts k : Forall2 part_of (pages ps k) (pages ps k).
Proof.
  pose proof (pages_nonempty k) as Hn. induction Hn; constructor; [by split|done].
Qed.

End pages.

(** ** Chunks of the tree *)

Definition tree_chunks (c : RadixCache) (G : gmap nat path) : list (list Z) :=
  map_to_list G ≫= (fun nl => pages (page_size c) (slots (node_at c nl.1))).

Lemma bind_perm_ext {A B} (f g : A → list B) (l : list A) :
  (∀ x, x ∈ l → f x = g x) → l ≫= f = l ≫= g.
Proof.
  induction l as [|x l IH]; intros E; [done|]. simpl. rewrite E by left. f_equal.
  apply IH. intros. apply E. by right.
Qed.

Lemma tree_chunks_ext c c' G :
  page_size c' = page_size c →
  (∀ n l, G !! n = Some l → slots (node_at c' n) = slots (node_at c n)) →
  tree_chunks c' G = tree_chunks c G.
Proof.
  intros Ep Es. unfold tree_chunks. apply bind_perm_ext. intros [n l] Hn%elem_of_map_to_list.
  simpl. by rewrite Ep, (Es n l Hn).
Qed.

Lemma tree_chunks_insert c G n l :
  G !! n = None →
  tree_chunks c (<[n := l]> G) ≡ₚ pages (page_size c) (slots (node_at c n)) ++ tree_chunks c G.
Proof. intros Hn. unfold tree_chunks. by rewrite map_to_list_insert. Qed.

Lemma tree_chunks_delete c G n l :
  G !! n = Some l →
  tree_chunks c G ≡ₚ pages (page_size c) (slots (node_at c n)) ++ tree_chunks c (delete n G).
Proof.
  intros Hn. rewrite <-tree_chunks_insert with (l := l) by apply lookup_delete_eq.
  by rewrite insert_delete_id.
Qed.

Lemma same_chunks c c' G : same c c' → tree_chunks c' G = tree_chunks c G.
Proof.
  intros S. apply tree_chunks_ext; [apply S|]. intros. by apply same_slots.
Qed.

(** ** Slots of stored paths *)

Lemma elem_of_chunks c G n l s :
  (0 < page_size c)%nat → G !! n = Some l → s ∈ slots (node_at c n) →
  s ∈ concat (tree_chunks c G).
Proof.
  intros Hps Hn Hs. rewrite (tree_chunks_delete c G n l Hn), concat_app, concat_pages by done.
  apply elem_of_app. by left.
Qed.

Lemma path_slots c G H n l s :
  repr c G H → G !! n = Some l → s ∈ l.*2 → s ∈ concat (tree_chunks c G).
Proof.
  intros R. remember (length l) as z eqn:Ez. revert n l Ez.
  induction z as [z IH] using lt_wf_ind. intros n l -> Hn Hs.
  destruct (decide (n = root_node c)) as [->|Hne].
  { rewrite (r_root _ _ _ R) in Hn. injection Hn as <-. by apply elem_of_nil in Hs. }
  destruct (r_node _ _ _ R n l Hn Hne) as (p & lp & Hok).
  pose proof (path_longer _ _ _ R _ _ _ _ Hok) as [Hl _]. pose proof (r_page _ _ _ R) as Hps.
  pose proof Hok as [_ Hp _ _ _ _ Hlen E]. rewrite E, fmap_app, snd_zip in Hs by lia.
  apply elem_of_app in Hs as [Hs|Hs]; [|by apply (elem_of_chunks c G n l)].
  eapply (IH (length lp)); [lia|done..].
Qed.

Lemma stored_slots c G H l s :
  repr c G H → stored G l → s ∈ l.*2 → s ∈ concat (tree_chunks c G).
Proof.
  intros R (n & l' & Hn & [r ->]) Hs. eapply path_slots; [done..|].
  rewrite fmap_app. apply elem_of_app. by left.
Qed.
