(* ===== verification/RadixSplit.v ===== *)
(** * Key matching and node splitting in the radix tree

    [key_match_fn] computes the longest common page-aligned prefix, and
    [_split_node] refines one edge into two without changing what the cache
    stores, which nodes are held, or the size counters. *)

From S2P Require Import Prelude RadixCache RadixInv RadixOwn.

(** ** Key matching *)

(** What both key-matching functions compute on page-aligned keys. *)
Record key_match_spec (ps : nat) (k0 k1 : list Z) (m : nat) : Prop := mk_key_match {
  km_left : (m ≤ length k0)%nat;
  km_right : (m ≤ length k1)%nat;
  km_aligned : (m mod ps = 0)%nat;
  km_same : take m k0 = take m k1;
  km_max : m = length k0 ∨ m = length k1 ∨
           take ps (drop m k0) ≠ take ps (drop m k1);
}.

Lemma take_add_page {A} (l : list A) i n : take (i + n) l = take i l ++ take n (drop i l).
Proof. by rewrite take_take_drop. Qed.

Lemma key_match_loop_spec ps k0 k1 fuel i :
  (0 < ps)%nat → (length k0 mod ps = 0)%nat → (length k1 mod ps = 0)%nat →
  (i mod ps = 0)%nat → (i ≤ Nat.min (length k0) (length k1))%nat →
  take i k0 = take i k1 → (Nat.min (length k0) (length k1) ≤ fuel + i)%nat →
  key_match_spec ps k0 k1 (key_match_loop fuel i ps (Nat.min (length k0) (length k1)) k0 k1).
Proof.
  intros Hps A0 A1. revert i. induction fuel as [|fuel IH]; intros i Ai Hi E Hf; simpl.
  { split; try lia; try done. }
  destruct (Nat.ltb_spec i (Nat.min (length k0) (length k1))) as [Hlt|Hge].
  2:{ split; try lia; try done. }
  case_decide as Ep; [|split; try lia; tauto].
  assert (i + ps ≤ Nat.min (length k0) (length k1))%nat.
  { pose proof (aligned_gap ps i _ Ai A0). pose proof (aligned_gap ps i _ Ai A1). lia. }
  apply IH; try lia.
  - rewrite <-Nat.Div0.add_mod_idemp_l, Ai. simpl. apply Nat.Div0.mod_same.
  - by rewrite !take_add_page, E, Ep.
Qed.

Lemma key_match_page_size1_spec k0 k1 :
  key_match_spec 1 k0 k1 (_key_match_page_size1 k0 k1).
Proof.
  revert k1. induction k0 as [|x k0 IH]; intros [|y k1];
    cbn [_key_match_page_size1]; try (split; simpl; auto with lia; fail).
  case_decide as E.
  - subst. destruct (IH k1) as [H1 H2 H3 H4 H5]. split.
    + simpl. lia.
    + simpl. lia.
    + apply Nat.mod_1_r.
    + cbn [take]. by rewrite H4.
    + simpl length. cbn [drop]. intuition lia.
  - split; simpl; try lia; try done. right. right. congruence.
Qed.

(** The two implementations agree on pages of one token. *)
Lemma key_match_paged_1 k0 k1 : _key_match_paged 1 k0 k1 = _key_match_page_size1 k0 k1.
Proof.
  pose proof (key_match_page_size1_spec k0 k1) as [A1 A2 _ A4 A5].
  assert (key_match_spec 1 k0 k1 (_key_match_paged 1 k0 k1)) as [B1 B2 _ B4 B5].
  { apply key_match_loop_spec; rewrite ?Nat.mod_1_r; lia || done. }
  revert A1 A2 A4 A5 B1 B2 B4 B5.
  generalize (_key_match_paged 1 k0 k1) (_key_match_page_size1 k0 k1). intros b a.
  intros A1 A2 A4 A5 B1 B2 B4 B5.
  destruct (lt_eq_lt_dec a b) as [[Hlt| ->]|Hlt]; [|done|].
  - exfalso. destruct A5 as [?|[?|A5]]; [lia..|]. apply A5.
    apply (f_equal (drop a)) in B4. rewrite !skipn_firstn_comm in B4.
    apply (f_equal (take 1)) in B4. rewrite !take_take in B4.
    by replace (1 `min` (b - a))%nat with 1%nat in B4 by lia.
  - exfalso. destruct B5 as [?|[?|B5]]; [lia..|]. apply B5.
    apply (f_equal (drop b)) in A4. rewrite !skipn_firstn_comm in A4.
    apply (f_equal (take 1)) in A4. rewrite !take_take in A4.
    by replace (1 `min` (a - b))%nat with 1%nat in A4 by lia.
Qed.

Lemma key_match_fn_spec c k0 k1 :
  (0 < page_size c)%nat → (length k0 mod page_size c = 0)%nat →
  (length k1 mod page_size c = 0)%nat →
  key_match_spec (page_size c) k0 k1 (key_match_fn c k0 k1).
Proof.
  intros Hp H0 H1. unfold key_match_fn. case_match eqn:E.
  - apply Nat.eqb_eq in E. rewrite E. apply key_match_page_size1_spec.
  - apply key_match_loop_spec; auto with lia. apply Nat.Div0.mod_0_l.
Qed.

(** Keys that share their first page match on at least that page. *)
Lemma key_match_pos ps k0 k1 m :
  key_match_spec ps k0 k1 m → (0 < ps)%nat → k0 ≠ [] → k1 ≠ [] →
  take ps k0 = take ps k1 → (0 < m)%nat.
Proof.
  intros [H1 H2 H3 H4 H5] Hps N0 N1 E. destruct m as [|m]; [|lia].
  exfalso. rewrite !drop_0 in H5. destruct k0, k1; simpl in *; intuition lia.
Qed.

(** ** Operations that change timestamps or events only *)

Lemma node_at_upd_eq c n f : is_Some (nodes c !! n) → node_at (upd n f c) n = f (node_at c n).
Proof.
  intros [nd E]. unfold node_at, upd, set_nodes; simpl.
  rewrite !lookup_total_alt, lookup_alter_eq, E. done.
Qed.

Lemma node_at_upd_ne c n m f : n ≠ m → node_at (upd n f c) m = node_at c m.
Proof.
  intros Hne. unfold node_at, upd, set_nodes; simpl.
  by rewrite !lookup_total_alt, lookup_alter_ne.
Qed.

Lemma node_at_missing c n f : nodes c !! n = None → upd n f c = c.
Proof.
  intros E. unfold upd, set_nodes. rewrite alter_id; [by destruct c|].
  intros. congruence.
Qed.

Lemma dom_upd c n m f : is_Some (nodes (upd n f c) !! m) ↔ is_Some (nodes c !! m).
Proof. unfold upd; simpl. by rewrite lookup_alter_is_Some. Qed.

Lemma node_same_refl a : node_same a a.
Proof. done. Qed.

Lemma same_sym c c' : same c c' → same c' c.
Proof.
  intros []; split; try congruence.
  - intros n. by rewrite same_dom.
  - intros n. destruct (same_node n) as (?&?&?&?&?). done.
Qed.

Section ops.
Context (hash : list Z → Z) (clock : nat → Z).

Lemma same_touch n c : same c (touch clock n c).
Proof.
  split; try done.
  - intros m. unfold touch. by rewrite dom_upd.
  - intros m. unfold touch. destruct (nodes c !! n) eqn:E.
    + destruct (decide (n = m)) as [->|Hne].
      * rewrite node_at_upd_eq by (simpl; by rewrite E). done.
      * by rewrite node_at_upd_ne.
    + by rewrite node_at_missing.
Qed.

Lemma same_queue q c : same c (set_queue q c).
Proof. split; done. Qed.

Lemma same_record_store n c : same c (_record_store_event hash n c).
Proof. unfold _record_store_event. case_match; [apply same_queue|apply same_refl]. Qed.

Lemma same_record_remove n c : same c (_record_remove_event hash n c).
Proof. unfold _record_remove_event. case_match; [apply same_queue|apply same_refl]. Qed.

Lemma node_at_alloc_ne c m :
  m ≠ counter c → node_at (alloc_node clock c).2 m = node_at c m.
Proof.
  intros. unfold node_at, alloc_node; simpl. by rewrite !lookup_total_alt, lookup_insert_ne.
Qed.

Lemma node_at_alloc_eq c :
  node_at (alloc_node clock c).2 (counter c) = new_TreeNode (counter c) (now clock c).
Proof.
  unfold node_at, alloc_node; simpl. by rewrite !lookup_total_alt, lookup_insert_eq.
Qed.

(** ** Splitting: the resulting objects *)

(** The objects after splitting the edge of [child] (below [p]) at [s]. *)
Definition split_view (c : RadixCache) (k : list Z) (child p s m : nat) : TreeNode :=
  let ch := node_at c child in
  if decide (m = counter c) then
    set_kv (take s (key ch)) (take s <$> value ch)
      (set_lock_ref (lock_ref ch) (set_parent (Some p)
        (set_children [(get_child_key_fn c (drop s k), child)]
          (new_TreeNode (counter c) (now clock c)))))
  else if decide (m = child) then
    set_kv (drop s (key ch)) (drop s <$> value ch) (set_parent (Some (counter c)) ch)
  else if decide (m = p) then
    set_children (od_set (get_child_key_fn c k) (counter c) (children (node_at c p))) (node_at c p)
  else node_at c m.

Record split_shape (c : RadixCache) (k : list Z) (child p s : nat) (c' : RadixCache) : Prop :=
  mk_split_shape {
  ss_page : page_size c' = page_size c;
  ss_root : root_node c' = root_node c;
  ss_counter : counter c' = S (counter c);
  ss_ev : evictable_size_ c' = evictable_size_ c;
  ss_pr : protected_size_ c' = protected_size_ c;
  ss_disable : disable c' = disable c;
  ss_dom : ∀ n, is_Some (nodes c' !! n) ↔ n = counter c ∨ is_Some (nodes c !! n);
  ss_node : ∀ m, node_same (node_at c' m) (split_view c k child p s m);
}.

Lemma split_shape_same c1 c2 k child p s c' c'' :
  same c1 c2 → same c' c'' → split_shape c2 k child p s c' → split_shape c1 k child p s c''.
Proof.
  intros [S1 S2 S3 S4 S5 S6 _ S7 S8] [T1 T2 T3 T4 T5 T6 _ T7 T8] [P1 P2 P3 P4 P5 P6 P7 P8].
  split; try congruence.
  - intros n. by rewrite T7, P7, S7, S3.
  - intros m. specialize (T8 m) as (?&?&?&?&?). specialize (P8 m).
    pose proof (S8 child) as (?&?&?&?&?).
    pose proof (S8 p) as (?&?&?&?&?). pose proof (S8 m) as (?&?&?&?&?).
    unfold split_view, get_child_key_fn in *. rewrite S3 in P8.
    repeat case_decide; destruct P8 as (?&?&?&?&?); repeat split; simpl in *; try congruence.
Qed.

Lemma split_node_shape c k child p s :
  is_Some (nodes c !! child) → is_Some (nodes c !! p) →
  parent (node_at c child) = Some p → p ≠ child →
  (child < counter c)%nat → (p < counter c)%nat →
  (_split_node hash clock k child s c).1 = counter c ∧
  split_shape c k child p s (_split_node hash clock k child s c).2.
Proof.
  intros Hc Hp Hpar Hne Hlc Hlp. unfold _split_node.
  pose proof (same_record_remove child c) as Sr.
  set (c1 := _record_remove_event hash child c) in *.
  destruct (alloc_node clock c1) as [new c2] eqn:Ea.
  assert (c2 = (alloc_node clock c1).2) as -> by (by rewrite Ea).
  assert (new = counter c1) as -> by (by injection Ea). clear Ea.
  pose proof Sr as [S1 S2 S3 S4 S5 S6 S7 S8 S9].
  assert (is_Some (nodes c1 !! child)) as Hc1 by (by apply S8).
  assert (is_Some (nodes c1 !! p)) as Hp1 by (by apply S8).
  destruct (S9 child) as (_&Hp'&_&_&_). rewrite Hpar in Hp'.
  rewrite S3. rewrite <-S3 in Hlc, Hlp |- *.
  set (n := counter c1) in *. set (a := (alloc_node clock c1).2) in *.
  assert (∀ m, m ≠ n → node_at a m = node_at c1 m) as Ea by (intros; by apply node_at_alloc_ne).
  assert (node_at a n = new_TreeNode n (now clock c1)) as Ean by apply node_at_alloc_eq.
  assert (∀ m, is_Some (nodes a !! m) ↔ m = n ∨ is_Some (nodes c1 !! m)) as Da.
  { intros m. unfold a, alloc_node; simpl. rewrite lookup_insert_is_Some. fold n.
    destruct (decide (n = m)); naive_solver. }
  rewrite (Ea child) by lia.
  match goal with |- context[upd n ?f a] => set (b := upd n f a) in * end.
  match goal with |- context[upd child ?f b] => set (d := upd child f b) in * end.
  assert (node_at d n = node_at b n) as Ed by (apply node_at_upd_ne; lia).
  assert (parent (node_at d n) = Some p) as ->.
  { rewrite Ed. unfold b. rewrite node_at_upd_eq by (apply Da; auto). simpl. by rewrite Hp'. }
  match goal with |- context[upd p ?f d] => set (e := upd p f d) in * end.
  split; [done|]. simpl snd.
  eapply split_shape_same; [exact Sr| |].
  { eapply same_trans; apply same_record_store. }
  split; try done.
  - intros m. unfold e, d, b. rewrite !dom_upd. apply Da.
  - intros m. unfold split_view. fold n.
    assert (node_at b n = set_kv (take s (key (node_at c1 child))) (take s <$> value (node_at c1 child))
      (set_lock_ref (lock_ref (node_at c1 child)) (set_parent (Some p)
        (set_children [(get_child_key_fn c1 (drop s k), child)]
          (new_TreeNode n (now clock c1)))))) as Eb.
    { unfold b. rewrite node_at_upd_eq by (apply Da; auto). rewrite Ean. simpl. by rewrite Hp'. }
    assert (∀ m, m ≠ n → node_at b m = node_at c1 m) as Eb'.
    { intros x Hx. unfold b. rewrite node_at_upd_ne by done. by apply Ea. }
    case_decide as D1; [|case_decide as D2; [|case_decide as D3]]; subst.
    + unfold e. rewrite node_at_upd_ne by lia. rewrite Ed, Eb. done.
    + unfold e. rewrite node_at_upd_ne by done. unfold d.
      rewrite node_at_upd_eq by (unfold b; rewrite dom_upd; apply Da; auto).
      rewrite Eb' by done. done.
    + unfold e. rewrite node_at_upd_eq by (unfold d, b; rewrite !dom_upd; apply Da; auto).
      unfold d. rewrite node_at_upd_ne by done. rewrite Eb' by done. done.
    + unfold e, d. rewrite !node_at_upd_ne by done. rewrite Eb' by done. done.
Qed.

End ops.

(** ** Splitting preserves the invariant *)

Section split.
Context (clock : nat → Z) (c : RadixCache) (G : gmap nat path) (H : list nat)
  (R : repr c G H).
Context (child p s : nat) (l lp : path)
  (Gc : G !! child = Some l) (Hok : node_ok c G child l p lp).
Context (Hs : (0 < s < length (key (node_at c child)))%nat) (As : (s mod page_size c = 0)%nat).

Local Abbreviation new := (counter c).
Local Abbreviation ch := (node_at c child).

(** Path of the new node. *)
Definition split_path : path := lp ++ zip (take s (key ch)) (take s (slots ch)).

Local Abbreviation G' := (<[new := split_path]> G).

Context (c' : RadixCache) (Sh : split_shape clock c (key ch) child p s c').

Lemma split_new_fresh : G !! new = None.
Proof.
  destruct (G !! new) eqn:E; [|done].
  pose proof (r_fresh _ _ _ R _ (r_store _ _ _ R _ _ E)). lia.
Qed.

Lemma split_in_G n x : G !! n = Some x → n ≠ new.
Proof. intros Hn ->. rewrite split_new_fresh in Hn. done. Qed.

Lemma split_child_ne : p ≠ child.
Proof.
  intros Ep. pose proof (path_longer _ _ _ R _ _ _ _ Hok) as [Hl _].
  destruct Hok as [_ E _ _ _ _ _ _]. rewrite Ep, Gc in E. injection E as E.
  pose proof (r_page _ _ _ R). rewrite E in Hl. lia.
Qed.

Lemma split_child_nonroot : child ≠ root_node c.
Proof.
  intros E. destruct Hok as [H1 _ _ _ _ _ _ _]. rewrite E in H1.
  destruct (r_rootnode _ _ _ R) as [H2 _]. congruence.
Qed.

Lemma split_page_le : (page_size c ≤ s)%nat.
Proof. apply (aligned_gap (page_size c) 0 s); [apply Nat.Div0.mod_0_l|done|lia]. Qed.

Lemma split_path_prefix :
  lp `prefix_of` split_path ∧ split_path `prefix_of` l ∧ length split_path = (length lp + s)%nat.
Proof.
  destruct Hok as [_ _ _ _ _ _ Hlen ->]. unfold split_path. split_and!.
  - by apply prefix_app_r.
  - apply prefix_app. rewrite <-zip_with_take. apply prefix_take.
  - rewrite length_app, length_zip_with, !length_take. lia.
Qed.

(** A path through the new node goes through [child] too. *)
Lemma split_below m lm :
  G !! m = Some lm → split_path `prefix_of` lm → l `prefix_of` lm.
Proof.
  intros Hm Hpre. destruct split_path_prefix as (P1 & P2 & P3).
  pose proof split_page_le.
  destruct (path_down _ _ _ R m lm p lp Hm) as (k & lk & Hk & Hgk & Hkp).
  - by destruct Hok.
  - apply prefix_fmap_fst. by etrans.
  - apply prefix_length in Hpre. lia.
  - rewrite <-(page_of_prefix _ split_path.*1) in Hk;
      [|by apply prefix_fmap_fst|rewrite length_fmap; lia].
    rewrite (page_of_prefix _ _ l.*1) in Hk;
      [|by apply prefix_fmap_fst|rewrite length_fmap; lia].
    rewrite <-(first_page _ _ _ _ _ _ Hok) in Hk.
    destruct Hok as [_ _ E _ _ _ _ _]. by simplify_eq.
Qed.

Lemma split_holders x : holders G' H x = holders G H x.
Proof.
  unfold holders. f_equal. apply filter_ext_elem. intros h Hh.
  destruct (r_handles _ _ _ R h Hh) as [lh E].
  rewrite lookup_insert_ne; [done|]. apply not_eq_sym. by eapply split_in_G.
Qed.

Lemma split_holders_new : holders G H split_path = holders G H l.
Proof.
  unfold holders. f_equal. apply filter_ext_elem. intros h Hh.
  destruct (r_handles _ _ _ R h Hh) as [lh E]. rewrite E. simpl. split.
  - by apply (split_below h).
  - intros. etrans; [apply split_path_prefix|done].
Qed.

Lemma split_stored x : stored G' x ↔ stored G x.
Proof.
  split.
  - intros (n & y & Hn & Hx). destruct (decide (n = new)) as [->|Hne].
    + rewrite lookup_insert_eq in Hn. simplify_eq. exists child, l. split; [done|].
      etrans; [done|apply split_path_prefix].
    + rewrite lookup_insert_ne in Hn by done. by exists n, y.
  - intros (n & y & Hn & Hx). exists n, y. split; [|done].
    rewrite lookup_insert_ne; [done|]. apply not_eq_sym. by eapply split_in_G.
Qed.

(** Objects after the split. *)
Lemma split_at_new :
  node_same (node_at c' new) (split_view clock c (key ch) child p s new).
Proof. apply Sh. Qed.

Lemma split_key n : n ≠ new → n ≠ child → key (node_at c' n) = key (node_at c n).
Proof.
  intros. pose proof (ss_node _ _ _ _ _ _ _ Sh n) as (_&_&E&_&_). rewrite E.
  unfold split_view. rewrite !decide_False by done. by case_decide; subst.
Qed.
Lemma split_value n : n ≠ new → n ≠ child → value (node_at c' n) = value (node_at c n).
Proof.
  intros. pose proof (ss_node _ _ _ _ _ _ _ Sh n) as (_&_&_&E&_). rewrite E.
  unfold split_view. rewrite !decide_False by done. by case_decide; subst.
Qed.
Lemma split_parent n : n ≠ new → n ≠ child → parent (node_at c' n) = parent (node_at c n).
Proof.
  intros. pose proof (ss_node _ _ _ _ _ _ _ Sh n) as (_&E&_&_&_). rewrite E.
  unfold split_view. rewrite !decide_False by done. by case_decide; subst.
Qed.
Lemma split_lock n : n ≠ new → lock_ref (node_at c' n) = lock_ref (node_at c n).
Proof.
  intros. pose proof (ss_node _ _ _ _ _ _ _ Sh n) as (_&_&_&_&E). rewrite E.
  unfold split_view. rewrite decide_False by done. repeat case_decide; by subst.
Qed.
Lemma split_children n :
  n ≠ new → n ≠ p → children (node_at c' n) = children (node_at c n).
Proof.
  intros. pose proof (ss_node _ _ _ _ _ _ _ Sh n) as (E&_&_&_&_). rewrite E.
  unfold split_view. rewrite decide_False by done. repeat case_decide; by subst.
Qed.
Lemma split_children_p :
  children (node_at c' p) = od_set (get_child_key_fn c (key ch)) new (children (node_at c p)).
Proof.
  pose proof (ss_node _ _ _ _ _ _ _ Sh p) as (E&_&_&_&_). rewrite E.
  unfold split_view. rewrite decide_False by (destruct Hok; by eapply split_in_G).
  rewrite decide_False by apply split_child_ne. by rewrite decide_True.
Qed.
Lemma split_fields_child :
  parent (node_at c' child) = Some new ∧ key (node_at c' child) = drop s (key ch) ∧
  value (node_at c' child) = Some (drop s (slots ch)).
Proof.
  pose proof (ss_node _ _ _ _ _ _ _ Sh child) as (_&E1&E2&E3&_). rewrite E1, E2, E3.
  unfold split_view. rewrite decide_False by (by eapply split_in_G).
  rewrite decide_True by done. destruct Hok as [_ _ _ _ _ Ev _ _]. simpl.
  split_and!; [done..|]. by rewrite Ev.
Qed.
Lemma split_fields_new :
  children (node_at c' new) = [(get_child_key_fn c (drop s (key ch)), child)] ∧
  parent (node_at c' new) = Some p ∧ key (node_at c' new) = take s (key ch) ∧
  value (node_at c' new) = Some (take s (slots ch)) ∧ lock_ref (node_at c' new) = lock_ref ch.
Proof.
  pose proof (ss_node _ _ _ _ _ _ _ Sh new) as (E0&E1&E2&E3&E4). rewrite E0, E1, E2, E3, E4.
  unfold split_view. rewrite decide_True by done.
  destruct Hok as [_ _ _ _ _ Ev _ _]. simpl. split_and!; try done. by rewrite Ev.
Qed.

Lemma split_G n x : G' !! n = Some x → n ≠ new → G !! n = Some x.
Proof. intros E Hne. by rewrite lookup_insert_ne in E. Qed.

Lemma split_G_old n x : G !! n = Some x → G' !! n = Some x.
Proof. intros E. rewrite lookup_insert_ne; [done|]. apply not_eq_sym. by eapply split_in_G. Qed.

Lemma split_child_key k : get_child_key_fn c' k = get_child_key_fn c k.
Proof. unfold get_child_key_fn. by rewrite (ss_page _ _ _ _ _ _ _ Sh). Qed.

Lemma split_first_page : get_child_key_fn c (take s (key ch)) = get_child_key_fn c (key ch).
Proof.
  unfold get_child_key_fn. rewrite take_take. f_equal. pose proof split_page_le. lia.
Qed.

Lemma split_node_new : node_ok c' G' new split_path p lp.
Proof.
  pose proof split_fields_new as (E1 & E2 & E3 & E4 & E5).
  pose proof split_first_page as Ef. pose proof (r_page _ _ _ R).
  destruct Hok as [H1 H2 H3 H4 H5 H6 H7 H8]. split; unfold slots in *; rewrite ?E3, ?E4, ?E2.
  - done.
  - by apply split_G_old.
  - rewrite split_child_key, Ef, split_children_p. apply od_get_set_eq.
  - intros E. apply (f_equal length) in E. rewrite length_take in E. simpl in E. lia.
  - rewrite (ss_page _ _ _ _ _ _ _ Sh), length_take. by rewrite Nat.min_l by lia.
  - done.
  - simpl. rewrite !length_take. lia.
  - done.
Qed.

Lemma split_node_child : node_ok c' G' child l new split_path.
Proof.
  pose proof split_fields_new as (E1 & E2 & E3 & E4 & E5).
  pose proof split_fields_child as (F1 & F2 & F3).
  destruct Hok as [H1 H2 H3 H4 H5 H6 H7 H8]. split; unfold slots in *; rewrite ?F1, ?F2, ?F3.
  - done.
  - by rewrite lookup_insert_eq.
  - rewrite split_child_key, E1. simpl. by rewrite decide_True.
  - intros E. apply (f_equal length) in E. rewrite length_drop in E. simpl in E. lia.
  - rewrite (ss_page _ _ _ _ _ _ _ Sh). by apply aligned_drop.
  - done.
  - simpl. rewrite !length_drop. lia.
  - rewrite H8. unfold split_path. rewrite <-app_assoc. f_equal. simpl.
    rewrite <-zip_with_app by (unfold slots; rewrite !length_take; lia).
    unfold slots. by rewrite !take_drop.
Qed.

Lemma split_node_other n x q lq :
  n ≠ new → n ≠ child → node_ok c G n x q lq → G !! n = Some x → node_ok c' G' n x q lq.
Proof.
  intros N1 N2 [H1 H2 H3 H4 H5 H6 H7 H8] Hn.
  assert (slots (node_at c' n) = slots (node_at c n)) as Es.
  { unfold slots. by rewrite split_value. }
  split; rewrite ?Es, ?split_key, ?split_parent, ?split_value, ?split_child_key,
    ?(ss_page _ _ _ _ _ _ _ Sh) by done; try done.
  - by apply split_G_old.
  - destruct (decide (q = p)) as [->|Hq].
    + rewrite split_children_p, od_get_set_ne; [done|].
      intros E. rewrite <-E in H3. destruct Hok as [_ _ E' _ _ _ _ _]. congruence.
    + rewrite split_children; [done| |done]. by eapply split_in_G.
Qed.

Lemma split_children_ok n x k m :
  G' !! n = Some x → od_get k (children (node_at c' n)) = Some m →
  is_Some (G' !! m) ∧ m ≠ root_node c' ∧ parent (node_at c' m) = Some n ∧
  get_child_key_fn c' (key (node_at c' m)) = k.
Proof.
  intros Hn Hm. rewrite split_child_key, (ss_root _ _ _ _ _ _ _ Sh).
  pose proof split_fields_new as (E1 & E2 & E3 & E4 & E5).
  pose proof split_fields_child as (F1 & F2 & F3).
  pose proof split_first_page as Ef. pose proof split_new_fresh as Fr.
  assert (∀ n x, G !! n = Some x → n ≠ p ∨ k ≠ get_child_key_fn c (key ch) →
    od_get k (children (node_at c n)) = Some m →
    is_Some (G' !! m) ∧ m ≠ root_node c ∧ parent (node_at c' m) = Some n ∧
    get_child_key_fn c (key (node_at c' m)) = k) as Hold.
  { intros n' x' Hn' Hside Hm'.
    destruct (r_children _ _ _ R n' x' k m Hn' Hm') as ([y Hy] & Q1 & Q2 & Q3).
    assert (m ≠ child) as Hmc.
    { intros E. rewrite E in Q2, Q3. destruct Hok as [P1 _ _ _ _ _ _ _].
      rewrite P1 in Q2. injection Q2 as Q2. destruct Hside; congruence. }
    rewrite split_parent, split_key by (by (eapply split_in_G || done)).
    split_and!; [eexists; by apply split_G_old|done..]. }
  destruct (decide (n = new)) as [->|Nn].
  - rewrite E1 in Hm. simpl in Hm. case_decide as D; [|done].
    injection Hm as <-. rewrite F1, F2.
    split_and!; [eexists; by apply split_G_old|apply split_child_nonroot|done|done].
  - apply split_G in Hn as Hn'; [|done]. destruct (decide (n = p)) as [En|Np].
    + rewrite En, split_children_p in Hm. destruct (decide (k = get_child_key_fn c (key ch))) as [Ek|Nk].
      * rewrite Ek, od_get_set_eq in Hm. injection Hm as <-. rewrite E2, E3, Ef, En, Ek.
        split_and!; [by rewrite lookup_insert_eq| |done|done].
        intros E. rewrite E in Fr. by rewrite (r_root _ _ _ R) in Fr.
      * rewrite od_get_set_ne in Hm by done. rewrite En in *. apply (Hold p x); auto.
    + rewrite split_children in Hm by done. apply (Hold n x); auto.
Qed.

Lemma split_sums (f : RadixCache → nat → path → Z) :
  (∀ n x, G !! n = Some x → n ≠ child → f c' n x = f c n x) →
  f c' new split_path + f c' child l = f c child l →
  gsum (f c') G' = gsum (f c) G.
Proof.
  intros H1 H2. rewrite gsum_insert by apply split_new_fresh.
  rewrite (gsum_update (f c) (f c') G child l Gc H1). lia.
Qed.

Lemma split_weights :
  weight c' new + weight c' child = weight c child ∧
  (∀ n, n ≠ new → n ≠ child → weight c' n = weight c n).
Proof.
  unfold weight. pose proof split_fields_new as (_ & _ & E & _).
  pose proof split_fields_child as (_ & E' & _). split.
  - rewrite E, E'. unfold len. rewrite length_take, length_drop. lia.
  - intros. by rewrite split_key.
Qed.

Lemma split_repr : repr c' G' H.
Proof.
  pose proof split_new_fresh as Fr. pose proof split_fields_new as (_&_&_&_&El).
  pose proof split_weights as [W1 W2]. pose proof split_child_nonroot as Nc.
  assert (root_node c ≠ new) as Nr by (eapply split_in_G, (r_root _ _ _ R)).
  assert (lock_ref (node_at c' child) = lock_ref ch) as El'.
  { apply split_lock. by eapply split_in_G. }
  pose proof (ss_root _ _ _ _ _ _ _ Sh) as Er.
  split; rewrite ?(ss_page _ _ _ _ _ _ _ Sh), ?Er.
  - apply R.
  - apply split_G_old, R.
  - rewrite split_parent, split_key, split_value by congruence. apply R.
  - intros n x Hn. apply Sh. destruct (decide (n = new)) as [->|Hne]; [auto|].
    right. eapply (r_store _ _ _ R). by apply split_G.
  - intros n Hn. rewrite (ss_counter _ _ _ _ _ _ _ Sh). apply Sh in Hn as [->|Hn]; [lia|].
    pose proof (r_fresh _ _ _ R _ Hn). lia.
  - intros n x Hn Hnr. destruct (decide (n = new)) as [->|Hne].
    { rewrite lookup_insert_eq in Hn. injection Hn as <-. exists p, lp. apply split_node_new. }
    apply split_G in Hn; [|done]. destruct (decide (n = child)) as [->|Hnc].
    { rewrite Gc in Hn. injection Hn as <-. eexists _, _. apply split_node_child. }
    destruct (r_node _ _ _ R n x Hn Hnr) as (q & lq & Hn'). exists q, lq.
    by apply split_node_other.
  - intros n x k m Hn Hm. rewrite <-Er. by eapply split_children_ok.
  - intros n x Hn. destruct (decide (n = new)) as [->|Hne].
    { pose proof split_fields_new as (-> & _). apply NoDup_singleton. }
    apply split_G in Hn; [|done]. destruct (decide (n = p)) as [->|Hnp].
    + rewrite split_children_p. apply od_set_NoDup. by eapply (r_nodup _ _ _ R).
    + rewrite split_children by done. by eapply (r_nodup _ _ _ R).
  - intros n x Hn Hnr. rewrite split_holders. destruct (decide (n = new)) as [->|Hne].
    { rewrite lookup_insert_eq in Hn. injection Hn as <-.
      rewrite El, split_holders_new. by apply (r_locks _ _ _ R). }
    apply split_G in Hn; [|done]. rewrite split_lock by done. by apply (r_locks _ _ _ R).
  - intros h Hh. destruct (r_handles _ _ _ R h Hh) as [y Hy]. eexists. by apply split_G_old.
  - rewrite (ss_ev _ _ _ _ _ _ _ Sh), (r_evictable _ _ _ R). symmetry.
    apply split_sums; unfold evictable_weight; rewrite Er.
    + intros n x Hn Hne. assert (n ≠ new) by (by eapply split_in_G).
      rewrite split_lock, W2 by done. done.
    + rewrite El, El'. repeat case_decide; congruence || lia.
  - rewrite (ss_pr _ _ _ _ _ _ _ Sh), (r_protected _ _ _ R). symmetry.
    apply split_sums; unfold protected_weight; rewrite Er.
    + intros n x Hn Hne. assert (n ≠ new) by (by eapply split_in_G).
      rewrite split_lock, W2 by done. done.
    + rewrite El, El'. repeat case_decide; congruence || lia.
Qed.

(** The pages of the split edge are redistributed, not copied. *)
Lemma split_chunks : tree_chunks c' G' ≡ₚ tree_chunks c G.
Proof.
  pose proof split_fields_new as (_&_&_&En&_). pose proof split_fields_child as (_&_&Ec).
  pose proof (r_page _ _ _ R) as Hps. pose proof (ss_page _ _ _ _ _ _ _ Sh) as Ep.
  rewrite tree_chunks_insert by apply split_new_fresh.
  rewrite (tree_chunks_delete c' G child l Gc), (tree_chunks_delete c G child l Gc), Ep.
  rewrite (tree_chunks_ext c c' (delete child G)); [|done|].
  - unfold slots at 1 2. rewrite En, Ec. simpl. rewrite app_assoc. f_equiv.
    destruct Hok as [_ _ _ _ _ _ Hlen _].
    rewrite <-pages_app; [by rewrite take_drop|done|].
    rewrite length_take, Nat.min_l by lia. done.
  - intros n x [Hne Hn]%lookup_delete_Some. unfold slots. rewrite split_value; [done| |done].
    by eapply split_in_G.
Qed.

End split.
