(* ===== verification/RadixMatch.v ===== *)
(** * Prefix matching and insertion

    The cache implements a prefix-closed set of (token, slot) paths: on a
    consistent cache [match_prefix] returns the longest stored page-aligned
    prefix of its key, and [insert] adds exactly the missing suffix below it.
    Both return (the fuel of the loops is never exhausted). *)

From S2P Require Import Prelude RadixCache RadixInv RadixOwn RadixSplit.

(** ** The abstract contract *)

(** [lw] is the longest page-aligned path stored in [G] whose tokens are a
    prefix of [K]. *)
Record longest (ps : nat) (G : gmap nat path) (K : list Z) (lw : path) : Prop := mk_longest {
  lg_stored : stored G lw;
  lg_prefix : lw.*1 `prefix_of` K;
  lg_aligned : (length lw mod ps = 0)%nat;
  lg_max : ∀ l, stored G l → (length l mod ps = 0)%nat → l.*1 `prefix_of` K → l `prefix_of` lw;
}.

Lemma take_prefix_eq {A} (l1 l2 : list A) i :
  l1 `prefix_of` l2 → (i ≤ length l1)%nat → take i l1 = take i l2.
Proof. intros [r ->] Hi. by rewrite take_app_le. Qed.

Lemma prefix_take_iff {A} (l1 l2 : list A) :
  l1 `prefix_of` l2 ↔ l1 = take (length l1) l2.
Proof.
  split.
  - intros [r ->]. by rewrite take_app_length.
  - intros E. rewrite E. apply prefix_take.
Qed.

Section coherence.
Context (c : RadixCache) (G : gmap nat path) (H : list nat) (R : repr c G H).

(** Two nodes whose tokens agree on the first [i] tokens have the same slots
    there: the descent from a common ancestor [p]. *)
Lemma coherent_from d p lp n1 l1 n2 l2 i :
  (i - length lp ≤ d)%nat → G !! p = Some lp →
  G !! n1 = Some l1 → G !! n2 = Some l2 →
  lp `prefix_of` l1 → lp `prefix_of` l2 → (i mod page_size c = 0)%nat →
  (i ≤ length l1)%nat → (i ≤ length l2)%nat → take i l1.*1 = take i l2.*1 →
  take i l1 = take i l2.
Proof.
  revert p lp. induction d as [|d IH]; intros p lp Hd Hp H1 H2 P1 P2 Ai L1 L2 E.
  { rewrite <-(take_prefix_eq lp l1), <-(take_prefix_eq lp l2) by (done || lia). done. }
  destruct (decide (i ≤ length lp)%nat) as [Hle|Hgt].
  { rewrite <-(take_prefix_eq lp l1), <-(take_prefix_eq lp l2) by (done || lia). done. }
  assert (length lp + page_size c ≤ i)%nat as Hgap.
  { apply aligned_gap; [by eapply path_aligned|done|lia]. }
  destruct (path_down _ _ _ R n1 l1 p lp H1 Hp) as (k1 & lk1 & K1 & Gk1 & Q1);
    [by apply prefix_fmap_fst|lia|].
  destruct (path_down _ _ _ R n2 l2 p lp H2 Hp) as (k2 & lk2 & K2 & Gk2 & Q2);
    [by apply prefix_fmap_fst|lia|].
  rewrite <-(page_of_prefix _ (take i l1.*1)) in K1;
    [|apply prefix_take|rewrite length_take, length_fmap; lia].
  rewrite <-(page_of_prefix _ (take i l2.*1)) in K2;
    [|apply prefix_take|rewrite length_take, length_fmap; lia].
  rewrite E in K1. assert (k1 = k2) as <- by congruence. assert (lk1 = lk2) as <- by congruence.
  apply (IH k1 lk1); try done.
  destruct (r_children _ _ _ R _ _ _ _ Hp K1) as (_ & Hr & Hpar & _).
  destruct (r_node _ _ _ R k1 lk1 Gk1 Hr) as (q & lq & Hok).
  pose proof (path_longer _ _ _ R _ _ _ _ Hok) as [Hl _].
  pose proof (r_page _ _ _ R). destruct Hok as [Z1 Z2 _ _ _ _ _ _].
  assert (q = p) as -> by congruence. assert (lq = lp) as -> by congruence. lia.
Qed.

Lemma stored_coherent a b :
  stored G a → stored G b → (length a mod page_size c = 0)%nat →
  a.*1 `prefix_of` b.*1 → a `prefix_of` b.
Proof.
  intros (n1 & l1 & G1 & P1) (n2 & l2 & G2 & P2) Aa Hp.
  pose proof (prefix_length _ _ Hp) as Hlen. rewrite !length_fmap in Hlen.
  pose proof (prefix_length _ _ P1). pose proof (prefix_length _ _ P2).
  assert (take (length a) l1 = take (length a) l2) as E.
  { eapply (coherent_from (length a) (root_node c) []); try done; try lia;
      try apply prefix_nil; [apply R|].
    pose proof (prefix_fmap_fst _ _ P1) as Q1. pose proof (prefix_fmap_fst _ _ P2) as Q2.
    rewrite <-(take_prefix_eq _ _ (length a) Q1) by (rewrite length_fmap; lia).
    rewrite <-(take_prefix_eq _ _ (length a) Q2) by (rewrite length_fmap; lia).
    rewrite take_ge by (rewrite length_fmap; lia).
    apply prefix_take_iff in Hp. by rewrite length_fmap in Hp. }
  apply prefix_take_iff. apply prefix_take_iff in P1.
  rewrite (take_prefix_eq b l2) by (done || lia). congruence.
Qed.

(** A walk that cannot descend further has found the longest prefix. *)
Lemma stuck_longest n ln k :
  G !! n = Some ln → (length k mod page_size c = 0)%nat →
  k = [] ∨ od_get (take (page_size c) k) (children (node_at c n)) = None →
  longest (page_size c) G (ln.*1 ++ k) ln.
Proof.
  intros Hn Ak Hst. assert (stored G ln) as Hsn by (by exists n, ln).
  split; [done|by apply prefix_app_r|by eapply path_aligned|].
  intros l Hl Al Hp. destruct (decide (length l ≤ length ln)%nat) as [Hle|Hgt].
  { apply stored_coherent; try done.
    eapply prefix_shorter; [done|by apply prefix_app_r|]. rewrite !length_fmap. lia. }
  exfalso. pose proof (prefix_length _ _ Hp) as Hlen.
  rewrite length_app, !length_fmap in Hlen.
  assert (length ln + page_size c ≤ length l)%nat as Hgap.
  { apply aligned_gap; [by eapply path_aligned|done|lia]. }
  destruct Hst as [->|Hnone]; [simpl in Hlen; lia|].
  destruct Hl as (m & l' & Hm & Hpre). pose proof (prefix_length _ _ Hpre).
  destruct (path_down _ _ _ R m l' n ln Hm Hn) as (x & lx & Hx & _ & _).
  - etrans; [|by apply prefix_fmap_fst].
    eapply prefix_shorter; [by apply prefix_app_r|done|]. rewrite !length_fmap. lia.
  - lia.
  - rewrite <-(page_of_prefix _ l.*1) in Hx;
      [|by apply prefix_fmap_fst|rewrite length_fmap; lia].
    rewrite (page_of_prefix _ l.*1 _ _ Hp) in Hx by (rewrite length_fmap; lia).
    rewrite drop_app_length' in Hx by (by rewrite length_fmap). congruence.
Qed.

(** Descending to a child along [k]. *)
Lemma descend n ln k child :
  G !! n = Some ln → (length k mod page_size c = 0)%nat → k ≠ [] →
  od_get (take (page_size c) k) (children (node_at c n)) = Some child →
  let m := key_match_fn c (key (node_at c child)) k in
  ∃ l, G !! child = Some l ∧ child ≠ root_node c ∧ node_ok c G child l n ln ∧
    (0 < m)%nat ∧ key_match_spec (page_size c) (key (node_at c child)) k m.
Proof.
  intros Hn Ak Nk Hc m.
  destruct (r_children _ _ _ R _ _ _ _ Hn Hc) as ([l Hl] & Hr & Hpar & Hkey).
  destruct (r_node _ _ _ R _ _ Hl Hr) as (q & lq & Hok).
  pose proof Hok as [Z1 Z2 Z3 Z4 Z5 _ _ _].
  assert (q = n) as -> by congruence. assert (lq = ln) as -> by congruence.
  pose proof (r_page _ _ _ R) as Hps.
  pose proof (key_match_fn_spec c _ _ Hps Z5 Ak) as Hm.
  exists l. split_and!; try done. by eapply key_match_pos.
Qed.

End coherence.

(** ** Caches with the same content *)

(** [c'] stores what [c] stores, in a tree refined by splits. *)
Record refined (c : RadixCache) (G : gmap nat path) (c' : RadixCache) (G' : gmap nat path)
    : Prop := mk_refined {
  rf_page : page_size c' = page_size c;
  rf_root : root_node c' = root_node c;
  rf_disable : disable c' = disable c;
  rf_ev : evictable_size_ c' = evictable_size_ c;
  rf_pr : protected_size_ c' = protected_size_ c;
  rf_paths : G ⊆ G';
  rf_stored : ∀ l, stored G' l ↔ stored G l;
  rf_chunks : tree_chunks c' G' ≡ₚ tree_chunks c G;
}.

Lemma refined_trans c1 G1 c2 G2 c3 G3 :
  refined c1 G1 c2 G2 → refined c2 G2 c3 G3 → refined c1 G1 c3 G3.
Proof.
  intros [] []. split; try congruence; [by etrans|intros l; by rewrite rf_stored1|by etrans].
Qed.

Lemma refined_same c c' G : same c c' → refined c G c' G.
Proof. intros S. pose proof (same_chunks _ _ G S) as E. destruct S. split; try done. by rewrite E. Qed.

Lemma refined_longest c G c' G' K lw :
  refined c G c' G' → longest (page_size c') G' K lw → longest (page_size c) G K lw.
Proof.
  intros [E _ _ _ _ _ S _] [L1 L2 L3 L4]. rewrite E in *.
  split; [by apply S|done..|]. intros l Hl. apply L4. by apply S.
Qed.

Section walk.
Context (hash : list Z → Z) (clock : nat → Z).

Lemma split_ok c G H child l p lp s :
  repr c G H → G !! child = Some l → node_ok c G child l p lp →
  (0 < s < length (key (node_at c child)))%nat → (s mod page_size c = 0)%nat →
  let r := _split_node hash clock (key (node_at c child)) child s c in
  let lm := lp ++ zip (take s (key (node_at c child))) (take s (slots (node_at c child))) in
  repr r.2 (<[r.1 := lm]> G) H ∧ refined c G r.2 (<[r.1 := lm]> G) ∧
  children (node_at r.2 r.1) =
    [(take (page_size c) (drop s (key (node_at c child))), child)] ∧
  slots (node_at r.2 r.1) = take s (slots (node_at c child)).
Proof.
  intros R Gc Hok Hs As r lm. pose proof Hok as [P1 P2 _ _ _ _ _ _].
  pose proof (r_store _ _ _ R _ _ Gc) as Sc. pose proof (r_store _ _ _ R _ _ P2) as Sp.
  destruct (split_node_shape hash clock c (key (node_at c child)) child p s) as [E Sh]; try done.
  { by eapply split_child_ne. }
  { by apply (r_fresh _ _ _ R). }
  { by apply (r_fresh _ _ _ R). }
  fold r in E, Sh. rewrite E.
  pose proof (split_fields_new _ _ _ _ _ _ _ _ Hok _ Sh) as (F1 & _ & _ & F4 & _).
  split_and!.
  - by eapply split_repr.
  - split; try apply Sh.
    + apply insert_subseteq. by eapply split_new_fresh.
    + intros x. by eapply split_stored.
    + by eapply split_chunks.
  - done.
  - unfold slots. by rewrite F4.
Qed.

(** One round of the matching loops: descend to [child], splitting its edge
    when [k] leaves it in the middle. *)
Definition walk_to (child : nat) (k : list Z) (c : RadixCache) : nat * RadixCache :=
  let c := touch clock child c in
  let m := key_match_fn c (key (node_at c child)) k in
  if (m <? length (key (node_at c child)))%nat
  then _split_node hash clock (key (node_at c child)) child m c
  else (child, c).

Definition walk_len (child : nat) (k : list Z) (c : RadixCache) : nat :=
  let c := touch clock child c in key_match_fn c (key (node_at c child)) k.

Lemma walk_step H c G node ln k child :
  repr c G H → G !! node = Some ln → (length k mod page_size c = 0)%nat → k ≠ [] →
  od_get (take (page_size c) k) (children (node_at c node)) = Some child →
  let m := walk_len child k c in
  let r := walk_to child k c in
  ∃ G' l',
    repr r.2 G' H ∧ refined c G r.2 G' ∧ G' !! r.1 = Some l' ∧
    l'.*1 = ln.*1 ++ take m k ∧ l'.*2 = ln.*2 ++ slots (node_at r.2 r.1) ∧
    (length (drop m k) mod page_size c = 0)%nat ∧ (0 < m ≤ length k)%nat ∧
    ((m < length (key (node_at c child)))%nat →
      drop m k = [] ∨
      od_get (take (page_size c) (drop m k)) (children (node_at r.2 r.1)) = None).
Proof.
  intros R Gn Ak Nk Hc. unfold walk_len, walk_to.
  pose proof (same_touch clock child c) as St. pose proof (repr_same _ _ _ _ St R) as Rt.
  destruct (same_node _ _ St child) as (_ & _ & Ek & _).
  set (ct := touch clock child c) in *. rewrite <-Ek.
  assert (page_size ct = page_size c) as Ep by apply St.
  assert (od_get (take (page_size ct) k) (children (node_at ct node)) = Some child) as Hc'.
  { rewrite Ep. by destruct (same_node _ _ St node) as (-> & _). }
  destruct (descend _ _ _ Rt node ln k child Gn) as (l & Gl & Hr & Hok & Hm0 & Hm); [by rewrite Ep|done..|].
  cbv zeta. set (m := key_match_fn ct (key (node_at ct child)) k) in *.
  destruct Hm as [M1 M2 M3 M4 M5]. pose proof Hok as [_ _ _ _ _ _ Hlen Hl].
  rewrite Ep in M3, M5.
  destruct (Nat.ltb_spec m (length (key (node_at ct child)))) as [Hlt|Hge].
  - destruct (split_ok ct G H child l node ln m Rt Gl Hok ltac:(lia)) as (R' & Rf & Ec & Es); [by rewrite Ep|].
    eexists _, _. split_and!; [done|by eapply refined_trans; [apply refined_same|]
      |by rewrite lookup_insert_eq|..]; try lia.
    + by rewrite fmap_app, fst_zip, M4 by (rewrite !length_take; lia).
    + by rewrite fmap_app, snd_zip, Es by (rewrite !length_take; lia).
    + by apply aligned_drop.
    + intros _. destruct (decide (m = length k)) as [E|Nm]; [left; by apply drop_ge; lia|right].
      rewrite Ec, Ep. cbn [od_get]. rewrite decide_False; [done|].
      destruct M5 as [?|[?|M5]]; [lia..|]. congruence.
  - exists G, l. simpl. split_and!; [done|by apply refined_same|done|..]; try lia.
    + rewrite Hl, fmap_app, fst_zip, <-M4, take_ge by lia. done.
    + by rewrite Hl, fmap_app, snd_zip by lia.
    + by apply aligned_drop.
Qed.

(** [match_loop], one round at a time. *)
Lemma match_loop_step fuel c node k v child :
  k ≠ [] → od_get (take (page_size c) k) (children (node_at c node)) = Some child →
  let r := walk_to child k c in
  match_loop hash clock (S fuel) node k v c =
  if (walk_len child k c <? length (key (node_at (touch clock child c) child)))%nat
  then Ok (v ++ [slots (node_at r.2 r.1)], r.1, r.2)
  else match_loop hash clock fuel r.1 (drop (walk_len child k c) k)
         (v ++ [slots (node_at r.2 r.1)]) r.2.
Proof.
  intros Nk Hc. unfold walk_to, walk_len. cbn [match_loop]. unfold get_child_key_fn.
  destruct k as [|t k]; [done|]. rewrite Hc. cbv zeta. case_match; [|done].
  by destruct (_split_node _ _ _ _ _ _).
Qed.

Lemma match_loop_ok H fuel c G node ln k v :
  repr c G H → G !! node = Some ln → (length k mod page_size c = 0)%nat →
  (length k < fuel)%nat → concat v = ln.*2 →
  ∃ v' last c' G' lw,
    match_loop hash clock fuel node k v c = Ok (v', last, c') ∧
    repr c' G' H ∧ refined c G c' G' ∧ G' !! last = Some lw ∧
    concat v' = lw.*2 ∧ longest (page_size c) G (ln.*1 ++ k) lw.
Proof.
  revert c G node ln k v. induction fuel as [|fuel IH]; intros c G node ln k v R Gn Ak Hf Hv; [lia|].
  assert (match_loop hash clock (S fuel) node k v c = Ok (v, node, c) →
    k = [] ∨ od_get (take (page_size c) k) (children (node_at c node)) = None →
    ∃ v' last c' G' lw, match_loop hash clock (S fuel) node k v c = Ok (v', last, c') ∧
      repr c' G' H ∧ refined c G c' G' ∧ G' !! last = Some lw ∧
      concat v' = lw.*2 ∧ longest (page_size c) G (ln.*1 ++ k) lw) as Hstop.
  { intros E Hst. exists v, node, c, G, ln. split_and!; try done. by eapply stuck_longest. }
  destruct (decide (k = [])) as [->|Nk]; [by apply Hstop; auto|].
  destruct (od_get (take (page_size c) k) (children (node_at c node))) as [child|] eqn:Hc.
  2:{ apply Hstop; [|by auto]. destruct k; [done|].
      cbn [match_loop]. unfold get_child_key_fn. by rewrite Hc. }
  clear Hstop. rewrite (match_loop_step _ _ _ _ _ child) by done.
  destruct (walk_step H c G node ln k child R Gn Ak Nk Hc)
    as (G' & l' & R' & Rf & Gl' & E1 & E2 & Ad & Hm & Hst).
  pose proof (same_node _ _ (same_touch clock child c) child) as (_ & _ & -> & _).
  set (m := walk_len child k c) in *. destruct (walk_to child k c) as [node' c'].
  cbv zeta. simpl fst in *. simpl snd in *.
  assert (l'.*1 ++ drop m k = ln.*1 ++ k) as EK by (by rewrite E1, <-app_assoc, take_drop).
  assert (concat (v ++ [slots (node_at c' node')]) = l'.*2) as Ev.
  { by rewrite concat_app, Hv, E2; simpl; rewrite app_nil_r. }
  rewrite <-(rf_page _ _ _ _ Rf) in Ad, Hst.
  destruct (Nat.ltb_spec m (length (key (node_at c child)))) as [Hlt|Hge].
  - eexists _, _, _, G', l'. split_and!; try done.
    rewrite <-EK. eapply refined_longest; [done|]. eapply stuck_longest; eauto.
  - destruct (IH c' G' node' l' (drop m k) _ R' Gl' Ad ltac:(rewrite length_drop; lia) Ev)
      as (v' & last & c'' & G'' & lw & A1 & A2 & A3 & A4 & A5 & A6).
    exists v', last, c'', G'', lw. split_and!; try done.
    + by eapply refined_trans.
    + rewrite EK in A6. by eapply refined_longest.
Qed.

End walk.
