(* ===== verification/RadixInsert.v ===== *)
(** * Insertion into the radix tree, and the cache contract

    [insert] walks like [match_prefix] and hangs the unmatched suffix below
    the node it stops at.  The theorems here are the contract of the cache as
    a prefix store: what [match_prefix] returns, what [insert] adds and
    returns, and the round trip between them. *)

From S2P Require Import Prelude RadixCache RadixInv RadixOwn RadixSplit RadixMatch.

(** ** A new leaf *)

Section leaf.
Context (hash : list Z → Z) (clock : nat → Z).

(** The last step of [_insert_helper]. *)
Definition add_leaf (node : nat) (k v : list Z) (c : RadixCache) : RadixCache :=
  let '(new_node, c) := alloc_node clock c in
  let c := upd new_node (fun nd => set_kv k (Some v) (set_parent (Some node) nd)) c in
  let c := upd node (fun nd =>
    set_children (od_set (get_child_key_fn c k) new_node (children nd)) nd) c in
  let c := set_sizes (evictable_size_ c + len v) (protected_size_ c) c in
  _record_store_event hash new_node c.

Context (c : RadixCache) (G : gmap nat path) (H : list nat) (R : repr c G H).
Context (node : nat) (ln : path) (k v : list Z)
  (Gn : G !! node = Some ln) (Nk : k ≠ []) (Ak : (length k mod page_size c = 0)%nat)
  (Lv : length v = length k)
  (Hst : od_get (take (page_size c) k) (children (node_at c node)) = None).

Local Abbreviation new := (counter c).
Local Abbreviation lf := (ln ++ zip k v).
Local Abbreviation G' := (<[new := lf]> G).
Local Abbreviation c' := (add_leaf node k v c).

Lemma leaf_fresh : G !! new = None.
Proof.
  destruct (G !! new) eqn:E; [|done].
  pose proof (r_fresh _ _ _ R _ (r_store _ _ _ R _ _ E)). lia.
Qed.

Lemma leaf_in_G n x : G !! n = Some x → n ≠ new.
Proof. intros Hn ->. rewrite leaf_fresh in Hn. done. Qed.

Lemma leaf_G_old n x : G !! n = Some x → G' !! n = Some x.
Proof. intros E. rewrite lookup_insert_ne; [done|]. apply not_eq_sym. by eapply leaf_in_G. Qed.

Lemma leaf_shape :
  page_size c' = page_size c ∧ root_node c' = root_node c ∧ counter c' = S new ∧
  evictable_size_ c' = evictable_size_ c + len v ∧ protected_size_ c' = protected_size_ c ∧
  disable c' = disable c ∧
  (∀ n, is_Some (nodes c' !! n) ↔ n = new ∨ is_Some (nodes c !! n)) ∧
  node_same (node_at c' new) (set_kv k (Some v) (set_parent (Some node) (new_TreeNode new 0))) ∧
  (∀ n, n ≠ new → n ≠ node → node_same (node_at c' n) (node_at c n)) ∧
  node_same (node_at c' node)
    (set_children (od_set (take (page_size c) k) new (children (node_at c node))) (node_at c node)).
Proof.
  unfold add_leaf.
  destruct (alloc_node clock c) as [x a] eqn:Ea.
  assert (a = (alloc_node clock c).2) as -> by (by rewrite Ea).
  assert (x = new) as -> by (by injection Ea). clear Ea.
  set (a := (alloc_node clock c).2) in *.
  assert (∀ m, is_Some (nodes a !! m) ↔ m = new ∨ is_Some (nodes c !! m)) as Da.
  { intros m. unfold a, alloc_node; simpl. rewrite lookup_insert_is_Some.
    destruct (decide (new = m)); naive_solver. }
  pose proof (leaf_in_G _ _ Gn) as Nn. pose proof (r_store _ _ _ R _ _ Gn) as Sn.
  match goal with |- context[upd new ?f a] => set (b := upd new f a) in * end.
  match goal with |- context[upd node ?f b] => set (d := upd node f b) in * end.
  assert (∀ m, node_at (set_sizes (evictable_size_ d + len v) (protected_size_ d) d) m = node_at d m)
    as Es by done.
  match goal with |- context[_record_store_event hash new ?e] =>
    pose proof (same_record_store hash new e) as [S1 S2 S3 S4 S5 S6 S7 S8 S9] end.
  rewrite S1, S2, S3, S4, S5, S6. split_and!; try done.
  - intros n. rewrite S8. unfold d, b. simpl. rewrite !lookup_alter_is_Some. apply Da.
  - specialize (S9 new). rewrite Es in S9. unfold d in S9. rewrite node_at_upd_ne in S9 by done.
    unfold b in S9. rewrite node_at_upd_eq in S9 by (apply Da; auto).
    unfold a in S9. rewrite node_at_alloc_eq in S9. apply S9.
  - intros n N1 N2. specialize (S9 n). rewrite Es in S9. unfold d, b in S9.
    rewrite !node_at_upd_ne in S9 by done. unfold a in S9. by rewrite node_at_alloc_ne in S9.
  - specialize (S9 node). rewrite Es in S9. unfold d in S9.
    rewrite node_at_upd_eq in S9 by (unfold b; rewrite dom_upd; apply Da; auto).
    unfold b in S9. rewrite !node_at_upd_ne in S9 by done. unfold a in S9.
    by rewrite node_at_alloc_ne in S9.
Qed.

Lemma leaf_page : (page_size c ≤ length k)%nat.
Proof.
  apply (aligned_gap (page_size c) 0 (length k)); [apply Nat.Div0.mod_0_l|done|].
  destruct k; [done|simpl; lia].
Qed.

(** No path of the tree goes through the new leaf. *)
Lemma leaf_alone m lm : G !! m = Some lm → ¬ lf `prefix_of` lm.
Proof.
  intros Hm Hp. pose proof leaf_page. pose proof (r_page _ _ _ R).
  pose proof (prefix_length _ _ Hp) as Hl. rewrite length_app, length_zip_with, Lv in Hl.
  destruct (path_down _ _ _ R m lm node ln Hm Gn) as (x & lx & Hx & _).
  - apply prefix_fmap_fst. etrans; [|done]. by apply prefix_app_r.
  - lia.
  - rewrite <-(page_of_prefix _ lf.*1) in Hx; [|by apply prefix_fmap_fst|].
    2:{ rewrite length_fmap, length_app, length_zip_with, Lv. lia. }
    rewrite fmap_app, drop_app_length', fst_zip in Hx by (by rewrite ?length_fmap, ?Lv).
    congruence.
Qed.

Lemma leaf_holders x : holders G' H x = holders G H x.
Proof.
  unfold holders. f_equal. apply filter_ext_elem. intros h Hh.
  destruct (r_handles _ _ _ R h Hh) as [lh E]. by rewrite E, (leaf_G_old _ _ E).
Qed.

Lemma leaf_unheld : holders G H lf = 0.
Proof.
  unfold holders. rewrite filter_none; [done|]. intros h Hh.
  destruct (r_handles _ _ _ R h Hh) as [lh E]. rewrite E. by eapply leaf_alone.
Qed.

Lemma leaf_stored x : stored G' x ↔ stored G x ∨ x `prefix_of` lf.
Proof.
  split.
  - intros (n & y & Hn & Hx). destruct (decide (n = new)) as [->|Hne].
    + rewrite lookup_insert_eq in Hn. injection Hn as <-. by right.
    + rewrite lookup_insert_ne in Hn by done. left. by exists n, y.
  - intros [(n & y & Hn & Hx)|Hx].
    + exists n, y. split; [|done]. by apply leaf_G_old.
    + exists new, lf. by rewrite lookup_insert_eq.
Qed.

(** Objects after the insertion. *)
Lemma leaf_other n :
  n ≠ new → parent (node_at c' n) = parent (node_at c n) ∧ key (node_at c' n) = key (node_at c n) ∧
    value (node_at c' n) = value (node_at c n) ∧ lock_ref (node_at c' n) = lock_ref (node_at c n) ∧
    slots (node_at c' n) = slots (node_at c n).
Proof.
  intros Nn. pose proof leaf_shape as (_&_&_&_&_&_&_&_&So&Sn).
  destruct (decide (n = node)) as [->|Hne].
  - destruct Sn as (_&E2&E3&E4&E5). unfold slots. rewrite E2, E3, E4, E5. done.
  - destruct (So n Nn Hne) as (_&E2&E3&E4&E5). unfold slots. by rewrite E2, E3, E4, E5.
Qed.

Lemma leaf_children n :
  n ≠ new → children (node_at c' n) =
    if decide (n = node) then od_set (take (page_size c) k) new (children (node_at c node))
    else children (node_at c n).
Proof.
  intros Nn. pose proof leaf_shape as (_&_&_&_&_&_&_&_&So&Sn).
  case_decide as D; [subst|].
  - by destruct Sn as (->&_).
  - by destruct (So n Nn D) as (->&_).
Qed.

Lemma leaf_new_node :
  children (node_at c' new) = [] ∧ parent (node_at c' new) = Some node ∧ key (node_at c' new) = k ∧
  value (node_at c' new) = Some v ∧ lock_ref (node_at c' new) = 0 ∧ slots (node_at c' new) = v.
Proof.
  pose proof leaf_shape as (_&_&_&_&_&_&_&(E1&E2&E3&E4&E5)&_). unfold slots.
  by rewrite E1, E2, E3, E4, E5.
Qed.

Lemma leaf_child_key x : get_child_key_fn c' x = get_child_key_fn c x.
Proof. unfold get_child_key_fn. by pose proof leaf_shape as (->&_). Qed.

Lemma leaf_node_ok n x : G' !! n = Some x → n ≠ root_node c → ∃ q lq, node_ok c' G' n x q lq.
Proof.
  intros Hn Hr. pose proof leaf_shape as (Ep&_).
  pose proof (leaf_in_G _ _ Gn) as Nn.
  destruct (decide (n = new)) as [->|Hne].
  - rewrite lookup_insert_eq in Hn. injection Hn as <-. exists node, ln.
    pose proof leaf_new_node as (E1&E2&E3&E4&_&E5).
    split; rewrite ?E2, ?E3, ?E4, ?E5, ?Ep, ?leaf_child_key; try done.
    + by apply leaf_G_old.
    + rewrite leaf_children, decide_True by done. apply od_get_set_eq.
  - rewrite lookup_insert_ne in Hn by done.
    destruct (r_node _ _ _ R n x Hn Hr) as (q & lq & [H1 H2 H3 H4 H5 H6 H7 H8]).
    exists q, lq. pose proof (leaf_other n Hne) as (E1&E2&E3&E4&E5).
    split; rewrite ?E1, ?E2, ?E3, ?E5, ?Ep, ?leaf_child_key; try done.
    + by apply leaf_G_old.
    + rewrite leaf_children by (by eapply leaf_in_G). case_decide as D; [|done].
      subst q. rewrite od_get_set_ne; [done|]. unfold get_child_key_fn in *. congruence.
Qed.

Lemma leaf_children_ok n x y m :
  G' !! n = Some x → od_get y (children (node_at c' n)) = Some m →
  is_Some (G' !! m) ∧ m ≠ root_node c ∧ parent (node_at c' m) = Some n ∧
  get_child_key_fn c (key (node_at c' m)) = y.
Proof.
  intros Hn Hm. pose proof leaf_new_node as (E1&E2&E3&_).
  pose proof leaf_fresh as Fr.
  destruct (decide (n = new)) as [->|Hne]; [by rewrite E1 in Hm|].
  rewrite lookup_insert_ne in Hn by done. rewrite leaf_children in Hm by done.
  assert (od_get y (children (node_at c n)) = Some m →
    is_Some (G' !! m) ∧ m ≠ root_node c ∧ parent (node_at c' m) = Some n ∧
    get_child_key_fn c (key (node_at c' m)) = y) as Hold.
  { intros Hm'. destruct (r_children _ _ _ R n x y m Hn Hm') as ([z Hz] & Q1 & Q2 & Q3).
    destruct (leaf_other m) as (->&->&_); [by eapply leaf_in_G|].
    split_and!; try done. eexists. by apply leaf_G_old. }
  case_decide as D; [|by apply Hold]. subst n.
  destruct (decide (y = take (page_size c) k)) as [->|Ny].
  - rewrite od_get_set_eq in Hm. injection Hm as <-. rewrite E2, E3.
    split_and!; try done; [by rewrite lookup_insert_eq|].
    intros E. rewrite E in Fr. by rewrite (r_root _ _ _ R) in Fr.
  - rewrite od_get_set_ne in Hm by done. by apply Hold.
Qed.

Lemma leaf_sums (f : RadixCache → nat → path → Z) :
  (∀ n x, G !! n = Some x → f c' n x = f c n x) →
  gsum (f c') G' = f c' new lf + gsum (f c) G.
Proof.
  intros E. rewrite gsum_insert by apply leaf_fresh. f_equal. by apply gsum_ext.
Qed.

Lemma leaf_repr : repr c' G' H.
Proof.
  pose proof leaf_shape as (Ep&Er&Ec&Ee&Epr&_&Ed&_&_&_).
  pose proof leaf_new_node as (C1&C2&C3&C4&C5&C6).
  assert (new ≠ root_node c) as Nr by (apply not_eq_sym; eapply leaf_in_G, (r_root _ _ _ R)).
  assert (∀ n, n ≠ new → weight c' n = weight c n) as W.
  { intros n Hn. unfold weight. by destruct (leaf_other n Hn) as (_&->&_). }
  split; rewrite ?Ep, ?Er; try apply R.
  - apply leaf_G_old, R.
  - destruct (leaf_other (root_node c)) as (->&->&->&_); [done|]. apply R.
  - intros n x Hn. apply Ed. destruct (decide (n = new)) as [->|Hne]; [auto|].
    rewrite lookup_insert_ne in Hn by done. right. by eapply (r_store _ _ _ R).
  - intros n Hn. rewrite Ec. apply Ed in Hn as [->|Hn]; [lia|].
    pose proof (r_fresh _ _ _ R _ Hn). lia.
  - intros n x. by apply leaf_node_ok.
  - intros n x y m Hn Hm. rewrite leaf_child_key. by eapply leaf_children_ok.
  - intros n x Hn. destruct (decide (n = new)) as [->|Hne]; [rewrite C1; apply NoDup_nil_2|].
    rewrite lookup_insert_ne in Hn by done. rewrite leaf_children by done.
    case_decide; [apply od_set_NoDup|]; by eapply (r_nodup _ _ _ R).
  - intros n x Hn Hnr. rewrite leaf_holders. destruct (decide (n = new)) as [->|Hne].
    { rewrite lookup_insert_eq in Hn. injection Hn as <-. by rewrite C5, leaf_unheld. }
    rewrite lookup_insert_ne in Hn by done. destruct (leaf_other n Hne) as (_&_&_&->&_).
    by apply (r_locks _ _ _ R).
  - intros h Hh. destruct (r_handles _ _ _ R h Hh) as [y Hy]. eexists. by apply leaf_G_old.
  - rewrite Ee, (leaf_sums evictable_weight), (r_evictable _ _ _ R); unfold evictable_weight; rewrite Er.
    + rewrite decide_False, C5 by done. rewrite decide_True by done. unfold weight.
      rewrite C3. unfold len. lia.
    + intros n x Hn. assert (n ≠ new) as Hne by (by eapply leaf_in_G).
      rewrite W by done. by destruct (leaf_other n Hne) as (_&_&_&->&_).
  - rewrite Epr, (leaf_sums protected_weight), (r_protected _ _ _ R); unfold protected_weight; rewrite Er.
    + rewrite decide_False, C5 by done. rewrite decide_True by done. lia.
    + intros n x Hn. assert (n ≠ new) as Hne by (by eapply leaf_in_G).
      rewrite W by done. by destruct (leaf_other n Hne) as (_&_&_&->&_).
Qed.

Lemma leaf_chunks :
  tree_chunks c' G' ≡ₚ pages (page_size c) v ++ tree_chunks c G.
Proof.
  pose proof leaf_shape as (Ep&_). pose proof leaf_new_node as (_&_&_&_&_&Es).
  rewrite tree_chunks_insert, Ep, Es by apply leaf_fresh. f_equiv.
  rewrite (tree_chunks_ext c c' G); [done|done|]. intros n x Hn.
  by destruct (leaf_other n) as (_&_&_&_&->); [eapply leaf_in_G|].
Qed.

End leaf.

(** ** The insertion walk *)

Section walk.
Context (hash : list Z → Z) (clock : nat → Z).

Lemma insert_loop_step fuel c node k v tot child :
  k ≠ [] → od_get (take (page_size c) k) (children (node_at c node)) = Some child →
  let r := walk_to hash clock child k c in
  let m := walk_len clock child k c in
  insert_loop hash clock (S fuel) node k v tot c =
  insert_loop hash clock fuel r.1 (drop m k) (drop m v) (tot + Z.of_nat m) r.2.
Proof.
  intros Nk Hc. unfold walk_to, walk_len. cbn [insert_loop]. unfold get_child_key_fn.
  destruct k as [|t k]; [done|]. rewrite Hc. cbv zeta.
  destruct (_ <? _)%nat; [|done]. by destruct (_split_node _ _ _ _ _ _).
Qed.

Lemma insert_loop_ok H fuel c G node ln k v tot :
  repr c G H → G !! node = Some ln → (length k mod page_size c = 0)%nat →
  (length k < fuel)%nat →
  ∃ node' c' G' lw m,
    insert_loop hash clock fuel node k v tot c =
      Ok (node', drop m k, drop m v, tot + Z.of_nat m, c') ∧
    repr c' G' H ∧ refined c G c' G' ∧ G' !! node' = Some lw ∧
    lw.*1 = ln.*1 ++ take m k ∧ (m ≤ length k)%nat ∧ (m mod page_size c = 0)%nat ∧
    (drop m k = [] ∨ od_get (take (page_size c) (drop m k)) (children (node_at c' node')) = None).
Proof.
  revert c G node ln k v tot.
  induction fuel as [|fuel IH]; intros c G node ln k v tot R Gn Ak Hf; [lia|].
  assert (insert_loop hash clock (S fuel) node k v tot c = Ok (node, k, v, tot, c) →
    k = [] ∨ od_get (take (page_size c) k) (children (node_at c node)) = None →
    ∃ node' c' G' lw m,
    insert_loop hash clock (S fuel) node k v tot c =
      Ok (node', drop m k, drop m v, tot + Z.of_nat m, c') ∧
    repr c' G' H ∧ refined c G c' G' ∧ G' !! node' = Some lw ∧
    lw.*1 = ln.*1 ++ take m k ∧ (m ≤ length k)%nat ∧ (m mod page_size c = 0)%nat ∧
    (drop m k = [] ∨ od_get (take (page_size c) (drop m k)) (children (node_at c' node')) = None))
    as Hstop.
  { intros E Hst. exists node, c, G, ln, 0%nat. rewrite !drop_0, Z.add_0_r, app_nil_r.
    split_and!; try done; try lia. apply Nat.Div0.mod_0_l. }
  destruct (decide (k = [])) as [->|Nk]; [by apply Hstop; auto|].
  destruct (od_get (take (page_size c) k) (children (node_at c node))) as [child|] eqn:Hc.
  2:{ apply Hstop; [|by auto]. destruct k; [done|].
      cbn [insert_loop]. unfold get_child_key_fn. by rewrite Hc. }
  clear Hstop. rewrite (insert_loop_step _ _ _ _ _ _ child) by done.
  destruct (walk_step hash clock H c G node ln k child R Gn Ak Nk Hc)
    as (G' & l' & R' & Rf & Gl' & E1 & _ & Ad & Hm & _).
  set (m := walk_len clock child k c) in *. destruct (walk_to hash clock child k c) as [node' c'].
  cbv zeta. simpl fst in *. simpl snd in *. pose proof (rf_page _ _ _ _ Rf) as Ep.
  rewrite <-Ep in Ad.
  destruct (IH c' G' node' l' (drop m k) (drop m v) (tot + Z.of_nat m) R' Gl' Ad
    ltac:(rewrite length_drop; lia)) as (n2 & c2 & G2 & lw & m2 & A1 & A2 & A3 & A4 & A5 & A6 & A7 & A8).
  rewrite Ep in A7, A8. rewrite !drop_drop in A1. rewrite drop_drop in A8.
  rewrite length_drop in A6.
  exists n2, c2, G2, lw, (m + m2)%nat. split_and!; try done.
  - rewrite A1. by replace (tot + Z.of_nat m + Z.of_nat m2) with (tot + Z.of_nat (m + m2)) by lia.
  - by eapply refined_trans.
  - by rewrite A5, E1, <-app_assoc, take_take_drop.
  - lia.
  - assert (m mod page_size c = 0)%nat as Am.
    { rewrite Ep, length_drop in Ad. apply Nat.Div0.mod_divides in Ak as [x Hx].
      apply Nat.Div0.mod_divides in Ad as [y Hy].
      assert (m = page_size c * (x - y))%nat as -> by nia. rewrite Nat.mul_comm.
      apply Nat.Div0.mod_mul. }
    by rewrite <-Nat.Div0.add_mod_idemp_l, Am.
Qed.

(** *** The two operations on a consistent cache *)

Lemma match_prefix_ok H c G k :
  repr c G H → disable c = false → k ≠ [] →
  ∃ r c' G' lw,
    match_prefix hash clock k c = Ok (r, c') ∧ repr c' G' H ∧ refined c G c' G' ∧
    longest (page_size c) G (take (length k / page_size c * page_size c)%nat k) lw ∧
    device_indices r = lw.*2 ∧ G' !! last_device_node r = Some lw ∧
    last_host_node r = last_device_node r ∧ host_hit_length r = 0.
Proof.
  intros R Hd Nk. unfold match_prefix. rewrite Hd, bool_decide_false by done. simpl orb.
  pose proof (r_page _ _ _ R) as Hps.
  set (K := take (length k / page_size c * page_size c)%nat k).
  assert (length K = length k / page_size c * page_size c)%nat as LK.
  { unfold K. rewrite length_take. pose proof (Nat.Div0.mul_div_le (length k) (page_size c)). lia. }
  assert ((if (page_size c =? 1)%nat then k else K) = K) as ->.
  { case_match eqn:E; [|done]. apply Nat.eqb_eq in E. unfold K. rewrite E.
    rewrite take_ge; [done|]. rewrite Nat.div_1_r. lia. }
  unfold _match_prefix_helper.
  pose proof (same_touch clock (root_node c) c) as St.
  pose proof (repr_same _ _ _ _ St R) as Rt. set (ct := touch clock (root_node c) c) in *.
  assert (page_size ct = page_size c) as Ep by apply St. rewrite Ep.
  assert ((page_size c =? 1)%nat && bool_decide (K = []) = false) as ->.
  { destruct (Nat.eqb_spec (page_size c) 1) as [E|]; [|done]. simpl.
    apply bool_decide_false. intros E'. apply (f_equal length) in E'.
    rewrite LK, E, Nat.div_1_r in E'. destruct k; [done|]. simpl in E'. lia. }
  destruct (match_loop_ok hash clock H (S (length K)) ct G (root_node c) [] K [])
    as (v' & last & c' & G' & lw & A1 & A2 & A3 & A4 & A5 & A6); try done.
  { apply (r_root _ _ _ R). }
  { rewrite LK, Ep. apply Nat.Div0.mod_mul. }
  { lia. }
  rewrite A1. eexists _, _, G', lw. split_and!; [done|done| |by rewrite <-Ep|done..].
  eapply refined_trans; [by apply refined_same|done].
Qed.

Lemma insert_ok H c G k v :
  repr c G H → disable c = false → (length k mod page_size c = 0)%nat → length v = length k →
  ∃ c' G' lw,
    insert hash clock k (Some v) c = Ok (len lw, c') ∧ repr c' G' H ∧ G ⊆ G' ∧
    longest (page_size c) G k lw ∧
    (∀ l, stored G' l ↔ stored G l ∨
       l `prefix_of` lw ++ zip (drop (length lw) k) (drop (length lw) v)) ∧
    evictable_size c' = evictable_size c + (len k - len lw) ∧
    protected_size c' = protected_size c ∧ page_size c' = page_size c ∧
    root_node c' = root_node c ∧ disable c' = false ∧
    tree_chunks c' G' ≡ₚ pages (page_size c) (drop (length lw) v) ++ tree_chunks c G.
Proof.
  intros R Hd Ak Lv. unfold insert. rewrite Hd. simpl default. unfold _insert_helper.
  pose proof (same_touch clock (root_node c) c) as St.
  pose proof (repr_same _ _ _ _ St R) as Rt. set (ct := touch clock (root_node c) c) in *.
  assert (page_size ct = page_size c) as Ep by apply St.
  pose proof (r_root _ _ _ R) as Gr.
  assert (match k with [] => true | _ => false end = true → k = []) as Hnil by (by destruct k).
  destruct (decide (k = [])) as [->|Nk].
  { exists ct, G, []. split_and!; try done; try apply St.
    - pose proof (stuck_longest c G H R (root_node c) [] [] Gr Ak) as X. apply X. auto.
    - intros l. simpl. split; [auto|]. intros [?|[? ?]]; [done|].
      exists (root_node c), []. split; [done|]. by destruct l.
    - unfold evictable_size. rewrite (same_ev _ _ St). unfold len; simpl; lia.
    - rewrite (same_chunks _ _ _ St). destruct v; [|done]. by rewrite pages_nil by apply R. }
  destruct (insert_loop_ok H (S (length k)) ct G (root_node c) [] k v 0 Rt Gr)
    as (n & c1 & G1 & lw & m & A1 & A2 & A3 & A4 & A5 & A6 & A7 & A8); [by rewrite Ep|lia|].
  assert (longest (page_size c) G k lw) as HL.
  { rewrite <-Ep. eapply refined_longest; [done|].
    pose proof (rf_page _ _ _ _ A3) as Ep1.
    replace k with (lw.*1 ++ drop m k) by (rewrite A5; apply take_drop).
    eapply stuck_longest; [done|done| |by rewrite Ep1]. rewrite Ep1. apply aligned_drop; [by rewrite Ep|done]. }
  assert (length lw = m) as Em.
  { rewrite <-(length_fmap fst), A5. simpl. rewrite length_take. lia. }
  assert (refined c G c1 G1) as Rf by (eapply refined_trans; [by apply refined_same|done]).
  pose proof Rf as [F1 F2 F3 F4 F5 F6 F7 F8].
  assert (0 + Z.of_nat m = len lw) as El by (unfold len; lia).
  destruct k as [|t k'] eqn:Ek; [done|]. rewrite <-Ek in *. rewrite A1. cbn [mbind pyres_bind].
  rewrite El.
  destruct (drop m k) as [|t2 k2] eqn:Edk.
  - exists c1, G1, lw. assert (length k = m) as Elen.
    { apply (f_equal length) in Edk. rewrite length_drop in Edk. simpl in Edk. lia. }
    split_and!; try done.
    + intros l. rewrite F7, Em, Edk. simpl. rewrite app_nil_r. split; [auto|].
      intros [?|Hl]; [done|]. apply F7. exists n, lw. done.
    + unfold evictable_size. rewrite F4. unfold len. lia.
    + congruence.
    + rewrite F8, drop_ge, pages_nil by (lia || apply R). done.
  - rewrite <-Edk in *. rewrite Ep, <-F1 in A8. rewrite <-F1 in Ak, HL |- *.
    assert (drop m k ≠ []) as Nd by (rewrite Edk; done).
    assert (length (drop m v) = length (drop m k)) as Ld by (rewrite !length_drop; lia).
    assert (length (drop m k) mod page_size c1 = 0)%nat as Ad.
    { apply aligned_drop; [done|]. by rewrite Ep, <-F1 in A7. }
    destruct A8 as [?|A8]; [done|].
    pose proof (leaf_repr hash clock c1 G1 H A2 n lw _ _ A4 Nd Ad Ld A8) as RL.
    pose proof (leaf_shape hash clock c1 G1 H A2 n lw (drop m k) (drop m v) A4 Ad Ld)
      as (L1 & L2 & _ & L4 & L5 & L6 & _).
    exists (add_leaf hash clock n (drop m k) (drop m v) c1), (<[counter c1 := lw ++ zip (drop m k) (drop m v)]> G1), lw.
    split_and!; [by rewrite Edk|exact RL|..]; try done.
    + etrans; [done|]. apply insert_subseteq. by eapply leaf_fresh.
    + intros l. rewrite (leaf_stored c1 G1 H A2 _ _ _ Ad Ld), F7, Em. done.
    + unfold evictable_size. rewrite L4, F4. unfold len. rewrite Ld, length_drop. lia.
    + unfold protected_size. congruence.
    + congruence.
    + congruence.
    + rewrite (leaf_chunks hash clock c1 G1 H A2 n lw _ _ A4 Ad Ld), F8, Em. done.
Qed.

End walk.

(** After an insertion of [k], the longest stored prefix of [k] is all of it. *)
Lemma inserted_longest ps G G' (k v : list Z) lw l2 :
  longest ps G k lw → (length k mod ps = 0)%nat → length v = length k →
  (∀ l, stored G' l ↔ stored G l ∨
     l `prefix_of` lw ++ zip (drop (length lw) k) (drop (length lw) v)) →
  longest ps G' k l2 →
  l2 = lw ++ zip (drop (length lw) k) (drop (length lw) v) ∧ l2.*1 = k ∧
  l2.*2 = lw.*2 ++ drop (length lw) v.
Proof.
  intros [B1 B2 B3 B4] Ak Lv Hst [C1 C2 C3 C4].
  pose proof (prefix_length _ _ B2) as Lw. rewrite length_fmap in Lw.
  assert ((lw ++ zip (drop (length lw) k) (drop (length lw) v)).*1 = k) as Ek.
  { rewrite fmap_app, fst_zip by (rewrite !length_drop; lia).
    apply prefix_take_iff in B2. rewrite length_fmap in B2. by rewrite B2, take_drop. }
  assert (l2 = lw ++ zip (drop (length lw) k) (drop (length lw) v)) as ->.
  { symmetry. apply prefix_length_eq.
    - apply C4; [apply Hst; by right| |by rewrite Ek].
      rewrite length_app, length_zip_with, !length_drop, Lv, Nat.min_id.
      by replace (length lw + (length k - length lw))%nat with (length k) by lia.
    - apply prefix_length in C2. rewrite length_fmap in C2.
      rewrite length_app, length_zip_with, !length_drop. lia. }
  split_and!; [done|done|]. by rewrite fmap_app, snd_zip by (rewrite !length_drop; lia).
Qed.

(** ** Construction *)

Lemma reset_repr clock c :
  (0 < page_size c)%nat → (∀ n, is_Some (nodes c !! n) → (n < counter c)%nat) →
  repr (reset clock c) {[counter c := []]} [] ∧
  page_size (reset clock c) = page_size c ∧ disable (reset clock c) = disable c ∧
  evictable_size (reset clock c) = 0 ∧ protected_size (reset clock c) = 0.
Proof.
  intros Hps Hfr. unfold reset, _record_all_cleared_event, alloc_node.
  set (root := set_lock_ref 1 (set_host_value (Some []) (set_kv [] (Some [])
    (new_TreeNode (counter c) (now clock c))))).
  set (b := mkCache (page_size c) (disable c) (enable_kv_cache_events c) (kv_event_queue c)
    (<[counter c := root]> (nodes c)) (S (counter c)) (counter c) 0 0 (S (ticks c))).
  assert (repr b {[counter c := []]} []) as Rb.
  { assert (node_at b (counter c) = root) as E.
    { unfold node_at; simpl. by rewrite lookup_total_alt, lookup_insert_eq. }
    assert (∀ n l, ({[counter c := []]} : gmap nat path) !! n = Some l → n = counter c ∧ l = []) as Hs.
    { intros n l. rewrite lookup_singleton_Some. naive_solver. }
    split; simpl; try done.
    - by rewrite lookup_singleton_eq.
    - by rewrite E.
    - intros n l [-> ->]%Hs. by rewrite lookup_insert_eq.
    - intros n [->|[_ Hn]]%lookup_insert_is_Some; [lia|]. specialize (Hfr n Hn). lia.
    - intros n l [-> ->]%Hs. done.
    - intros n l k m [-> ->]%Hs. by rewrite E.
    - intros n l [-> ->]%Hs. rewrite E. apply NoDup_nil_2.
    - intros n l [-> ->]%Hs. done.
    - intros h Hh. by apply elem_of_nil in Hh.
    - rewrite <-insert_empty, gsum_insert, gsum_empty by apply lookup_empty.
      unfold evictable_weight. by rewrite decide_True.
    - rewrite <-insert_empty, gsum_insert, gsum_empty by apply lookup_empty.
      unfold protected_weight. by rewrite decide_True. }
  assert (alter (fun nd => set_lock_ref 1 (set_host_value (Some []) (set_kv [] (Some []) nd))) (counter c)
    (<[counter c := new_TreeNode (counter c) (now clock c)]> (nodes c)) = <[counter c := root]> (nodes c)) as Ea.
  { apply map_eq. intros n. destruct (decide (n = counter c)) as [->|Hne].
    - by rewrite lookup_alter_eq, !lookup_insert_eq.
    - by rewrite lookup_alter_ne, !lookup_insert_ne by done. }
  cbn -[alter insert]. unfold upd, set_nodes. cbn -[alter insert]. rewrite Ea.
  destruct (enable_kv_cache_events c) eqn:Ee; [|done].
  split; [|done]. refine (repr_same b _ _ _ _ Rb). by split.
Qed.

Lemma init_repr clock ps ev :
  (0 < ps)%nat → repr (init_RadixCache clock ps false ev) {[0%nat := []]} [].
Proof.
  intros Hps. apply (reset_repr clock (mkCache ps false ev [] ∅ 0 0 0 0 0)); [done|].
  simpl. intros n [x Hx]. by rewrite lookup_empty in Hx.
Qed.

(** A concrete cache with one split edge. *)
Definition demo_hash (l : list Z) : Z := foldl (fun a x => a * 31 + x) 7 l.

Definition demo_cache : RadixCache :=
  match ('(_, c) ← insert demo_hash Z.of_nat [1; 2; 3; 4] (Some [2; 3; 4; 5])
                     (init_RadixCache Z.of_nat 2 false true);
         insert demo_hash Z.of_nat [1; 2; 5; 6] (Some [8; 9; 6; 7]) c) with
  | Ok (_, c) => c
  | Raise _ => init_RadixCache Z.of_nat 2 false true
  end.

Lemma demo_repr_chunks :
  ∃ G, repr demo_cache G [] ∧ tree_chunks demo_cache G ≡ₚ [[2; 3]; [4; 5]; [6; 7]].
Proof.
  destruct (insert_ok demo_hash Z.of_nat [] (init_RadixCache Z.of_nat 2 false true) {[0%nat := []]}
    [1; 2; 3; 4] [2; 3; 4; 5])
    as (c1 & G1 & l1 & E1 & R1 & _ & _ & _ & _ & _ & P1 & _ & D1 & C1);
    [by apply init_repr; lia|done..|].
  destruct (insert_ok demo_hash Z.of_nat [] c1 G1 [1; 2; 5; 6] [8; 9; 6; 7])
    as (c2 & G2 & l2 & E2 & R2 & _ & _ & _ & _ & _ & _ & _ & _ & C2);
    [done|done|by rewrite P1|done|].
  assert (demo_cache = c2) as ->.
  { unfold demo_cache. rewrite E1. cbn [mbind pyres_bind]. by rewrite E2. }
  exists G2. split; [done|].
  assert (length l1 = 0%nat) as L1.
  { revert E1. unfold len. generalize (length l1). intros n E1. vm_compute in E1.
    injection E1 as E1 _. destruct n; [done|discriminate E1]. }
  assert (c1 = match insert demo_hash Z.of_nat [1; 2; 3; 4] (Some [2; 3; 4; 5])
    (init_RadixCache Z.of_nat 2 false true) with Ok (_, c) => c | _ => c1 end) as Ec by (by rewrite E1).
  assert (length l2 = 2%nat) as L2.
  { revert E2. unfold len. generalize (length l2). rewrite Ec. intros n E2. clear -E2.
    vm_compute in E2. injection E2 as E2 _. destruct n as [|[|[|n]]]; try discriminate E2; [done|].
    exfalso. change (2 = Z.of_nat (S (S (S n)))) in E2. lia. }
  rewrite C2, C1, L1, L2, P1. vm_compute. apply Permutation_app_comm with (l := [[6; 7]]) (l' := [[2; 3]; [4; 5]]).
Qed.

Lemma demo_repr : ∃ G, repr demo_cache G [].
Proof. destruct demo_repr_chunks as (G & R & _). exists G. exact R. Qed.

(** ** The contract *)

(** C20: on a consistent cache [match_prefix] always returns; its indices are
    the slots of the longest stored page-aligned prefix of the key, the node it
    returns ends exactly there, and the call changes neither the content of
    the cache nor any path, lock or size counter. *)
Theorem radix_match_prefix_correct hash clock H c G k :
  repr c G H → disable c = false → k ≠ [] →
  ∃ r c' G' lw,
    match_prefix hash clock k c = Ok (r, c') ∧ repr c' G' H ∧ refined c G c' G' ∧
    longest (page_size c) G (take (length k / page_size c * page_size c)%nat k) lw ∧
    device_indices r = lw.*2 ∧ G' !! last_device_node r = Some lw ∧
    last_host_node r = last_device_node r ∧ host_hit_length r = 0.
Proof. apply match_prefix_ok. Qed.

Lemma radix_match_prefix_correct_witness :
  ∃ r c', match_prefix demo_hash Z.of_nat [1; 2; 5; 9; 9] demo_cache = Ok (r, c') ∧
    device_indices r = [2; 3].
Proof.
  destruct demo_repr as [G R].
  destruct (radix_match_prefix_correct demo_hash Z.of_nat [] demo_cache G [1; 2; 5; 9; 9])
    as (r & c' & G' & lw & E & _); [exact R|reflexivity|discriminate|].
  exists r, c'. split; [exact E|]. vm_compute in E. injection E as <- _. reflexivity.
Defined.

(** C19: [insert] of a page-aligned key returns the length of its longest
    stored prefix [lw] and adds exactly the paths along the unmatched suffix,
    keeping the slots already stored for the matched part; the evictable size
    grows by the number of tokens added, nothing else changes. *)
Theorem radix_insert_correct hash clock H c G k v :
  repr c G H → disable c = false → (length k mod page_size c = 0)%nat → length v = length k →
  ∃ c' G' lw,
    insert hash clock k (Some v) c = Ok (len lw, c') ∧ repr c' G' H ∧ G ⊆ G' ∧
    longest (page_size c) G k lw ∧
    (∀ l, stored G' l ↔ stored G l ∨
       l `prefix_of` lw ++ zip (drop (length lw) k) (drop (length lw) v)) ∧
    evictable_size c' = evictable_size c + (len k - len lw) ∧
    protected_size c' = protected_size c ∧ page_size c' = page_size c ∧
    root_node c' = root_node c ∧ disable c' = false ∧
    tree_chunks c' G' ≡ₚ pages (page_size c) (drop (length lw) v) ++ tree_chunks c G.
Proof. apply insert_ok. Qed.

Lemma radix_insert_correct_witness :
  ∃ c', insert demo_hash Z.of_nat [1; 2; 3; 4; 7; 8] (Some [0; 0; 0; 0; 70; 80]) demo_cache = Ok (4, c') ∧
    evictable_size c' = 8.
Proof.
  destruct demo_repr as [G R].
  destruct (radix_insert_correct demo_hash Z.of_nat [] demo_cache G [1; 2; 3; 4; 7; 8] [0; 0; 0; 0; 70; 80])
    as (c' & G' & lw & E & _); [exact R|reflexivity|reflexivity|reflexivity|].
  exists c'. revert E. generalize (len lw). intros n E.
  assert (n = 4) as -> by (vm_compute in E; congruence). split; [exact E|]. vm_compute in E. injection E as <-. reflexivity.
Defined.

(** C28: after inserting [k], a lookup of [k] finds all of it: the first
    [n] slots (n the value [insert] returned) are the ones a lookup found
    before the insertion, the others are the inserted ones. *)
Theorem radix_insert_match_roundtrip hash clock H c G k v :
  repr c G H → disable c = false → k ≠ [] →
  (length k mod page_size c = 0)%nat → length v = length k →
  ∃ r0 c0 n c1 r c2,
    match_prefix hash clock k c = Ok (r0, c0) ∧
    insert hash clock k (Some v) c = Ok (n, c1) ∧
    match_prefix hash clock k c1 = Ok (r, c2) ∧
    n = len (device_indices r0) ∧
    device_indices r = device_indices r0 ++ drop (length (device_indices r0)) v.
Proof.
  intros R Hd Nk Ak Lv.
  assert (∀ ps, (length k mod ps = 0)%nat → take (length k / ps * ps) k = k) as Etk.
  { intros ps E. apply take_ge. apply Nat.Div0.mod_divides in E as [q ->].
    destruct (decide (ps = 0)%nat) as [->|?]; [simpl; lia|]. rewrite (Nat.mul_comm ps q), Nat.div_mul; lia. }
  destruct (match_prefix_ok hash clock H c G k R Hd Nk)
    as (r0 & c0 & G0 & l0 & M1 & _ & _ & M4 & M5 & _).
  destruct (insert_ok hash clock H c G k v R Hd Ak Lv)
    as (c1 & G1 & lw & I1 & I2 & _ & I4 & I5 & _ & _ & I8 & _ & I10 & _).
  destruct (match_prefix_ok hash clock H c1 G1 k I2 I10 Nk)
    as (r & c2 & G2 & l2 & N1 & _ & _ & N4 & N5 & _).
  rewrite Etk in M4 by done. rewrite I8, Etk in N4 by done.
  destruct (inserted_longest _ _ _ _ _ _ _ I4 Ak Lv I5 N4) as (_ & _ & E2).
  assert (l0 = lw) as ->.
  { destruct M4 as [A1 A2 A3 A4], I4 as [B1 B2 B3 B4].
    apply prefix_length_eq; [by apply B4|]. by apply prefix_length, A4. }
  exists r0, c0, (len lw), c1, r, c2. rewrite M5, N5. split_and!; try done.
  - unfold len. by rewrite length_fmap.
  - by rewrite E2, length_fmap.
Qed.

Lemma radix_insert_match_roundtrip_witness :
  ∃ r c1 c2, insert demo_hash Z.of_nat [1; 2; 3; 4; 7; 8] (Some [0; 0; 0; 0; 70; 80]) demo_cache = Ok (4, c1) ∧
    match_prefix demo_hash Z.of_nat [1; 2; 3; 4; 7; 8] c1 = Ok (r, c2) ∧
    device_indices r = [2; 3; 4; 5; 70; 80].
Proof.
  destruct demo_repr as [G R].
  destruct (radix_insert_match_roundtrip demo_hash Z.of_nat [] demo_cache G
    [1; 2; 3; 4; 7; 8] [0; 0; 0; 0; 70; 80]) as (r0 & c0 & n & c1 & r & c2 & E0 & E1 & E2 & E3 & E4);
    [exact R|reflexivity|discriminate|reflexivity|reflexivity|].
  assert (device_indices r0 = [2; 3; 4; 5]) as Er by (vm_compute in E0; injection E0 as <- _; reflexivity).
  exists r, c1, c2. rewrite Er in E3, E4. rewrite E3 in E1.
  split; [exact E1|]. split; [exact E2|exact E4].
Defined.
