(* ===== verification/RadixLocks.v ===== *)
(** * Lock references

    [inc_lock_ref] and [dec_lock_ref] walk from a node to the root.  On a
    consistent cache they add and remove one holder: every node's [lock_ref]
    stays the number of holders at or below it, and the evictable and
    protected sizes move by the returned delta. *)

From S2P Require Import Prelude RadixCache RadixInv RadixOwn RadixSplit RadixMatch RadixInsert.

(** ** Sums over the ancestors of a path *)

Definition on_path (lm ln : path) : Prop := lm `prefix_of` ln ∧ lm ≠ [].

#[export] Instance on_path_dec lm ln : Decision (on_path lm ln).
Proof. unfold on_path. apply _. Defined.

Definition asum (G : gmap nat path) (f : nat → Z) (ln : path) : Z :=
  gsum (fun m lm => if decide (on_path lm ln) then f m else 0) G.

Lemma gsum_add {A} (f g : nat → A → Z) G :
  gsum (fun n l => f n l + g n l) G = gsum f G + gsum g G.
Proof.
  induction G as [|n l G Hn IH] using map_ind; [by rewrite !gsum_empty|].
  rewrite !gsum_insert, IH by done. lia.
Qed.

Lemma gsum_opp {A} (f : nat → A → Z) G : gsum (fun n l => - f n l) G = - gsum f G.
Proof.
  induction G as [|n l G Hn IH] using map_ind; [by rewrite !gsum_empty|].
  rewrite !gsum_insert, IH by done. lia.
Qed.

Lemma gsum_le {A} (f g : nat → A → Z) G :
  (∀ n l, G !! n = Some l → f n l ≤ g n l) → gsum f G ≤ gsum g G.
Proof.
  intros Hle. assert (0 ≤ gsum (fun n l => g n l + - f n l) G).
  { apply gsum_nonneg. intros n l Hn. specialize (Hle n l Hn). lia. }
  rewrite gsum_add, gsum_opp in H. lia.
Qed.

Lemma gsum_one {A} (G : gmap nat A) : gsum (fun _ _ => 1) G = Z.of_nat (size G).
Proof.
  induction G as [|n l G Hn IH] using map_ind; [by rewrite gsum_empty, map_size_empty|].
  rewrite gsum_insert, map_size_insert_None, IH by done. lia.
Qed.

Lemma gsum_zeros {A} (G : gmap nat A) : gsum (fun _ _ => 0) G = 0.
Proof.
  induction G as [|n l G Hn IH] using map_ind; [by rewrite gsum_empty|].
  by rewrite gsum_insert, IH.
Qed.

(** A sum concentrated on one node. *)
Lemma gsum_single {A} (f : nat → A → Z) G n l :
  G !! n = Some l → (∀ m k, G !! m = Some k → m ≠ n → f m k = 0) → gsum f G = f n l.
Proof.
  intros Hn Hz. rewrite (gsum_update (fun _ _ => 0) f G n l Hn Hz).
  rewrite gsum_zeros. lia.
Qed.

Lemma holders_nonneg G H l : 0 ≤ holders G H l.
Proof. unfold holders, len. lia. Qed.

Lemma holders_cons G H h l lh :
  G !! h = Some lh → holders G (h :: H) l = (if decide (l `prefix_of` lh) then 1 else 0) + holders G H l.
Proof.
  intros Hh. unfold holders. rewrite filter_cons, Hh. simpl. case_decide; unfold len; simpl; lia.
Qed.

#[export] Instance holders_perm G : Proper ((≡ₚ) ==> eq ==> eq) (holders G).
Proof. intros H H' E l ? <-. unfold holders, len. by rewrite E. Qed.

#[export] Instance repr_perm c G : Proper ((≡ₚ) ==> iff) (repr c G).
Proof.
  assert (∀ H H', H ≡ₚ H' → repr c G H → repr c G H') as X.
  { intros H H' E [R1 R2 R3 R4 R5 R6 R7 R8 R9 R10 R11 R12]. split; try done.
    - intros n l Hn Hr. rewrite <-E. by apply R9.
    - intros h. rewrite <-E. apply R10. }
  intros H H' E. split; apply X; by rewrite E.
Qed.

Section ancestors.
Context (c : RadixCache) (G : gmap nat path) (H : list nat) (R : repr c G H).

Lemma nonroot_iff n l : G !! n = Some l → n ≠ root_node c ↔ l ≠ [].
Proof.
  intros Hn. split.
  - intros Hr ->. apply Hr. by eapply root_of_nil.
  - intros. by eapply nonroot_path.
Qed.

Lemma asum_root f : asum G f [] = 0.
Proof.
  unfold asum. rewrite (gsum_ext _ (fun _ _ => 0)); [apply gsum_zeros|].
  intros n l _. case_decide as D; [|done]. destruct D as [Hp Hl].
  by apply prefix_nil_inv in Hp.
Qed.

(** The ancestors of a node are the node itself and its parent's ancestors. *)
Lemma on_path_step n l p lp m lm :
  G !! n = Some l → node_ok c G n l p lp → G !! m = Some lm → m ≠ n →
  on_path lm l ↔ on_path lm lp.
Proof.
  intros Hn Hok Hm Hne. pose proof (path_longer _ _ _ R _ _ _ _ Hok) as [_ Hpre].
  unfold on_path. split; intros [Hp Hl]; (split; [|done]).
  - destruct (no_mid_edge _ _ _ R n l p lp m lm Hn Hok Hm) as [|]; [by apply prefix_fmap_fst|done..].
  - by etrans.
Qed.

Lemma asum_step f n l p lp :
  G !! n = Some l → node_ok c G n l p lp → asum G f l = f n + asum G f lp.
Proof.
  intros Hn Hok. pose proof (path_longer _ _ _ R _ _ _ _ Hok) as [Hlen Hpre].
  pose proof (r_page _ _ _ R).
  assert (n ≠ root_node c) as Hr.
  { apply (nonroot_iff n l Hn). intros ->. simpl in Hlen. lia. }
  unfold asum. set (g := fun m lm => if decide (on_path lm lp) then f m else 0).
  rewrite (gsum_update g _ G n l Hn).
  - unfold g. rewrite decide_False, decide_True.
    + lia.
    + split; [done|]. by apply (nonroot_iff n l Hn).
    + intros [Hp _]. apply prefix_length in Hp. lia.
  - intros m lm Hm Hne. unfold g.
    pose proof (on_path_step n l p lp m lm Hn Hok Hm Hne) as Hiff.
    repeat case_decide; tauto || done.
Qed.

Lemma asum_bound f l : (∀ n, 0 ≤ f n ≤ 1) → 0 ≤ asum G f l ≤ Z.of_nat (size G).
Proof.
  intros Hf. unfold asum. split.
  - apply gsum_nonneg. intros n ln _. case_decide; [apply Hf|lia].
  - rewrite <-gsum_one. apply gsum_le. intros n ln _. case_decide; [apply Hf|lia].
Qed.

Lemma size_G_store : (size G ≤ size (nodes c))%nat.
Proof.
  rewrite <-!size_dom. apply subseteq_size. intros n [l Hn]%elem_of_dom.
  apply elem_of_dom. by eapply (r_store _ _ _ R).
Qed.

(** Locks never increase going down. *)
Lemma holders_antitone l l' : l `prefix_of` l' → holders G H l' ≤ holders G H l.
Proof.
  intros Hp. unfold holders, len. apply inj_le, sublist_length.
  clear -Hp. induction H as [|h H' IH]; [done|]. rewrite !filter_cons.
  destruct (decide (l' `prefix_of` _)) as [Hl'|].
  - rewrite decide_True by (by etrans). by apply sublist_skip.
  - case_decide; [by apply sublist_cons|done].
Qed.

End ancestors.

(** ** The walk to the root *)

(** Both loops: [d] is added to every lock, and a node whose lock is [thr]
    moves its tokens between the two sizes. *)
Fixpoint lock_loop (d thr : Z) (fuel node : nat) (delta : Z) (c : RadixCache)
    : pyres (Z * RadixCache) :=
  if (node =? root_node c)%nat then mret (delta, c) else
  match fuel with
  | O => Raise OutOfFuel
  | S fuel =>
      let nd := node_at c node in
      let n := d * (if decide (lock_ref nd = thr) then len (slots nd) else 0) in
      let c := upd node (fun nd => set_lock_ref (lock_ref nd + d) nd)
                 (set_sizes (evictable_size_ c - n) (protected_size_ c + n) c) in
      match parent nd with
      | Some p => lock_loop d thr fuel p (delta - n) c
      | None => Raise RuntimeError
      end
  end.

Lemma set_sizes_same c : set_sizes (evictable_size_ c) (protected_size_ c) c = c.
Proof. by destruct c. Qed.

Lemma inc_loop_lock fuel n delta c : inc_loop fuel n delta c = lock_loop 1 0 fuel n delta c.
Proof.
  revert n delta c. induction fuel as [|fuel IH]; intros n delta c; simpl; [done|].
  case_match; [done|]. destruct (Z.eqb_spec (lock_ref (node_at c n)) 0) as [E|E].
  - rewrite decide_True, Z.mul_1_l by done. case_match; [|done]. apply IH.
  - rewrite decide_False, Z.mul_0_r, !Z.sub_0_r, Z.add_0_r, set_sizes_same by done.
    case_match; [|done]. apply IH.
Qed.

Lemma dec_loop_lock fuel n delta c : dec_loop fuel n delta c = lock_loop (-1) 1 fuel n delta c.
Proof.
  revert n delta c. induction fuel as [|fuel IH]; intros n delta c; simpl; [done|].
  case_match; [done|]. destruct (Z.eqb_spec (lock_ref (node_at c n)) 1) as [E|E].
  - rewrite decide_True by done.
    replace (evictable_size_ c - -1 * len (slots (node_at c n)))
      with (evictable_size_ c + len (slots (node_at c n))) by lia.
    replace (protected_size_ c + -1 * len (slots (node_at c n)))
      with (protected_size_ c - len (slots (node_at c n))) by lia.
    replace (delta - -1 * len (slots (node_at c n))) with (delta + len (slots (node_at c n))) by lia.
    case_match; [|done]. apply IH.
  - rewrite decide_False, Z.mul_0_r, !Z.sub_0_r, Z.add_0_r, set_sizes_same by done.
    case_match; [|done]. apply IH.
Qed.

(** Caches that differ in locks, sizes and timestamps only. *)
Record upto_locks (c0 c : RadixCache) : Prop := mk_upto {
  ul_page : page_size c = page_size c0;
  ul_root : root_node c = root_node c0;
  ul_counter : counter c = counter c0;
  ul_disable : disable c = disable c0;
  ul_dom : ∀ n, is_Some (nodes c !! n) ↔ is_Some (nodes c0 !! n);
  ul_node : ∀ n, children (node_at c n) = children (node_at c0 n) ∧
                 parent (node_at c n) = parent (node_at c0 n) ∧
                 key (node_at c n) = key (node_at c0 n) ∧
                 value (node_at c n) = value (node_at c0 n);
}.

Lemma upto_refl c : upto_locks c c.
Proof. by split. Qed.

Lemma upto_chunks c c' G : upto_locks c c' → tree_chunks c' G = tree_chunks c G.
Proof.
  intros U. apply tree_chunks_ext; [apply U|]. intros n l _. unfold slots.
  by destruct (ul_node _ _ U n) as (_ & _ & _ & ->).
Qed.

Lemma upto_step c0 c n d ev pr :
  upto_locks c0 c →
  upto_locks c0 (upd n (fun nd => set_lock_ref (lock_ref nd + d) nd) (set_sizes ev pr c)).
Proof.
  intros [U1 U2 U3 U4 U5 U6]. split; try done.
  - intros m. rewrite dom_upd. apply U5.
  - intros m. destruct (nodes c !! n) eqn:E.
    + destruct (decide (n = m)) as [->|Hne].
      * rewrite node_at_upd_eq by (simpl; by rewrite E). apply U6.
      * rewrite node_at_upd_ne by done. apply U6.
    + rewrite node_at_missing by done. apply U6.
Qed.

Section lock_walk.
Context (c0 : RadixCache) (G : gmap nat path) (H : list nat) (R : repr c0 G H).
Context (d thr : Z).

(** What the walk from a node with path [ln] has to transfer. *)
Definition moved (c : RadixCache) (ln : path) : Z :=
  d * asum G (fun m => if decide (lock_ref (node_at c m) = thr) then weight c0 m else 0) ln.

Lemma lock_loop_ok fuel n ln delta c :
  upto_locks c0 c → G !! n = Some ln → asum G (fun _ => 1) ln ≤ Z.of_nat fuel →
  ∃ c', lock_loop d thr fuel n delta c = Ok (delta - moved c ln, c') ∧ upto_locks c0 c' ∧
    (∀ m lm, G !! m = Some lm → lock_ref (node_at c' m) =
       lock_ref (node_at c m) + (if decide (on_path lm ln) then d else 0)) ∧
    evictable_size_ c' = evictable_size_ c - moved c ln ∧
    protected_size_ c' = protected_size_ c + moved c ln.
Proof.
  revert n ln delta c. induction fuel as [|fuel IH]; intros n ln delta c U Hn Hf;
    (destruct (decide (n = root_node c0)) as [E|Hne];
     [assert (ln = []) as -> by (pose proof (r_root _ _ _ R); congruence);
      exists c; cbn [lock_loop]; rewrite (ul_root _ _ U), E, Nat.eqb_refl;
      unfold moved; rewrite asum_root, Z.mul_0_r, !Z.sub_0_r, Z.add_0_r;
      split_and!; [done|done| |done|done];
      intros m lm _; case_decide as D; [|lia]; destruct D as [D ?]; by apply prefix_nil_inv in D|]).
  - exfalso. destruct (r_node _ _ _ R n ln Hn Hne) as (p & lp & Hok).
    rewrite (asum_step _ _ _ R _ _ _ _ _ Hn Hok) in Hf.
    pose proof (asum_bound G (fun _ => 1) lp ltac:(intros; lia)). lia.
  - destruct (r_node _ _ _ R n ln Hn Hne) as (p & lp & Hok).
    rewrite (asum_step _ _ _ R _ _ _ _ _ Hn Hok) in Hf.
    pose proof Hok as [P1 P2 _ _ _ P6 P7 _]. pose proof (ul_node _ _ U n) as (_ & U2 & U3 & U4).
    pose proof (path_longer _ _ _ R _ _ _ _ Hok) as [Hlen Hpre]. pose proof (r_page _ _ _ R).
    cbn [lock_loop]. rewrite (ul_root _ _ U).
    destruct (Nat.eqb_spec n (root_node c0)) as [|_]; [done|]. cbv zeta. rewrite U2, P1.
    assert (len (slots (node_at c n)) = weight c0 n) as Ew.
    { unfold weight, len, slots in *. rewrite U4. lia. }
    rewrite Ew. set (x := d * _).
    set (c1 := upd n (fun nd => set_lock_ref (lock_ref nd + d) nd)
      (set_sizes (evictable_size_ c - x) (protected_size_ c + x) c)).
    assert (upto_locks c0 c1) as U' by (by apply upto_step).
    assert (∀ m, m ≠ n → lock_ref (node_at c1 m) = lock_ref (node_at c m)) as L1.
    { intros m Hm. unfold c1. by rewrite node_at_upd_ne. }
    assert (lock_ref (node_at c1 n) = lock_ref (node_at c n) + d) as L2.
    { unfold c1. rewrite node_at_upd_eq; [done|]. simpl. apply (ul_dom _ _ U).
      by eapply (r_store _ _ _ R). }
    destruct (IH p lp (delta - x) c1 U' P2 ltac:(lia)) as (c' & I1 & I2 & I3 & I4 & I5).
    assert (moved c ln = x + moved c1 lp) as Em.
    { unfold moved. rewrite (asum_step _ _ _ R _ _ _ _ _ Hn Hok), Z.mul_add_distr_l. fold x.
      f_equal. f_equal. unfold asum. apply gsum_ext. intros m lm Hm. case_decide as D; [|done].
      rewrite L1; [done|]. intros ->. assert (lm = ln) as -> by congruence. destruct D as [D _].
      apply prefix_length in D. lia. }
    exists c'. rewrite I1, I4, I5, Em. simpl. split_and!; [|done| |lia|lia].
    { do 2 f_equal. lia. }
    intros m lm Hm. rewrite (I3 m lm Hm). destruct (decide (m = n)) as [->|Hmn].
    + assert (lm = ln) as -> by congruence. rewrite L2, (decide_False (P := on_path ln lp)).
      * rewrite decide_True; [lia|]. split; [done|]. by eapply nonroot_iff.
      * intros [D _]. apply prefix_length in D. lia.
    + rewrite L1 by done. f_equal.
      pose proof (on_path_step _ _ _ R n ln p lp m lm Hn Hok Hm Hmn) as Hiff.
      repeat case_decide; tauto || done.
Qed.

End lock_walk.

(** ** Adding and removing holders *)

Lemma upto_repr c0 c G H H' :
  repr c0 G H → upto_locks c0 c →
  (∀ n l, G !! n = Some l → l ≠ [] → lock_ref (node_at c n) = holders G H' l) →
  (∀ h, h ∈ H' → is_Some (G !! h)) →
  evictable_size_ c = gsum (evictable_weight c) G →
  protected_size_ c = gsum (protected_weight c) G →
  repr c G H'.
Proof.
  intros R0 [U1 U2 U3 U4 U5 U6] HL HH HE HP.
  pose proof R0 as [R1 R2 R3 R4 R5 R6 R7 R8 R9 R10 R11 R12].
  assert (∀ n, children (node_at c n) = children (node_at c0 n)) as Ec by apply U6.
  assert (∀ n, parent (node_at c n) = parent (node_at c0 n)) as Ep by apply U6.
  assert (∀ n, key (node_at c n) = key (node_at c0 n)) as Ek by apply U6.
  assert (∀ n, value (node_at c n) = value (node_at c0 n)) as Ev by apply U6.
  assert (∀ n, slots (node_at c n) = slots (node_at c0 n)) as Es by (intros; unfold slots; by rewrite Ev).
  split; unfold get_child_key_fn in *; rewrite ?U1, ?U2, ?U3, ?Ep, ?Ek, ?Ev; try done.
  - intros n l Hn. apply U5. eauto.
  - intros n Hn. by apply R5, U5.
  - intros n l Hn Hne. destruct (R6 n l Hn Hne) as (p & lp & [H1 H2 H3 H4 H5 H6 H7 H8]).
    exists p, lp. split; unfold get_child_key_fn in *;
      rewrite ?Ep, ?Ec, ?Ek, ?Ev, ?Es, ?U1; done.
  - intros n l k m Hn. rewrite Ec. intros Hm. rewrite Ep, Ek. eauto.
  - intros n l Hn. rewrite Ec. eauto.
  - intros n l Hn Hne. apply HL; [done|]. by eapply nonroot_iff.
Qed.

(** Sizes after a walk: [g] is the weight function of either size. *)
Lemma size_shift G (f g : nat → path → Z) (h : nat → Z) ln s :
  (∀ m lm, G !! m = Some lm → g m lm = f m lm + s * (if decide (on_path lm ln) then h m else 0)) →
  gsum g G = gsum f G + s * asum G h ln.
Proof.
  intros E. rewrite (gsum_ext g (fun m lm => f m lm + s * (if decide (on_path lm ln) then h m else 0)) G) by done.
  rewrite gsum_add. f_equal. unfold asum. clear.
  induction G as [|n l G' Hn IH] using map_ind; [by rewrite !gsum_empty, Z.mul_0_r|].
  rewrite !gsum_insert, IH by done. lia.
Qed.

Lemma weight_upto c0 c n : upto_locks c0 c → weight c n = weight c0 n.
Proof. intros U. unfold weight. by destruct (ul_node _ _ U n) as (_&_&->&_). Qed.

Lemma fuel_enough c G H ln : repr c G H → asum G (fun _ => 1) ln ≤ Z.of_nat (size (nodes c)).
Proof.
  intros R. pose proof (asum_bound G (fun _ => 1) ln ltac:(intros; lia)).
  pose proof (size_G_store _ _ _ R). lia.
Qed.

(** The cases of a node on or off the walked path. *)
Ltac shift_cases L0 Hroot Hm :=
  match type of Hm with ?G !! ?m = Some ?lm =>
    destruct (decide (lm = [])) as [?|Hl];
    [ pose proof (proj2 (Hroot m lm Hm) ltac:(done)); unfold on_path;
      repeat case_decide; lia || tauto
    | pose proof (L0 m lm Hm Hl); pose proof (fun E => Hl (proj1 (Hroot m lm Hm) E));
      match goal with H : list nat |- _ => pose proof (holders_nonneg G H lm) end;
      unfold on_path in *; repeat case_decide; lia || tauto ]
  end.

Lemma inc_lock_ref_ok c G H n ln :
  repr c G H → disable c = false → G !! n = Some ln →
  ∃ delta c', inc_lock_ref n c = Ok (delta, c') ∧ repr c' G (n :: H) ∧ upto_locks c c' ∧
    delta ≤ 0 ∧ evictable_size c' = evictable_size c + delta ∧
    protected_size c' = protected_size c - delta.
Proof.
  intros R Hd Hn. unfold inc_lock_ref. rewrite Hd, inc_loop_lock.
  destruct (lock_loop_ok c G H R 1 0 (size (nodes c)) n ln 0 c (upto_refl c) Hn (fuel_enough _ _ _ _ R))
    as (c' & E & U & L & Ee & Ep).
  set (h := fun m => if decide (lock_ref (node_at c m) = 0) then weight c m else 0).
  assert (moved c G 1 0 c ln = asum G h ln) as Em by apply Z.mul_1_l. rewrite Em in *.
  exists (0 - asum G h ln), c'. split_and!; [done| |done| |unfold evictable_size; lia|unfold protected_size; lia].
  2:{ assert (0 ≤ asum G h ln); [|lia]. apply gsum_nonneg. intros m lm _. unfold h, weight.
      repeat case_decide; len_pos; lia. }
  assert (∀ m lm, G !! m = Some lm → lm ≠ [] → lock_ref (node_at c m) = holders G H lm) as L0.
  { intros m lm Hm Hl. apply (r_locks _ _ _ R); [done|]. by eapply nonroot_iff. }
  assert (∀ m lm, G !! m = Some lm → (m = root_node c ↔ lm = [])) as Hroot.
  { intros m lm Hm. pose proof (nonroot_iff _ _ _ R m lm Hm).
    destruct (decide (m = root_node c)), (decide (lm = [])); tauto. }
  apply (upto_repr c c' G H (n :: H)); try done.
  - intros m lm Hm Hl. rewrite (L m lm Hm), (L0 m lm Hm Hl), (holders_cons _ _ _ _ _ Hn).
    unfold on_path. repeat case_decide; lia || tauto.
  - intros x [->|Hx]%elem_of_cons; [by rewrite Hn|]. by apply (r_handles _ _ _ R).
  - rewrite Ee, (r_evictable _ _ _ R).
    rewrite (size_shift G (evictable_weight c) (evictable_weight c') h ln (-1)); [lia|].
    intros m lm Hm. unfold evictable_weight, h. rewrite (ul_root _ _ U), (weight_upto _ _ _ U), (L m lm Hm).
    shift_cases L0 Hroot Hm.
  - rewrite Ep, (r_protected _ _ _ R).
    rewrite (size_shift G (protected_weight c) (protected_weight c') h ln 1); [lia|].
    intros m lm Hm. unfold protected_weight, h. rewrite (ul_root _ _ U), (weight_upto _ _ _ U), (L m lm Hm).
    shift_cases L0 Hroot Hm.
Qed.

Lemma dec_lock_ref_ok c G H n ln :
  repr c G (n :: H) → disable c = false → G !! n = Some ln →
  ∃ delta c', dec_lock_ref n c = Ok (delta, c') ∧ repr c' G H ∧ upto_locks c c' ∧
    0 ≤ delta ∧ evictable_size c' = evictable_size c + delta ∧
    protected_size c' = protected_size c - delta.
Proof.
  intros R Hd Hn. unfold dec_lock_ref. rewrite Hd, dec_loop_lock.
  destruct (lock_loop_ok c G (n :: H) R (-1) 1 (size (nodes c)) n ln 0 c (upto_refl c) Hn
    (fuel_enough _ _ _ _ R)) as (c' & E & U & L & Ee & Ep).
  set (h := fun m => if decide (lock_ref (node_at c m) = 1) then weight c m else 0).
  assert (moved c G (-1) 1 c ln = - asum G h ln) as Em by (unfold moved; fold h; lia). rewrite Em in *.
  exists (0 - - asum G h ln), c'. split_and!; [done| |done| |unfold evictable_size; lia|unfold protected_size; lia].
  2:{ assert (0 ≤ asum G h ln); [|lia]. apply gsum_nonneg. intros m lm _. unfold h, weight.
      repeat case_decide; len_pos; lia. }
  assert (∀ m lm, G !! m = Some lm → lm ≠ [] → lock_ref (node_at c m) =
    (if decide (lm `prefix_of` ln) then 1 else 0) + holders G H lm) as L0.
  { intros m lm Hm Hl. rewrite <-(holders_cons _ _ _ _ _ Hn). apply (r_locks _ _ _ R); [done|].
    by eapply nonroot_iff. }
  assert (∀ m lm, G !! m = Some lm → (m = root_node c ↔ lm = [])) as Hroot.
  { intros m lm Hm. pose proof (nonroot_iff _ _ _ R m lm Hm).
    destruct (decide (m = root_node c)), (decide (lm = [])); tauto. }
  apply (upto_repr c c' G (n :: H) H); try done.
  - intros m lm Hm Hl. rewrite (L m lm Hm), (L0 m lm Hm Hl).
    unfold on_path. repeat case_decide; lia || tauto.
  - intros x Hx. apply (r_handles _ _ _ R). by right.
  - rewrite Ee, (r_evictable _ _ _ R).
    rewrite (size_shift G (evictable_weight c) (evictable_weight c') h ln 1); [lia|].
    intros m lm Hm. unfold evictable_weight, h. rewrite (ul_root _ _ U), (weight_upto _ _ _ U), (L m lm Hm).
    shift_cases L0 Hroot Hm.
  - rewrite Ep, (r_protected _ _ _ R).
    rewrite (size_shift G (protected_weight c) (protected_weight c') h ln (-1)); [lia|].
    intros m lm Hm. unfold protected_weight, h. rewrite (ul_root _ _ U), (weight_upto _ _ _ U), (L m lm Hm).
    shift_cases L0 Hroot Hm.
Qed.

(** [inc_lock_ref] on a node of a consistent cache always returns,
    adds exactly one holder to every node on the path to the root (so each
    [lock_ref] stays the number of holders at or below it), and moves the
    tokens of newly locked nodes from the evictable to the protected size by
    the returned (non-positive) delta. *)
Theorem radix_inc_lock_ref_correct c G H n ln :
  repr c G H → disable c = false → G !! n = Some ln →
  ∃ delta c', inc_lock_ref n c = Ok (delta, c') ∧ repr c' G (n :: H) ∧ delta ≤ 0 ∧
    evictable_size c' = evictable_size c + delta ∧ protected_size c' = protected_size c - delta ∧
    ∀ m lm, G !! m = Some lm → m ≠ root_node c →
      lock_ref (node_at c' m) =
        lock_ref (node_at c m) + (if decide (lm `prefix_of` ln) then 1 else 0).
Proof.
  intros R Hd Hn. destruct (inc_lock_ref_ok c G H n ln R Hd Hn) as (delta & c' & E & R' & U & ?&?&?).
  exists delta, c'. split_and!; try done. intros m lm Hm Hr.
  rewrite (r_locks _ _ _ R' m lm), (r_locks _ _ _ R m lm), (holders_cons _ _ _ _ _ Hn); try done; [lia|].
  by rewrite (ul_root _ _ U).
Qed.

(** [dec_lock_ref] undoes one [inc_lock_ref]: the holder is removed and
    locks and sizes come back; in particular a lock followed by an unlock of
    the same node leaves both sizes and every lock as they were. *)
Theorem radix_lock_roundtrip c G H n ln :
  repr c G H → disable c = false → G !! n = Some ln →
  ∃ delta c1 c2,
    inc_lock_ref n c = Ok (delta, c1) ∧ dec_lock_ref n c1 = Ok (- delta, c2) ∧
    repr c2 G H ∧ evictable_size c2 = evictable_size c ∧ protected_size c2 = protected_size c ∧
    ∀ m lm, G !! m = Some lm → m ≠ root_node c →
      lock_ref (node_at c2 m) = lock_ref (node_at c m).
Proof.
  intros R Hd Hn. destruct (inc_lock_ref_ok c G H n ln R Hd Hn) as (d1 & c1 & E1 & R1 & U1 & ?&?&?).
  destruct (dec_lock_ref_ok c1 G H n ln R1) as (d2 & c2 & E2 & R2 & U2 & ?&Ev&?);
    [by rewrite (ul_disable _ _ U1)|done|].
  assert (root_node c2 = root_node c) as Er by (rewrite (ul_root _ _ U2); apply U1).
  assert (∀ m lm, G !! m = Some lm → m ≠ root_node c →
    lock_ref (node_at c2 m) = lock_ref (node_at c m)) as HL.
  { intros m lm Hm Hr. rewrite (r_locks _ _ _ R2 m lm), (r_locks _ _ _ R m lm); try done. congruence. }
  assert (evictable_size c2 = evictable_size c) as Ee.
  { unfold evictable_size. rewrite (r_evictable _ _ _ R2), (r_evictable _ _ _ R).
    apply gsum_ext. intros m lm Hm. unfold evictable_weight. rewrite Er.
    case_decide as D; [done|]. rewrite (HL m lm Hm D), (weight_upto _ _ _ U2), (weight_upto _ _ _ U1). done. }
  exists d1, c1, c2. split_and!; try done.
  - rewrite E2. do 2 f_equal. lia.
  - lia.
Qed.

Lemma demo_leaf : ∃ G ln, repr demo_cache G [] ∧ G !! 2%nat = Some ln.
Proof.
  destruct demo_repr as [G R]. exists G.
  assert (od_get [1; 2] (children (node_at demo_cache (root_node demo_cache))) = Some 2%nat) as E
    by (vm_compute; reflexivity).
  destruct (r_children _ _ _ R _ _ _ _ (r_root _ _ _ R) E) as ([ln Hn] & _). exists ln. exact (conj R Hn).
Qed.

Lemma radix_inc_lock_ref_correct_witness :
  ∃ delta c', inc_lock_ref 2 demo_cache = Ok (delta, c') ∧ delta ≤ 0 ∧
    protected_size c' = 2.
Proof.
  destruct demo_leaf as (G & ln & R & Hn).
  destruct (radix_inc_lock_ref_correct demo_cache G [] 2 ln) as (delta & c' & E & _ & Hd & _);
    [exact R|reflexivity|exact Hn|].
  exists delta, c'. split; [exact E|]. split; [exact Hd|].
  vm_compute in E. injection E as _ <-. reflexivity.
Defined.

Lemma radix_lock_roundtrip_witness :
  ∃ c1 c2, inc_lock_ref 2 demo_cache = Ok (-2, c1) ∧ dec_lock_ref 2 c1 = Ok (2, c2) ∧
    evictable_size c2 = evictable_size demo_cache.
Proof.
  destruct demo_leaf as (G & ln & R & Hn).
  destruct (radix_lock_roundtrip demo_cache G [] 2 ln) as (d & c1 & c2 & E1 & E2 & _ & E3 & _);
    [exact R|reflexivity|exact Hn|].
  exists c1, c2. assert (d = -2) as -> by (vm_compute in E1; congruence).
  split; [exact E1|]. split; [exact E2|exact E3].
Defined.
