(* ===== verification/RadixTraverse.v ===== *)
(** * Traversals of the radix tree

    The stack loops visit every node of the tree exactly once, so their fuel
    (the number of objects) is enough; [total_size] is the sum of the two
    size counters, and [_collect_leaves] returns exactly the leaves. *)

From S2P Require Import Prelude RadixCache RadixInv RadixSplit RadixMatch RadixInsert RadixLocks.

Lemma zsum_pick `{EqDecision A} (P : A → Prop) `{∀ x, Decision (P x)} (v : Z) (l : list A) k :
  NoDup l → k ∈ l → P k → (∀ x, x ∈ l → P x → x = k) →
  zsum ((fun x => if decide (P x) then v else 0) <$> l) = v.
Proof.
  induction l as [|y l IH]; intros Hnd Hk Pk Hu; [by apply elem_of_nil in Hk|].
  apply NoDup_cons in Hnd as [Hy Hnd]. rewrite fmap_cons, zsum_cons.
  destruct (decide (y = k)) as [->|Hne].
  - rewrite decide_True by done. rewrite (fmap_ext_elem _ (fun _ => 0)).
    { rewrite zsum_zeros. lia. }
    intros x Hx. rewrite decide_False; [done|]. intros Px.
    rewrite (Hu x) in Hx; [done|by right|done].
  - rewrite decide_False by (intros Py; apply Hne, Hu; [left|done]).
    apply elem_of_cons in Hk as [->|Hk]; [done|].
    rewrite IH; [lia|done..|]. intros x Hx. apply Hu. by right.
Qed.

Lemma zsum_none {A} (P : A → Prop) `{∀ x, Decision (P x)} (v : Z) (l : list A) :
  (∀ x, x ∈ l → ¬ P x) → zsum ((fun x => if decide (P x) then v else 0) <$> l) = 0.
Proof.
  intros Hn. rewrite (fmap_ext_elem _ (fun _ => 0)); [apply zsum_zeros|].
  intros x Hx. rewrite decide_False; [done|by apply Hn].
Qed.

Lemma gsum_zsum {A B} (g : B → nat → A → Z) (l : list B) (G : gmap nat A) :
  gsum (fun m lm => zsum ((fun b => g b m lm) <$> l)) G = zsum ((fun b => gsum (g b) G) <$> l).
Proof.
  induction l as [|b l IH]; [apply gsum_zeros|].
  rewrite fmap_cons, zsum_cons, <-IH, <-gsum_add. apply gsum_ext. intros m lm _.
  by rewrite fmap_cons, zsum_cons.
Qed.

Section traverse.
Context (c : RadixCache) (G : gmap nat path) (H : list nat) (R : repr c G H).

Definition path_of (n : nat) : path := default [] (G !! n).

(** Sum of [f] over the subtree of path [ln]. *)
Definition tsum (f : nat → Z) (ln : path) : Z :=
  gsum (fun m lm => if decide (ln `prefix_of` lm) then f m else 0) G.

(** Sum over the subtrees of a list of nodes. *)
Definition lsum (f : nat → Z) (ns : list nat) : Z :=
  zsum ((fun n => tsum f (path_of n)) <$> ns).

Lemma child_in n ln m :
  G !! n = Some ln → m ∈ (children (node_at c n)).*2 →
  ∃ k lm, od_get k (children (node_at c n)) = Some m ∧ G !! m = Some lm ∧
    m ≠ root_node c ∧ node_ok c G m lm n ln.
Proof.
  intros Hn ((k & m') & -> & Hk)%list_elem_of_fmap. simpl.
  assert (od_get k (children (node_at c n)) = Some m') as Hg.
  { apply od_elem_get; [by eapply (r_nodup _ _ _ R)|done]. }
  destruct (r_children _ _ _ R _ _ _ _ Hn Hg) as ([lm Hm] & Hr & Hp & _).
  destruct (r_node _ _ _ R m' lm Hm Hr) as (q & lq & Hok). exists k, lm.
  pose proof Hok as [P1 P2 _ _ _ _ _ _].
  assert (q = n) as -> by congruence. assert (lq = ln) as -> by congruence. done.
Qed.

Lemma children_nodup n ln : G !! n = Some ln → NoDup (children (node_at c n)).*2.
Proof.
  intros Hn. pose proof (r_nodup _ _ _ R n ln Hn) as Hnd.
  assert (∀ k m, (k, m) ∈ children (node_at c n) → get_child_key_fn c (key (node_at c m)) = k) as Hk.
  { intros k m Hin. apply (r_children _ _ _ R n ln k m Hn). by apply od_elem_get. }
  revert Hnd Hk. generalize (children (node_at c n)). intros ch.
  induction ch as [|[k m] ch IH]; simpl; [intros; apply NoDup_nil_2|].
  intros [Hk Hnd]%NoDup_cons Hkey. apply NoDup_cons. split.
  - intros ((k' & m') & -> & Hin)%list_elem_of_fmap. simpl in *. apply Hk.
    rewrite <-(Hkey k m') by left. rewrite (Hkey k' m') by (by right).
    apply list_elem_of_fmap. by exists (k', m').
  - apply IH; [done|]. intros. apply Hkey. by right.
Qed.

(** The children of [n] partition the nodes strictly below it. *)
Lemma subtree_split n ln m lm v :
  G !! n = Some ln → G !! m = Some lm →
  (if decide (ln `prefix_of` lm) then v else 0) =
  (if decide (m = n) then v else 0) +
  zsum ((fun ch => if decide (path_of ch `prefix_of` lm) then v else 0) <$> (children (node_at c n)).*2).
Proof.
  intros Hn Hm. pose proof (r_page _ _ _ R) as Hps.
  assert (∀ ch, ch ∈ (children (node_at c n)).*2 → ∃ k lc, od_get k (children (node_at c n)) = Some ch ∧
    G !! ch = Some lc ∧ path_of ch = lc ∧ ln `prefix_of` lc ∧ (length ln + page_size c ≤ length lc)%nat ∧
    k = take (page_size c) (drop (length ln) lc.*1)) as Hch.
  { intros ch Hc. destruct (child_in n ln ch Hn Hc) as (k & lc & Hk & Hgc & _ & Hok).
    exists k, lc. pose proof (path_longer _ _ _ R _ _ _ _ Hok) as [Hl Hp].
    destruct (r_children _ _ _ R _ _ _ _ Hn Hk) as (_ & _ & _ & <-).
    split_and!; try done; [unfold path_of; by rewrite Hgc|by eapply first_page]. }
  destruct (decide (m = n)) as [->|Hne].
  { assert (lm = ln) as -> by congruence. rewrite decide_True by done.
    rewrite (zsum_none (fun ch => path_of ch `prefix_of` ln)); [lia|]. intros ch Hc Hp.
    destruct (Hch ch Hc) as (k & lc & _ & _ & E & _ & Hl & _). rewrite E in Hp.
    apply prefix_length in Hp. lia. }
  destruct (decide (ln `prefix_of` lm)) as [Hp|Hnp].
  - assert (length ln < length lm)%nat as Hlt.
    { pose proof (prefix_length _ _ Hp). destruct (decide (length ln = length lm)) as [E|]; [|lia].
      exfalso. apply Hne. apply (path_inj _ _ _ R m n lm ln Hm Hn).
      by rewrite (prefix_length_eq _ _ Hp) by lia. }
    destruct (path_down _ _ _ R m lm n ln Hm Hn) as (k & lk & Hk & Hgk & Hkp);
      [by apply prefix_fmap_fst|done|].
    rewrite (zsum_pick (fun ch => path_of ch `prefix_of` lm) v _ k); [lia|by eapply children_nodup| | |].
    + apply list_elem_of_fmap. eexists (_, k). split; [done|]. by apply od_get_elem.
    + unfold path_of. by rewrite Hgk.
    + intros ch Hc Hcp. destruct (Hch ch Hc) as (k' & lc & Hk' & Hgc & E & _ & Hl & ->).
      rewrite E in Hcp. rewrite (page_of_prefix _ _ lm.*1) in Hk';
        [|by apply prefix_fmap_fst|by rewrite length_fmap]. congruence.
  - rewrite (zsum_none (fun ch => path_of ch `prefix_of` lm)); [lia|]. intros ch Hc Hcp.
    destruct (Hch ch Hc) as (k & lc & _ & _ & E & Hpc & _). rewrite E in Hcp.
    apply Hnp. by etrans.
Qed.

Lemma tsum_children f n ln :
  G !! n = Some ln → tsum f ln = f n + lsum f (children (node_at c n)).*2.
Proof.
  intros Hn. unfold tsum, lsum.
  rewrite (gsum_ext _ (fun m lm => (if decide (m = n) then f m else 0) +
    zsum ((fun ch => if decide (path_of ch `prefix_of` lm) then f m else 0)
            <$> (children (node_at c n)).*2)) G).
  2:{ intros m lm Hm. by apply subtree_split. }
  rewrite gsum_add. f_equal.
  - rewrite (gsum_single _ G n ln Hn); [by rewrite decide_True|].
    intros m k _ Hne. by rewrite decide_False.
  - apply (gsum_zsum (fun ch m lm => if decide (path_of ch `prefix_of` lm) then f m else 0)).
Qed.

Lemma tsum_all f : tsum f [] = gsum (fun m _ => f m) G.
Proof.
  unfold tsum. apply gsum_ext. intros m lm _. rewrite decide_True; [done|]. apply prefix_nil.
Qed.

Lemma tsum_nonneg f ln : (∀ n, 0 ≤ f n) → 0 ≤ tsum f ln.
Proof. intros Hf. apply gsum_nonneg. intros n l _. case_decide; [done|lia]. Qed.

Lemma lsum_nonneg f ns : (∀ n, 0 ≤ f n) → 0 ≤ lsum f ns.
Proof. intros Hf. apply zsum_nonneg. intros x (n & -> & _)%list_elem_of_fmap. by apply tsum_nonneg. Qed.

Lemma lsum_cons f n ns : lsum f (n :: ns) = tsum f (path_of n) + lsum f ns.
Proof. done. Qed.

Lemma lsum_app f ns ms : lsum f (ns ++ ms) = lsum f ns + lsum f ms.
Proof. unfold lsum. by rewrite fmap_app, zsum_app. Qed.

Lemma lsum_rev f ns : lsum f (reverse ns) = lsum f ns.
Proof. unfold lsum. apply zsum_perm. by rewrite reverse_Permutation. Qed.

(** One step of the stack loops. *)
Lemma lsum_step f n ln ns :
  G !! n = Some ln →
  lsum f (n :: ns) = f n + lsum f (reverse (children (node_at c n)).*2 ++ ns).
Proof.
  intros Hn. rewrite lsum_cons, lsum_app, lsum_rev. unfold path_of. rewrite Hn. simpl.
  rewrite (tsum_children f n ln Hn). lia.
Qed.

Definition in_tree (ns : list nat) : Prop := Forall (fun n => is_Some (G !! n)) ns.

Lemma in_tree_step n ns :
  in_tree (n :: ns) → in_tree (reverse (children (node_at c n)).*2 ++ ns).
Proof.
  intros [[ln Hn] Hns]%Forall_cons. apply Forall_app. split; [|done].
  apply Forall_forall. intros m Hm. rewrite elem_of_reverse in Hm.
  destruct (child_in n ln m Hn Hm) as (_ & lm & _ & Hm' & _). by rewrite Hm'.
Qed.

(** *** [total_size] *)

Definition slots_len (n : nat) : Z := len (slots (node_at c n)).

Lemma total_size_loop_ok fuel stack tot :
  in_tree stack → lsum (fun _ => 1) stack ≤ Z.of_nat fuel →
  total_size_loop fuel stack tot c = Ok (tot + lsum slots_len stack).
Proof.
  revert stack tot. induction fuel as [|fuel IH]; intros [|n stack] tot Ht Hf.
  1,3: by rewrite Z.add_0_r.
  - exfalso. pose proof Ht as [[ln Hn] _]%Forall_cons.
    rewrite (lsum_step _ n ln) in Hf by done.
    pose proof (lsum_nonneg (fun _ => 1) (reverse (children (node_at c n)).*2 ++ stack)
      ltac:(lia)). lia.
  - pose proof Ht as [[ln Hn] _]%Forall_cons. cbn [total_size_loop].
    rewrite filter_all.
    2:{ intros m Hm. destruct (child_in n ln m Hn Hm) as (_ & lm & _ & _ & _ & [_ _ _ _ _ E _ _]).
        unfold evicted. by rewrite E. }
    rewrite (lsum_step _ n ln) in Hf by done.
    rewrite IH; [|by apply in_tree_step|lia].
    rewrite (lsum_step slots_len n ln) by done. fold (slots_len n). f_equal. lia.
Qed.

Lemma root_in_tree : in_tree [root_node c].
Proof. apply Forall_singleton. by rewrite (r_root _ _ _ R). Qed.

Lemma root_sum f : lsum f [root_node c] = gsum (fun m _ => f m) G.
Proof.
  rewrite lsum_cons. unfold path_of. rewrite (r_root _ _ _ R). simpl.
  change (lsum f []) with 0. rewrite Z.add_0_r. apply tsum_all.
Qed.

Lemma traverse_fuel : lsum (fun _ => 1) [root_node c] ≤ Z.of_nat (size (nodes c)).
Proof. rewrite root_sum, gsum_one. pose proof (size_G_store _ _ _ R). lia. Qed.

Lemma slots_len_weight n l : G !! n = Some l → slots_len n = weight c n.
Proof.
  intros Hn. unfold slots_len, weight, len. destruct (decide (n = root_node c)) as [->|Hne].
  - destruct (r_rootnode _ _ _ R) as (_ & -> & E). unfold slots. by rewrite E.
  - destruct (r_node _ _ _ R n l Hn Hne) as (p & lp & [_ _ _ _ _ _ E _]). lia.
Qed.

Lemma total_size_ok : total_size c = Ok (evictable_size c + protected_size c).
Proof.
  unfold total_size. rewrite total_size_loop_ok by (apply root_in_tree || apply traverse_fuel).
  f_equal. rewrite root_sum. unfold evictable_size, protected_size.
  rewrite (r_evictable _ _ _ R), (r_protected _ _ _ R), <-gsum_add. simpl. apply gsum_ext.
  intros n l Hn. rewrite (slots_len_weight n l Hn). unfold evictable_weight, protected_weight.
  destruct (decide (n = root_node c)) as [->|]; [|case_decide; lia].
  unfold weight. by destruct (r_rootnode _ _ _ R) as (_ & -> & _).
Qed.

(** *** [_collect_leaves] *)

(** Multiplicity of [x] in [l]. *)
Definition count {A} `{EqDecision A} (x : A) (l : list A) : Z := len (filter (fun y => y = x) l).

Lemma count_app {A} `{EqDecision A} (x : A) l k : count x (l ++ k) = count x l + count x k.
Proof. unfold count, len. rewrite filter_app, length_app. lia. Qed.

Lemma count_cons {A} `{EqDecision A} (x y : A) l :
  count x (y :: l) = (if decide (y = x) then 1 else 0) + count x l.
Proof. unfold count, len. rewrite filter_cons. case_decide; simpl; lia. Qed.

Definition is_leaf (x n : nat) : Z :=
  if decide (n = x ∧ children (node_at c n) = []) then 1 else 0.

Lemma collect_loop_ok fuel stack ret :
  in_tree stack → lsum (fun _ => 1) stack ≤ Z.of_nat fuel →
  ∃ ret', collect_loop fuel stack ret c = Ok ret' ∧
    ∀ x, count x ret' = count x ret + lsum (is_leaf x) stack.
Proof.
  revert stack ret. induction fuel as [|fuel IH]; intros [|n stack] ret Ht Hf.
  1,3: exists ret; split; [done|]; intros x; by rewrite Z.add_0_r.
  - exfalso. pose proof Ht as [[ln Hn] _]%Forall_cons.
    rewrite (lsum_step _ n ln) in Hf by done.
    pose proof (lsum_nonneg (fun _ => 1) (reverse (children (node_at c n)).*2 ++ stack)
      ltac:(lia)). lia.
  - pose proof Ht as [[ln Hn] _]%Forall_cons. cbn [collect_loop].
    rewrite (lsum_step _ n ln) in Hf by done.
    pose proof (in_tree_step n stack Ht) as Ht'.
    destruct (children (node_at c n)) as [|kc ch] eqn:Ech.
    + destruct (IH stack (ret ++ [n])) as (ret' & E & Hc); [done|simpl in Hf; lia|].
      exists ret'. split; [done|]. intros x. rewrite Hc, count_app, (lsum_step _ n ln), Ech by done.
      rewrite count_cons. unfold is_leaf at 2. rewrite Ech. simpl.
      change (count x []) with 0. repeat case_decide; tauto || lia.
    + destruct (IH (reverse (kc :: ch).*2 ++ stack) ret) as (ret' & E & Hc); [done|lia|].
      exists ret'. split; [done|]. intros x. rewrite Hc, (lsum_step (is_leaf x) n ln), Ech by done.
      unfold is_leaf at 2. rewrite Ech, decide_False by naive_solver. lia.
Qed.

Lemma count_NoDup {A} `{EqDecision A} (l : list A) : (∀ x, count x l ≤ 1) → NoDup l.
Proof.
  induction l as [|y l IH]; intros Hc; [apply NoDup_nil_2|]. apply NoDup_cons. split.
  - intros Hy. specialize (Hc y). rewrite count_cons, decide_True in Hc by done.
    assert (y ∈ filter (fun z => z = y) l) as X by (by apply list_elem_of_filter).
    unfold count, len in Hc. destruct (filter _ l); [by apply elem_of_nil in X|]. simpl in Hc. lia.
  - apply IH. intros x. specialize (Hc x). rewrite count_cons in Hc. case_decide; lia.
Qed.

Lemma count_elem {A} `{EqDecision A} (x : A) l : x ∈ l ↔ 0 < count x l.
Proof.
  unfold count, len. split.
  - intros Hx. assert (x ∈ filter (fun z => z = x) l) as X by (by apply list_elem_of_filter).
    destruct (filter _ l); [by apply elem_of_nil in X|]. simpl. lia.
  - destruct (filter _ l) as [|y k] eqn:E; [simpl; lia|]. intros _.
    assert (y ∈ filter (fun z => z = x) l) as X by (rewrite E; left).
    apply list_elem_of_filter in X as [-> ?]. done.
Qed.

Lemma collect_leaves_ok :
  ∃ ls, _collect_leaves c = Ok ls ∧ NoDup ls ∧
    ∀ x, x ∈ ls ↔ is_Some (G !! x) ∧ children (node_at c x) = [].
Proof.
  destruct (collect_loop_ok (size (nodes c)) [root_node c] [] root_in_tree traverse_fuel)
    as (ls & E & Hc). exists ls. split; [done|].
  assert (∀ x, count x ls =
    if decide (is_Some (G !! x) ∧ children (node_at c x) = []) then 1 else 0) as Hc'.
  { intros x. rewrite Hc, root_sum. change (count x []) with 0. rewrite Z.add_0_l.
    destruct (G !! x) as [lx|] eqn:Hx.
    - rewrite (gsum_single _ G x lx Hx).
      + unfold is_leaf. repeat case_decide; naive_solver.
      + intros m k _ Hne. unfold is_leaf. rewrite decide_False; [done|]. naive_solver.
    - rewrite decide_False by (intros [[? ?] _]; done).
      rewrite (gsum_ext _ (fun _ _ => 0)); [apply gsum_zeros|]. intros m k Hm.
      unfold is_leaf. rewrite decide_False; [done|]. naive_solver. }
  split.
  - apply count_NoDup. intros x. rewrite Hc'. case_decide; lia.
  - intros x. rewrite count_elem, Hc'. case_decide; naive_solver lia.
Qed.

(** *** [all_values_flatten] *)

Definition slot_count (s : Z) (n : nat) : Z := count s (slots (node_at c n)).

Lemma flatten_loop_ok fuel n ln :
  G !! n = Some ln → tsum (fun _ => 1) ln ≤ Z.of_nat fuel →
  ∃ vs, flatten_loop fuel n c = Ok vs ∧
    (vs = [] ↔ children (node_at c n) = []) ∧
    ∀ s, count s (concat vs) = lsum (slot_count s) (children (node_at c n)).*2.
Proof.
  revert n ln. induction fuel as [|fuel IH]; intros n ln Hn Hf.
  { exfalso. rewrite (tsum_children _ n ln Hn) in Hf.
    pose proof (lsum_nonneg (fun _ => 1) (children (node_at c n)).*2 ltac:(lia)). lia. }
  rewrite (tsum_children _ n ln Hn) in Hf. cbn [flatten_loop].
  assert (∀ m, m ∈ (children (node_at c n)).*2 → is_Some (G !! m)) as Hin.
  { intros m Hm. destruct (child_in n ln m Hn Hm) as (_ & lm & _ & -> & _). done. }
  assert (lsum (fun _ => 1) (children (node_at c n)).*2 ≤ Z.of_nat fuel) as Hf' by lia.
  assert (children (node_at c n) = [] ↔ (children (node_at c n)).*2 = []) as Enil.
  { by destruct (children (node_at c n)). }
  setoid_rewrite Enil. clear Enil.
  clear Hf. revert Hin Hf'. generalize (children (node_at c n)).*2. intros chs.
  induction chs as [|m chs IHc]; intros Hin Hf; [by exists []|].
  rewrite lsum_cons in Hf.
  pose proof (tsum_nonneg (fun _ => 1) (path_of m) ltac:(lia)).
  pose proof (lsum_nonneg (fun _ => 1) chs ltac:(lia)).
  destruct (Hin m ltac:(left)) as [lm Hm]. assert (path_of m = lm) as Em by (unfold path_of; by rewrite Hm).
  destruct (IH m lm Hm) as (v1 & E1 & _ & C1); [rewrite <-Em; lia|].
  destruct IHc as (v2 & E2 & _ & C2); [intros x Hx; apply Hin; by right|lia|].
  exists (slots (node_at c m) :: v1 ++ v2). simpl. rewrite E1. simpl. rewrite E2. split_and!; [done|done|].
  intros s. simpl. rewrite concat_app, !count_app, C1, C2, lsum_cons, Em, (tsum_children _ m lm Hm).
  unfold slot_count at 3. lia.
Qed.

End traverse.

Lemma count_perm {A} `{EqDecision A} (l k : list A) : (∀ x, count x l = count x k) → l ≡ₚ k.
Proof.
  revert k. induction l as [|y l IH]; intros k Hc.
  - destruct k as [|z k]; [done|]. specialize (Hc z). rewrite count_cons, decide_True in Hc by done.
    unfold count, len in Hc. simpl in Hc. lia.
  - assert (y ∈ k) as Hy.
    { apply count_elem. rewrite <-Hc, count_cons, decide_True by done. unfold count, len. lia. }
    apply elem_of_Permutation in Hy as [k' Hk]. rewrite Hk. constructor. apply IH. intros x.
    specialize (Hc x).
    assert (count x k = count x (y :: k')) as E by (unfold count, len; by rewrite Hk).
    rewrite E, !count_cons in Hc. lia.
Qed.

(** All slots stored in the tree, node by node. *)
Definition tree_slots (c : RadixCache) (G : gmap nat path) : list Z :=
  map_to_list G ≫= (fun nl => slots (node_at c nl.1)).

Lemma count_tree_slots c G s : count s (tree_slots c G) = gsum (fun m _ => slot_count c s m) G.
Proof.
  unfold tree_slots. induction G as [|n l G Hn IH] using map_ind.
  { by rewrite map_to_list_empty, gsum_empty. }
  rewrite gsum_insert, <-IH by done. unfold count at 1, len.
  rewrite map_to_list_insert by done. simpl. rewrite filter_app, length_app, Nat2Z.inj_add. done.
Qed.

(** [total_size] walks the whole tree (it terminates) and returns the
    sum of the evictable and the protected size: the counters maintained
    incrementally by [insert], the locks and [evict] never drift. *)
Theorem radix_total_size_correct c G H :
  repr c G H → total_size c = Ok (evictable_size c + protected_size c).
Proof. apply total_size_ok. Qed.

Lemma radix_total_size_correct_witness : total_size demo_cache = Ok 6.
Proof.
  destruct demo_repr as [G R]. rewrite (radix_total_size_correct demo_cache G [] R).
  vm_compute. reflexivity.
Defined.

(** on a non-empty cache [all_values_flatten] returns every slot of the
    tree exactly once; on an empty one [torch.cat] of no tensors raises. *)
Theorem radix_all_values_flatten_correct c G H :
  repr c G H →
  if decide (children (node_at c (root_node c)) = [])
  then all_values_flatten c = Raise RuntimeError
  else ∃ vs, all_values_flatten c = Ok vs ∧ vs ≡ₚ tree_slots c G.
Proof.
  intros R. pose proof (traverse_fuel c G H R) as Hf.
  rewrite (root_sum c G H R), <-(tsum_all G) in Hf.
  destruct (flatten_loop_ok c G H R _ _ _ (r_root _ _ _ R) Hf) as (vs & E & Hnil & Hc).
  unfold all_values_flatten. rewrite E. simpl. case_decide as D.
  - by rewrite (proj2 Hnil D).
  - exists (concat vs). split; [by destruct vs; [destruct D; apply Hnil|]|].
    apply count_perm. intros s. rewrite Hc, count_tree_slots, <-(tsum_all G).
    rewrite (tsum_children c G H R _ _ _ (r_root _ _ _ R)). unfold slot_count at 2.
    destruct (r_rootnode _ _ _ R) as (_ & _ & Ev). unfold slots. rewrite Ev. simpl.
    change (count s []) with 0. lia.
Qed.

Lemma radix_all_values_flatten_correct_witness :
  all_values_flatten demo_cache = Ok [2; 3; 4; 5; 6; 7] ∧
  ∃ G, [2; 3; 4; 5; 6; 7] ≡ₚ tree_slots demo_cache G.
Proof.
  destruct demo_repr as [G R].
  pose proof (radix_all_values_flatten_correct demo_cache G [] R) as X.
  destruct (decide (children (node_at demo_cache (root_node demo_cache)) = [])) as [D|D].
  { vm_compute in D. discriminate D. }
  destruct X as (vs & E & P).
  assert (vs = [2; 3; 4; 5; 6; 7]) as -> by (vm_compute in E; congruence).
  split; [exact E|]. exists G. exact P.
Defined.
