(* ===== verification/RadixEvict.v ===== *)
(** * Eviction from the radix tree

    [evict] repeatedly removes an unlocked leaf with the smallest access time
    and frees its slots, until enough tokens are freed or nothing unlocked is
    left.  The KV allocator is any implementation of [KVAllocator], the
    priority queue any implementation of [HeapQ]. *)

From S2P Require Import Prelude Allocator PagedAllocator PagedProofs KVAllocator RadixCache RadixInv.
From S2P Require Import RadixOwn RadixSplit RadixMatch RadixInsert RadixLocks RadixTraverse.

(** ** The operation *)

Section evict.
Context (hash : list Z → Z) `{HeapQ} {ps : nat} {A : Type} `{KVAllocator ps A}.

(** The [while] loop; every round removes a queue entry or a node. *)
Fixpoint evict_loop (fuel : nat) (num_tokens num_evicted : Z) (leaves : list nat)
    (c : RadixCache) (a : A) : pyres (RadixCache * A) :=
  if num_evicted <? num_tokens then
    match heappop (fun m n => __lt__ (node_at c m) (node_at c n)) leaves with
    | None => mret (c, a)
    | Some (x, leaves) =>
        match fuel with
        | O => Raise OutOfFuel
        | S fuel =>
            if (x =? root_node c)%nat then mret (c, a)
            else if 0 <? lock_ref (node_at c x)
            then evict_loop fuel num_tokens num_evicted leaves c a
            else
              a ← kv_free (slots (node_at c x)) a;
              let num_evicted := num_evicted + len (slots (node_at c x)) in
              c ← _delete_leaf x c;
              let leaves :=
                match parent (node_at c x) with
                | Some p => match children (node_at c p) with [] => p :: leaves | _ => leaves end
                | None => leaves
                end in
              let c := _record_remove_event hash x c in
              evict_loop fuel num_tokens num_evicted leaves c a
        end
    end
  else mret (c, a).

Definition evict (num_tokens : Z) (c : RadixCache) (a : A) : pyres (RadixCache * A) :=
  if disable c then mret (c, a)
  else
    leaves ← _collect_leaves c;
    evict_loop (2 * size (nodes c)) num_tokens 0 leaves c a.

End evict.

(** ** Removing a leaf *)

Lemma leaf_key_find node items k :
  (k, node) ∈ items → ∃ k', leaf_key node items = Some k' ∧ (k', node) ∈ items.
Proof.
  induction items as [|[k1 v1] items IH]; [by intros ?%elem_of_nil|].
  intros Hin. destruct items as [|[k2 v2] items].
  - exists k1. simpl. split; [done|]. set_solver.
  - cbn [leaf_key]. destruct (Nat.eqb_spec v1 node) as [->|Hne].
    + exists k1. split; [done|left].
    + apply elem_of_cons in Hin as [|Hin]; [congruence|].
      destruct (IH Hin) as (k' & E & Hk'). exists k'. split; [done|by right].
Qed.

Section delete.
Context (c : RadixCache) (G : gmap nat path) (H : list nat) (R : repr c G H).
Context (x : nat) (l : path) (Hx : G !! x = Some l) (Hr : x ≠ root_node c)
  (Hleaf : children (node_at c x) = []) (Hun : lock_ref (node_at c x) = 0).

Local Abbreviation G' := (delete x G).

Lemma delete_unheld : x ∉ H.
Proof.
  intros Hin. pose proof (r_locks _ _ _ R x l Hx Hr) as E. rewrite Hun in E.
  unfold holders in E. symmetry in E. apply len_zero in E.
  assert (x ∈ filter (fun h => l `prefix_of` default [] (G !! h)) H) as X.
  { apply list_elem_of_filter. by rewrite Hx. }
  rewrite E in X. by apply elem_of_nil in X.
Qed.

Lemma delete_holders y : holders G' H y = holders G H y.
Proof.
  unfold holders. f_equal. apply filter_ext_elem. intros h Hh.
  rewrite lookup_delete_ne; [done|]. intros E'. apply delete_unheld. by rewrite E'.
Qed.

Lemma delete_G n y : G' !! n = Some y → G !! n = Some y ∧ n ≠ x.
Proof. rewrite lookup_delete_Some. naive_solver. Qed.

Lemma delete_shape : ∃ p lp c',
  node_ok c G x l p lp ∧ _delete_leaf x c = Ok c' ∧
  page_size c' = page_size c ∧ root_node c' = root_node c ∧ counter c' = counter c ∧
  disable c' = disable c ∧ evictable_size_ c' = evictable_size_ c - weight c x ∧
  protected_size_ c' = protected_size_ c ∧
  (∀ n, is_Some (nodes c' !! n) ↔ is_Some (nodes c !! n)) ∧
  (∀ n, n ≠ p → node_at c' n = node_at c n) ∧
  node_at c' p = set_children
    (od_del (get_child_key_fn c (key (node_at c x))) (children (node_at c p))) (node_at c p).
Proof.
  destruct (r_node _ _ _ R x l Hx Hr) as (p & lp & Hok). pose proof Hok as [P1 P2 P3 _ _ _ _ _].
  exists p, lp. unfold _delete_leaf. rewrite P1.
  destruct (leaf_key_find x (children (node_at c p)) _ (od_get_elem _ _ _ P3)) as (k & E & Hk).
  assert (od_get k (children (node_at c p)) = Some x) as Hk'.
  { apply od_elem_get; [|done]. by eapply (r_nodup _ _ _ R). }
  destruct (r_children _ _ _ R p lp k x P2 Hk') as (_ & _ & _ & Ek). rewrite E, <-Ek.
  eexists. split; [done|]. split; [done|]. split_and!; try done.
  - intros n. simpl. by rewrite lookup_alter_is_Some.
  - intros n Hn. change (node_at (set_sizes ?a ?b ?y) n) with (node_at y n).
    by rewrite node_at_upd_ne.
  - change (node_at (set_sizes ?a ?b ?y) p) with (node_at y p).
    rewrite node_at_upd_eq; [done|]. by eapply (r_store _ _ _ R).
Qed.

Lemma delete_repr : ∃ c',
  _delete_leaf x c = Ok c' ∧ repr c' G' H ∧
  page_size c' = page_size c ∧ root_node c' = root_node c ∧ disable c' = disable c ∧
  evictable_size_ c' = evictable_size_ c - weight c x ∧ protected_size_ c' = protected_size_ c ∧
  (∀ n, lock_ref (node_at c' n) = lock_ref (node_at c n) ∧ key (node_at c' n) = key (node_at c n) ∧
        value (node_at c' n) = value (node_at c n) ∧ parent (node_at c' n) = parent (node_at c n) ∧
        last_access_time (node_at c' n) = last_access_time (node_at c n)) ∧
  (∀ n, Some n ≠ parent (node_at c x) → children (node_at c' n) = children (node_at c n)).
Proof.
  destruct delete_shape as (p & lp & c' & Hok & E & S1 & S2 & S3 & S4 & S5 & S6 & S7 & S8 & S9).
  pose proof Hok as [P1 P2 P3 _ _ _ _ _].
  set (ck := get_child_key_fn c (key (node_at c x))) in *.
  assert (∀ n, lock_ref (node_at c' n) = lock_ref (node_at c n) ∧ key (node_at c' n) = key (node_at c n) ∧
        value (node_at c' n) = value (node_at c n) ∧ parent (node_at c' n) = parent (node_at c n) ∧
        last_access_time (node_at c' n) = last_access_time (node_at c n)) as F.
  { intros n. destruct (decide (n = p)) as [->|Hne]; [by rewrite S9|by rewrite S8]. }
  assert (∀ n, n ≠ p → children (node_at c' n) = children (node_at c n)) as Fc.
  { intros n Hn. by rewrite S8. }
  assert (children (node_at c' p) = od_del ck (children (node_at c p))) as Fp by (by rewrite S9).
  assert (∀ n, slots (node_at c' n) = slots (node_at c n)) as Fs.
  { intros n. unfold slots. by destruct (F n) as (_&_&->&_). }
  assert (∀ k, get_child_key_fn c' k = get_child_key_fn c k) as Fk.
  { intros k. unfold get_child_key_fn. by rewrite S1. }
  assert (∀ n y z, G !! n = Some y → od_get z (children (node_at c' n)) = Some x → False) as Hnox.
  { intros n y z Hn Hz. destruct (decide (n = p)) as [->|Hne].
    - rewrite Fp in Hz. destruct (decide (z = ck)) as [->|Nz].
      + rewrite od_get_del_eq in Hz; [done|]. by eapply (r_nodup _ _ _ R).
      + rewrite od_get_del_ne in Hz by done.
        by destruct (r_children _ _ _ R p y z x Hn Hz) as (_ & _ & _ & ?).
    - rewrite Fc in Hz by done. destruct (r_children _ _ _ R n y z x Hn Hz) as (_ & _ & Q & _).
      congruence. }
  exists c'. split; [done|]. split; [|split_and!; try done].
  2:{ intros n Hn. apply Fc. intros ->. by rewrite P1 in Hn. }
  split; rewrite ?S1, ?S2, ?S3.
  - apply R.
  - rewrite lookup_delete_ne by done. apply R.
  - destruct (F (root_node c)) as (_&->&->&->&_). apply R.
  - intros n y [Hn _]%delete_G. apply S7. by eapply (r_store _ _ _ R).
  - intros n Hn. by apply (r_fresh _ _ _ R), S7.
  - intros n y [Hn Hne]%delete_G Hnr.
    destruct (r_node _ _ _ R n y Hn Hnr) as (q & lq & [H1 H2 H3 H4 H5 H6 H7 H8]).
    assert (q ≠ x) as Hq by (intros ->; by rewrite Hleaf in H3).
    exists q, lq. destruct (F n) as (_&E2&E3&E4&_).
    split; rewrite ?Fs, ?Fk, ?E2, ?E3, ?E4, ?S1; try done.
    + by rewrite lookup_delete_ne.
    + destruct (decide (q = p)) as [->|Nq]; [|by rewrite Fc]. rewrite Fp, od_get_del_ne; [done|].
      intros Ek. apply Hne. congruence.
  - intros n y k m [Hn Hne]%delete_G Hm. rewrite Fk. destruct (F m) as (_&->&_&->&_).
    assert (m ≠ x) as Nm by (intros ->; by eapply Hnox).
    rewrite lookup_delete_ne by done. apply (r_children _ _ _ R n y); [done|].
    destruct (decide (n = p)) as [->|Np]; [|by rewrite Fc in Hm].
    rewrite Fp in Hm. destruct (decide (k = ck)) as [->|Nk].
    + rewrite od_get_del_eq in Hm; [done|]. by eapply (r_nodup _ _ _ R).
    + by rewrite od_get_del_ne in Hm.
  - intros n y [Hn _]%delete_G. destruct (decide (n = p)) as [->|Np].
    + rewrite Fp. by apply od_del_keys, (r_nodup _ _ _ R _ _ Hn).
    + rewrite Fc by done. by eapply (r_nodup _ _ _ R).
  - intros n y [Hn _]%delete_G Hnr. rewrite delete_holders. destruct (F n) as (->&_).
    by apply (r_locks _ _ _ R).
  - intros h Hh. rewrite lookup_delete_ne; [by apply (r_handles _ _ _ R)|].
    intros E'. apply delete_unheld. by rewrite E'.
  - rewrite S5, (r_evictable _ _ _ R), (gsum_delete _ _ _ _ Hx).
    unfold evictable_weight at 1. rewrite decide_False, decide_True by done.
    rewrite (gsum_ext (evictable_weight c') (evictable_weight c)); [lia|].
    intros n y _. unfold evictable_weight, weight. rewrite S2. by destruct (F n) as (->&->&_).
  - rewrite S6, (r_protected _ _ _ R), (gsum_delete _ _ _ _ Hx).
    unfold protected_weight at 1. rewrite decide_False, decide_True by done.
    rewrite (gsum_ext (protected_weight c') (protected_weight c)); [lia|].
    intros n y _. unfold protected_weight, weight. rewrite S2. by destruct (F n) as (->&->&_).
Qed.

End delete.

(** ** Evictable leaves *)

Definition evictable_leaf (c : RadixCache) (G : gmap nat path) (y : nat) : Prop :=
  is_Some (G !! y) ∧ y ≠ root_node c ∧ children (node_at c y) = [] ∧ lock_ref (node_at c y) = 0.

Section leaves.
Context (c : RadixCache) (G : gmap nat path) (H : list nat) (R : repr c G H).

(** Below an unlocked node there is an unlocked leaf. *)
Lemma unlocked_leaf n ln :
  G !! n = Some ln → n ≠ root_node c → lock_ref (node_at c n) = 0 →
  ∃ y, evictable_leaf c G y.
Proof.
  remember (Z.to_nat (tsum G (fun _ => 1) ln)) as z eqn:Ez. revert n ln Ez.
  induction z as [z IH] using lt_wf_ind. intros n ln -> Hn Hr Hl.
  destruct (children (node_at c n)) as [|[k m] ch] eqn:Ech.
  { exists n. unfold evictable_leaf. by rewrite Hn. }
  assert (m ∈ (children (node_at c n)).*2) as Hm by (rewrite Ech; left).
  destruct (child_in c G H R n ln m Hn Hm) as (_ & lm & _ & Gm & Hmr & Hok).
  pose proof (path_longer _ _ _ R _ _ _ _ Hok) as [_ Hpre].
  refine (IH _ _ m lm eq_refl Gm Hmr _).
  2:{ rewrite (r_locks _ _ _ R m lm Gm Hmr).
    pose proof (holders_antitone G H ln lm Hpre). pose proof (holders_nonneg G H lm).
    rewrite (r_locks _ _ _ R n ln Hn Hr) in Hl. lia. }
  - rewrite (tsum_children c G H R (fun _ => 1) n ln Hn), Ech, fmap_cons, lsum_cons.
    unfold path_of. simpl snd. rewrite Gm. cbn [from_option Datatypes.id].
    pose proof (lsum_nonneg G (fun _ => 1) ch.*2 ltac:(lia)).
    pose proof (tsum_nonneg G (fun _ => 1) lm ltac:(lia)). lia.
Qed.

Lemma no_leaf_no_evictable : (∀ y, ¬ evictable_leaf c G y) → evictable_size_ c = 0.
Proof.
  intros Hno. rewrite (r_evictable _ _ _ R).
  rewrite (gsum_ext _ (fun _ _ => 0)); [apply gsum_zeros|].
  intros n l Hn. unfold evictable_weight. repeat case_decide; [done| |done].
  by destruct (unlocked_leaf n l Hn) as [y Hy]; [..|destruct (Hno y)].
Qed.

(** A childless root is alone in the tree. *)
Lemma root_leaf_alone :
  children (node_at c (root_node c)) = [] → ∀ y, ¬ evictable_leaf c G y.
Proof.
  intros Hr y ([l Hy] & Hne & _).
  destruct (path_down _ _ _ R y l (root_node c) [] Hy (r_root _ _ _ R)) as (k & lk & Hk & _).
  - apply prefix_nil.
  - destruct l; [|simpl; lia]. by destruct Hne; eapply root_of_nil.
  - by rewrite Hr in Hk.
Qed.

End leaves.

(** ** The specification: least recently used first *)

(** [lru time lock root kids G xs G']: [G'] results from removing [xs] from
    [G] one by one, each an unlocked leaf (no other node extends its path)
    with the smallest access time among the unlocked leaves left. *)
Definition free_leaf (lock : nat → Z) (G : gmap nat path) (x : nat) : Prop :=
  lock x = 0 ∧ ∃ l, G !! x = Some l ∧ l ≠ [] ∧
    ∀ m lm, G !! m = Some lm → l `prefix_of` lm → m = x.

Inductive lru (time lock : nat → Z) : gmap nat path → list nat → gmap nat path → Prop :=
  | lru_nil G : lru time lock G [] G
  | lru_cons G x xs G' :
      free_leaf lock G x →
      (∀ y, free_leaf lock G y → time x ≤ time y) →
      lru time lock (delete x G) xs G' →
      lru time lock G (x :: xs) G'.

Lemma free_leaf_iff c G H x :
  repr c G H → free_leaf (fun n => lock_ref (node_at c n)) G x ↔ evictable_leaf c G x.
Proof.
  intros R. unfold free_leaf, evictable_leaf. split.
  - intros (Hl & l & Hx & Nl & Hall). split_and!; [done|by eapply nonroot_path| |done].
    destruct (children (node_at c x)) as [|[k m] ch] eqn:Ech; [done|]. exfalso.
    destruct (child_in c G H R x l m Hx) as (_ & lm & _ & Gm & _ & Hok); [rewrite Ech; left|].
    pose proof (path_longer _ _ _ R _ _ _ _ Hok) as [Hlen Hpre].
    pose proof (Hall m lm Gm Hpre) as ->. pose proof (r_page _ _ _ R).
    assert (lm = l) as -> by congruence. lia.
  - intros ([l Hx] & Hr & Hch & Hl). split; [done|]. exists l.
    split; [done|]. split; [by eapply nonroot_iff|]. intros m lm Hm Hp.
    destruct (decide (m = x)) as [|Hne]; [done|]. exfalso.
    destruct (path_down _ _ _ R m lm x l Hm Hx) as (k & lk & Hk & _).
    + by apply prefix_fmap_fst.
    + pose proof (prefix_length _ _ Hp). destruct (decide (length l = length lm)); [|lia].
      exfalso. apply Hne, (path_inj _ _ _ R m x lm l Hm Hx).
      by rewrite (prefix_length_eq _ _ Hp) by lia.
    + by rewrite Hch in Hk.
Qed.

(** ** The loop *)

Section evict_proofs.
Context (hash : list Z → Z) `{HeapQ} {ps : nat} {A : Type} `{KVAllocator ps A}.

Lemma heappop_spec c l :
  match heappop (fun m n => __lt__ (node_at c m) (node_at c n)) l with
  | None => l = []
  | Some (x, l') => l ≡ₚ x :: l' ∧
      ∀ z, z ∈ l → last_access_time (node_at c x) ≤ last_access_time (node_at c z)
  end.
Proof.
  destruct l as [|y l]; [by rewrite heappop_nil|].
  destruct (heappop_cons (fun m n => __lt__ (node_at c m) (node_at c n)) y l)
    as (x & l' & -> & ? & Hmin).
  split; [done|]. intros z Hz. by apply Z.ltb_ge, (Hmin z Hz).
Qed.

(** What the queue holds: leaves of the tree, all unlocked ones included. *)
Record queue_ok (c : RadixCache) (G : gmap nat path) (leaves : list nat) : Prop := mk_queue {
  q_nodup : NoDup leaves;
  q_leaf : ∀ y, y ∈ leaves → is_Some (G !! y) ∧ children (node_at c y) = [];
  q_all : ∀ y, evictable_leaf c G y → y ∈ leaves;
}.

Lemma queue_perm c G l l' : l ≡ₚ l' → queue_ok c G l → queue_ok c G l'.
Proof.
  intros E [Q1 Q2 Q3]. split; [by rewrite <-E| |].
  - intros y. rewrite <-E. apply Q2.
  - intros y. rewrite <-E. apply Q3.
Qed.

Lemma queue_drop c G x l :
  lock_ref (node_at c x) ≠ 0 → queue_ok c G (x :: l) → queue_ok c G l.
Proof.
  intros Hl [[_ Q1]%NoDup_cons Q2 Q3]. split; [done| |].
  - intros y Hy. apply Q2. by right.
  - intros y Hy. destruct (proj1 (elem_of_cons _ _ _) (Q3 y Hy)) as [->|]; [|done].
    by destruct Hy as (_ & _ & _ & ?).
Qed.

(** After removing leaf [x], its parent [p] joins the queue if it became a leaf. *)
Definition push_parent (c : RadixCache) (x : nat) (leaves : list nat) : list nat :=
  match parent (node_at c x) with
  | Some p => match children (node_at c p) with [] => p :: leaves | _ => leaves end
  | None => leaves
  end.

Lemma queue_delete c G Hs c' x l leaves p lp :
  repr c G Hs → G !! x = Some l → node_ok c G x l p lp → queue_ok c G (x :: leaves) →
  root_node c' = root_node c →
  (∀ n, lock_ref (node_at c' n) = lock_ref (node_at c n) ∧ parent (node_at c' n) = parent (node_at c n)) →
  (∀ n, Some n ≠ parent (node_at c x) → children (node_at c' n) = children (node_at c n)) →
  queue_ok c' (delete x G) (push_parent c' x leaves).
Proof.
  intros R Hx [P1 P2 P3 _ _ _ _ _] [[Hnx Q1]%NoDup_cons Q2 Q3] Er F Fc.
  assert (children (node_at c x) = []) as Hch by (apply Q2; left).
  assert (p ≠ x) as Hpx by (intros ->; by rewrite Hch in P3).
  assert (p ∉ leaves) as Hpl.
  { intros Hp. destruct (Q2 p) as [_ E]; [by right|]. by rewrite E in P3. }
  assert (∀ y, y ≠ p → children (node_at c' y) = children (node_at c y)) as Fc'.
  { intros y Hy. apply Fc. rewrite P1. congruence. }
  assert (∀ y, y ∈ leaves → is_Some (delete x G !! y) ∧ children (node_at c' y) = []) as Hold.
  { intros y Hy. rewrite lookup_delete_ne by (intros ->; done).
    rewrite Fc' by (intros ->; done). apply Q2. by right. }
  assert (∀ y, evictable_leaf c' (delete x G) y → y = p ∧ children (node_at c' p) = [] ∨ y ∈ leaves) as Hall.
  { intros y ([z [Hyx Hz]%lookup_delete_Some] & Hr & Hcy & Hly).
    destruct (decide (y = p)) as [->|Hyp]; [by left|right].
    assert (y ∈ x :: leaves) as Hin.
    { apply Q3. unfold evictable_leaf. rewrite Hz, <-Er, <-(Fc' y Hyp).
      destruct (F y) as [<- _]. by eauto. }
    apply elem_of_cons in Hin as [->|]; [done|done]. }
  unfold push_parent. destruct (F x) as [_ ->]. rewrite P1.
  destruct (children (node_at c' p)) as [|kc ch] eqn:Ep.
  - split; [by apply NoDup_cons| |].
    + intros y [->|Hy]%elem_of_cons; [|by apply Hold].
      by rewrite lookup_delete_ne, P2.
    + intros y Hy. destruct (Hall y Hy) as [[-> _]|]; [left|by right].
  - split; [done|done|]. intros y Hy. by destruct (Hall y Hy) as [[_ ?]|].
Qed.

(** The result of a run of the loop. *)
Record evicted_ok (c : RadixCache) (G : gmap nat path) (Hs : list nat) (a : A)
    (rest : list (list Z)) (need : Z) (c' : RadixCache) (a' : A)
    (xs : list nat) (G' : gmap nat path) : Prop := mk_evicted {
  ev_lru : lru (fun n => last_access_time (node_at c n)) (fun n => lock_ref (node_at c n)) G xs G';
  ev_repr : repr c' G' Hs;
  ev_owned : kv_owned a' (tree_chunks c' G' ++ rest);
  ev_size : evictable_size c' = evictable_size c - zsum (weight c <$> xs);
  ev_protected : protected_size c' = protected_size c;
  ev_enough : Z.min need (evictable_size c) ≤ zsum (weight c <$> xs);
  ev_tight : xs ≠ [] → zsum (weight c <$> take (length xs - 1) xs) < need;
  ev_available : kv_closed a →
    kv_closed a' ∧ kv_available a' = kv_available a + zsum (weight c <$> xs);
}.

Lemma lru_ext time lock time' lock' G xs G' :
  (∀ n, time n = time' n) → (∀ n, lock n = lock' n) → lru time lock G xs G' → lru time' lock' G xs G'.
Proof.
  intros Et El. induction 1 as [|G x xs G' Hf Hmin _ IH]; [constructor|].
  assert (∀ G y, free_leaf lock G y ↔ free_leaf lock' G y) as Hiff.
  { intros. unfold free_leaf. by rewrite El. }
  constructor; [by apply Hiff| |done]. intros y Hy%Hiff. rewrite <-!Et. by apply Hmin.
Qed.

Lemma evicted_none c G Hs a rest need :
  repr c G Hs → kv_owned a (tree_chunks c G ++ rest) →
  need ≤ 0 ∨ (∀ y, ¬ evictable_leaf c G y) → evicted_ok c G Hs a rest need c a [] G.
Proof.
  intros R Ho Hend. split; try done; change (zsum (weight c <$> [])) with 0; try lia.
  - constructor.
  - destruct Hend as [|Hno]; [lia|]. unfold evictable_size.
    rewrite (no_leaf_no_evictable _ _ _ R Hno). lia.
  - intros Hc. split; [done|lia].
Qed.

(** Removing one leaf before a run. *)
Lemma evicted_cons c G Hs a rest need x l c1 a1 c' a' xs G' :
  repr c G Hs → G !! x = Some l → evictable_leaf c G x →
  (∀ y, evictable_leaf c G y → last_access_time (node_at c x) ≤ last_access_time (node_at c y)) →
  0 < need →
  (∀ n, lock_ref (node_at c1 n) = lock_ref (node_at c n) ∧ key (node_at c1 n) = key (node_at c n) ∧
        last_access_time (node_at c1 n) = last_access_time (node_at c n)) →
  evictable_size c1 = evictable_size c - weight c x → protected_size c1 = protected_size c →
  (kv_closed a → kv_closed a1 ∧ kv_available a1 = kv_available a + weight c x) →
  evicted_ok c1 (delete x G) Hs a1 rest (need - weight c x) c' a' xs G' →
  evicted_ok c G Hs a rest need c' a' (x :: xs) G'.
Proof.
  intros R Hx Hleaf Hmin Hneed F Ee Epr Hav [L1 L2 L3 L4 L5 L6 L7 L8].
  assert (∀ n, weight c1 n = weight c n) as Ew by (intros n; unfold weight; by destruct (F n) as (_&->&_)).
  assert (∀ l : list nat, weight c1 <$> l = weight c <$> l) as Ewl.
  { intros ys. apply list_fmap_ext. intros i y _. apply Ew. }
  rewrite Ewl in L4, L6, L8. setoid_rewrite Ewl in L7.
  split; rewrite ?fmap_cons, ?zsum_cons; try done; try lia.
  - constructor.
    + by eapply free_leaf_iff.
    + intros y Hy. apply Hmin. by eapply free_leaf_iff.
    + eapply lru_ext; [..|exact L1]; intros n; by destruct (F n) as (?&?&?).
  - intros _. simpl length. rewrite Nat.sub_succ, Nat.sub_0_r.
    destruct xs as [|y ys]; [by rewrite take_0|]. specialize (L7 ltac:(done)).
    simpl length in *. rewrite Nat.sub_succ, Nat.sub_0_r in L7. cbn [take].
    rewrite fmap_cons, zsum_cons. lia.
  - intros Hc. destruct (Hav Hc) as [Hc1 Ea1]. destruct (L8 Hc1) as [Hc' Ea']. split; [done|]. lia.
Qed.

Lemma evict_loop_ok Hs rest num_tokens fuel num_evicted leaves c G a :
  repr c G Hs → page_size c = ps → queue_ok c G leaves →
  kv_owned a (tree_chunks c G ++ rest) → (size G + length leaves ≤ fuel)%nat →
  ∃ c' a' xs G', evict_loop hash fuel num_tokens num_evicted leaves c a = Ok (c', a') ∧
    evicted_ok c G Hs a rest (num_tokens - num_evicted) c' a' xs G' ∧ disable c' = disable c ∧
    page_size c' = page_size c ∧ root_node c' = root_node c.
Proof.
  revert num_evicted leaves c G a.
  induction fuel as [|fuel IH]; intros num_evicted leaves c G a R Eps Q Ho Hf.
  { exfalso. assert (0 < size G)%nat; [|lia]. apply Nat.neq_0_lt_0, map_size_ne_0_lookup.
    eauto using r_root. }
  cbn [evict_loop]. destruct (Z.ltb_spec num_evicted num_tokens) as [Hlt|Hge].
  2:{ exists c, a, [], G. split_and!; try done. apply evicted_none; auto with lia. }
  pose proof (heappop_spec c leaves) as Hpop.
  destruct (heappop _ leaves) as [[x lv]|].
  2:{ subst. exists c, a, [], G. split_and!; try done. apply evicted_none; try done.
      right. intros y Hy. by apply (q_all _ _ _ Q), elem_of_nil in Hy. }
  destruct Hpop as [Hperm Hmin]. pose proof (Permutation_length Hperm) as Hlen. simpl in Hlen.
  pose proof (queue_perm _ _ _ _ Hperm Q) as Qx.
  destruct (q_leaf _ _ _ Qx x ltac:(left)) as [[l Hx] Hch].
  destruct (Nat.eqb_spec x (root_node c)) as [->|Hr].
  { exists c, a, [], G. split_and!; try done. apply evicted_none; try done.
    right. by eapply root_leaf_alone. }
  pose proof (r_locks _ _ _ R x l Hx Hr) as Hlk. pose proof (holders_nonneg G Hs l).
  destruct (Z.ltb_spec 0 (lock_ref (node_at c x))) as [Hlock|Hunlock].
  { apply IH; try done; [|lia]. eapply queue_drop; [|done]. lia. }
  assert (lock_ref (node_at c x) = 0) as Hl0 by lia.
  destruct (r_node _ _ _ R x l Hx Hr) as (p & lp & Hok).
  pose proof Hok as [_ _ _ _ Hal _ Hsl _].
  assert (length (slots (node_at c x)) mod page_size c = 0)%nat as Has by congruence.
  pose proof (r_page _ _ _ R) as Hps.
  rewrite (tree_chunks_delete c G x l Hx), <-app_assoc in Ho.
  destruct (kv_free_ok a _ _ _ (pages_parts (page_size c) Hps (slots (node_at c x))) Ho)
    as (a1 & Ea & Ho1 & Hav). rewrite concat_pages in Ea by done.
  destruct (delete_repr c G Hs R x l Hx Hr Hch Hl0)
    as (c1 & Ed & R1 & E1 & E2 & E3 & E4 & E5 & F & Fc).
  rewrite Ea. cbn [mbind pyres_bind]. rewrite Ed. cbn [mbind pyres_bind].
  pose proof (same_record_remove hash x c1) as Sm.
  fold (push_parent c1 x lv). set (c2 := _record_remove_event hash x c1) in *.
  assert (tree_chunks c2 (delete x G) = tree_chunks c (delete x G)) as Ech.
  { rewrite (same_chunks _ _ _ Sm). apply tree_chunks_ext; [done|]. intros n y _. unfold slots.
    by destruct (F n) as (_&_&->&_). }
  assert (last_access_time (node_at c2 x) = last_access_time (node_at c1 x) ∧
    ∀ n, last_access_time (node_at c2 n) = last_access_time (node_at c1 n)) as [_ Et].
  { unfold c2, _record_remove_event. by destruct (enable_kv_cache_events c1). }
  assert (queue_ok c2 (delete x G) (push_parent c1 x lv)) as Q2.
  { destruct (queue_delete c G Hs c1 x l lv p lp R Hx Hok Qx E2) as [Z1 Z2 Z3]; [|done|].
    { intros n. destruct (F n) as (?&_&_&?&_). done. }
    split; [done| |].
    - intros y Hy. destruct (same_node _ _ Sm y) as (->&_). by apply Z2.
    - intros y Hy. apply Z3. unfold evictable_leaf in *. rewrite (same_root _ _ Sm) in Hy.
      by destruct (same_node _ _ Sm y) as (<-&_&_&_&<-). }
  destruct (IH (num_evicted + len (slots (node_at c x))) (push_parent c1 x lv) c2 (delete x G) a1)
    as (c' & a' & xs & G' & Er & Hev & D1 & D2 & D3).
  { by eapply repr_same. }
  { rewrite (same_page _ _ Sm). congruence. }
  { done. }
  { by rewrite Ech. }
  { rewrite map_size_delete, Hx. assert (length (push_parent c1 x lv) ≤ S (length lv))%nat.
    { unfold push_parent. repeat case_match; simpl; lia. }
    assert (0 < size G)%nat; [|lia]. apply Nat.neq_0_lt_0, map_size_ne_0_lookup. eauto. }
  assert (len (slots (node_at c x)) = weight c x) as Ew by (unfold weight, len; lia).
  rewrite Ew in *.
  exists c', a', (x :: xs), G'. rewrite Er.
  split; [done|]. split; [|rewrite D1, D2, D3, (same_disable _ _ Sm), (same_page _ _ Sm), (same_root _ _ Sm); done].
  refine (evicted_cons c G Hs a rest _ x l c2 a1 c' a' xs G' R Hx _ _ _ _ _ _ _ _).
  - split_and!; try done.
  - intros y Hy. apply Hmin. rewrite Hperm. by apply (q_all _ _ _ Qx).
  - lia.
  - intros n. destruct (same_node _ _ Sm n) as (_&_&Sk&_&Sl). rewrite Sk, Sl, Et.
    destruct (F n) as (?&?&_&_&?). done.
  - unfold evictable_size. by rewrite (same_ev _ _ Sm).
  - unfold protected_size. by rewrite (same_pr _ _ Sm).
  - intros Hc. destruct (Hav Hc) as [Hc1 Eav]. split; [done|]. rewrite Eav.
    pose proof (pages_length (page_size c) Hps _ Has) as El. rewrite Eps in El at 1. lia.
  - by replace (num_tokens - num_evicted - weight c x) with (num_tokens - (num_evicted + weight c x)) by lia.
Qed.

Lemma evict_ok Hs rest num_tokens c G a :
  repr c G Hs → disable c = false → page_size c = ps →
  kv_owned a (tree_chunks c G ++ rest) →
  ∃ c' a' xs G', evict hash num_tokens c a = Ok (c', a') ∧
    evicted_ok c G Hs a rest num_tokens c' a' xs G' ∧ disable c' = false ∧
    page_size c' = page_size c ∧ root_node c' = root_node c.
Proof.
  intros R Hd Eps Ho. unfold evict. rewrite Hd.
  destruct (collect_leaves_ok c G Hs R) as (ls & E & Hnd & Hin). rewrite E. cbn [mbind pyres_bind].
  destruct (evict_loop_ok Hs rest num_tokens (2 * size (nodes c)) 0 ls c G a R Eps) as
    (c' & a' & xs & G' & Ee & Hev & D & ?&?).
  - split; [done|by apply Hin|]. intros y (Hy & _ & Hch & _). by apply Hin.
  - done.
  - assert (length ls ≤ size G)%nat.
    { assert (length ls = size (list_to_set ls : gset nat)) as ->.
      { by rewrite size_list_to_set. }
      rewrite <-size_dom. apply subseteq_size. intros y Hy%elem_of_list_to_set.
      apply elem_of_dom. by apply Hin. }
    pose proof (size_G_store _ _ _ R). lia.
  - exists c', a', xs, G'. rewrite Z.sub_0_r in Hev. rewrite D. done.
Qed.

End evict_proofs.

(** Eviction only removes nodes. *)
Lemma lru_subset t lk G xs G' : lru t lk G xs G' → G' ⊆ G.
Proof. induction 1 as [|? ? ? ? _ _ _ IH]; [done|]. etrans; [done|]. apply delete_subseteq. Qed.

(** C21: [evict] terminates and refines least-recently-used eviction: it
    removes a sequence of unlocked leaves, each with the smallest access time
    among the unlocked leaves of the tree at that point, and stops once
    [num_tokens] tokens are freed or nothing unlocked is left (removing the
    last leaf was necessary).  Every page of a removed leaf goes back to the
    allocator exactly once, the tree keeps owning the others, held nodes stay,
    and both size counters remain exact. *)
Theorem radix_evict_correct hash `{HeapQ} (ps : nat) (A : Type) `{KVAllocator ps A}
    Hs rest num_tokens c G (a : A) :
  repr c G Hs → disable c = false → page_size c = ps →
  kv_owned a (tree_chunks c G ++ rest) →
  ∃ c' a' xs G',
    evict hash num_tokens c a = Ok (c', a') ∧
    lru (fun n => last_access_time (node_at c n)) (fun n => lock_ref (node_at c n)) G xs G' ∧
    repr c' G' Hs ∧ kv_owned a' (tree_chunks c' G' ++ rest) ∧
    (∀ h, h ∈ Hs → G' !! h = G !! h) ∧
    Z.min num_tokens (evictable_size c) ≤ zsum (weight c <$> xs) ∧
    (xs ≠ [] → zsum (weight c <$> take (length xs - 1) xs) < num_tokens) ∧
    evictable_size c' = evictable_size c - zsum (weight c <$> xs) ∧
    protected_size c' = protected_size c ∧
    (kv_closed a → kv_available a' = kv_available a + zsum (weight c <$> xs)).
Proof.
  intros R Hd Eps Ho.
  destruct (evict_ok hash Hs rest num_tokens c G a R Hd Eps Ho)
    as (c' & a' & xs & G' & E & [L1 L2 L3 L4 L5 L6 L7 L8] & _).
  exists c', a', xs, G'. split_and!; try done; [|naive_solver].
  intros h Hh. destruct (r_handles _ _ _ L2 h Hh) as [l Hl].
  rewrite Hl. symmetry. eapply lookup_weaken; [done|]. by eapply lru_subset.
Qed.

(** Twelve slots in pages of two, three pages held by the demo cache. *)
Definition demo_pool : Paged.t :=
  match Paged.alloc 6 (Paged.init (fun _ => 0) 12 2 false true) with
  | Ok (_, p) => p
  | Raise _ => Paged.init (fun _ => 0) 12 2 false true
  end.

Lemma demo_pool_owned : paged_holds 2 demo_pool [[2; 3]; [4; 5]; [6; 7]].
Proof.
  split; [done|]. exists [1; 2; 3]. split.
  - apply (bool_decide_unpack (Forall2 _ _ _)). vm_compute. reflexivity.
  - split; [|done|done]. vm_compute. apply (Permutation_app_comm [4; 5; 6] [1; 2; 3]).
Qed.

Lemma radix_evict_correct_witness :
  ∃ c' a', evict (ps := 2) demo_hash 3 demo_cache demo_pool = Ok (c', a') ∧
    evictable_size c' = 2 ∧ Paged.available_size a' = Paged.available_size demo_pool + 4.
Proof.
  destruct demo_repr_chunks as (G & R & C).
  assert (kv_owned (ps := 2) demo_pool (tree_chunks demo_cache G ++ [])) as Ho.
  { rewrite app_nil_r, C. exact demo_pool_owned. }
  destruct (radix_evict_correct demo_hash 2 Paged.t [] [] 3 demo_cache G demo_pool)
    as (c' & a' & xs & G' & E & _); [exact R|reflexivity|reflexivity|exact Ho|].
  exists c', a'. split; [exact E|]. vm_compute in E. injection E as <- <-.
  split; reflexivity.
Defined.
