(* ===== verification/RadixReq.v ===== *)
(** * Requests and the radix cache

    [cache_finished_req] and [cache_unfinished_req] hand the KV slots of a
    request over to the tree.  The theorems are about ownership: every page of
    the request ends up in the tree, back in the allocator or (for a request
    that goes on) still with the request, exactly once.

    [a] is the KV allocator behind the [KVAllocator] interface, [pool] the
    request-to-token pool.  A freed index tensor is a view of the pool's row;
    while no free group is open the allocator copies it at once, so later
    writes to the row do not matter ([kv_closed] below). *)

From S2P Require Import Prelude Allocator PagedAllocator PagedProofs ReqPool Request KVAllocator.
From S2P Require Import RadixCache RadixInv RadixOwn RadixSplit RadixMatch RadixInsert RadixLocks.
From S2P Require Import RadixTraverse RadixEvict.

Section operations.
Context (hash : list Z → Z) (clock : nat → Z) {ps : nat} {A : Type} `{KVAllocator ps A}.

(** Requests in the cache operations have a pool row and a tree node. *)
Definition pool_row (req : Req.t) : pyres Z :=
  match Req.req_pool_idx req with Some i => mret i | None => Raise TypeError end.

Definition req_node (req : Req.t) : pyres nat :=
  match Req.last_node req with Some n => mret n | None => Raise AttributeError end.

Definition page_aligned_len (c : RadixCache) (n : nat) : nat :=
  if (page_size c =? 1)%nat then n else (n / page_size c * page_size c)%nat.

Definition cache_finished_req (req : Req.t) (c : RadixCache) (pool : ReqPool.t) (a : A)
    : pyres (RadixCache * ReqPool.t * A) :=
  idx ← pool_row req;
  if disable c then
    let kv_indices :=
      ReqPool.read idx (len (Req.origin_input_ids req) + len (Req.output_ids req) - 1) pool in
    a ← kv_free kv_indices a;
    mret (c, ReqPool.free [idx] pool, a)
  else
    let token_ids := (Req.origin_input_ids req ++ Req.output_ids req).[: -1] in
    let kv_indices := ReqPool.read idx (len token_ids) pool in
    let aligned := page_aligned_len c (length kv_indices) in
    a ← (if (page_size c =? 1)%nat then mret a else kv_free (drop aligned kv_indices) a);
    '(new_prefix_len, c) ← insert hash clock (take aligned token_ids) (Some (take aligned kv_indices)) c;
    a ← kv_free kv_indices.[len (Req.prefix_indices req) :: new_prefix_len] a;
    let pool := ReqPool.free [idx] pool in
    node ← req_node req;
    '(_, c) ← dec_lock_ref node c;
    mret (c, pool, a).

Definition cache_unfinished_req (req : Req.t) (c : RadixCache) (pool : ReqPool.t) (a : A)
    : pyres (Req.t * RadixCache * ReqPool.t * A) :=
  if disable c then mret (req, c, pool, a)
  else
    idx ← pool_row req;
    let token_ids := Req.fill_ids req in
    let kv_indices := ReqPool.read idx (len token_ids) pool in
    let aligned := page_aligned_len c (length kv_indices) in
    let page_aligned_token_ids := take aligned token_ids in
    '(new_prefix_len, c) ← insert hash clock page_aligned_token_ids (Some (take aligned kv_indices)) c;
    let p := len (Req.prefix_indices req) in
    a ← kv_free kv_indices.[p :: new_prefix_len] a;
    '(m, c) ← match_prefix hash clock page_aligned_token_ids c;
    let new_indices := device_indices m in
    pool ← ReqPool.write idx p (len new_indices) new_indices.[p :] pool;
    node ← req_node req;
    '(_, c) ← dec_lock_ref node c;
    '(_, c) ← inc_lock_ref (last_device_node m) c;
    (* [kv_indices] is a view: it sees the write *)
    let kv_indices := ReqPool.read idx (len token_ids) pool in
    let req := Req.set_prefix_indices
      (if (page_size c =? 1)%nat then new_indices
       else new_indices ++ kv_indices.[len new_indices :]) req in
    mret (Req.set_last_node (Some (last_device_node m)) req, c, pool, a).

End operations.

(** ** Slices and pages *)

Lemma py_slice_drop_take {A} lo hi (l : list A) :
  0 ≤ lo → 0 ≤ hi → l.[lo :: hi] = drop (Z.to_nat lo) (take (Z.to_nat hi) l).
Proof. intros Hlo Hhi. by rewrite py_slice_nonneg, skipn_firstn_comm. Qed.

(** Part of the first page, and all other pages. *)
Lemma slice_parts ps q (l : list Z) :
  (q < ps)%nat → (length l mod ps = 0)%nat →
  ∃ subs, drop q l = concat subs ∧ Forall2 part_of subs (pages ps l).
Proof.
  intros Hq Ha. assert (0 < ps)%nat as Hps by lia.
  destruct (decide (l = [])) as [->|Hl].
  { exists []. rewrite drop_nil, pages_nil by done. split; [done|constructor]. }
  assert (ps ≤ length l)%nat.
  { apply (aligned_gap ps 0 (length l)); [apply Nat.Div0.mod_0_l|done|]. destruct l; [done|simpl; lia]. }
  exists (drop q (take ps l) :: pages ps (drop ps l)). split.
  - simpl. rewrite concat_pages by done. rewrite <-(take_drop ps l) at 1.
    rewrite drop_app_le; [done|]. rewrite length_take. lia.
  - rewrite (pages_unfold ps Hps l Hl). constructor; [|by apply pages_parts].
    split; [|apply sublist_drop]. intros E. apply (f_equal length) in E.
    rewrite length_drop, length_take in E. simpl in E. lia.
Qed.

Lemma aligned_len_spec c n :
  (0 < page_size c)%nat →
  (page_aligned_len c n mod page_size c = 0)%nat ∧ (page_aligned_len c n ≤ n)%nat ∧
  (page_aligned_len c n = n / page_size c * page_size c)%nat.
Proof.
  intros Hps. unfold page_aligned_len. destruct (Nat.eqb_spec (page_size c) 1) as [->|].
  - rewrite Nat.mod_1_r, Nat.div_1_r. lia.
  - split; [apply Nat.Div0.mod_mul|]. pose proof (Nat.Div0.mul_div_le n (page_size c)). lia.
Qed.

(** ** Handing pages over to the tree *)

Section ownership.
Context (hash : list Z → Z) (clock : nat → Z) {ps : nat} {A : Type} `{KVAllocator ps A}.

(** Insert [K] with slots [kvs] and free the pages the tree already had:
    [ll] is the part the request shares with the tree, [p] the length of its
    prefix (at most a partial page beyond [ll]). *)
Lemma hand_over Hs c G (a : A) rest (K kvs kv : list Z) ll (p : Z) :
  repr c G Hs → disable c = false → page_size c = ps →
  (length K mod ps = 0)%nat → length kvs = length K → kvs `prefix_of` kv →
  stored G ll → ll.*1 `prefix_of` K → (length ll mod ps = 0)%nat →
  Z.of_nat (length ll) ≤ p < Z.of_nat (length ll + ps) →
  kv_owned a (tree_chunks c G ++ pages ps (drop (length ll) kvs) ++ rest) →
  ∃ c' G' lw a',
    insert hash clock K (Some kvs) c = Ok (len lw, c') ∧
    kv_free kv.[p :: len lw] a = Ok a' ∧
    repr c' G' Hs ∧ G ⊆ G' ∧ longest ps G K lw ∧ ll `prefix_of` lw ∧
    (∀ l, stored G' l ↔ stored G l ∨ l `prefix_of` lw ++ zip (drop (length lw) K) (drop (length lw) kvs)) ∧
    kv_owned a' (tree_chunks c' G' ++ rest) ∧ (kv_closed a → kv_closed a') ∧
    page_size c' = ps ∧ disable c' = false ∧ root_node c' = root_node c.
Proof.
  intros R Hd Eps AK Lk Hkv Sll Pll All Hp Ho.
  pose proof (r_page _ _ _ R) as Hps. rewrite Eps in Hps.
  destruct (insert_ok hash clock Hs c G K kvs R Hd) as
    (c' & G' & lw & E & R' & Gs & HL & Hst & _ & _ & Ep & Er & Hd' & Hch);
    [by rewrite Eps|done|]. rewrite Eps in *.
  pose proof HL as [_ P1 A1 M1]. pose proof (M1 ll Sll All Pll) as Pre.
  pose proof (prefix_length _ _ Pre) as Lpre. pose proof (prefix_length _ _ P1) as Llw.
  rewrite length_fmap in Llw.
  set (d := length ll) in *. set (m := length lw) in *.
  set (mid := drop d (take m kvs)).
  assert (length mid = m - d)%nat as Lmid by (unfold mid; rewrite length_drop, length_take; lia).
  assert (length mid mod ps = 0)%nat as Amid.
  { unfold mid. apply aligned_drop; [|done]. by rewrite length_take, Nat.min_l by lia. }
  assert (pages ps (drop d kvs) = pages ps mid ++ pages ps (drop m kvs)) as Epg.
  { rewrite <-pages_app by done. f_equal. unfold mid. rewrite <-(take_drop m kvs) at 1.
    rewrite drop_app_le; [done|]. rewrite length_take. lia. }
  destruct (slice_parts ps (Z.to_nat p - d) mid) as (subs & Esub & Hparts); [lia|done|].
  assert (kv.[p :: len lw] = concat subs) as Esl.
  { rewrite py_slice_drop_take by (unfold len; lia).
    replace (Z.to_nat (len lw)) with m by (unfold len, m; lia).
    rewrite <-Esub. unfold mid. rewrite drop_drop.
    replace (d + (Z.to_nat p - d))%nat with (Z.to_nat p) by lia. f_equal.
    destruct Hkv as [r ->]. rewrite take_app_le; [done|]. lia. }
  rewrite Epg in Ho.
  destruct (kv_free_ok a subs (pages ps mid) (tree_chunks c G ++ pages ps (drop m kvs) ++ rest) Hparts)
    as (a' & Ea & Ho' & Hcl).
  { eapply kv_owned_perm; [|exact Ho]. generalize (tree_chunks c G), (pages ps mid).
    intros. solve_Permutation. }
  exists c', G', lw, a'. rewrite Esl. split_and!; try done.
  - eapply kv_owned_perm; [|exact Ho']. rewrite Hch. generalize (tree_chunks c G), (pages ps (drop m kvs)).
    intros. solve_Permutation.
  - intros Hc. by apply Hcl.
Qed.

(** *** Finished requests *)

(** What a request holds: node [last], path [ll] locked in the tree, prefix
    length in the page after it, and its own pages beyond [ll]. *)
Record req_holds (req : Req.t) (pool : ReqPool.t) (G : gmap nat path) (tokens : list Z)
    (idx : Z) (last : nat) (ll : path) : Prop := mk_req_holds {
  rh_idx : Req.req_pool_idx req = Some idx;
  rh_last : Req.last_node req = Some last;
  rh_path : G !! last = Some ll;
  rh_tokens : ll.*1 `prefix_of` tokens;
  rh_row : len (ReqPool.read idx (len tokens) pool) = len tokens;
  rh_prefix : Z.of_nat (length ll) ≤ len (Req.prefix_indices req) < Z.of_nat (length ll + ps);
}.

(** The aligned part of a request's tokens covers what it shares with the
    tree; its own pages are the aligned rest and a possibly partial tail. *)
Lemma req_geometry c G Hs (tokens kv : list Z) last ll :
  repr c G Hs → page_size c = ps → G !! last = Some ll → ll.*1 `prefix_of` tokens →
  length kv = length tokens →
  let al := page_aligned_len c (length tokens) in
  (al mod ps = 0)%nat ∧ (length ll ≤ al ≤ length tokens)%nat ∧ (0 < ps)%nat ∧
  (al = length tokens / ps * ps)%nat ∧ (length ll mod ps = 0)%nat ∧
  ll.*1 `prefix_of` take al tokens ∧
  pages ps (drop (length ll) kv) =
    pages ps (drop (length ll) (take al kv)) ++ pages ps (drop al kv).
Proof.
  intros R Eps Hl Rt Lkv al. pose proof (r_page _ _ _ R) as Hps.
  destruct (aligned_len_spec c (length tokens) Hps) as (Aal & Hal & Eal). fold al in Aal, Hal, Eal.
  rewrite Eps in Hps, Aal, Eal.
  assert (length ll mod ps = 0)%nat as All by (rewrite <-Eps; by eapply path_aligned).
  pose proof (prefix_length _ _ Rt) as Lll. rewrite length_fmap in Lll.
  assert (length ll ≤ al)%nat as Hlal.
  { destruct (decide (length ll ≤ al)%nat); [done|].
    pose proof (aligned_gap ps al (length ll) Aal All ltac:(lia)).
    pose proof (Nat.mul_succ_div_gt (length tokens) ps ltac:(lia)) as X.
    rewrite Nat.mul_succ_r, (Nat.mul_comm ps) in X. lia. }
  split_and!; try done.
  - eapply prefix_shorter; [exact Rt|apply prefix_take|]. rewrite length_fmap, length_take. lia.
  - rewrite <-pages_app; [|lia|].
    + f_equal. rewrite <-(take_drop al kv) at 1. rewrite drop_app_le; [done|]. rewrite length_take. lia.
    + apply aligned_drop; [|done]. by rewrite length_take, Nat.min_l by lia.
Qed.

Lemma cache_finished_ok req c G Hs pool (a : A) rest idx last ll :
  let tokens := (Req.origin_input_ids req ++ Req.output_ids req).[: -1] in
  let kv := ReqPool.read idx (len tokens) pool in
  repr c G (last :: Hs) → disable c = false → page_size c = ps →
  req_holds req pool G tokens idx last ll →
  kv_owned a (tree_chunks c G ++ pages ps (drop (length ll) kv) ++ rest) →
  ∃ c' G' a',
    cache_finished_req hash clock req c pool a = Ok (c', ReqPool.free [idx] pool, a') ∧
    repr c' G' Hs ∧ G ⊆ G' ∧ kv_owned a' (tree_chunks c' G' ++ rest) ∧ disable c' = false ∧ page_size c' = ps ∧
    (kv_closed a → kv_closed a') ∧ (∀ l, stored G l → stored G' l) ∧
    ∃ lw, stored G' lw ∧ lw.*1 = take (page_aligned_len c (length tokens)) tokens.
Proof.
  intros tokens kv R Hd Eps [Ri Rl Rp Rt Rr Rx] Ho.
  assert (length kv = length tokens) as Lkv by (apply Nat2Z.inj; exact Rr).
  destruct (req_geometry c G _ tokens kv last ll R Eps Rp Rt Lkv)
    as (Aal & Hlal & Hps & Eal & All & Rt' & Epg).
  set (al := page_aligned_len c (length tokens)) in *.
  unfold cache_finished_req, pool_row. rewrite Ri. cbn [mbind pyres_bind mret pyres_ret]. rewrite Hd.
  fold tokens. fold kv. rewrite Lkv. fold al.
  rewrite Epg in Ho.
  assert (∃ a1, (if (page_size c =? 1)%nat then mret a else kv_free (drop al kv) a) = Ok a1 ∧
    kv_owned a1 (tree_chunks c G ++ pages ps (drop (length ll) (take al kv)) ++ rest) ∧ (kv_closed a → kv_closed a1)) as (a1 & E1 & Ho1 & Hcl1).
  { destruct (Nat.eqb_spec (page_size c) 1) as [E1|_].
    - exists a. split; [done|]. assert (drop al kv = []) as Edr.
      { apply drop_ge. rewrite Lkv, Eal, <-Eps, E1, Nat.div_1_r. lia. }
      rewrite Edr, pages_nil, app_nil_r in Ho by lia. done.
    - destruct (kv_free_ok a _ _ (tree_chunks c G ++ pages ps (drop (length ll) (take al kv)) ++ rest)
        (pages_parts ps ltac:(lia) (drop al kv))) as (a1 & Ea & Ho1 & Hcl).
      { eapply kv_owned_perm; [|exact Ho].
        generalize (tree_chunks c G), (pages ps (drop (length ll) (take al kv))). intros. solve_Permutation. }
      rewrite concat_pages in Ea by lia. exists a1. split_and!; try done. intros Hc. by apply Hcl. }
  rewrite E1. cbn [mbind pyres_bind].
  destruct (hand_over (last :: Hs) c G a1 rest (take al tokens) (take al kv) kv ll
    (len (Req.prefix_indices req)) R Hd Eps) as
    (c1 & G1 & lw & a2 & E2 & E3 & R1 & Gs & HL & Pre & Hst & Ho2 & Hcl2 & Ep1 & Hd1 & _); try done.
  { by rewrite length_take, Nat.min_l by lia. }
  { rewrite !length_take. lia. }
  { apply prefix_take. }
  { by exists last, ll. }
  rewrite E2. cbn [mbind pyres_bind]. rewrite E3. cbn [mbind pyres_bind].
  unfold req_node. rewrite Rl. cbn [mbind pyres_bind mret pyres_ret].
  assert (G1 !! last = Some ll) as Gl by (by eapply lookup_weaken).
  destruct (dec_lock_ref_ok c1 G1 Hs last ll R1 Hd1 Gl) as (dl & c2 & E4 & R2 & U & _).
  rewrite E4. cbn [mbind pyres_bind].
  exists c2, G1, a2. split_and!; try done.
  - by rewrite (upto_chunks _ _ _ U).
  - by rewrite (ul_disable _ _ U).
  - by rewrite (ul_page _ _ U).
  - auto.
  - intros l Hl. apply Hst. by left.
  - pose proof HL as [_ P1 _ _].
    exists (lw ++ zip (drop (length lw) (take al tokens)) (drop (length lw) (take al kv))). split.
    + apply Hst. by right.
    + rewrite fmap_app, fst_zip by (rewrite !length_drop, !length_take; lia).
      apply prefix_take_iff in P1. rewrite length_fmap in P1. by rewrite P1, take_drop.
Qed.

(** *** Requests that go on *)

Definition in_int32 (l : list Z) : Prop := Forall (fun v => 0 ≤ v < 2 ^ 31) l.

(** Only the row [idx] differs. *)
Record row_frame (idx : Z) (pool pool' : ReqPool.t) : Prop := mk_row_frame {
  rw_size : ReqPool.size pool' = ReqPool.size pool;
  rw_context : ReqPool.max_context_len pool' = ReqPool.max_context_len pool;
  rw_free : ReqPool.free_slots pool' = ReqPool.free_slots pool;
  rw_rows : ∀ j, 0 ≤ j → j ≠ idx → ReqPool.row j pool' = ReqPool.row j pool;
}.

(** Writing back the indices of the tree from position [p] on; beyond their
    end the slice and the values are empty. *)
Lemma write_back pool idx n (kv new : list Z) p :
  ReqPool.wf pool → 0 ≤ idx < ReqPool.size pool → kv = ReqPool.read idx n pool →
  0 ≤ n → len kv = n → (length new ≤ length kv)%nat → (p ≤ length kv)%nat →
  take p new = take (p `min` length new) kv → in_int32 new →
  ∃ pool', ReqPool.write idx (Z.of_nat p) (len new) new.[Z.of_nat p :] pool = Ok pool' ∧
    ReqPool.wf pool' ∧
    ReqPool.read idx n pool' = new ++ drop (length new) kv ∧ row_frame idx pool pool'.
Proof.
  intros Hwf Hi -> Hn Hkv Hnew Hp Htake Hb. pose proof Hwf as (_ & Hrows & _).
  pose proof (Hrows idx Hi) as Hr. unfold ReqPool.read in *. rewrite py_take_nonneg in * by done.
  assert (Z.to_nat n ≤ length (ReqPool.row idx pool))%nat as Hlen.
  { unfold len in Hkv. rewrite length_take in Hkv. lia. }
  rewrite length_take, Nat.min_l in Hnew, Hp by done.
  assert (new.[Z.of_nat p :] = drop p new) as ->.
  { unfold py_drop, py_norm. destruct (Z.ltb_spec (Z.of_nat p) 0); [lia|].
    destruct (decide (Z.of_nat p ≤ len new)); [by rewrite Z.min_r, Nat2Z.id by done|].
    rewrite Z.min_l by lia. unfold len in *. rewrite Nat2Z.id, !drop_ge by lia. done. }
  assert (∃ pool', ReqPool.write idx (Z.of_nat p) (len new) (drop p new) pool = Ok pool' ∧
    ReqPool.wf pool' ∧ row_frame idx pool pool' ∧ ReqPool.row idx pool' = take p (ReqPool.row idx pool) ++ drop p new ++
      drop (p + length (drop p new)) (ReqPool.row idx pool)) as (pool' & E & W & Fr & Row).
  { destruct (ReqPool.write_read pool idx (Z.of_nat p) (drop p new) Hwf Hi) as
      (pool' & E & W & Hz & Hfs & Row & Hot); [lia| |by apply Forall_drop|].
    { unfold len in *. rewrite length_drop. lia. }
    exists pool'. rewrite Nat2Z.id in Row. split_and!; try done; [|split; try done; by eapply ReqPool.write_context].
    destruct (decide (p ≤ length new)%nat) as [Hle|Hgt].
    - by replace (len new) with (Z.of_nat p + len (drop p new)) by (unfold len; rewrite length_drop; lia).
    - rewrite <-E. rewrite drop_ge by lia. change (len []) with 0. rewrite Z.add_0_r.
      unfold ReqPool.write. rewrite !py_norm_nonneg by (unfold len in *; lia).
      by rewrite (Nat.max_l (Z.to_nat (Z.of_nat p)) (Z.to_nat (len new))), Nat.max_id by (unfold len; lia). }
  exists pool'. split_and!; try done. rewrite py_take_nonneg by done. rewrite Row, length_drop.
  rewrite take_take in Htake.
  destruct (decide (p ≤ length new)%nat) as [Hle|Hgt].
  - replace (p + (length new - p))%nat with (length new) by lia.
    rewrite Nat.min_l in Htake by lia. rewrite (Nat.min_l p) in Htake by lia.
    rewrite <-Htake, app_assoc, take_drop. rewrite take_app_ge by lia. f_equal.
    by rewrite skipn_firstn_comm.
  - rewrite (drop_ge new) by lia. replace (p + (length new - p))%nat with p by lia.
    simpl. rewrite take_drop. rewrite take_ge in Htake by lia.
    rewrite (Nat.min_r p), Nat.min_l in Htake by lia. rewrite Htake at 1.
    rewrite <-(take_drop (length new) (take (Z.to_nat n) (ReqPool.row idx pool))) at 1.
    rewrite take_take, Nat.min_l by lia. done.
Qed.

Lemma cache_unfinished_ok req c G Hs pool (a : A) rest idx last ll :
  let tokens := Req.fill_ids req in
  let kv := ReqPool.read idx (len tokens) pool in
  let al := page_aligned_len c (length tokens) in
  repr c G (last :: Hs) → disable c = false → page_size c = ps →
  req_holds req pool G tokens idx last ll →
  length (Req.prefix_indices req) = length ll ∨
    (∀ lw, longest ps G (take al tokens) lw → length lw = length ll) →
  (length (Req.prefix_indices req) ≤ length tokens)%nat → take (length ll) kv = ll.*2 →
  ReqPool.wf pool → 0 ≤ idx < ReqPool.size pool → in_int32 kv →
  in_int32 (concat (tree_chunks c G)) →
  kv_owned a (tree_chunks c G ++ pages ps (drop (length ll) kv) ++ rest) →
  ∃ req' c' G' pool' a' node lw,
    cache_unfinished_req hash clock req c pool a = Ok (req', c', pool', a') ∧
    repr c' G' (node :: Hs) ∧ G ⊆ G' ∧ G' !! node = Some lw ∧ lw.*1 = take al tokens ∧
    kv_owned a' (tree_chunks c' G' ++ pages ps (drop al kv) ++ rest) ∧
    ReqPool.wf pool' ∧ ReqPool.read idx (len tokens) pool' = lw.*2 ++ drop al kv ∧
    req' = Req.set_last_node (Some node) (Req.set_prefix_indices (lw.*2 ++ drop al kv) req) ∧
    disable c' = false ∧ page_size c' = ps ∧ (kv_closed a → kv_closed a') ∧ row_frame idx pool pool'.
Proof.
  intros tokens kv al R Hd Eps [Ri Rl Rp Rt Rr Rx] Hcase Hpl Hshare Hwf Hidx Hkv32 Hst32 Ho.
  assert (length kv = length tokens) as Lkv by (apply Nat2Z.inj; exact Rr).
  destruct (req_geometry c G _ tokens kv last ll R Eps Rp Rt Lkv)
    as (Aal & Hlal & Hps & Eal & All & Rt' & Epg). fold al in Aal, Hlal, Eal, Rt', Epg.
  unfold cache_unfinished_req, pool_row. rewrite Hd, Ri. cbn [mbind pyres_bind mret pyres_ret].
  fold tokens. fold kv. rewrite Lkv. fold al.
  rewrite Epg, <-app_assoc in Ho.
  assert (length (take al tokens) mod ps = 0)%nat as AK.
  { by rewrite length_take, Nat.min_l by lia. }
  assert (length (take al kv) = length (take al tokens)) as LK by (rewrite !length_take; lia).
  destruct (hand_over (last :: Hs) c G a (pages ps (drop al kv) ++ rest) (take al tokens) (take al kv) kv ll
    (len (Req.prefix_indices req)) R Hd Eps AK LK) as
    (c1 & G1 & lw & a1 & E2 & E3 & R1 & Gs & HL & Pre & Hst & Ho1 & Hcl1 & Ep1 & Hd1 & Er1); try done.
  { apply prefix_take. }
  { by exists last, ll. }
  rewrite E2. cbn [mbind pyres_bind]. rewrite E3. cbn [mbind pyres_bind].
  assert (∃ r c2 G2 l2, match_prefix hash clock (take al tokens) c1 = Ok (r, c2) ∧
    repr c2 G2 (last :: Hs) ∧ refined c1 G1 c2 G2 ∧ longest ps G1 (take al tokens) l2 ∧
    device_indices r = l2.*2 ∧ G2 !! last_device_node r = Some l2) as
    (r & c2 & G2 & l2 & E4 & R2 & Rf & HL2 & Edev & Gnode).
  { destruct (decide (take al tokens = [])) as [En|Nn].
    - exists (mkMatch [] (root_node c1) (root_node c1) 0), c1, G1, []. rewrite En.
      unfold match_prefix. rewrite Hd1. simpl. split_and!; try done.
      + rewrite <-Ep1. apply (stuck_longest c1 G1 _ R1 (root_node c1) [] []); [apply R1| |auto].
        apply Nat.Div0.mod_0_l.
      + apply R1.
    - destruct (match_prefix_ok hash clock _ c1 G1 (take al tokens) R1 Hd1 Nn)
        as (r & c2 & G2 & l2 & M1 & M2 & M3 & M4 & M5 & M6 & _).
      exists r, c2, G2, l2. split_and!; try done. rewrite Ep1, take_ge in M4; [done|].
      apply Nat.Div0.mod_divides in AK as [q Hq]. rewrite Hq, (Nat.mul_comm ps), Nat.div_mul by lia. lia. }
  rewrite E4. cbn [mbind pyres_bind]. rewrite Edev.
  destruct (inserted_longest _ _ _ _ _ _ _ HL AK LK Hst HL2) as (El2 & Tl2 & Sl2).
  assert (ll `prefix_of` l2) as Pll2 by (rewrite El2; etrans; [exact Pre|by apply prefix_app_r]).
  assert (length l2.*2 = al) as Ll2.
  { rewrite length_fmap, <-(length_fmap fst), Tl2, length_take. lia. }
  assert (take (length ll) l2.*2 = take (length ll) kv) as Hsh.
  { rewrite Hshare. destruct Pll2 as [z ->]. rewrite fmap_app, take_app_length'; [done|].
    by rewrite length_fmap. }
  set (p := length (Req.prefix_indices req)) in *.
  assert (take p l2.*2 = take (p `min` length l2.*2) kv) as Hw.
  { destruct Hcase as [-> |Hsame]; [by rewrite Nat.min_l by lia|].
    specialize (Hsame lw HL). assert (l2.*2 = take al kv) as ->.
    { rewrite Sl2, Hsame. assert (lw = ll) as ->.
      { symmetry. apply prefix_length_eq; [done|lia]. }
      rewrite <-Hshare. replace (take (length ll) kv) with (take (length ll) (take al kv)).
      - by rewrite take_drop.
      - rewrite take_take. f_equal. lia. }
    rewrite length_take, take_take. f_equal. lia. }
  assert (in_int32 l2.*2) as H32.
  { rewrite Sl2. apply Forall_app. split; [|by apply Forall_drop, Forall_take].
    apply Forall_forall. intros s Hin. apply (proj1 (Forall_forall _ _) Hst32).
    eapply stored_slots; [done|apply HL|done]. }
  destruct (write_back pool idx (len tokens) kv l2.*2 p Hwf Hidx eq_refl) as
    (pool' & E5 & W & Row & Hfr); try done; [unfold len; lia|lia|lia|].
  change (len (Req.prefix_indices req)) with (Z.of_nat p).
  rewrite E5. cbn [mbind pyres_bind]. unfold req_node. rewrite Rl. cbn [mbind pyres_bind mret pyres_ret].
  pose proof Rf as [F1 F2 F3 _ _ F6 _ F8].
  assert (G2 !! last = Some ll) as Gl by (eapply lookup_weaken; [|done]; by eapply lookup_weaken).
  destruct (dec_lock_ref_ok c2 G2 Hs last ll R2) as (dl & c3 & E6 & R3 & U3 & _); [congruence|done|].
  rewrite E6. cbn [mbind pyres_bind].
  destruct (inc_lock_ref_ok c3 G2 Hs (last_device_node r) l2 R3) as (dl' & c4 & E7 & R4 & U4 & _);
    [rewrite (ul_disable _ _ U3); congruence|done|].
  rewrite E7. cbn [mbind pyres_bind]. rewrite Row, Ll2.
  eexists _, c4, G2, pool', a1, (last_device_node r), l2. split; [done|]. split_and!; try done.
  - by etrans.
  - rewrite (upto_chunks _ _ _ U4), (upto_chunks _ _ _ U3), F8. done.
  - by rewrite Row, Ll2.
  - f_equal. f_equal. rewrite (ul_page _ _ U4), (ul_page _ _ U3), F1, Ep1.
    destruct (Nat.eqb_spec ps 1) as [E1|_].
    + rewrite drop_ge, app_nil_r; [done|]. rewrite Lkv, Eal, E1, Nat.div_1_r. lia.
    + f_equal. unfold py_drop. rewrite py_norm_nonneg by (unfold len; rewrite length_app; lia).
      unfold len. by rewrite Nat2Z.id, drop_app_length.
  - rewrite (ul_disable _ _ U4), (ul_disable _ _ U3). congruence.
  - rewrite (ul_page _ _ U4), (ul_page _ _ U3). congruence.
Qed.

End ownership.

Lemma repr_root_handle c G H : repr c G H → disable c = false → repr c G (root_node c :: H).
Proof.
  intros R Hd. destruct (inc_lock_ref_ok c G H _ _ R Hd (r_root _ _ _ R)) as (dl & c' & E & R' & _).
  assert (c' = c) as <-; [|done]. unfold inc_lock_ref in E. rewrite Hd in E.
  destruct (size (nodes c)); simpl in E; rewrite Nat.eqb_refl in E; by injection E.
Qed.

(** ** The contract with requests *)

(** C24: caching a finished request neither leaks nor double-frees: after
    [cache_finished_req] the request's own pages are either in the tree (the
    part that was new) or back in the allocator (duplicates and the partial
    tail), its lock and its pool row are released, everything stored before
    is still stored, and the page-aligned tokens of the request are stored. *)
Theorem radix_cache_finished_req_correct hash clock (ps : nat) (A : Type) `{KVAllocator ps A}
    req c G Hs pool (a : A) rest idx last ll :
  let tokens := (Req.origin_input_ids req ++ Req.output_ids req).[: -1] in
  let kv := ReqPool.read idx (len tokens) pool in
  repr c G (last :: Hs) → disable c = false → page_size c = ps →
  req_holds (ps := ps) req pool G tokens idx last ll →
  kv_owned a (tree_chunks c G ++ pages ps (drop (length ll) kv) ++ rest) →
  ∃ c' G' a',
    cache_finished_req hash clock req c pool a = Ok (c', ReqPool.free [idx] pool, a') ∧
    repr c' G' Hs ∧ G ⊆ G' ∧ kv_owned a' (tree_chunks c' G' ++ rest) ∧
    (∀ l, stored G l → stored G' l) ∧
    ∃ lw, stored G' lw ∧ lw.*1 = take (page_aligned_len c (length tokens)) tokens.
Proof.
  intros tokens kv R Hd Ep Hr Ho.
  destruct (cache_finished_ok hash clock req c G Hs pool a rest idx last ll R Hd Ep Hr Ho)
    as (c' & G' & a' & E & R' & HG & Ho' & _ & _ & _ & Hst). by exists c', G', a'.
Qed.

(** C25: [cache_unfinished_req] over an enabled radix cache, for a request
    that holds its row and its locked node, when no free group is open and
    either the prefix of the request is page aligned or nobody else has
    stored more of its tokens meanwhile (else its row keeps stale slots, see
    [radix_unfinished_partial_page_stale]). Then the complete pages of the
    running request move into the tree: duplicates are freed, the request's
    row and [prefix_indices] are switched to the tree's slots for the
    aligned tokens, the lock moves to the node that ends there, and the
    partial tail page stays with the request. *)
Theorem radix_cache_unfinished_req_correct hash clock (ps : nat) (A : Type) `{KVAllocator ps A}
    req c G Hs pool (a : A) rest idx last ll :
  let tokens := Req.fill_ids req in
  let kv := ReqPool.read idx (len tokens) pool in
  let al := page_aligned_len c (length tokens) in
  repr c G (last :: Hs) → disable c = false → page_size c = ps → kv_closed a →
  req_holds (ps := ps) req pool G tokens idx last ll →
  length (Req.prefix_indices req) = length ll ∨
    (∀ lw, longest ps G (take al tokens) lw → length lw = length ll) →
  (length (Req.prefix_indices req) ≤ length tokens)%nat → take (length ll) kv = ll.*2 →
  ReqPool.wf pool → 0 ≤ idx < ReqPool.size pool → in_int32 kv →
  in_int32 (concat (tree_chunks c G)) →
  kv_owned a (tree_chunks c G ++ pages ps (drop (length ll) kv) ++ rest) →
  ∃ req' c' G' pool' a' node lw,
    cache_unfinished_req hash clock req c pool a = Ok (req', c', pool', a') ∧
    repr c' G' (node :: Hs) ∧ G ⊆ G' ∧ G' !! node = Some lw ∧ lw.*1 = take al tokens ∧
    kv_owned a' (tree_chunks c' G' ++ pages ps (drop al kv) ++ rest) ∧
    ReqPool.wf pool' ∧ ReqPool.read idx (len tokens) pool' = lw.*2 ++ drop al kv ∧
    Req.last_node req' = Some node ∧ Req.prefix_indices req' = lw.*2 ++ drop al kv.
Proof.
  intros tokens kv al R Hd Eps _ Hr Hcase Hpl Hsh Hw Hi Hkv Hst Ho.
  destruct (cache_unfinished_ok hash clock req c G Hs pool a rest idx last ll R Hd Eps Hr Hcase Hpl Hsh Hw Hi Hkv Hst Ho)
    as (req' & c' & G' & pool' & a' & node & lw & E & R' & HG & Hg & Ht & Ho' & Hw' & Hread & -> & _).
  by eexists _, c', G', pool', a', node, lw.
Qed.

(** A request that recomputed four tokens the demo cache already has. *)
Definition demo_pool6 : Paged.t :=
  match Paged.alloc 12 (Paged.init (fun _ => 0) 12 2 false true) with
  | Ok (_, p) => p
  | Raise _ => Paged.init (fun _ => 0) 12 2 false true
  end.

Definition demo_rows : ReqPool.t :=
  ReqPool.mk 2 8 [[8; 9; 10; 11; 12; 0; 0; 0]; [0; 0; 0; 0; 0; 0; 0; 0]] [1].

Definition demo_request : Req.t :=
  Req.set_last_node (Some 0%nat) (Req.set_fill_ids [1; 2; 3; 4; 9]
    (Req.set_origin_input_ids [1; 2; 3] (Req.demo_req [4; 9; 7]))).

Lemma demo_owned G :
  tree_chunks demo_cache G ≡ₚ [[2; 3]; [4; 5]; [6; 7]] →
  kv_owned (ps := 2) demo_pool6 (tree_chunks demo_cache G ++ pages 2 [8; 9; 10; 11; 12] ++ []).
Proof.
  intros C. rewrite C. change (pages 2 [8; 9; 10; 11; 12] ++ []) with [[8; 9]; [10; 11]; [12]].
  split; [done|]. exists [1; 2; 3; 4; 5; 6]. split; [apply (bool_decide_unpack (Forall2 _ _ _)); vm_compute; reflexivity|].
  split; [|done|done]. vm_compute. reflexivity.
Qed.

Lemma demo_holds G tokens :
  repr demo_cache G [] → tokens = [1; 2; 3; 4; 9] →
  req_holds (ps := 2) demo_request demo_rows G tokens 0 0%nat [].
Proof.
  intros R ->. split; try done; [apply (r_root _ _ _ R)|apply prefix_nil].
Qed.

Lemma radix_cache_finished_req_correct_witness :
  ∃ c' a', cache_finished_req (ps := 2) demo_hash Z.of_nat demo_request demo_cache demo_rows demo_pool6
    = Ok (c', ReqPool.free [0] demo_rows, a') ∧ Paged.available_size a' = 6.
Proof.
  destruct demo_repr_chunks as (G & R & C).
  pose proof (repr_root_handle _ _ _ R eq_refl) as Rr.
  destruct (radix_cache_finished_req_correct demo_hash Z.of_nat 2 Paged.t demo_request demo_cache G []
    demo_rows demo_pool6 [] 0 0%nat []) as (c' & G' & a' & E & _);
    [exact Rr|reflexivity|reflexivity|apply demo_holds; [exact R|reflexivity]|exact (demo_owned G C)|].
  exists c', a'. split; [exact E|]. vm_compute in E. injection E as _ <-. reflexivity.
Defined.

Lemma radix_cache_unfinished_req_correct_witness :
  ∃ req' c' pool' a',
    cache_unfinished_req (ps := 2) demo_hash Z.of_nat demo_request demo_cache demo_rows demo_pool6
      = Ok (req', c', pool', a') ∧
    Req.prefix_indices req' = [2; 3; 4; 5; 12] ∧ Paged.available_size a' = 4.
Proof.
  destruct demo_repr_chunks as (G & R & C).
  pose proof (repr_root_handle _ _ _ R eq_refl) as Rr.
  assert (in_int32 (concat (tree_chunks demo_cache G))) as H32.
  { unfold in_int32. rewrite C. repeat constructor; lia. }
  destruct (radix_cache_unfinished_req_correct demo_hash Z.of_nat 2 Paged.t demo_request demo_cache G []
    demo_rows demo_pool6 [] 0 0%nat []) as (req' & c' & G' & pool' & a' & node & lw & E & _);
    [exact Rr|reflexivity|reflexivity|reflexivity|apply demo_holds; [exact R|reflexivity]
    |left; reflexivity|simpl; lia|reflexivity| | | |exact H32|exact (demo_owned G C)|].
  - split; [reflexivity|]. split; [|simpl; lia]. intros i Hi. assert (i = 0 ∨ i = 1) as [-> | ->] by (simpl in Hi; lia);
      reflexivity.
  - simpl. lia.
  - repeat constructor; lia.
  - exists req', c', pool', a'. split; [exact E|]. vm_compute in E. injection E as <- _ _ <-.
    split; reflexivity.
Defined.

(** *** A partial page shared with another request

    Page size 2.  Request A prefills a first chunk of three tokens (chunks are
    cut at [rem_chunk_tokens - page_size + 1], which need not be aligned), so
    its third token sits in a partial page and [prefix_indices] covers it.
    Request B stores [1; 2; 3; 4] meanwhile.  When A's next chunk is cached,
    its page for tokens 3 and 4 is a duplicate and is freed, but the row is
    rewritten only from [len(prefix_indices)] on. *)
Definition stale_run : pyres (Req.t * RadixCache * ReqPool.t * Paged.t) :=
  let rows := ReqPool.mk 1 8 [[2; 3; 8; 9; 10; 0; 0; 0]] [] in
  let a1 := Req.set_last_node (Some 0%nat) (Req.set_fill_ids [1; 2; 3] (Req.demo_req [])) in
  '(a1, c, rows, p) ← cache_unfinished_req (ps := 2) demo_hash Z.of_nat a1
     (init_RadixCache Z.of_nat 2 false false) rows demo_pool6;
  '(_, c) ← insert demo_hash Z.of_nat [1; 2; 3; 4] (Some [6; 7; 4; 5]) c;
  cache_unfinished_req (ps := 2) demo_hash Z.of_nat (Req.set_fill_ids [1; 2; 3; 4; 9] a1) c rows p.

(** with an unaligned prefix, caching a chunk can leave the request's
    row pointing at a freed slot: in this run position 2 of A's row is still
    slot 8, while page 4 (slots 8 and 9) is back in the free list and
    [prefix_indices] names slot 4 for that position. *)
Theorem radix_unfinished_partial_page_stale :
  ∃ req c pool p, stale_run = Ok (req, c, pool, p) ∧
    ReqPool.read 0 5 pool = [2; 3; 8; 5; 10] ∧
    Req.prefix_indices req = [2; 3; 4; 5; 10] ∧ 4 ∈ Paged.free_pages p.
Proof.
  eexists _, _, _, _. split; [vm_compute; reflexivity|].
  split; [reflexivity|]. split; [reflexivity|]. vm_compute. set_solver.
Qed.
