(* ===== verification/ChunkCache.v ===== *)
(** * Chunk caches ([python/sglang/srt/mem_cache/chunk_cache.py])

    The cache used when the radix cache is disabled: nothing is shared, a
    finished request gives all its slots back.  [SWAChunkCache] also drops the
    sliding-window slots that local attention has left behind. *)

From S2P Require Import Prelude Allocator SWAAllocator PagedAllocator PagedProofs ReqPool Request.
From S2P Require Import KVAllocator RadixCache RadixInv RadixOwn RadixEvict RadixReq.

Module ChunkCache.

Section chunk.
Context {ps : nat} {A : Type} `{KVAllocator ps A}.

(** [match_prefix] finds nothing; there are no nodes. *)
Definition match_prefix (key : list Z) : list Z * option nat * option nat * Z :=
  ([], None, None, 0).

Definition cache_finished_req (req : Req.t) (pool : ReqPool.t) (a : A) : pyres (ReqPool.t * A) :=
  idx ← pool_row req;
  let kv_indices := ReqPool.read idx
    (len (Req.origin_input_ids req) + Z.max (len (Req.output_ids req) - 1) 0) pool in
  let pool := ReqPool.free [idx] pool in
  a ← kv_free kv_indices a;
  mret (pool, a).

Definition cache_unfinished_req (req : Req.t) (pool : ReqPool.t) : pyres Req.t :=
  idx ← pool_row req;
  let kv_indices := ReqPool.read idx (len (Req.fill_ids req)) pool in
  mret (Req.set_prefix_indices kv_indices req).

Definition evict (num_tokens : Z) (a : A) : A := a.

Definition inc_lock_ref (node : option nat) : Z := 0.
Definition dec_lock_ref (node : option nat) : Z := 0.

Lemma chunk_finished_ok req pool (a : A) rest idx :
  let n := len (Req.origin_input_ids req) + Z.max (len (Req.output_ids req) - 1) 0 in
  let kv := ReqPool.read idx n pool in
  (0 < ps)%nat → Req.req_pool_idx req = Some idx → kv_owned a (pages ps kv ++ rest) →
  ∃ a', cache_finished_req req pool a = Ok (ReqPool.free [idx] pool, a') ∧ kv_owned a' rest ∧
    (kv_closed a → kv_closed a' ∧
      kv_available a' = kv_available a + Z.of_nat ps * len (pages ps kv)).
Proof.
  intros n kv Hps Hi Ho. unfold cache_finished_req, pool_row. rewrite Hi.
  cbn [mbind pyres_bind mret pyres_ret]. fold n. fold kv.
  destruct (kv_free_ok a _ _ rest (pages_parts ps Hps kv) Ho) as (a' & E & Ho' & Hc).
  rewrite concat_pages in E by done. rewrite E. simpl. by exists a'.
Qed.

End chunk.

(** without a radix cache a finished request returns every page of its
    row to the allocator exactly once, whole pages included, and releases the
    row. *)
Theorem chunk_cache_finished_req_correct (ps : nat) (A : Type) `{KVAllocator ps A}
    req pool used (a : A) rest idx :
  let n := len (Req.origin_input_ids req) + Z.max (len (Req.output_ids req) - 1) 0 in
  let kv := ReqPool.read idx n pool in
  (0 < ps)%nat → Req.req_pool_idx req = Some idx → kv_owned a (pages ps kv ++ rest) →
  ReqPool.owned pool (idx :: used) → kv_closed a →
  ∃ pool' a', cache_finished_req req pool a = Ok (pool', a') ∧ kv_owned a' rest ∧
    ReqPool.owned pool' used ∧
    kv_available a' = kv_available a + Z.of_nat ps * len (pages ps kv).
Proof.
  intros n kv Hps Hi Ho Hp Hc.
  destruct (chunk_finished_ok req pool a rest idx Hps Hi Ho) as (a' & E & Ho' & Hav).
  destruct (Hav Hc) as [_ Ha]. exists (ReqPool.free [idx] pool), a'. split_and!; try done.
  by apply (ReqPool.reqpool_free_owned pool [idx] used).
Qed.

(** A five-token request over three pages. *)
Definition chunk_pool : Paged.t :=
  match Paged.alloc 6 (Paged.init (fun _ => 0) 6 2 false true) with
  | Ok (_, p) => p
  | Raise _ => Paged.init (fun _ => 0) 6 2 false true
  end.

Definition chunk_rows : ReqPool.t := ReqPool.mk 2 8 [[2; 3; 4; 5; 6; 0; 0; 0]; [0; 0; 0; 0; 0; 0; 0; 0]] [1].

Lemma chunk_pool_owned : kv_owned (ps := 2) chunk_pool (pages 2 [2; 3; 4; 5; 6] ++ []).
Proof.
  split; [done|]. exists [1; 2; 3]. split; [apply (bool_decide_unpack (Forall2 _ _ _)); vm_compute; reflexivity|].
  split; [|done|done]. vm_compute. reflexivity.
Qed.

Lemma chunk_cache_finished_req_correct_witness :
  ∃ pool' a', cache_finished_req (ps := 2) (Req.demo_req [4; 9; 7]) chunk_rows chunk_pool = Ok (pool', a') ∧
    Paged.available_size a' = Paged.available_size chunk_pool + 6.
Proof.
  destruct (chunk_cache_finished_req_correct 2 Paged.t (Req.demo_req [4; 9; 7]) chunk_rows []
    chunk_pool [] 0) as (pool' & a' & E & _ & _ & Ha);
    [lia|reflexivity|exact chunk_pool_owned|vm_compute; apply Permutation_swap|reflexivity|].
  exists pool', a'. split; [exact E|]. exact Ha.
Defined.

End ChunkCache.

Module SWAChunkCache.

(** Drop the window before [prelen], rounded down to whole chunks. *)
Definition evict_swa (req : Req.t) (prelen attention_chunk_size : Z) (pool : ReqPool.t)
    (s : SWA.t) : pyres (Req.t * SWA.t) :=
  if Req.evicted_seqlen_local req + attention_chunk_size <=? prelen then
    let new_evicted_seqlen_local := attention_chunk_size * (prelen / attention_chunk_size) in
    idx ← pool_row req;
    let free_slots :=
      (ReqPool.row idx pool).[Req.evicted_seqlen_local req :: new_evicted_seqlen_local] in
    s ← SWA.free_swa free_slots s;
    mret (Req.set_evicted_seqlen_local new_evicted_seqlen_local req, s)
  else mret (req, s).

(** [evict_swa] frees exactly the sliding-window slots of the complete
    chunks before [prelen] that were not freed yet: the full-attention slots
    stay with the request, only whole chunks are dropped, and afterwards less
    than one chunk before [prelen] is still attached, so the next calls up to
    the end of that chunk do nothing. *)
Theorem swa_chunk_evict_correct req prelen chunk pool s rest idx :
  let e := Req.evicted_seqlen_local req in
  let e' := chunk * (prelen / chunk) in
  let win := drop (Z.to_nat e) (take (Z.to_nat e') (ReqPool.row idx pool)) in
  0 < chunk → 0 ≤ e ≤ prelen → e mod chunk = 0 → Req.req_pool_idx req = Some idx →
  SWA.owned s (win ++ rest) → SWA.is_not_in_free_group s = true →
  ∃ req' s', evict_swa req prelen chunk pool s = Ok (req', s') ∧
    SWA.owned s' (win ++ rest) ∧
    (∀ x, x ∈ win → e + chunk ≤ prelen → SWA.mapping_at s' x = 0) ∧
    Req.evicted_seqlen_local req' = e' ∧ e' ≤ prelen < e' + chunk ∧ e' mod chunk = 0.
Proof.
  intros e e' win Hc He Hm Hi Ho Hg.
  assert (e' ≤ prelen < e' + chunk ∧ e' mod chunk = 0 ∧ 0 ≤ e') as (Hb & Hm' & He').
  { unfold e'. pose proof (Z.mul_div_le prelen chunk Hc). pose proof (Z.mul_succ_div_gt prelen chunk Hc).
    split; [lia|]. split; [rewrite Z.mul_comm; apply Z.mod_mul; lia|].
    apply Z.mul_nonneg_nonneg; [lia|]. apply Z.div_pos; lia. }
  unfold evict_swa. fold e. destruct (Z.leb_spec (e + chunk) prelen) as [Hle|Hgt].
  - unfold pool_row. rewrite Hi. cbn [mbind pyres_bind mret pyres_ret]. fold e'.
    rewrite py_slice_drop_take by lia. fold win.
    destruct (SWA.swa_evict_ok s win rest Ho) as (s' & E & Ho' & Hz & _).
    rewrite E. simpl. eexists _, s'. split_and!; try done; try lia. intros x Hx _. by apply Hz.
  - exists req, s. assert (e = e') as Ee.
    { apply Z.mod_divide in Hm as [q Hq]; [|lia]. unfold e'. rewrite Hq.
      assert (prelen / chunk = q) as ->; [|lia]. symmetry. apply (Z.div_unique _ _ _ (prelen - chunk * q)); lia. }
    split_and!; try done; lia.
Qed.

(** Two slots of a window of chunk size two. *)
Definition swa_rows : ReqPool.t := ReqPool.mk 1 4 [[1; 2; 0; 0]] [].

Lemma swa_chunk_evict_correct_witness :
  ∃ req' s', evict_swa (Req.demo_req []) 3 2 swa_rows SWA.demo = Ok (req', s') ∧
    SWA.owned s' ([1; 2] ++ []) ∧ Req.evicted_seqlen_local req' = 2.
Proof.
  assert (SWA.owned SWA.demo ([1; 2] ++ [])) as Ho.
  { assert (SWA.reach (fun _ => 5) 4 2 true (SWA.demo, [1; 2])) as Hr.
    { apply (SWA.reach_step _ _ _ _ (SWA.init (fun _ => 5) 4 2 true, [])); [apply SWA.reach_init|].
      apply (SWA.step_alloc 2). lia. }
    exact (SWA.reach_owned (fun _ => 5) 4 2 true _ ltac:(lia) ltac:(lia) Hr). }
  destruct (swa_chunk_evict_correct (Req.demo_req []) 3 2 swa_rows SWA.demo [] 0)
    as (req' & s' & E & Ho' & _ & He & _);
    [lia|simpl; lia|reflexivity|reflexivity|exact Ho|reflexivity|].
  exists req', s'. split; [exact E|]. split; [exact Ho'|exact He].
Defined.

End SWAChunkCache.
