(* ===== verification/SchedulePolicy.v ===== *)
(** * Scheduling policies ([python/sglang/srt/managers/schedule_policy.py])

    [SchedulePolicy.calc_priority] orders the waiting queue: by longest
    cached prefix (with in-batch prefix deprioritisation), by depth-first
    request weight over the radix tree, by longest output, or not at all.
    Requests are updated in place by the prefix computation, so the queue is
    returned.  [list.sort] is a stable sort; [random.shuffle] is a parameter. *)

From Stdlib Require Import QArith.
From S2P Require Import Prelude SamplingParams Request RadixCache RadixInv RadixOwn RadixSplit RadixMatch.
From S2P Require Import RadixInsert RadixLocks RadixTraverse.
Open Scope Z_scope.

(** ** Stable sorting ([list.sort(key=...)]) *)

Section sort.
Context {A : Type} (le : A → A → bool).

Fixpoint sort_insert (x : A) (l : list A) : list A :=
  match l with
  | [] => [x]
  | y :: l' => if le x y then x :: l else y :: sort_insert x l'
  end.

Definition py_sort (l : list A) : list A := foldr sort_insert [] l.

Lemma sort_insert_perm x l : sort_insert x l ≡ₚ x :: l.
Proof.
  induction l as [|y l IH]; simpl; [done|]. case_match; [done|]. rewrite IH. apply Permutation_swap.
Qed.

Lemma py_sort_perm l : py_sort l ≡ₚ l.
Proof. induction l as [|x l IH]; simpl; [done|]. by rewrite sort_insert_perm, IH. Qed.

Context (le_total : ∀ x y, le x y = true ∨ le y x = true).
Context (le_trans : ∀ x y z, le x y = true → le y z = true → le x z = true).

Lemma sort_insert_sorted x l :
  StronglySorted (fun a b => le a b = true) l →
  StronglySorted (fun a b => le a b = true) (sort_insert x l).
Proof using le_total le_trans.
  induction 1 as [|y l Hs IH Hall]; simpl; [repeat constructor|].
  destruct (le x y) eqn:E.
  - constructor; [by constructor|]. constructor; [done|].
    eapply Forall_impl; [done|]. intros z Hz. by eapply le_trans.
  - constructor; [done|]. rewrite sort_insert_perm. constructor; [|done].
    destruct (le_total x y); congruence.
Qed.

Lemma py_sort_sorted l : StronglySorted (fun a b => le a b = true) (py_sort l).
Proof using le_total le_trans.
  induction l as [|x l IH]; simpl; [constructor|]. by apply sort_insert_sorted.
Qed.

(** Stability: elements equivalent to [a] keep their order. *)
Definition equivb (a x : A) : bool := le a x && le x a.

Lemma sort_insert_stable a x l :
  StronglySorted (fun a b => le a b = true) l →
  filter (fun z => equivb a z = true) (sort_insert x l) = filter (fun z => equivb a z = true) (x :: l).
Proof using le_total le_trans.
  induction 1 as [|y l Hs IH Hall]; [done|]. simpl sort_insert.
  destruct (le x y) eqn:E; [done|].
  rewrite (filter_cons _ y), IH, !filter_cons. unfold equivb.
  destruct (decide (le a x && le x a = true)) as [Hx|], (decide (le a y && le y a = true)) as [Hy|]; try done.
  exfalso. apply andb_true_iff in Hx as [Hx1 Hx2], Hy as [Hy1 Hy2].
  assert (le x y = true) by (by eapply le_trans). congruence.
Qed.

Lemma py_sort_stable a l :
  filter (fun z => equivb a z = true) (py_sort l) = filter (fun z => equivb a z = true) l.
Proof using le_total le_trans.
  induction l as [|x l IH]; [done|]. simpl py_sort.
  rewrite sort_insert_stable by apply py_sort_sorted. rewrite !filter_cons. by rewrite IH.
Qed.

End sort.

(** ** Policies *)

Inductive CacheAwarePolicy := LPM | DFS_WEIGHT.
Inductive CacheAgnosticPolicy := FCFS | LOF | RANDOM.

Definition Policy : Type := CacheAwarePolicy + CacheAgnosticPolicy.

Definition IN_BATCH_PREFIX_CACHING_CHECK_THRESHOLD : Z := 32.
Definition IN_BATCH_PREFIX_CACHING_DEPRIORITIZE_THRESHOLD : Z := 32.

Module SchedulePolicy.

(** [disable] is [getattr(tree_cache, "disable", True)]. *)
Definition _validate_and_adjust_policy (policy : string) (disable : bool) : pyres Policy :=
  let aware p := mret (if disable then inr FCFS else inl p) in
  if decide (policy = "lpm")%string then aware LPM
  else if decide (policy = "dfs-weight")%string then aware DFS_WEIGHT
  else if decide (policy = "fcfs")%string then mret (inr FCFS)
  else if decide (policy = "lof")%string then mret (inr LOF)
  else if decide (policy = "random")%string then mret (inr RANDOM)
  else Raise ValueError.

Definition _determine_active_policy (policy : Policy) (waiting_queue : list Req.t) : Policy :=
  match policy with
  | inl LPM => if 128 <? len waiting_queue then inr FCFS else policy
  | _ => policy
  end.

Section policy.
Context (hash : list Z → Z) (clock : nat → Z).
(** the content of [torch.empty(n)] *)
Context (garbage : nat → list Z).

(** One round of the loop of [_compute_prefix_matches]: the request, the two
    trees, and the set of deprioritised ids. *)
Definition prefix_match_one (r : Req.t) (tree wq : RadixCache) (dep : list string)
    : pyres (Req.t * RadixCache * RadixCache * list string) :=
  '(prefix_ids, r) ← Req.adjust_max_prefix_ids r;
  '(m, tree) ← match_prefix hash clock prefix_ids tree;
  let r := Req.set_host_hit_length (host_hit_length m)
    (Req.set_last_host_node (Some (last_host_node m))
      (Req.set_last_node (Some (last_device_node m))
        (Req.set_prefix_indices (device_indices m) r))) in
  if len (Req.prefix_indices r) <=? IN_BATCH_PREFIX_CACHING_CHECK_THRESHOLD then
    '(m, wq) ← match_prefix hash clock prefix_ids wq;
    if IN_BATCH_PREFIX_CACHING_DEPRIORITIZE_THRESHOLD <=? len (device_indices m)
    then mret (r, tree, wq, Req.rid r :: dep)
    else
      '(_, wq) ← insert hash clock prefix_ids (Some (garbage (length prefix_ids))) wq;
      mret (r, tree, wq, dep)
  else mret (r, tree, wq, dep).

Fixpoint prefix_match_loop (queue : list Req.t) (tree wq : RadixCache) (dep : list string)
    : pyres (list Req.t * RadixCache * RadixCache * list string) :=
  match queue with
  | [] => mret ([], tree, wq, dep)
  | r :: queue =>
      '(r, tree, wq, dep) ← prefix_match_one r tree wq dep;
      '(queue, tree, wq, dep) ← prefix_match_loop queue tree wq dep;
      mret (r :: queue, tree, wq, dep)
  end.

Definition _compute_prefix_matches (waiting_queue : list Req.t) (tree wq : RadixCache)
    : pyres (list Req.t * RadixCache * RadixCache * list string) :=
  prefix_match_loop waiting_queue tree (reset clock wq) [].

(** The sort key of [_sort_by_longest_prefix]: deprioritised requests have key
    infinity. *)
Definition lpm_le (dep : list string) (a b : Req.t) : bool :=
  let inf r := bool_decide (Req.rid r ∈ dep) in
  if inf b then true
  else if inf a then false
  else - len (Req.prefix_indices a) <=? - len (Req.prefix_indices b).

Definition _sort_by_longest_prefix (waiting_queue : list Req.t) (dep : list string) : list Req.t :=
  py_sort (lpm_le dep) waiting_queue.

(** A missing [max_new_tokens] cannot be negated. *)
Definition _sort_by_longest_output (waiting_queue : list Req.t) : pyres (list Req.t) :=
  let key r := default 0 (SamplingParams.max_new_tokens (Req.sampling_params r)) in
  if forallb (fun r => bool_decide
       (is_Some (SamplingParams.max_new_tokens (Req.sampling_params r)))) waiting_queue
  then mret (py_sort (fun a b => - key a <=? - key b) waiting_queue)
  else Raise TypeError.

(** *** Depth-first weights *)

(** Requests whose last node is [n], in queue order ([last_node_to_reqs]). *)
Definition reqs_at (waiting_queue : list Req.t) (n : nat) : list Req.t :=
  filter (fun r => Req.last_node r = Some n) waiting_queue.

(** [node_to_weight] is a [defaultdict(int)]. *)
Fixpoint _calc_weight (fuel : nat) (c : RadixCache) (cur_node : nat) (w : gmap nat Z)
    : pyres (gmap nat Z) :=
  match fuel with
  | O => Raise OutOfFuel
  | S fuel =>
      foldl (fun acc child =>
               w ← acc;
               w ← _calc_weight fuel c child w;
               mret (<[cur_node := default 0 (w !! cur_node) + default 0 (w !! child)]> w))
            (mret w) (children (node_at c cur_node)).*2
  end.

Fixpoint _get_dfs_priority (fuel : nat) (c : RadixCache) (cur_node : nat)
    (w : gmap nat Z) (reqs : nat → list Req.t) (q : list Req.t) : pyres (list Req.t) :=
  match fuel with
  | O => Raise OutOfFuel
  | S fuel =>
      let childs := py_sort (fun x y => - default 0 (w !! x) <=? - default 0 (w !! y))
                      (children (node_at c cur_node)).*2 in
      q ← foldl (fun acc child => q ← acc; _get_dfs_priority fuel c child w reqs q) (mret q) childs;
      mret (q ++ reqs cur_node)
  end.

Definition init_weights (waiting_queue : list Req.t) : gmap nat Z :=
  foldr (fun r w => match Req.last_node r with
                    | Some n => <[n := len (reqs_at waiting_queue n)]> w
                    | None => w end) ∅ waiting_queue.

Definition _sort_by_dfs_weight (waiting_queue : list Req.t) (tree : RadixCache) : pyres (list Req.t) :=
  let fuel := size (nodes tree) in
  w ← _calc_weight fuel tree (root_node tree) (init_weights waiting_queue);
  _get_dfs_priority fuel tree (root_node tree) w (reqs_at waiting_queue) [].

(** Result: whether prefixes were computed, the queue, and the trees. *)
Definition calc_priority (shuffle : list Req.t → list Req.t) (policy : Policy)
    (waiting_queue : list Req.t) (tree wq : RadixCache)
    : pyres (bool * list Req.t * RadixCache * RadixCache) :=
  match policy with
  | inr FCFS => mret (false, waiting_queue, tree, wq)
  | _ =>
      match _determine_active_policy policy waiting_queue with
      | inl p =>
          '(queue, tree, wq, dep) ← _compute_prefix_matches waiting_queue tree wq;
          queue ← (match p with
                   | LPM => mret (_sort_by_longest_prefix queue dep)
                   | DFS_WEIGHT => _sort_by_dfs_weight queue tree
                   end);
          mret (true, queue, tree, wq)
      | inr FCFS => mret (false, waiting_queue, tree, wq)
      | inr LOF => queue ← _sort_by_longest_output waiting_queue; mret (false, queue, tree, wq)
      | inr RANDOM => mret (false, shuffle waiting_queue, tree, wq)
      end
  end.

End policy.
End SchedulePolicy.
