(* ===== verification/SchedulePolicyProofs.v ===== *)
(** * Correctness of the scheduling policies

    The queue is only reordered; the prefix information computed for every
    request is the longest cached prefix and stays valid for the final tree;
    the order of each policy is exactly determined: longest-prefix order is
    sorted and stable, with the requests that share an uncached prefix with an
    earlier one last; depth-first order visits heavier subtrees first, where
    the weight of a node is the number of requests below it. *)

From Stdlib Require Import QArith.
From S2P Require Import Prelude SamplingParams Request RadixCache RadixInv RadixOwn RadixSplit RadixMatch.
From S2P Require Import RadixInsert RadixLocks RadixTraverse SchedulePolicy.
Import SchedulePolicy.
Open Scope Z_scope.

(** ** Looking up any key *)

Lemma match_prefix_total hash clock H c G k :
  repr c G H → disable c = false →
  ∃ r c' G' lw,
    match_prefix hash clock k c = Ok (r, c') ∧ repr c' G' H ∧ refined c G c' G' ∧
    longest (page_size c) G (take (length k / page_size c * page_size c)%nat k) lw ∧
    device_indices r = lw.*2 ∧ G' !! last_device_node r = Some lw.
Proof.
  intros R Hd. destruct (decide (k = [])) as [->|Hk].
  - exists (mkMatch [] (root_node c) (root_node c) 0), c, G, [].
    unfold match_prefix. rewrite Hd. simpl. split_and!; try done.
    + rewrite take_nil. apply (stuck_longest c G H R (root_node c) [] []); [apply R| |auto].
      apply Nat.Div0.mod_0_l.
    + apply R.
  - destruct (match_prefix_ok hash clock H c G k R Hd Hk) as (r & c' & G' & lw & E & ? & ? & ? & ? & ? & _).
    by exists r, c', G', lw.
Qed.

(** ** Prefix computation *)

(** The prefix fields of [r] describe node [n] of a tree with paths [G]. *)
Definition prefix_valid (ps : nat) (G0 G : gmap nat path) (r : Req.t) : Prop :=
  ∃ n lw ids r0, Req.last_node r = Some n ∧ G !! n = Some lw ∧ Req.prefix_indices r = lw.*2 ∧
    Req.adjust_max_prefix_ids r0 = Ok (ids, Req.set_fill_ids (Req.fill_ids r) r0) ∧
    Req.rid r0 = Req.rid r ∧
    longest ps G0 (take (length ids / ps * ps)%nat ids) lw.

(** What stays of a request while it waits: all but its prefix fields. *)
Definition same_request (r r' : Req.t) : Prop :=
  Req.rid r' = Req.rid r ∧ Req.origin_input_ids r' = Req.origin_input_ids r ∧
  Req.output_ids r' = Req.output_ids r ∧ Req.sampling_params r' = Req.sampling_params r ∧
  Req.finished_reason r' = Req.finished_reason r ∧ Req.tokenizer r' = Req.tokenizer r ∧
  Req.is_chunked r' = Req.is_chunked r.

(** The simulated tree of the waiting queue, before and after a round. *)
Definition wq_ready (wq : RadixCache) : Prop :=
  page_size wq = 1%nat ∧ disable wq = false ∧ ∀ n, is_Some (nodes wq !! n) → (n < counter wq)%nat.

(** *** Prefixes shared inside the queue

    The routine keeps the prefixes of the requests it has seen in a radix
    tree.  The reference keeps them in a list. *)

Fixpoint common (k l : list Z) : Z :=
  match k, l with
  | x :: k, y :: l => if x =? y then 1 + common k l else 0
  | _, _ => 0
  end.

(** What is looked up for a request. *)
Definition prefix_key (r : Req.t) : list Z :=
  match Req.adjust_max_prefix_ids r with Ok (ids, _) => ids | Raise _ => [] end.

(** The ids of the deprioritised requests; the second component of a pair has
    the prefix that was found in the cache. *)
Fixpoint deprioritized (qs : list (Req.t * Req.t)) (seen : list (list Z)) (dep : list string) : list string :=
  match qs with
  | [] => dep
  | (r, r') :: qs =>
      if len (Req.prefix_indices r') <=? 32 then
        if existsb (fun k => 32 <=? common k (prefix_key r)) seen
        then deprioritized qs seen (Req.rid r :: dep)
        else deprioritized qs (prefix_key r :: seen) dep
      else deprioritized qs seen dep
  end.

(** The tree holds the prefixes of the keys [seen]. *)
Definition seen_in (seen : list (list Z)) (G : gmap nat path) : Prop :=
  ∀ K, (∃ l, stored G l ∧ l.*1 = K) ↔ K = [] ∨ ∃ k, k ∈ seen ∧ K `prefix_of` k.

Lemma common_prefix_le K k l : K `prefix_of` k → K `prefix_of` l → len K ≤ common k l.
Proof.
  revert k l. induction K as [|x K IH]; intros k l [k' ->] [l' ->].
  - change (len []) with 0. induction ([] ++ k') as [|a k IH] in l' |- *; simpl; [lia|].
    destruct l' as [|b l']; [lia|]. specialize (IH l'). simpl in IH. destruct (a =? b); lia.
  - simpl. rewrite Z.eqb_refl, len_cons. specialize (IH (K ++ k') (K ++ l')). assert (len K ≤ common (K ++ k') (K ++ l')); [|lia].
    apply IH; by eexists.
Qed.

Lemma common_shared k l : ∃ K, len K = common k l ∧ K `prefix_of` k ∧ K `prefix_of` l.
Proof.
  revert l. induction k as [|x k IH]; intros l; [by exists []; split; [|split; apply prefix_nil]|].
  destruct l as [|y l]; [by exists []; split; [|split; apply prefix_nil]|]. simpl.
  destruct (Z.eqb_spec x y) as [->|]; [|by exists []; split; [|split; apply prefix_nil]].
  destruct (IH l) as (K & E & P1 & P2). exists (y :: K). rewrite len_cons, E. split; [done|]. split; by apply prefix_cons.
Qed.

(** The length found in the tree reaches a bound if a key shares as much. *)
Lemma seen_longest seen G ids lw (b : Z) : 0 < b → seen_in seen G → longest 1 G ids lw →
  (b <=? len lw.*2) = existsb (fun k => b <=? common k ids) seen.
Proof.
  intros Hb Hs [L1 L2 _ L4]. apply eq_true_iff_eq. rewrite Z.leb_le, existsb_exists.
  assert (len lw.*2 = len lw.*1) as -> by (by rewrite !len_fmap). split.
  - intros Hl. destruct (proj1 (Hs lw.*1)) as [E|(k & Hk & Hp)]; [by exists lw|rewrite E in Hl; change (len []) with 0 in Hl; lia|].
    exists k. split; [by apply list_elem_of_In|]. rewrite Z.leb_le. pose proof (common_prefix_le _ _ _ Hp L2). lia.
  - intros (k & Hk%list_elem_of_In & Hc%Z.leb_le). destruct (common_shared k ids) as (K & E & P1 & P2).
    destruct (proj2 (Hs K)) as (l & Hst & El); [right; eauto|]. subst K.
    pose proof (L4 l Hst (Nat.mod_1_r _) P2) as Hp. apply prefix_length in Hp. rewrite len_fmap in E. rewrite len_fmap. unfold len in *. lia.
Qed.

Lemma seen_refined seen c G c' G' : refined c G c' G' → seen_in seen G → seen_in seen G'.
Proof.
  intros Hf Hs K. rewrite <-(Hs K). split; intros (l & Hl & E); exists l; (split; [|done]); by apply (rf_stored _ _ _ _ Hf).
Qed.

Lemma seen_insert seen G G' ids (v : list Z) lw : length v = length ids → lw.*1 `prefix_of` ids → seen_in seen G →
  (∀ l, stored G' l ↔ stored G l ∨ l `prefix_of` lw ++ zip (drop (length lw) ids) (drop (length lw) v)) →
  seen_in (ids :: seen) G'.
Proof.
  intros Ev Hp Hs Hst K. set (new := lw ++ zip _ _) in *.
  assert (new.*1 = ids) as En.
  { unfold new. rewrite fmap_app, fst_zip by (rewrite !length_drop; lia). destruct Hp as [r ->].
    rewrite <-(length_fmap fst lw), drop_app_length. done. }
  assert ((∃ l, stored G' l ∧ l.*1 = K) ↔ (∃ l, stored G l ∧ l.*1 = K) ∨ K `prefix_of` ids) as ->.
  { split.
    - intros (l & [Hl|Hl]%Hst & E); [left; eauto|]. right. rewrite <-E, <-En. by apply prefix_fmap_fst.
    - intros [(l & Hl & E)|[r Hr]]; [exists l; split; [apply Hst; by left|done]|].
      exists (take (length K) new). split; [apply Hst; right; apply prefix_take|]. by rewrite fmap_take, En, Hr, take_app_length. }
  rewrite (Hs K). set_solver.
Qed.

Lemma seen_root n : seen_in [] {[n := []]}.
Proof.
  intros K. split.
  - intros (l & (m & l' & [_ <-]%lookup_singleton_Some & Hl) & <-). left. by apply prefix_nil_inv in Hl as ->.
  - intros [->|(k & Hk & _)]; [|by apply elem_of_nil in Hk]. exists []. split; [|done]. exists n, []. split; [apply lookup_singleton_eq|done].
Qed.

Section matches.
Context (hash : list Z → Z) (clock : nat → Z) (garbage : nat → list Z).
Context (garbage_length : ∀ n, length (garbage n) = n).

Lemma prefix_match_one_ok H r tree G wq Gw dep m seen :
  SamplingParams.max_new_tokens (Req.sampling_params r) = Some m →
  repr tree G H → disable tree = false →
  repr wq Gw [] → disable wq = false → page_size wq = 1%nat → seen_in seen Gw →
  ∃ r' tree' G' wq' Gw' dep' seen',
    prefix_match_one hash clock garbage r tree wq dep = Ok (r', tree', wq', dep') ∧
    repr tree' G' H ∧ refined tree G tree' G' ∧
    repr wq' Gw' [] ∧ disable wq' = false ∧ page_size wq' = 1%nat ∧
    same_request r r' ∧ prefix_valid (page_size tree) G G' r' ∧
    seen_in seen' Gw' ∧ ∀ qs, deprioritized ((r, r') :: qs) seen dep = deprioritized qs seen' dep'.
Proof using garbage_length.
  intros Hm R Hd Rw Hdw Epw Hsn. unfold prefix_match_one.
  assert (∃ ids, Req.adjust_max_prefix_ids r = Ok (ids, Req.set_fill_ids (Req.origin_input_ids r ++ Req.output_ids r) r))
    as [ids Ea].
  { unfold Req.adjust_max_prefix_ids, Req.get_max_new_tokens. simpl. rewrite Hm. simpl. eauto. }
  assert (prefix_key r = ids) as Ek by (unfold prefix_key; by rewrite Ea).
  rewrite Ea. cbn [mbind pyres_bind].
  destruct (match_prefix_total hash clock H tree G ids R Hd) as (r1 & tree' & G' & lw & E1 & R1 & F1 & L1 & D1 & N1).
  rewrite E1. cbn [mbind pyres_bind].
  match goal with |- context[Req.set_host_hit_length ?a ?b] => set (r' := Req.set_host_hit_length a b) end.
  assert (same_request r r') as Hs by done.
  assert (prefix_valid (page_size tree) G G' r') as Hv.
  { by exists (last_device_node r1), lw, ids, r. }
  change IN_BATCH_PREFIX_CACHING_CHECK_THRESHOLD with 32.
  destruct (len (Req.prefix_indices r') <=? 32) eqn:Elen.
  2:{ exists r', tree', G', wq, Gw, dep, seen. split_and!; try done. intros qs. cbn [deprioritized]. by rewrite Elen. }
  destruct (match_prefix_total hash clock [] wq Gw ids Rw Hdw) as (r2 & wq1 & Gw1 & lw2 & E2 & R2 & F2 & L2 & D2 & _).
  rewrite E2. cbn [mbind pyres_bind]. pose proof F2 as [Fp _ Fd _ _ _ _ _].
  rewrite Epw, Nat.div_1_r, Nat.mul_1_r, take_ge in L2 by done. pose proof (seen_refined _ _ _ _ _ F2 Hsn) as Hsn1.
  change IN_BATCH_PREFIX_CACHING_DEPRIORITIZE_THRESHOLD with 32. rewrite D2, (seen_longest seen Gw ids lw2 32) by done.
  destruct (existsb _ seen) eqn:Ex.
  - exists r', tree', G', wq1, Gw1, (Req.rid r' :: dep), seen. split_and!; try done; [congruence..|].
    intros qs. cbn [deprioritized]. by rewrite Elen, Ek, Ex.
  - destruct (insert_ok hash clock [] wq1 Gw1 ids (garbage (length ids)) R2) as
      (wq2 & Gw2 & lw3 & E3 & R3 & _ & L3 & St3 & _ & _ & P3 & _ & D3 & _).
    + congruence.
    + rewrite Fp, Epw. apply Nat.mod_1_r.
    + apply garbage_length.
    + rewrite E3. cbn [mbind pyres_bind].
      exists r', tree', G', wq2, Gw2, dep, (ids :: seen). split_and!; try done; [congruence| |].
      * eapply seen_insert; [apply garbage_length|apply L3|exact Hsn1|exact St3].
      * intros qs. cbn [deprioritized]. by rewrite Elen, Ek, Ex.
Qed.

Lemma prefix_valid_refined ps G0 c G c' G' r :
  prefix_valid ps G0 G r → refined c G c' G' → prefix_valid ps G0 G' r.
Proof.
  intros (n & lw & ids & r0 & ? & ? & ? & ? & ? & ?) Hf. exists n, lw, ids, r0. split_and!; try done.
  by eapply lookup_weaken; [|apply Hf].
Qed.

Lemma longest_refined ps c G c' G' K lw :
  refined c G c' G' → longest ps G' K lw → longest ps G K lw.
Proof.
  intros [_ _ _ _ _ _ S _] [L1 L2 L3 L4]. split; [by apply S|done..|].
  intros l Hl. apply L4. by apply S.
Qed.

Lemma prefix_match_loop_ok H queue tree G wq Gw dep seen :
  Forall (fun r => is_Some (SamplingParams.max_new_tokens (Req.sampling_params r))) queue →
  repr tree G H → disable tree = false →
  repr wq Gw [] → disable wq = false → page_size wq = 1%nat → seen_in seen Gw →
  ∃ queue' tree' G' wq' dep',
    prefix_match_loop hash clock garbage queue tree wq dep = Ok (queue', tree', wq', dep') ∧ wq_ready wq' ∧
    repr tree' G' H ∧ refined tree G tree' G' ∧
    Forall2 same_request queue queue' ∧ Forall (prefix_valid (page_size tree) G G') queue' ∧
    dep' = deprioritized (zip queue queue') seen dep.
Proof using garbage_length.
  revert tree G wq Gw dep seen. induction queue as [|r queue IH]; intros tree G wq Gw dep seen Hq R Hd Rw Hdw Epw Hsn.
  { exists [], tree, G, wq, dep. split_and!; try done. split; [done|]. split; [done|]. apply Rw. }
  apply Forall_cons in Hq as [[m Hm] Hq]. cbn [prefix_match_loop].
  destruct (prefix_match_one_ok H r tree G wq Gw dep m seen Hm R Hd Rw Hdw Epw Hsn) as
    (r' & t1 & G1 & w1 & Gw1 & d1 & sn1 & E1 & R1 & F1 & Rw1 & Hdw1 & Epw1 & S1 & V1 & Hsn1 & Hdep).
  rewrite E1. cbn [mbind pyres_bind].
  destruct (IH t1 G1 w1 Gw1 d1 sn1 Hq R1) as (q2 & t2 & G2 & w2 & d2 & E2 & Hw2 & R2 & F2 & S2 & V2 & Ed); try done.
  { by rewrite (rf_disable _ _ _ _ F1). }
  rewrite E2. cbn [mbind pyres_bind].
  exists (r' :: q2), t2, G2, w2, d2. split_and!; try done.
  - by eapply refined_trans.
  - by constructor.
  - constructor; [by eapply prefix_valid_refined|]. eapply Forall_impl; [exact V2|].
    intros x (n & lw & ids & r0 & ? & ? & ? & ? & ? & HL). exists n, lw, ids, r0. split_and!; try done.
    rewrite (rf_page _ _ _ _ F1) in HL. by eapply longest_refined.
  - rewrite Ed. cbn [zip zip_with]. by rewrite Hdep.
Qed.

End matches.

(** ** Longest prefix first *)

Lemma sorted_impl {A} (P Q : A → A → Prop) l :
  (∀ a b, P a b → Q a b) → StronglySorted P l → StronglySorted Q l.
Proof.
  intros HPQ. induction 1 as [|x l Hs IH Hall]; constructor; [done|].
  eapply Forall_impl; [done|]. auto.
Qed.

Lemma lpm_total dep x y : lpm_le dep x y = true ∨ lpm_le dep y x = true.
Proof.
  unfold lpm_le. repeat case_bool_decide; auto.
  rewrite !Z.leb_le. lia.
Qed.

Lemma lpm_trans dep x y z : lpm_le dep x y = true → lpm_le dep y z = true → lpm_le dep x z = true.
Proof.
  unfold lpm_le. repeat case_bool_decide; try done. rewrite !Z.leb_le. lia.
Qed.

(** ** Depth-first order *)

Lemma count_bind {A} `{EqDecision A} {B} (x : A) (f : B → list A) l :
  count x (l ≫= f) = zsum ((fun b => count x (f b)) <$> l).
Proof.
  induction l as [|b l IH]; [done|]. rewrite bind_cons, count_app, IH. done.
Qed.

Lemma count_Permutation {A} `{EqDecision A} (x : A) l k : l ≡ₚ k → count x l = count x k.
Proof. intros E. unfold count, len. by rewrite E. Qed.

Lemma bind_perm {A B} (f : A → list B) l k : l ≡ₚ k → l ≫= f ≡ₚ k ≫= f.
Proof. intros E. by rewrite E. Qed.

Lemma bind_app_distr {A B} (f g : A → list B) l :
  l ≫= (fun x => f x ++ g x) ≡ₚ (l ≫= f) ++ (l ≫= g).
Proof.
  induction l as [|x l IH]; [done|]. rewrite !bind_cons, IH.
  generalize (f x), (g x), (l ≫= f), (l ≫= g). intros. solve_Permutation.
Qed.

Lemma bind_pick {B} (n0 : nat) (b : B) ns :
  NoDup ns → ns ≫= (fun n => if decide (n0 = n) then [b] else []) = if decide (n0 ∈ ns) then [b] else [].
Proof.
  induction ns as [|n ns IH]; [done|]. intros [Hn Hnd]%NoDup_cons. rewrite bind_cons, IH by done.
  repeat case_decide; subst; set_solver.
Qed.

(** Grouping by node and concatenating the groups permutes the queue. *)
Lemma reqs_at_partition ns queue :
  NoDup ns → Forall (fun r => ∃ n, Req.last_node r = Some n ∧ n ∈ ns) queue →
  ns ≫= reqs_at queue ≡ₚ queue.
Proof.
  intros Hnd. induction 1 as [|r queue (n0 & Hr & Hin) _ IH].
  { induction ns; [done|]. simpl. apply NoDup_cons in Hnd as [_ Hnd]. by rewrite IHns. }
  rewrite <-IH at 2. etrans.
  - erewrite (bind_perm_ext _ (fun n => (if decide (n0 = n) then [r] else []) ++ reqs_at queue n)).
    { apply bind_app_distr. }
    intros n _. unfold reqs_at. rewrite filter_cons, Hr. repeat case_decide; naive_solver.
  - by rewrite bind_pick, decide_True.
Qed.

Section dfs.
Context (c : RadixCache) (G : gmap nat path) (H : list nat) (R : repr c G H).

(** Nodes at or below a path. *)
Definition below (ln : path) : list nat :=
  (filter (fun p : nat * path => ln `prefix_of` p.2) (map_to_list G)).*1.

Lemma gsum_to_list (f : nat → path → Z) (K : gmap nat path) :
  gsum f K = zsum ((fun p => f p.1 p.2) <$> map_to_list K).
Proof.
  induction K as [|n l K Hn IH] using map_ind; [by rewrite gsum_empty, map_to_list_empty|].
  rewrite gsum_insert, IH by done.
  rewrite (zsum_perm ((fun p => f p.1 p.2) <$> map_to_list (<[n := l]> K)) ((fun p => f p.1 p.2) <$> (n, l) :: map_to_list K)); [done|].
  apply fmap_Permutation. by apply map_to_list_insert.
Qed.

Lemma count_below x ln : count x (below ln) = tsum G (fun m => if decide (m = x) then 1 else 0) ln.
Proof.
  unfold tsum, below. rewrite gsum_to_list. induction (map_to_list G) as [|[m lm] l IH]; [done|].
  rewrite filter_cons, fmap_cons, zsum_cons, <-IH. simpl.
  case_decide; [|done]. simpl. by rewrite count_cons.
Qed.

Lemma below_children n ln :
  G !! n = Some ln → below ln ≡ₚ n :: ((children (node_at c n)).*2 ≫= (fun ch => below (path_of G ch))).
Proof.
  intros Hn. apply count_perm. intros x.
  rewrite count_below, (tsum_children c G H R _ n ln Hn), count_cons, count_bind. f_equal.
  unfold lsum. f_equal. apply list_fmap_ext. intros i ch _. symmetry. apply count_below.
Qed.

Lemma below_root : below [] = (map_to_list G).*1.
Proof. unfold below. rewrite filter_all; [done|]. intros. apply prefix_nil. Qed.

Lemma child_path_of ch n ln :
  G !! n = Some ln → ch ∈ (children (node_at c n)).*2 → G !! ch = Some (path_of G ch).
Proof.
  intros Hn Hc. destruct (child_in c G H R n ln ch Hn Hc) as (_ & lc & _ & E & _).
  unfold path_of. by rewrite E.
Qed.

(** Subtrees of different children are disjoint, and miss their parent. *)
Lemma children_disjoint n ln ch ch' m lm :
  G !! n = Some ln → ch ∈ (children (node_at c n)).*2 → ch' ∈ (children (node_at c n)).*2 →
  G !! m = Some lm → path_of G ch `prefix_of` lm → path_of G ch' `prefix_of` lm → ch = ch'.
Proof using H R.
  intros Hn Hc Hc' Hm Hp Hp'.
  destruct (child_in c G H R n ln ch Hn Hc) as (k & lc & Hk & Gc & _ & Hok).
  destruct (child_in c G H R n ln ch' Hn Hc') as (k' & lc' & Hk' & Gc' & _ & Hok').
  pose proof (path_longer _ _ _ R _ _ _ _ Hok) as [Hl _].
  pose proof (path_longer _ _ _ R _ _ _ _ Hok') as [Hl' _].
  destruct (r_children _ _ _ R _ _ _ _ Hn Hk) as (_ & _ & _ & E1).
  destruct (r_children _ _ _ R _ _ _ _ Hn Hk') as (_ & _ & _ & E2).
  rewrite (first_page _ _ _ _ _ _ Hok) in E1. rewrite (first_page _ _ _ _ _ _ Hok') in E2.
  unfold path_of in *. rewrite Gc in Hp. rewrite Gc' in Hp'. simpl in *.
  rewrite (page_of_prefix _ _ lm.*1) in E1; [|by apply prefix_fmap_fst|by rewrite length_fmap].
  rewrite (page_of_prefix _ _ lm.*1) in E2; [|by apply prefix_fmap_fst|by rewrite length_fmap].
  congruence.
Qed.

Lemma child_below n ln ch m lm :
  G !! n = Some ln → ch ∈ (children (node_at c n)).*2 → G !! m = Some lm →
  path_of G ch `prefix_of` lm → ln `prefix_of` lm ∧ m ≠ n.
Proof using H R.
  intros Hn Hc Hm Hp. destruct (child_in c G H R n ln ch Hn Hc) as (k & lc & _ & Gc & _ & Hok).
  pose proof (path_longer _ _ _ R _ _ _ _ Hok) as [Hl Hpre]. unfold path_of in Hp. rewrite Gc in Hp.
  simpl in Hp. split; [by etrans|]. intros ->. assert (lm = ln) as -> by congruence.
  apply prefix_length in Hp. pose proof (r_page _ _ _ R). lia.
Qed.

Definition wt (w : gmap nat Z) (n : nat) : Z := default 0 (w !! n).

Lemma wt_insert w n v m : wt (<[n := v]> w) m = if decide (m = n) then v else wt w m.
Proof.
  unfold wt. case_decide; subst; [by rewrite lookup_insert_eq|by rewrite lookup_insert_ne].
Qed.

(** *** The order *)

(** The last node of [r] is at or below [m]. *)
Definition at_or_below (m : nat) (r : Req.t) : Prop :=
  ∃ n l lm, Req.last_node r = Some n ∧ G !! n = Some l ∧ G !! m = Some lm ∧ lm `prefix_of` l.

(** [r] may come before [r']: [r'] is at the same node or higher, or they are
    below two children of a node, [r] below the one of larger weight. *)
Definition dfs_before (weight : nat → Z) (r r' : Req.t) : Prop :=
  (∃ n', Req.last_node r' = Some n' ∧ at_or_below n' r) ∨
  (∃ n a b, is_Some (G !! n) ∧ a ∈ (children (node_at c n)).*2 ∧ b ∈ (children (node_at c n)).*2 ∧ a ≠ b ∧
     at_or_below a r ∧ at_or_below b r' ∧ weight b ≤ weight a).

(** What a visit of the nodes [ns] appends to the queue. *)
Record visited (w : gmap nat Z) (queue : list Req.t) (ns : list nat) (s : list Req.t) : Prop := mk_visited {
  vi_perm : s ≡ₚ (ns ≫= (fun n => below (path_of G n))) ≫= reqs_at queue;
  vi_sorted : StronglySorted (dfs_before (wt w)) s;
  vi_below : ∀ r, r ∈ s → ∃ n, n ∈ ns ∧ at_or_below n r;
  vi_stable : ∀ n m lm, n ∈ ns → G !! m = Some lm → path_of G n `prefix_of` lm → reqs_at s m = reqs_at queue m;
}.

Lemma reqs_at_app l k n : reqs_at (l ++ k) n = reqs_at l n ++ reqs_at k n.
Proof. apply filter_app. Qed.

(** No request of a visit is at a node elsewhere. *)
Lemma visited_elsewhere w queue ns s m lm : visited w queue ns s → G !! m = Some lm →
  (∀ n, n ∈ ns → G !! n = Some (path_of G n) → ¬ path_of G n `prefix_of` lm) → reqs_at s m = [].
Proof.
  intros V Hm Hno. apply filter_none. intros r Hr E. destruct (vi_below _ _ _ _ V r Hr) as (n & Hn & m' & l & ln & E' & Hl & Hln & Hp).
  assert (m' = m) as -> by congruence. assert (l = lm) as -> by congruence.
  assert (path_of G n = ln) as En by (unfold path_of; by rewrite Hln). apply (Hno n Hn); by rewrite En.
Qed.

Lemma visited_nil w queue : visited w queue [] [].
Proof. split; [done|constructor| |]; by intros ? ?%elem_of_nil || intros ? ? ? ?%elem_of_nil. Qed.

(** One child and then the others. *)
Lemma visited_cons w queue p ch chs s1 s2 :
  is_Some (G !! p) → (∀ x, x ∈ ch :: chs → x ∈ (children (node_at c p)).*2) → NoDup (ch :: chs) →
  Forall (fun x => wt w x ≤ wt w ch) chs →
  visited w queue [ch] s1 → visited w queue chs s2 → visited w queue (ch :: chs) (s1 ++ s2).
Proof using H R.
  intros [lp Hp] Hin Hnd Hw V1 V2. apply NoDup_cons in Hnd as [Hch Hnd]. split.
  - rewrite (vi_perm _ _ _ _ V1), (vi_perm _ _ _ _ V2). cbn [mbind list_bind]. by rewrite app_nil_r, bind_app.
  - apply StronglySorted_app. split; [|split; [apply V1|apply V2]]. intros r r' Hr Hr'.
    destruct (vi_below _ _ _ _ V1 r Hr) as (a & ->%list_elem_of_singleton & Ha). destruct (vi_below _ _ _ _ V2 r' Hr') as (b & Hb & Hb').
    right. exists p, ch, b. split; [eauto|]. split; [apply Hin; left|]. split; [apply Hin; by right|].
    split; [by intros ->|]. split; [done|]. split; [done|]. by apply (proj1 (Forall_forall _ _) Hw).
  - intros r [Hr|Hr]%elem_of_app; [destruct (vi_below _ _ _ _ V1 r Hr) as (a & ->%list_elem_of_singleton & Ha)|destruct (vi_below _ _ _ _ V2 r Hr) as (a & Ha & Hb)].
    + exists ch. split; [left|done].
    + exists a. split; [by right|done].
  - intros n m lm Hn Hm Hpre. rewrite reqs_at_app. apply elem_of_cons in Hn as [->|Hn].
    + rewrite (vi_stable _ _ _ _ V1 ch m lm), (visited_elsewhere w queue chs s2 m lm V2 Hm), app_nil_r; try done; [|left].
      intros x Hx _ Hpx. apply Hch. replace ch with x; [done|].
      eapply (children_disjoint p lp x ch m lm); eauto; apply Hin; [by right|left].
    + rewrite (vi_stable _ _ _ _ V2 n m lm), (visited_elsewhere w queue [ch] s1 m lm V1 Hm); try done.
      intros x ->%list_elem_of_singleton _ Hpx. apply Hch. replace ch with n; [done|].
      eapply (children_disjoint p lp n ch m lm); eauto; apply Hin; [by right|left].
Qed.

(** A node strictly below another is below one of its children. *)
Lemma below_child_of n ln m lm : G !! n = Some ln → G !! m = Some lm → ln `prefix_of` lm → m ≠ n →
  ∃ ch, ch ∈ (children (node_at c n)).*2 ∧ path_of G ch `prefix_of` lm.
Proof using H R.
  intros Hn Hm Hp Hne. pose proof (subtree_split c G H R n ln m lm 1 Hn Hm) as E.
  rewrite decide_True, decide_False in E by done.
  destruct (decide (Exists (fun ch => path_of G ch `prefix_of` lm) (children (node_at c n)).*2)) as [Hex|Hno]; [by apply Exists_exists in Hex|].
  rewrite (zsum_none (fun ch => path_of G ch `prefix_of` lm)) in E; [lia|]. intros ch Hc Hpc. apply Hno, Exists_exists. eauto.
Qed.

(** All children and then the node. *)
Lemma visited_node w queue n ln chs s : G !! n = Some ln → chs ≡ₚ (children (node_at c n)).*2 →
  visited w queue chs s → visited w queue [n] (s ++ reqs_at queue n).
Proof using H R.
  intros Hn Hchs V. assert (path_of G n = ln) as En by (unfold path_of; by rewrite Hn).
  assert (∀ x, x ∈ chs → x ∈ (children (node_at c n)).*2) as Hin by (intros x; by rewrite Hchs).
  assert (∀ r, r ∈ s → at_or_below n r) as Hs.
  { intros r Hr. destruct (vi_below _ _ _ _ V r Hr) as (ch & Hch & m & l & lc & E & Hl & Hlc & Hp).
    exists m, l, ln. split_and!; try done.
    assert (path_of G ch `prefix_of` l) as Hpc by (unfold path_of; by rewrite Hlc). by apply (child_below n ln ch m l Hn (Hin _ Hch) Hl). }
  assert (∀ r, r ∈ reqs_at queue n → Req.last_node r = Some n ∧ at_or_below n r) as Hq.
  { intros r [E _]%list_elem_of_filter. split; [done|]. by exists n, ln, ln. }
  split.
  - cbn [mbind list_bind]. rewrite app_nil_r, En, (bind_perm _ _ _ (below_children n ln Hn)), bind_cons, (vi_perm _ _ _ _ V).
    rewrite (bind_perm (reqs_at queue) _ _ (bind_perm (fun ch => below (path_of G ch)) _ _ Hchs)). apply Permutation_app_comm.
  - apply StronglySorted_app. split; [|split; [apply V|]].
    + intros r r' Hr Hr'. left. exists n. split; [by apply Hq|by apply Hs].
    + assert (∀ l, (∀ r, r ∈ l → Req.last_node r = Some n ∧ at_or_below n r) → StronglySorted (dfs_before (wt w)) l) as Hl; [|by apply Hl].
      induction l as [|r l IH]; intros Hl; constructor; [apply IH; intros; apply Hl; by right|].
      apply Forall_forall. intros r' Hr'. left. exists n. split; apply Hl; [by right|left].
  - intros r [Hr|Hr]%elem_of_app; exists n; (split; [left|]); [by apply Hs|by apply Hq].
  - intros x m lm ->%list_elem_of_singleton Hm Hp. rewrite reqs_at_app. rewrite En in Hp.
    destruct (decide (m = n)) as [->|Hne].
    + rewrite (visited_elsewhere w queue chs s n ln V Hn).
      * unfold reqs_at. rewrite list_filter_filter. apply list_filter_iff. naive_solver.
      * intros ch Hch _ Hpc. by destruct (child_below n ln ch n ln Hn (Hin _ Hch) Hn Hpc).
    + assert (reqs_at (reqs_at queue n) m = []) as ->.
      { apply filter_none. intros r [E _]%list_elem_of_filter E'. congruence. }
      rewrite app_nil_r. destruct (decide (Exists (fun ch => path_of G ch `prefix_of` lm) chs)) as [(ch & Hch & Hpc)%Exists_exists|Hno].
      * by eapply (vi_stable _ _ _ _ V).
      * destruct (reqs_at queue m) as [|r l] eqn:Eq; [|exfalso].
        { apply (visited_elsewhere w queue chs s m lm V Hm). intros ch Hch _ Hpc. apply Hno, Exists_exists. eauto. }
        destruct (below_child_of n ln m lm Hn Hm Hp Hne) as (ch & Hch & Hpc). apply Hno, Exists_exists. exists ch. split; [by rewrite Hchs|done].
Qed.

Lemma dfs_priority_ok w queue fuel n ln q :
  G !! n = Some ln → tsum G (fun _ => 1) ln ≤ Z.of_nat fuel →
  ∃ s, _get_dfs_priority fuel c n w (reqs_at queue) q = Ok (q ++ s) ∧ visited w queue [n] s.
Proof using H R.
  revert n ln q. induction fuel as [|fuel IH]; intros n ln q Hn Hf.
  { exfalso. rewrite (tsum_children c G H R _ n ln Hn) in Hf.
    pose proof (lsum_nonneg G (fun _ => 1) (children (node_at c n)).*2 ltac:(lia)). lia. }
  rewrite (tsum_children c G H R _ n ln Hn) in Hf. cbn [_get_dfs_priority].
  set (childs := py_sort _ _).
  assert (childs ≡ₚ (children (node_at c n)).*2) as Hp by apply py_sort_perm.
  assert (StronglySorted (fun x y => wt w y ≤ wt w x) childs) as Hsort.
  { eapply sorted_impl; [|apply py_sort_sorted]; unfold wt.
    - intros x y. rewrite Z.leb_le. lia.
    - intros x y. rewrite !Z.leb_le. lia.
    - intros x y z. rewrite !Z.leb_le. lia. }
  assert (∀ chs q, (∀ ch, ch ∈ chs → ch ∈ (children (node_at c n)).*2) → NoDup chs → StronglySorted (fun x y => wt w y ≤ wt w x) chs →
    lsum G (fun _ => 1) chs ≤ Z.of_nat fuel →
    ∃ s, foldl (fun acc child => q ← acc; _get_dfs_priority fuel c child w (reqs_at queue) q) (mret q) chs = Ok (q ++ s) ∧
      visited w queue chs s) as Hfold.
  { induction chs as [|ch chs IHc]; intros q' Hin Hnd Hs Hl.
    { exists []. rewrite app_nil_r. split; [done|apply visited_nil]. }
    rewrite lsum_cons in Hl. pose proof (tsum_nonneg G (fun _ => 1) (path_of G ch) ltac:(lia)).
    pose proof (lsum_nonneg G (fun _ => 1) chs ltac:(lia)).
    destruct (IH ch (path_of G ch) q') as (s1 & E1 & V1); [by eapply child_path_of; [|apply Hin; left]|lia|].
    cbn [foldl]. cbn [mbind pyres_bind mret pyres_ret]. rewrite E1.
    apply StronglySorted_inv in Hs as [Hs Hw]. pose proof Hnd as [_ Hnd']%NoDup_cons.
    destruct (IHc (q' ++ s1)) as (s2 & E2 & V2); [intros; apply Hin; by right|done|done|lia|].
    exists (s1 ++ s2). rewrite app_assoc. split; [done|]. by eapply (visited_cons w queue n); eauto. }
  destruct (Hfold childs q) as (s & E & V); [intros ch; by rewrite Hp|rewrite Hp; by eapply children_nodup|done| |].
  { assert (lsum G (fun _ => 1) childs = lsum G (fun _ => 1) (children (node_at c n)).*2) as ->; [|lia].
    unfold lsum. apply zsum_perm. by rewrite Hp. }
  rewrite E. cbn [mbind pyres_bind mret pyres_ret]. exists (s ++ reqs_at queue n). rewrite app_assoc. split; [done|].
  by eapply visited_node.
Qed.

(** *** Weights *)

Lemma tsum_ext f g ln :
  (∀ m lm, G !! m = Some lm → ln `prefix_of` lm → f m = g m) → tsum G f ln = tsum G g ln.
Proof. intros E. apply gsum_ext. intros m lm Hm. case_decide; [by eapply E|done]. Qed.

(** Effect of the walk over a set [P] of whole subtrees. *)
Definition weighted (P : nat → path → Prop) (w w' : gmap nat Z) : Prop :=
  ∀ m lm, G !! m = Some lm →
    (P m lm → wt w' m = tsum G (wt w) lm) ∧ (¬ P m lm → wt w' m = wt w m).

Lemma calc_weight_ok fuel n ln w :
  G !! n = Some ln → tsum G (fun _ => 1) ln ≤ Z.of_nat fuel →
  ∃ w', _calc_weight fuel c n w = Ok w' ∧ weighted (fun _ lm => ln `prefix_of` lm) w w'.
Proof using H R.
  revert n ln w. induction fuel as [|fuel IH]; intros n ln w Hn Hf.
  { exfalso. rewrite (tsum_children c G H R _ n ln Hn) in Hf.
    pose proof (lsum_nonneg G (fun _ => 1) (children (node_at c n)).*2 ltac:(lia)). lia. }
  rewrite (tsum_children c G H R _ n ln Hn) in Hf. cbn [_calc_weight].
  assert (∀ done todo w1, (children (node_at c n)).*2 = done ++ todo →
    lsum G (fun _ => 1) todo ≤ Z.of_nat fuel →
    (∀ m lm, G !! m = Some lm → m ≠ n →
      ((∃ ch, ch ∈ done ∧ path_of G ch `prefix_of` lm) → wt w1 m = tsum G (wt w) lm) ∧
      ((∀ ch, ch ∈ done → ¬ path_of G ch `prefix_of` lm) → wt w1 m = wt w m)) →
    wt w1 n = wt w n + lsum G (wt w) done →
    ∃ w', foldl (fun acc child => w ← acc; w ← _calc_weight fuel c child w;
        mret (<[n := default 0 (w !! n) + default 0 (w !! child)]> w)) (mret w1) todo = Ok w' ∧
      (∀ m lm, G !! m = Some lm → m ≠ n →
        ((∃ ch, ch ∈ done ++ todo ∧ path_of G ch `prefix_of` lm) → wt w' m = tsum G (wt w) lm) ∧
        ((∀ ch, ch ∈ done ++ todo → ¬ path_of G ch `prefix_of` lm) → wt w' m = wt w m)) ∧
      wt w' n = wt w n + lsum G (wt w) (done ++ todo)) as Hfold.
  { intros done todo. revert done. induction todo as [|ch todo IHt]; intros done w1 Ech Hf1 Hinv Hnw.
    { exists w1. rewrite app_nil_r. done. }
    rewrite lsum_cons in Hf1.
    pose proof (tsum_nonneg G (fun _ => 1) (path_of G ch) ltac:(lia)).
    pose proof (lsum_nonneg G (fun _ => 1) todo ltac:(lia)).
    assert (ch ∈ (children (node_at c n)).*2) as Hch by (rewrite Ech; set_solver).
    pose proof (child_path_of ch n ln Hn Hch) as Gch.
    pose proof (children_nodup c G H R n ln Hn) as Hnd. rewrite Ech in Hnd.
    assert (∀ x, x ∈ done → x ∈ (children (node_at c n)).*2) as Hdone by (rewrite Ech; set_solver).
    assert (∀ m lm, G !! m = Some lm → path_of G ch `prefix_of` lm → wt w1 m = wt w m) as Hfresh.
    { intros m lm Hm Hp. destruct (child_below n ln ch m lm Hn Hch Hm Hp) as [_ Hmn].
      apply (Hinv m lm Hm Hmn). intros x Hx Hpx.
      pose proof (children_disjoint n ln ch x m lm Hn Hch (Hdone x Hx) Hm Hp Hpx) as <-.
      apply NoDup_app in Hnd as (_ & Hd & _). apply (Hd ch Hx). left. }
    destruct (IH ch (path_of G ch) w1 Gch ltac:(lia)) as (w2 & E2 & W2).
    assert (∀ m lm, G !! m = Some lm → path_of G ch `prefix_of` lm → wt w2 m = tsum G (wt w) lm) as Hin.
    { intros m lm Hm Hp. rewrite (proj1 (W2 m lm Hm) Hp). apply tsum_ext. intros m' lm' Hm' Hp'.
      apply (Hfresh m' lm' Hm'). by etrans. }
    assert (wt w2 n = wt w1 n) as Hn2.
    { apply (proj2 (W2 n ln Hn)). intros Hp. by destruct (child_below n ln ch n ln Hn Hch Hn Hp). }
    cbn [foldl mbind pyres_bind mret pyres_ret]. rewrite E2. cbn [mbind pyres_bind mret pyres_ret].
    fold (wt w2 n). fold (wt w2 ch).
    destruct (IHt (done ++ [ch]) (<[n := wt w2 n + wt w2 ch]> w2)) as (w3 & E3 & I3 & N3).
    - by rewrite <-app_assoc.
    - lia.
    - intros m lm Hm Hmn. rewrite wt_insert, decide_False by done. split.
      + intros (x & [Hx| ->%list_elem_of_singleton]%elem_of_app & Hp); [|by apply Hin].
        destruct (decide (path_of G ch `prefix_of` lm)) as [|Hnp]; [by apply Hin|].
        rewrite (proj2 (W2 m lm Hm) Hnp). apply (Hinv m lm Hm Hmn). eauto.
      + intros Hno. rewrite (proj2 (W2 m lm Hm)); [|apply Hno; set_solver].
        apply (Hinv m lm Hm Hmn). intros x Hx. apply Hno. set_solver.
    - rewrite wt_insert, decide_True by done. rewrite Hn2, Hnw, (Hin ch _ Gch) by done.
      rewrite lsum_app. unfold lsum at 3. simpl. rewrite zsum_cons. change (zsum []) with 0. lia.
    - exists w3. rewrite <-app_assoc in I3, N3. done. }
  destruct (Hfold [] (children (node_at c n)).*2 w eq_refl ltac:(lia)) as (w' & E & I & N).
  { intros m lm _ _. split; [intros (ch & Hc & _); by apply elem_of_nil in Hc|done]. }
  { change (lsum G (wt w) []) with 0. lia. }
  exists w'. split; [exact E|]. simpl in I, N. intros m lm Hm.
  destruct (decide (m = n)) as [->|Hmn].
  - assert (lm = ln) as -> by congruence. split; [|by intros []].
    intros _. by rewrite N, (tsum_children c G H R _ n ln Hn).
  - split.
    + intros Hp. apply (I m lm Hm Hmn). 
      assert (m ∈ below ln) as Hb.
      { unfold below. apply list_elem_of_fmap. exists (m, lm). split; [done|].
        apply list_elem_of_filter. split; [done|]. by apply elem_of_map_to_list. }
      rewrite (below_children n ln Hn) in Hb. apply elem_of_cons in Hb as [|Hb]; [done|].
      apply list_elem_of_bind in Hb as (ch & Hb & Hch). exists ch. split; [done|].
      unfold below in Hb. apply list_elem_of_fmap in Hb as ([m' lm'] & -> & Hb).
      apply list_elem_of_filter in Hb as [Hb1 Hb2]. apply elem_of_map_to_list in Hb2.
      simpl in *. congruence.
    + intros Hnp. apply (I m lm Hm Hmn). intros ch Hch Hp.
      by destruct (child_below n ln ch m lm Hn Hch Hm Hp).
Qed.

End dfs.

Lemma init_weights_ok queue n : wt (init_weights queue) n = len (reqs_at queue n).
Proof.
  unfold init_weights.
  assert (∀ (P Q : Prop) `{Decision P, Decision Q} (x y : Z), (P ↔ Q) →
    (if decide P then x else y) = (if decide Q then x else y)) as Hdec.
  { intros P Q ? ? x y E. repeat case_decide; tauto. }
  assert (∀ l, wt (foldr (fun r w => match Req.last_node r with
    | Some n => <[n := len (reqs_at queue n)]> w | None => w end) ∅ l) n =
    if decide (Exists (fun r => Req.last_node r = Some n) l) then len (reqs_at queue n) else 0) as Hl.
  { induction l as [|r l IH]; cbn [foldr].
    - rewrite decide_False by (intros E; inversion E). unfold wt. by rewrite lookup_empty.
    - destruct (Req.last_node r) as [n'|] eqn:Er.
      + rewrite wt_insert. destruct (decide (n = n')) as [->|Hne].
        * rewrite decide_True; [done|]. by left.
        * rewrite IH. apply Hdec. rewrite Exists_cons, Er. naive_solver.
      + rewrite IH. apply Hdec. rewrite Exists_cons, Er. naive_solver. }
  rewrite Hl. case_decide as D; [done|]. unfold reqs_at. rewrite filter_none; [done|].
  intros r Hr E. apply D. apply Exists_exists. eauto.
Qed.

(** The waiting requests at or below a node. *)
Definition waiting_below (G : gmap nat path) (queue : list Req.t) (m : nat) : Z :=
  tsum G (fun n => len (reqs_at queue n)) (path_of G m).

(** Depth-first order: the requests of a node in their order, below those of
    the subtrees, heavier subtrees first. *)
Definition dfs_ordered (c : RadixCache) (G : gmap nat path) (queue queue' : list Req.t) : Prop :=
  queue' ≡ₚ queue ∧ StronglySorted (dfs_before c G (waiting_below G queue)) queue' ∧
  ∀ n, is_Some (G !! n) → reqs_at queue' n = reqs_at queue n.

Lemma dfs_sort_ok c G H queue :
  repr c G H → Forall (fun r => ∃ n, Req.last_node r = Some n ∧ is_Some (G !! n)) queue →
  ∃ queue', _sort_by_dfs_weight queue c = Ok queue' ∧ dfs_ordered c G queue queue'.
Proof.
  intros R Hq. unfold _sort_by_dfs_weight.
  pose proof (traverse_fuel c G H R) as Hf. rewrite (root_sum c G H R), <-(tsum_all G) in Hf.
  pose proof (r_root _ _ _ R) as Hr.
  destruct (calc_weight_ok c G H R _ _ _ (init_weights queue) Hr Hf) as (w & -> & W).
  cbn [mbind pyres_bind].
  destruct (dfs_priority_ok c G H R w queue _ _ _ [] Hr Hf) as (q & -> & V).
  exists q. split; [done|]. assert (path_of G (root_node c) = []) as Er by (unfold path_of; by rewrite Hr).
  assert (∀ n, is_Some (G !! n) → wt w n = waiting_below G queue n) as Hw.
  { intros n [l Hl]. rewrite (proj1 (W n l Hl)) by apply prefix_nil. unfold waiting_below, path_of. rewrite Hl.
    apply tsum_ext. intros. apply init_weights_ok. }
  split; [|split].
  - rewrite (vi_perm _ _ _ _ _ _ V). cbn [mbind list_bind]. rewrite app_nil_r, Er, below_root. apply reqs_at_partition.
    + apply NoDup_fst_map_to_list.
    + eapply Forall_impl; [done|]. intros r (n & Hn & [l Hl]). exists n. split; [done|].
      apply list_elem_of_fmap. exists (n, l). split; [done|]. by apply elem_of_map_to_list.
  - eapply sorted_impl; [|apply V]. intros r r' [Hb|(n & x & y & Hn & Hx & Hy & Hne & Hr' & Hr'' & Hle)]; [by left|right].
    exists n, x, y. split_and!; try done. destruct Hr' as (? & ? & ? & _ & _ & Ex & _), Hr'' as (? & ? & ? & _ & _ & Ey & _).
    rewrite <-!Hw by eauto. done.
  - intros n [l Hl]. eapply (vi_stable _ _ _ _ _ _ V); [left|done|]. rewrite Er. apply prefix_nil.
Qed.

Lemma lof_total (k : Req.t → Z) x y : (- k x <=? - k y) = true ∨ (- k y <=? - k x) = true.
Proof. rewrite !Z.leb_le. lia. Qed.

Lemma prefix_valid_node ps G0 G r : prefix_valid ps G0 G r → ∃ n, Req.last_node r = Some n ∧ is_Some (G !! n).
Proof. intros (n & lw & ids & r0 & Hn & Hg & _). exists n. split; [done|]. by exists lw. Qed.

(** *** Stable sorting *)

(** [l'] is [l] sorted by [le]; elements that are equal for it keep their
    order. *)
Definition stable_sorted (le : Req.t → Req.t → bool) (l l' : list Req.t) : Prop :=
  l' ≡ₚ l ∧ StronglySorted (fun a b => le a b = true) l' ∧
  ∀ a, filter (fun z => equivb le a z = true) l' = filter (fun z => equivb le a z = true) l.

Lemma py_sort_stable_sorted le le' l :
  (∀ x y, le x y = true ∨ le y x = true) → (∀ x y z, le x y = true → le y z = true → le x z = true) →
  (∀ x y, le x y = le' x y) → stable_sorted le' l (py_sort le l).
Proof.
  intros Ht Htr E. split; [apply py_sort_perm|]. split.
  - eapply sorted_impl; [|by apply py_sort_sorted]. intros a b Hab. by rewrite <-E.
  - intros a. assert (∀ k : list Req.t, filter (fun z => equivb le' a z = true) k = filter (fun z => equivb le a z = true) k) as Hf.
    { intros k. apply list_filter_iff. intros z. unfold equivb. by rewrite !E. }
    rewrite !Hf. by apply py_sort_stable.
Qed.

(** Longest cached prefix first, the deprioritised requests last. *)
Definition lpm_order (dep : list string) (a b : Req.t) : bool :=
  bool_decide (Req.rid b ∈ dep ∨ (Req.rid a ∉ dep ∧ len (Req.prefix_indices b) ≤ len (Req.prefix_indices a))).

Lemma lpm_le_order dep a b : lpm_le dep a b = lpm_order dep a b.
Proof.
  unfold lpm_le, lpm_order. destruct (bool_decide_reflect (Req.rid b ∈ dep)) as [Hb|Hb]; [by rewrite bool_decide_eq_true_2 by (by left)|].
  destruct (bool_decide_reflect (Req.rid a ∈ dep)) as [Ha|Ha]; [by rewrite bool_decide_eq_false_2 by tauto|].
  apply eq_true_iff_eq. rewrite Z.leb_le, bool_decide_eq_true. intuition lia.
Qed.

(** Most new tokens first. *)
Definition lof_order (a b : Req.t) : bool :=
  default 0 (SamplingParams.max_new_tokens (Req.sampling_params b)) <=? default 0 (SamplingParams.max_new_tokens (Req.sampling_params a)).

(** *** The order of each policy

    [q1] are the requests with their prefixes, in the order of the queue. *)
Definition policy_order (shuffle : list Req.t → list Req.t) (policy : Policy) (queue q1 : list Req.t) (tree : RadixCache) (G : gmap nat path)
    (b : bool) (queue' : list Req.t) : Prop :=
  match policy with
  | inr FCFS => b = false ∧ queue' = queue
  | inr LOF => b = false ∧ stable_sorted lof_order queue queue'
  | inr RANDOM => b = false ∧ queue' = shuffle queue
  | inl LPM =>
      if 128 <? len queue then b = false ∧ queue' = queue
      else b = true ∧ stable_sorted (lpm_order (deprioritized (zip queue q1) [] [])) q1 queue'
  | inl DFS_WEIGHT => b = true ∧ dfs_ordered tree G q1 queue'
  end.

Lemma calc_priority_ok hash clock garbage shuffle policy queue tree G H wq :
  (∀ n, length (garbage n) = n) → (∀ l, shuffle l ≡ₚ l) →
  Forall (fun r => is_Some (SamplingParams.max_new_tokens (Req.sampling_params r))) queue →
  repr tree G H → disable tree = false →
  wq_ready wq →
  ∃ b queue' q1 tree' wq' G',
    calc_priority hash clock garbage shuffle policy queue tree wq = Ok (b, queue', tree', wq') ∧ wq_ready wq' ∧
    repr tree' G' H ∧ refined tree G tree' G' ∧ Forall2 same_request queue q1 ∧ queue' ≡ₚ q1 ∧
    (b = true → Forall (prefix_valid (page_size tree) G G') queue') ∧
    policy_order shuffle policy queue q1 tree' G' b queue'.
Proof.
  intros Hg Hsh Hq R Hd Hwq. pose proof Hwq as (Ep & Hdw & Hfr).
  assert (Forall2 same_request queue queue) as Hrefl by (apply Forall_Forall2_diag, Forall_forall; done).
  assert (∀ q', q' ≡ₚ queue → policy_order shuffle policy queue queue tree G false q' → ∃ b queue' q1 tree' wq' G',
    Ok (false, q', tree, wq) = Ok (b, queue', tree', wq') ∧ wq_ready wq' ∧
    repr tree' G' H ∧ refined tree G tree' G' ∧ Forall2 same_request queue q1 ∧ queue' ≡ₚ q1 ∧
    (b = true → Forall (prefix_valid (page_size tree) G G') queue') ∧ policy_order shuffle policy queue q1 tree' G' b queue') as Hplain.
  { intros q' Hp Ho. exists false, q', queue, tree, wq, G. split_and!; try done. }
  assert (∃ q1 t1 G1 w1, _compute_prefix_matches hash clock garbage queue tree wq = Ok (q1, t1, w1, deprioritized (zip queue q1) [] []) ∧
    wq_ready w1 ∧ repr t1 G1 H ∧ refined tree G t1 G1 ∧ Forall2 same_request queue q1 ∧ Forall (prefix_valid (page_size tree) G G1) q1)
    as (q1 & t1 & G1 & w1 & E1 & Hw1 & R1 & F1 & S1 & V1).
  { destruct (reset_repr clock wq) as (Rw & Epw & Hdw' & _); [lia|done|].
    destruct (prefix_match_loop_ok hash clock garbage Hg H queue tree G (reset clock wq) _ [] []
      Hq R Hd Rw) as (q1 & t1 & G1 & w1 & d1 & E1 & Hw1 & R1 & F1 & S1 & V1 & ->); [congruence|congruence|apply seen_root|].
    by exists q1, t1, G1, w1. }
  unfold calc_priority. destruct policy as [[]|[]]; cbn [_determine_active_policy].
  - unfold policy_order in *. destruct (128 <? len queue) eqn:Elen; [by apply Hplain|]. rewrite E1. cbn [mbind pyres_bind mret pyres_ret].
    set (d := deprioritized (zip queue q1) [] []) in *. exists true, (_sort_by_longest_prefix q1 d), q1, t1, w1, G1. split_and!; try done.
    + apply py_sort_perm.
    + intros _. unfold _sort_by_longest_prefix. by rewrite py_sort_perm.
    + apply py_sort_stable_sorted; [apply lpm_total|apply lpm_trans|apply lpm_le_order].
  - rewrite E1. cbn [mbind pyres_bind]. destruct (dfs_sort_ok t1 G1 H q1 R1) as (q2 & E2 & O2).
    { eapply Forall_impl; [exact V1|]. intros r. apply prefix_valid_node. }
    rewrite E2. pose proof O2 as [P2 _]. exists true, q2, q1, t1, w1, G1. split_and!; try done. intros _. by rewrite P2.
  - by apply Hplain.
  - unfold _sort_by_longest_output.
    assert (forallb (fun r => bool_decide (is_Some (SamplingParams.max_new_tokens (Req.sampling_params r)))) queue
      = true) as ->.
    { apply forallb_forall. intros r Hr. apply bool_decide_true.
      apply (proj1 (Forall_forall _ _) Hq). by apply list_elem_of_In. }
    cbn [mbind pyres_bind mret pyres_ret]. apply Hplain; [apply py_sort_perm|]. split; [done|].
    apply py_sort_stable_sorted; [intros; rewrite !Z.leb_le; lia|intros *; rewrite !Z.leb_le; lia|].
    intros x y. apply eq_true_iff_eq. unfold lof_order. rewrite !Z.leb_le. lia.
  - by apply Hplain.
Qed.


(** longest-prefix order: the queue is sorted by decreasing cached
    prefix with the deprioritised requests last, and requests with the same
    key keep their arrival order. *)
Theorem policy_longest_prefix_sorted queue dep :
  _sort_by_longest_prefix queue dep ≡ₚ queue ∧
  StronglySorted (fun a b =>
      Req.rid b ∈ dep ∨ (Req.rid a ∉ dep ∧ len (Req.prefix_indices b) ≤ len (Req.prefix_indices a)))
    (_sort_by_longest_prefix queue dep) ∧
  ∀ a, filter (fun z => equivb (lpm_le dep) a z = true) (_sort_by_longest_prefix queue dep) =
       filter (fun z => equivb (lpm_le dep) a z = true) queue.
Proof.
  unfold _sort_by_longest_prefix. split_and!.
  - apply py_sort_perm.
  - eapply sorted_impl; [|apply py_sort_sorted; [apply lpm_total|apply lpm_trans]].
    intros a b. unfold lpm_le. repeat case_bool_decide; auto; try done.
    rewrite Z.leb_le. intros. right. split; [done|lia].
  - intros a. apply py_sort_stable; [apply lpm_total|apply lpm_trans].
Qed.

(** the depth-first policy weighs every node with the number of
    waiting requests at or below it ([_calc_weight] terminates), and visiting
    the tree in that order returns each request exactly once. *)
Theorem policy_dfs_weight_correct c G H queue :
  repr c G H → Forall (fun r => ∃ n, Req.last_node r = Some n ∧ is_Some (G !! n)) queue →
  ∃ w queue',
    _calc_weight (size (nodes c)) c (root_node c) (init_weights queue) = Ok w ∧
    (∀ m lm, G !! m = Some lm →
      default 0 (w !! m) = tsum G (fun n => len (reqs_at queue n)) lm) ∧
    _sort_by_dfs_weight queue c = Ok queue' ∧ queue' ≡ₚ queue.
Proof.
  intros R Hq. destruct (dfs_sort_ok c G H queue R Hq) as (queue' & E & P & _).
  pose proof (traverse_fuel c G H R) as Hf. rewrite (root_sum c G H R), <-(tsum_all G) in Hf.
  destruct (calc_weight_ok c G H R _ _ _ (init_weights queue) (r_root _ _ _ R) Hf) as (w & Ew & W).
  exists w, queue'. split_and!; try done. intros m lm Hm. fold (wt w m).
  rewrite (proj1 (W m lm Hm)) by apply prefix_nil. apply tsum_ext. intros. apply init_weights_ok.
Qed.

(** Three requests against the demo cache. *)
Definition demo_queue : list Req.t :=
  [Req.set_origin_input_ids [1; 2; 9; 9; 9] (Req.set_return_logprob false (Req.demo_req []));
   Req.set_origin_input_ids [1; 2; 3; 4; 5] (Req.set_return_logprob false (Req.demo_req []));
   Req.set_origin_input_ids [7; 8] (Req.set_return_logprob false (Req.demo_req []))].

Definition demo_wq : RadixCache := init_RadixCache Z.of_nat 1 false false.

Lemma demo_wq_fresh n : is_Some (nodes demo_wq !! n) → (n < counter demo_wq)%nat.
Proof. exact (r_fresh _ _ _ (init_repr Z.of_nat 1 false ltac:(lia)) n). Qed.


Lemma policy_dfs_weight_correct_witness :
  ∃ w queue',
    _calc_weight (size (nodes demo_cache)) demo_cache 0 (init_weights
      [Req.set_last_node (Some 1%nat) (Req.demo_req []); Req.set_last_node (Some 3%nat) (Req.demo_req [])]) = Ok w ∧
    _sort_by_dfs_weight
      [Req.set_last_node (Some 1%nat) (Req.demo_req []); Req.set_last_node (Some 3%nat) (Req.demo_req [])]
      demo_cache = Ok queue' ∧ w !! 0%nat = Some 2.
Proof.
  destruct demo_repr as [G R].
  assert (∀ n k m, is_Some (G !! n) → od_get k (children (node_at demo_cache n)) = Some m → is_Some (G !! m)) as Hc.
  { intros n k m [l Hl] Hm. exact (proj1 (r_children _ _ _ R n l k m Hl Hm)). }
  assert (is_Some (G !! 0%nat)) as H0.
  { exists []. exact (r_root _ _ _ R). }
  assert (is_Some (G !! 2%nat)) as H2 by (apply (Hc 0%nat [1; 2]); [exact H0|vm_compute; reflexivity]).
  assert (is_Some (G !! 1%nat)) as H1 by (apply (Hc 2%nat [3; 4]); [exact H2|vm_compute; reflexivity]).
  assert (is_Some (G !! 3%nat)) as H3 by (apply (Hc 2%nat [5; 6]); [exact H2|vm_compute; reflexivity]).
  destruct (policy_dfs_weight_correct demo_cache G []
    [Req.set_last_node (Some 1%nat) (Req.demo_req []); Req.set_last_node (Some 3%nat) (Req.demo_req [])] R)
    as (w & queue' & Ew & _ & Eq & _).
  - constructor; [exists 1%nat; split; [reflexivity|exact H1]|].
    constructor; [exists 3%nat; split; [reflexivity|exact H3]|constructor].
  - exists w, queue'. split; [exact Ew|]. split; [exact Eq|]. vm_compute in Ew. injection Ew as <-. reflexivity.
Defined.
