(* ===== verification/PrefixCache.v ===== *)
(** * The prefix-cache interface ([python/sglang/srt/mem_cache/base_prefix_cache.py])

    [PrefixCache] has the methods of [BasePrefixCache] that the prefill
    admission code calls; [PrefixCacheLaws] states what it relies on.  A view
    fixes the content of the cache, so that the evictable size is a function
    of the view and of the set of locked nodes.  The radix cache and the
    chunk cache implement the interface. *)

From S2P Require Import Prelude Allocator SWAAllocator PagedAllocator PagedProofs ReqPool Request.
From S2P Require Import KVAllocator RadixCache RadixInv RadixOwn RadixSplit RadixMatch RadixInsert RadixLocks ChunkCache.

(** A node is [None] when the cache has no nodes.  [inc_lock_ref] returns the
    value a hybrid caller hands back to [dec_lock_ref]. *)
Class PrefixCache (C : Type) := {
  pc_disable : C → bool;
  pc_evictable_size : C → Z;
  pc_full_evictable_size : C → Z;
  pc_swa_evictable_size : C → Z;
  pc_inc_lock_ref : option nat → C → pyres (option Z * C);
  pc_dec_lock_ref : option nat → C → pyres C;
  pc_dec_lock_ref_uuid : option nat → option Z → C → pyres C;
  pc_init_load_back : option nat → Z → C → pyres (list Z * option nat * C);
}.

(** [pc_ok c v H]: the cache [c] has the content [v] and the locks [H]. *)
Class PrefixCacheLaws (ps : nat) (C : Type) `{PrefixCache C} := {
  pc_view : Type;
  pc_ok : C → pc_view → list (option nat) → Prop;
  pc_node : pc_view → option nat → Prop;
  pc_size_aligned : ∀ c v H, pc_ok c v H →
    (Z.of_nat ps | pc_evictable_size c) ∧ 0 ≤ pc_evictable_size c;
  pc_size_locks : ∀ c c' v H H', pc_ok c v H → pc_ok c' v H' →
    (∀ n, n ∈ H → n ∈ H') → pc_evictable_size c' ≤ pc_evictable_size c;
  pc_inc_ok : ∀ c v H n, pc_ok c v H → pc_node v n →
    ∃ u c', pc_inc_lock_ref n c = Ok (u, c') ∧ pc_ok c' v (n :: H) ∧ pc_disable c' = pc_disable c;
  pc_dec_ok : ∀ c v H n, pc_ok c v (n :: H) → pc_node v n →
    ∃ c', pc_dec_lock_ref n c = Ok c' ∧ pc_ok c' v H ∧ pc_disable c' = pc_disable c;
}.

(** Equal sets of locks, equal sizes. *)
Lemma pc_size_same {ps C} `{PrefixCacheLaws ps C} c c' v L L' :
  pc_ok c v L → pc_ok c' v L' → (∀ n, n ∈ L ↔ n ∈ L') →
  pc_evictable_size c' = pc_evictable_size c.
Proof.
  intros O O' E. apply Z.le_antisymm; [eapply (pc_size_locks c c' v L L')|eapply (pc_size_locks c' c v L' L)];
    eauto; naive_solver.
Qed.

(** ** The chunk cache *)

#[export] Instance chunk_prefix_cache : PrefixCache unit := {|
  pc_disable _ := true;
  pc_evictable_size _ := 0;
  pc_full_evictable_size _ := 0;
  pc_swa_evictable_size _ := 0;
  pc_inc_lock_ref n c := Ok (Some (ChunkCache.inc_lock_ref n), c);
  pc_dec_lock_ref n c := Ok c;
  pc_dec_lock_ref_uuid n _ c := Ok c;
  pc_init_load_back _ _ _ := Raise NotImplementedError;
|}.

#[export] Program Instance chunk_prefix_laws (ps : nat) : PrefixCacheLaws ps unit := {|
  pc_view := unit;
  pc_ok _ _ _ := True;
  pc_node _ _ := True;
|}.
Next Obligation. intros ps c v H _. split; [exists 0; done|done]. Qed.
Next Obligation. done. Qed.
Next Obligation. intros. by eexists _, _. Qed.
Next Obligation. intros. by eexists. Qed.

(** ** The radix cache *)

Definition radix_node (n : option nat) : pyres nat :=
  match n with Some n => Ok n | None => Raise AttributeError end.

(** [RadixCache.dec_lock_ref] takes no [swa_uuid_for_lock]. *)
#[export] Instance radix_prefix_cache : PrefixCache RadixCache := {|
  pc_disable := disable;
  pc_evictable_size := evictable_size;
  pc_full_evictable_size _ := 0;
  pc_swa_evictable_size _ := 0;
  pc_inc_lock_ref n c :=
    if disable c then Ok (Some 0, c) else
    n ← radix_node n; '(d, c) ← inc_lock_ref n c; mret (Some d, c);
  pc_dec_lock_ref n c :=
    if disable c then Ok c else
    n ← radix_node n; '(_, c) ← dec_lock_ref n c; mret c;
  pc_dec_lock_ref_uuid _ _ _ := Raise TypeError;
  pc_init_load_back _ _ _ := Raise NotImplementedError;
|}.

Lemma holders_subset G H H' l :
  (∀ n, n ∈ H → n ∈ H') → holders G H' l = 0 → holders G H l = 0.
Proof.
  unfold holders. rewrite !len_zero. intros Hs E. apply filter_none. intros h Hh Hp.
  assert (h ∈ filter (fun h => l `prefix_of` default [] (G !! h)) H') as Hin.
  { apply list_elem_of_filter. auto. }
  rewrite E in Hin. by apply not_elem_of_nil in Hin.
Qed.

Lemma gsum_divide {A} d (f : nat → A → Z) G :
  (∀ n l, G !! n = Some l → (d | f n l)) → (d | gsum f G).
Proof.
  induction G as [|n l G Hn IH] using map_ind; intros Hf; [rewrite gsum_empty; apply Z.divide_0_r|].
  rewrite gsum_insert by done. apply Z.divide_add_r; [apply Hf, lookup_insert_eq|].
  apply IH. intros m k Hm. apply Hf. rewrite lookup_insert_ne; [done|]. congruence.
Qed.

Lemma evictable_weight_aligned c G H n l :
  repr c G H → G !! n = Some l → (Z.of_nat (page_size c) | evictable_weight c n l).
Proof.
  intros R Hn. unfold evictable_weight. case_decide as Hr; [apply Z.divide_0_r|].
  case_decide; [|apply Z.divide_0_r]. destruct (r_node _ _ _ R n l Hn Hr) as (p & lp & K).
  unfold weight, len. pose proof (ok_aligned _ _ _ _ _ _ K) as Ha.
  apply Nat.Div0.mod_divides in Ha as [q ->]. exists (Z.of_nat q). lia.
Qed.

Lemma evictable_antitone c0 c c' G H H' :
  upto_locks c0 c → upto_locks c0 c' → repr c G H → repr c' G H' →
  (∀ n, n ∈ H → n ∈ H') → evictable_size c' ≤ evictable_size c.
Proof.
  intros U U' R R' Hs. unfold evictable_size. rewrite (r_evictable _ _ _ R), (r_evictable _ _ _ R').
  apply gsum_le. intros n l Hn. unfold evictable_weight, weight.
  rewrite (ul_root _ _ U), (ul_root _ _ U').
  destruct (ul_node _ _ U n) as (_ & _ & -> & _), (ul_node _ _ U' n) as (_ & _ & -> & _).
  case_decide as Hr; [done|].
  rewrite (r_locks _ _ _ R n l), (r_locks _ _ _ R' n l) by (done || by rewrite ?(ul_root _ _ U), ?(ul_root _ _ U')).
  repeat case_decide; len_pos; try lia. exfalso. by eauto using holders_subset.
Qed.

(** The content of a cache: the path of every node, and a cache with the same
    nodes; [None] for a disabled cache. *)
Definition radix_ok (ps : nat) (c : RadixCache) (v : option (gmap nat path * RadixCache))
    (H : list (option nat)) : Prop :=
  match v with
  | None => disable c = true ∧ evictable_size c = 0
  | Some (G, c0) =>
      ∃ H', H = Some <$> H' ∧ disable c = false ∧ page_size c = ps ∧ repr c G H' ∧ upto_locks c0 c
  end.

Definition radix_in (v : option (gmap nat path * RadixCache)) (n : option nat) : Prop :=
  match v with
  | None => True
  | Some (G, _) => ∃ m, n = Some m ∧ is_Some (G !! m)
  end.

Lemma upto_trans c0 c1 c2 : upto_locks c0 c1 → upto_locks c1 c2 → upto_locks c0 c2.
Proof.
  intros [A1 A2 A3 A4 A5 A6] [B1 B2 B3 B4 B5 B6]. split; try congruence.
  - intros n. by rewrite B5.
  - intros n. destruct (A6 n) as (<-&<-&<-&<-). apply B6.
Qed.

Lemma some_subset (H H' : list nat) :
  (∀ n, n ∈ Some <$> H → n ∈ Some <$> H') → ∀ n, n ∈ H → n ∈ H'.
Proof.
  intros Hs n Hn. assert (Some n ∈ Some <$> H') as (? & [= ->] & ?)%list_elem_of_fmap; [|done].
  apply Hs, list_elem_of_fmap. eauto.
Qed.

#[export] Program Instance radix_prefix_laws (ps : nat) : PrefixCacheLaws ps RadixCache := {|
  pc_view := option (gmap nat path * RadixCache);
  pc_ok := radix_ok ps;
  pc_node := radix_in;
|}.
Next Obligation.
  intros ps c [[G c0]|] H Ho; simpl in *.
  - destruct Ho as (H' & _ & _ & <- & R & _). unfold evictable_size. rewrite (r_evictable _ _ _ R).
    split; [apply gsum_divide; eauto using evictable_weight_aligned|].
    apply gsum_nonneg. intros n l _. unfold evictable_weight, weight. repeat case_decide; len_pos; lia.
  - destruct Ho as [_ ->]. split; [apply Z.divide_0_r|done].
Qed.
Next Obligation.
  intros ps c c' [[G c0]|] H H' Ho Ho' Hs; simpl in *.
  - destruct Ho as (L & -> & _ & _ & R & U), Ho' as (L' & -> & _ & _ & R' & U').
    eapply (evictable_antitone c0); eauto using some_subset.
  - destruct Ho as [_ ->], Ho' as [_ ->]. done.
Qed.
Next Obligation.
  intros ps c [[G c0]|] H n Ho Hn; simpl in *.
  - destruct Ho as (L & -> & Hd & Hp & R & U), Hn as (m & -> & l & Hm). rewrite Hd. simpl.
    destruct (inc_lock_ref_ok c G L m l R Hd Hm) as (d & c' & E & R' & U' & _). rewrite E. simpl.
    exists (Some d), c'. rewrite (ul_disable _ _ U'). split; [done|]. split; [|done].
    exists (m :: L). split_and!; try done; [by rewrite (ul_page _ _ U')|by eapply upto_trans].
  - destruct Ho as [Hd He]. rewrite Hd. by exists (Some 0), c.
Qed.
Next Obligation.
  intros ps c [[G c0]|] H n Ho Hn; simpl in *.
  - destruct Ho as ([|m L] & EL & Hd & Hp & R & U); [done|]. simplify_list_eq. destruct Hn as (? & [= <-] & l & Hm).
    rewrite Hd. simpl.
    destruct (dec_lock_ref_ok c G L m l R Hd Hm) as (d & c' & E & R' & U' & _). rewrite E. simpl.
    exists c'. rewrite (ul_disable _ _ U'). split; [done|]. split; [|done].
    exists L. split_and!; try done; [by rewrite (ul_page _ _ U')|by eapply upto_trans].
  - destruct Ho as [Hd He]. rewrite Hd. by exists c.
Qed.
