(* ===== verification/PrefillAdder.v ===== *)
(** * Prefill admission ([PrefillAdder] of [python/sglang/srt/managers/schedule_policy.py])

    A [PrefillAdder] decides which waiting requests join the next prefill
    batch.  It keeps token budgets, locks the cached prefix of every admitted
    request, and never changes the allocator.  [rem_total_token_offset] is a
    float in the code (a rational here).  A request that the code mutates
    after appending it to [can_run_list] is appended in its final form. *)

From Stdlib Require Import QArith.
From S2P Require Import Prelude Allocator SWAAllocator KVAllocator SamplingParams Request SchedulePolicy PrefixCache.
Open Scope Z_scope.

Inductive AddReqResult := CONTINUE | NO_TOKEN | OTHER.

#[export] Instance add_req_result_eq_dec : EqDecision AddReqResult.
Proof. solve_decision. Defined.

Definition CLIP_MAX_NEW_TOKENS : Z := 4096.
Definition IGNORE_EOS_RESERVE_TOKENS : Z := 1.

(** The allocator, by the class that [isinstance] distinguishes. *)
Inductive kv_pool (A : Type) :=
  | PlainPool (a : A)
  | HybridPool (s : SWA.t).
Arguments PlainPool {A} _.
Arguments HybridPool {A} _.

(** [x <= y] on floats, as a rational comparison. *)
Definition Qltb (x y : Q) : bool := negb (Qle_bool y x).

Module PrefillAdder.

Section adder.
Context {ps : nat} {A : Type} `{KVAllocator ps A} {C : Type} `{PrefixCache C}.

(** [running_batch] is the list of its requests. *)
Record t := mk {
  page_size : Z;
  tree_cache : C;
  token_to_kv_pool_allocator : kv_pool A;
  running_batch : option (list Req.t);
  new_token_ratio : Q;
  rem_input_tokens : Z;
  rem_chunk_tokens : option Z;
  rem_total_token_offset : Q;
  cur_rem_token_offset : Z;
  req_states : option (list (Q * Z));
  can_run_list : list Req.t;
  new_chunked_req : option Req.t;
  log_hit_tokens : Z;
  log_input_tokens : Z;
}.

Definition with_tree (c : C) (a : t) : t :=
  mk (page_size a) c (token_to_kv_pool_allocator a) (running_batch a) (new_token_ratio a)
    (rem_input_tokens a) (rem_chunk_tokens a) (rem_total_token_offset a)
    (cur_rem_token_offset a) (req_states a) (can_run_list a) (new_chunked_req a)
    (log_hit_tokens a) (log_input_tokens a).
Definition with_states (s : option (list (Q * Z))) (a : t) : t :=
  mk (page_size a) (tree_cache a) (token_to_kv_pool_allocator a) (running_batch a) (new_token_ratio a)
    (rem_input_tokens a) (rem_chunk_tokens a) (rem_total_token_offset a)
    (cur_rem_token_offset a) s (can_run_list a) (new_chunked_req a)
    (log_hit_tokens a) (log_input_tokens a).
Definition with_run (l : list Req.t) (chunked : option Req.t) (a : t) : t :=
  mk (page_size a) (tree_cache a) (token_to_kv_pool_allocator a) (running_batch a) (new_token_ratio a)
    (rem_input_tokens a) (rem_chunk_tokens a) (rem_total_token_offset a)
    (cur_rem_token_offset a) (req_states a) l chunked
    (log_hit_tokens a) (log_input_tokens a).

(** [self.can_run_list.append(req)], and [self.new_chunked_req = req]. *)
Definition append_run (r : Req.t) (a : t) : t :=
  with_run (can_run_list a ++ [r]) (new_chunked_req a) a.
Definition append_chunked (r : Req.t) (a : t) : t :=
  with_run (can_run_list a ++ [r]) (Some r) a.

Definition clipped_new_tokens (r : Req.t) : pyres Z :=
  m ← Req.get_max_new_tokens r; mret (Z.min m CLIP_MAX_NEW_TOKENS).

(** What a running request may still use, in [__init__]. *)
Definition running_estimate (ratio : Q) (r : Req.t) : pyres Q :=
  m ← Req.get_max_new_tokens r;
  mret (inject_Z (Z.min (m - len (Req.output_ids r)) CLIP_MAX_NEW_TOKENS) * ratio)%Q.

Definition running_offset (ratio : Q) (rs : list Req.t) : pyres Q :=
  foldr (fun r acc => x ← running_estimate ratio r; s ← acc; mret (x + s)%Q) (mret 0%Q) rs.

Definition init (page_size : Z) (tree_cache : C) (pool : kv_pool A)
    (running_batch : option (list Req.t)) (new_token_ratio : Q)
    (rem_input_tokens : Z) (rem_chunk_tokens : option Z) (mixed_with_decode_tokens : Z)
    : pyres t :=
  off ← match running_batch with
        | Some rs => running_offset new_token_ratio rs
        | None => mret 0%Q
        end;
  mret (mk page_size tree_cache pool running_batch new_token_ratio
    (rem_input_tokens - mixed_with_decode_tokens)
    ((fun k => k - mixed_with_decode_tokens) <$> rem_chunk_tokens)
    (inject_Z mixed_with_decode_tokens + off)%Q mixed_with_decode_tokens
    None [] None 0 0).

Definition is_hybrid (a : t) : bool :=
  match token_to_kv_pool_allocator a with HybridPool _ => true | PlainPool _ => false end.

Definition available_and_evictable (a : t) : Z :=
  match token_to_kv_pool_allocator a with
  | HybridPool s =>
      Z.min (SWA.full_available_size s + pc_full_evictable_size (tree_cache a))
        (SWA.swa_available_size s + pc_swa_evictable_size (tree_cache a))
  | PlainPool k => kv_available k + pc_evictable_size (tree_cache a)
  end.

Definition rem_total_tokens (a : t) : Q :=
  (inject_Z (available_and_evictable a) - rem_total_token_offset a)%Q.

Definition cur_rem_tokens (a : t) : Z :=
  available_and_evictable a - cur_rem_token_offset a.

(** [-(-tokens // page_size) * page_size] *)
Definition ceil_paged_tokens (a : t) (tokens : Z) : Z :=
  - (- tokens / page_size a) * page_size a.

Definition budget_state (a : t) : AddReqResult :=
  if Qle_bool (rem_total_tokens a) 0 || (cur_rem_tokens a <=? 0) then NO_TOKEN
  else if (rem_input_tokens a <=? 0) ||
          match rem_chunk_tokens a with Some k => k <=? 0 | None => false end then OTHER
  else CONTINUE.

Definition _update_prefill_budget (prefix_len extend_input_len max_new_tokens : Z) (a : t) : t :=
  let extend_input_len := ceil_paged_tokens a extend_input_len in
  mk (page_size a) (tree_cache a) (token_to_kv_pool_allocator a) (running_batch a) (new_token_ratio a)
    (rem_input_tokens a - extend_input_len)
    ((fun k => k - extend_input_len) <$> rem_chunk_tokens a)
    (rem_total_token_offset a + inject_Z (extend_input_len + max_new_tokens))%Q
    (cur_rem_token_offset a + extend_input_len)
    (req_states a) (can_run_list a) (new_chunked_req a)
    (log_hit_tokens a + prefix_len) (log_input_tokens a + extend_input_len).

(** Returns the request while its prefill is unfinished. *)
Definition add_chunked_req (req : Req.t) (a : t) : pyres (option Req.t * Req.t * t) :=
  match rem_chunk_tokens a with
  | None => Raise TypeError
  | Some k =>
      let truncated := k <? Req.extend_input_len req in
      let req := Req.set_extend_input_len (Z.min (Req.extend_input_len req) k) req in
      let req := Req.set_fill_ids
        ((Req.fill_ids req).[: len (Req.prefix_indices req) + Req.extend_input_len req]) req in
      let a := append_run req a in
      n ← (if truncated then mret 0 else clipped_new_tokens req);
      let a := _update_prefill_budget 0 (Req.extend_input_len req) n a in
      mret (if truncated then Some req else None, req, a)
  end.

(** [with self._lock_node(last_node): body].  An exception of the body
    propagates after the unlock. *)
Definition _lock_node {X} (last_node : option nat) (body : t → pyres (X * t)) (a : t)
    : pyres (X * t) :=
  '(u, c) ← pc_inc_lock_ref last_node (tree_cache a);
  '(x, a) ← body (with_tree c a);
  c ← (if is_hybrid a then pc_dec_lock_ref_uuid last_node u (tree_cache a)
       else pc_dec_lock_ref last_node (tree_cache a));
  mret (x, with_tree c a).

(** *** Requests that ignore EOS *)

(** The loop variable after [for i in range(n): if ...: break]. *)
Definition insert_index (tokens_left : Q) (states : list (Q * Z)) : nat :=
  match list_find (fun s => Qle_bool tokens_left s.1 = true) states with
  | Some (i, _) => i
  | None => Nat.pred (length states)
  end.

Definition list_insert {X} (i : nat) (x : X) (l : list X) : list X := take i l ++ x :: drop i l.

Definition add_req_state (ratio : Q) (r : Req.t) (insert_sort : bool) (states : list (Q * Z))
    : pyres (list (Q * Z)) :=
  m ← Req.get_max_new_tokens r;
  let new_token_ratio := if SamplingParams.ignore_eos (Req.sampling_params r) then 1%Q else ratio in
  let tokens_left := (inject_Z m * new_token_ratio - inject_Z (len (Req.output_ids r)))%Q in
  let tokens_occupied := len (Req.origin_input_ids r) + len (Req.output_ids r) in
  if Qle_bool tokens_left 0 then mret states
  else if negb insert_sort then mret (states ++ [(tokens_left, tokens_occupied)])
  else mret (list_insert (insert_index tokens_left states) (tokens_left, tokens_occupied) states).

Definition append_req_states (ratio : Q) (rs : list Req.t) (states : list (Q * Z))
    : pyres (list (Q * Z)) :=
  foldl (fun acc r => s ← acc; add_req_state ratio r false s) (mret states) rs.

(** The update of [self.req_states]. *)
Definition update_req_states (req : Req.t) (a : t) : pyres (list (Q * Z)) :=
  match req_states a with
  | None =>
      s ← add_req_state (new_token_ratio a) req false [];
      s ← (match running_batch a with
           | Some rs => append_req_states (new_token_ratio a) rs s
           | None => mret s
           end);
      s ← append_req_states (new_token_ratio a) (can_run_list a) s;
      mret (py_sort (fun x y => Qle_bool x.1 y.1) s)
  | Some s => add_req_state (new_token_ratio a) req true s
  end.

(** The simulated decoding over [req_states]: [true] when memory suffices. *)
Fixpoint ignore_eos_fits (cur_rem_tokens tokens_freed : Z) (states : list (Q * Z)) : bool :=
  match states with
  | [] => true
  | (tokens_left, tokens_occupied) :: rest =>
      let bs := len states in
      let min_free_tokens := (inject_Z (cur_rem_tokens + tokens_freed) - tokens_left * inject_Z bs)%Q in
      if Qle_bool min_free_tokens (inject_Z (IGNORE_EOS_RESERVE_TOKENS * bs)) then false
      else ignore_eos_fits cur_rem_tokens (tokens_freed + tokens_occupied) rest
  end.

Definition add_one_req_ignore_eos (req : Req.t) (has_chunked_req : bool) (a : t)
    : pyres (AddReqResult * Req.t * t) :=
  let input := ceil_paged_tokens a (Req.extend_input_len req) in
  if (cur_rem_tokens a <? input) || Qltb (rem_total_tokens a) (inject_Z input)
  then mret (NO_TOKEN, req, a) else
  s ← update_req_states req a;
  let a := with_states (Some s) a in
  if negb (is_hybrid a) && negb (ignore_eos_fits (cur_rem_tokens a - input) 0 s)
  then mret (NO_TOKEN, req, a) else
  let whole := match rem_chunk_tokens a with
               | None => true | Some k => Req.extend_input_len req <=? k end in
  if whole then
    n ← clipped_new_tokens req;
    let a := _update_prefill_budget 0 (Req.extend_input_len req) n (append_run req a) in
    mret (budget_state a, req, a)
  else
    let trunc_len := default 0 (rem_chunk_tokens a) in
    if trunc_len =? 0 then mret (OTHER, req, a) else
    let req := Req.set_fill_ids ((Req.fill_ids req).[: trunc_len])
      (Req.set_extend_input_len trunc_len req) in
    let a := _update_prefill_budget 0 trunc_len 0 (append_chunked req a) in
    mret (budget_state a, req, a).

(** *** The general case *)

(** [self.tree_cache.inc_lock_ref(req.last_node)] of an admitted request. *)
Definition lock_admitted (req : Req.t) (a : t) : pyres (Req.t * t) :=
  '(u, c) ← pc_inc_lock_ref (Req.last_node req) (tree_cache a);
  let req := if is_hybrid a then Req.set_swa_uuid_for_lock u req else req in
  mret (req, with_tree c a).

(** [init_load_back]: the part of the prefix held by the host is loaded. *)
Definition load_back (req : Req.t) (a : t) : pyres (Req.t * t) :=
  if 0 <? Req.host_hit_length req then
    '(new_indices, node, c) ←
      pc_init_load_back (Req.last_host_node req) (Req.host_hit_length req) (tree_cache a);
    let req := Req.set_prefix_indices (Req.prefix_indices req ++ new_indices)
      (Req.set_last_node node req) in
    let req := Req.set_extend_input_len
      (len (Req.fill_ids req) - len (Req.prefix_indices req)) req in
    mret (req, with_tree c a)
  else mret (req, a).

(** The body of the [with] block; [None] when it falls through. *)
Definition add_locked (total_tokens : Z) (req : Req.t) (a : t)
    : pyres (option AddReqResult * Req.t * t) :=
  if Qle_bool (rem_total_tokens a) (inject_Z total_tokens) then mret (Some NO_TOKEN, req, a) else
  '(req, a) ← load_back req a;
  let prefix_len := len (Req.prefix_indices req) in
  let input_tokens := ceil_paged_tokens a (Req.extend_input_len req) in
  if (rem_input_tokens a <=? input_tokens) && negb (len (can_run_list a) =? 0)
  then mret (Some OTHER, req, a) else
  let whole := match rem_chunk_tokens a with None => true | Some k => input_tokens <=? k end in
  if whole then
    '(req, a) ← lock_admitted req a;
    n ← clipped_new_tokens req;
    mret (None, req, _update_prefill_budget prefix_len input_tokens n (append_run req a))
  else
    let trunc_len := default 0 (rem_chunk_tokens a) - page_size a + 1 in
    if trunc_len <=? 0 then mret (Some OTHER, req, a) else
    let req := Req.set_extend_input_len trunc_len req in
    let req := Req.set_fill_ids
      ((Req.fill_ids req).[: len (Req.prefix_indices req) + trunc_len]) req in
    '(req, a) ← lock_admitted req a;
    mret (None, req, _update_prefill_budget prefix_len trunc_len 0 (append_chunked req a)).

Definition add_one_req (req : Req.t) (has_chunked_req : bool) (a : t)
    : pyres (AddReqResult * Req.t * t) :=
  if SamplingParams.ignore_eos (Req.sampling_params req) && pc_disable (tree_cache a)
  then add_one_req_ignore_eos req has_chunked_req a else
  n ← clipped_new_tokens req;
  let total_tokens := Req.extend_input_len req + n in
  let real_input_tokens :=
    ceil_paged_tokens a (Req.extend_input_len req - Req.host_hit_length req) in
  if Qle_bool (rem_total_tokens a) (inject_Z total_tokens) then mret (NO_TOKEN, req, a) else
  if (rem_input_tokens a <=? real_input_tokens) && negb (len (can_run_list a) =? 0)
  then mret (OTHER, req, a) else
  '(x, a) ← _lock_node (Req.last_node req)
    (fun a => '(o, req, a) ← add_locked total_tokens req a; mret ((o, req), a)) a;
  let '(o, req) := x : option AddReqResult * Req.t in
  mret (default (budget_state a) o, req, a).

End adder.
#[global] Arguments t : clear implicits.
End PrefillAdder.
