(* ===== verification/PrefillAdderProofs.v ===== *)
(** * Prefill admission is memory-safe

    The adder keeps the pages of the admitted prefills within the free and
    evictable memory, for any prefix cache that satisfies
    [PrefixCacheLaws]. *)

From Stdlib Require Import QArith Qround.
From S2P Require Import Prelude Allocator PagedAllocator PagedProofs SWAAllocator KVAllocator SamplingParams Request RadixCache RadixInv RadixInsert.
From S2P Require Import SchedulePolicy PrefixCache PrefillAdder.
Import PrefillAdder.
Open Scope Z_scope.

(** ** Rounding up to whole pages *)

Definition ceil_to (p x : Z) : Z := - (- x / p) * p.

Section ceil.
Context (p : Z) (Hp : 0 < p).

Lemma ceil_to_divide x : (p | ceil_to p x).
Proof. exists (- (- x / p)). done. Qed.

Lemma ceil_to_bounds x : x ≤ ceil_to p x < x + p.
Proof using Hp.
  unfold ceil_to. pose proof (Z.mul_div_le (- x) p Hp). pose proof (Z.mul_succ_div_gt (- x) p Hp). nia.
Qed.

(** the least multiple above *)
Lemma ceil_to_least x b : (p | b) → x ≤ b → ceil_to p x ≤ b.
Proof using Hp.
  intros [q ->] Hx. pose proof (ceil_to_bounds x). destruct (ceil_to_divide x) as [k Hk].
  rewrite Hk in *. assert (k < q + 1) by nia. nia.
Qed.

Lemma ceil_to_multiple x : (p | x) → ceil_to p x = x.
Proof using Hp.
  intros Hx. pose proof (ceil_to_least x x Hx). pose proof (ceil_to_bounds x). lia.
Qed.

End ceil.

(** Compare an integer with the rational budget above another integer. *)
Lemma budget_gap (av cur x : Z) (off : Q) :
  (inject_Z cur <= off)%Q → (inject_Z x < inject_Z av - off)%Q → x < av - cur.
Proof.
  intros Hc Hx. rewrite Zlt_Qlt. unfold Z.sub. rewrite inject_Z_plus, inject_Z_opp.
  eapply Qlt_le_trans; [exact Hx|]. unfold Qminus.
  apply Qplus_le_compat; [apply Qle_refl|]. by apply Qopp_le_compat.
Qed.

Section safety.
Context {ps : nat} {A : Type} `{KVAllocator ps A} {C : Type} `{PrefixCacheLaws ps C}.
Context (Hps : (0 < ps)%nat).
Abbreviation adder := (t A C).

Lemma ceil_paged_to (a : adder) x : page_size a = Z.of_nat ps → ceil_paged_tokens a x = ceil_to (Z.of_nat ps) x.
Proof. unfold ceil_paged_tokens, ceil_to. by intros ->. Qed.

(** The state of an adder over a pool that is not hybrid: [v] and [L] are the
    content and the locks of the prefix cache, [mixed] the tokens set aside
    for the decoding requests of a mixed batch. *)
Record adder_ok (a : adder) (k : A) (v : pc_view) (L : list (option nat)) (mixed : Z) : Prop := mk_adder_ok {
  ao_page : page_size a = Z.of_nat ps;
  ao_pool : token_to_kv_pool_allocator a = PlainPool k;
  ao_pool_aligned : (Z.of_nat ps | kv_available k);
  ao_tree : pc_ok (tree_cache a) v L;
  ao_offset : cur_rem_token_offset a =
    mixed + zsum ((fun r => ceil_to (Z.of_nat ps) (Req.extend_input_len r)) <$> can_run_list a);
  ao_offset_aligned : (Z.of_nat ps | cur_rem_token_offset a);
  ao_total : (inject_Z (cur_rem_token_offset a) <= rem_total_token_offset a)%Q;
  ao_fits : 0 ≤ cur_rem_tokens a;
}.

Lemma available_tree (a : adder) k : token_to_kv_pool_allocator a = PlainPool k →
  available_and_evictable a = kv_available k + pc_evictable_size (tree_cache a).
Proof. unfold available_and_evictable. by intros ->. Qed.

Lemma adder_rem_aligned a k v L mixed : adder_ok a k v L mixed → (Z.of_nat ps | cur_rem_tokens a).
Proof.
  intros O. unfold cur_rem_tokens. rewrite (available_tree a k) by apply O.
  apply Z.divide_sub_r; [|apply O]. apply Z.divide_add_r; [apply O|].
  apply (pc_size_aligned _ _ _ (ao_tree _ _ _ _ _ O)).
Qed.

(** Admitting a request whose pages fit. *)
Lemma adder_admit a k v L mixed r pre n chunked ext :
  adder_ok a k v L mixed → 0 ≤ n →
  ceil_to (Z.of_nat ps) (Req.extend_input_len r) = ceil_to (Z.of_nat ps) ext →
  ceil_to (Z.of_nat ps) ext ≤ cur_rem_tokens a →
  adder_ok (_update_prefill_budget pre ext n (with_run (can_run_list a ++ [r]) chunked a)) k v L mixed.
Proof using Hps.
  intros [O1 O2 O3 O4 O5 O6 O7 O8] Hn He Hf. unfold _update_prefill_budget.
  split; simpl; try done; unfold cur_rem_tokens in *; simpl in *; rewrite ?ceil_paged_to by done.
  - rewrite fmap_app, zsum_app. csimpl. rewrite zsum_cons, He. unfold zsum at 2. simpl. lia.
  - apply Z.divide_add_r; [done|]. apply ceil_to_divide.
  - rewrite inject_Z_plus. apply Qplus_le_compat; [done|]. rewrite <-Zle_Qle. lia.
  - unfold available_and_evictable in *. simpl. lia.
Qed.

Lemma adder_with_tree a k v L L' mixed c :
  adder_ok a k v L mixed → pc_ok c v L' → 0 ≤ cur_rem_tokens (with_tree c a) →
  adder_ok (with_tree c a) k v L' mixed.
Proof. intros [O1 O2 O3 O4 O5 O6 O7 O8] Oc Hf. by split. Qed.

Lemma adder_with_states a k v L mixed s :
  adder_ok a k v L mixed → adder_ok (with_states s a) k v L mixed.
Proof. intros [O1 O2 O3 O4 O5 O6 O7 O8]. by split. Qed.

(** Locks of the same nodes leave the budget as it is. *)
Lemma cur_rem_same a k v L L' c :
  token_to_kv_pool_allocator a = PlainPool k → pc_ok (tree_cache a) v L → pc_ok c v L' →
  (∀ n, n ∈ L ↔ n ∈ L') → cur_rem_tokens (with_tree c a) = cur_rem_tokens a.
Proof.
  intros Hk O O' E. unfold cur_rem_tokens. rewrite !(available_tree _ k) by done. simpl.
  rewrite (pc_size_same _ _ _ _ _ O O' E). done.
Qed.

(** A positive answer of the token check, in whole pages. *)
Lemma fits_pages a k v L x n :
  page_size a = Z.of_nat ps → token_to_kv_pool_allocator a = PlainPool k →
  (Z.of_nat ps | kv_available k) → pc_ok (tree_cache a) v L →
  (Z.of_nat ps | cur_rem_token_offset a) →
  (inject_Z (cur_rem_token_offset a) <= rem_total_token_offset a)%Q → 0 ≤ n →
  Qle_bool (rem_total_tokens a) (inject_Z (x + n)) = false →
  ceil_to (Z.of_nat ps) x ≤ cur_rem_tokens a.
Proof using Hps.
  intros Hp Hk Hka Ht Hoa Htot Hn Hq%SamplingParams.Qle_bool_false. unfold rem_total_tokens in Hq.
  apply (budget_gap _ (cur_rem_token_offset a)) in Hq; [|done].
  apply ceil_to_least; [lia| |unfold cur_rem_tokens; lia].
  unfold cur_rem_tokens. rewrite (available_tree a k) by done. apply Z.divide_sub_r; [|done].
  apply Z.divide_add_r; [done|]. apply (pc_size_aligned _ _ _ Ht).
Qed.

Lemma lock_admitted_ok (a : adder) k v L r :
  token_to_kv_pool_allocator a = PlainPool k → pc_ok (tree_cache a) v L → pc_node v (Req.last_node r) →
  ∃ c, lock_admitted r a = Ok (r, with_tree c a) ∧ pc_ok c v (Req.last_node r :: L).
Proof.
  intros Hk Ot Hn. unfold lock_admitted, is_hybrid. rewrite Hk.
  destruct (pc_inc_ok _ _ _ _ Ot Hn) as (u & c & -> & Oc & _). simpl. by exists c.
Qed.

Lemma req_eta r : r = Req.set_fill_ids (Req.fill_ids r) (Req.set_extend_input_len (Req.extend_input_len r) r).
Proof. by destruct r. Qed.

(** What [add_one_req] did to an admitted request and to the adder. *)
Definition admitted (a : adder) (r r' : Req.t) (a' : adder) : Prop :=
  can_run_list a' = can_run_list a ++ [r'] ∧
  new_chunked_req a' = (if decide (Req.extend_input_len r' = Req.extend_input_len r)
                        then new_chunked_req a else Some r') ∧
  0 < Req.extend_input_len r' ≤ Req.extend_input_len r ∧
  r' = Req.set_fill_ids (Req.fill_ids r') (Req.set_extend_input_len (Req.extend_input_len r') r) ∧
  Req.fill_ids r' = take (Z.to_nat (len (Req.prefix_indices r) + Req.extend_input_len r')) (Req.fill_ids r) ∧
  (rem_chunk_tokens a = None → rem_chunk_tokens a' = None ∧ Req.extend_input_len r' = Req.extend_input_len r) ∧
  ∀ q, rem_chunk_tokens a = Some q →
    rem_chunk_tokens a' = Some (q - ceil_to (Z.of_nat ps) (Req.extend_input_len r')) ∧
    ceil_to (Z.of_nat ps) (Req.extend_input_len r') ≤ q.

(** The [with] block, entered with the prefix of the request locked. *)
Lemma add_locked_ok a k v L mixed r m :
  let L1 := Req.last_node r :: L in
  adder_ok a k v L mixed → pc_node v (Req.last_node r) →
  Req.host_hit_length r = 0 → SamplingParams.max_new_tokens (Req.sampling_params r) = Some m → 0 ≤ m →
  0 < Req.extend_input_len r → len (Req.fill_ids r) = len (Req.prefix_indices r) + Req.extend_input_len r →
  ∀ c1, pc_ok c1 v L1 →
  ∃ o r' a', add_locked (Req.extend_input_len r + Z.min m CLIP_MAX_NEW_TOKENS) r (with_tree c1 a) = Ok (o, r', a') ∧
    ((∃ e, o = Some e ∧ e ≠ CONTINUE ∧ r' = r ∧ a' = with_tree c1 a) ∨
     (o = None ∧ adder_ok a' k v (Req.last_node r :: L1) mixed ∧ admitted a r r' a')).
Proof using Hps.
  intros L1 O Hn Hh Hm Hm0 Hext Hfill c1 O1. unfold add_locked.
  destruct (Qle_bool (rem_total_tokens (with_tree c1 a)) _) eqn:Hq.
  { eexists _, _, _. split; [done|]. left. eauto. }
  apply (fits_pages (with_tree c1 a) k v L1) in Hq; [|apply O..|done|apply O|apply O|unfold CLIP_MAX_NEW_TOKENS; lia].
  unfold load_back. rewrite Hh. simpl.
  rewrite ceil_paged_to by apply O. simpl.
  destruct (_ && _) eqn:Hin.
  { eexists _, _, _. split; [done|]. left. eauto. }
  assert (adder_ok (with_tree c1 a) k v L1 mixed) as Oa.
  { eapply adder_with_tree; [done..|]. pose proof (ceil_to_bounds (Z.of_nat ps) ltac:(lia) (Req.extend_input_len r)). lia. }
  destruct (match rem_chunk_tokens a with None => true | Some q => _ end) eqn:Hw.
  - destruct (lock_admitted_ok (with_tree c1 a) k v L1 r) as (c2 & -> & O2); [apply O|done..|]. simpl.
    unfold clipped_new_tokens, Req.get_max_new_tokens. rewrite Hm. simpl.
    eexists _, _, _. split; [done|]. right. split; [done|].
    assert (cur_rem_tokens (with_tree c2 (with_tree c1 a)) = cur_rem_tokens (with_tree c1 a)) as Hc.
    { eapply (cur_rem_same (with_tree c1 a) k v L1); [apply O|done..|]. intros n. unfold L1. set_solver. }
    split.
    + apply (adder_admit (with_tree c2 (with_tree c1 a))).
      * eapply adder_with_tree; [done..|]. rewrite Hc. apply Oa.
      * unfold CLIP_MAX_NEW_TOKENS. lia.
      * rewrite (ceil_to_multiple (Z.of_nat ps) ltac:(lia) (ceil_to _ _)); [done|apply ceil_to_divide].
      * rewrite (ceil_to_multiple (Z.of_nat ps) ltac:(lia) (ceil_to _ _)) by apply ceil_to_divide. rewrite Hc. lia.
    + unfold admitted. simpl. rewrite decide_True by done. split_and!; try done; [apply req_eta| | |].
      * rewrite take_ge; [done|]. unfold len in *. lia.
      * by intros ->.
      * intros q Hq'. rewrite Hq'. simpl. rewrite Hq' in Hw. rewrite ceil_paged_to by apply O.
        rewrite ceil_to_multiple; [split; [done|lia]|lia|apply ceil_to_divide].
  - destruct (rem_chunk_tokens a) as [q|] eqn:Hq'; [|done]. simpl. rewrite (ao_page _ _ _ _ _ O).
    destruct (_ <=? 0) eqn:Ht.
    { eexists _, _, _. split; [done|]. left. eauto. }
    set (tr := q - Z.of_nat ps + 1) in *.
    pose proof (ceil_to_bounds (Z.of_nat ps) ltac:(lia) (Req.extend_input_len r)) as Hb.
    pose proof (ceil_to_bounds (Z.of_nat ps) ltac:(lia) tr) as Hb'.
    match goal with |- context [lock_admitted ?x] => set (r' := x) end.
    destruct (lock_admitted_ok (with_tree c1 a) k v L1 r') as (c2 & -> & O2); [apply O|done..|]. simpl.
    eexists _, _, _. split; [done|]. right. split; [done|].
    assert (cur_rem_tokens (with_tree c2 (with_tree c1 a)) = cur_rem_tokens (with_tree c1 a)) as Hc.
    { eapply (cur_rem_same (with_tree c1 a) k v L1); [apply O|done..|]. intros n. unfold L1, r'. simpl. set_solver. }
    split.
    + apply (adder_admit (with_tree c2 (with_tree c1 a))); [|lia|done|].
      * eapply adder_with_tree; [done..|]. rewrite Hc. apply Oa.
      * rewrite Hc. unfold tr in *. lia.
    + unfold admitted. simpl. rewrite decide_False by lia. split_and!; try done; [lia..| | |].
      * rewrite py_take_nonneg by lenlia. done.
      * by rewrite Hq'.
      * intros q' E. rewrite Hq' in E |- *. injection E as <-. simpl. rewrite ceil_paged_to by apply O. unfold tr in *. split; [done|lia].
Qed.

(** A refused request leaves the adder with the same locks and budgets. *)
Definition refused (a : adder) (v : pc_view) (L : list (option nat)) (a' : adder) : Prop :=
  ∃ c, a' = with_tree c a ∧ pc_ok c v L ∧ pc_evictable_size c = pc_evictable_size (tree_cache a).

Lemma refused_refl a k v L mixed : adder_ok a k v L mixed → refused a v L a.
Proof. intros O. exists (tree_cache a). split; [by destruct a|]. split; [apply O|done]. Qed.

(** The unlock at the end of the [with] block. *)
Lemma unlock_ok (a : adder) k v L n :
  token_to_kv_pool_allocator a = PlainPool k → pc_ok (tree_cache a) v (n :: L) → pc_node v n →
  ∃ c, (if is_hybrid a then pc_dec_lock_ref_uuid n None (tree_cache a)
        else pc_dec_lock_ref n (tree_cache a)) = Ok c ∧ pc_ok c v L ∧
    (∀ u, (if is_hybrid a then pc_dec_lock_ref_uuid n u (tree_cache a)
        else pc_dec_lock_ref n (tree_cache a)) = Ok c).
Proof.
  intros Hk Ot Hn. unfold is_hybrid. rewrite Hk.
  destruct (pc_dec_ok _ _ _ _ Ot Hn) as (c & E & Oc & _). eauto.
Qed.

Lemma add_one_req_ok a k v L mixed r m hc :
  adder_ok a k v L mixed → pc_node v (Req.last_node r) →
  SamplingParams.ignore_eos (Req.sampling_params r) && pc_disable (tree_cache a) = false →
  Req.host_hit_length r = 0 → SamplingParams.max_new_tokens (Req.sampling_params r) = Some m → 0 ≤ m →
  0 < Req.extend_input_len r → len (Req.fill_ids r) = len (Req.prefix_indices r) + Req.extend_input_len r →
  ∃ res r' a', add_one_req r hc a = Ok (res, r', a') ∧
    ((res ≠ CONTINUE ∧ r' = r ∧ refused a v L a') ∨
     (res = budget_state a' ∧ adder_ok a' k v (Req.last_node r :: L) mixed ∧ admitted a r r' a')).
Proof using Hps.
  intros O Hn Hig Hh Hm Hm0 Hext Hfill. unfold add_one_req. rewrite Hig.
  unfold clipped_new_tokens, Req.get_max_new_tokens. rewrite Hm. cbn [mbind pyres_bind mret pyres_ret].
  destruct (Qle_bool _ _) eqn:Hq.
  { eexists _, _, _. split; [done|]. left. eauto using refused_refl. }
  destruct ((rem_input_tokens a <=? _) && _) eqn:Hin.
  { eexists _, _, _. split; [done|]. left. eauto using refused_refl. }
  unfold _lock_node. destruct (pc_inc_ok _ _ _ _ (ao_tree _ _ _ _ _ O) Hn) as (u & c1 & -> & O1 & _).
  cbn [mbind pyres_bind mret pyres_ret].
  destruct (add_locked_ok a k v L mixed r m O Hn Hh Hm Hm0 Hext Hfill c1 O1)
    as (o & r' & a' & -> & Hcase). cbn [mbind pyres_bind mret pyres_ret].
  destruct Hcase as [(e & -> & He & -> & ->)|(-> & Oa & Ad)].
  - destruct (unlock_ok (with_tree c1 a) k v L (Req.last_node r)) as (c2 & _ & O2 & E2); [apply O|done..|].
    rewrite E2. simpl. eexists _, _, _. split; [done|]. left. split; [done|]. split; [done|].
    exists c2. split; [done|]. split; [done|]. by apply (pc_size_same _ _ v L L (ao_tree _ _ _ _ _ O) O2).
  - destruct (unlock_ok a' k v (Req.last_node r :: L) (Req.last_node r)) as (c2 & _ & O2 & E2); [apply Oa|apply Oa|done|].
    rewrite E2. simpl. eexists _, _, _. split; [done|]. right. split; [done|]. split; [|done].
    eapply adder_with_tree; [done..|].
    rewrite (cur_rem_same a' k v (Req.last_node r :: Req.last_node r :: L) (Req.last_node r :: L));
      [apply Oa|apply Oa|apply Oa|done|]. intros x. set_solver.
Qed.

End safety.

(** C22: [PrefillAdder.add_one_req] over any prefix cache, outside the
    branch for requests that ignore eos with a disabled cache (which can
    change the adder for a request it refuses and let a chunk become
    negative, see [prefill_ignore_eos_negative_chunk]). The adder is over a
    pool that is not hybrid, its budgets are in step with the requests
    admitted so far ([adder_ok]), and the request has a node of the cache,
    no part of its prefix on the host, a limit of new tokens that is not
    negative, and tokens to compute behind its prefix. Then [add_one_req]
    always answers. A refused request leaves the request, the budgets and
    the locks of the cache as they were. An admitted one is appended with
    its prefix locked; it keeps its prefix, gets a positive part of its
    input (all of it unless it becomes the new chunked request), stays
    within the chunk budget in whole pages, and the pages of all admitted
    prefills together still fit in the free and evictable memory that
    remains. *)
Theorem prefill_add_one_req_safe (ps : nat) (A : Type) `{KVAllocator ps A} (C : Type) `{PrefixCacheLaws ps C}
    (a : t A C) (k : A) (v : pc_view) (L : list (option nat)) (mixed : Z) (r : Req.t) (m : Z) (hc : bool) :
  (0 < ps)%nat → adder_ok a k v L mixed → pc_node v (Req.last_node r) →
  SamplingParams.ignore_eos (Req.sampling_params r) && pc_disable (tree_cache a) = false →
  Req.host_hit_length r = 0 → SamplingParams.max_new_tokens (Req.sampling_params r) = Some m → 0 ≤ m →
  0 < Req.extend_input_len r → len (Req.fill_ids r) = len (Req.prefix_indices r) + Req.extend_input_len r →
  ∃ res r' a', add_one_req r hc a = Ok (res, r', a') ∧
    ((res ≠ CONTINUE ∧ r' = r ∧ refused a v L a') ∨
     (res = budget_state a' ∧ admitted (ps := ps) a r r' a' ∧ pc_ok (tree_cache a') v (Req.last_node r :: L) ∧
      mixed + zsum ((fun r => ceil_to (Z.of_nat ps) (Req.extend_input_len r)) <$> can_run_list a') ≤
        kv_available k + pc_evictable_size (tree_cache a'))).
Proof.
  intros Hps O Hn Hig Hh Hm Hm0 Hext Hfill.
  destruct (add_one_req_ok Hps a k v L mixed r m hc O Hn Hig Hh Hm Hm0 Hext Hfill)
    as (res & r' & a' & E & [Hc|(Hr & O' & Ad)]); exists res, r', a'; (split; [done|]); [by left|right].
  split_and!; [done..|apply O'|]. pose proof (ao_fits _ _ _ _ _ O') as Hf.
  unfold cur_rem_tokens in Hf. rewrite (available_tree a' k) in Hf by apply O'.
  rewrite (ao_offset _ _ _ _ _ O') in Hf. lia.
Qed.

(** A radix cache over a pool of four pages; the request extends a cached
    page by three tokens. *)
Definition adder_pool : Paged.t := Paged.init (fun _ => 0) 8 2 false true.

Definition adder_req : Req.t :=
  Req.set_fill_ids [1; 2; 7; 8; 9] (Req.set_extend_input_len 3 (Req.set_prefix_indices [2; 3]
    (Req.set_last_node (Some 2%nat) (Req.demo_req [])))).

Definition demo_adder : t Paged.t RadixCache :=
  mk 2 demo_cache (PlainPool adder_pool) None (1#2)%Q 100 (Some 3) 0%Q 0 None [] None 0 0.

Lemma demo_adder_ok G ln :
  repr demo_cache G [] → G !! 2%nat = Some ln →
  adder_ok (ps := 2) (H1 := radix_prefix_laws 2) demo_adder adder_pool (Some (G, demo_cache)) [] 0.
Proof.
  intros R Hn. split; try reflexivity.
  - exists 4. reflexivity.
  - change (radix_ok 2 demo_cache (Some (G, demo_cache)) []). exists []. split; [reflexivity|].
    split; [reflexivity|]. split; [reflexivity|]. split; [exact R|exact (RadixLocks.upto_refl demo_cache)].
  - exists 0. reflexivity.
  - apply Qle_refl.
  - vm_compute. discriminate.
Qed.

Lemma prefill_add_one_req_safe_witness :
  ∃ r' a', add_one_req (ps := 2) adder_req false demo_adder = Ok (CONTINUE, r', a') ∧
    Req.extend_input_len r' = 2 ∧ Req.fill_ids r' = [1; 2; 7; 8].
Proof.
  destruct RadixLocks.demo_leaf as (G & ln & R & Hn).
  destruct (prefill_add_one_req_safe 2 Paged.t RadixCache (H0 := radix_prefix_cache) (H1 := radix_prefix_laws 2) demo_adder adder_pool (Some (G, demo_cache)) [] 0
    adder_req 8 false) as (res & r' & a' & E & _);
    [lia|exact (demo_adder_ok G ln R Hn)|exists 2%nat; split; [reflexivity|exists ln; exact Hn]
    |reflexivity|reflexivity|reflexivity|lia|vm_compute; reflexivity|reflexivity|].
  exists r', a'.
  assert (res = CONTINUE ∧ Req.extend_input_len r' = 2 ∧ Req.fill_ids r' = [1; 2; 7; 8]) as (-> & H1 & H2).
  { vm_compute in E. injection E as <- <- _. split; [reflexivity|split; reflexivity]. }
  split; [exact E|]. split; [exact H1|exact H2].
Defined.

(** ** Chunked and EOS-ignoring requests *)

Section chunked.
Context {ps : nat} {A : Type} `{KVAllocator ps A} {C : Type} `{PrefixCacheLaws ps C}.
Abbreviation adder := (t A C).

Lemma add_chunked_req_ok (a : adder) r m q :
  0 < page_size a → rem_chunk_tokens a = Some q →
  SamplingParams.max_new_tokens (Req.sampling_params r) = Some m →
  0 ≤ q → 0 ≤ Req.extend_input_len r →
  len (Req.fill_ids r) = len (Req.prefix_indices r) + Req.extend_input_len r →
  ∃ o r' a', add_chunked_req r a = Ok (o, r', a') ∧
    o = (if decide (q < Req.extend_input_len r) then Some r' else None) ∧
    can_run_list a' = can_run_list a ++ [r'] ∧
    Req.extend_input_len r' = Z.min (Req.extend_input_len r) q ∧
    Req.fill_ids r' = take (Z.to_nat (len (Req.prefix_indices r) + Req.extend_input_len r')) (Req.fill_ids r) ∧
    tree_cache a' = tree_cache a ∧ page_size a' = page_size a ∧
    rem_chunk_tokens a' = Some (q - ceil_to (page_size a) (Req.extend_input_len r')).
Proof.
  intros Hp Hq Hm Hq0 He Hf. unfold add_chunked_req. rewrite Hq. simpl.
  rewrite py_take_nonneg by lenlia.
  destruct (Z.ltb_spec q (Req.extend_input_len r)) as [Hlt|Hge].
  - simpl. eexists _, _, _. split; [done|]. split; [by rewrite decide_True|].
    split_and!; try done. simpl. rewrite Hq. done.
  - unfold clipped_new_tokens, Req.get_max_new_tokens. simpl. rewrite Hm. simpl.
    eexists _, _, _. split; [done|]. split; [by rewrite decide_False by lia|].
    split_and!; try done. simpl. rewrite Hq. done.
Qed.

End chunked.

(** at most one request of a batch is chunked.  [add_chunked_req] gives
    the running chunked request as much of the chunk budget as it can use; if
    the request is still unfinished, the budget is used up, and [add_one_req]
    then admits no further request (so the scheduler's assertion that no new
    chunked request appears holds). *)
Theorem prefill_single_chunked_req (ps : nat) (A : Type) `{KVAllocator ps A} (C : Type) `{PrefixCacheLaws ps C}
    (a : t A C) (r : Req.t) (m q : Z) :
  page_size a = Z.of_nat ps → (0 < ps)%nat → rem_chunk_tokens a = Some q →
  SamplingParams.max_new_tokens (Req.sampling_params r) = Some m → 0 ≤ q → 0 ≤ Req.extend_input_len r →
  len (Req.fill_ids r) = len (Req.prefix_indices r) + Req.extend_input_len r →
  ∃ o r' a', add_chunked_req r a = Ok (o, r', a') ∧
    can_run_list a' = can_run_list a ++ [r'] ∧ Req.extend_input_len r' = Z.min (Req.extend_input_len r) q ∧
    (is_Some o ↔ q < Req.extend_input_len r) ∧
    (is_Some o → o = Some r' ∧ ∀ k v L mixed r2 m2 hc,
       adder_ok a' k v L mixed → pc_node v (Req.last_node r2) →
       SamplingParams.ignore_eos (Req.sampling_params r2) && pc_disable (tree_cache a') = false →
       Req.host_hit_length r2 = 0 → SamplingParams.max_new_tokens (Req.sampling_params r2) = Some m2 → 0 ≤ m2 →
       0 < Req.extend_input_len r2 → len (Req.fill_ids r2) = len (Req.prefix_indices r2) + Req.extend_input_len r2 →
       ∃ res a'', add_one_req r2 hc a' = Ok (res, r2, a'') ∧ res ≠ CONTINUE ∧ refused a' v L a'').
Proof.
  intros Hp Hps Hq Hm Hq0 He Hf.
  destruct (add_chunked_req_ok a r m q) as (o & r' & a' & E & Eo & Er & Ee & _ & _ & _ & Eq); try done; [lia|].
  exists o, r', a'. split_and!; [done..| |]; subst o; case_decide as Hd.
  - by split; eauto.
  - split; [by intros [? [=]]|lia].
  - intros _. split; [done|]. intros k v L mixed r2 m2 hc O Hn Hig Hh Hm2 Hm20 Hext Hfill.
    destruct (add_one_req_ok Hps a' k v L mixed r2 m2 hc O Hn Hig Hh Hm2 Hm20 Hext Hfill)
      as (res & r2' & a'' & E2 & [(Hc & -> & Rf)|(_ & _ & Ad)]); [by eauto|].
    exfalso. destruct Ad as (_ & _ & Hpos & _ & _ & _ & Hb). destruct (Hb _ Eq) as [_ Hle].
    rewrite Ee, Z.min_r, Hp in Hle by lia.
    pose proof (ceil_to_bounds (Z.of_nat ps) ltac:(lia) q).
    pose proof (ceil_to_bounds (Z.of_nat ps) ltac:(lia) (Req.extend_input_len r2')). lia.
  - by intros [? [=]].
Qed.

Lemma prefill_single_chunked_req_witness :
  ∃ r' a', add_chunked_req adder_req (with_run [] None (with_tree demo_cache (mk 2 demo_cache (PlainPool adder_pool)
      None (1#2)%Q 100 (Some 2) 0%Q 0 None [] None 0 0))) = Ok (Some r', r', a') ∧
    Req.extend_input_len r' = 2 ∧ rem_chunk_tokens a' = Some 0.
Proof.
  destruct (prefill_single_chunked_req 2 Paged.t RadixCache (H1 := radix_prefix_laws 2)
    (with_run [] None (with_tree demo_cache (mk 2 demo_cache (PlainPool adder_pool)
      None (1#2)%Q 100 (Some 2) 0%Q 0 None [] None 0 0))) adder_req 8 2)
    as (o & r' & a' & E & _ & He & Hs & Ho);
    [reflexivity|lia|reflexivity|reflexivity|lia|vm_compute; discriminate|reflexivity|].
  exists r', a'. assert (is_Some o) as Hi by (apply Hs; vm_compute; reflexivity).
  destruct (Ho Hi) as [-> _]. split; [exact E|]. split; [exact He|].
  apply (f_equal (fun x => match x with Ok (_, _, b) => rem_chunk_tokens b | Raise _ => None end)) in E.
  symmetry. exact E.
Defined.

(** [add_req_state] with [insert_sort] does not keep [req_states]
    sorted: a request with more tokens left than all others is inserted
    before the last one instead of after it, so the simulated decoding of
    [add_one_req_ignore_eos] then visits the requests out of order. *)
Theorem prefill_req_states_insert_unsorted (states : list (Q * Z)) (s : Q * Z) (tokens_left : Q) (occ : Z) :
  Forall (fun x => Qltb x.1 tokens_left = true) (states ++ [s]) →
  list_insert (insert_index tokens_left (states ++ [s])) (tokens_left, occ) (states ++ [s])
    = states ++ [(tokens_left, occ); s] ∧
  ¬ StronglySorted (fun x y => Qle_bool x.1 y.1 = true)
      (list_insert (insert_index tokens_left (states ++ [s])) (tokens_left, occ) (states ++ [s])).
Proof.
  intros Hall.
  assert (list_insert (insert_index tokens_left (states ++ [s])) (tokens_left, occ) (states ++ [s])
    = states ++ [(tokens_left, occ); s]) as E.
  { unfold insert_index. destruct (list_find _ _) as [[i x]|] eqn:Ef.
    - apply list_find_Some in Ef as (Hi & Hle & _). exfalso.
      pose proof (Forall_lookup_1 _ _ _ _ Hall Hi) as Hlt. unfold Qltb in Hlt. by rewrite Hle in Hlt.
    - unfold list_insert. rewrite length_app. simpl. replace (Nat.pred (length states + 1)) with (length states) by lia.
      by rewrite take_app_length, drop_app_length. }
  rewrite E. split; [done|]. intros Hs. apply StronglySorted_app_1_r in Hs.
  apply StronglySorted_inv in Hs as [_ Hs]. apply Forall_cons in Hs as [Hs _]. simpl in Hs.
  apply Forall_app in Hall as [_ Hall]. apply Forall_cons in Hall as [Hlt _].
  unfold Qltb in Hlt. by rewrite Hs in Hlt.
Qed.

Lemma prefill_req_states_insert_unsorted_witness :
  list_insert (insert_index 7 [(5%Q, 10)]) (7%Q, 3) [(5%Q, 10)] = [(7%Q, 3); (5%Q, 10)].
Proof.
  destruct (prefill_req_states_insert_unsorted [] (5%Q, 10) 7 3) as [E _]; [repeat constructor|exact E].
Defined.

(** A mixed batch over pages of four tokens: one decoding request takes one
    token of the chunk budget of eight. *)
Definition mixed_params : SamplingParams.t :=
  SamplingParams.mk (Some 2) StopNone [] 0 [] 1%Q 1%Q 1 0%Q 0%Q 0%Q 1%Q 0 1 None None None true None.

Definition mixed_req (n : Z) : Req.t :=
  Req.set_fill_ids (arange 0 n) (Req.set_extend_input_len n
    (Req.init "r" (arange 0 n) mixed_params false [] None [] 32000)).

Definition mixed_adder : pyres (t Paged.t unit) :=
  init 4 tt (PlainPool (Paged.init (fun _ => 0) 80 4 false true)) None 1%Q 100 (Some 8) 1.

(** with pages and mixed batches the budget left by an unfinished
    chunked request can be negative, and [add_one_req_ignore_eos] only checks
    it against zero: the next EOS-ignoring request is admitted with a negative
    [extend_input_len] and becomes a second chunked request. *)
Theorem prefill_ignore_eos_negative_chunk :
  ∃ a1 r1 a2 r2 a3 res,
    mixed_adder = Ok a1 ∧
    add_chunked_req (mixed_req 12) a1 = Ok (Some r1, r1, a2) ∧ rem_chunk_tokens a2 = Some (-1) ∧
    add_one_req (ps := 4) (mixed_req 6) true a2 = Ok (res, r2, a3) ∧
    Req.extend_input_len r2 = -1 ∧ new_chunked_req a3 = Some r2 ∧ len (can_run_list a3) = 2.
Proof.
  do 6 eexists. split; [vm_compute; reflexivity|]. split; [vm_compute; reflexivity|].
  split; [reflexivity|]. split; [vm_compute; reflexivity|]. split; [reflexivity|split; reflexivity].
Qed.
