(* ===== verification/ScheduleBatch.v ===== *)
(** * Batches ([ScheduleBatch] of [python/sglang/srt/managers/schedule_batch.py])

    A batch shares three objects with the rest of the scheduler: the request
    pool, the KV allocator and the prefix cache.  They are the fields of
    [memory], which every operation takes and returns.  The model covers the
    scheduling and memory side of text batches over a pool that is not hybrid:
    sampling state, multimodal inputs and encoder caches are left out.
    Tensors are lists; [clone] and device copies are the identity. *)

From Stdlib Require Import QArith.
From S2P Require Import Prelude Allocator PagedAllocator PagedProofs ReqPool SamplingParams Request KVAllocator RadixCache.
From S2P Require Import RadixInv RadixOwn RadixEvict RadixReq SchedulePolicy.
Open Scope Z_scope.

(** ** Allocators as batches use them *)

Class BatchAllocator (A : Type) := {
  ba_page_size : A → Z;
  ba_backup_state : A → list Z * list Z;
  ba_alloc : Z → A → pyres (option (list Z) * A);
  ba_alloc_extend : list Z → list Z → list Z → Z → A → pyres (option (list Z) * A);
  ba_alloc_decode : list Z → list Z → A → pyres (option (list Z) * A);
}.

#[export] Instance token_batch_allocator : BatchAllocator Base.t := {|
  ba_page_size := Base.page_size;
  ba_backup_state := Base.backup_state;
  ba_alloc n a := Ok (Token.alloc n a);
  ba_alloc_extend _ _ _ _ _ := Raise NotImplementedError;
  ba_alloc_decode _ _ _ := Raise NotImplementedError;
|}.

Definition paged_batch_allocator (garbage tl_other : Z → Z) : BatchAllocator Paged.t := {|
  ba_page_size := Paged.page_size;
  ba_backup_state p := Base.backup_state (Paged.base p);
  ba_alloc := Paged.alloc;
  ba_alloc_extend := Paged.alloc_extend garbage tl_other;
  ba_alloc_decode := Paged.alloc_decode garbage tl_other;
|}.

(** ** Indexed access to [req_to_token] *)

(** [t[i, j]]: negative indices count from the end, others raise. *)
Definition wrap_index (n i : Z) : pyres nat :=
  let j := if i <? 0 then i + n else i in
  if (0 <=? j) && (j <? n) then Ok (Z.to_nat j) else Raise IndexError.

Definition tensor_at (t : list (list Z)) (i j : Z) : pyres Z :=
  i ← wrap_index (len t) i;
  let r := t !!! i in
  j ← wrap_index (len r) j;
  mret (r !!! j).

(** [t[idx, pos]] with index tensors. *)
Fixpoint gather (t : list (list Z)) (idx pos : list Z) : pyres (list Z) :=
  match idx, pos with
  | i :: idx, j :: pos => x ← tensor_at t i j; l ← gather t idx pos; mret (x :: l)
  | [], [] => mret []
  | _, _ => Raise IndexError
  end.

Definition tensor_set (t : list (list Z)) (i j v : Z) : pyres (list (list Z)) :=
  i ← wrap_index (len t) i;
  let r := t !!! i in
  j ← wrap_index (len r) j;
  mret (<[i := <[j := v]> r]> t).

(** [t[idx, pos] = values] on the int32 tensor. *)
Fixpoint scatter (idx pos values : list Z) (t : list (list Z)) : pyres (list (list Z)) :=
  match idx, pos, values with
  | i :: idx, j :: pos, v :: values =>
      t ← tensor_set t i j (int32 v); scatter idx pos values t
  | [], [], [] => mret t
  | _, _, _ => Raise IndexError
  end.

Definition with_rows (rows : list (list Z)) (p : ReqPool.t) : ReqPool.t :=
  ReqPool.mk (ReqPool.size p) (ReqPool.max_context_len p) rows (ReqPool.free_slots p).

(** ** Kernels over [req_to_token]

    The tensor is contiguous: row [i], column [j] is at [i * stride + j]. *)

Definition flat_load (garbage : Z → Z) (stride : Z) (rows : list (list Z)) (addr : Z) : Z :=
  match rows !! Z.to_nat (addr / stride) ≫= (fun r => r !! Z.to_nat (addr mod stride)) with
  | Some v => if addr <? 0 then garbage addr else v
  | None => garbage addr
  end.

Definition flat_store (stride : Z) (rows : list (list Z)) (av : Z * Z) : list (list Z) :=
  if av.1 <? 0 then rows
  else alter (fun r => <[Z.to_nat (av.1 mod stride) := int32 av.2]> r) (Z.to_nat (av.1 / stride)) rows.

(** One program: the stores to [result] of its lanes below [num_tokens]. *)
Definition get_last_loc_kernel (garbage : Z → Z) (rows : list (list Z))
    (req_pool_indices_tensor prefix_lens_tensor : list Z)
    (num_tokens req_to_token_stride BLOCK_SIZE pid : Z) : list (Z * Z) :=
  (fun offset =>
     let prefix_lens := load garbage prefix_lens_tensor offset in
     let req_pool_indices := load garbage req_pool_indices_tensor offset in
     let token_index := req_pool_indices * req_to_token_stride + (prefix_lens - 1) in
     (offset, if 0 <? prefix_lens
              then flat_load garbage req_to_token_stride rows token_index else -1))
  <$> filter (fun offset => offset < num_tokens)
        ((fun lane => lane + pid * BLOCK_SIZE) <$> arange 0 BLOCK_SIZE).

Definition get_last_loc_triton (garbage : Z → Z) (p : ReqPool.t)
    (req_pool_indices_tensor prefix_lens_tensor : list Z) : list Z :=
  let BLOCK_SIZE := 256 in
  let num_tokens := len prefix_lens_tensor in
  run_stores (torch_empty garbage num_tokens)
    (concat (get_last_loc_kernel garbage (ReqPool.req_to_token p) req_pool_indices_tensor
               prefix_lens_tensor num_tokens (ReqPool.max_context_len p) BLOCK_SIZE
             <$> arange 0 (cdiv num_tokens BLOCK_SIZE))).

(** [torch.where] evaluates the gather for every request. *)
Definition get_last_loc_torch (p : ReqPool.t) (req_pool_indices_tensor prefix_lens_tensor : list Z)
    : pyres (list Z) :=
  vals ← gather (ReqPool.req_to_token p) req_pool_indices_tensor
           ((fun n => n - 1) <$> prefix_lens_tensor);
  mret (zip_with (fun n v => if 0 <? n then v else -1) prefix_lens_tensor vals).

(** One program: the stores to [req_to_token]. *)
Definition write_req_to_token_pool_triton (garbage : Z → Z)
    (req_pool_indices pre_lens seq_lens extend_lens out_cache_loc : list Z)
    (req_to_token_ptr_stride pid : Z) : list (Z * Z) :=
  let BLOCK_SIZE := 512 in
  let req_pool_index := load garbage req_pool_indices pid in
  let pre_len := load garbage pre_lens pid in
  let seq_len := load garbage seq_lens pid in
  let cumsum_start := zsum (load garbage extend_lens <$> arange 0 pid) in
  let num_loop := cdiv (seq_len - pre_len) BLOCK_SIZE in
  concat ((fun i =>
    (fun offset => (req_pool_index * req_to_token_ptr_stride + offset + pre_len,
                    load garbage out_cache_loc (cumsum_start + offset)))
    <$> filter (fun offset => offset < seq_len - pre_len)
          ((fun lane => lane + i * BLOCK_SIZE) <$> arange 0 BLOCK_SIZE))
    <$> arange 0 num_loop).

Definition write_req_to_token_pool (garbage : Z → Z)
    (req_pool_indices pre_lens seq_lens extend_lens out_cache_loc : list Z) (p : ReqPool.t) : ReqPool.t :=
  with_rows (foldl (flat_store (ReqPool.max_context_len p)) (ReqPool.req_to_token p)
    (concat (write_req_to_token_pool_triton garbage req_pool_indices pre_lens seq_lens
               extend_lens out_cache_loc (ReqPool.max_context_len p)
             <$> arange 0 (len req_pool_indices)))) p.

(** The loop used without Triton. *)
Fixpoint write_loop (req_pool_indices prefix_lens seq_lens extend_lens out_cache_loc : list Z)
    (pt : Z) (p : ReqPool.t) : pyres ReqPool.t :=
  match req_pool_indices, prefix_lens, seq_lens, extend_lens with
  | i :: idx, a :: pres, b :: seqs, e :: exts =>
      p ← ReqPool.write i a b (out_cache_loc.[pt :: pt + e]) p;
      write_loop idx pres seqs exts out_cache_loc (pt + e) p
  | _, _, _, _ => mret p
  end.

(** ** Batches *)

(** [tree_cache]: absent, a chunk cache, or a radix cache. *)
Inductive tree :=
  | NoTree
  | ChunkTree
  | RadixTree (c : RadixCache).

Record memory (A : Type) := mkMemory {
  req_to_token_pool : ReqPool.t;
  token_to_kv_pool_allocator : A;
  tree_cache : tree;
}.
Arguments mkMemory {A} _ _ _.
Arguments req_to_token_pool {A} _.
Arguments token_to_kv_pool_allocator {A} _.
Arguments tree_cache {A} _.

Inductive ForwardMode := EXTEND | DECODE | MIXED | IDLE | SPLIT_PREFILL.

Record ScheduleBatch := mkBatch {
  reqs : list Req.t;
  forward_mode : option ForwardMode;
  enable_overlap : bool;
  input_ids : list Z;
  req_pool_indices : list Z;
  seq_lens : list Z;
  orig_seq_lens : list Z;
  out_cache_loc : option (list Z);
  output_ids : option (list Z);
  seq_lens_sum : Z;
  return_logprob : bool;
  prefix_lens : list Z;
  extend_lens : list Z;
  extend_num_tokens : Z;
  extend_logprob_start_lens : list Z;
  extend_input_logprob_token_ids : option (list Z);
}.

Definition batch_size (b : ScheduleBatch) : Z := len (reqs b).
Definition is_empty (b : ScheduleBatch) : bool := len (reqs b) =? 0.

Definition with_reqs (rs : list Req.t) (b : ScheduleBatch) : ScheduleBatch :=
  mkBatch rs (forward_mode b) (enable_overlap b) (input_ids b) (req_pool_indices b) (seq_lens b)
    (orig_seq_lens b) (out_cache_loc b) (output_ids b) (seq_lens_sum b) (return_logprob b)
    (prefix_lens b) (extend_lens b) (extend_num_tokens b) (extend_logprob_start_lens b)
    (extend_input_logprob_token_ids b).

Section batch.
Context (hash : list Z → Z) `{HeapQ} (garbage : Z → Z).
Context {ps : nat} {A : Type} `{KVAllocator ps A} `{BatchAllocator A}.
Abbreviation memory := (memory A).
Implicit Types (m : memory).

Definition with_pool (p : ReqPool.t) m : memory :=
  mkMemory p (token_to_kv_pool_allocator m) (tree_cache m).
Definition with_allocator (a : A) m : memory :=
  mkMemory (req_to_token_pool m) a (tree_cache m).

(** *** Allocation *)

Definition alloc_req_slots (num_reqs : Z) m : pyres (list Z * memory) :=
  match ReqPool.alloc num_reqs (req_to_token_pool m) with
  | (None, _) => Raise RuntimeError
  | (Some idx, p) => mret (idx, with_pool p m)
  end.

Definition _evict_tree_cache_if_needed (num_tokens : Z) m : pyres memory :=
  match tree_cache m with
  | ChunkTree | NoTree => mret m
  | RadixTree c =>
      if kv_available (token_to_kv_pool_allocator m) <? num_tokens then
        '(c, a) ← evict hash num_tokens c (token_to_kv_pool_allocator m);
        mret (mkMemory (req_to_token_pool m) a (RadixTree c))
      else mret m
  end.

Definition _is_available_size_sufficient (num_tokens : Z) m : bool :=
  num_tokens <=? kv_available (token_to_kv_pool_allocator m).

(** The result of an allocation, with the state saved before it. *)
Definition finish_alloc (backup_state : bool) m (r : pyres (option (list Z) * A))
    : pyres (list Z * option (list Z * list Z) * memory) :=
  '(o, a) ← r;
  match o with
  | None => Raise RuntimeError
  | Some out_cache_loc =>
      mret (out_cache_loc,
            if backup_state then Some (ba_backup_state (token_to_kv_pool_allocator m)) else None,
            with_allocator a m)
  end.

Definition alloc_token_slots (num_tokens : Z) (backup_state : bool) m
    : pyres (list Z * option (list Z * list Z) * memory) :=
  m ← _evict_tree_cache_if_needed num_tokens m;
  finish_alloc backup_state m (ba_alloc num_tokens (token_to_kv_pool_allocator m)).

Definition alloc_paged_token_slots_extend (prefix_lens seq_lens last_loc : list Z)
    (extend_num_tokens : Z) (backup_state : bool) m
    : pyres (list Z * option (list Z * list Z) * memory) :=
  let num_tokens := extend_num_tokens
    + len seq_lens * ba_page_size (token_to_kv_pool_allocator m) in
  m ← _evict_tree_cache_if_needed num_tokens m;
  finish_alloc backup_state m
    (ba_alloc_extend prefix_lens seq_lens last_loc extend_num_tokens (token_to_kv_pool_allocator m)).

Definition alloc_paged_token_slots_decode (seq_lens last_loc : list Z) (backup_state : bool) m
    : pyres (list Z * option (list Z * list Z) * memory) :=
  let num_tokens := len seq_lens * ba_page_size (token_to_kv_pool_allocator m) in
  m ← _evict_tree_cache_if_needed num_tokens m;
  finish_alloc backup_state m (ba_alloc_decode seq_lens last_loc (token_to_kv_pool_allocator m)).

(** *** Prefill *)

Definition set_extend_logprob_start (pre_len : Z) (r : Req.t) : Req.t :=
  Req.set_extend_logprob_start_len
    (if pre_len <=? Req.logprob_start_len r
     then Z.min (Z.min (Req.logprob_start_len r - pre_len) (Req.extend_input_len r)) (Req.seqlen r - 1)
     else 0) r.

(** The ids whose log probabilities a prefill reports, padded with 0. *)
Definition input_logprob_token_ids (r : Req.t) : list Z :=
  let global_start_idx := Z.max (len (Req.prefix_indices r)) (Req.logprob_start_len r) in
  let global_end_idx := len (Req.fill_ids r) in
  let ids := (Req.origin_input_ids r).[global_start_idx + 1 :: global_end_idx + 1] in
  ids ++ replicate (Z.to_nat (Req.extend_input_len r - Req.extend_logprob_start_len r - len ids)) 0.

(** One round of the loop of [prepare_for_extend]. *)
Definition extend_one (idx : Z) (r : Req.t) (p : ReqPool.t) : pyres (Req.t * ReqPool.t) :=
  let seq_len := len (Req.fill_ids r) in
  let pre_len := len (Req.prefix_indices r) in
  let r := Req.set_req_pool_idx (Some idx) r in
  py_assert (seq_len - pre_len =? Req.extend_input_len r) ;;
  p ← (if 0 <? pre_len then ReqPool.write idx 0 pre_len (Req.prefix_indices r) p else mret p);
  let r := Req.set_cached_tokens (Req.cached_tokens r + (pre_len - Req.already_computed r)) r in
  let r := Req.set_is_retracted false (Req.set_already_computed seq_len r) in
  mret (set_extend_logprob_start pre_len r, p).

Fixpoint extend_loop (idxs : list Z) (rs : list Req.t) (p : ReqPool.t)
    : pyres (list Req.t * ReqPool.t) :=
  match idxs, rs with
  | idx :: idxs, r :: rs =>
      '(r, p) ← extend_one idx r p;
      '(rs, p) ← extend_loop idxs rs p;
      mret (r :: rs, p)
  | _, _ => mret ([], p)
  end.

(** [triton] is [support_triton(attention_backend)]; [last_loc_triton] is
    false for the ascend and torch_native backends. *)
Definition prepare_for_extend (triton last_loc_triton : bool) (b : ScheduleBatch) m
    : pyres (ScheduleBatch * memory) :=
  let bs := len (reqs b) in
  '(idxs, m) ← alloc_req_slots bs m;
  let input_ids := (fun r => (Req.fill_ids r).[len (Req.prefix_indices r) :]) <$> reqs b in
  let extend_num_tokens := zsum (len <$> input_ids) in
  let seq_lens := (fun r => len (Req.fill_ids r)) <$> reqs b in
  let orig_seq_lens :=
    (fun r => Z.max (len (Req.fill_ids r)) (len (Req.origin_input_ids r))) <$> reqs b in
  let prefix_lens := (fun r => len (Req.prefix_indices r)) <$> reqs b in
  let extend_lens := Req.extend_input_len <$> reqs b in
  '(rs, p) ← extend_loop idxs (reqs b) (req_to_token_pool m);
  let m := with_pool p m in
  let logprob_ids :=
    if return_logprob b then Some (rs ≫= input_logprob_token_ids) else None in
  '(out, _, m) ←
    (if ba_page_size (token_to_kv_pool_allocator m) =? 1
     then alloc_token_slots extend_num_tokens false m
     else
       last_loc ← (if last_loc_triton
                   then mret (get_last_loc_triton garbage (req_to_token_pool m) idxs prefix_lens)
                   else get_last_loc_torch (req_to_token_pool m) idxs prefix_lens);
       alloc_paged_token_slots_extend prefix_lens seq_lens last_loc extend_num_tokens false m);
  p ← (if triton
       then mret (write_req_to_token_pool garbage idxs prefix_lens seq_lens
                    (zip_with Z.sub seq_lens prefix_lens) out (req_to_token_pool m))
       else write_loop idxs prefix_lens seq_lens extend_lens out 0 (req_to_token_pool m));
  mret (mkBatch rs (Some EXTEND) (enable_overlap b) (concat input_ids) idxs seq_lens orig_seq_lens
          (Some out) (output_ids b) (zsum seq_lens) (return_logprob b) prefix_lens extend_lens
          extend_num_tokens (Req.extend_logprob_start_len <$> rs) logprob_ids,
        with_pool p m).

Definition set_forward_mode (f : ForwardMode) (b : ScheduleBatch) : ScheduleBatch :=
  mkBatch (reqs b) (Some f) (enable_overlap b) (input_ids b) (req_pool_indices b) (seq_lens b)
    (orig_seq_lens b) (out_cache_loc b) (output_ids b) (seq_lens_sum b) (return_logprob b)
    (prefix_lens b) (extend_lens b) (extend_num_tokens b) (extend_logprob_start_lens b)
    (extend_input_logprob_token_ids b).

Definition prepare_for_split_prefill (triton last_loc_triton : bool) (b : ScheduleBatch) m
    : pyres (ScheduleBatch * memory) :=
  '(b, m) ← prepare_for_extend triton last_loc_triton b m;
  mret (set_forward_mode SPLIT_PREFILL b, m).

(** *** Filtering and merging *)

(** [t[keep_indices]] and [[l[i] for i in keep_indices]]. *)
Fixpoint select {X} (l : list X) (keep : list nat) : pyres (list X) :=
  match keep with
  | [] => mret []
  | i :: keep =>
      match l !! i with
      | Some x => xs ← select l keep; mret (x :: xs)
      | None => Raise IndexError
      end
  end.

(** [keep_indices] computed from the requests: a request is compared by
    identity with the excluded ones; [excluded] is the result. *)
Definition default_keep (excluded : Req.t → bool) (rs : list Req.t) : list nat :=
  (filter (fun ir : nat * Req.t => negb (Req.finished ir.2) && negb (excluded ir.2) = true)
     (zip (seq 0 (length rs)) rs)).*1.

Definition filter_batch (keep : list nat) (b : ScheduleBatch) : pyres ScheduleBatch :=
  match keep with
  | [] => mret (with_reqs [] b)
  | _ =>
      if (length keep =? length (reqs b))%nat then mret b else
      rs ← select (reqs b) keep;
      idx ← select (req_pool_indices b) keep;
      sl ← select (seq_lens b) keep;
      osl ← select (orig_seq_lens b) keep;
      out ← (match output_ids b with Some o => select o keep | None => Raise TypeError end);
      mret (mkBatch rs (forward_mode b) (enable_overlap b) (input_ids b) idx sl osl None (Some out)
              (zsum sl) (existsb Req.return_logprob rs) (prefix_lens b) (extend_lens b)
              (extend_num_tokens b) (extend_logprob_start_lens b) (extend_input_logprob_token_ids b))
  end.

Definition merge_batch (b other : ScheduleBatch) : pyres ScheduleBatch :=
  out ← (match output_ids b, output_ids other with
         | None, _ => mret None
         | Some o, Some o' => mret (Some (o ++ o'))
         | Some _, None => Raise TypeError
         end);
  mret (mkBatch (reqs b ++ reqs other) (forward_mode b) (enable_overlap b) (input_ids b)
    (req_pool_indices b ++ req_pool_indices other) (seq_lens b ++ seq_lens other)
    (orig_seq_lens b ++ orig_seq_lens other) None out (seq_lens_sum b + seq_lens_sum other)
    (return_logprob b || return_logprob other) (prefix_lens b) (extend_lens b)
    (extend_num_tokens b) (extend_logprob_start_lens b) (extend_input_logprob_token_ids b)).

(** The running requests are updated in place before the merge. *)
Definition mix_with_running (b running : ScheduleBatch) : pyres ScheduleBatch :=
  let running_bs := batch_size running in
  let running := with_reqs ((fun r => Req.set_extend_input_len 1
    (Req.set_fill_ids (Req.origin_input_ids r ++ Req.output_ids r) r)) <$> reqs running) running in
  let input := input_ids b ++ input_ids running in
  out ← (match out_cache_loc b, out_cache_loc running with
         | Some o, Some o' => mret (o ++ o') | _, _ => Raise TypeError end);
  b ← merge_batch b running;
  let delta := if enable_overlap b then 0 else -1 in
  mret (mkBatch (reqs b) (Some MIXED) (enable_overlap b) input (req_pool_indices b) (seq_lens b)
    (orig_seq_lens b) (Some out) (output_ids b) (seq_lens_sum b) (return_logprob b)
    (prefix_lens b ++ ((fun r => len (Req.origin_input_ids r) + len (Req.output_ids r) + delta) <$> reqs running))
    (extend_lens b ++ replicate (Z.to_nat running_bs) 1)
    (extend_num_tokens b + running_bs)
    (extend_logprob_start_lens b ++ replicate (Z.to_nat running_bs) 0)
    (extend_input_logprob_token_ids b)).

(** *** Decoding *)

Definition new_page_count_next_decode (b : ScheduleBatch) m : Z :=
  let page_size := ba_page_size (token_to_kv_pool_allocator m) in
  if page_size =? 1 then len (reqs b) else
  zsum ((fun r => if (if enable_overlap b then Req.seqlen r else Req.seqlen r - 1) mod page_size =? 0
                  then 1 else 0) <$> reqs b).

Definition check_decode_mem (buf_multiplier : Z) (b : ScheduleBatch) m : pyres (bool * memory) :=
  let num_tokens := new_page_count_next_decode b m * buf_multiplier
    * ba_page_size (token_to_kv_pool_allocator m) in
  m ← _evict_tree_cache_if_needed num_tokens m;
  mret (_is_available_size_sufficient num_tokens m, m).

Definition prepare_for_idle (b : ScheduleBatch) : ScheduleBatch :=
  mkBatch (reqs b) (Some IDLE) (enable_overlap b) [] [] [] [] (Some []) (output_ids b) 0
    (return_logprob b) (prefix_lens b) (extend_lens b) 0 (extend_logprob_start_lens b)
    (extend_input_logprob_token_ids b).

(** [is_eagle]: speculative batches are prepared elsewhere. *)
Definition prepare_for_decode (is_eagle : bool) (b : ScheduleBatch) m : pyres (ScheduleBatch * memory) :=
  if is_eagle then mret (set_forward_mode DECODE b, m) else
  match output_ids b with
  | None => Raise AttributeError
  | Some input =>
      let bs := len (reqs b) in
      let locs := seq_lens b in
      let seq_lens := Z.add 1 <$> seq_lens b in
      '(out, _, m) ←
        (if ba_page_size (token_to_kv_pool_allocator m) =? 1
         then alloc_token_slots bs false m
         else
           last_loc ← gather (ReqPool.req_to_token (req_to_token_pool m)) (req_pool_indices b)
                        ((fun n => n - 2) <$> seq_lens);
           alloc_paged_token_slots_decode seq_lens last_loc false m);
      rows ← scatter (req_pool_indices b) locs out (ReqPool.req_to_token (req_to_token_pool m));
      mret (mkBatch (reqs b) (Some DECODE) (enable_overlap b) input (req_pool_indices b) seq_lens
              (Z.add 1 <$> orig_seq_lens b) (Some out) None (seq_lens_sum b + bs) (return_logprob b)
              (prefix_lens b) (extend_lens b) (extend_num_tokens b) (extend_logprob_start_lens b)
              (extend_input_logprob_token_ids b),
            with_pool (with_rows rows (req_to_token_pool m)) m)
  end.

(** *** Retraction *)

(** [global_config.retract_decode_steps] *)
Definition retract_decode_steps : Z := 20.

(** Speculative decoding: [topk], [num_steps], [num_draft_tokens]. *)
Definition get_required_tokens (spec : option (Z * Z * Z)) (num_reqs : Z) : Z :=
  num_reqs * retract_decode_steps +
  match spec with
  | Some (topk, num_steps, num_draft_tokens) =>
      num_reqs * topk * num_steps + num_reqs * num_draft_tokens
  | None => 0
  end.

(** The retraction order: longest output first, then shortest input; the
    last index is retracted first. *)
Definition retract_key (rs : list Req.t) (i : nat) : Z * Z :=
  match rs !! i with
  | Some r => (len (Req.output_ids r), - len (Req.origin_input_ids r))
  | None => (0, 0)
  end.

Definition retract_le (rs : list Req.t) (i j : nat) : bool :=
  let '(x1, x2) := retract_key rs i in
  let '(y1, y2) := retract_key rs j in
  (y1 <? x1) || ((y1 =? x1) && (y2 <=? x2)).

Definition retract_order (spec : option (Z * Z * Z)) (rs : list Req.t) : list nat :=
  match spec with
  | Some _ => seq 0 (length rs)
  | None => py_sort (retract_le rs) (seq 0 (length rs))
  end.

(** Give the memory of one request back; [sorted] are the indices kept. *)
Definition retract_one (page_size seq_len : Z) (r : Req.t) (kept : Z) m : pyres memory :=
  idx ← pool_row r;
  match tree_cache m with
  | ChunkTree =>
      a ← kv_free (ReqPool.read idx seq_len (req_to_token_pool m)) (token_to_kv_pool_allocator m);
      mret (mkMemory (ReqPool.free [idx] (req_to_token_pool m)) a ChunkTree)
  | NoTree => Raise AttributeError
  | RadixTree c =>
      let last_uncached_pos := len (Req.prefix_indices r) / page_size * page_size in
      a ← kv_free ((ReqPool.row idx (req_to_token_pool m)).[last_uncached_pos :: seq_len])
            (token_to_kv_pool_allocator m);
      let p := ReqPool.free [idx] (req_to_token_pool m) in
      node ← (match Req.last_node r with Some n => mret n | None => Raise AttributeError end);
      '(_, c) ← dec_lock_ref node c;
      _evict_tree_cache_if_needed (kept * retract_decode_steps) (mkMemory p a (RadixTree c))
  end.

(** The loop; [sorted] is in retraction order, last index first.  Every round
    removes an index, so [length sorted] rounds suffice. *)
Fixpoint retract_loop (fuel : nat) (spec : option (Z * Z * Z)) (page_size : Z) (b : ScheduleBatch)
    (first_iter : bool) (sorted : list nat) (retracted : list Req.t) m
    : pyres (list nat * list Req.t * memory) :=
  if (kv_available (token_to_kv_pool_allocator m) <? get_required_tokens spec (len sorted)) || first_iter then
    if len sorted =? 1 then
      py_assert (0 <? kv_available (token_to_kv_pool_allocator m)) ;;
      mret (sorted, retracted, m)
    else
      match fuel, last sorted with
      | O, _ => Raise OutOfFuel
      | _, None => Raise IndexError
      | S fuel, Some i =>
          let sorted := removelast sorted in
          match reqs b !! i, seq_lens b !! i with
          | Some r, Some seq_len =>
              m ← retract_one page_size seq_len r (len sorted) m;
              retract_loop fuel spec page_size b false sorted
                (retracted ++ [Req.reset_for_retract r]) m
          | _, _ => Raise IndexError
          end
      end
  else mret (sorted, retracted, m).

Definition sum_max_new_tokens (rs : list Req.t) : pyres Z :=
  foldr (fun r acc => x ← Req.get_max_new_tokens r; s ← acc; mret (x + s)) (mret 0) rs.

Definition retract_decode (spec : option (Z * Z * Z)) (page_size : Z) (b : ScheduleBatch) m
    : pyres (list Req.t * Q * ScheduleBatch * memory) :=
  let sorted := retract_order spec (reqs b) in
  '(sorted, retracted, m) ← retract_loop (length sorted) spec page_size b true sorted [] m;
  b ← filter_batch sorted b;
  let total_decoded_tokens := zsum ((fun r => len (Req.output_ids r)) <$> reqs b) in
  total_max_new_tokens ← sum_max_new_tokens (reqs b);
  if total_max_new_tokens =? 0 then Raise ZeroDivisionError else
  let ratio := (inject_Z (total_decoded_tokens + retract_decode_steps * len (reqs b))
                / inject_Z total_max_new_tokens)%Q in
  mret (retracted, if Qle_bool 1 ratio then 1%Q else ratio, b, m).

End batch.
