(* ===== verification/TreeCache.v ===== *)
(** * Prefix matching behind the cache interface

    [PrefixMatch] is [match_prefix] of [BasePrefixCache]; [PrefixMatchLaws]
    states what the scheduler relies on when it interleaves matching with
    admission: the locks and the evictable size stay as they are, the nodes
    known before keep their paths, and the cache owns the same pages.  The
    scheduler's cache is a [tree]; the instances below dispatch on it. *)

From S2P Require Import Prelude Allocator SWAAllocator PagedAllocator PagedProofs ReqPool Request KVAllocator.
From S2P Require Import RadixCache RadixInv RadixOwn RadixSplit RadixMatch RadixInsert RadixLocks ChunkCache PrefixCache ScheduleBatch.

Class PrefixMatch (C : Type) :=
  pc_match_prefix : list Z → C → pyres (list Z * option nat * option nat * Z * C).

(** [pc_path v n l]: in the view [v] the path to the node [n] is [l], tokens
    with their slots; [pc_chunks v] are the pages the cache owns.  A match
    returns the slots of a path whose tokens are a prefix of the key. *)
Class PrefixMatchLaws (ps : nat) (C : Type) `{PrefixCacheLaws ps C} `{PrefixMatch C} := {
  pc_on : pc_view → bool;
  pc_path : pc_view → option nat → path → Prop;
  pc_chunks : pc_view → list (list Z);
  pc_on_ok : ∀ c v H, pc_ok c v H → pc_disable c = negb (pc_on v);
  pc_path_node : ∀ v n l, pc_path v n l → pc_node v n;
  pc_match_ok : ∀ c v H key, pc_ok c v H → ∃ p n hn c' v',
    pc_match_prefix key c = Ok (p.*2, n, hn, 0, c') ∧ pc_ok c' v' H ∧ pc_on v' = pc_on v ∧
    pc_path v' n p ∧ (∀ m l, pc_path v m l → pc_path v' m l) ∧
    (∀ m l, pc_path v' m l → ∃ m0 l0, pc_path v m0 l0 ∧ l `prefix_of` l0) ∧ pc_chunks v' ≡ₚ pc_chunks v ∧
    pc_evictable_size c' = pc_evictable_size c ∧ p.*1 `prefix_of` key ∧ (Z.of_nat ps | len p);
}.

(** ** The chunk cache *)

#[export] Instance chunk_match : PrefixMatch unit := fun key c => Ok (ChunkCache.match_prefix key, c).

#[export] Program Instance chunk_match_laws (ps : nat) : PrefixMatchLaws ps unit := {|
  pc_on _ := false;
  pc_path _ _ l := l = [];
  pc_chunks _ := [];
|}.
Next Obligation. done. Qed.
Next Obligation. done. Qed.
Next Obligation.
  intros ps c v H key _. exists [], None, None, c, tt.
  split_and!; try done; [eauto|apply prefix_nil|apply Z.divide_0_r].
Qed.

(** ** The radix cache *)

Section radix.
Context (hash : list Z → Z) (clock : nat → Z).

Definition radix_match : PrefixMatch RadixCache := fun key c =>
  '(m, c) ← match_prefix hash clock key c;
  mret (device_indices m, Some (last_device_node m), Some (last_host_node m), host_hit_length m, c).

Definition radix_path (v : option (gmap nat path * RadixCache)) (n : option nat) (l : path) : Prop :=
  match v with
  | None => l = []
  | Some (G, _) => ∃ m, n = Some m ∧ G !! m = Some l
  end.

Definition radix_chunks (v : option (gmap nat path * RadixCache)) : list (list Z) :=
  match v with None => [] | Some (G, c0) => tree_chunks c0 G end.

Lemma radix_match_root ps c (v : option (gmap nat path * RadixCache)) L :
  radix_ok ps c v L → radix_path v (Some (root_node c)) [].
Proof.
  destruct v as [[G c0]|]; simpl; [|done]. intros (H' & _ & _ & _ & R & _).
  eexists. split; [done|]. apply (r_root _ _ _ R).
Qed.

Lemma radix_match_ok ps c v L key : radix_ok ps c v L → ∃ p n hn c' v',
  radix_match key c = Ok (p.*2, n, hn, 0, c') ∧ radix_ok ps c' v' L ∧ (is_Some v' ↔ is_Some v) ∧
  radix_path v' n p ∧ (∀ m l, radix_path v m l → radix_path v' m l) ∧
  (∀ m l, radix_path v' m l → ∃ m0 l0, radix_path v m0 l0 ∧ l `prefix_of` l0) ∧ radix_chunks v' ≡ₚ radix_chunks v ∧
  evictable_size c' = evictable_size c ∧ p.*1 `prefix_of` key ∧ (Z.of_nat ps | len p).
Proof.
  intros O. destruct (decide (disable c = true ∨ key = [])) as [Hk|Hk].
  { exists [], (Some (root_node c)), (Some (root_node c)), c, v. unfold radix_match, match_prefix.
    assert (disable c || bool_decide (key = []) = true) as ->.
    { destruct Hk as [-> | ->]; [done|]. rewrite bool_decide_true by done. apply orb_true_r. }
    split_and!; try done; [by eapply radix_match_root|eauto|apply prefix_nil|apply Z.divide_0_r]. }
  destruct v as [[G c0]|]; simpl in O; [|naive_solver].
  destruct O as (H' & -> & Hd & Hp & R & U).
  destruct (match_prefix_ok hash clock H' c G key R Hd ltac:(naive_solver))
    as (r & c' & G' & lw & E & R' & Rf & HL & Ei & En & Eh & E0).
  exists lw. eexists _, _, c', (Some (G', c')). unfold radix_match. rewrite E. simpl. rewrite E0, Ei.
  split; [done|]. destruct Rf as [F1 F2 F3 F4 F5 F6 F7 F8]. split_and!.
  - exists H'. split_and!; try done; congruence.
  - split; eauto.
  - eauto.
  - intros m l (m' & -> & Hm). exists m'. split; [done|]. by eapply lookup_weaken.
  - intros m l (m' & -> & Hm).
    destruct (proj1 (F7 l)) as (n0 & l0 & Hn0 & Hp0); [by exists m', l|].
    exists (Some n0), l0. split; [by exists n0|done].
  - by rewrite F8, (upto_chunks _ _ _ U).
  - unfold evictable_size. congruence.
  - destruct HL as [_ HP _ _]. etrans; [exact HP|apply prefix_take].
  - destruct HL as [_ _ HA _]. unfold len. rewrite Hp in HA.
    apply Nat.Div0.mod_divides in HA as [q ->]. exists (Z.of_nat q). lia.
Qed.

End radix.

(** ** The scheduler's cache *)

#[export] Instance tree_prefix_cache : PrefixCache tree := {|
  pc_disable t := match t with RadixTree c => pc_disable c | _ => true end;
  pc_evictable_size t := match t with RadixTree c => pc_evictable_size c | _ => 0 end;
  pc_full_evictable_size t := 0;
  pc_swa_evictable_size t := 0;
  pc_inc_lock_ref n t :=
    match t with
    | NoTree => Raise AttributeError
    | ChunkTree => '(u, _) ← pc_inc_lock_ref n tt; mret (u, ChunkTree)
    | RadixTree c => '(u, c) ← pc_inc_lock_ref n c; mret (u, RadixTree c)
    end;
  pc_dec_lock_ref n t :=
    match t with
    | NoTree => Raise AttributeError
    | ChunkTree => _ ← pc_dec_lock_ref n tt; mret ChunkTree
    | RadixTree c => c ← pc_dec_lock_ref n c; mret (RadixTree c)
    end;
  pc_dec_lock_ref_uuid n u t :=
    match t with
    | NoTree => Raise AttributeError
    | ChunkTree => _ ← pc_dec_lock_ref_uuid n u tt; mret ChunkTree
    | RadixTree c => c ← pc_dec_lock_ref_uuid n u c; mret (RadixTree c)
    end;
  pc_init_load_back n k t :=
    match t with
    | NoTree => Raise AttributeError
    | _ => Raise NotImplementedError
    end;
|}.

(** [None] is the view of a chunk cache. *)
Definition tree_ok (ps : nat) (t : tree) (v : option (option (gmap nat path * RadixCache)))
    (L : list (option nat)) : Prop :=
  match t, v with
  | ChunkTree, None => True
  | RadixTree c, Some v => radix_ok ps c v L
  | _, _ => False
  end.

Definition tree_node (v : option (option (gmap nat path * RadixCache))) (n : option nat) : Prop :=
  match v with None => True | Some v => radix_in v n end.

#[export] Program Instance tree_prefix_laws (ps : nat) : PrefixCacheLaws ps tree := {|
  pc_view := option (option (gmap nat path * RadixCache));
  pc_ok := tree_ok ps;
  pc_node := tree_node;
|}.
Next Obligation.
  intros ps [| |c] [v|] L O; try done; simpl in *; [split; [apply Z.divide_0_r|done]|].
  by eapply (pc_size_aligned (PrefixCacheLaws := radix_prefix_laws ps)).
Qed.
Next Obligation.
  intros ps [| |c] [| |c'] [v|] L L' O O' Hs; try done; simpl in *.
  by eapply (pc_size_locks (PrefixCacheLaws := radix_prefix_laws ps)).
Qed.
Next Obligation.
  intros ps [| |c] [v|] L n O Hn; try done; [by eexists _, _|].
  destruct (pc_inc_ok (PrefixCacheLaws := radix_prefix_laws ps) c v L n O Hn) as (u & c' & E & O' & Hd).
  exists u, (RadixTree c'). cbn [pc_inc_lock_ref tree_prefix_cache]. rewrite E. done.
Qed.
Next Obligation.
  intros ps [| |c] [v|] L n O Hn; try done; [by eexists|].
  destruct (pc_dec_ok (PrefixCacheLaws := radix_prefix_laws ps) c v L n O Hn) as (c' & E & O' & Hd).
  exists (RadixTree c'). cbn [pc_dec_lock_ref tree_prefix_cache]. rewrite E. done.
Qed.

Definition tree_on (v : option (option (gmap nat path * RadixCache))) : bool :=
  match v with Some (Some _) => true | _ => false end.

Definition tree_path (v : option (option (gmap nat path * RadixCache))) (n : option nat) (l : path) : Prop :=
  match v with None => l = [] | Some v => radix_path v n l end.

Definition tree_pages (v : option (option (gmap nat path * RadixCache))) : list (list Z) :=
  match v with None => [] | Some v => radix_chunks v end.

Section tree.
Context (hash : list Z → Z) (clock : nat → Z).

Definition tree_match : PrefixMatch tree := fun key t =>
  match t with
  | NoTree => Raise AttributeError
  | ChunkTree => Ok (ChunkCache.match_prefix key, ChunkTree)
  | RadixTree c => '(r, c) ← radix_match hash clock key c; mret (r, RadixTree c)
  end.

Program Definition tree_match_laws (ps : nat) : PrefixMatchLaws ps tree (H1 := tree_match) := {|
  pc_on := tree_on;
  pc_path := tree_path;
  pc_chunks := tree_pages;
|}.
Next Obligation.
  intros ps [| |c] [[[G c0]|]|] L O; try done; simpl in *; [|by destruct O].
  by destruct O as (H' & _ & -> & _).
Qed.
Next Obligation.
  intros ps [[[G c0]|]|] n l O; try done. destruct O as (m & -> & Hm). exists m. eauto.
Qed.
Next Obligation.
  intros ps [| |c] [v|] L key O; try done.
  - exists [], None, None, ChunkTree, None. split_and!; try done; [eauto|apply prefix_nil|apply Z.divide_0_r].
  - destruct (radix_match_ok hash clock ps c v L key O) as (idx & n & hn & c' & v' & E & O' & Hs & Hrest).
    exists idx, n, hn, (RadixTree c'), (Some v'). unfold pc_match_prefix, tree_match. rewrite E.
    split; [done|]. split; [done|]. split; [|done].
    destruct v as [[??]|], v' as [[??]|]; try done; exfalso; destruct Hs as [H1 H2].
    + by destruct H2.
    + by destruct H1.
Qed.

End tree.
