(* ===== verification/Scheduler.v ===== *)
(** * The scheduler ([python/sglang/srt/managers/scheduler.py])

    How the next batch is chosen: admission of waiting requests into a
    prefill batch, the decoding batch with retraction, and merging.  The
    model covers a single pipeline stage without hierarchical cache,
    disaggregation and data-parallel attention; grammars are ready.

    Python compares requests by identity; the model compares their ids.  A
    request object is updated in place by the operations; the model keeps its
    current value where the code will look for it next: in the waiting queue,
    in the running batch, or in the last batch. *)

From Stdlib Require Import QArith.
From S2P Require Import Prelude Allocator PagedAllocator PagedProofs SWAAllocator ReqPool SamplingParams Request KVAllocator RadixCache.
From S2P Require Import RadixInv RadixOwn RadixEvict RadixReq ChunkCache SchedulePolicy PrefixCache PrefillAdder ScheduleBatch TreeCache.
Open Scope Z_scope.

(** The settings read by the scheduling code. *)
Record Config := mkConfig {
  cfg_page_size : Z;
  max_micro_batch_size : Z;
  pp_size : Z;
  max_prefill_tokens : Z;
  chunked_prefill_size : option Z;
  is_mixed_chunk : bool;
  cfg_enable_overlap : bool;
  enable_lora : bool;
  can_run_lora_batch : list (option string) → bool;
  policy : Policy;
  init_new_token_ratio : Q;
  min_new_token_ratio : Q;
  new_token_ratio_decay : Q;
  decode_mem_cache_buf_multiplier : Z;
  max_total_num_tokens : Z;
  spec_algorithm : option (Z * Z * Z);
  support_triton : bool;
  last_loc_by_triton : bool;
}.

(** A batch with the fields that only the scheduler uses; [chunked_of] is
    [batch.chunked_req]. *)
Record Batch := mkSBatch {
  sb : ScheduleBatch;
  batch_is_full : bool;
  is_prefill_only : bool;
  chunked_of : option string;
  decoding_reqs : option (list Req.t);
}.

Definition empty_batch (full : bool) : Batch :=
  mkSBatch (mkBatch [] None false [] [] [] [] None None 0 false [] [] 0 [] None) full false None None.

Definition with_sb (b : ScheduleBatch) (B : Batch) : Batch :=
  mkSBatch b (batch_is_full B) (is_prefill_only B) (chunked_of B) (decoding_reqs B).
Definition set_full (full : bool) (B : Batch) : Batch :=
  mkSBatch (sb B) full (is_prefill_only B) (chunked_of B) (decoding_reqs B).
Definition set_decoding_reqs (rs : option (list Req.t)) (B : Batch) : Batch :=
  mkSBatch (sb B) (batch_is_full B) (is_prefill_only B) (chunked_of B) rs.

(** [ScheduleBatch.init_new] *)
Definition init_new (reqs : list Req.t) (enable_overlap : bool) (chunked_req : option Req.t) : Batch :=
  mkSBatch
    (mkBatch reqs None enable_overlap [] [] [] [] None None 0 (existsb Req.return_logprob reqs) [] [] 0 [] None)
    false
    (forallb (fun r => bool_decide (SamplingParams.max_new_tokens (Req.sampling_params r) = Some 0)) reqs)
    (Req.rid <$> chunked_req) None.

(** [forward_mode.is_extend()] *)
Definition is_extend (b : ScheduleBatch) : bool :=
  match forward_mode b with Some EXTEND | Some MIXED => true | _ => false end.

Record AbortReq := mkAbort { abort_rid : string; abort_all : bool }.

Section scheduler.
Context (hash : list Z → Z) (clock : nat → Z) (garbage : Z → Z) `{HeapQ}.
Context (torch_garbage : nat → list Z) (shuffle : list Req.t → list Req.t).
Context {ps : nat} {A : Type} `{KVAllocator ps A} `{BatchAllocator A}.
Context (cfg : Config).
#[local] Instance sched_match : PrefixMatch tree := tree_match hash clock.

(** [aborts] are the aborts of the current iteration that the scheduler itself
    has caused, with the ids each has reported to the tokenizer. *)
Record Scheduler := mkScheduler {
  mem : memory A;
  waiting_queue : list Req.t;
  running_batch : Batch;
  last_batch : option Batch;
  chunked_req : option Req.t;
  new_token_ratio : Q;
  total_retracted_reqs : Z;
  waiting_queue_radix_tree : RadixCache;
  aborts : list (AbortReq * list string);
}.

Implicit Types (s : Scheduler).

Definition with_mem (m : memory A) s : Scheduler :=
  mkScheduler m (waiting_queue s) (running_batch s) (last_batch s) (chunked_req s) (new_token_ratio s)
    (total_retracted_reqs s) (waiting_queue_radix_tree s) (aborts s).
Definition with_queue (q : list Req.t) s : Scheduler :=
  mkScheduler (mem s) q (running_batch s) (last_batch s) (chunked_req s) (new_token_ratio s)
    (total_retracted_reqs s) (waiting_queue_radix_tree s) (aborts s).
Definition with_running (B : Batch) s : Scheduler :=
  mkScheduler (mem s) (waiting_queue s) B (last_batch s) (chunked_req s) (new_token_ratio s)
    (total_retracted_reqs s) (waiting_queue_radix_tree s) (aborts s).
Definition with_last (B : option Batch) s : Scheduler :=
  mkScheduler (mem s) (waiting_queue s) (running_batch s) B (chunked_req s) (new_token_ratio s)
    (total_retracted_reqs s) (waiting_queue_radix_tree s) (aborts s).
Definition with_chunked (r : option Req.t) s : Scheduler :=
  mkScheduler (mem s) (waiting_queue s) (running_batch s) (last_batch s) r (new_token_ratio s)
    (total_retracted_reqs s) (waiting_queue_radix_tree s) (aborts s).
Definition with_ratio (q : Q) s : Scheduler :=
  mkScheduler (mem s) (waiting_queue s) (running_batch s) (last_batch s) (chunked_req s) q
    (total_retracted_reqs s) (waiting_queue_radix_tree s) (aborts s).
Definition with_retracted (n : Z) s : Scheduler :=
  mkScheduler (mem s) (waiting_queue s) (running_batch s) (last_batch s) (chunked_req s) (new_token_ratio s)
    n (waiting_queue_radix_tree s) (aborts s).
Definition with_wq_tree (t : RadixCache) s : Scheduler :=
  mkScheduler (mem s) (waiting_queue s) (running_batch s) (last_batch s) (chunked_req s) (new_token_ratio s)
    (total_retracted_reqs s) t (aborts s).
Definition with_aborts (l : list (AbortReq * list string)) s : Scheduler :=
  mkScheduler (mem s) (waiting_queue s) (running_batch s) (last_batch s) (chunked_req s) (new_token_ratio s)
    (total_retracted_reqs s) (waiting_queue_radix_tree s) l.
Definition with_tree (t : tree) s : Scheduler :=
  with_mem (mkMemory (req_to_token_pool (mem s)) (token_to_kv_pool_allocator (mem s)) t) s.

(** ** Start-up *)

(** [chunked] is [server_args.chunked_prefill_size is not None]; without
    hierarchical cache, sliding window and LoRA. *)
Definition init_memory_pool_and_cache (chunked disable_radix_cache enable_kv_cache_events : bool)
    (pool : ReqPool.t) (allocator : A) : memory A :=
  mkMemory pool allocator
    (if chunked && disable_radix_cache then ChunkTree
     else RadixTree (init_RadixCache clock ps disable_radix_cache enable_kv_cache_events)).

(** The running status that [__init__] sets. *)
Definition init_running_status (m : memory A) : Scheduler :=
  mkScheduler m [] (empty_batch false) None None (init_new_token_ratio cfg) 0 (init_RadixCache clock 1 false false) [].

(** ** Prefill *)

Definition get_num_allocatable_reqs (running_bs : Z) s : Z :=
  let res := max_micro_batch_size cfg - running_bs in
  if 1 <? pp_size cfg then Z.min res (ReqPool.available_size (req_to_token_pool (mem s))) else res.

(** Cache-aware policies are only used with a radix cache
    ([_validate_and_adjust_policy]). *)
Definition calc_priority_step s : pyres Scheduler :=
  match tree_cache (mem s), policy cfg with
  | RadixTree c, p =>
      '(_, q, c, wq) ← SchedulePolicy.calc_priority hash clock torch_garbage shuffle p
                         (waiting_queue s) c (waiting_queue_radix_tree s);
      mret (with_tree (RadixTree c) (with_wq_tree wq (with_queue q s)))
  | _, inr p =>
      '(_, q, _, _) ← SchedulePolicy.calc_priority hash clock torch_garbage shuffle (inr p)
                        (waiting_queue s) (waiting_queue_radix_tree s) (waiting_queue_radix_tree s);
      mret (with_queue q s)
  | _, inl _ => Raise ValueError
  end.

(** The loop over the waiting queue.  It returns the queue with its updated
    requests, the adder, and [running_batch.batch_is_full]. *)
Fixpoint admit_loop (allocatable : Z) (lora_set : list (option string)) (has_chunked_req : bool)
    (queue : list Req.t) (adder : PrefillAdder.t A tree) (full : bool)
    : pyres (list Req.t * PrefillAdder.t A tree * bool) :=
  match queue with
  | [] => mret ([], adder, full)
  | req :: rest =>
      if enable_lora cfg && negb (can_run_lora_batch cfg
           (lora_set ++ (Req.lora_id <$> PrefillAdder.can_run_list adder) ++ [Req.lora_id req]))
      then mret (queue, adder, true) else
      if allocatable <=? len (PrefillAdder.can_run_list adder) then mret (queue, adder, true) else
      '(req, t) ← Req.init_next_round_input pc_match_prefix req (Some (PrefillAdder.tree_cache adder));
      let adder := PrefillAdder.with_tree (default (PrefillAdder.tree_cache adder) t) adder in
      '(res, req, adder) ← PrefillAdder.add_one_req req has_chunked_req adder;
      match res with
      | CONTINUE =>
          '(rest, adder, full) ← admit_loop allocatable lora_set has_chunked_req rest adder full;
          mret (req :: rest, adder, full)
      | NO_TOKEN => mret (req :: rest, adder, true)
      | OTHER => mret (req :: rest, adder, full)
      end
  end.

(** [x for x in self.waiting_queue if x not in set(can_run_list)] *)
Definition remove_admitted (queue can_run_list : list Req.t) : list Req.t :=
  filter (fun x => Req.rid x ∉ Req.rid <$> can_run_list) queue.

(** [self.chunked_req.is_chunked += 1], seen by the batch that holds it. *)
Definition bump_chunked (chunked : option Req.t) (rs : list Req.t) : list Req.t :=
  match chunked with
  | None => rs
  | Some c => (fun r => if decide (Req.rid r = Req.rid c)
                        then Req.set_is_chunked (Req.is_chunked r + 1) r else r) <$> rs
  end.

(** The object [c] as the requests [rs] hold it. *)
Definition object_in (rs : list Req.t) (c : Req.t) : Req.t :=
  default c (list_find (fun r => Req.rid r = Req.rid c) rs ≫= fun ir => Some ir.2).

(** The end of [get_new_batch_prefill]: a mixed batch takes the running
    requests along. *)
Definition mix_running (new_batch : Batch) s : pyres (Batch * Scheduler) :=
  let running := running_batch s in
  if is_mixed_chunk cfg && negb (is_empty (sb running))
     && negb (return_logprob (sb new_batch) || return_logprob (sb running)) then
    b ← filter_batch (default_keep (fun _ => false) (reqs (sb running))) (sb running);
    if is_empty b then
      mret (new_batch, with_running (empty_batch (batch_is_full running)) s)
    else
      '(b, m) ← prepare_for_decode hash (bool_decide (is_Some (spec_algorithm cfg))) b (mem s);
      nb ← mix_with_running (sb new_batch) b;
      let decoding := drop (length (reqs (sb new_batch))) (reqs nb) in
      mret (set_decoding_reqs (Some decoding) (with_sb nb new_batch),
            with_running (empty_batch (batch_is_full running)) (with_mem m s))
  else mret (set_decoding_reqs None new_batch, s).

(** "Create a new batch" *)
Definition start_prefill (can_run_list : list Req.t) (chunked : option Req.t) s : pyres (Batch * Scheduler) :=
  let new_batch := init_new (bump_chunked chunked can_run_list) (cfg_enable_overlap cfg) chunked in
  '(b, m) ← prepare_for_extend hash garbage (support_triton cfg) (last_loc_by_triton cfg)
              (sb new_batch) (mem s);
  let s := with_chunked (object_in (reqs b) <$> chunked) (with_mem m s) in
  mix_running (with_sb b new_batch) s.

Definition get_new_batch_prefill s : pyres (option Batch * Scheduler) :=
  let no_chunk := bool_decide (chunked_req s = None) in
  if (batch_is_full (running_batch s) || (len (waiting_queue s) =? 0)) && no_chunk then mret (None, s) else
  let running_bs := len (reqs (sb (running_batch s))) in
  let allocatable := get_num_allocatable_reqs running_bs s in
  if (allocatable <=? 0) && no_chunk
  then mret (None, with_running (set_full true (running_batch s)) s) else
  s ← calc_priority_step s;
  adder ← PrefillAdder.init (cfg_page_size cfg) (tree_cache (mem s))
            (PlainPool (token_to_kv_pool_allocator (mem s)))
            (Some (reqs (sb (running_batch s)))) (new_token_ratio s)
            (max_prefill_tokens cfg) (chunked_prefill_size cfg)
            (if is_mixed_chunk cfg then running_bs else 0);
  '(chunked, adder) ←
    (match chunked_req s with
     | Some r =>
         '(r, _) ← Req.init_next_round_input pc_match_prefix r None;
         '(o, _, adder) ← PrefillAdder.add_chunked_req r adder;
         mret (o, adder)
     | None => mret (None, adder)
     end);
  '(queue, adder, full) ←
    admit_loop allocatable (Req.lora_id <$> reqs (sb (running_batch s)))
      (bool_decide (is_Some chunked)) (waiting_queue s) adder (batch_is_full (running_batch s));
  let s := with_running (set_full full (running_batch s)) s in
  let s := with_tree (PrefillAdder.tree_cache adder) s in
  let can_run_list := PrefillAdder.can_run_list adder in
  match can_run_list with
  | [] => mret (None, with_chunked chunked (with_queue queue s))
  | _ =>
      let queue := remove_admitted queue can_run_list in
      chunked ← (match PrefillAdder.new_chunked_req adder with
                 | Some r => py_assert (bool_decide (chunked = None)) ;; mret (Some r)
                 | None => mret chunked
                 end);
      '(nb, s) ← start_prefill can_run_list chunked (with_queue queue s);
      mret (Some nb, s)
  end.

(** ** Decoding *)

(** Without disaggregation. *)
Definition _extend_requests_to_queue (rs : list Req.t) s : Scheduler :=
  with_queue (waiting_queue s ++ rs) s.

Definition Qmax (x y : Q) : Q := if Qle_bool x y then y else x.

(** [batch] is [self.running_batch]. *)
Definition update_running_batch (B : Batch) s : pyres (Batch * Scheduler) :=
  let initial_bs := batch_size (sb B) in
  b ← filter_batch (default_keep (fun _ => false) (reqs (sb B))) (sb B);
  if is_empty b then mret (set_full false (with_sb b B), s) else
  '(ok, m) ← check_decode_mem hash (decode_mem_cache_buf_multiplier cfg) b (mem s);
  let s := with_mem m s in
  '(b, s) ←
    (if ok : bool then
       mret (b, with_ratio (Qmax (new_token_ratio s - new_token_ratio_decay cfg) (min_new_token_ratio cfg)) s)
     else
       '(retracted, ratio, b, m) ← retract_decode hash (spec_algorithm cfg) (cfg_page_size cfg) b (mem s);
       let s := with_ratio ratio (with_mem m s) in
       let s := _extend_requests_to_queue retracted s in
       mret (b, with_retracted (total_retracted_reqs s + len retracted) s));
  let B := if batch_size b <? initial_bs then set_full false (with_sb b B) else with_sb b B in
  '(b, m) ← prepare_for_decode hash (bool_decide (is_Some (spec_algorithm cfg))) b (mem s);
  mret (with_sb b B, with_mem m s).

(** ** The next batch *)

(** [self.tree_cache.cache_unfinished_req(self.chunked_req, chunked=True)] and
    the release of its row. *)
Definition park_chunked (r : Req.t) s : pyres (Req.t * Scheduler) :=
  let m := mem s in
  idx ← pool_row r;
  match tree_cache m with
  | NoTree => Raise AttributeError
  | ChunkTree =>
      r ← ChunkCache.cache_unfinished_req r (req_to_token_pool m);
      mret (r, with_mem (mkMemory (ReqPool.free [idx] (req_to_token_pool m))
                           (token_to_kv_pool_allocator m) ChunkTree) s)
  | RadixTree c =>
      '(r, c, pool, a) ← cache_unfinished_req hash clock r c (req_to_token_pool m) (token_to_kv_pool_allocator m);
      mret (r, with_mem (mkMemory (ReqPool.free [idx] pool) a (RadixTree c)) s)
  end.

(** The last prefill batch joins the running batch, without its chunked
    request. *)
Definition merge_last (exclude : list string) (L : Batch) s : pyres Scheduler :=
  let last_bs := batch_size (sb L) in
  let exclude := exclude ++ option_list (chunked_of L) in
  b ← filter_batch (default_keep (fun r => bool_decide (Req.rid r ∈ exclude)) (reqs (sb L))) (sb L);
  let running := if batch_size b <? last_bs then set_full false (running_batch s) else running_batch s in
  let L := with_sb b L in
  let s := with_last (Some L) (with_running running s) in
  if negb (is_empty b) && negb (is_prefill_only L) then
    if is_empty (sb running) then mret (with_running L s)
    else
      rb ← merge_batch (sb running) b;
      mret (with_running (with_sb rb running) s)
  else mret s.

(** The chunked request is an object of the last batch. *)
Definition chunked_object s : option Req.t :=
  object_in (match last_batch s with Some L => reqs (sb L) | None => [] end) <$> chunked_req s.

Definition get_next_batch_to_run s : pyres (option Batch * Scheduler) :=
  '(exclude, s) ←
    (match chunked_object s with
     | Some r =>
         '(r, s) ← park_chunked r s;
         mret ([Req.rid r], with_chunked (Some r) s)
     | None => mret ([], s)
     end);
  s ← (match last_batch s with
       | Some L => if is_extend (sb L) then merge_last exclude L s else mret s
       | None => mret s
       end);
  '(new_batch, s) ← get_new_batch_prefill s;
  match new_batch with
  | Some B => mret (Some B, s)
  | None =>
      if is_empty (sb (running_batch s)) then mret (None, s) else
      '(B, s) ← update_running_batch (running_batch s) s;
      mret (if is_empty (sb B) then None else Some B, with_running B s)
  end.

(** ** Idle checks *)

(** [available_size + evictable_size] is compared with the pool size. *)
Definition check_memory s : pyres unit :=
  let available_size := kv_available (token_to_kv_pool_allocator (mem s)) in
  let evictable_size := pc_evictable_size (tree_cache (mem s)) in
  if negb (available_size + evictable_size =? max_total_num_tokens cfg) then Raise ValueError else
  let p := req_to_token_pool (mem s) in
  if negb (len (ReqPool.free_slots p) =? ReqPool.size p) then Raise ValueError else mret tt.

Definition get_load s : Z :=
  max_total_num_tokens cfg - kv_available (token_to_kv_pool_allocator (mem s))
    - pc_evictable_size (tree_cache (mem s))
  + zsum ((fun r => len (Req.origin_input_ids r)) <$> waiting_queue s).

End scheduler.
