(* ===== verification/AdmissionProofs.v ===== *)
(** * Admission from the waiting queue

    The loop of [get_new_batch_prefill] interleaves prefix matching, which
    splits nodes of the cache, with admission, which locks them. *)

From Stdlib Require Import QArith.
From S2P Require Import Prelude Allocator PagedAllocator PagedProofs SWAAllocator ReqPool SamplingParams Request KVAllocator.
From S2P Require Import RadixCache RadixInv RadixOwn RadixMatch SchedulePolicy SchedulePolicyProofs PrefixCache PrefillAdder PrefillAdderProofs.
From S2P Require Import ScheduleBatch TreeCache Scheduler.
Open Scope Z_scope.

Lemma same_request_trans r1 r2 r3 : same_request r1 r2 → same_request r2 r3 → same_request r1 r3.
Proof. unfold same_request. naive_solver congruence. Qed.

Lemma same_request_refl_all q : Forall2 same_request q q.
Proof. apply Forall_Forall2_diag, Forall_forall. done. Qed.

Section admission.
Context (hash : list Z → Z) (clock : nat → Z) {ps : nat} {A : Type} `{KVAllocator ps A} (cfg : Config).
Context (Hps : (0 < ps)%nat).
#[local] Instance adm_match : PrefixMatch tree := tree_match hash clock.
#[local] Instance adm_laws : PrefixMatchLaws ps tree := tree_match_laws hash clock ps.
Abbreviation adder := (PrefillAdder.t A tree).
Abbreviation view := (option (option (gmap nat path * RadixCache))).

(** Matching refines the view: known paths stay, the pages are the same. *)
Record grown (v v' : view) : Prop := mk_grown {
  gr_on : tree_on v' = tree_on v;
  gr_path : ∀ n l, tree_path v n l → tree_path v' n l;
  gr_back : ∀ n l, tree_path v' n l → ∃ n0 l0, tree_path v n0 l0 ∧ l `prefix_of` l0;
  gr_pages : tree_pages v' ≡ₚ tree_pages v;
}.

#[local] Instance grown_preorder : PreOrder grown.
Proof.
  split; [intros v; split; eauto|]. intros v1 v2 v3 [A1 A2 A3 A4] [B1 B2 B3 B4].
  split; [congruence|auto| |by rewrite B4].
  intros n l (n1 & l1 & H1 & P1)%B3. destruct (A3 n1 l1 H1) as (n0 & l0 & H0 & P0).
  exists n0, l0. split; [done|by etrans].
Qed.

(** A request in the queue. *)
Definition waiting (on : bool) (r : Req.t) : Prop :=
  (∃ m, SamplingParams.max_new_tokens (Req.sampling_params r) = Some m ∧ 0 ≤ m) ∧ 0 < Req.seqlen r ∧
  (SamplingParams.ignore_eos (Req.sampling_params r) = true → on = true).

(** A request with its cached prefix: whole pages of the path to its node,
    then a part of its tokens that is to be computed. *)
Record prefilled (v : view) (r : Req.t) : Prop := mk_prefilled {
  pf_path : ∃ p, tree_path v (Req.last_node r) p ∧ Req.prefix_indices r = p.*2 ∧ p.*1 `prefix_of` Req.fill_ids r;
  pf_aligned : (Z.of_nat ps | len (Req.prefix_indices r));
  pf_extend : 0 < Req.extend_input_len r;
  pf_fill : len (Req.fill_ids r) = len (Req.prefix_indices r) + Req.extend_input_len r;
  pf_tokens : Req.fill_ids r `prefix_of` Req.origin_input_ids r ++ Req.output_ids r;
}.

Lemma prefilled_grown v v' r : grown v v' → prefilled v r → prefilled v' r.
Proof. intros G [(p & P1 & ?) P2 P3 P4 P5]. split; try done. exists p. split; [by apply (gr_path _ _ G)|done]. Qed.

(** The prefix of a request is looked up again before it is admitted. *)
Lemma init_round_ok t v L r :
  tree_ok ps t v L → waiting (tree_on v) r →
  ∃ r' t' v', Req.init_next_round_input pc_match_prefix r (Some t) = Ok (r', Some t') ∧
    tree_ok ps t' v' L ∧ grown v v' ∧ pc_evictable_size t' = pc_evictable_size t ∧
    same_request r r' ∧ prefilled v' r' ∧ Req.host_hit_length r' = 0 ∧
    Req.fill_ids r' = Req.origin_input_ids r' ++ Req.output_ids r'.
Proof.
  intros O ((m & Hm & _) & Hpos & _). unfold Req.init_next_round_input. set (r0 := Req.set_fill_ids _ r).
  destruct (Req.adjust_max_prefix_ids_ok r0 m Hm Hpos) as (ids & r1 & E & -> & Hpre & Hlen).
  rewrite E. cbn [mbind pyres_bind].
  destruct (pc_match_ok (PrefixMatchLaws := adm_laws) t v L ids O) as (idx & n & hn & t' & v' & Em & O' & On & Hp & Hmono & Hback & Hch & Hev & Hl & Hal).
  rewrite Em. simpl. eexists _, t', v'. split; [done|]. split; [done|]. split; [by split|]. split; [done|].
  split; [done|]. split; [|done].
  split; simpl; try done; rewrite ?len_fmap, ?len_app; [|done| |lia].
  { exists idx. split; [done|]. split; [done|]. by etrans. }
  apply prefix_length in Hl. rewrite length_fmap in Hl. unfold len in Hlen |- *.
  unfold Req.seqlen, len in *. simpl in *. rewrite ?length_app, ?length_fmap in *. destruct (Req.return_logprob r); lia.
Qed.

Lemma adder_view (a : adder) k v v' L mixed t :
  adder_ok a k v L mixed → tree_ok ps t v' L →
  pc_evictable_size t = pc_evictable_size (PrefillAdder.tree_cache a) →
  adder_ok (PrefillAdder.with_tree t a) k v' L mixed.
Proof.
  intros [O1 O2 O3 O4 O5 O6 O7 O8] Ot E. split; try done. revert O8. unfold PrefillAdder.cur_rem_tokens.
  rewrite !(available_tree _ k) by done. cbn [PrefillAdder.tree_cache PrefillAdder.with_tree PrefillAdder.cur_rem_token_offset]. by rewrite E.
Qed.

Lemma prefilled_admitted v r r' n :
  prefilled v r → 0 < Req.extend_input_len r' ≤ Req.extend_input_len r →
  r' = Req.set_fill_ids (Req.fill_ids r') (Req.set_extend_input_len (Req.extend_input_len r') r) →
  Req.fill_ids r' = take n (Req.fill_ids r) →
  n = Z.to_nat (len (Req.prefix_indices r) + Req.extend_input_len r') →
  prefilled v r' ∧ same_request r r' ∧ Req.last_node r' = Req.last_node r.
Proof.
  intros [(p & P1 & Pi & Pk) P2 P3 P4 P5] He Er Hf ->.
  assert (p.*1 `prefix_of` Req.fill_ids r') as Hk.
  { destruct Pk as [k Hk]. rewrite Hf, Hk, take_app_ge; [by eexists|].
    rewrite Pi, length_fmap. unfold len. rewrite length_fmap. lia. }
  assert (len (Req.fill_ids r') = len (Req.prefix_indices r) + Req.extend_input_len r') as Hl.
  { rewrite Hf, len_take. pose proof (len_nonneg (Req.prefix_indices r)). lia. }
  assert (Req.fill_ids r' `prefix_of` Req.origin_input_ids r ++ Req.output_ids r) as Hp.
  { etrans; [|exact P5]. rewrite Hf. apply prefix_take. }
  revert Hl Hp He Hk. rewrite Er. clear Er Hf. simpl. intros Hl Hp He Hk.
  split; [|done]. split; simpl; [by exists p|done || lia..].
Qed.

(** *** One request *)

Definition step_req (has_chunked_req : bool) (req : Req.t) (a : adder)
    : pyres (AddReqResult * Req.t * adder) :=
  '(req, t) ← Req.init_next_round_input pc_match_prefix req (Some (PrefillAdder.tree_cache a));
  PrefillAdder.add_one_req req has_chunked_req
    (PrefillAdder.with_tree (default (PrefillAdder.tree_cache a) t) a).

(** What follows the admission attempt. *)
Definition admit_next allocatable lora hc (res : AddReqResult) (req : Req.t) (rest : list Req.t) (a : adder) (full : bool)
    : pyres (list Req.t * adder * bool) :=
  match res with
  | CONTINUE =>
      '(rest, a, full) ← admit_loop hash clock cfg allocatable lora hc rest a full;
      mret (req :: rest, a, full)
  | NO_TOKEN => mret (req :: rest, a, true)
  | OTHER => mret (req :: rest, a, full)
  end.

Lemma admit_next_stop allocatable lora hc res req rest a full :
  res ≠ CONTINUE → ∃ f, admit_next allocatable lora hc res req rest a full = Ok (req :: rest, a, f).
Proof. destruct res; [done|eexists; done..]. Qed.

Lemma admit_loop_cons allocatable lora hc req rest (a : adder) full :
  admit_loop hash clock cfg allocatable lora hc (req :: rest) a full =
    if enable_lora cfg && negb (can_run_lora_batch cfg
         (lora ++ (Req.lora_id <$> PrefillAdder.can_run_list a) ++ [Req.lora_id req]))
    then Ok (req :: rest, a, true) else
    if allocatable <=? len (PrefillAdder.can_run_list a) then Ok (req :: rest, a, true) else
    '(res, req, a) ← step_req hc req a;
    admit_next allocatable lora hc res req rest a full.
Proof.
  cbn [admit_loop]. do 2 (case_match; [done|]). unfold step_req.
  change (sched_match hash clock) with adm_match.
  destruct (Req.init_next_round_input _ _ _) as [[? ?]|]; done.
Qed.

Lemma step_req_ok (a : adder) k v L mixed hc req :
  adder_ok a k v L mixed → waiting (tree_on v) req →
  ∃ res req' a' v', step_req hc req a = Ok (res, req', a') ∧ grown v v' ∧ same_request req req' ∧
    pc_evictable_size (PrefillAdder.tree_cache a') ≤ pc_evictable_size (PrefillAdder.tree_cache a) ∧
    ((res ≠ CONTINUE ∧ adder_ok a' k v' L mixed ∧ PrefillAdder.can_run_list a' = PrefillAdder.can_run_list a ∧
      PrefillAdder.new_chunked_req a' = PrefillAdder.new_chunked_req a) ∨
     (adder_ok a' k v' (Req.last_node req' :: L) mixed ∧ prefilled v' req' ∧
      PrefillAdder.can_run_list a' = PrefillAdder.can_run_list a ++ [req'] ∧
      (PrefillAdder.new_chunked_req a' = PrefillAdder.new_chunked_req a ∨
       PrefillAdder.new_chunked_req a' = Some req') ∧
      (PrefillAdder.rem_chunk_tokens a = None → PrefillAdder.rem_chunk_tokens a' = None ∧
       PrefillAdder.new_chunked_req a' = PrefillAdder.new_chunked_req a ∧
       Req.fill_ids req' = Req.origin_input_ids req' ++ Req.output_ids req'))).
Proof using Hps.
  intros O W. destruct (init_round_ok _ v L req (ao_tree _ _ _ _ _ O) W)
    as (r1 & t1 & v1 & E & O1 & G1 & Hev & S1 & P1 & Hh & Hfull).
  unfold step_req. rewrite E. cbn [mbind pyres_bind default].
  pose proof (adder_view a k v v1 L mixed t1 O O1 Hev) as Oa.
  destruct W as ((m & Hm & Hm0) & _ & Hig). pose proof S1 as (S1a & S1b & S1c & S1d & _).
  destruct (add_one_req_ok (H1 := tree_prefix_laws ps) Hps (PrefillAdder.with_tree t1 a) k v1 L mixed r1 m hc Oa)
    as (res & r' & a' & E' & Hcase); rewrite ?S1d; try done.
  - destruct (pf_path _ _ P1) as (p & Hp & _). by eapply (pc_path_node (PrefixMatchLaws := adm_laws) v1).
  - destruct (SamplingParams.ignore_eos _) eqn:Hi; [|done].
    change (pc_disable t1 = false). rewrite (pc_on_ok (PrefixMatchLaws := adm_laws) _ _ _ O1). simpl. rewrite (gr_on _ _ G1), (Hig eq_refl). done.
  - apply P1.
  - apply P1.
  - exists res, r', a', v1. split; [done|]. split; [done|].
    destruct Hcase as [(Hr & -> & (c & -> & Oc & Hc))|(Hr & Oa' & (A1 & A2 & A3 & A4 & A5 & A6 & _))].
    + split; [done|]. split.
      { change (pc_evictable_size c ≤ pc_evictable_size (PrefillAdder.tree_cache a)). by rewrite <-Hev, Hc. }
      left. split; [done|]. split; [|done].
      by eapply (adder_view (PrefillAdder.with_tree t1 a)).
    + destruct (prefilled_admitted v1 r1 r' _ P1 A3 A4 A5 eq_refl) as (P' & S' & En).
      split; [eapply same_request_trans; [|exact S']; done|]. split.
      { rewrite <-Hev. apply (pc_size_locks (PrefixCacheLaws := tree_prefix_laws ps) t1 _ v1 L (Req.last_node r1 :: L) O1 (ao_tree _ _ _ _ _ Oa')).
        set_solver. }
      right. rewrite En. split; [done|]. split; [done|].
      split; [done|]. split; [rewrite A2; case_decide; auto|].
      intros Hnone. destruct (A6 Hnone) as [Hn' Heq]. split; [done|]. split; [by rewrite A2, decide_True by done|].
      destruct S' as (_ & -> & -> & _). rewrite A5, Heq, take_ge; [done|].
      pose proof (pf_fill _ _ P1). unfold len in *. lia.
Qed.

(** *** The loop *)

Lemma admit_loop_ok allocatable lora hc queue : ∀ (a : adder) k v L mixed full,
  adder_ok a k v L mixed → Forall (waiting (tree_on v)) queue →
  ∃ queue' a' full' v' adm,
    admit_loop hash clock cfg allocatable lora hc queue a full = Ok (queue', a', full') ∧
    grown v v' ∧ adder_ok a' k v' (reverse (Req.last_node <$> adm) ++ L) mixed ∧
    PrefillAdder.can_run_list a' = PrefillAdder.can_run_list a ++ adm ∧
    Forall2 same_request queue queue' ∧ adm `sublist_of` queue' ∧ Forall (prefilled v') adm ∧
    len (PrefillAdder.can_run_list a') ≤ Z.max (len (PrefillAdder.can_run_list a)) allocatable ∧
    pc_evictable_size (PrefillAdder.tree_cache a') ≤ pc_evictable_size (PrefillAdder.tree_cache a) ∧
    (PrefillAdder.new_chunked_req a' = PrefillAdder.new_chunked_req a ∨
     ∃ r, r ∈ adm ∧ PrefillAdder.new_chunked_req a' = Some r) ∧
    (PrefillAdder.rem_chunk_tokens a = None → PrefillAdder.new_chunked_req a' = PrefillAdder.new_chunked_req a ∧
     Forall (fun r => Req.fill_ids r = Req.origin_input_ids r ++ Req.output_ids r) adm).
Proof using Hps.
  induction queue as [|req rest IH]; intros a k v L mixed full O Hq.
  { exists [], a, full, v, []. rewrite app_nil_r. split_and!; try done; [lia|by left]. }
  apply Forall_cons in Hq as [W Hq]. rewrite admit_loop_cons.
  assert (∃ queue' a' full' v' adm, Ok (req :: rest, a, true) = Ok (queue', a', full') ∧
    grown v v' ∧ adder_ok a' k v' (reverse (Req.last_node <$> adm) ++ L) mixed ∧
    PrefillAdder.can_run_list a' = PrefillAdder.can_run_list a ++ adm ∧
    Forall2 same_request (req :: rest) queue' ∧ adm `sublist_of` queue' ∧ Forall (prefilled v') adm ∧
    len (PrefillAdder.can_run_list a') ≤ Z.max (len (PrefillAdder.can_run_list a)) allocatable ∧
    pc_evictable_size (PrefillAdder.tree_cache a') ≤ pc_evictable_size (PrefillAdder.tree_cache a) ∧
    (PrefillAdder.new_chunked_req a' = PrefillAdder.new_chunked_req a ∨
     ∃ r, r ∈ adm ∧ PrefillAdder.new_chunked_req a' = Some r) ∧
    (PrefillAdder.rem_chunk_tokens a = None → PrefillAdder.new_chunked_req a' = PrefillAdder.new_chunked_req a ∧
     Forall (fun r => Req.fill_ids r = Req.origin_input_ids r ++ Req.output_ids r) adm)) as Hstop.
  { exists (req :: rest), a, true, v, []. rewrite app_nil_r.
    split_and!; try done; [apply same_request_refl_all|apply sublist_nil_l|lia|by left]. }
  case_match; [done|]. destruct (Z.leb_spec allocatable (len (PrefillAdder.can_run_list a))) as [|Hlt]; [done|].
  clear Hstop.
  destruct (step_req_ok a k v L mixed hc req O W) as (res & r' & a1 & v1 & E1 & G1 & S1 & Hev1 & Hcase).
  rewrite E1. cbn [mbind pyres_bind mret pyres_ret].
  destruct Hcase as [(Hres & O1 & Hcr & Hnc)|(O1 & P1 & Hcr & Hnc & Hfull)].
  - destruct (admit_next_stop allocatable lora hc res r' rest a1 full Hres) as [f ->].
    exists (r' :: rest), a1, f, v1, []. rewrite Hcr, app_nil_r. split_and!; try done.
    + constructor; [done|apply same_request_refl_all].
    + apply sublist_nil_l.
    + lia.
    + by left.
  - destruct (decide (res = CONTINUE)) as [->|Hres].
    + destruct (IH a1 k v1 (Req.last_node r' :: L) mixed full O1) as
        (queue' & a' & full' & v' & adm & E & G & O' & Hcr' & S' & Hsub & Hpf & Hlen & Hev' & Hnc' & Hfull').
      { rewrite (gr_on _ _ G1). done. }
      unfold admit_next. rewrite E. cbn [mbind pyres_bind mret pyres_ret].
      exists (r' :: queue'), a', full', v', (r' :: adm). split; [done|]. split; [by etrans|].
      split; [by rewrite fmap_cons, reverse_cons, <-app_assoc|]. rewrite Hcr', Hcr, <-app_assoc.
      split; [done|]. split; [by constructor|]. split; [by apply sublist_skip|].
      split; [constructor; [by eapply prefilled_grown|done]|].
      split; [rewrite Hcr', Hcr in Hlen; rewrite !len_app in *; change (len [r']) with 1 in *; rewrite ?len_app, ?len_cons; lia|].
      split; [lia|]. split.
      { destruct Hnc' as [-> | (x & Hx & ->)]; [|right; exists x; set_solver].
        destruct Hnc as [-> | ->]; [by left|]. right. exists r'. set_solver. }
      intros Hrem. destruct (Hfull Hrem) as (Hrem1 & Hn1 & Hf1). destruct (Hfull' Hrem1) as [Hn2 Hf2].
      split; [congruence|by constructor].
    + destruct (admit_next_stop allocatable lora hc res r' rest a1 full Hres) as [f ->]. exists (r' :: rest), a1, f, v1, [r'].
      split; [done|]. split; [done|]. split; [done|]. split; [done|].
      split; [constructor; [done|apply same_request_refl_all]|].
      split; [apply sublist_skip, sublist_nil_l|]. split; [by apply Forall_singleton|].
      split; [rewrite Hcr, len_app; change (len [r']) with 1; lia|]. split; [lia|]. split.
      { destruct Hnc as [-> | ->]; [by left|]. right. exists r'. set_solver. }
      intros Hrem. destruct (Hfull Hrem) as (_ & Hn1 & Hf1). split; [done|by apply Forall_singleton].
Qed.

End admission.
