(* ===== verification/BatchKernels.v ===== *)
(** * The batch kernels agree with the tensor code

    [get_last_loc_triton] computes what [get_last_loc_torch] computes, and
    the writing kernel of [prepare_for_extend] leaves [req_to_token] as the
    loop of row writes does. *)

From S2P Require Import Prelude Allocator PagedAllocator PagedProofs ReqPool Request ScheduleBatch.

(** ** Lanes *)

Lemma arange_blocks B k :
  0 ≤ B → concat ((fun i => (fun lane => lane + i * B) <$> arange 0 B) <$> arange 0 (Z.of_nat k))
  = arange 0 (Z.of_nat k * B).
Proof.
  intros HB. induction k as [|k IH]; [done|].
  rewrite (arange_app 0 (Z.of_nat k) (Z.of_nat (S k))) by lia. rewrite fmap_app, concat_app, IH.
  rewrite (arange_cons (Z.of_nat k) (Z.of_nat (S k))), (arange_empty (Z.of_nat k + 1)) by lia. simpl. rewrite app_nil_r.
  rewrite (arange_app 0 (Z.of_nat k * B) (Z.of_nat (S k) * B)) by nia. f_equal.
  erewrite fmap_ext_elem; [rewrite (arange_shift (Z.of_nat k * B)); f_equal; lia|].
  intros x _. simpl. lia.
Qed.

Lemma filter_arange_lt n hi : 0 ≤ n ≤ hi → filter (fun x => x < n) (arange 0 hi) = arange 0 n.
Proof.
  intros Hn. rewrite (arange_app 0 n hi) by lia. rewrite filter_app, filter_all, filter_none.
  - apply app_nil_r.
  - intros x Hx%elem_of_arange. lia.
  - intros x Hx%elem_of_arange. lia.
Qed.

(** The lanes of a grid of blocks, masked to the first [n]. *)
Lemma masked_blocks {X} (f : Z → X) n B :
  0 ≤ n → 0 < B →
  concat ((fun i => f <$> filter (fun x => x < n) ((fun lane => lane + i * B) <$> arange 0 B))
          <$> arange 0 (cdiv n B)) = f <$> arange 0 n.
Proof.
  intros Hn HB. pose proof (cdiv_bounds n B HB) as Hc.
  assert (0 ≤ cdiv n B) as Hc0 by (apply Z.div_pos; lia).
  rewrite <-(filter_arange_lt n (cdiv n B * B)) by lia.
  rewrite <-(Z2Nat.id (cdiv n B)) by done. rewrite <-arange_blocks by lia.
  rewrite Z2Nat.id by done.
  induction (arange 0 (cdiv n B)) as [|i l IH]; [done|]. csimpl.
  by rewrite filter_app, fmap_app, IH.
Qed.

(** ** [get_last_loc] *)

Lemma wrap_index_ok n i : 0 ≤ i < n → wrap_index n i = Ok (Z.to_nat i).
Proof.
  intros. unfold wrap_index. destruct (Z.ltb_spec i 0); [lia|].
  destruct (Z.leb_spec 0 i), (Z.ltb_spec i n); try lia. done.
Qed.

Lemma wrap_index_last n : 0 < n → wrap_index n (-1) = Ok (Z.to_nat (n - 1)).
Proof.
  intros. unfold wrap_index. simpl. destruct (Z.leb_spec 0 (-1 + n)), (Z.ltb_spec (-1 + n) n); try lia.
  simpl. do 2 f_equal. lia.
Qed.

(** Requests with a row of the pool and a prefix that fits it. *)
Definition in_pool (p : ReqPool.t) (r : Z * Z) : Prop :=
  0 ≤ r.1 < ReqPool.size p ∧ 0 ≤ r.2 ≤ ReqPool.max_context_len p.

Definition last_loc_of (p : ReqPool.t) (r : Z * Z) : Z :=
  if 0 <? r.2 then ReqPool.row r.1 p !!! Z.to_nat (r.2 - 1) else -1.

Section last_loc.
Context (p : ReqPool.t) (Hw : ReqPool.wf p) (Hm : 0 < ReqPool.max_context_len p).

Lemma row_length i : 0 ≤ i < ReqPool.size p → len (ReqPool.row i p) = ReqPool.max_context_len p.
Proof using Hw. apply Hw. Qed.

Lemma torch_last_loc_ok l :
  Forall (in_pool p) l → get_last_loc_torch p l.*1 l.*2 = Ok (last_loc_of p <$> l).
Proof using Hw Hm.
  destruct Hw as (Hl & Hr & _). unfold get_last_loc_torch.
  induction 1 as [|[i n] l [Hi Hn] _ IH]; [done|]. simpl in Hi, Hn. csimpl.
  assert (∃ v, tensor_at (ReqPool.req_to_token p) i (n - 1) = Ok v ∧
    (if 0 <? n then v else -1) = last_loc_of p (i, n)) as (v & E & Ev).
  { unfold tensor_at. rewrite wrap_index_ok by lia. simpl. fold (ReqPool.row i p).
    rewrite Hr by done. unfold last_loc_of. simpl. destruct (Z.ltb_spec 0 n).
    - rewrite wrap_index_ok by lia. simpl. eauto.
    - replace (n - 1) with (-1) by lia. rewrite wrap_index_last by done. simpl. eauto. }
  rewrite E. simpl. destruct (gather _ _ _) as [vs|]; [|done]. simpl in *.
  injection IH as IH. by rewrite Ev, IH.
Qed.

Lemma triton_last_loc_ok garbage l :
  Forall (in_pool p) l → get_last_loc_triton garbage p l.*1 l.*2 = last_loc_of p <$> l.
Proof using Hw Hm.
  destruct Hw as (Hl & Hr & _). intros Hin. unfold get_last_loc_triton, get_last_loc_kernel.
  rewrite len_fmap. len_pos. rewrite masked_blocks by lia.
  set (g := fun offset : Z => _).
  assert (g <$> arange 0 (len l) = zip (arange 0 (len l)) (last_loc_of p <$> l)) as ->.
  { assert (snd ∘ g <$> arange 0 (len l) = last_loc_of p <$> l) as H2.
    { apply arange_fmap_lookup. intros k [i n] E. unfold g. simpl.
      rewrite !(load_fmap garbage _ _ _ _ E). simpl. unfold last_loc_of. simpl.
      pose proof (Forall_lookup_1 _ _ _ _ Hin E) as [Hi Hn]. simpl in Hi, Hn.
      destruct (Z.ltb_spec 0 n); [|done]. unfold flat_load.
      replace ((i * ReqPool.max_context_len p + (n - 1)) / ReqPool.max_context_len p) with i
        by (rewrite Z.div_add_l, Z.div_small by lia; lia).
      replace ((i * ReqPool.max_context_len p + (n - 1)) mod ReqPool.max_context_len p) with (n - 1)
        by (rewrite Z.add_comm, Z.mod_add, Z.mod_small by lia; lia).
      destruct (Z.ltb_spec (i * ReqPool.max_context_len p + (n - 1)) 0); [nia|].
      pose proof (row_length i Hi) as Hri. unfold len in *.
      destruct (lookup_lt_is_Some_2 (ReqPool.req_to_token p) (Z.to_nat i)) as [r E1]; [lia|].
      assert (ReqPool.row i p = r) as Er by (unfold ReqPool.row; by apply list_lookup_total_correct).
      rewrite E1. simpl. rewrite Er in Hri |- *.
      destruct (lookup_lt_is_Some_2 r (Z.to_nat (n - 1))) as [v E2]; [lia|]. rewrite E2.
      symmetry. by apply list_lookup_total_correct. }
    rewrite <-H2. clear. induction (arange 0 (len l)) as [|o os IH]; [done|]. csimpl.
    by rewrite IH. }
  pose proof (run_stores_fill (last_loc_of p <$> l) [] (torch_empty garbage (len l))) as Hf.
  rewrite len_fmap, len_nil, Z.add_0_l in Hf. simpl in Hf. apply Hf.
  unfold torch_empty. pose proof (len_arange 0 (len l)) as Ha. rewrite !length_fmap. unfold len in *. lia.
Qed.

End last_loc.

(** the Triton kernel behind [get_last_loc] returns exactly what the
    torch expression returns: for each request the KV slot of the last token
    of its prefix, or -1 without a prefix. *)
Theorem batch_get_last_loc_equiv garbage p (idx prefix_lens : list Z) :
  ReqPool.wf p → 0 < ReqPool.max_context_len p → length idx = length prefix_lens →
  Forall (in_pool p) (zip idx prefix_lens) →
  get_last_loc_torch p idx prefix_lens = Ok (get_last_loc_triton garbage p idx prefix_lens) ∧
  get_last_loc_triton garbage p idx prefix_lens = last_loc_of p <$> zip idx prefix_lens.
Proof.
  intros Hw Hm Hl Hin.
  pose proof (torch_last_loc_ok p Hw Hm _ Hin) as E1. pose proof (triton_last_loc_ok p Hw Hm garbage _ Hin) as E2.
  rewrite fst_zip in E1, E2 by lia. rewrite snd_zip in E1, E2 by lia. by rewrite E1, E2.
Qed.

Definition kernel_pool : ReqPool.t := ReqPool.mk 2 3 [[4; 5; 6]; [7; 8; 9]] [].

Lemma kernel_pool_wf : ReqPool.wf kernel_pool.
Proof.
  split; [done|]. split; [|done]. intros i Hi. simpl in Hi.
  assert (i = 0 ∨ i = 1) as [-> | ->] by lia; done.
Qed.

Lemma batch_get_last_loc_equiv_witness :
  get_last_loc_torch kernel_pool [1; 0] [2; 0] = Ok [8; -1].
Proof.
  destruct (batch_get_last_loc_equiv (fun _ => 0) kernel_pool [1; 0] [2; 0]) as [E F];
    [exact kernel_pool_wf|vm_compute; reflexivity|reflexivity|repeat constructor; simpl; lia|].
  rewrite E, F. reflexivity.
Defined.

(** ** Writing the new slots *)

Definition splice (j : nat) (vs r : list Z) : list Z := take j r ++ vs ++ drop (j + length vs) r.

Lemma splice_cons j v vs (r : list Z) :
  (j < length r)%nat → splice (S j) vs (<[j := v]> r) = splice j (v :: vs) r.
Proof.
  intros Hj. unfold splice. rewrite drop_insert_lt by lia. simpl.
  rewrite (take_S_r _ _ v) by (by apply list_lookup_insert_eq). rewrite take_insert_ge by lia.
  rewrite <-app_assoc. simpl. by replace (j + S (length vs))%nat with (S (j + length vs)) by lia.
Qed.

Lemma flat_store_row stride i j v rows :
  0 ≤ i → 0 ≤ j < stride →
  flat_store stride rows (i * stride + j, v) = alter (fun r => <[Z.to_nat j := int32 v]> r) (Z.to_nat i) rows.
Proof.
  intros Hi Hj. unfold flat_store. simpl. destruct (Z.ltb_spec (i * stride + j) 0); [nia|].
  rewrite Z.div_add_l, Z.div_small by lia. rewrite Z.add_comm, Z.mod_add, Z.mod_small by lia.
  by rewrite Z.add_0_r.
Qed.

(** Stores to consecutive columns of one row. *)
Lemma flat_store_run stride i j vals rows :
  0 ≤ i → 0 ≤ j → j + len vals ≤ stride →
  (∀ r, rows !! Z.to_nat i = Some r → len r = stride) →
  foldl (flat_store stride) rows (zip (arange (i * stride + j) (i * stride + j + len vals)) vals)
  = alter (splice (Z.to_nat j) (int32 <$> vals)) (Z.to_nat i) rows.
Proof.
  intros Hi. revert j rows. induction vals as [|v vals IH]; intros j rows Hj Hle Hr.
  { simpl. rewrite zip_with_nil_r. symmetry. simpl.
    rewrite (list_alter_ext _ id rows rows); [apply list_alter_id; done| |done].
    intros r _. unfold splice. simpl. rewrite Nat.add_0_r. apply take_drop. }
  rewrite len_cons in *. len_pos. rewrite arange_cons by lia. cbn [zip zip_with foldl].
  rewrite flat_store_row by lia.
  replace (i * stride + j + 1) with (i * stride + (j + 1)) by lia.
  replace (i * stride + j + (1 + len vals)) with (i * stride + (j + 1) + len vals) by lia.
  rewrite IH; [|lia|lia|].
  - rewrite list_alter_alter_eq. apply list_alter_ext; [|done]. intros r Hrow. simpl.
    replace (Z.to_nat (j + 1)) with (S (Z.to_nat j)) by lia. apply splice_cons.
    specialize (Hr r Hrow). unfold len in *. lia.
  - intros r. rewrite list_lookup_alter_eq. destruct (rows !! Z.to_nat i) as [r'|] eqn:E; [|done]. simpl.
    intros [= <-]. unfold len. rewrite length_insert. by apply Hr.
Qed.

Lemma lanes_zip (a : Z) (vs : list Z) :
  (fun o => (a + o, vs !!! Z.to_nat o)) <$> arange 0 (len vs) = zip (arange a (a + len vs)) vs.
Proof.
  assert ((fun o => vs !!! Z.to_nat o) <$> arange 0 (len vs) = vs) as E.
  { etrans; [|apply (list_fmap_id vs)]. apply arange_fmap_lookup. intros i x Hx.
    rewrite Nat2Z.id. by apply list_lookup_total_correct. }
  trans (zip (Z.add a <$> arange 0 (len vs)) ((fun o => vs !!! Z.to_nat o) <$> arange 0 (len vs))).
  2:{ rewrite E, arange_shift. do 2 f_equal. lia. }
  generalize (arange 0 (len vs)). intros L. clear. induction L as [|x L IH]; [done|]. csimpl. by rewrite IH.
Qed.

(** The stores of one program. *)
Lemma write_program_stores garbage (l : list (Z * Z * Z)) out stride k i pre seq :
  l !! k = Some (i, pre, seq) → pre ≤ seq →
  let c := zsum ((fun r => r.2 - r.1.2) <$> take k l) in
  0 ≤ c → c + (seq - pre) ≤ len out →
  write_req_to_token_pool_triton garbage ((fun r => r.1.1) <$> l) ((fun r => r.1.2) <$> l)
    (snd <$> l) ((fun r => r.2 - r.1.2) <$> l) out stride (Z.of_nat k)
  = zip (arange (i * stride + pre) (i * stride + pre + (seq - pre))) (out.[c :: c + (seq - pre)]).
Proof.
  intros E Hle c Hc Hout. unfold write_req_to_token_pool_triton.
  rewrite !(load_fmap garbage _ _ _ _ E). cbn [fst snd].
  assert (zsum (load garbage ((fun r => r.2 - r.1.2) <$> l) <$> arange 0 (Z.of_nat k)) = c) as ->.
  { unfold c. f_equal. pose proof (lookup_lt_Some _ _ _ E).
    replace (Z.of_nat k) with (len (take k l)) by (unfold len; rewrite length_take; lia).
    apply arange_fmap_lookup. intros n x Ex. apply lookup_take_Some in Ex as [Ex _].
    by rewrite (load_fmap garbage _ _ _ _ Ex). }
  rewrite (masked_blocks (fun offset => (i * stride + offset + pre, load garbage out (c + offset)))) by lia.
  rewrite py_slice_nonneg by lia. set (n := seq - pre) in *.
  replace (Z.to_nat (c + n) - Z.to_nat c)%nat with (Z.to_nat n) by lia.
  set (vs := take (Z.to_nat n) (drop (Z.to_nat c) out)).
  assert (len vs = n) as Hv by (unfold vs; rewrite len_take, len_drop; lia).
  replace (i * stride + pre + n) with (i * stride + pre + len vs) by lia.
  rewrite <-(lanes_zip (i * stride + pre) vs), Hv. apply fmap_ext_elem. intros o Ho%elem_of_arange.
  f_equal; [lia|]. unfold load. destruct (Z.ltb_spec (c + o) 0); [lia|].
  assert (vs !! Z.to_nat o = out !! Z.to_nat (c + o)) as Ev.
  { unfold vs. rewrite lookup_take_lt by lia. rewrite lookup_drop. f_equal. lia. }
  destruct (lookup_lt_is_Some_2 vs (Z.to_nat o)) as [x Ex]; [unfold len in Hv; lia|].
  rewrite <-Ev, Ex. symmetry. by apply list_lookup_total_correct.
Qed.

(** A request with a row of the pool, of which [pre] to [seq] is new. *)
Definition row_part (p : ReqPool.t) (r : Z * Z * Z) : Prop :=
  0 ≤ r.1.1 < ReqPool.size p ∧ 0 ≤ r.1.2 ≤ r.2 ∧ r.2 ≤ ReqPool.max_context_len p.

(** A row write as an update of the rows. *)
Lemma write_splice p i pre seq vs :
  ReqPool.wf p → row_part p (i, pre, seq) → len vs = seq - pre →
  let p' := with_rows (alter (splice (Z.to_nat pre) (int32 <$> vs)) (Z.to_nat i) (ReqPool.req_to_token p)) p in
  ReqPool.write i pre seq vs p = Ok p' ∧ ReqPool.wf p'.
Proof.
  intros (Hl & Hr & Hm) (Hi & Hp & Hs) Hv p'. simpl in Hi, Hp, Hs. pose proof (Hr i Hi) as Hri.
  destruct (lookup_lt_is_Some_2 (ReqPool.req_to_token p) (Z.to_nat i)) as [r E]; [unfold len in Hl; lia|].
  assert (ReqPool.row i p = r) as Er by (unfold ReqPool.row; by apply list_lookup_total_correct).
  assert (alter (splice (Z.to_nat pre) (int32 <$> vs)) (Z.to_nat i) (ReqPool.req_to_token p)
    = <[Z.to_nat i := splice (Z.to_nat pre) (int32 <$> vs) r]> (ReqPool.req_to_token p)) as Ea.
  { rewrite list_insert_alter. apply list_alter_ext; [|done]. intros r' E'. congruence. }
  split.
  - unfold ReqPool.write. rewrite Er. rewrite Er in Hri. rewrite !py_norm_nonneg by lia.
    replace (Nat.max (Z.to_nat pre) (Z.to_nat seq)) with (Z.to_nat seq) by lia.
    rewrite decide_True by (unfold len in Hv; lia). unfold p', with_rows, mret, pyres_ret.
    rewrite Ea. unfold splice. rewrite length_fmap.
    by replace (Z.to_nat pre + length vs)%nat with (Z.to_nat seq) by (unfold len in Hv; lia).
  - split; [unfold p', len; simpl; rewrite length_alter; done|]. split; [|done].
    intros k Hk. simpl in Hk. unfold ReqPool.row, p'. simpl. rewrite Ea.
    destruct (decide (k = i)) as [->|Hne].
    + rewrite list_lookup_total_insert_eq by (by apply lookup_lt_Some in E).
      rewrite Er in Hri. unfold splice, len in *. rewrite !length_app, length_fmap, length_take, length_drop. lia.
    + rewrite list_lookup_total_insert_ne by lia. by apply Hr.
Qed.

Section write_kernel.
Context (garbage : Z → Z) (out : list Z) (l : list (Z * Z * Z)).

Abbreviation ext r := (snd r - snd (fst r)).
Abbreviation prog stride := (write_req_to_token_pool_triton garbage ((fun r => r.1.1) <$> l)
  ((fun r => r.1.2) <$> l) (snd <$> l) ((fun r => r.2 - r.1.2) <$> l) out stride).

Lemma write_kernel_loop l1 l2 p :
  l = l1 ++ l2 → ReqPool.wf p → Forall (row_part p) l →
  zsum ((fun r => ext r) <$> l) = len out →
  ∃ p', write_loop ((fun r => r.1.1) <$> l2) ((fun r => r.1.2) <$> l2) (snd <$> l2)
      ((fun r => ext r) <$> l2) out (zsum ((fun r => ext r) <$> l1)) p = Ok p' ∧
    ReqPool.wf p' ∧
    p' = with_rows (foldl (flat_store (ReqPool.max_context_len p)) (ReqPool.req_to_token p)
           (concat (prog (ReqPool.max_context_len p) <$> arange (len l1) (len l)))) p.
Proof.
  revert l1 p. induction l2 as [|[[i pre] seq] l2 IH]; intros l1 p El Hw Hin Ht.
  { exists p. split; [done|]. split; [done|]. rewrite El, app_nil_r, arange_empty by lia.
    simpl. by destruct p. }
  assert (l !! length l1 = Some (i, pre, seq)) as Ek by (rewrite El; by apply list_lookup_middle).
  pose proof (Forall_lookup_1 _ _ _ _ Hin Ek) as Hr. pose proof Hr as (Hi & Hp & Hs). simpl in Hi, Hp, Hs.
  set (c := zsum ((fun r => ext r) <$> l1)).
  assert (∀ k, Forall (row_part p) k → 0 ≤ zsum ((fun r => ext r) <$> k)) as Hnn.
  { intros k Hk. apply zsum_nonneg. intros x (y & -> & Hy)%list_elem_of_fmap.
    pose proof (proj1 (Forall_forall _ _) Hk y Hy) as (_ & ? & _). lia. }
  rewrite El in Hin. pose proof Hin as [Hin1 [_ Hin2]%Forall_cons]%Forall_app. rewrite <-El in Hin.
  assert (0 ≤ c ∧ c + (seq - pre) ≤ len out) as [Hc0 Hc].
  { rewrite <-Ht, El, fmap_app, zsum_app. csimpl. rewrite zsum_cons. simpl. fold c.
    pose proof (Hnn l1 Hin1). pose proof (Hnn l2 Hin2). unfold c in *. lia. }
  set (vs := out.[c :: c + (seq - pre)]).
  assert (len vs = seq - pre) as Hv.
  { unfold vs. rewrite py_slice_nonneg by lia. rewrite len_take, len_drop. lia. }
  destruct (write_splice p i pre seq vs Hw Hr Hv) as [Ew Hw']. set (p1 := with_rows _ p) in *.
  destruct (IH (l1 ++ [(i, pre, seq)]) p1) as (p' & E' & Hw'' & Ep'); [by rewrite <-app_assoc|done|done|done|].
  exists p'. split; [|split; [done|]].
  - csimpl. fold vs. simpl. fold vs. rewrite Ew. cbn [mbind pyres_bind]. rewrite <-E'. f_equal.
    rewrite fmap_app, zsum_app. fold c. csimpl. rewrite zsum_cons. unfold zsum. simpl. lia.
  - rewrite Ep'. simpl. unfold p1, with_rows. simpl. f_equal. rewrite len_app.
    rewrite (arange_cons (len l1)) by (rewrite El, len_app, len_cons; len_pos; lia).
    csimpl. rewrite foldl_app. change (len [(i, pre, seq)]) with 1. f_equal.
    rewrite (write_program_stores garbage l out _ (length l1) i pre seq); [|done|lia|..].
    + rewrite El, take_app_length. fold c vs. rewrite <-Hv. rewrite flat_store_run; [done|lia|lia|lia|].
      intros r Er. destruct Hw as (Hl & Hrw & _). rewrite <-(Hrw i Hi). f_equal. symmetry.
      unfold ReqPool.row. by apply list_lookup_total_correct.
    + rewrite El, take_app_length. done.
    + rewrite El, take_app_length. done.
Qed.

End write_kernel.

Lemma write_kernel_ok garbage (l : list (Z * Z * Z)) out p :
  ReqPool.wf p → Forall (row_part p) l → zsum ((fun r => r.2 - r.1.2) <$> l) = len out →
  let idx := (fun r => r.1.1) <$> l in let pre := (fun r => r.1.2) <$> l in
  let ext := (fun r => r.2 - r.1.2) <$> l in
  ∃ p', write_loop idx pre l.*2 ext out 0 p = Ok p' ∧
    write_req_to_token_pool garbage idx pre l.*2 ext out p = p' ∧ ReqPool.wf p'.
Proof.
  intros Hw Hin Ht. destruct (write_kernel_loop garbage out l [] l p) as (p' & E & Hw' & Ep); try done.
  exists p'. split; [exact E|]. split; [|done]. rewrite Ep. unfold write_req_to_token_pool. by rewrite len_fmap.
Qed.


