(* ===== verification/BatchMemory.v ===== *)
(** * A batch gets the memory the scheduler counted on

    The allocation functions of [ScheduleBatch] evict from the radix cache
    before they allocate.  What [PrefillAdder] admits (the pages of all
    extensions fit the free and evictable memory) and what [check_decode_mem]
    approves can be allocated. *)

From S2P Require Import Prelude Allocator PagedAllocator PagedProofs ReqPool Request KVAllocator RadixCache.
From S2P Require Import RadixInv RadixOwn RadixInsert RadixEvict SamplingParams SchedulePolicy PrefixCache PrefillAdder PrefillAdderProofs ScheduleBatch.

(** ** Eviction on demand *)

Section evict_memory.
Context (hash : list Z → Z) `{HeapQ} {ps : nat} {A : Type} `{KVAllocator ps A} `{BatchAllocator A}.

(** A memory whose radix cache [c] has content [G] and locks [Hs]; [rest] are
    the chunks held outside the cache. *)
Record radix_mem (m : memory A) (c : RadixCache) (G : gmap nat path) (Hs : list nat)
    (rest : list (list Z)) : Prop := mk_radix_mem {
  rm_tree : tree_cache m = RadixTree c;
  rm_repr : repr c G Hs;
  rm_on : disable c = false;
  rm_page : page_size c = ps;
  rm_owned : kv_owned (token_to_kv_pool_allocator m) (tree_chunks c G ++ rest);
  rm_closed : kv_closed (token_to_kv_pool_allocator m);
  rm_nonneg : 0 ≤ kv_available (token_to_kv_pool_allocator m);
}.

Lemma evictable_nonneg c G Hs : repr c G Hs → 0 ≤ evictable_size c.
Proof.
  intros R. unfold evictable_size. rewrite (r_evictable _ _ _ R). apply gsum_nonneg.
  intros n l _. unfold evictable_weight, weight. repeat case_decide; len_pos; lia.
Qed.

Lemma evict_if_needed_ok n m c G Hs rest :
  radix_mem m c G Hs rest →
  ∃ m' c' G', _evict_tree_cache_if_needed hash n m = Ok m' ∧ radix_mem m' c' G' Hs rest ∧
    req_to_token_pool m' = req_to_token_pool m ∧
    kv_available (token_to_kv_pool_allocator m') + evictable_size c' =
      kv_available (token_to_kv_pool_allocator m) + evictable_size c ∧
    kv_available (token_to_kv_pool_allocator m) ≤ kv_available (token_to_kv_pool_allocator m') ∧
    Z.min n (kv_available (token_to_kv_pool_allocator m) + evictable_size c)
      ≤ kv_available (token_to_kv_pool_allocator m') ∧
    protected_size c' = protected_size c ∧ G' ⊆ G.
Proof.
  intros M. pose proof M as [M1 M2 M3 M4 M5 M6 M7]. unfold _evict_tree_cache_if_needed. rewrite M1.
  pose proof (evictable_nonneg _ _ _ M2) as Hev.
  destruct (Z.ltb_spec (kv_available (token_to_kv_pool_allocator m)) n) as [Hlt|Hge].
  - destruct (evict_ok hash Hs rest n c G (token_to_kv_pool_allocator m) M2 M3 M4 M5)
      as (c' & a' & xs & G' & E & [L1 L2 L3 L4 L5 L6 L7 L8] & D & P & _).
    destruct (L8 M6) as [Hc Ha]. rewrite E. simpl. eexists _, c', G'. split; [done|].
    split; [split; simpl; try done; try congruence; lia|]. simpl. split; [done|].
    split; [lia|]. split; [lia|]. split; [lia|]. split; [done|]. by eapply lru_subset.
  - exists m, c, G. split; [done|]. split; [done|]. split; [done|]. split; [done|]. split; [done|]. split; [lia|done].
Qed.

End evict_memory.

(** ** Pages of a batch *)

Lemma new_pages_ceil ps pre seq : 0 < ps → 0 ≤ pre ≤ seq → new_pages ps pre seq * ps ≤ ceil_to ps (seq - pre).
Proof.
  intros Hp Hs. unfold new_pages. pose proof (cdiv_bounds seq ps Hp). pose proof (cdiv_bounds pre ps Hp).
  pose proof (ceil_to_bounds ps Hp (seq - pre)). destruct (ceil_to_divide ps (seq - pre)) as [k Hk].
  rewrite Hk in *. assert (cdiv seq ps - cdiv pre ps < k + 1) by nia. nia.
Qed.

Lemma total_pages_ceil ps reqs : 0 < ps → valid_batch reqs →
  total_pages ps reqs * ps ≤ zsum ((fun r => ceil_to ps (r.1.2 - r.1.1)) <$> reqs).
Proof.
  intros Hp. unfold total_pages. induction 1 as [|[[pre seq] last] reqs Hr _ IH]; [done|]. csimpl.
  rewrite !zsum_cons. pose proof (new_pages_ceil ps pre seq Hp Hr). simpl in *. lia.
Qed.

Lemma ceil_sum_le ps reqs : 0 < ps →
  zsum ((fun r => ceil_to ps (r.1.2 - r.1.1)) <$> reqs) ≤ total_tokens reqs + len reqs * ps.
Proof.
  intros Hp. unfold total_tokens. induction reqs as [|r reqs IH]; [done|]. csimpl.
  rewrite !zsum_cons, len_cons. pose proof (ceil_to_bounds ps Hp (r.1.2 - r.1.1)). lia.
Qed.

(** A token takes a new page when the pages before it are full. *)
Lemma new_pages_one ps seq : 0 < ps → new_pages ps (seq - 1) seq = if (seq - 1) mod ps =? 0 then 1 else 0.
Proof.
  intros Hp. unfold new_pages. pose proof (cdiv_bounds seq ps Hp) as H1. pose proof (cdiv_bounds (seq - 1) ps Hp) as H2.
  pose proof (Z.div_mod (seq - 1) ps ltac:(lia)) as Hd. pose proof (Z.mod_pos_bound (seq - 1) ps Hp) as Hb.
  destruct (Z.eqb_spec ((seq - 1) mod ps) 0) as [E|E].
  - rewrite E in Hd. assert (cdiv (seq - 1) ps = (seq - 1) / ps) by nia.
    assert (cdiv seq ps = (seq - 1) / ps + 1) by nia. lia.
  - assert (cdiv (seq - 1) ps = (seq - 1) / ps + 1) by nia.
    assert (cdiv seq ps = (seq - 1) / ps + 1) by nia. lia.
Qed.

Section paged_memory.
Context (hash : list Z → Z) `{HeapQ} (garbage tl_other : Z → Z) (ps : nat).
#[local] Instance pba : BatchAllocator Paged.t := paged_batch_allocator garbage tl_other.
#[local] Instance pkv : KVAllocator ps Paged.t := paged_kv ps.

Lemma paged_available_held p : Paged.available_size p = len (Base.held (Paged.base p)) * Paged.page_size p.
Proof.
  unfold Paged.available_size, Base.available_size, Base.held, Paged.page_size. rewrite len_app. done.
Qed.

(** The pages behind a group of chunks, the batch's partial pages split off. *)
Lemma holds_split p cs old olds rest :
  paged_holds ps p (cs ++ old ++ rest) → Forall2 (chunk_on (Z.of_nat ps)) old olds → (0 < ps)%nat →
  ∃ pgs others, Own.owned p pgs ∧ pgs ≡ₚ olds ++ others ∧
    Forall2 (chunk_on (Z.of_nat ps)) (cs ++ old ++ rest) pgs.
Proof.
  intros [[Hp _] (pgs & Hf & Ho)] Hold Hps. exists pgs.
  pose proof Hf as Hf'. apply Forall2_app_inv_l in Hf' as (pg1 & pg2 & F1 & F2 & ->).
  apply Forall2_app_inv_l in F2 as (pg3 & pg4 & F3 & F4 & ->).
  assert (pg3 = olds) as ->.
  { clear -F3 Hold. revert olds Hold. induction F3 as [|c pg old pg3 Hc _ IH]; intros olds Hold;
      inversion Hold as [|? y ? ? Hy Hold']; subst; [done|]. f_equal; [|by apply IH].
    pose proof Hc as [Hne _]. apply chunk_div in Hc, Hy. destruct c as [|x c]; [done|].
    apply Forall_cons in Hc as [Hx _]. apply Forall_cons in Hy as [Hy _]. congruence. }
  exists (pg1 ++ pg4). split; [done|]. split; [solve_Permutation|done].
Qed.

Lemma extend_memory_ok m c G Hs old rest reqs :
  radix_mem (ps := ps) m c G Hs (old ++ rest) → (0 < ps)%nat →
  Forall2 (chunk_on (Z.of_nat ps)) old (old_pages (Z.of_nat ps) reqs) →
  valid_batch reqs → reqs ≠ [] → Forall (aligned (Z.of_nat ps)) reqs →
  total_tokens reqs + len reqs < 2 ^ 31 →
  zsum ((fun r => ceil_to (Z.of_nat ps) (r.1.2 - r.1.1)) <$> reqs) ≤
    kv_available (token_to_kv_pool_allocator m) + evictable_size c →
  ∃ newp m' c' G' pgs,
    let out := ref_extend (Z.of_nat ps) (fun k => newp !!! Z.to_nat k) 0 reqs in
    alloc_paged_token_slots_extend hash (pres reqs) (seqs reqs) (lasts reqs) (total_tokens reqs) false m
      = Ok (out, None, m') ∧ NoDup out ∧ len newp = total_pages (Z.of_nat ps) reqs ∧
    req_to_token_pool m' = req_to_token_pool m ∧
    tree_cache m' = RadixTree c' ∧ repr c' G' Hs ∧ disable c' = false ∧ protected_size c' = protected_size c ∧
    Own.owned (token_to_kv_pool_allocator m') (newp ++ pgs) ∧
    Forall2 (chunk_on (Z.of_nat ps)) (tree_chunks c' G' ++ old ++ rest) pgs ∧ page_size c' = ps ∧
    (Paged.page_size (token_to_kv_pool_allocator m') = Z.of_nat ps ∧
     (Paged.num_pages (token_to_kv_pool_allocator m') + 1) * Z.of_nat ps ≤ 2 ^ 31) ∧
    kv_closed (ps := ps) (token_to_kv_pool_allocator m') ∧ G' ⊆ G.
Proof.
  intros M Hps Hold Hv Hne Hal Hsz Hfit. unfold alloc_paged_token_slots_extend.
  assert (Paged.page_size (token_to_kv_pool_allocator m) = Z.of_nat ps) as Hpg by apply (rm_owned _ _ _ _ _ M).
  set (n := _ + _).
  destruct (evict_if_needed_ok hash n m c G Hs (old ++ rest) M) as (m1 & c1 & G1 & E1 & M1 & Hpool & Hsum & Hge & Hmin & Hpr & HG).
  rewrite E1. cbn [mbind pyres_bind].
  destruct (holds_split _ _ old (old_pages (Z.of_nat ps) reqs) rest (rm_owned _ _ _ _ _ M1) Hold Hps)
    as (pgs & others & Ho & Hperm & Hf).
  assert (Paged.page_size (token_to_kv_pool_allocator m1) = Z.of_nat ps) as Hpg1 by apply (rm_owned _ _ _ _ _ M1).
  destruct (Own.alloc_extend_ok garbage tl_other (token_to_kv_pool_allocator m1) pgs others reqs)
    as (newp & p' & Ea & Hl & Hnd & Ho'); rewrite ?Hpg1; try done.
  { pose proof (total_pages_ceil (Z.of_nat ps) reqs ltac:(lia) Hv) as Htp.
    pose proof (ceil_sum_le (Z.of_nat ps) reqs ltac:(lia)) as Hcs.
    change (kv_available (token_to_kv_pool_allocator m1)) with (Paged.available_size (token_to_kv_pool_allocator m1)) in Hmin.
    rewrite (paged_available_held (token_to_kv_pool_allocator m1)), Hpg1 in Hmin.
    assert (n = total_tokens reqs + len reqs * Z.of_nat ps) as Hn.
    { unfold n. simpl. rewrite Hpg. unfold seqs. by rewrite len_fmap. }
    nia. }
  rewrite Hpg1 in Ea, Hl, Hnd. exists newp, (with_allocator p' m1), c1, G1, pgs. cbv zeta.
  change (ba_alloc_extend (pres reqs) (seqs reqs) (lasts reqs) (total_tokens reqs) (token_to_kv_pool_allocator m1))
    with (Paged.alloc_extend garbage tl_other (pres reqs) (seqs reqs) (lasts reqs) (total_tokens reqs) (token_to_kv_pool_allocator m1)).
  rewrite Ea. destruct (Own.alloc_extend_frame _ _ _ _ _ _ _ _ _ Ea) as (Fp & Fn & Fg).
  split; [done|]. split; [done|]. split; [done|]. split; [done|]. split; [apply M1|].
  split; [apply M1|]. split; [apply M1|]. split; [done|]. split; [done|]. split; [done|]. split; [apply M1|].
  split; [split; [by rewrite <-Hpg1|]|split; [|done]].
  { etrans; [|apply (rm_owned _ _ _ _ _ M1)]. simpl. by rewrite Fn. }
  etrans; [exact Fg|]. exact (rm_closed _ _ _ _ _ M1).
Qed.

(** a prefill batch gets its memory.  If the extensions, rounded up to
    whole pages, fit the free and evictable memory (the bound that
    [PrefillAdder] maintains), [alloc_paged_token_slots_extend] does not fail:
    it evicts what it needs from the unlocked part of the radix cache and
    returns the reference slots, all distinct, on new pages only. *)
Theorem batch_extend_memory_suffices m c G Hs old rest reqs :
  radix_mem (ps := ps) m c G Hs (old ++ rest) → (0 < ps)%nat →
  Forall2 (chunk_on (Z.of_nat ps)) old (old_pages (Z.of_nat ps) reqs) →
  valid_batch reqs → reqs ≠ [] → Forall (aligned (Z.of_nat ps)) reqs →
  total_tokens reqs + len reqs < 2 ^ 31 →
  zsum ((fun r => ceil_to (Z.of_nat ps) (r.1.2 - r.1.1)) <$> reqs) ≤
    kv_available (token_to_kv_pool_allocator m) + evictable_size c →
  ∃ newp m' c' G' pgs,
    let out := ref_extend (Z.of_nat ps) (fun k => newp !!! Z.to_nat k) 0 reqs in
    alloc_paged_token_slots_extend hash (pres reqs) (seqs reqs) (lasts reqs) (total_tokens reqs) false m
      = Ok (out, None, m') ∧ NoDup out ∧ len newp = total_pages (Z.of_nat ps) reqs ∧
    req_to_token_pool m' = req_to_token_pool m ∧
    tree_cache m' = RadixTree c' ∧ repr c' G' Hs ∧ disable c' = false ∧ protected_size c' = protected_size c ∧
    Own.owned (token_to_kv_pool_allocator m') (newp ++ pgs) ∧
    Forall2 (chunk_on (Z.of_nat ps)) (tree_chunks c' G' ++ old ++ rest) pgs.
Proof.
  intros M Hps Hold Hv Hne Hal Hsz Hfit.
  destruct (extend_memory_ok m c G Hs old rest reqs M Hps Hold Hv Hne Hal Hsz Hfit)
    as (newp & m' & c' & G' & pgs & E & E1 & E2 & E3 & E4 & E5 & E6 & E7 & E8 & E9 & _). by exists newp, m', c', G', pgs.
Qed.

(** KV lengths before the next decoding step; with the overlap scheduler
    the newest output is not appended yet. *)
Definition kv_len (b : ScheduleBatch) (r : Req.t) : Z :=
  if enable_overlap b then Req.seqlen r else Req.seqlen r - 1.

Lemma decode_page_count b m (sl : list (Z * Z)) :
  ba_page_size (token_to_kv_pool_allocator m) = Z.of_nat ps → (0 < ps)%nat →
  sl.*1 = (fun r => 1 + kv_len b r) <$> reqs b →
  new_page_count_next_decode b m = total_pages (Z.of_nat ps) (decode_reqs sl).
Proof.
  intros Hp Hps Esl. unfold new_page_count_next_decode. rewrite Hp.
  assert (total_pages (Z.of_nat ps) (decode_reqs sl) =
    zsum ((fun r => if kv_len b r mod Z.of_nat ps =? 0 then 1 else 0) <$> reqs b)) as ->.
  { unfold total_pages, decode_reqs. revert sl Esl. generalize (reqs b). intros rs.
    induction rs as [|r rs IH]; intros [|[s l] sl] Esl; csimpl in Esl; try done.
    injection Esl as Es Esl. csimpl. rewrite !zsum_cons, IH by done. f_equal. simpl.
    rewrite new_pages_one by lia. by replace (s - 1) with (kv_len b r) by lia. }
  destruct (Z.eqb_spec (Z.of_nat ps) 1) as [E|]; [|done]. rewrite E. clear.
  induction (reqs b) as [|r rs IH]; [done|]. csimpl. rewrite len_cons, zsum_cons, <-IH, Z.mod_1_r. done.
Qed.

(** The decode allocation succeeds when the pages are free. *)
Lemma decode_alloc_ok m c G Hs old rest sl :
  radix_mem (ps := ps) m c G Hs (old ++ rest) → (0 < ps)%nat → sl ≠ [] → Forall (fun r => 1 ≤ r.1) sl →
  Forall (fun r => (r.2 + 2) mod Z.of_nat ps = r.1 mod Z.of_nat ps) sl →
  Forall2 (chunk_on (Z.of_nat ps)) old (old_pages (Z.of_nat ps) (decode_reqs sl)) →
  total_pages (Z.of_nat ps) (decode_reqs sl) * Z.of_nat ps ≤ kv_available (token_to_kv_pool_allocator m) →
  ∃ out newp m' c' G' pgs,
    alloc_paged_token_slots_decode hash sl.*1 sl.*2 false m = Ok (out, None, m') ∧
    NoDup out ∧ len out = len sl ∧ req_to_token_pool m' = req_to_token_pool m ∧
    tree_cache m' = RadixTree c' ∧ repr c' G' Hs ∧ disable c' = false ∧
    Own.owned (token_to_kv_pool_allocator m') (newp ++ pgs) ∧
    Forall2 (chunk_on (Z.of_nat ps)) (tree_chunks c' G' ++ old ++ rest) pgs ∧
    out = ref_extend (Z.of_nat ps) (fun k => newp !!! Z.to_nat k) 0 (decode_reqs sl) ∧
    len newp = total_pages (Z.of_nat ps) (decode_reqs sl) ∧ page_size c' = ps ∧
    (Paged.page_size (token_to_kv_pool_allocator m') = Z.of_nat ps ∧
     (Paged.num_pages (token_to_kv_pool_allocator m') + 1) * Z.of_nat ps ≤ 2 ^ 31) ∧
    kv_closed (ps := ps) (token_to_kv_pool_allocator m') ∧ G' ⊆ G.
Proof.
  intros M Hps Hne Hv Hal Hold Hfit. unfold alloc_paged_token_slots_decode. set (n := _ * _).
  destruct (evict_if_needed_ok hash n m c G Hs (old ++ rest) M)
    as (m2 & c2 & G2 & E2 & M2 & Hp2 & _ & Hge & _ & _ & HG).
  rewrite E2. cbn [mbind pyres_bind].
  destruct (holds_split _ _ old _ rest (rm_owned _ _ _ _ _ M2) Hold Hps) as (pgs & others & Ho & Hperm & Hf).
  assert (Paged.page_size (token_to_kv_pool_allocator m2) = Z.of_nat ps) as Hpg2 by apply (rm_owned _ _ _ _ _ M2).
  destruct (Own.alloc_decode_ok garbage tl_other (token_to_kv_pool_allocator m2) pgs others sl)
    as (newp & p' & Ea & Hl & Hnd & Ho'); rewrite ?Hpg2; try done.
  { change (kv_available (token_to_kv_pool_allocator m2)) with (Paged.available_size (token_to_kv_pool_allocator m2)) in Hge.
    rewrite (paged_available_held (token_to_kv_pool_allocator m2)), Hpg2 in Hge. nia. }
  rewrite Hpg2 in Ea, Hl, Hnd.
  eexists _, newp, (with_allocator p' m2), c2, G2, pgs.
  change (ba_alloc_decode sl.*1 sl.*2 (token_to_kv_pool_allocator m2))
    with (Paged.alloc_decode garbage tl_other sl.*1 sl.*2 (token_to_kv_pool_allocator m2)).
  rewrite Ea. destruct (Own.alloc_decode_frame _ _ _ _ _ _ _ Ea) as (Fp & Fn & Fg).
  split; [done|]. split; [done|]. split.
  { rewrite len_ref_extend, decode_total_tokens by (try apply decode_valid; done || lia). done. }
  split; [done|]. do 3 (split; [apply M2|]). split; [done|]. split; [done|]. split; [done|]. split; [done|].
  split; [apply M2|]. split; [split; [by rewrite <-Hpg2|]|split; [|done]].
  { etrans; [|apply (rm_owned _ _ _ _ _ M2)]. simpl. by rewrite Fn. }
  etrans; [exact Fg|]. exact (rm_closed _ _ _ _ _ M2).
Qed.

(** The check evicts and compares. *)
Lemma check_decode_ok b m c G Hs rest (sl : list (Z * Z)) :
  radix_mem (ps := ps) m c G Hs rest → (0 < ps)%nat → sl.*1 = (fun r => 1 + kv_len b r) <$> reqs b →
  let need := total_pages (Z.of_nat ps) (decode_reqs sl) * Z.of_nat ps in
  ∃ m1 c1 G1, check_decode_mem hash 1 b m
      = Ok (need <=? kv_available (token_to_kv_pool_allocator m1), m1) ∧
    radix_mem (ps := ps) m1 c1 G1 Hs rest ∧ req_to_token_pool m1 = req_to_token_pool m ∧
    (need ≤ kv_available (token_to_kv_pool_allocator m1) ↔
     need ≤ kv_available (token_to_kv_pool_allocator m) + evictable_size c) ∧
    kv_available (token_to_kv_pool_allocator m) ≤ kv_available (token_to_kv_pool_allocator m1) ∧ G1 ⊆ G ∧
    kv_available (token_to_kv_pool_allocator m1) + evictable_size c1 = kv_available (token_to_kv_pool_allocator m) + evictable_size c ∧
    protected_size c1 = protected_size c.
Proof.
  intros M Hps Esl need.
  assert (Paged.page_size (token_to_kv_pool_allocator m) = Z.of_nat ps) as Hpg by apply (rm_owned _ _ _ _ _ M).
  unfold check_decode_mem. rewrite (decode_page_count b m sl Hpg Hps Esl).
  change (ba_page_size (token_to_kv_pool_allocator m)) with (Paged.page_size (token_to_kv_pool_allocator m)).
  rewrite Hpg, Z.mul_1_r. fold need.
  destruct (evict_if_needed_ok hash need m c G Hs rest M) as (m1 & c1 & G1 & E1 & M1 & Hp1 & Hsum & Hge & Hmin & Hpr & HG).
  rewrite E1. cbn [mbind pyres_bind]. exists m1, c1, G1. split; [done|].
  pose proof (evictable_nonneg _ _ _ (rm_repr _ _ _ _ _ M1)). split; [done|]. split; [done|]. split; [lia|]. done.
Qed.

(** decoding gets its memory.  [check_decode_mem] answers whether the
    pages of the next step fit the free and evictable memory, counting one
    page for each request whose pages are full; after a positive answer
    [alloc_paged_token_slots_decode] does not fail and returns one distinct
    slot per request. *)
Theorem batch_decode_memory_suffices b m c G Hs old rest sl :
  radix_mem (ps := ps) m c G Hs (old ++ rest) → (0 < ps)%nat → reqs b ≠ [] →
  sl.*1 = (fun r => 1 + kv_len b r) <$> reqs b → Forall (fun r => 0 ≤ kv_len b r) (reqs b) →
  Forall (fun r => (r.2 + 2) mod Z.of_nat ps = r.1 mod Z.of_nat ps) sl →
  Forall2 (chunk_on (Z.of_nat ps)) old (old_pages (Z.of_nat ps) (decode_reqs sl)) →
  ∃ ok m1, check_decode_mem hash 1 b m = Ok (ok, m1) ∧
    (ok = true ↔ new_page_count_next_decode b m * Z.of_nat ps ≤
       kv_available (token_to_kv_pool_allocator m) + evictable_size c) ∧
    (ok = true → ∃ out newp m' c' G' pgs,
       alloc_paged_token_slots_decode hash sl.*1 sl.*2 false m1 = Ok (out, None, m') ∧
       NoDup out ∧ len out = len (reqs b) ∧
       tree_cache m' = RadixTree c' ∧ repr c' G' Hs ∧
       Own.owned (token_to_kv_pool_allocator m') (newp ++ pgs) ∧
       Forall2 (chunk_on (Z.of_nat ps)) (tree_chunks c' G' ++ old ++ rest) pgs).
Proof.
  intros M Hps Hne Esl Hnn Hal Hold.
  assert (Paged.page_size (token_to_kv_pool_allocator m) = Z.of_nat ps) as Hpg by apply (rm_owned _ _ _ _ _ M).
  assert (len sl = len (reqs b)) as Hlen by (rewrite <-(len_fmap fst sl), Esl; apply len_fmap).
  destruct (check_decode_ok b m c G Hs (old ++ rest) sl M Hps Esl) as (m1 & c1 & G1 & E & M1 & _ & Hiff & _).
  rewrite (decode_page_count b m sl Hpg Hps Esl). eexists _, m1. split; [exact E|].
  split; [rewrite Z.leb_le; exact Hiff|]. intros Hok%Z.leb_le.
  destruct (decode_alloc_ok m1 c1 G1 Hs old rest sl M1 Hps) as
    (out & newp & m' & c' & G' & pgs & Ea & Hnd & Hl & _ & Ht & R & _ & Ho & Hf & _); try done.
  { intros ->. rewrite len_nil in Hlen. symmetry in Hlen. by apply len_zero in Hlen. }
  { apply (Forall_fmap fst (fun x => 1 ≤ x)). rewrite Esl. apply Forall_fmap.
    eapply Forall_impl; [exact Hnn|]. simpl. intros. lia. }
  rewrite Hlen in Hl. exists out, newp, m', c', G', pgs. done.
Qed.

End paged_memory.

Definition demo_memory : memory Paged.t :=
  mkMemory (ReqPool.init 2 8) demo_pool (RadixTree demo_cache).

Lemma demo_memory_ok : ∃ G, radix_mem (ps := 2) (H0 := paged_kv 2) demo_memory demo_cache G [] ([] ++ []).
Proof.
  destruct demo_repr_chunks as (G & R & C). exists G.
  split; [reflexivity|exact R|reflexivity|reflexivity| |reflexivity|vm_compute; discriminate].
  change (kv_owned (ps := 2) demo_pool (tree_chunks demo_cache G ++ [])).
  rewrite app_nil_r, C. exact demo_pool_owned.
Qed.

Lemma batch_extend_memory_suffices_witness :
  ∃ out m', alloc_paged_token_slots_extend (ps := 2) (H0 := paged_kv 2)
      (H1 := paged_batch_allocator (fun _ => 0) (fun _ => 0)) demo_hash
      [2] [5] [3] 3 false demo_memory = Ok (out, None, m') ∧ NoDup out.
Proof.
  destruct demo_memory_ok as [G M].
  destruct (batch_extend_memory_suffices demo_hash (fun _ => 0) (fun _ => 0) 2 demo_memory demo_cache G [] [] []
    [(2, 5, 3)]) as (newp & m' & c' & G' & pgs & E & Hnd & _);
    [exact M|lia|constructor|repeat constructor; simpl; lia|discriminate|repeat constructor|reflexivity| |].
  { vm_compute. discriminate. }
  eexists _, m'. split; [exact E|exact Hnd].
Defined.

Definition demo_decode_batch : ScheduleBatch :=
  mkBatch [Req.demo_req [4; 9]] None false [] [0] [4] [4] None (Some [9]) 4 false [] [] 0 [] None.

Lemma batch_decode_memory_suffices_witness :
  ∃ m1 out m', check_decode_mem (ps := 2) (H0 := paged_kv 2)
      (H1 := paged_batch_allocator (fun _ => 0) (fun _ => 0)) demo_hash 1 demo_decode_batch demo_memory
      = Ok (true, m1) ∧
    alloc_paged_token_slots_decode (ps := 2) (H0 := paged_kv 2)
      (H1 := paged_batch_allocator (fun _ => 0) (fun _ => 0)) demo_hash [5] [9] false m1 = Ok (out, None, m') ∧
    len out = 1.
Proof.
  destruct demo_memory_ok as [G M].
  destruct (batch_decode_memory_suffices demo_hash (fun _ => 0) (fun _ => 0) 2 demo_decode_batch demo_memory
    demo_cache G [] [] [] [(5, 9)]) as (ok & m1 & E & Hiff & Halloc);
    [exact M|lia|discriminate|reflexivity|repeat constructor; vm_compute; discriminate|repeat constructor|constructor|].
  assert (ok = true) as -> by (apply Hiff; vm_compute; discriminate).
  destruct (Halloc eq_refl) as (out & newp & m' & c' & G' & pgs & Ea & _ & Hl & _).
  exists m1, out, m'. split; [exact E|]. split; [exact Ea|exact Hl].
Defined.
