(* ===== verification/MemoryAccount.v ===== *)
(** * Accounting of the KV memory

    The sizes the radix cache keeps, as pages: every page of the paged
    allocator is free, in the tree, or held by a request; and a single lock
    protects exactly the path of its node. *)

From S2P Require Import Prelude Allocator PagedAllocator PagedProofs SWAAllocator ReqPool SamplingParams Request KVAllocator.
From S2P Require Import RadixCache RadixInv RadixOwn RadixLocks RadixTraverse RadixEvict SchedulePolicy PrefixCache PrefillAdder ScheduleBatch BatchMemory.

(** ** The tree *)

Section tree.
Context (c : RadixCache) (G : gmap nat path) (Hs : list nat) (R : repr c G Hs).

Lemma slots_aligned n l : G !! n = Some l →
  len (slots (node_at c n)) = weight c n ∧ (length (slots (node_at c n)) mod page_size c = 0)%nat.
Proof using R.
  intros Hn. destruct (decide (n = root_node c)) as [->|Hne].
  - destruct (r_rootnode _ _ _ R) as (_ & Ek & Ev). unfold slots, weight. rewrite Ek, Ev. split; [done|apply Nat.Div0.mod_0_l].
  - destruct (r_node _ _ _ R n l Hn Hne) as (p & lp & [_ _ _ _ Ha _ El _]). unfold weight, len. by rewrite El.
Qed.

Lemma tree_account : Z.of_nat (page_size c) * len (tree_chunks c G) = evictable_size c + protected_size c.
Proof using R.
  assert (∀ K, K ⊆ G → Z.of_nat (page_size c) * len (tree_chunks c K) = gsum (fun n _ => weight c n) K) as Hall.
  { induction K as [|n l K Hn IH] using map_ind; intros Hsub.
    - rewrite gsum_empty. unfold tree_chunks. rewrite map_to_list_empty. simpl. rewrite len_nil. lia.
    - rewrite (len_perm _ _ (tree_chunks_insert c K n l Hn)), len_app, gsum_insert by done.
      assert (G !! n = Some l) as Hg by (eapply lookup_weaken; [apply lookup_insert_eq|done]).
      destruct (slots_aligned n l Hg) as [<- Ha]. rewrite <-(pages_length (page_size c)) by (apply R || done).
      rewrite <-IH; [lia|]. etrans; [|exact Hsub]. by apply insert_subseteq. }
  rewrite (Hall G) by done. unfold evictable_size, protected_size.
  rewrite (r_evictable _ _ _ R), (r_protected _ _ _ R), <-gsum_add. apply gsum_ext. intros n l Hn.
  unfold evictable_weight, protected_weight. destruct (decide (n = root_node c)) as [->|]; [|case_decide; lia].
  unfold weight. by destruct (r_rootnode _ _ _ R) as (_ & -> & _).
Qed.

(** The keys on the path of a node add up to the path. *)
Lemma path_weight n ln : G !! n = Some ln → asum G (weight c) ln = len ln.
Proof using R.
  remember (length ln) as k eqn:Ek. revert n ln Ek. induction k as [k IH] using lt_wf_ind. intros n ln -> Hn.
  destruct (decide (n = root_node c)) as [->|Hne].
  - rewrite (r_root _ _ _ R) in Hn. injection Hn as <-. by eapply asum_root.
  - destruct (r_node _ _ _ R n ln Hn Hne) as (p & lp & Hok). rewrite (asum_step _ _ _ R _ _ _ _ _ Hn Hok).
    destruct (path_longer _ _ _ R _ _ _ _ Hok) as [Hlen _]. pose proof (r_page _ _ _ R).
    rewrite (IH (length lp)) with (n := p) by (done || lia || apply Hok).
    rewrite (ok_path _ _ _ _ _ _ Hok), len_app. unfold weight, len. rewrite length_zip_with, (ok_length _ _ _ _ _ _ Hok). lia.
Qed.

End tree.

(** One lock protects its path. *)
Lemma protected_single c G n ln : repr c G [n] → G !! n = Some ln → protected_size c = len ln.
Proof.
  intros R Hn. rewrite <-(path_weight c G _ R n ln Hn). unfold protected_size. rewrite (r_protected _ _ _ R).
  unfold asum. apply gsum_ext. intros m lm Hm. unfold protected_weight.
  destruct (decide (m = root_node c)) as [->|Hne].
  - rewrite decide_False; [done|]. intros [_ Hl]. rewrite (r_root _ _ _ R) in Hm. by injection Hm as <-.
  - assert (lm ≠ []) as Hl by (by apply (nonroot_iff c G [n] R m lm Hm)).
    rewrite (r_locks _ _ _ R m lm Hm Hne), (holders_cons _ _ _ _ _ Hn). assert (holders G [] lm = 0) as -> by done. unfold on_path.
    repeat case_decide; try done; try lia; tauto.
Qed.

Lemma protected_none c G : repr c G [] → protected_size c = 0.
Proof.
  intros R. unfold protected_size. rewrite (r_protected _ _ _ R). rewrite (gsum_ext _ (fun _ _ => 0)); [apply gsum_zeros|].
  intros m lm Hm. unfold protected_weight. destruct (decide (m = root_node c)) as [|Hne]; [done|].
  by rewrite (r_locks _ _ _ R m lm Hm Hne), decide_True by done.
Qed.

(** Locks protect at most the paths of their nodes. *)
Lemma protected_le c G Hs : repr c G Hs →
  protected_size c ≤ zsum ((fun h => len (default [] (G !! h))) <$> Hs).
Proof.
  intros R. assert (zsum ((fun h => len (default [] (G !! h))) <$> Hs) = zsum ((fun h => asum G (weight c) (default [] (G !! h))) <$> Hs)) as ->.
  { f_equal. apply list_fmap_ext. intros i h Hi. destruct (r_handles _ _ _ R h) as [lh Eh]; [by eapply list_elem_of_lookup_2|].
    rewrite Eh. simpl. by rewrite (path_weight c G Hs R h lh Eh). }
  assert (zsum ((fun h => asum G (weight c) (default [] (G !! h))) <$> Hs) =
    gsum (fun n l => if decide (l = []) then 0 else holders G Hs l * weight c n) G) as ->.
  { pose proof (r_handles _ _ _ R) as Hh. clear R. induction Hs as [|h Hs IH]; [|rewrite fmap_cons, zsum_cons].
    - rewrite (gsum_ext _ (fun _ _ => 0)), gsum_zeros; [done|]. intros n l _. by case_decide.
    - rewrite IH by (intros h' Hin; apply Hh; set_solver). destruct (Hh h) as [lh Eh]; [set_solver|]. rewrite Eh. simpl.
      unfold asum. rewrite <-gsum_add. apply gsum_ext. intros n l _. rewrite (holders_cons _ _ _ _ _ Eh).
      unfold on_path. repeat case_decide; try tauto; lia. }
  unfold protected_size. rewrite (r_protected _ _ _ R). apply gsum_le. intros n l Hn. unfold protected_weight.
  assert (0 ≤ weight c n) as Hw by (unfold weight; len_pos; lia). pose proof (holders_nonneg G Hs l) as Hh.
  destruct (decide (n = root_node c)) as [->|Hne]; [repeat case_decide; lia|].
  rewrite (decide_False (P := l = [])) by (by apply (nonroot_iff c G Hs R n l Hn)).
  rewrite (r_locks _ _ _ R n l Hn Hne). case_decide; nia.
Qed.

(** The number of pages of a list. *)
Lemma pages_cdiv (ps : nat) (k : list Z) : (0 < ps)%nat → len (pages ps k) = cdiv (len k) (Z.of_nat ps).
Proof.
  intros Hps. induction k as [|k Hk IH] using (pages_ind ps Hps).
  - rewrite pages_nil by done. unfold cdiv. change (len []) with 0. symmetry. apply Z.div_small. lia.
  - rewrite pages_unfold by done. rewrite len_cons, IH. unfold cdiv, len. rewrite length_drop.
    destruct (decide (ps ≤ length k)%nat) as [Hle|Hgt].
    + replace (Z.of_nat (length k) + Z.of_nat ps - 1) with (Z.of_nat (length k - ps) + Z.of_nat ps - 1 + 1 * Z.of_nat ps) by lia.
      rewrite Z.div_add by lia. lia.
    + replace (length k - ps)%nat with 0%nat by lia. rewrite (Z.div_small (Z.of_nat 0 + _ - 1)) by lia.
      apply Z.div_unique with (Z.of_nat (length k) - 1); destruct k; simpl in *; lia || done.
Qed.

(** ** The pool *)

(** The dimensions of the request table. *)
Definition pool_shape {A} (m : memory A) : Z * Z :=
  (ReqPool.size (req_to_token_pool m), ReqPool.max_context_len (req_to_token_pool m)).

Section pool.
Context {ps : nat}.
#[local] Instance makv : KVAllocator ps Paged.t := paged_kv ps.

(** Every page is free, in the tree, or held. *)
Lemma paged_account (m : memory Paged.t) c G Hs rest :
  radix_mem m c G Hs rest →
  Z.max 0 (Paged.num_pages (token_to_kv_pool_allocator m)) * Z.of_nat ps =
    Paged.available_size (token_to_kv_pool_allocator m) + evictable_size c + protected_size c + Z.of_nat ps * len rest.
Proof.
  intros [_ R _ Ep [[Hpg _] (pgs & Hf & Ho)] Hc _]. pose proof (tree_account c G Hs R) as Ht. rewrite Ep in Ht. rewrite paged_available_held, Hpg.
  set (a := token_to_kv_pool_allocator m) in *. destruct Ho as [Hp _ _].
  assert (Own.pending a = []) as Hpend.
  { unfold Own.pending. change (Base.is_not_in_free_group (Paged.base a) = true) in Hc. by rewrite Hc. }
  rewrite Hpend in Hp. simpl in Hp. apply len_perm in Hp. rewrite len_app, len_arange in Hp.
  apply Forall2_length in Hf. rewrite length_app in Hf.
  assert (len pgs = len (tree_chunks c G) + len rest) as El by (unfold len; lia).
  replace (Z.max 0 (Paged.num_pages a)) with (Z.max 0 (Paged.num_pages a + 1 - 1)) by lia. rewrite <-Hp. nia.
Qed.

(** Slots held in pages lie at their place of the page. *)
Definition in_page (N x : Z) (i : nat) : Prop := x mod Z.of_nat ps = Z.of_nat i mod Z.of_nat ps ∧ 0 ≤ x < (N + 1) * Z.of_nat ps.

Lemma pages_in_page N k : (0 < ps)%nat →
  Forall (fun ch => ∃ pg, chunk_on (Z.of_nat ps) ch pg ∧ 1 ≤ pg ≤ N) (pages ps k) →
  ∀ i x, k !! i = Some x → in_page N x i.
Proof.
  intros Hps. induction k as [|k Hk IH] using (pages_ind ps Hps); [done|]. rewrite pages_unfold by done.
  intros [(pg & Hc & Hpg) Hr]%Forall_cons i x Hi. destruct (decide (i < ps)%nat) as [Hlt|Hge].
  - rewrite <-(lookup_take_lt k ps) in Hi by done. destruct (chunk_lookup _ _ _ _ _ Hc Hi) as [-> _]. split; [|nia].
    rewrite Z.add_comm. by apply Z.mod_add; lia.
  - destruct (IH Hr (i - ps)%nat x) as [H1 H2]; [rewrite lookup_drop; by replace (ps + (i - ps))%nat with i by lia|].
    split; [|done]. rewrite H1. replace (Z.of_nat i) with (Z.of_nat (i - ps) + 1 * Z.of_nat ps) by lia. by rewrite Z.mod_add by lia.
Qed.

Lemma owned_chunks (p : Paged.t) cs : paged_holds ps p cs →
  Forall (fun ch => ∃ pg, chunk_on (Z.of_nat ps) ch pg ∧ 1 ≤ pg ≤ Paged.num_pages p) cs.
Proof.
  intros [_ (pgs & Hf & [Hp _ _])]. apply Forall_lookup. intros i ch Hi. destruct (Forall2_lookup_l _ _ _ _ _ Hf Hi) as (pg & Hg & Hc).
  exists pg. split; [done|]. assert (pg ∈ arange 1 (Paged.num_pages p + 1)) as Hin.
  { rewrite <-Hp. apply list_elem_of_lookup_2 in Hg. set_solver. }
  apply elem_of_arange in Hin. lia.
Qed.

(** Cached slots fit the request table and lie at their position. *)
Lemma tree_in_page (p : Paged.t) c G Hs rest n l :
  repr c G Hs → page_size c = ps → paged_holds ps p (tree_chunks c G ++ rest) → G !! n = Some l →
  ∀ i x, l.*2 !! i = Some x → in_page (Paged.num_pages p) x i.
Proof.
  intros R Hpg Ho. pose proof (r_page _ _ _ R) as Hps. rewrite Hpg in Hps. apply owned_chunks, Forall_app in Ho as [Ho _].
  remember (length l) as d eqn:Ed. revert n l Ed. induction d as [d IH] using lt_wf_ind. intros n l -> Hn i x Hi.
  destruct (decide (n = root_node c)) as [->|Hr].
  { pose proof (r_root _ _ _ R) as E. assert (l = []) as -> by congruence. done. }
  destruct (r_node _ _ _ R n l Hn Hr) as (q & lq & K). pose proof (path_longer _ _ _ R _ _ _ _ K) as [Hlen _].
  assert (l.*2 = lq.*2 ++ slots (node_at c n)) as Ep.
  { rewrite (ok_path _ _ _ _ _ _ K), fmap_app. f_equal. apply snd_zip. rewrite (ok_length _ _ _ _ _ _ K). done. }
  rewrite Ep in Hi. apply lookup_app_Some in Hi as [Hi|[Hge Hi]]; [eapply (IH (length lq)); [lia|done|apply K|done]|].
  assert (length lq mod ps = 0)%nat as Hal by (rewrite <-Hpg; by eapply path_aligned; [exact R|apply K]).
  rewrite length_fmap in *. destruct (pages_in_page (Paged.num_pages p) (slots (node_at c n)) Hps) with (i := (i - length lq)%nat) (x := x) as [H1 H2].
  - apply Forall_forall. intros ch Hch. apply (proj1 (Forall_forall _ _) Ho). unfold tree_chunks.
    apply list_elem_of_bind. exists (n, l). rewrite Hpg. split; [done|]. by apply elem_of_map_to_list.
  - done.
  - split; [|done]. rewrite H1. apply Nat.Div0.mod_divides in Hal as [z Hz].
    replace (Z.of_nat i) with (Z.of_nat (i - length lq) + Z.of_nat z * Z.of_nat ps) by lia. by rewrite Z.mod_add by lia.
Qed.

End pool.
