(* ===== verification/BatchExtend.v ===== *)
(** * Preparing a prefill batch

    [ScheduleBatch.prepare_for_extend] over a paged allocator and a radix
    cache: requests whose cached prefixes are whole pages get rows and slots,
    and the rows hold the prefix followed by the new slots. *)

From S2P Require Import Prelude Allocator PagedAllocator PagedProofs ReqPool Request KVAllocator RadixCache.
From S2P Require Import RadixInv RadixOwn RadixInsert RadixEvict SamplingParams SchedulePolicy PrefixCache PrefillAdder PrefillAdderProofs.
From S2P Require Import ScheduleBatch BatchKernels BatchMemory MemoryAccount.

(** ** The rows of the batch *)

(** A request with its prefix: whole pages of int32 slots, the last one at
    the end of its page, within the context length. *)
Record extendable (ps n : Z) (r : Req.t) : Prop := mk_extendable {
  ex_aligned : (ps | len (Req.prefix_indices r));
  ex_pos : 0 < Req.extend_input_len r;
  ex_fill : len (Req.fill_ids r) = len (Req.prefix_indices r) + Req.extend_input_len r;
  ex_context : len (Req.fill_ids r) ≤ n;
  ex_slots : Forall (fun v => 0 ≤ v < 2 ^ 31) (Req.prefix_indices r);
  ex_last : ∀ x, last (Req.prefix_indices r) = Some x → (x + 1) mod ps = 0;
}.

(** What the loop does to a request. *)
Definition extended (idx : Z) (r : Req.t) : Req.t :=
  let pre_len := len (Req.prefix_indices r) in
  let r := Req.set_req_pool_idx (Some idx) r in
  let r := Req.set_cached_tokens (Req.cached_tokens r + (pre_len - Req.already_computed r)) r in
  set_extend_logprob_start pre_len
    (Req.set_is_retracted false (Req.set_already_computed (len (Req.fill_ids r)) r)).

Lemma extend_one_ok ps idx r p :
  ReqPool.wf p → 0 ≤ idx < ReqPool.size p → extendable ps (ReqPool.max_context_len p) r →
  ∃ p', extend_one idx r p = Ok (extended idx r, p') ∧ ReqPool.wf p' ∧
    ReqPool.size p' = ReqPool.size p ∧ ReqPool.max_context_len p' = ReqPool.max_context_len p ∧
    ReqPool.free_slots p' = ReqPool.free_slots p ∧
    take (length (Req.prefix_indices r)) (ReqPool.row idx p') = Req.prefix_indices r ∧
    (∀ j, 0 ≤ j → j ≠ idx → ReqPool.row j p' = ReqPool.row j p).
Proof.
  intros Hw Hi [E1 E2 E3 E4 E5 E6]. unfold extend_one, extended. rewrite E3. simpl.
  replace (len (Req.prefix_indices r) + Req.extend_input_len r - len (Req.prefix_indices r) =? Req.extend_input_len r)
    with true by (symmetry; apply Z.eqb_eq; lia). simpl.
  destruct (Z.ltb_spec 0 (len (Req.prefix_indices r))) as [Hpos|Hz].
  - destruct (ReqPool.write_read p idx 0 (Req.prefix_indices r)) as (p' & E & Hw' & Hs & Hf & Hr & Ho); try done; [lia|].
    rewrite Z.add_0_l in E. rewrite E. simpl. exists p'. split; [by rewrite E3|].
    split_and!; try done; [by eapply ReqPool.write_context|]. rewrite Hr. simpl. by rewrite take_app_length.
  - assert (Req.prefix_indices r = []) as Ep by (apply len_zero; pose proof (len_nonneg (Req.prefix_indices r)); lia).
    exists p. simpl. split; [by rewrite E3|]. by rewrite Ep.
Qed.

Lemma extend_loop_ok ps idxs : ∀ rs p,
  ReqPool.wf p → length idxs = length rs → NoDup idxs → Forall (fun i => 0 ≤ i < ReqPool.size p) idxs →
  Forall (extendable ps (ReqPool.max_context_len p)) rs →
  ∃ p', extend_loop idxs rs p = Ok (zip_with extended idxs rs, p') ∧ ReqPool.wf p' ∧
    ReqPool.size p' = ReqPool.size p ∧ ReqPool.max_context_len p' = ReqPool.max_context_len p ∧
    ReqPool.free_slots p' = ReqPool.free_slots p ∧
    Forall2 (fun i r => take (length (Req.prefix_indices r)) (ReqPool.row i p') = Req.prefix_indices r) idxs rs ∧
    (∀ j, 0 ≤ j → j ∉ idxs → ReqPool.row j p' = ReqPool.row j p).
Proof.
  induction idxs as [|i idxs IH]; intros [|r rs] p Hw Hl Hnd Hi Hx; try done.
  { exists p. split_and!; done. }
  apply NoDup_cons in Hnd as [Hni Hnd]. apply Forall_cons in Hi as [Hi His]. apply Forall_cons in Hx as [Hx Hxs].
  destruct (extend_one_ok ps i r p Hw Hi Hx) as (p1 & E1 & W1 & S1 & M1 & F1 & R1 & O1).
  destruct (IH rs p1) as (p' & E & W & Sz & Mx & Fs & Rw & Ot); try done;
    [naive_solver|by rewrite S1|by rewrite M1|].
  cbn [extend_loop]. rewrite E1. cbn [mbind pyres_bind]. rewrite E. cbn [mbind pyres_bind mret pyres_ret].
  exists p'. split; [done|]. split; [done|]. split; [congruence|]. split; [congruence|]. split; [congruence|].
  split; [constructor; [by rewrite Ot by (done || lia)|done]|].
  intros j Hj Hn. rewrite Ot by set_solver. apply O1; set_solver.
Qed.

(** Rows handed out by the pool. *)
Lemma owned_rows p used idx :
  ReqPool.owned p (idx ++ used) → NoDup idx ∧ Forall (fun i => 0 ≤ i < ReqPool.size p) idx.
Proof.
  unfold ReqPool.owned. intros Ho.
  assert (NoDup (ReqPool.free_slots p ++ idx ++ used)) as Hnd by (rewrite Ho; apply NoDup_seqZ).
  rewrite !NoDup_app in Hnd. split; [tauto|]. apply Forall_forall. intros x Hx.
  apply elem_of_arange. rewrite <-Ho. set_solver.
Qed.

Lemma alloc_shape n p : ReqPool.wf p →
  ReqPool.wf (ReqPool.alloc n p).2 ∧ ReqPool.max_context_len (ReqPool.alloc n p).2 = ReqPool.max_context_len p ∧
  ReqPool.size (ReqPool.alloc n p).2 = ReqPool.size p.
Proof. unfold ReqPool.alloc. by destruct (_ <? n). Qed.

(** ** Writing the new slots *)

(** Rows hold what they held before [pre], then the new slots. *)
Lemma write_loop_rows out : ∀ (l : list (Z * Z * Z)) pt p,
  ReqPool.wf p → Forall (row_part p) l → NoDup ((fun r => r.1.1) <$> l) →
  0 ≤ pt → pt + zsum ((fun r => r.2 - r.1.2) <$> l) = len out →
  ∃ p', write_loop ((fun r => r.1.1) <$> l) ((fun r => r.1.2) <$> l) l.*2
      ((fun r => r.2 - r.1.2) <$> l) out pt p = Ok p' ∧
    ReqPool.free_slots p' = ReqPool.free_slots p ∧ ReqPool.size p' = ReqPool.size p ∧
    (∀ j, 0 ≤ j → j ∉ ((fun r => r.1.1) <$> l) → ReqPool.row j p' = ReqPool.row j p) ∧
    (∀ k i pre seq, l !! k = Some (i, pre, seq) →
       take (Z.to_nat seq) (ReqPool.row i p') = take (Z.to_nat pre) (ReqPool.row i p) ++
         (int32 <$> out.[pt + zsum ((fun r => r.2 - r.1.2) <$> take k l) ::
                         pt + zsum ((fun r => r.2 - r.1.2) <$> take k l) + (seq - pre)])).
Proof.
  induction l as [|[[i pre] seq] l IH]; intros pt p Hw Hin Hnd Hpt Hlen.
  { exists p. split_and!; try done. }
  apply Forall_cons in Hin as [Hr Hin]. csimpl in Hnd. apply NoDup_cons in Hnd as [Hni Hnd].
  csimpl in Hlen. rewrite zsum_cons in Hlen. cbn [fst snd] in Hlen.
  assert (0 ≤ zsum ((fun r : Z * Z * Z => r.2 - r.1.2) <$> l)) as Hnn.
  { clear -Hin. induction Hin as [|[[? ?] ?] l (_ & ? & ?) _ IH]; [done|]. csimpl. rewrite zsum_cons. simpl in *. lia. }
  destruct Hr as (Hi & Hp & Hs). cbn [fst snd] in Hi, Hp, Hs, Hni.
  set (vs := out.[pt :: pt + (seq - pre)]).
  assert (len vs = seq - pre) as Hvs.
  { unfold vs. rewrite py_slice_nonneg by lia. rewrite len_take, len_drop. lia. }
  destruct (write_splice p i pre seq vs Hw) as [Ew Hw1]; [done|done|].
  set (p1 := with_rows _ p) in *. pose proof Hw as (Hl & Hrl & _).
  destruct (lookup_lt_is_Some_2 (ReqPool.req_to_token p) (Z.to_nat i)) as [row E]; [unfold len in Hl; lia|].
  assert (ReqPool.row i p = row) as Er by (unfold ReqPool.row; by apply list_lookup_total_correct).
  assert (ReqPool.row i p1 = splice (Z.to_nat pre) (int32 <$> vs) row) as Er1.
  { unfold ReqPool.row, p1, with_rows. simpl. apply list_lookup_total_correct.
    by rewrite list_lookup_alter_eq, E. }
  assert (∀ j, 0 ≤ j → j ≠ i → ReqPool.row j p1 = ReqPool.row j p) as Ho1.
  { intros j Hj Hne. unfold ReqPool.row, p1, with_rows. simpl. rewrite !list_lookup_total_alt.
    rewrite list_lookup_alter_ne by lia. done. }
  destruct (IH (pt + (seq - pre)) p1) as (p' & E' & Hf & Hsz & Ho & Hrows); try done; [lia|lia|].
  csimpl. unfold vs in Ew. rewrite Ew. cbn [mbind pyres_bind]. exists p'. split; [done|]. split; [done|]. split; [done|].
  split.
  { intros j Hj Hn. rewrite Ho by set_solver. apply Ho1; set_solver. }
  intros [|k] i' pre' seq' Ek; csimpl in Ek.
  - injection Ek as <- <- <-. rewrite Ho by (done || lia). rewrite Er1, Er. change (zsum _) with 0. rewrite Z.add_0_r.
    fold vs. unfold splice. pose proof (Hrl i Hi) as Hlr. rewrite Er in Hlr. unfold len in *.
    rewrite app_assoc, take_app_le by (rewrite length_app, length_take, length_fmap; lia).
    apply take_ge. rewrite length_app, length_take, length_fmap. lia.
  - assert (i' ≠ i) as Hne.
    { intros ->. apply Hni. apply list_elem_of_fmap. eexists. split; [|by eapply list_elem_of_lookup_2]. done. }
    assert (0 ≤ i') as Hi' by (pose proof (Forall_lookup_1 _ _ _ _ Hin Ek) as (? & _); simpl in *; lia).
    rewrite (Hrows k i' pre' seq' Ek), Ho1 by done. csimpl. rewrite zsum_cons. cbn [fst snd]. do 3 f_equal; lia.
Qed.

(** ** The new pages *)

Section pages.
Context (ps : nat) (Hps : (0 < ps)%nat).

(** Consecutive slots from the start of a page. *)
Definition slot_at (page : Z → Z) (j : Z) : Z := page (j / Z.of_nat ps) * Z.of_nat ps + j mod Z.of_nat ps.

Lemma fill_pages (n : nat) : ∀ page : Z → Z,
  Forall2 (chunk_on (Z.of_nat ps)) (pages ps (slot_at page <$> arange 0 (Z.of_nat n)))
    (page <$> arange 0 (cdiv (Z.of_nat n) (Z.of_nat ps))).
Proof using Hps.
  induction n as [n IH] using lt_wf_ind. intros page. destruct (decide (n = 0)%nat) as [->|Hn].
  { rewrite arange_empty by lia. csimpl. rewrite pages_nil by done. unfold cdiv. rewrite Z.div_small, arange_empty by lia. constructor. }
  rewrite pages_unfold; [|done|].
  2:{ intros E%(f_equal length). rewrite length_fmap in E. unfold arange in E. rewrite length_seqZ in E. simpl in E. lia. }
  set (k := Nat.min ps n).
  assert (take ps (slot_at page <$> arange 0 (Z.of_nat n)) = slot_at page <$> arange 0 (Z.of_nat k) ∧
    drop ps (slot_at page <$> arange 0 (Z.of_nat n)) = slot_at (fun i => page (1 + i)) <$> arange 0 (Z.of_nat (n - ps))) as [-> ->].
  { split; apply list_eq; intros i; rewrite ?lookup_take, ?lookup_drop, !list_lookup_fmap; unfold arange.
    - case_decide as Hi; [|symmetry; apply fmap_None, lookup_seqZ_ge; lia].
      destruct (decide (i < n)%nat); [rewrite !lookup_seqZ_lt by lia; done|rewrite !lookup_seqZ_ge by lia; done].
    - destruct (decide (ps + i < n)%nat); [rewrite !lookup_seqZ_lt by lia|rewrite !lookup_seqZ_ge by lia; done]. simpl. f_equal.
      unfold slot_at. replace (0 + Z.of_nat (ps + i)) with (0 + Z.of_nat i + 1 * Z.of_nat ps) by lia.
      rewrite Z.div_add, Z.mod_add by lia. do 3 f_equal. lia. }
  assert (cdiv (Z.of_nat n) (Z.of_nat ps) = 1 + cdiv (Z.of_nat (n - ps)) (Z.of_nat ps)) as ->.
  { unfold cdiv. destruct (decide (ps ≤ n)%nat).
    - replace (Z.of_nat n + Z.of_nat ps - 1) with (Z.of_nat (n - ps) + Z.of_nat ps - 1 + 1 * Z.of_nat ps) by lia.
      rewrite Z.div_add by lia. lia.
    - replace (n - ps)%nat with 0%nat by lia. rewrite (Z.div_small (Z.of_nat 0 + _ - 1)) by lia.
      symmetry. apply Z.div_unique with (Z.of_nat n - 1); lia. }
  assert (0 ≤ cdiv (Z.of_nat (n - ps)) (Z.of_nat ps)) as Hc by (unfold cdiv; apply Z.div_pos; lia).
  rewrite (arange_cons 0 (1 + _)) by lia. csimpl. constructor.
  - split.
    + intros E%(f_equal length). rewrite length_fmap in E. unfold arange in E. rewrite length_seqZ in E. simpl in E. lia.
    + unfold Paged.page_slots. rewrite (arange_app 0 (Z.of_nat k) (Z.of_nat ps)), fmap_app by lia.
      assert (slot_at page <$> arange 0 (Z.of_nat k) = (fun o => page 0 * Z.of_nat ps + o) <$> arange 0 (Z.of_nat k)) as ->; [|by apply prefix_app_r].
      apply fmap_ext_elem. intros j Hj%elem_of_arange. unfold slot_at. by rewrite Z.div_small, Z.mod_small by lia.
  - replace (page <$> arange (0 + 1) (1 + cdiv (Z.of_nat (n - ps)) (Z.of_nat ps)))
      with ((fun i => page (1 + i)) <$> arange 0 (cdiv (Z.of_nat (n - ps)) (Z.of_nat ps))); [apply IH; lia|].
    rewrite <-(arange_shift 1 0), <-list_fmap_compose. done.
Qed.

Lemma ref_fill pre seq last page : (Z.of_nat ps | pre) →
  ref_slot (Z.of_nat ps) pre last page <$> arange pre seq = slot_at page <$> arange 0 (seq - pre).
Proof using Hps.
  intros [q ->]. replace seq with (q * Z.of_nat ps + (seq - q * Z.of_nat ps)) at 1 by lia.
  rewrite <-(Z.add_0_r (q * Z.of_nat ps)) at 2. rewrite <-arange_shift, <-list_fmap_compose. apply fmap_ext_elem.
  intros j Hj%elem_of_arange. simpl. unfold ref_slot, slot_at.
  assert (cdiv (q * Z.of_nat ps) (Z.of_nat ps) = q) as ->.
  { unfold cdiv. replace (q * Z.of_nat ps + Z.of_nat ps - 1) with (Z.of_nat ps - 1 + q * Z.of_nat ps) by lia.
    rewrite Z.div_add, Z.div_small by lia. lia. }
  destruct (Z.ltb_spec (q * Z.of_nat ps + j) (q * Z.of_nat ps)); [lia|].
  replace (q * Z.of_nat ps + j - q * Z.of_nat ps) with j by lia. by rewrite (Z.add_comm (q * _)), Z.mod_add by lia.
Qed.

(** The slots of each request of the batch. *)
Fixpoint fills (page : Z → Z) (off : Z) (ts : list (Z * Z * Z)) : list (list Z) :=
  match ts with
  | [] => []
  | (pre, seq, _) :: ts =>
      (slot_at (fun k => page (off + k)) <$> arange 0 (seq - pre))
      :: fills page (off + new_pages (Z.of_nat ps) pre seq) ts
  end.

Lemma fills_ok page : ∀ ts off, Forall (fun r => (Z.of_nat ps | r.1.1) ∧ r.1.1 ≤ r.1.2) ts →
  ref_extend (Z.of_nat ps) page off ts = concat (fills page off ts) ∧
  Forall2 (fun r l => len l = r.1.2 - r.1.1) ts (fills page off ts) ∧
  Forall2 (chunk_on (Z.of_nat ps)) (fills page off ts ≫= pages ps)
    (page <$> arange off (off + total_pages (Z.of_nat ps) ts)).
Proof using Hps.
  induction ts as [|[[pre seq] last] ts IH]; intros off Ht; simpl.
  { split; [done|]. split; [constructor|]. rewrite arange_empty by (change (total_pages _ []) with 0; lia). constructor. }
  apply Forall_cons in Ht as [[Hd Hle] Ht]. cbn [fst snd] in Hd, Hle.
  destruct (IH (off + new_pages (Z.of_nat ps) pre seq) Ht) as (IH1 & IH2 & IH3). rewrite IH1, (ref_fill pre seq) by done.
  assert (new_pages (Z.of_nat ps) pre seq = cdiv (seq - pre) (Z.of_nat ps)) as En.
  { unfold new_pages, cdiv. destruct Hd as [q ->].
    replace (q * Z.of_nat ps + Z.of_nat ps - 1) with (Z.of_nat ps - 1 + q * Z.of_nat ps) by lia.
    replace (seq + Z.of_nat ps - 1) with (seq - q * Z.of_nat ps + Z.of_nat ps - 1 + q * Z.of_nat ps) by lia.
    rewrite !Z.div_add, (Z.div_small (Z.of_nat ps - 1)) by lia. lia. }
  split; [done|]. split.
  - constructor; [|done]. cbn [fst snd]. rewrite len_fmap, len_arange. lia.
  - unfold total_pages in *. csimpl. rewrite zsum_cons. cbn [fst snd].
    assert (0 ≤ cdiv (seq - pre) (Z.of_nat ps)) by (unfold cdiv; apply Z.div_pos; lia).
    assert (0 ≤ zsum ((fun r => new_pages (Z.of_nat ps) r.1.1 r.1.2) <$> ts)) as Hnn.
    { apply zsum_nonneg. intros x (r & -> & Hr)%list_elem_of_fmap. destruct (proj1 (Forall_forall _ _) Ht r Hr) as [_ Hr'].
      unfold new_pages. pose proof (cdiv_mono r.1.1 r.1.2 (Z.of_nat ps) ltac:(lia) Hr'). lia. }
    rewrite Z.add_assoc, (arange_app off (off + new_pages (Z.of_nat ps) pre seq)), fmap_app by lia. apply Forall2_app; [|done].
    rewrite En. replace (page <$> arange off (off + cdiv (seq - pre) (Z.of_nat ps)))
      with ((fun k => page (off + k)) <$> arange 0 (cdiv (seq - pre) (Z.of_nat ps))).
    + replace (seq - pre) with (Z.of_nat (Z.to_nat (seq - pre))) by lia. apply fill_pages.
    + trans (page <$> (Z.add off <$> arange 0 (cdiv (seq - pre) (Z.of_nat ps)))); [by rewrite <-list_fmap_compose|].
      by rewrite arange_shift, Z.add_0_r.
Qed.

(** One list of a concatenation. *)
Lemma concat_part {X} (ls : list (list X)) k l :
  ls !! k = Some l → take (length l) (drop (length (concat (take k ls))) (concat ls)) = l.
Proof using.
  clear. revert k. induction ls as [|l' ls IH]; intros [|k] Hk; simplify_eq/=; [apply take_app_length|].
  rewrite length_app, drop_app_add'; [by apply IH|done].
Qed.

(** The new pages join the pages the batch's neighbours hold. *)
Lemma extend_chunks_ok (a : Paged.t) newp pgs tree rest ts :
  Paged.page_size a = Z.of_nat ps ∧ (Paged.num_pages a + 1) * Z.of_nat ps ≤ 2 ^ 31 →
  Own.owned a (newp ++ pgs) → Forall2 (chunk_on (Z.of_nat ps)) (tree ++ rest) pgs →
  Forall (fun r => (Z.of_nat ps | r.1.1) ∧ r.1.1 ≤ r.1.2) ts → len newp = total_pages (Z.of_nat ps) ts →
  let fs := fills (fun k => newp !!! Z.to_nat k) 0 ts in
  paged_holds ps a (tree ++ (fs ≫= pages ps) ++ rest) ∧ Forall (Forall (fun x => 0 ≤ x < 2 ^ 31)) fs.
Proof using Hps.
  intros Hsm Ho Hch Ht Hl fs. destruct (fills_ok (fun k => newp !!! Z.to_nat k) ts 0 Ht) as (_ & _ & Hf). fold fs in Hf.
  assert ((fun k : Z => newp !!! Z.to_nat k) <$> arange 0 (0 + total_pages (Z.of_nat ps) ts) = newp) as En.
  { rewrite Z.add_0_l, <-Hl. trans ((fun x : Z => x) <$> newp); [|apply list_fmap_id]. apply arange_fmap_lookup. intros k x Hk.
    rewrite Nat2Z.id. by apply list_lookup_total_correct. }
  rewrite En in Hf.
  assert (paged_holds ps a (tree ++ (fs ≫= pages ps) ++ rest)) as Hh.
  { eapply paged_holds_perm; [|split; [exact Hsm|exists (newp ++ pgs); split; [by apply Forall2_app|exact Ho]]].
    generalize (fs ≫= pages ps). intros. solve_Permutation. }
  split; [done|]. apply owned_chunks, Forall_app in Hh as [_ [Hh _]%Forall_app].
  apply Forall_forall. intros l Hin. apply Forall_lookup. intros k x Hk.
  destruct (pages_in_page (ps := ps) (Paged.num_pages a) l Hps) with (i := k) (x := x) as [_ Hb]; [|done|lia].
  apply Forall_forall. intros ch Hc. apply (proj1 (Forall_forall _ _) Hh). apply list_elem_of_bind. by exists l.
Qed.

Lemma int32_fill (l : list Z) : Forall (fun x => 0 ≤ x < 2 ^ 31) l → int32 <$> l = l.
Proof using.
  clear. intros Hl. rewrite <-(list_fmap_id l) at 2. apply fmap_ext_elem. intros x Hx.
  pose proof (proj1 (Forall_forall _ _) Hl x Hx) as Hb. cbv beta in Hb. apply int32_small. unfold Datatypes.id. lia.
Qed.

End pages.

(** ** The whole operation *)

(** The batch as the allocator sees it: prefix, length and last slot. *)
Definition triple (p : ReqPool.t) (ir : Z * Req.t) : Z * Z * Z :=
  (len (Req.prefix_indices ir.2), len (Req.fill_ids ir.2),
   last_loc_of p (ir.1, len (Req.prefix_indices ir.2))).

Section triples.
Context (ps : nat) (p : ReqPool.t) (idxs : list Z) (rs : list Req.t).
Context (Hl : length idxs = length rs) (Hw : ReqPool.wf p).
Context (Hi : Forall (fun i => 0 ≤ i < ReqPool.size p) idxs).
Context (Hx : Forall (extendable (Z.of_nat ps) (ReqPool.max_context_len p)) rs).
Context (Hrow : Forall2 (fun i r => take (length (Req.prefix_indices r)) (ReqPool.row i p) = Req.prefix_indices r) idxs rs).
Abbreviation ts := (triple p <$> zip idxs rs).

Lemma zip_elem i r : (i, r) ∈ zip idxs rs →
  0 ≤ i < ReqPool.size p ∧ extendable (Z.of_nat ps) (ReqPool.max_context_len p) r ∧
  take (length (Req.prefix_indices r)) (ReqPool.row i p) = Req.prefix_indices r.
Proof using All.
  intros (k & Hk)%list_elem_of_lookup_1. rewrite lookup_zip_with in Hk.
  destruct (idxs !! k) as [i'|] eqn:Ei; [|done]. destruct (rs !! k) as [r'|] eqn:Er; [|done]. simpl in Hk.
  simplify_eq. split; [by apply (Forall_lookup_1 _ _ _ _ Hi Ei)|]. split; [by eapply (Forall_lookup_1 _ _ _ _ Hx Er)|].
  by apply (Forall2_lookup_lr _ _ _ _ _ _ Hrow Ei Er).
Qed.

Lemma pres_triple : pres ts = (fun r => len (Req.prefix_indices r)) <$> rs.
Proof using Hl.
  unfold pres. rewrite <-list_fmap_compose. rewrite <-(snd_zip idxs rs) at 2 by lia. by rewrite <-list_fmap_compose.
Qed.
Lemma seqs_triple : seqs ts = (fun r => len (Req.fill_ids r)) <$> rs.
Proof using Hl.
  unfold seqs. rewrite <-list_fmap_compose. rewrite <-(snd_zip idxs rs) at 2 by lia. by rewrite <-list_fmap_compose.
Qed.
Lemma lasts_triple :
  lasts ts = last_loc_of p <$> zip idxs ((fun r => len (Req.prefix_indices r)) <$> rs).
Proof using.
  unfold lasts. rewrite <-list_fmap_compose.
  clear -p. revert rs. induction idxs as [|i l IH]; intros [|r rs]; try done. csimpl. by rewrite IH.
Qed.

Lemma triple_valid : valid_batch ts.
Proof using All.
  apply Forall_fmap, Forall_forall. intros [i r] (_ & [_ E2 E3 _ _ _] & _)%zip_elem. simpl.
  pose proof (len_nonneg (Req.prefix_indices r)). lia.
Qed.

Lemma triple_old : old_pages (Z.of_nat ps) ts = [].
Proof using All.
  unfold old_pages. assert (∀ l, (∀ x, x ∈ l → x ∈ zip idxs rs) →
    (triple p <$> l) ≫= (fun r => if r.1.1 <? cdiv r.1.1 (Z.of_nat ps) * Z.of_nat ps then [r.2 / Z.of_nat ps] else []) = []) as X.
  { induction l as [|[i r] l IH]; intros Hin; [done|]. csimpl. rewrite IH by set_solver.
    destruct (zip_elem i r) as (_ & [[q Hq] _ _ _ _ _] & _); [set_solver|]. rewrite Hq, app_nil_r.
    destruct (decide (ps = 0%nat)) as [->|]; [by rewrite Z.mul_0_r|].
    pose proof (cdiv_bounds (q * Z.of_nat ps) (Z.of_nat ps) ltac:(lia)).
    assert (cdiv (q * Z.of_nat ps) (Z.of_nat ps) = q) as -> by nia. by rewrite Z.ltb_irrefl. }
  by apply X.
Qed.

Lemma triple_aligned : (0 < ps)%nat → Forall (aligned (Z.of_nat ps)) ts.
Proof using All.
  intros Hps. apply Forall_fmap, Forall_forall. intros [i r] (_ & [[q Hq] E2 E3 E4 _ E6] & Ht)%zip_elem.
  unfold aligned, triple, last_loc_of. simpl. rewrite Hq, Z.mod_mul by lia. rewrite <-Hq.
  destruct (Z.ltb_spec 0 (len (Req.prefix_indices r))); [|done]. apply E6.
  unfold len in *.
  assert (length (Req.prefix_indices r) ≤ length (ReqPool.row i p))%nat as Hlen.
  { apply (f_equal length) in Ht. rewrite length_take in Ht. lia. }
  replace (Z.to_nat (Z.of_nat (length (Req.prefix_indices r)) - 1)) with (pred (length (Req.prefix_indices r))) by lia.
  rewrite last_lookup, <-list_lookup_lookup_total_lt by lia.
  rewrite <-(lookup_take_lt (ReqPool.row i p) (length (Req.prefix_indices r))) by lia. by rewrite Ht.
Qed.

Lemma triple_in_pool : Forall (in_pool p) (zip idxs ((fun r => len (Req.prefix_indices r)) <$> rs)).
Proof using All.
  apply Forall_lookup. intros k [i n] Hk. rewrite lookup_zip_with, list_lookup_fmap in Hk.
  destruct (idxs !! k) as [i'|] eqn:Ei; [|done]. destruct (rs !! k) as [r|] eqn:Er; [|done]. simplify_eq/=.
  destruct (zip_elem i r) as (Hb & [_ E2 E3 E4 _ _] & _).
  { apply list_elem_of_lookup. exists k. by rewrite lookup_zip_with, Ei, Er. }
  split; [done|]. simpl. pose proof (len_nonneg (Req.prefix_indices r)). lia.
Qed.

Lemma len_input (r : Req.t) : r ∈ rs → len ((Req.fill_ids r).[len (Req.prefix_indices r) :]) = Req.extend_input_len r.
Proof using All.
  intros Hr. destruct (proj1 (Forall_forall _ _) Hx r Hr) as [_ E2 E3 _ _ _].
  rewrite len_py_drop by apply len_nonneg. pose proof (len_nonneg (Req.prefix_indices r)). lia.
Qed.

Lemma tokens_triple : total_tokens ts = zsum (Req.extend_input_len <$> rs).
Proof using All.
  unfold total_tokens. rewrite <-list_fmap_compose. f_equal. rewrite <-(snd_zip idxs rs) at 2 by lia.
  rewrite <-list_fmap_compose. apply fmap_ext_elem. intros [i r] (_ & [_ E2 E3 _ _ _] & _)%zip_elem. simpl. lia.
Qed.

Lemma ceil_triple :
  zsum ((fun r => ceil_to (Z.of_nat ps) (r.1.2 - r.1.1)) <$> ts) =
  zsum ((fun r => ceil_to (Z.of_nat ps) (Req.extend_input_len r)) <$> rs).
Proof using All.
  rewrite <-list_fmap_compose. f_equal. rewrite <-(snd_zip idxs rs) at 2 by lia.
  rewrite <-list_fmap_compose. apply fmap_ext_elem. intros [i r] (_ & [_ E2 E3 _ _ _] & _)%zip_elem. simpl. f_equal. lia.
Qed.

(** The part of each row that the batch writes. *)
Definition parts : list (Z * Z * Z) :=
  (fun ir => (ir.1, len (Req.prefix_indices ir.2), len (Req.fill_ids ir.2))) <$> zip idxs rs.

Lemma parts_rows : Forall (row_part p) parts ∧
  (fun r => r.1.1) <$> parts = idxs ∧ (fun r => r.1.2) <$> parts = pres ts ∧ parts.*2 = seqs ts ∧
  (fun r => r.2 - r.1.2) <$> parts = zip_with Z.sub (seqs ts) (pres ts) ∧
  (fun r => r.2 - r.1.2) <$> parts = Req.extend_input_len <$> rs.
Proof using All.
  rewrite pres_triple, seqs_triple. unfold parts. rewrite <-!list_fmap_compose. split_and!.
  - apply Forall_fmap, Forall_forall. intros [i r] (Hb & [_ E2 E3 E4 _ _] & _)%zip_elem.
    pose proof (len_nonneg (Req.prefix_indices r)). split; [done|]. simpl. lia.
  - rewrite <-(fst_zip idxs rs) at 2 by lia. done.
  - rewrite <-(snd_zip idxs rs) at 2 by lia. by rewrite <-list_fmap_compose.
  - rewrite <-(snd_zip idxs rs) at 2 by lia. by rewrite <-list_fmap_compose.
  - rewrite zip_with_fmap_l, zip_with_fmap_r. clear -Hl. revert rs Hl.
    induction idxs as [|i l IH]; intros [|r rs'] Hl; simplify_eq/=; [done|]. f_equal. by apply IH.
  - rewrite <-(snd_zip idxs rs) at 2 by lia. rewrite <-list_fmap_compose. apply fmap_ext_elem.
    intros [i r] (_ & [_ E2 E3 _ _ _] & _)%zip_elem. simpl. lia.
Qed.

End triples.
Section prepare.
Context (hash : list Z → Z) `{HeapQ} (garbage tl_other : Z → Z) (ps : nat).
#[local] Instance xba : BatchAllocator Paged.t := paged_batch_allocator garbage tl_other.
#[local] Instance xkv : KVAllocator ps Paged.t := paged_kv ps.

(** The pages of the tokens to compute. *)
Definition new_chunks (p : ReqPool.t) (ir : Z * Req.t) : list (list Z) :=
  pages ps (drop (length (Req.prefix_indices ir.2)) (ReqPool.read ir.1 (len (Req.fill_ids ir.2)) p)).

Lemma prepare_for_extend_ok (b : ScheduleBatch) (m : memory Paged.t) c G Hs rest used :
  let rs := reqs b in let pool := req_to_token_pool m in
  radix_mem (ps := ps) m c G Hs rest → (1 < ps)%nat → rs ≠ [] →
  ReqPool.wf pool → ReqPool.owned pool used → len rs ≤ ReqPool.available_size pool →
  Forall (extendable (Z.of_nat ps) (ReqPool.max_context_len pool)) rs →
  zsum (Req.extend_input_len <$> rs) + len rs < 2 ^ 31 →
  zsum ((fun r => ceil_to (Z.of_nat ps) (Req.extend_input_len r)) <$> rs) ≤
    kv_available (token_to_kv_pool_allocator m) + evictable_size c →
  ∃ idxs out b' m' c' G',
    prepare_for_extend hash garbage true true b m = Ok (b', m') ∧
    reqs b' = zip_with extended idxs rs ∧ req_pool_indices b' = idxs ∧
    seq_lens b' = (fun r => len (Req.fill_ids r)) <$> rs ∧ out_cache_loc b' = Some out ∧ NoDup out ∧
    len out = zsum (Req.extend_input_len <$> rs) ∧
    (forward_mode b' = Some EXTEND ∧ enable_overlap b' = enable_overlap b ∧ output_ids b' = output_ids b ∧
     length (orig_seq_lens b') = length rs ∧ seq_lens_sum b' = zsum (seq_lens b')) ∧
    len idxs = len rs ∧ NoDup idxs ∧ ReqPool.owned (req_to_token_pool m') (idxs ++ used) ∧
    Forall2 (fun i r => ∃ new, ReqPool.read i (len (Req.fill_ids r)) (req_to_token_pool m') = Req.prefix_indices r ++ new ∧
       len new = Req.extend_input_len r) idxs rs ∧
    (∀ j, 0 ≤ j → j ∉ idxs → ReqPool.row j (req_to_token_pool m') = ReqPool.row j pool) ∧
    ReqPool.wf (req_to_token_pool m') ∧ pool_shape m' = pool_shape m ∧ G' ⊆ G ∧ protected_size c' = protected_size c ∧
    radix_mem (ps := ps) m' c' G' Hs ((zip idxs rs ≫= new_chunks (req_to_token_pool m')) ++ rest).
Proof.
  intros rs pool M Hps Hne Hw Ho Hav Hx Hsz Hfit.
  assert (Paged.page_size (token_to_kv_pool_allocator m) = Z.of_nat ps) as Hpg by apply (rm_owned _ _ _ _ _ M).
  unfold prepare_for_extend, alloc_req_slots. fold rs. fold pool.
  pose proof (ReqPool.reqpool_alloc_owned pool used (len rs) Ho (len_nonneg _)) as Ha.
  destruct (alloc_shape (len rs) pool Hw) as (Hw1 & Hc1 & Hsz1).
  destruct (ReqPool.alloc (len rs) pool) as [[idxs|] p1]; [|lia]. destruct Ha as (Hlen & Ho1 & Hr1). simpl in Hw1, Hc1, Hsz1.
  cbn [mbind pyres_bind mret pyres_ret].
  assert (length idxs = length rs) as Hl by (unfold len in Hlen; lia).
  destruct (owned_rows p1 used idxs Ho1) as [Hnd Hi].
  destruct (extend_loop_ok (Z.of_nat ps) idxs rs p1 Hw1 Hl Hnd Hi) as (p2 & E2 & Hw2 & Hs2 & Hc2 & Hf2 & Hrow & Hot2); [by rewrite Hc1|].
  cbn [req_to_token_pool with_pool]. rewrite E2. cbn [mbind pyres_bind mret pyres_ret].
  cbn [token_to_kv_pool_allocator with_pool req_to_token_pool ba_page_size xba paged_batch_allocator]. rewrite Hpg.
  destruct (Z.eqb_spec (Z.of_nat ps) 1) as [|_]; [lia|].
  assert (0 < ReqPool.max_context_len p2) as Hmax.
  { destruct rs as [|r rs']; [done|]. apply Forall_cons in Hx as [[_ X2 X3 X4 _ _] _]. len_pos. rewrite Hc2, Hc1. lia. }
  rewrite <-Hc1, <-Hc2 in Hx. rewrite <-Hs2 in Hi.
  pose proof (triple_in_pool ps p2 idxs rs Hl Hw2 Hi Hx Hrow) as Hin.
  assert (get_last_loc_triton garbage p2 idxs ((fun r => len (Req.prefix_indices r)) <$> rs) = lasts (triple p2 <$> zip idxs rs)) as ->.
  { rewrite (lasts_triple p2 idxs rs). rewrite <-(triton_last_loc_ok p2 Hw2 Hmax garbage _ Hin).
    rewrite fst_zip, snd_zip by (rewrite ?length_fmap; lia). done. }
  set (ts := triple p2 <$> zip idxs rs).
  rewrite <-(pres_triple p2 idxs rs Hl), <-(seqs_triple p2 idxs rs Hl). fold ts.
  assert (zsum (len <$> ((fun r => (Req.fill_ids r).[len (Req.prefix_indices r) :]) <$> rs)) = total_tokens ts) as ->.
  { unfold ts. rewrite (tokens_triple ps p2 idxs rs Hl Hw2 Hi Hx Hrow), <-list_fmap_compose. f_equal.
    apply fmap_ext_elem. intros r Hr. by apply (len_input ps p2 idxs rs Hl Hw2 Hi Hx Hrow). }
  set (m2 := with_pool p2 (with_pool p1 m)).
  assert (radix_mem (ps := ps) m2 c G Hs ([] ++ rest)) as M2 by (destruct M; by split).
  assert (ts ≠ []) as Hts.
  { intros E%(f_equal length). unfold ts in E. rewrite length_fmap, length_zip_with in E.
    destruct rs; [done|]. simpl in *. lia. }
  destruct (extend_memory_ok hash garbage tl_other ps m2 c G Hs [] rest ts M2) as
    (newp & m3 & c' & G' & pgs & E3 & Hndo & Hln & Hp3 & Ht3 & R3 & Hd3 & Hpr3 & Hown3 & Hch3 & Hps3 & Hsm3 & Hcl3 & HG3); try done.
  { lia. }
  { unfold ts. by rewrite (triple_old ps p2 idxs rs Hl Hw2 Hi Hx Hrow). }
  { apply (triple_valid ps p2 idxs rs Hl Hw2 Hi Hx Hrow). }
  { apply (triple_aligned ps p2 idxs rs Hl Hw2 Hi Hx Hrow). lia. }
  { unfold ts at 1. rewrite (tokens_triple ps p2 idxs rs Hl Hw2 Hi Hx Hrow).
    unfold ts. rewrite len_fmap. unfold len in *. rewrite length_zip_with. lia. }
  { unfold ts. rewrite (ceil_triple ps p2 idxs rs Hl Hw2 Hi Hx Hrow). done. }
  change (pba garbage tl_other) with xba in E3. change (pkv ps) with xkv in E3.
  rewrite E3. cbn [mbind pyres_bind mret pyres_ret]. rewrite Hp3.
  change (req_to_token_pool m2) with p2.
  set (out := ref_extend (Z.of_nat ps) (fun k => newp !!! Z.to_nat k) 0 ts) in *.
  destruct (parts_rows ps p2 idxs rs Hl Hw2 Hi Hx Hrow) as (Pr & Pi & Pp & Psq & Pe & Pe').
  assert (zsum ((fun r => r.2 - r.1.2) <$> parts idxs rs) = len out) as Hout.
  { rewrite Pe'. unfold out. rewrite len_ref_extend by (lia || apply (triple_valid ps p2 idxs rs Hl Hw2 Hi Hx Hrow)).
    symmetry. apply (tokens_triple ps p2 idxs rs Hl Hw2 Hi Hx Hrow). }
  destruct (write_kernel_ok garbage (parts idxs rs) out p2 Hw2 Pr Hout) as (p4 & E4 & E4' & Hw4).
  destruct (write_loop_rows out (parts idxs rs) 0 p2 Hw2 Pr) as (p4' & E5 & Hf5 & Hs5 & Hot5 & Hrows5); [by rewrite Pi|done|lia|].
  rewrite E4 in E5. injection E5 as <-. cbv zeta in E4'. rewrite Pi, Pp, Psq, Pe in E4'. fold ts in E4'. rewrite E4'.
  assert (Forall (fun r => (Z.of_nat ps | r.1.1) ∧ r.1.1 ≤ r.1.2) ts) as Hts'.
  { unfold ts. apply Forall_fmap, Forall_forall. intros [i r] Hir.
    destruct (zip_elem ps p2 idxs rs Hl Hw2 Hi Hx Hrow i r Hir) as (_ & [X1 X2 X3 _ _ _] & _). simpl. split; [done|]. lia. }
  destruct (extend_chunks_ok ps ltac:(lia) (token_to_kv_pool_allocator m3) newp pgs (tree_chunks c' G') rest ts Hsm3 Hown3 Hch3 Hts' Hln) as [Hh H32].
  destruct (fills_ok ps ltac:(lia) (fun k => newp !!! Z.to_nat k) ts 0 Hts') as (Eout & Hlen2 & _). fold out in Eout.
  set (fs := fills ps (fun k => newp !!! Z.to_nat k) 0 ts) in *.
  assert (len <$> fs = Req.extend_input_len <$> rs) as Efs.
  { rewrite <-Pe'. unfold parts. rewrite <-list_fmap_compose. unfold ts in Hlen2. apply Forall2_fmap_l in Hlen2. clear -Hlen2.
    induction Hlen2 as [|x l ls ls' Hx _ IH]; [done|]. csimpl. rewrite IH. f_equal. rewrite Hx. done. }
  assert (∀ k i r l, idxs !! k = Some i → rs !! k = Some r → fs !! k = Some l →
    ReqPool.read i (len (Req.fill_ids r)) p4 = Req.prefix_indices r ++ l) as Hread.
  { intros k i r l Hk Hr Hfl.
    assert (parts idxs rs !! k = Some (i, len (Req.prefix_indices r), len (Req.fill_ids r))) as Hpk.
    { unfold parts. by rewrite list_lookup_fmap, lookup_zip_with, Hk, Hr. }
    pose proof (Hrows5 k _ _ _ Hpk) as Hrd. unfold ReqPool.read. rewrite py_take_nonneg by apply len_nonneg.
    rewrite Hrd, Z.add_0_l. rewrite fmap_take, Pe', <-Efs, <-fmap_take.
    destruct (proj1 (Forall_forall _ _) Hx r) as [_ X2 X3 _ _ _]; [by eapply list_elem_of_lookup_2|].
    assert (len l = Req.extend_input_len r) as El.
    { assert ((len <$> fs) !! k = Some (len l)) as E0 by (by rewrite list_lookup_fmap, Hfl).
      rewrite Efs, list_lookup_fmap, Hr in E0. by injection E0. }
    f_equal.
    { rewrite <-(Forall2_lookup_lr _ _ _ _ _ _ Hrow Hk Hr) at 2. f_equal. unfold len. lia. }
    assert (zsum (len <$> take k fs) = Z.of_nat (length (concat (take k fs)))) as Ez.
    { clear. generalize (take k fs). intros ls. induction ls as [|l ls IH]; [done|]. csimpl. rewrite zsum_cons, length_app, IH. unfold len. lia. }
    rewrite Ez, py_slice_nonneg by lia. rewrite Nat2Z.id.
    replace (Z.to_nat _ - length (concat (take k fs)))%nat with (length l) by (unfold len in *; lia).
    rewrite Eout, (concat_part fs k l Hfl). apply int32_fill. by apply (Forall_lookup_1 _ _ _ _ H32 Hfl). }
  assert (length fs = length rs) as Hlfs by (rewrite <-(length_fmap len fs), Efs; apply length_fmap).
  exists idxs, out. do 2 eexists. exists c', G'. split; [done|].
  cbn [reqs req_pool_indices seq_lens out_cache_loc req_to_token_pool tree_cache token_to_kv_pool_allocator with_pool].
  split_and!; try done.
  - by rewrite <-Hout, Pe'.
  - by rewrite <-(length_fmap (fun r => Z.max (len (Req.fill_ids r)) (len (Req.origin_input_ids r))) rs).
  - unfold ReqPool.owned. rewrite Hf5, Hf2, Hs5, Hs2. done.
  - apply Forall2_same_length_lookup. split; [done|]. intros k i r Hk Hr.
    destruct (lookup_lt_is_Some_2 fs k) as [l Hfl]; [rewrite Hlfs; by eapply lookup_lt_Some|]. exists l. split; [by eapply Hread|].
    assert ((len <$> fs) !! k = Some (len l)) as E0 by (by rewrite list_lookup_fmap, Hfl).
    rewrite Efs, list_lookup_fmap, Hr in E0. by injection E0.
  - intros j Hj Hn. rewrite Hot5 by (rewrite ?Pi; done). rewrite Hot2 by done.
    unfold ReqPool.row. by rewrite Hr1.
  - unfold pool_shape. simpl. f_equal; [|rewrite <-E4'; simpl; by rewrite Hc2, Hc1].
    rewrite Hs5, Hs2, Hsz1. done.
  - split; simpl; try done.
    + assert (zip idxs rs ≫= new_chunks p4 = fs ≫= pages ps) as ->; [|exact Hh].
      assert (Forall2 (fun ir l => new_chunks p4 ir = pages ps l) (zip idxs rs) fs) as Hf.
      { apply Forall2_same_length_lookup. split; [rewrite length_zip_with; lia|]. intros k [i r] l Hir Hfl.
        apply lookup_zip_with_Some in Hir as (i' & r' & E0 & Hk & Hr). injection E0 as -> ->. unfold new_chunks. simpl.
        rewrite (Hread k i' r' l Hk Hr Hfl). by rewrite drop_app_length. }
      clear -Hf. induction Hf as [|ir l irs ls E0 _ IH]; [done|]. csimpl. by rewrite E0, IH.
    + rewrite paged_available_held. destruct Hsm3 as [-> _]. len_pos. nia.
Qed.

End prepare.
