(* ===== verification/BatchRetract.v ===== *)
(** * Batch surgery: filtering, merging and retraction *)

From Stdlib Require Import QArith.
From S2P Require Import Prelude Allocator PagedAllocator PagedProofs ReqPool SamplingParams Request KVAllocator RadixCache.
From S2P Require Import RadixInv RadixOwn RadixInsert RadixLocks RadixEvict RadixReq SchedulePolicy ScheduleBatch BatchMemory MemoryAccount.
Open Scope Z_scope.

(** ** Filtering and merging *)

(** The per-request data of a batch: one row per request. *)
Definition rows (b : ScheduleBatch) : list (Req.t * (Z * (Z * Z))) :=
  zip (reqs b) (zip (req_pool_indices b) (zip (seq_lens b) (orig_seq_lens b))).

Record batch_wf (b : ScheduleBatch) : Prop := mk_batch_wf {
  bw_idx : length (req_pool_indices b) = length (reqs b);
  bw_seq : length (seq_lens b) = length (reqs b);
  bw_orig : length (orig_seq_lens b) = length (reqs b);
  bw_out : ∀ o, output_ids b = Some o → length o = length (reqs b);
  bw_sum : seq_lens_sum b = zsum (seq_lens b);
}.

Lemma select_ok {X} (l : list X) keep :
  Forall (fun i => (i < length l)%nat) keep →
  ∃ xs, select l keep = Ok xs ∧ xs = omap (fun i => l !! i) keep ∧ length xs = length keep.
Proof.
  induction 1 as [|i keep Hi _ (xs & E & Ex & El)]; [by exists []|]. csimpl.
  destruct (lookup_lt_is_Some_2 _ _ Hi) as [x Hx]. rewrite Hx, E. simpl.
  exists (x :: xs). rewrite <-Ex. simpl. auto.
Qed.

Lemma omap_lookup_zip {X Y} (l : list X) (k : list Y) keep :
  length l = length k →
  omap (fun i => zip l k !! i) keep = zip (omap (fun i => l !! i) keep) (omap (fun i => k !! i) keep).
Proof.
  intros Hl. induction keep as [|i keep IH]; [done|]. csimpl. rewrite lookup_zip_with.
  destruct (l !! i) as [x|] eqn:Ex; destruct (k !! i) as [y|] eqn:Ey; simpl; rewrite ?IH; try done.
  - apply lookup_lt_Some in Ex. apply lookup_ge_None in Ey. lia.
  - apply lookup_lt_Some in Ey. apply lookup_ge_None in Ex. lia.
Qed.

Lemma omap_seq_all {X} (l : list X) : omap (fun i => l !! i) (seq 0 (length l)) = l.
Proof.
  assert (∀ k (l' : list X), drop k l = l' → omap (fun i => l !! i) (seq k (length l')) = l') as Hd.
  { intros k l'. revert k. induction l' as [|x l' IH]; intros k Hd; [done|]. csimpl.
    assert (l !! k = Some x) as Hx.
    { rewrite <-(Nat.add_0_r k), <-lookup_drop, Hd. done. }
    rewrite Hx. f_equal. apply IH. rewrite <-Nat.add_1_r, <-drop_drop, Hd. done. }
  by apply Hd.
Qed.

Lemma filter_batch_ok b keep o :
  batch_wf b → output_ids b = Some o → keep ≠ [] → Forall (fun i => (i < length (reqs b))%nat) keep →
  ∃ b', filter_batch keep b = Ok b' ∧ batch_wf b' ∧ enable_overlap b' = enable_overlap b ∧
    (length keep = length (reqs b) → b' = b) ∧
    (length keep ≠ length (reqs b) →
       reqs b' = omap (fun i => reqs b !! i) keep ∧ rows b' = omap (fun i => rows b !! i) keep ∧
       output_ids b' = Some (omap (fun i => o !! i) keep)).
Proof.
  intros [W1 W2 W3 W4 W5] Ho Hk Hin.
  assert (∀ (x y : pyres ScheduleBatch), match keep with [] => x | _ => y end = y) as Em by by destruct keep.
  unfold filter_batch. rewrite Em.
  destruct (Nat.eqb_spec (length keep) (length (reqs b))) as [El|El].
  { exists b. split; [done|]. split; [by split|]. done. }
  rewrite Ho. specialize (W4 o Ho).
  destruct (select_ok (reqs b) keep Hin) as (rs & E1 & X1 & L1).
  destruct (select_ok (req_pool_indices b) keep) as (ix & E2 & X2 & L2); [by rewrite W1|].
  destruct (select_ok (seq_lens b) keep) as (sl & E3 & X3 & L3); [by rewrite W2|].
  destruct (select_ok (orig_seq_lens b) keep) as (osl & E4 & X4 & L4); [by rewrite W3|].
  destruct (select_ok o keep) as (ou & E5 & X5 & L5); [by rewrite W4|].
  rewrite E1, E2, E3, E4, E5. simpl. eexists. split; [done|]. split.
  - split; simpl; congruence.
  - split; [done|]. split; [done|]. intros _. unfold rows. simpl.
    rewrite !omap_lookup_zip by (rewrite ?length_zip_with; lia). subst. auto.
Qed.

Lemma merge_batch_ok b b' :
  batch_wf b → batch_wf b' → (output_ids b = None ∨ is_Some (output_ids b')) →
  ∃ b'', merge_batch b b' = Ok b'' ∧ batch_wf b'' ∧ rows b'' = rows b ++ rows b' ∧
    reqs b'' = reqs b ++ reqs b' ∧ enable_overlap b'' = enable_overlap b ∧ (is_Some (output_ids b) → is_Some (output_ids b'')).
Proof.
  intros [W1 W2 W3 W4 W5] [V1 V2 V3 V4 V5] Ho. unfold merge_batch.
  assert (rows b ++ rows b' = zip (reqs b ++ reqs b') (zip (req_pool_indices b ++ req_pool_indices b')
    (zip (seq_lens b ++ seq_lens b') (orig_seq_lens b ++ orig_seq_lens b')))) as Er.
  { unfold rows. rewrite !zip_with_app by (rewrite ?length_zip_with; lia). done. }
  destruct (output_ids b) as [o|] eqn:E.
  - destruct Ho as [|[o' E']]; [done|]. rewrite E'. simpl. eexists. split; [done|]. split; [|rewrite Er; split_and!; try done; by eexists].
    split; simpl; rewrite ?length_app, ?zsum_app; try congruence.
    intros ? [= <-]. rewrite length_app, (W4 o), (V4 o') by done. done.
  - simpl. eexists. split; [done|]. split; [|rewrite Er; split_and!; try done; by intros [? [=]]].
    split; simpl; rewrite ?length_app, ?zsum_app; try congruence.
Qed.

Lemma merge_batch_outputs b b' b'' o o' :
  merge_batch b b' = Ok b'' → output_ids b = Some o → output_ids b' = Some o' →
  output_ids b'' = Some (o ++ o') ∧ return_logprob b'' = return_logprob b || return_logprob b'.
Proof. unfold merge_batch. intros E Eo Eo'. rewrite Eo, Eo' in E. simpl in E. by injection E as <-. Qed.

Lemma filter_batch_logprob keep b b' : keep ≠ [] → length keep ≠ length (reqs b) → filter_batch keep b = Ok b' →
  return_logprob b' = existsb Req.return_logprob (reqs b').
Proof.
  intros Hk Hl. unfold filter_batch. destruct keep as [|k keep]; [done|].
  destruct (Nat.eqb_spec (length (k :: keep)) (length (reqs b))); [done|].
  destruct (select (reqs b) _); cbn [mbind pyres_bind]; [|done]. destruct (select (req_pool_indices b) _); cbn [mbind pyres_bind]; [|done].
  destruct (select (seq_lens b) _); cbn [mbind pyres_bind]; [|done]. destruct (select (orig_seq_lens b) _); cbn [mbind pyres_bind]; [|done].
  destruct (output_ids b); cbn [mbind pyres_bind]; [|done]. destruct (select _ _); cbn [mbind pyres_bind]; [|done]. by intros [= <-].
Qed.

(** C37: [filter_batch] and [merge_batch] keep the tensors of a batch in
    step with its requests. Given two batches with output tokens, valid
    indices, and all of them only in order, a filtered batch has, in the
    order of the indices, the requests, the row numbers, the sequence
    lengths, the original lengths and the output tokens at the indices, and
    no others; the sum of the lengths is exact; and, when requests were
    dropped, log probabilities are returned exactly if a kept request asks
    for them. A batch merged to it adds its own behind these, output tokens
    and sum included. Without any index the requests are dropped and the
    tensors stay as they were. *)
Theorem batch_filter_merge_wf b other keep o o' :
  batch_wf b → batch_wf other → output_ids b = Some o → output_ids other = Some o' →
  Forall (fun i => (i < length (reqs b))%nat) keep →
  (length keep = length (reqs b) → keep = seq 0 (length (reqs b))) →
  (keep = [] → filter_batch keep b = Ok (with_reqs [] b)) ∧
  (keep ≠ [] → ∃ b1 b2, filter_batch keep b = Ok b1 ∧ merge_batch b1 other = Ok b2 ∧
    batch_wf b1 ∧ rows b1 = omap (fun i => rows b !! i) keep ∧ output_ids b1 = Some (omap (fun i => o !! i) keep) ∧
    (length keep ≠ length (reqs b) → return_logprob b1 = existsb Req.return_logprob (reqs b1)) ∧
    batch_wf b2 ∧ rows b2 = omap (fun i => rows b !! i) keep ++ rows other ∧ output_ids b2 = Some (omap (fun i => o !! i) keep ++ o') ∧
    return_logprob b2 = return_logprob b1 || return_logprob other).
Proof.
  intros W V Ho Ho' Hin Hfull. split; [by intros ->|]. intros Hk.
  destruct (filter_batch_ok b keep o W Ho Hk Hin) as (b1 & E1 & W1 & _ & Hsame & Hsel).
  assert (rows b1 = omap (fun i => rows b !! i) keep ∧ output_ids b1 = Some (omap (fun i => o !! i) keep)) as [Er Eo].
  { destruct (decide (length keep = length (reqs b))) as [El|El]; [|by destruct (Hsel El) as (_ & ? & ?)].
    rewrite (Hsame El), (Hfull El), Ho. split; symmetry; [|f_equal; rewrite <-(bw_out _ W o Ho); apply omap_seq_all].
    assert (length (rows b) = length (reqs b)) as <-.
    { destruct W. unfold rows. rewrite !length_zip_with. lia. }
    apply omap_seq_all. }
  destruct (merge_batch_ok b1 other W1 V) as (b2 & E2 & W2 & Er2 & _); [right; by eexists|].
  destruct (merge_batch_outputs b1 other b2 _ _ E2 Eo Ho') as [Eo2 El2].
  exists b1, b2. rewrite Er2, Er. split_and!; try done. intros Hne. by eapply filter_batch_logprob.
Qed.

(** ** Retraction *)

Section retract.
Context (hash : list Z → Z) `{HeapQ} {ps : nat} {A : Type} `{KVAllocator ps A}.
Context (Hps : (0 < ps)%nat) (b : ScheduleBatch) (tbl : list (list Z)).

(** The slots of a request past its cached whole pages. *)
Definition uncached (r : Req.t) (seq_len idx : Z) : list Z :=
  (tbl !!! Z.to_nat idx).[len (Req.prefix_indices r) / Z.of_nat ps * Z.of_nat ps :: seq_len].

Definition node_of (i : nat) : nat := default 0%nat (reqs b !! i ≫= Req.last_node).
Definition own_of (i : nat) : list (list Z) :=
  match reqs b !! i, seq_lens b !! i with
  | Some r, Some s => match Req.req_pool_idx r with Some idx => pages ps (uncached r s idx) | None => [] end
  | _, _ => []
  end.

(** A running request: a row of the pool and a locked node. *)
Definition running (i : nat) : Prop :=
  ∃ r s idx n, reqs b !! i = Some r ∧ seq_lens b !! i = Some s ∧
    Req.req_pool_idx r = Some idx ∧ Req.last_node r = Some n.

(** The memory while the requests [l] run. *)
Record running_mem (m : memory A) (c : RadixCache) (G : gmap nat path) (l : list nat)
    (oH : list nat) (other : list (list Z)) : Prop := mk_running_mem {
  run_mem : radix_mem m c G ((node_of <$> l) ++ oH) ((l ≫= own_of) ++ other);
  run_tbl : ReqPool.req_to_token (req_to_token_pool m) = tbl;
}.

(** The tokens of the pool, and what request [i] holds of them alone next to
    the other locks and pages. *)
Definition capacity (m : memory A) (c : RadixCache) (l : list nat) (other : list (list Z)) : Z :=
  kv_available (token_to_kv_pool_allocator m) + evictable_size c + protected_size c
  + Z.of_nat ps * len ((l ≫= own_of) ++ other).
Definition footprint (G : gmap nat path) (oH : list nat) (other : list (list Z)) (i : nat) : Z :=
  zsum ((fun h => len (default [] (G !! h))) <$> node_of i :: oH) + Z.of_nat ps * len (own_of i ++ other).

(** Retraction finds memory: every request holds pages of its own, or each of
    them alone would leave some memory. *)
Definition retractable (spec : option (Z * Z * Z)) (m : memory A) c G l oH other : Prop :=
  (∀ i, i ∈ l → own_of i ≠ []) ∨ (spec = None ∧ ∀ i, i ∈ l → footprint G oH other i < capacity m c l other).

Lemma retract_one_ok m c G l i oH other r s idx n kept :
  running_mem m c G (l ++ [i]) oH other →
  reqs b !! i = Some r → seq_lens b !! i = Some s →
  Req.req_pool_idx r = Some idx → Req.last_node r = Some n →
  ∃ m' c' G', retract_one hash (Z.of_nat ps) s r kept m = Ok m' ∧ running_mem m' c' G' l oH other ∧
    req_to_token_pool m' = ReqPool.free [idx] (req_to_token_pool m) ∧
    kv_available (token_to_kv_pool_allocator m) + Z.of_nat ps * len (own_of i)
      ≤ kv_available (token_to_kv_pool_allocator m') ∧ G' ⊆ G ∧ capacity m' c' l other = capacity m c (l ++ [i]) other ∧
    Z.min (kept * retract_decode_steps) (kv_available (token_to_kv_pool_allocator m') + evictable_size c') ≤
      kv_available (token_to_kv_pool_allocator m').
Proof using Hps.
  intros [[M1 M2 M3 M4 M5 M6 M7] T] Er Es Ei En.
  assert (own_of i = pages ps (uncached r s idx)) as Eo by (unfold own_of; by rewrite Er, Es, Ei).
  assert (node_of i = n) as Enode by (unfold node_of; by rewrite Er; simpl; rewrite En).
  unfold retract_one, pool_row. rewrite Ei. cbn [mbind pyres_bind mret pyres_ret]. rewrite M1.
  unfold ReqPool.row. rewrite T. fold (uncached r s idx).
  assert (kv_owned (token_to_kv_pool_allocator m)
    (pages ps (uncached r s idx) ++ (tree_chunks c G ++ (l ≫= own_of) ++ other))) as Ho.
  { rewrite bind_app in M5. simpl in M5. rewrite app_nil_r, Eo in M5.
    eapply kv_owned_perm; [|exact M5]. solve_Permutation. }
  destruct (kv_free_ok _ _ _ _ (pages_parts ps Hps _) Ho) as (a' & Ea & Ho' & Hav).
  rewrite concat_pages in Ea by done. rewrite Ea. cbn [mbind pyres_bind mret pyres_ret].
  destruct (Hav M6) as [Hc' Hav'].
  rewrite En. cbn [mbind pyres_bind mret pyres_ret].
  assert (repr c G (n :: (node_of <$> l) ++ oH)) as R.
  { rewrite fmap_app in M2. simpl in M2. rewrite Enode in M2.
    eapply repr_perm; [|exact M2]. solve_Permutation. }
  destruct (r_handles _ _ _ R n ltac:(left)) as [ln Hn].
  destruct (dec_lock_ref_ok c G _ n ln R M3 Hn) as (d & c1 & Ed & R1 & U & _ & Ue & Up).
  rewrite Ed. cbn [mbind pyres_bind mret pyres_ret].
  set (m1 := mkMemory _ a' (RadixTree c1)).
  assert (radix_mem m1 c1 G ((node_of <$> l) ++ oH) ((l ≫= own_of) ++ other)) as Mm1.
  { split; simpl; try done.
    - by rewrite (ul_disable _ _ U).
    - by rewrite (ul_page _ _ U).
    - by rewrite (upto_chunks _ _ G U).
    - len_pos. nia. }
  destruct (evict_if_needed_ok hash (kept * retract_decode_steps) m1 c1 G _ _ Mm1)
    as (m' & c' & G' & E' & Mm' & Hpool & Hsum & Hge & Hmin & Hpr & HG).
  exists m', c', G'. split; [done|]. split; [split; [done|by rewrite Hpool]|].
  split; [by rewrite Hpool|]. simpl in Hge, Hsum, Hmin. split; [rewrite Eo; lia|]. split; [done|]. split; [|lia].
  unfold capacity. rewrite bind_app. simpl. rewrite app_nil_r, Eo, !len_app, Hpr, Up. lia.
Qed.

Definition reset_of (i : nat) : option Req.t := Req.reset_for_retract <$> reqs b !! i.
Definition slot_of (i : nat) : option Z := reqs b !! i ≫= Req.req_pool_idx.

(** The last request left has memory to go on. *)
Lemma last_room m c G i oH other :
  running_mem m c G [i] oH other → footprint G oH other i < capacity m c [i] other →
  0 < kv_available (token_to_kv_pool_allocator m) + evictable_size c.
Proof using.
  clear Hps. intros [M _] Hf. pose proof (protected_le c G _ (rm_repr _ _ _ _ _ M)) as Hp. unfold footprint, capacity in *. simpl in *.
  rewrite app_nil_r in Hf. lia.
Qed.

Lemma footprint_sub m c G G' l oH other i :
  running_mem m c G' l oH other → G' ⊆ G → i ∈ l → footprint G' oH other i = footprint G oH other i.
Proof using.
  intros [M _] HG Hi. unfold footprint. f_equal. f_equal. apply fmap_ext_elem. intros h Hh.
  destruct (r_handles _ _ _ (rm_repr _ _ _ _ _ M) h) as [lh Eh].
  { apply elem_of_cons in Hh as [->|Hh]; apply elem_of_app; [left|by right]. by apply list_elem_of_fmap_2. }
  by rewrite Eh, (lookup_weaken _ _ _ _ Eh HG).
Qed.

Lemma retractable_sub spec m c G m' c' G' l oH other :
  retractable spec m c G l oH other → running_mem m' c' G' l oH other → G' ⊆ G →
  kv_available (token_to_kv_pool_allocator m') + evictable_size c' = kv_available (token_to_kv_pool_allocator m) + evictable_size c →
  protected_size c' = protected_size c → retractable spec m' c' G' l oH other.
Proof using.
  clear Hps. intros [Ho|[-> Hf]] M HG Hs Hp; [by left|right]. split; [done|]. intros i Hi.
  rewrite (footprint_sub _ _ _ _ _ _ _ _ M HG Hi). specialize (Hf i Hi). unfold capacity in *. lia.
Qed.

Lemma retract_loop_ok spec fuel l : ∀ first retracted m c G oH other,
  (length l ≤ fuel)%nat → l ≠ [] → Forall running l → running_mem m c G l oH other →
  (0 < kv_available (token_to_kv_pool_allocator m) ∨ (1 < length l)%nat ∧ retractable spec m c G l oH other) →
  (first = false → 0 < kv_available (token_to_kv_pool_allocator m) ∨ spec = None) →
  ∃ kept gone m' c' G',
    retract_loop hash fuel spec (Z.of_nat ps) b first l retracted m
      = Ok (kept, retracted ++ omap reset_of (reverse gone), m') ∧
    l = kept ++ gone ∧ kept ≠ [] ∧ (first = true → gone = [] → length l = 1%nat) ∧
    running_mem m' c' G' kept oH other ∧
    (get_required_tokens spec (len kept) ≤ kv_available (token_to_kv_pool_allocator m') ∨ length kept = 1%nat) ∧
    0 < kv_available (token_to_kv_pool_allocator m') ∧ G' ⊆ G ∧
    ReqPool.free_slots (req_to_token_pool m') = ReqPool.free_slots (req_to_token_pool m) ++ omap slot_of (reverse gone).
Proof using Hps.
  revert l. induction fuel as [|fuel IH]; intros l first retracted m c G oH other Hfu Hne Hrun M Hav Hfirst.
  { destruct l; [done|simpl in Hfu; lia]. }
  cbn [retract_loop].
  destruct ((kv_available (token_to_kv_pool_allocator m) <? _) || first) eqn:Hcond.
  2:{ apply orb_false_iff in Hcond as [Hc%Z.ltb_ge ->].
      exists l, [], m, c, G. rewrite !app_nil_r. do 5 (split; [done|]). split; [by left|]. split; [|done].
      destruct (Hfirst eq_refl) as [Hpos| ->]; [done|]. unfold get_required_tokens, retract_decode_steps in Hc.
      destruct l; [done|]. rewrite len_cons in Hc. len_pos. lia. }
  destruct (Z.eqb_spec (len l) 1) as [El|El].
  { assert (length l = 1%nat) as El' by (unfold len in El; lia).
    assert (0 < kv_available (token_to_kv_pool_allocator m)) as Hpos by (destruct Hav as [|[? _]]; [done|lia]).
    destruct (Z.ltb_spec 0 (kv_available (token_to_kv_pool_allocator m))); [|lia]. simpl.
    exists l, [], m, c, G. rewrite !app_nil_r. do 5 (split; [done|]). split; [by right|done]. }
  destruct l as [|i l _] using rev_ind; [done|].
  rewrite last_snoc, removelast_last.
  apply Forall_app in Hrun as [Hrun Hri]. apply Forall_singleton in Hri as (r & s & idx & n & Er & Es & Ei & En).
  rewrite Er, Es.
  destruct (retract_one_ok m c G l i oH other r s idx n (len l) M Er Es Ei En) as (m1 & c1 & G1 & E1 & M1 & Hp1 & Ha1 & HG1 & Hcap & Hmin).
  rewrite E1. cbn [mbind pyres_bind].
  assert (l ≠ []) as Hl by (intros ->; by apply El).
  assert (0 < kv_available (token_to_kv_pool_allocator m1) ∨ (1 < length l)%nat ∧ spec = None ∧ retractable spec m1 c1 G1 l oH other) as Hroom.
  { pose proof (rm_nonneg _ _ _ _ _ (run_mem _ _ _ _ _ _ M)). destruct Hav as [?|[_ [Hown|[-> Hf]]]]; [left; len_pos; nia| |].
    - left. assert (own_of i ≠ []) as Ho by (apply Hown; set_solver).
      assert (0 < len (own_of i)) by (rewrite <-len_zero in Ho; len_pos; lia). nia.
    - assert (∀ j, j ∈ l → footprint G1 oH other j < capacity m1 c1 l other) as Hf1.
      { intros j Hj. rewrite (footprint_sub _ _ _ _ _ _ _ _ M1 HG1 Hj), Hcap. apply Hf. set_solver. }
      destruct l as [|j [|k l]]; [done| |right; split; [simpl; lia|]; split; [done|by right]].
      left. pose proof (last_room _ _ _ _ _ _ M1 (Hf1 j ltac:(set_solver))). change (len [j]) with 1 in Hmin.
      unfold retract_decode_steps in Hmin. lia. }
  rewrite length_app in Hfu. simpl in Hfu.
  destruct (IH l false (retracted ++ [Req.reset_for_retract r]) m1 c1 G1 oH other)
    as (kept & gone & m' & c' & G' & E & El' & Hk & _ & M' & Hreq & Hp' & HG' & Hsl); [lia|done|done|done| | |].
  { destruct Hroom as [?|(? & _ & ?)]; [by left|by right]. }
  { intros _. destruct Hroom as [?|(_ & ? & _)]; [by left|by right]. }
  exists kept, (gone ++ [i]), m', c', G'. rewrite E, reverse_snoc.
  split; [|split; [rewrite El'; by rewrite app_assoc|split; [done|split; [by destruct gone|split; [done|split; [done|split; [done|split; [by etrans|]]]]]]]].
  2:{ rewrite Hsl, Hp1. csimpl. unfold slot_of at 2. rewrite Er. simpl. rewrite Ei. by rewrite <-app_assoc. }
  csimpl. unfold reset_of at 2. rewrite Er. simpl. by rewrite <-app_assoc.
Qed.

Lemma running_mem_perm m c G l l' oH other :
  l ≡ₚ l' → running_mem m c G l oH other → running_mem m c G l' oH other.
Proof.
  intros E [[M1 M2 M3 M4 M5 M6 M7] T]. split; [|done]. split; try done.
  - eapply repr_perm; [|exact M2]. by rewrite E.
  - eapply kv_owned_perm; [|exact M5]. by rewrite E.
Qed.

Lemma retractable_perm spec m c G l l' oH other :
  l ≡ₚ l' → retractable spec m c G l oH other → retractable spec m c G l' oH other.
Proof.
  intros E [Ho|[-> Hf]]; [left|right; split; [done|]]; intros i Hi; rewrite <-E in Hi; [by apply Ho|].
  assert ((l' ≫= own_of) ++ other ≡ₚ (l ≫= own_of) ++ other) as Eb by (by rewrite E).
  unfold capacity. rewrite (len_perm _ _ Eb). by apply Hf.
Qed.

Lemma retract_order_perm spec : retract_order spec (reqs b) ≡ₚ seq 0 (length (reqs b)).
Proof. unfold retract_order. destruct spec; [done|]. apply py_sort_perm. Qed.

Lemma retract_order_sorted :
  StronglySorted (fun i j => retract_le (reqs b) i j = true) (retract_order None (reqs b)).
Proof.
  apply py_sort_sorted; unfold retract_le.
  - intros i j. destruct (retract_key (reqs b) i) as [x1 x2], (retract_key (reqs b) j) as [y1 y2]. lia.
  - intros i j k. destruct (retract_key (reqs b) i) as [x1 x2], (retract_key (reqs b) j) as [y1 y2],
      (retract_key (reqs b) k) as [z1 z2]. lia.
Qed.

(** The requests kept have decoded at least as much as those retracted. *)
Lemma retract_order_longest kept gone i j r s :
  retract_order None (reqs b) = kept ++ gone → i ∈ kept → j ∈ gone →
  reqs b !! i = Some r → reqs b !! j = Some s → len (Req.output_ids s) ≤ len (Req.output_ids r).
Proof.
  intros E Hi Hj Er Es. pose proof retract_order_sorted as Hs. rewrite E in Hs.
  pose proof (StronglySorted_app_1_elem_of _ _ _ i j Hs Hi Hj) as Hle. cbv beta in Hle.
  unfold retract_le, retract_key in Hle. rewrite Er, Es in Hle. lia.
Qed.

End retract.

Lemma sum_max_new_tokens_ok rs :
  Forall (fun r => ∃ k, SamplingParams.max_new_tokens (Req.sampling_params r) = Some k ∧ 0 < k) rs →
  ∃ n, sum_max_new_tokens rs = Ok n ∧ len rs ≤ n.
Proof.
  induction 1 as [|r rs (k & Ek & Hk) _ (n & E & Hn)]; [by exists 0|].
  exists (k + n). simpl. unfold Req.get_max_new_tokens. rewrite Ek. simpl. rewrite E. simpl.
  rewrite len_cons. split; [done|lia].
Qed.

Lemma retract_ratio_bounds n k :
  0 < n → 0 < k → let q := (inject_Z n / inject_Z k)%Q in
  (0 < (if Qle_bool 1 q then 1 else q) <= 1)%Q.
Proof.
  intros Hn Hk q. destruct (Qle_bool 1 q) eqn:E; [split; [done|apply Qle_refl]|]. split.
  - unfold q. apply Qlt_shift_div_l.
    + change (inject_Z 0 < inject_Z k)%Q. by rewrite <-Zlt_Qlt.
    + rewrite Qmult_0_l. change (inject_Z 0 < inject_Z n)%Q. by rewrite <-Zlt_Qlt.
  - apply Qlt_le_weak, Qnot_le_lt. intros Hl. apply Qle_bool_iff in Hl. congruence.
Qed.

Lemma retract_decode_ok hash `{HeapQ} (ps : nat) (A : Type) `{KVAllocator ps A}
    (b : ScheduleBatch) (m : memory A) c G oH other o spec :
  let tbl := ReqPool.req_to_token (req_to_token_pool m) in
  let all := seq 0 (length (reqs b)) in
  (0 < ps)%nat → batch_wf b → output_ids b = Some o → reqs b ≠ [] →
  Forall (running b) all → running_mem b tbl m c G all oH other →
  retractable b tbl spec m c G all oH other →
  (length (reqs b) = 1%nat → 0 < kv_available (token_to_kv_pool_allocator m)) →
  Forall (fun r => ∃ k, SamplingParams.max_new_tokens (Req.sampling_params r) = Some k ∧ 0 < k) (reqs b) →
  ∃ kept gone ratio b' m' c' G',
    retract_decode hash spec (Z.of_nat ps) b m = Ok (omap (reset_of b) (reverse gone), ratio, b', m') ∧
    retract_order spec (reqs b) = kept ++ gone ∧ kept ≠ [] ∧
    (gone = [] → length (reqs b) = 1%nat) ∧
    (spec = None → ∀ i j r s, i ∈ kept → j ∈ gone → reqs b !! i = Some r → reqs b !! j = Some s →
       len (Req.output_ids s) ≤ len (Req.output_ids r)) ∧
    running_mem b tbl m' c' G' kept oH other ∧
    (get_required_tokens spec (len kept) ≤ kv_available (token_to_kv_pool_allocator m') ∨ length kept = 1%nat) ∧
    0 < kv_available (token_to_kv_pool_allocator m') ∧
    batch_wf b' ∧ reqs b' = omap (fun i => reqs b !! i) kept ∧ (0 < ratio <= 1)%Q ∧
    rows b' = omap (fun i => rows b !! i) kept ∧ is_Some (output_ids b') ∧ enable_overlap b' = enable_overlap b ∧ G' ⊆ G ∧
    ReqPool.free_slots (req_to_token_pool m') =
      ReqPool.free_slots (req_to_token_pool m) ++ omap (slot_of b) (reverse gone).
Proof.
  intros tbl all Hps W Ho Hne Hrun M Hown Hone Hmax.
  pose proof (retract_order_perm b spec) as Hp. fold all in Hp.
  set (order := retract_order spec (reqs b)) in *.
  assert (length order = length (reqs b)) as Hlo by (rewrite Hp; apply length_seq).
  assert (order ≠ []) as Hno by (intros E; rewrite E in Hlo; destruct (reqs b); done).
  assert (rm := rm_nonneg _ _ _ _ _ (run_mem _ _ _ _ _ _ _ _ M)).
  destruct (retract_loop_ok hash Hps b tbl spec (length order) order true [] m c G oH other)
    as (kept & gone & m' & c' & G' & El & Eo & Hk & Hg & M' & Hreq & Hpos & HG & Hsl); [done|done|by rewrite Hp| | |done|].
  { eapply running_mem_perm; [|done]. by symmetry. }
  { destruct (decide (length (reqs b) = 1%nat)); [left; auto|right].
    split; [destruct (reqs b); [done|simpl in *; lia]|]. eapply retractable_perm; [|exact Hown]. by symmetry. }
  unfold retract_decode. fold order. rewrite El. cbn [mbind pyres_bind].
  destruct (filter_batch_ok b kept o W Ho Hk) as (b' & Eb & W' & Hov & Hsame & Hsel).
  { apply Forall_forall. intros i Hi. assert (i ∈ all) as Hin by (rewrite <-Hp, Eo; set_solver).
    apply elem_of_seq in Hin. lia. }
  rewrite Eb. cbn [mbind pyres_bind].
  assert (reqs b' = omap (fun i => reqs b !! i) kept ∧ rows b' = omap (fun i => rows b !! i) kept ∧
    is_Some (output_ids b')) as (Er & Erow & Eout).
  { destruct (decide (length kept = length (reqs b))) as [Ek|Ek].
    2:{ destruct (Hsel Ek) as (-> & -> & ->). eauto. }
    assert (gone = []) as ->.
    { apply length_zero_iff_nil. rewrite Eo, length_app in Hlo. lia. }
    rewrite (Hsame Ek). specialize (Hg eq_refl eq_refl). rewrite app_nil_r in Eo. rewrite <-Eo.
    assert (order = [0%nat]) as ->.
    { apply Permutation_singleton_r. unfold all in Hp. by rewrite <-Hlo, Hg in Hp. }
    rewrite Hlo in Hg. clear -Hg W Ho. destruct W as [W1 W2 W3 _ _]. rewrite Ho. unfold rows.
    destruct (reqs b) as [|r [|]], (req_pool_indices b) as [|? [|]], (seq_lens b) as [|? [|]], (orig_seq_lens b) as [|? [|]];
      simplify_eq/=; eauto. }
  assert (reqs b' ≠ []) as Hne'.
  { intros E. apply (f_equal length) in E. rewrite <-(bw_idx _ W') in E. clear -W' Er Hk E Hp Eo.
    rewrite (bw_idx _ W'), Er in E. destruct kept as [|k kept]; [done|]. simpl in E.
    assert (k ∈ all) as Hin by (rewrite <-Hp, Eo; set_solver). apply elem_of_seq in Hin.
    destruct (lookup_lt_is_Some_2 (reqs b) k) as [x Hx]; [lia|]. by rewrite Hx in E. }
  assert (Forall (fun r => ∃ k, SamplingParams.max_new_tokens (Req.sampling_params r) = Some k ∧ 0 < k) (reqs b')) as Hmax'.
  { rewrite Er. apply Forall_forall. intros r (i & _ & Hi)%list_elem_of_omap.
    apply (proj1 (Forall_forall _ _) Hmax). by eapply list_elem_of_lookup_2. }
  destruct (sum_max_new_tokens_ok _ Hmax') as (t & -> & Ht). cbn [mbind pyres_bind].
  assert (0 < len (reqs b')) as Hlen by (destruct (reqs b'); [done|rewrite len_cons; len_pos; lia]).
  destruct (Z.eqb_spec t 0); [lia|].
  eexists kept, gone, _, b', m', c', G'. do 3 (split; [done|]). split; [intros E; rewrite <-Hlo; by apply Hg|].
  split; [intros ->; intros; by eapply retract_order_longest|].
  do 5 (split; [done|]). split; [|done]. apply retract_ratio_bounds; [|lia].
  assert (0 ≤ zsum ((fun r => len (Req.output_ids r)) <$> reqs b')); [|unfold retract_decode_steps; lia].
  apply zsum_nonneg. intros x (y & -> & _)%list_elem_of_fmap. apply len_nonneg.
Qed.

(** C26: [retract_decode] over the radix cache terminates and succeeds for a
    well-formed, non-empty batch in accounted memory whose requests have
    limits of at least one token, if it is [retractable]: every request
    holds pages of its own, or, without speculative decoding, each of them
    alone would leave some of the pool free; and if a batch of a single
    request has free memory. (Else its assertion can fail, see
    [event_loop_retract_fails].) It retracts requests from the end of the
    retraction order (at least one, unless the batch has a single request)
    and never the last one; without speculative decoding the requests it
    keeps have decoded at least as many tokens. Afterwards the memory of the
    kept requests is intact, the pages, rows and locks of the others are
    released, and there is free memory, which covers the next decoding steps
    unless one request is left. The batch keeps the rows of the kept
    requests, and the new estimate is in (0, 1]. *)
Theorem batch_retract_decode_correct hash `{HeapQ} (ps : nat) (A : Type) `{KVAllocator ps A}
    (b : ScheduleBatch) (m : memory A) c G oH other o spec :
  let tbl := ReqPool.req_to_token (req_to_token_pool m) in
  let all := seq 0 (length (reqs b)) in
  (0 < ps)%nat → batch_wf b → output_ids b = Some o → reqs b ≠ [] →
  Forall (running b) all → running_mem b tbl m c G all oH other →
  retractable b tbl spec m c G all oH other →
  (length (reqs b) = 1%nat → 0 < kv_available (token_to_kv_pool_allocator m)) →
  Forall (fun r => ∃ k, SamplingParams.max_new_tokens (Req.sampling_params r) = Some k ∧ 0 < k) (reqs b) →
  ∃ kept gone ratio b' m' c' G',
    retract_decode hash spec (Z.of_nat ps) b m = Ok (omap (reset_of b) (reverse gone), ratio, b', m') ∧
    retract_order spec (reqs b) = kept ++ gone ∧ kept ≠ [] ∧
    (gone = [] → length (reqs b) = 1%nat) ∧
    (spec = None → ∀ i j r s, i ∈ kept → j ∈ gone → reqs b !! i = Some r → reqs b !! j = Some s →
       len (Req.output_ids s) ≤ len (Req.output_ids r)) ∧
    running_mem b tbl m' c' G' kept oH other ∧
    (get_required_tokens spec (len kept) ≤ kv_available (token_to_kv_pool_allocator m') ∨ length kept = 1%nat) ∧
    0 < kv_available (token_to_kv_pool_allocator m') ∧
    batch_wf b' ∧ reqs b' = omap (fun i => reqs b !! i) kept ∧ (0 < ratio <= 1)%Q.
Proof.
  intros tbl all Hps W Ho Hne Hrun M Hown Hone Hmax.
  destruct (retract_decode_ok hash ps A b m c G oH other o spec Hps W Ho Hne Hrun M Hown Hone Hmax)
    as (kept & gone & ratio & b' & m' & c' & G' & E1 & E2 & E3 & E4 & E5 & E6 & E7 & E8 & E9 & E10 & E11 & _).
  exists kept, gone, ratio, b', m', c', G'. done.
Qed.

(** Two requests on three pages of their own, next to the demo cache; the
    pool is full. *)
Definition full_pool : Paged.t :=
  match Paged.alloc 12 (Paged.init (fun _ => 0) 12 2 false true) with
  | Ok (_, p) => p
  | Raise _ => Paged.init (fun _ => 0) 12 2 false true
  end.

Definition retract_params : SamplingParams.t :=
  SamplingParams.mk (Some 3) StopNone [] 0 [7] 1%Q 1%Q 1 0%Q 0%Q 0%Q 1%Q 0 1 None None None false None.

Definition retract_req (idx : Z) (out : list Z) : Req.t :=
  Req.set_last_node (Some 0%nat) (Req.set_req_pool_idx (Some idx)
    (Req.set_output_ids out (Req.init (if idx =? 0 then "a" else "b") [1; 2] retract_params false [] None [] 32000))).

Definition retract_batch : ScheduleBatch :=
  mkBatch [retract_req 0 [4; 9]; retract_req 1 [5]] None false [] [0; 1] [3; 2] [3; 2] None (Some [9; 5]) 5
    false [] [] 0 [] None.

Definition retract_memory : memory Paged.t :=
  mkMemory (ReqPool.mk 2 5 [[8; 9; 10; 0; 0]; [12; 13; 0; 0; 0]] []) full_pool (RadixTree demo_cache).

Lemma full_pool_owned : paged_holds 2 full_pool [[2; 3]; [4; 5]; [6; 7]; [8; 9]; [10]; [12; 13]].
Proof.
  split; [split; [reflexivity|vm_compute; discriminate]|]. exists [1; 2; 3; 4; 5; 6]. split.
  - apply (bool_decide_unpack (Forall2 _ _ _)). vm_compute. reflexivity.
  - split; [|done|done]. vm_compute. reflexivity.
Qed.

(** Locking the root changes nothing. *)
Lemma repr_lock_root c G H : repr c G H → disable c = false → repr c G (root_node c :: H).
Proof.
  intros R Hd. destruct (inc_lock_ref_ok c G H (root_node c) [] R Hd (r_root _ _ _ R)) as (d & c' & E & R' & _).
  unfold inc_lock_ref in E. rewrite Hd in E. destruct (size (nodes c)); simpl in E;
    rewrite Nat.eqb_refl in E; by injection E as _ <-.
Qed.

Lemma demo_repr_roots : ∃ G, repr demo_cache G [0%nat; 0%nat] ∧
  tree_chunks demo_cache G ≡ₚ [[2; 3]; [4; 5]; [6; 7]].
Proof.
  destruct demo_repr_chunks as (G & R & C). exists G. split; [|exact C].
  assert (root_node demo_cache = 0%nat) as Er by (vm_compute; reflexivity). rewrite <-Er.
  assert (disable demo_cache = false) as Hd by (vm_compute; reflexivity).
  exact (repr_lock_root _ _ _ (repr_lock_root _ _ _ R Hd) Hd).
Qed.

Lemma retract_memory_ok : ∃ G, running_mem (ps := 2) (H0 := paged_kv 2) retract_batch [[8; 9; 10; 0; 0]; [12; 13; 0; 0; 0]]
  retract_memory demo_cache G [0; 1]%nat [] [].
Proof.
  destruct demo_repr_roots as (G & R & C). exists G. split; [|reflexivity].
  split; [reflexivity|exact R|reflexivity|reflexivity| |reflexivity|vm_compute; discriminate].
  change (paged_holds 2 full_pool (tree_chunks demo_cache G ++ [[8; 9]; [10]; [12; 13]] ++ [])).
  eapply paged_holds_perm; [|exact full_pool_owned]. rewrite C. reflexivity.
Qed.

Lemma batch_retract_decode_correct_witness :
  ∃ b' ratio m', retract_decode (ps := 2) (H0 := paged_kv 2) demo_hash None 2 retract_batch retract_memory
      = Ok ([Req.reset_for_retract (retract_req 1 [5])], ratio, b', m') ∧
    reqs b' = [retract_req 0 [4; 9]] ∧ (0 < ratio <= 1)%Q.
Proof.
  destruct retract_memory_ok as [G M].
  destruct (batch_retract_decode_correct demo_hash 2 Paged.t (H0 := paged_kv 2) retract_batch
    retract_memory demo_cache G [] [] [9; 5] None)
    as (kept & gone & ratio & b' & m' & c' & G' & E & Eo & Hk & Hg & _ & _ & _ & _ & _ & Er & Hq);
    [lia|split; try reflexivity; intros ? [= <-]; reflexivity|reflexivity|discriminate| |exact M| | | |].
  { repeat constructor; do 4 eexists; repeat split; reflexivity. }
  { left. intros i Hi. apply elem_of_cons in Hi as [->|Hi%list_elem_of_singleton]; [discriminate|].
    rewrite Hi. discriminate. }
  { discriminate. }
  { repeat constructor; exists 3; split; reflexivity. }
  assert (kept = [0%nat] ∧ gone = [1%nat]) as [-> ->].
  { assert (retract_order None (reqs retract_batch) = [0; 1]%nat) as Ho by (vm_compute; reflexivity).
    rewrite Ho in Eo. destruct kept as [|k0 [|k1 kept]]; [destruct (Hk eq_refl)| |].
    - injection Eo as <- <-. split; reflexivity.
    - exfalso. injection Eo as _ _ Eo. destruct kept; [|discriminate]. destruct gone; [|discriminate].
      discriminate (Hg eq_refl). }
  exists b', ratio, m'. split; [|split; [|exact Hq]].
  - exact E.
  - exact Er.
Defined.

Lemma batch_filter_merge_wf_witness :
  ∃ b1 b2, filter_batch [1%nat] retract_batch = Ok b1 ∧ merge_batch b1 retract_batch = Ok b2 ∧
    reqs b2 = [retract_req 1 [5]; retract_req 0 [4; 9]; retract_req 1 [5]].
Proof.
  assert (batch_wf retract_batch) as W by (split; try reflexivity; intros ? [= <-]; reflexivity).
  destruct (batch_filter_merge_wf retract_batch retract_batch [1%nat] [9; 5] [9; 5]) as [_ Hm];
    [exact W|exact W|reflexivity|reflexivity|repeat constructor; simpl; lia|discriminate|].
  destruct Hm as (b1 & b2 & E1 & E2 & _); [discriminate|].
  exists b1, b2. split; [exact E1|]. split; [exact E2|].
  vm_compute in E1. injection E1 as <-. vm_compute in E2. injection E2 as <-. reflexivity.
Defined.
