(* ===== verification/SchedulerProofs.v ===== *)
(** * The scheduler never admits more than it can allocate

    The pieces composed: ordering the queue, admission against the budgets,
    locking of prefixes, rows and slots. *)

From Stdlib Require Import QArith.
From S2P Require Import Prelude Allocator PagedAllocator PagedProofs SWAAllocator ReqPool SamplingParams Request KVAllocator.
From S2P Require Import RadixCache RadixInv RadixOwn RadixMatch RadixInsert RadixLocks RadixEvict SchedulePolicy SchedulePolicyProofs.
From S2P Require Import PrefixCache PrefillAdder PrefillAdderProofs ScheduleBatch TreeCache Scheduler AdmissionProofs.
From S2P Require Import BatchKernels BatchMemory MemoryAccount BatchExtend BatchRetract.
Open Scope Z_scope.

(** ** The queue *)

Lemma remove_admitted_perm (queue adm : list Req.t) :
  NoDup (Req.rid <$> queue) → adm `sublist_of` queue →
  (Req.rid <$> adm) ++ (Req.rid <$> remove_admitted queue adm) ≡ₚ Req.rid <$> queue.
Proof.
  intros Hnd Hs. unfold remove_admitted.
  assert (∀ l, (∀ x, x ∈ l → x ∉ Req.rid <$> queue) →
    (Req.rid <$> adm) ++ (Req.rid <$> filter (fun x => Req.rid x ∉ l ++ (Req.rid <$> adm)) queue) ≡ₚ Req.rid <$> queue) as X.
  { induction Hs as [|x adm queue Hs IH|x adm queue Hs IH]; intros l Hl; csimpl; [done|..];
      csimpl in Hnd; apply NoDup_cons in Hnd as [Hx Hnd]; csimpl in Hl.
    - rewrite filter_cons_False by set_solver. csimpl.
      constructor. rewrite <-(IH Hnd (l ++ [Req.rid x])) by set_solver.
      assert (filter (fun y => Req.rid y ∉ (l ++ [Req.rid x]) ++ (Req.rid <$> adm)) queue =
        filter (fun y => Req.rid y ∉ l ++ Req.rid x :: (Req.rid <$> adm)) queue) as ->; [|done].
      apply list_filter_iff. intros y. by rewrite <-app_assoc.
    - assert (Req.rid x ∉ Req.rid <$> adm) as Hxa.
      { intros Hin. apply Hx. apply list_elem_of_fmap in Hin as (y & -> & Hy).
        apply list_elem_of_fmap. exists y. split; [done|]. by eapply elem_of_submseteq, sublist_submseteq. }
      rewrite filter_cons_True by set_solver. csimpl. rewrite Permutation_app_comm. csimpl.
      rewrite Permutation_app_comm, (IH Hnd l); [done|]. set_solver. }
  by apply (X []); set_solver.
Qed.

Lemma bump_fields chunked rs :
  ∃ f : Req.t → Z, bump_chunked chunked rs = (fun r => Req.set_is_chunked (f r) r) <$> rs.
Proof.
  destruct chunked as [c|].
  - exists (fun r => if decide (Req.rid r = Req.rid c) then Req.is_chunked r + 1 else Req.is_chunked r).
    simpl. apply list_fmap_ext. intros _ r _. case_decide; [done|by destruct r].
  - exists Req.is_chunked. simpl. rewrite <-(list_fmap_id rs) at 1. apply list_fmap_ext. intros _ r _. by destruct r.
Qed.

Lemma same_request_rids q q' : Forall2 same_request q q' → Req.rid <$> q' = Req.rid <$> q.
Proof. induction 1 as [|r r' q q' (E & _) _ IH]; [done|]. csimpl. by rewrite E, IH. Qed.

Lemma extended_field {X} (g : Req.t → X) idxs rs :
  (∀ i r, g (extended i r) = g r) → length idxs = length rs → g <$> zip_with extended idxs rs = g <$> rs.
Proof.
  intros Hg. revert rs. induction idxs as [|i idxs IH]; intros [|r rs] Hl; simplify_eq/=; [done|].
  by rewrite Hg, IH.
Qed.

Lemma zsum_take_le (l : list Z) k x :
  Forall (fun y => 0 < y) l → l !! k = Some x → 0 ≤ zsum (take k l) ∧ zsum (take k l) + x ≤ zsum l.
Proof.
  intros Hl. revert k. induction Hl as [|y l Hy Hl IH]; intros k Hk; [done|].
  assert (0 ≤ zsum l) as Hnn.
  { clear -Hl. induction Hl as [|z l Hz _ IH]; [done|]. rewrite zsum_cons. lia. }
  destruct k as [|k]; simplify_eq/=; rewrite ?zsum_cons; [change (zsum []) with 0; lia|].
  specialize (IH k Hk). lia.
Qed.

(** ** The budgets at the start *)

Lemma running_offset_nonneg ratio rs :
  (0 <= ratio)%Q →
  Forall (fun r => ∃ m, SamplingParams.max_new_tokens (Req.sampling_params r) = Some m ∧ len (Req.output_ids r) ≤ m) rs →
  ∃ q, PrefillAdder.running_offset ratio rs = Ok q ∧ (0 <= q)%Q.
Proof.
  intros Hr. unfold PrefillAdder.running_offset. induction 1 as [|r rs (m & Hm & Hle) _ (q & E & Hq)].
  { exists 0%Q. split; [done|]. apply Qle_refl. }
  cbn [foldr]. rewrite E. unfold PrefillAdder.running_estimate, Req.get_max_new_tokens. rewrite Hm. simpl.
  eexists. split; [done|]. rewrite <-(Qplus_0_l 0). apply Qplus_le_compat; [|done].
  apply Qmult_le_0_compat; [|done]. change 0%Q with (inject_Z 0). rewrite <-Zle_Qle.
  unfold CLIP_MAX_NEW_TOKENS. lia.
Qed.

Section prefill.
Context (hash : list Z → Z) (clock : nat → Z) `{HeapQ} (garbage tl_other : Z → Z) (ps : nat).
Context (torch_garbage : nat → list Z) (shuffle : list Req.t → list Req.t).
Context (Hgarbage : ∀ n, length (torch_garbage n) = n) (Hshuffle : ∀ l, shuffle l ≡ₚ l).
#[local] Instance sba : BatchAllocator Paged.t := paged_batch_allocator garbage tl_other.
#[local] Instance skv : KVAllocator ps Paged.t := paged_kv ps.
Context (cfg : Config).
Context (Hps : (1 < ps)%nat) (Hcfg : cfg_page_size cfg = Z.of_nat ps) (Hmix : is_mixed_chunk cfg = false).
Context (Htri : support_triton cfg = true) (Hlast : last_loc_by_triton cfg = true).
Abbreviation sched := (Scheduler (A := Paged.t)).

(** Cached slots are int32 and lie at their position of the page. *)
Definition slots_ok (v : option (option (gmap nat path * RadixCache))) : Prop :=
  ∀ n l, tree_path v n l → Forall (fun x => 0 ≤ x < 2 ^ 31) l.*2 ∧
    ∀ i x, l.*2 !! i = Some x → x mod Z.of_nat ps = Z.of_nat i mod Z.of_nat ps.

Lemma prefilled_extendable v r n :
  slots_ok v → prefilled (ps := ps) v r → len (Req.origin_input_ids r) + len (Req.output_ids r) ≤ n →
  extendable (Z.of_nat ps) n r.
Proof using Hps.
  intros S [(p & P1 & Pi & _) P2 P3 P4 P5] Hn. destruct (S _ _ P1) as [S1 S2]. rewrite <-Pi in S1, S2. split; try done.
  - apply prefix_length in P5. rewrite length_app in P5. unfold len in *. lia.
  - intros x Hx. rewrite last_lookup in Hx. pose proof (S2 _ _ Hx) as Hm.
    assert (Req.prefix_indices r ≠ []) as Hne by (intros E; rewrite E in Hx; done).
    destruct P2 as [q Hq]. unfold len in Hq. destruct (Req.prefix_indices r) as [|y l]; [done|]. simpl in Hm, Hq.
    rewrite Z.add_mod, Hm, <-Z.add_mod by lia. replace (Z.of_nat (length l) + 1) with (q * Z.of_nat ps) by lia.
    apply Z.mod_mul. lia.
Qed.

Lemma paged_available_aligned p : Paged.page_size p = Z.of_nat ps → (Z.of_nat ps | Paged.available_size p).
Proof using. intros E. rewrite paged_available_held, E. apply Z.divide_factor_r. Qed.

Lemma radix_slots_ok (m : memory Paged.t) c G Hs rest :
  radix_mem (ps := ps) m c G Hs rest → slots_ok (Some (Some (G, c))).
Proof using Hps.
  intros [_ R _ Hp Ho _ _] n l (n' & -> & Hn). pose proof (tree_in_page _ _ _ _ _ _ _ R Hp Ho Hn) as Hin.
  destruct Ho as [[_ Hsm] _]. split; [|intros i x Hi; by apply Hin].
  apply Forall_lookup. intros i x Hi. destruct (Hin i x Hi) as [_ Hb]. lia.
Qed.

(** What the scheduler keeps true between rounds: the memory behind a radix
    cache, enough rows, and well-formed requests. *)
Record sched_ok (s : sched) (c : RadixCache) (G : gmap nat path) (Hs : list nat) (rest : list (list Z)) (used : list Z)
    : Prop := mk_sched_ok {
  so_mem : radix_mem (ps := ps) (mem s) c G Hs rest;
  so_size : kv_available (token_to_kv_pool_allocator (mem s)) + evictable_size c < 2 ^ 30;
  so_pool : ReqPool.wf (req_to_token_pool (mem s));
  so_rows : ReqPool.owned (req_to_token_pool (mem s)) used;
  so_free : max_micro_batch_size cfg - len (reqs (sb (running_batch s))) ≤ ReqPool.available_size (req_to_token_pool (mem s));
  so_wq : wq_ready (waiting_queue_radix_tree s);
  so_ratio : (0 <= new_token_ratio s)%Q;
  so_running : Forall (fun r => ∃ m, SamplingParams.max_new_tokens (Req.sampling_params r) = Some m ∧
    len (Req.output_ids r) ≤ m) (reqs (sb (running_batch s)));
  so_queue : Forall (fun r => waiting true r ∧
    Req.seqlen r ≤ ReqPool.max_context_len (req_to_token_pool (mem s))) (waiting_queue s);
  so_rids : NoDup (Req.rid <$> waiting_queue s);
}.

(** *** Ordering the queue *)

Lemma waiting_same on r r' : same_request r r' → waiting on r → waiting on r'.
Proof using. intros (_ & E2 & E3 & E4 & _). unfold waiting, Req.seqlen. by rewrite E2, E3, E4. Qed.

Lemma same_request_seqlen r r' : same_request r r' → Req.seqlen r' = Req.seqlen r.
Proof using. intros (_ & E2 & E3 & _). unfold Req.seqlen. by rewrite E2, E3. Qed.

(** A request of the queue [q], up to its prefix fields. *)
Definition from_queue (q : list Req.t) (r : Req.t) : Prop := ∃ r0, r0 ∈ q ∧ same_request r0 r.

Lemma from_queue_same q q' : Forall2 same_request q q' → Forall (from_queue q) q'.
Proof using.
  intros F. apply Forall_forall. intros r (i & Hi)%list_elem_of_lookup. destruct (Forall2_lookup_r _ _ _ _ _ F Hi) as (r0 & H0 & Hs).
  exists r0. split; [by eapply list_elem_of_lookup_2|done].
Qed.

Lemma from_queue_trans q q' r : Forall (from_queue q) q' → from_queue q' r → from_queue q r.
Proof using.
  intros F (r1 & H1 & S1). destruct (proj1 (Forall_forall _ _) F r1 H1) as (r0 & H0 & S0). exists r0.
  split; [done|by eapply same_request_trans].
Qed.

Lemma calc_priority_step_ok s c G Hs rest used :
  sched_ok s c G Hs rest used →
  ∃ q c' G' wq, calc_priority_step hash clock torch_garbage shuffle cfg s =
      Ok (with_tree (RadixTree c') (with_wq_tree wq (with_queue q s))) ∧ wq_ready wq ∧
    repr c' G' Hs ∧ disable c' = false ∧ page_size c' = ps ∧ evictable_size c' = evictable_size c ∧
    grown (Some (Some (G, c))) (Some (Some (G', c'))) ∧
    Forall (from_queue (waiting_queue s)) q ∧ Req.rid <$> q ≡ₚ Req.rid <$> waiting_queue s.
Proof using Hgarbage Hshuffle.
  intros [M _ _ _ _ W _ _ Q _]. unfold calc_priority_step. rewrite (rm_tree _ _ _ _ _ M).
  destruct (calc_priority_ok hash clock torch_garbage shuffle (policy cfg) (waiting_queue s) c G Hs
    (waiting_queue_radix_tree s) Hgarbage Hshuffle) as (b & q & q1 & c' & wq & G' & E & Hw & R & F & S1 & P & _);
    [|apply M|apply M|done|].
  { eapply Forall_impl; [done|]. intros r [((m & Hm & _) & _) _]. rewrite Hm. eauto. }
  rewrite E. simpl. exists q, c', G', wq. split; [done|]. split; [done|]. split; [done|]. destruct F as [F1 F2 F3 F4 F5 F6 F7 F8].
  split; [rewrite F3; apply M|]. split; [rewrite F1; apply M|]. split; [unfold evictable_size; congruence|]. split.
  { split; simpl; [done| | |done].
    - intros n l (n' & -> & Hn). exists n'. split; [done|]. by eapply lookup_weaken.
    - intros n l (n' & -> & Hn). destruct (proj1 (F7 l)) as (n0 & l0 & Hn0 & Hl); [by exists n', l|].
      exists (Some n0), l0. split; [by exists n0|done]. }
  rewrite P. split; [by apply from_queue_same|]. by rewrite (same_request_rids _ _ S1).
Qed.

(** *** The adder for a round without a chunked request *)

Lemma adder_init_ok (k : Paged.t) c G Hs rs ratio maxp chunk :
  repr c G Hs → disable c = false → page_size c = ps →
  Paged.page_size k = Z.of_nat ps → 0 ≤ Paged.available_size k → (0 <= ratio)%Q →
  Forall (fun r => ∃ m, SamplingParams.max_new_tokens (Req.sampling_params r) = Some m ∧ len (Req.output_ids r) ≤ m) rs →
  ∃ a : PrefillAdder.t Paged.t tree,
    PrefillAdder.init (Z.of_nat ps) (RadixTree c) (PlainPool k) (Some rs) ratio maxp chunk 0 = Ok a ∧
    adder_ok (H1 := tree_prefix_laws ps) a k (Some (Some (G, c))) (Some <$> Hs) 0 ∧
    PrefillAdder.can_run_list a = [] ∧ PrefillAdder.new_chunked_req a = None ∧ PrefillAdder.tree_cache a = RadixTree c ∧
    (chunk = None → PrefillAdder.rem_chunk_tokens a = None).
Proof using Hps.
  intros R Hd Hp Hk Hav Hr Hrs. unfold PrefillAdder.init.
  destruct (running_offset_nonneg ratio rs Hr Hrs) as (q & -> & Hq). simpl. eexists. split; [done|].
  split; [|split_and!; try done; by intros ->]. split; simpl; try done.
  - by apply paged_available_aligned.
  - exists Hs. split_and!; done.
  - apply Z.divide_0_r.
  - by rewrite Qplus_0_l.
  - unfold PrefillAdder.cur_rem_tokens. rewrite (available_tree _ k) by done. simpl.
    pose proof (evictable_nonneg c G Hs R). change (Paged.available_size k) with (kv_available (ps := ps) k) in *. lia.
Qed.

(** A request of a new prefill batch: its row [i] holds the slots of its
    cached prefix, the path of its locked node, then new slots. *)
Record prefill_row (G : gmap nat path) (p : ReqPool.t) (i : Z) (r : Req.t) : Prop := mk_prefill_row {
  pr_idx : Req.req_pool_idx r = Some i;
  pr_retracted : Req.is_retracted r = false;
  pr_path : ∃ n l, Req.last_node r = Some n ∧ G !! n = Some l ∧ Req.prefix_indices r = l.*2 ∧ l.*1 `prefix_of` Req.fill_ids r;
  pr_aligned : (Z.of_nat ps | len (Req.prefix_indices r));
  pr_slots : ∃ new, ReqPool.read i (len (Req.fill_ids r)) p = Req.prefix_indices r ++ new ∧ len new = Req.extend_input_len r;
  pr_extend : 0 < Req.extend_input_len r;
  pr_tokens : Req.fill_ids r `prefix_of` Req.origin_input_ids r ++ Req.output_ids r;
}.

(** What a new prefill batch is: its requests locked in the cache, with rows
    and slots of their own. *)
Definition prefill_started (m m' : memory Paged.t) (b : ScheduleBatch) (G : gmap nat path) (Hs : list nat) (rest : list (list Z)) (used : list Z) : Prop :=
  ∃ c' G' nodes out,
    batch_wf b ∧ forward_mode b = Some EXTEND ∧ enable_overlap b = cfg_enable_overlap cfg ∧ output_ids b = None ∧
    out_cache_loc b = Some out ∧ NoDup out ∧ seq_lens b = (fun r => len (Req.fill_ids r)) <$> reqs b ∧
    Req.last_node <$> reqs b = Some <$> nodes ∧ Forall2 (prefill_row G' (req_to_token_pool m')) (req_pool_indices b) (reqs b) ∧
    ReqPool.wf (req_to_token_pool m') ∧ pool_shape m' = pool_shape m ∧
    ReqPool.owned (req_to_token_pool m') (req_pool_indices b ++ used) ∧
    (∀ j, 0 ≤ j → j ∉ req_pool_indices b → ReqPool.row j (req_to_token_pool m') = ReqPool.row j (req_to_token_pool m)) ∧
    (∀ h, h ∈ Hs → G' !! h = G !! h) ∧
    radix_mem (ps := ps) m' c' G' (reverse nodes ++ Hs)
      ((zip (req_pool_indices b) (reqs b) ≫= new_chunks ps (req_to_token_pool m')) ++ rest).

Lemma new_chunks_extended p idxs rs :
  zip idxs (zip_with extended idxs rs) ≫= new_chunks ps p = zip idxs rs ≫= new_chunks ps p.
Proof using. revert rs. induction idxs as [|i idxs IH]; intros [|r rs]; csimpl; [done..|]. by rewrite IH. Qed.

(** The batch made from admitted requests. *)
Lemma start_prefill_ok (m : memory Paged.t) c G (adm : list Req.t) nodes Hs rest used chunked :
  radix_mem (ps := ps) m c G (reverse nodes ++ Hs) rest → adm ≠ [] →
  Req.last_node <$> adm = Some <$> nodes → Forall (prefilled (ps := ps) (Some (Some (G, c)))) adm →
  Forall (fun r => Req.seqlen r ≤ ReqPool.max_context_len (req_to_token_pool m)) adm →
  ReqPool.wf (req_to_token_pool m) → ReqPool.owned (req_to_token_pool m) used →
  len adm ≤ ReqPool.available_size (req_to_token_pool m) →
  kv_available (token_to_kv_pool_allocator m) + evictable_size c < 2 ^ 30 →
  zsum ((fun r => ceil_to (Z.of_nat ps) (Req.extend_input_len r)) <$> adm) ≤
    kv_available (token_to_kv_pool_allocator m) + evictable_size c →
  ∃ b m' idxs, prepare_for_extend hash garbage true true (sb (init_new (bump_chunked chunked adm) (cfg_enable_overlap cfg) chunked)) m
      = Ok (b, m') ∧ reqs b = zip_with extended idxs (bump_chunked chunked adm) ∧ length idxs = length adm ∧
    prefill_started m m' b G Hs rest used.
Proof using Hps.
  intros M Hne Hn Hpf Hctx Hw Ho Hav Hsz Hfit. pose proof (radix_slots_ok _ _ _ _ _ M) as S. destruct (bump_fields chunked adm) as [f Ef].
  set (rs := bump_chunked chunked adm) in *.
  assert (Forall (prefilled (ps := ps) (Some (Some (G, c)))) rs) as Hpf'.
  { rewrite Ef. apply Forall_fmap. eapply Forall_impl; [exact Hpf|]. intros r [P1 P2 P3 P4 P5]. by split. }
  assert (Forall (fun r => 0 < Req.extend_input_len r) rs) as Hpos.
  { eapply Forall_impl; [exact Hpf'|]. intros r P. apply P. }
  assert (len rs = len adm) as Elen by (rewrite Ef; apply len_fmap).
  assert (zsum ((fun r => ceil_to (Z.of_nat ps) (Req.extend_input_len r)) <$> rs) =
    zsum ((fun r => ceil_to (Z.of_nat ps) (Req.extend_input_len r)) <$> adm)) as Eceil by (rewrite Ef, <-list_fmap_compose; done).
  assert (len rs ≤ zsum (Req.extend_input_len <$> rs) ≤ zsum ((fun r => ceil_to (Z.of_nat ps) (Req.extend_input_len r)) <$> rs)) as Hsum.
  { clear -Hpos Hps. induction Hpos as [|r rs Hr _ IH]; [done|]. csimpl. rewrite !zsum_cons, len_cons.
    pose proof (ceil_to_bounds (Z.of_nat ps) ltac:(lia) (Req.extend_input_len r)). lia. }
  destruct (prepare_for_extend_ok hash garbage tl_other ps
    (sb (init_new rs (cfg_enable_overlap cfg) chunked)) m c G (reverse nodes ++ Hs) rest used) as
    (idxs & out & b & m' & c' & G' & E & Er & Ei & Es & Eo & Hnd & Hlo & (Em & Eov & Eout & Hlor & Hls) & Hli & Hndi & Ho' & Hrows & Hoth & Hw' & Hsh & HG & _ & M');
    simpl; try done.
  { intros E. apply (f_equal len) in E. rewrite Elen in E. by apply len_zero in E. }
  { by rewrite Elen. }
  { apply Forall_forall. intros r Hr. destruct (prefilled_extendable _ r (ReqPool.max_context_len (req_to_token_pool m)) S)
      as [X1 X2 X3 X4 X5 X6]; [by eapply (proj1 (Forall_forall _ _) Hpf') in Hr| |by split].
    rewrite Ef in Hr. apply list_elem_of_fmap in Hr as (r0 & -> & Hr0). by eapply (proj1 (Forall_forall _ _) Hctx) in Hr0. }
  { lia. }
  { rewrite Eceil. done. }
  change (reqs (sb (init_new rs (cfg_enable_overlap cfg) chunked))) with rs in *.
  assert (length idxs = length rs) as Hl by (unfold len in *; simpl in *; lia).
  assert (length (reqs b) = length rs) as Hlb by (rewrite Er, length_zip_with; lia).
  assert (Req.last_node <$> reqs b = Some <$> nodes) as Enode.
  { rewrite Er, extended_field by done. by rewrite Ef, <-list_fmap_compose. }
  exists b, m', idxs. split; [done|]. split; [done|]. split; [unfold len in Elen; lia|].
  exists c', G', nodes, out. split.
  { split; [by rewrite Ei, Hlb|by rewrite Es, Hlb, length_fmap|by rewrite Hlor, Hlb|by rewrite Eout|done]. }
  do 5 (split; [done|]). split; [rewrite Es, Er; symmetry; by apply (extended_field (fun r => len (Req.fill_ids r)))|].
  split; [done|]. rewrite Ei. split.
  { rewrite Er. apply Forall2_lookup. intros k. rewrite lookup_zip_with.
    destruct (idxs !! k) as [i|] eqn:Ek; [|constructor]. destruct (rs !! k) as [r|] eqn:Erk; simpl.
    2:{ apply lookup_ge_None in Erk. apply lookup_lt_Some in Ek. lia. }
    constructor. destruct (Forall_lookup_1 _ _ _ _ Hpf' Erk) as [(l & (n & En & Hg) & Pi & Pk) P2 P3 P4 P5].
    destruct (Forall2_lookup_lr _ _ _ _ _ _ Hrows Ek Erk) as (new & Hnew & Hln).
    split; try done; [|by exists new]. exists n, l. split; [done|]. split; [|done].
    destruct (r_handles _ _ _ (rm_repr _ _ _ _ _ M') n) as [l' Hl'].
    - apply elem_of_app. left. apply elem_of_reverse. assert (Some n ∈ Some <$> nodes) as (n0 & [= ->] & Hin)%list_elem_of_fmap; [|done].
      rewrite <-Enode. apply list_elem_of_fmap. exists (extended i r). split; [done|]. rewrite Er.
      eapply list_elem_of_lookup_2 with (i := k). by rewrite lookup_zip_with, Ek; simpl; rewrite Erk.
    - rewrite Hl'. f_equal. apply (lookup_weaken _ _ _ _ Hl') in HG. congruence. }
  do 4 (split; [done|]). split; [|by rewrite Er, new_chunks_extended]. intros h Hh.
  destruct (r_handles _ _ _ (rm_repr _ _ _ _ _ M') h) as [lh Eh]; [apply elem_of_app; by right|]. by rewrite Eh, (lookup_weaken _ _ _ _ Eh HG).
Qed.

Lemma prefilled_view G c1 c2 r :
  prefilled (ps := ps) (Some (Some (G, c1))) r → prefilled (ps := ps) (Some (Some (G, c2))) r.
Proof using. intros [P1 P2 P3 P4 P5]. by split. Qed.

Lemma locks_split (l : list (option nat)) Hs H' :
  reverse l ++ (Some <$> Hs) = Some <$> H' → ∃ nodes, l = Some <$> nodes ∧ H' = reverse nodes ++ Hs.
Proof using.
  intros E. symmetry in E. apply fmap_app_inv in E as (H1 & H2 & E1 & E2 & ->).
  exists (reverse H1). rewrite fmap_reverse, <-E1, !reverse_involutive. split; [done|].
  f_equal. by apply (inj (fmap Some)) in E2.
Qed.

(** The cache after the admission loop. *)
Lemma loop_tree (t : tree) v v' L :
  tree_ok ps t v' L → grown v v' → tree_on v = true →
  ∃ c' G' c2 H', t = RadixTree c' ∧ v' = Some (Some (G', c2)) ∧ L = Some <$> H' ∧
    repr c' G' H' ∧ disable c' = false ∧ page_size c' = ps ∧ tree_chunks c' G' ≡ₚ tree_pages v.
Proof using.
  intros O [G1 _ _ G4] On. rewrite On in G1.
  destruct t as [| |c'], v' as [[[G' c2]|]|]; try done. destruct O as (H' & -> & Hd & Hp & R & U).
  exists c', G', c2, H'. split_and!; try done. by rewrite (upto_chunks _ _ _ U).
Qed.

(** *** A round of admission *)

(** What a round leaves alone: the running batch but for its flag, the last
    batch, the estimate and the dimensions of the request table; the requests
    that still wait are the ones of the queue. *)
Record round_frame (s s' : sched) : Prop := mk_round_frame {
  rf_queue : Forall (from_queue (waiting_queue s)) (waiting_queue s');
  rf_wq : wq_ready (waiting_queue_radix_tree s');
  rf_running : ∃ full, running_batch s' = set_full full (running_batch s);
  rf_last : last_batch s' = last_batch s;
  rf_ratio : new_token_ratio s' = new_token_ratio s;
  rf_shape : pool_shape (mem s') = pool_shape (mem s);
}.

(** The new batch of the round; without chunked prefill its requests are
    computed whole. *)
Record new_batch_ok (s s' : sched) (B : Batch) (G : gmap nat path) (Hs : list nat) (rest : list (list Z)) (used : list Z) : Prop := mk_new_batch_ok {
  nb_some : reqs (sb B) ≠ [];
  nb_cap : len (reqs (sb B)) ≤ max_micro_batch_size cfg - len (reqs (sb (running_batch s)));
  nb_started : prefill_started (mem s) (mem s') (sb B) G Hs rest used;
  nb_decoding : decoding_reqs B = None;
  nb_only : is_prefill_only B = forallb (fun r => bool_decide (SamplingParams.max_new_tokens (Req.sampling_params r) = Some 0)) (reqs (sb B));
  nb_whole : chunked_prefill_size cfg = None → chunked_req s' = None ∧ chunked_of B = None ∧
    Forall (fun r => from_queue (waiting_queue s) r ∧ Req.fill_ids r = Req.origin_input_ids r ++ Req.output_ids r) (reqs (sb B));
}.

(** The result of the loop over the queue, with the lock of every admitted
    request. *)
Record admission_ok (s : sched) c G Hs rest (q : list Req.t) (a : PrefillAdder.t Paged.t tree) nodes c2 G2 : Prop := mk_admission_ok {
  am_queue : Forall (from_queue (waiting_queue s)) q;
  am_rids : Req.rid <$> q ≡ₚ Req.rid <$> waiting_queue s;
  am_sub : PrefillAdder.can_run_list a `sublist_of` q;
  am_tree : PrefillAdder.tree_cache a = RadixTree c2;
  am_nodes : Req.last_node <$> PrefillAdder.can_run_list a = Some <$> nodes;
  am_prefilled : Forall (prefilled (ps := ps) (Some (Some (G2, c2)))) (PrefillAdder.can_run_list a);
  am_chunks : tree_chunks c2 G2 ≡ₚ tree_chunks c G;
  am_paths : G ⊆ G2;
  am_mem : radix_mem (ps := ps) (mkMemory (req_to_token_pool (mem s)) (token_to_kv_pool_allocator (mem s)) (RadixTree c2)) c2 G2 (reverse nodes ++ Hs) rest;
  am_evict : evictable_size c2 ≤ evictable_size c;
  am_fits : zsum ((fun r => ceil_to (Z.of_nat ps) (Req.extend_input_len r)) <$> PrefillAdder.can_run_list a) ≤
    kv_available (token_to_kv_pool_allocator (mem s)) + evictable_size c2;
  am_whole : chunked_prefill_size cfg = None → PrefillAdder.new_chunked_req a = None ∧
    Forall (fun r => Req.fill_ids r = Req.origin_input_ids r ++ Req.output_ids r) (PrefillAdder.can_run_list a);
}.

Lemma admission_round_ok (s : sched) c G Hs rest used alloc lora hc :
  sched_ok s c G Hs rest used → 0 ≤ alloc →
  ∃ q c1 wq a q' a' full nodes c2 G2,
    let s1 := with_tree (RadixTree c1) (with_wq_tree wq (with_queue q s)) in
    calc_priority_step hash clock torch_garbage shuffle cfg s = Ok s1 ∧ wq_ready wq ∧
    PrefillAdder.init (Z.of_nat ps) (RadixTree c1) (PlainPool (token_to_kv_pool_allocator (mem s)))
      (Some (reqs (sb (running_batch s)))) (new_token_ratio s) (max_prefill_tokens cfg) (chunked_prefill_size cfg) 0 = Ok a ∧
    admit_loop hash clock cfg alloc lora hc q a (batch_is_full (running_batch s)) = Ok (q', a', full) ∧
    len (PrefillAdder.can_run_list a') ≤ alloc ∧ admission_ok s c G Hs rest q' a' nodes c2 G2.
Proof using Hps Hgarbage Hshuffle.
  intros I Hal. pose proof I as [M Hsz Hw Hrows Hfree _ Hratio Hrun Hq Hrid].
  destruct (calc_priority_step_ok s c G Hs rest used I) as (q & c1 & G1 & wq & E1 & Hwq & R1 & Hd1 & Hp1 & Hev1 & Gr1 & Hq1 & Hrid1).
  assert (Paged.page_size (token_to_kv_pool_allocator (mem s)) = Z.of_nat ps) as Hpg by apply (rm_owned _ _ _ _ _ M).
  destruct (adder_init_ok (token_to_kv_pool_allocator (mem s)) c1 G1 Hs (reqs (sb (running_batch s))) (new_token_ratio s)
    (max_prefill_tokens cfg) (chunked_prefill_size cfg) R1 Hd1 Hp1 Hpg (rm_nonneg _ _ _ _ _ M) Hratio Hrun)
    as (a & E2 & Oa & Hcr & Hnc & Hta & Hrem).
  destruct (admit_loop_ok hash clock cfg ltac:(lia) alloc lora hc q a _ _ _ _ (batch_is_full (running_batch s)) Oa) as
    (q' & a' & full & v' & adm & E3 & Gr & Oa' & Hcr' & Hsame & Hsub & Hpf & Hlen & Hev & Hnc' & Hwhole).
  { apply Forall_forall. intros r Hr. destruct (proj1 (Forall_forall _ _) Hq1 r Hr) as (r0 & H0 & S0).
    eapply waiting_same; [done|]. by apply (proj1 (Forall_forall _ _) Hq r0 H0). }
  rewrite Hcr in Hcr', Hlen. simpl in Hcr'. rewrite Hta in Hev. rewrite Hnc in Hnc'.
  assert (grown (Some (Some (G, c))) v') as Gr2 by (by eapply grown_preorder).
  destruct (loop_tree _ (Some (Some (G, c))) _ _ (ao_tree _ _ _ _ _ Oa') Gr2 eq_refl) as
    (c2 & G2 & c2' & H2 & Et & -> & EL & R2 & Hd2 & Hp2 & Hch2).
  destruct (locks_split _ _ _ EL) as (nodes & Enodes & ->).
  exists q, c1, wq, a, q', a', full, nodes, c2, G2. split; [done|]. split; [done|]. split; [done|]. split; [done|].
  split; [change (len []) with 0 in Hlen; lia|]. rewrite Et in Hev. simpl in Hev. split; rewrite ?Hcr'; try done.
  - apply Forall_forall. intros r Hr. apply (from_queue_trans (waiting_queue s) q); [done|].
    by apply (proj1 (Forall_forall _ _) (from_queue_same _ _ Hsame)).
  - by rewrite (same_request_rids _ _ Hsame).
  - eapply Forall_impl; [exact Hpf|]. intros r. apply prefilled_view.
  - apply map_subseteq_spec. intros n l Hn. destruct (gr_path _ _ Gr2 (Some n) l) as (n' & [= <-] & Hn'); [by exists n|done].
  - split; simpl; [done..| |apply M|apply M].
    change (kv_owned (ps := ps) (token_to_kv_pool_allocator (mem s)) (tree_chunks c2 G2 ++ rest)).
    eapply kv_owned_perm; [|exact (rm_owned _ _ _ _ _ M)]. by rewrite Hch2.
  - lia.
  - pose proof (ao_fits _ _ _ _ _ Oa') as Hf. unfold PrefillAdder.cur_rem_tokens in Hf.
    rewrite (available_tree a' _ (ao_pool _ _ _ _ _ Oa')), (ao_offset _ _ _ _ _ Oa'), Hcr', Et in Hf. simpl in Hf |- *. lia.
  - intros Hnone. destruct (Hwhole (Hrem Hnone)) as [-> Hf]. done.
Qed.

Lemma admission_context (s : sched) c G Hs rest used q a nodes c2 G2 :
  sched_ok s c G Hs rest used → admission_ok s c G Hs rest q a nodes c2 G2 →
  Forall (fun r => Req.seqlen r ≤ ReqPool.max_context_len (req_to_token_pool (mem s))) (PrefillAdder.can_run_list a).
Proof using.
  intros I Am. apply Forall_forall. intros r Hr.
  assert (r ∈ q) as Hq by (eapply elem_of_submseteq; [exact Hr|apply sublist_submseteq, Am]).
  destruct (proj1 (Forall_forall _ _) (am_queue _ _ _ _ _ _ _ _ _ _ Am) r Hq) as (r0 & H0 & S0).
  rewrite (same_request_seqlen _ _ S0). apply (proj1 (Forall_forall _ _) (so_queue _ _ _ _ _ _ I) r0 H0).
Qed.

(** The batch of the admitted requests. *)
Lemma start_batch_ok (s s1 : sched) c G Hs rest used q a nodes c2 G2 chunked :
  sched_ok s c G Hs rest used → admission_ok s c G Hs rest q a nodes c2 G2 → PrefillAdder.can_run_list a ≠ [] →
  len (PrefillAdder.can_run_list a) ≤ max_micro_batch_size cfg - len (reqs (sb (running_batch s))) →
  chunked = PrefillAdder.new_chunked_req a →
  mem s1 = mkMemory (req_to_token_pool (mem s)) (token_to_kv_pool_allocator (mem s)) (RadixTree c2) →
  ∃ B m', start_prefill hash garbage cfg (PrefillAdder.can_run_list a) chunked s1 =
      Ok (B, with_chunked (object_in (reqs (sb B)) <$> chunked) (with_mem m' s1)) ∧
    Req.rid <$> reqs (sb B) = Req.rid <$> PrefillAdder.can_run_list a ∧ pool_shape m' = pool_shape (mem s) ∧
    ∀ s', mem s' = m' → chunked_req s' = object_in (reqs (sb B)) <$> chunked → new_batch_ok s s' B G Hs rest used.
Proof using Hps Hmix Htri Hlast.
  intros I Am Hne Hcap Hch Em. pose proof (am_nodes _ _ _ _ _ _ _ _ _ _ Am) as Hn.
  pose proof I as [M Hsz Hw Hrows Hfree _ _ _ _ _].
  destruct (start_prefill_ok _ c2 G2 (PrefillAdder.can_run_list a) nodes Hs rest used chunked (am_mem _ _ _ _ _ _ _ _ _ _ Am) Hne Hn)
    as (b & m' & idxs & E & Er & Hli & Hst); simpl; try done.
  { apply Am. }
  { by eapply admission_context. }
  { lia. }
  { pose proof (am_evict _ _ _ _ _ _ _ _ _ _ Am). simpl in *. lia. }
  { apply Am. }
  unfold start_prefill. rewrite Htri, Hlast, Em, E. cbn [mbind pyres_bind]. unfold mix_running. rewrite Hmix. cbn [andb].
  destruct (bump_fields chunked (PrefillAdder.can_run_list a)) as [f Ef].
  assert (∀ X (g : Req.t → X), (∀ i r, g (extended i r) = g r) → (∀ n r, g (Req.set_is_chunked n r) = g r) →
    g <$> reqs b = g <$> PrefillAdder.can_run_list a) as Hfield.
  { intros X g Hg Hg'. rewrite Er, Ef, extended_field; [|done|by rewrite length_fmap]. rewrite <-list_fmap_compose.
    apply list_fmap_ext. intros _ r _. apply Hg'. }
  assert (pool_shape m' = pool_shape (mem s)) as Hsh by (destruct Hst as (? & ? & ? & ? & _ & _ & _ & _ & _ & _ & _ & _ & _ & _ & Hsh & _); exact Hsh).
  exists (set_decoding_reqs None (with_sb b (init_new (bump_chunked chunked (PrefillAdder.can_run_list a)) (cfg_enable_overlap cfg) chunked))), m'.
  split; [reflexivity|]. split; [by apply Hfield|]. split; [done|].
  intros s' Em' Ec'. simpl in *. split; simpl; try done.
  - intros E0. apply Hne. apply (f_equal length) in E0. rewrite Er, length_zip_with, Ef, length_fmap in E0. simpl in E0.
    apply length_zero_iff_nil. lia.
  - rewrite <-(len_fmap Req.rid), (Hfield _ Req.rid) by done. by rewrite len_fmap.
  - rewrite Em'. destruct Hst as (c3 & G3 & nodes3 & out & S1 & S2 & S3 & S4 & S5 & S6 & S7 & S8 & S9 & S10 & S11 & S12 & S13 & S14 & S15).
    exists c3, G3, nodes3, out. do 13 (split; [done|]). split; [|done]. intros h Hh. rewrite (S14 h Hh).
    destruct (r_handles _ _ _ (rm_repr _ _ _ _ _ M) h Hh) as [lh Eh]. by rewrite Eh, (lookup_weaken _ _ _ _ Eh (am_paths _ _ _ _ _ _ _ _ _ _ Am)).
  - assert (∀ l, forallb (fun r => bool_decide (SamplingParams.max_new_tokens (Req.sampling_params r) = Some 0)) l =
      forallb (fun x => bool_decide (x = Some 0)) ((fun r => SamplingParams.max_new_tokens (Req.sampling_params r)) <$> l)) as Hfb.
    { intros l. induction l as [|r l IH]; [done|]. csimpl. by rewrite IH. }
    rewrite !Hfb, Hfield by done. rewrite Ef, <-list_fmap_compose. done.
  - intros Hnone. destruct (am_whole _ _ _ _ _ _ _ _ _ _ Am Hnone) as [Hc Hf]. rewrite Hc in Hch. subst chunked.
    split; [done|]. split; [done|]. rewrite Er. apply Forall_lookup. intros k r Hk.
    apply lookup_zip_with_Some in Hk as (i & r0 & -> & _ & H0). simpl in H0. apply list_elem_of_lookup_2 in H0.
    split; [|exact (proj1 (Forall_forall _ _) Hf r0 H0)].
    assert (r0 ∈ q) as Hq by (eapply elem_of_submseteq; [exact H0|apply sublist_submseteq, Am]).
    exact (proj1 (Forall_forall _ _) (am_queue _ _ _ _ _ _ _ _ _ _ Am) r0 Hq).
Qed.

Definition prefill_outcome (s s' : sched) (o : option Batch) c G Hs rest used : Prop :=
  match o with
  | Some B => new_batch_ok s s' B G Hs rest used
  | None => chunked_req s' = None ∧ req_to_token_pool (mem s') = req_to_token_pool (mem s) ∧
      token_to_kv_pool_allocator (mem s') = token_to_kv_pool_allocator (mem s) ∧
      ∃ c' G', radix_mem (ps := ps) (mem s') c' G' Hs rest ∧ tree_chunks c' G' ≡ₚ tree_chunks c G ∧ G ⊆ G'
  end.

Lemma get_new_batch_prefill_ok (s : sched) c G Hs rest used :
  sched_ok s c G Hs rest used → chunked_req s = None →
  ∃ o s', get_new_batch_prefill hash clock garbage torch_garbage shuffle cfg s = Ok (o, s') ∧
    (Req.rid <$> from_option (fun B => reqs (sb B)) [] o) ++ (Req.rid <$> waiting_queue s')
      ≡ₚ Req.rid <$> waiting_queue s ∧
    round_frame s s' ∧ prefill_outcome s s' o c G Hs rest used.
Proof using All.
  intros I Hch. pose proof I as [M Hsz Hw Hrows Hfree Hwq Hratio Hrun Hq Hrid].
  unfold get_new_batch_prefill. rewrite Hch. rewrite bool_decide_true by done. rewrite !andb_true_r.
  assert (∀ full, ∃ o s'', Ok (None, with_running (set_full full (running_batch s)) s) = Ok (o, s'') ∧
    (Req.rid <$> from_option (fun B => reqs (sb B)) [] o) ++ (Req.rid <$> waiting_queue s'') ≡ₚ Req.rid <$> waiting_queue s ∧
    round_frame s s'' ∧ prefill_outcome s s'' o c G Hs rest used) as Hnone.
  { intros full. eexists _, _. split; [done|]. split; [done|]. split.
    - split; try done; [|by exists full]. apply from_queue_same, same_request_refl_all.
    - do 3 (split; [done|]). by exists c, G. }
  case_match.
  { specialize (Hnone (batch_is_full (running_batch s))). by destruct s as [? ? [] ? ? ? ? ?]. }
  destruct (Z.leb_spec (get_num_allocatable_reqs cfg (len (reqs (sb (running_batch s)))) s) 0) as [Hz|Hal]; [by apply Hnone|].
  assert (get_num_allocatable_reqs cfg (len (reqs (sb (running_batch s)))) s ≤ max_micro_batch_size cfg - len (reqs (sb (running_batch s)))) as Hcap.
  { unfold get_num_allocatable_reqs. case_match; lia. }
  set (alloc := get_num_allocatable_reqs _ _ _) in *. clear Hnone.
  destruct (admission_round_ok s c G Hs rest used alloc (Req.lora_id <$> reqs (sb (running_batch s))) (bool_decide (is_Some (@None Req.t))) I ltac:(lia))
    as (q & c1 & wq & a & q' & a' & full & nodes & c2 & G2 & E1 & Hwq' & E2 & E3 & Hlen & Am).
  rewrite E1. cbn [mbind pyres_bind]. clear E1. set (s1 := with_tree (RadixTree c1) _).
  rewrite Hmix, Hcfg. cbn [s1 with_tree mem with_mem with_wq_tree with_queue tree_cache token_to_kv_pool_allocator
    running_batch new_token_ratio chunked_req waiting_queue req_to_token_pool].
  rewrite E2. cbn [mbind pyres_bind]. rewrite Hch. cbn [mbind pyres_bind mret pyres_ret].
  rewrite E3. cbn [mbind pyres_bind mret pyres_ret]. rewrite (am_tree _ _ _ _ _ _ _ _ _ _ Am). clear E2 E3.
  assert (∀ (x y : pyres (option Batch * sched)), PrefillAdder.can_run_list a' ≠ [] →
    match PrefillAdder.can_run_list a' with [] => x | _ => y end = y) as Em by (intros; by destruct (PrefillAdder.can_run_list a')).
  destruct (decide (PrefillAdder.can_run_list a' = [])) as [Ec|Hne]; [|rewrite Em by done].
  { rewrite Ec. eexists _, _. split; [done|]. split; [apply Am|]. split.
    - split; simpl; try done; [apply Am|by exists full].
    - do 3 (split; [done|]). exists c2, G2. split; [|split; apply Am].
      pose proof (am_mem _ _ _ _ _ _ _ _ _ _ Am) as M2. pose proof (am_nodes _ _ _ _ _ _ _ _ _ _ Am) as Hn. rewrite Ec in Hn.
      by destruct nodes. }
  set (s2 := with_queue _ (with_tree _ _)).
  destruct (start_batch_ok s s2 c G Hs rest used q' a' nodes c2 G2 _ I Am Hne ltac:(lia) eq_refl eq_refl)
    as (B & m' & Es & Hr & Hsh & Hst).
  assert (∃ s', (chunked ← (match PrefillAdder.new_chunked_req a' with
      | Some r => py_assert true ;; mret (Some r)
      | None => mret None end);
     '(nb, s) ← start_prefill hash garbage cfg (PrefillAdder.can_run_list a') chunked s2; mret (Some nb, s)) = Ok (Some B, s') ∧
    s' = with_chunked (object_in (reqs (sb B)) <$> PrefillAdder.new_chunked_req a') (with_mem m' s2)) as (s' & Ee & Es').
  { eexists. split; [|reflexivity]. destruct (PrefillAdder.new_chunked_req a'); simpl; by rewrite Es. }
  eexists _, s'. split; [exact Ee|]. rewrite Es'. simpl. rewrite Hr. split.
  { rewrite remove_admitted_perm; [apply Am| |apply Am]. by rewrite (am_rids _ _ _ _ _ _ _ _ _ _ Am). }
  split; [|by apply Hst]. split; simpl; try done; [|by exists full].
  apply Forall_forall. intros r [_ Hr']%list_elem_of_filter. by apply (proj1 (Forall_forall _ _) (am_queue _ _ _ _ _ _ _ _ _ _ Am)).
Qed.

(** C17: a scheduling round without a pending chunk never runs out of
    memory. Pages have more than one token, batches are not mixed and the
    Triton kernels are used. The state satisfies [sched_ok]: the pages are
    free, in the radix cache or owned, below 2^30 tokens free or evictable,
    there is a row for every free place of the running batch, the ratio is
    not negative, running requests are within their limits, and waiting ones
    have distinct ids, a prompt and a limit, and fit the context. No chunk
    is pending ([chunked_req] is [None]; [add_chunked_req] does not look at
    the memory, see [chunk_without_memory]). Then [get_new_batch_prefill]
    returns. No request is lost or duplicated: the batch and the new queue
    together hold the requests of the old queue. A new batch has at most as
    many requests as there are places; its cached prefixes are locked and
    are prefixes of the requests' tokens; every request has a row of its own
    holding its cached prefix followed by the slots of the tokens to
    compute, all new slots are distinct, the rows of other requests are as
    before, and every page is free, in the cache, or owned by one request.
    Without a batch the memory is as before, up to splits in the cache. *)
Theorem scheduler_prefill_gets_memory (s : sched) c G Hs rest used :
  sched_ok s c G Hs rest used → chunked_req s = None →
  ∃ o s', get_new_batch_prefill hash clock garbage torch_garbage shuffle cfg s = Ok (o, s') ∧
    (Req.rid <$> from_option (fun B => reqs (sb B)) [] o) ++ (Req.rid <$> waiting_queue s')
      ≡ₚ Req.rid <$> waiting_queue s ∧
    round_frame s s' ∧ prefill_outcome s s' o c G Hs rest used.
Proof using All. apply get_new_batch_prefill_ok. Qed.

End prefill.

(** Two waiting requests, one of which extends a cached page. *)
Definition demo_config : Config :=
  mkConfig 2 2 1 64 (Some 8) false false false (fun _ => true) (inl LPM) (1#2)%Q (1#10)%Q (1#100)%Q 1 12 None true true.

Definition demo_waiting (rid : string) (ids : list Z) : Req.t :=
  Req.init rid ids Req.demo_params false [] None [] 32000.

Definition demo_scheduler : Scheduler (A := Paged.t) :=
  mkScheduler (mkMemory (ReqPool.init 2 8) demo_pool (RadixTree demo_cache))
    [demo_waiting "a" [9; 9; 9]; demo_waiting "b" [1; 2; 7]] (empty_batch false) None None (1#2)%Q 0 demo_wq [].

Lemma demo_scheduler_ok : ∃ G, sched_ok 2 demo_config demo_scheduler demo_cache G [] [] [].
Proof.
  destruct demo_memory_ok as [G M]. exists G. split.
  - destruct M as [M1 M2 M3 M4 M5 M6 M7]. by split.
  - vm_compute. reflexivity.
  - split; [reflexivity|]. split; [|vm_compute; discriminate]. intros i Hi. simpl in Hi.
    assert (i = 0 ∨ i = 1) as [-> | ->] by lia; reflexivity.
  - unfold ReqPool.owned. vm_compute. reflexivity.
  - vm_compute. discriminate.
  - split; [reflexivity|]. split; [reflexivity|exact demo_wq_fresh].
  - vm_compute. discriminate.
  - constructor.
  - repeat constructor; try (exists 8; split; [reflexivity|lia]); vm_compute; done.
  - apply (bool_decide_unpack (NoDup _)). vm_compute. reflexivity.
Qed.

Lemma scheduler_prefill_gets_memory_witness :
  ∃ B s', get_new_batch_prefill (ps := 2) (H0 := paged_kv 2)
      (H1 := paged_batch_allocator (fun _ => 0) (fun _ => 0)) demo_hash Z.of_nat (fun _ => 0)
      (fun n => replicate n 0) (fun l => l) demo_config demo_scheduler = Ok (Some B, s') ∧
    (∃ G, new_batch_ok 2 demo_config demo_scheduler s' B G [] [] []) ∧
    Req.rid <$> waiting_queue s' = ["a"%string].
Proof.
  destruct demo_scheduler_ok as [G I].
  destruct (scheduler_prefill_gets_memory demo_hash Z.of_nat (fun _ => 0) (fun _ => 0) 2
    (fun n => replicate n 0) (fun l => l) (fun n => length_replicate n 0) (fun l => reflexivity l) demo_config
    ltac:(lia) eq_refl eq_refl eq_refl eq_refl demo_scheduler demo_cache G [] [] [] I eq_refl)
    as (o & s' & E & _ & _ & Hst).
  destruct o as [B|]; [|exfalso; vm_compute in E; discriminate E].
  exists B, s'. split; [exact E|]. split; [exists G; exact Hst|].
  apply (f_equal (fun x => match x with Ok (_, s) => Req.rid <$> waiting_queue s | Raise _ => [] end)) in E.
  change (match Ok (Some B, s') with Ok (_, s) => Req.rid <$> waiting_queue s | Raise _ => [] end) with (Req.rid <$> waiting_queue s') in E.
  rewrite <-E. vm_compute. reflexivity.
Defined.

(** A pending chunk is not checked against the memory: when no page is free
    and none can be evicted, the round ends in the error of the allocation. *)
Definition taken_pool : Paged.t :=
  let p := Paged.init (fun _ => 0) 12 2 false false in match Paged.alloc 12 p with Ok (_, p) => p | Raise _ => p end.
Definition chunk_scheduler : Scheduler (A := Paged.t) :=
  mkScheduler (mkMemory (ReqPool.init 2 8) taken_pool (RadixTree (init_RadixCache Z.of_nat 2 false true)))
    [] (empty_batch false) None (Some (demo_waiting "a" [9; 9; 9])) (1#2)%Q 0 demo_wq [].

Example chunk_without_memory :
  get_new_batch_prefill (ps := 2) (H0 := paged_kv 2) (H1 := paged_batch_allocator (fun _ => 0) (fun _ => 0)) demo_hash Z.of_nat (fun _ => 0)
    (fun n => replicate n 0) (fun l => l) demo_config chunk_scheduler = Raise RuntimeError.
Proof. vm_compute. reflexivity. Qed.
