(* ===== verification/BatchDecode.v ===== *)
(** * Preparing a decode batch

    [ScheduleBatch.prepare_for_decode] over a paged allocator and a radix
    cache: when a page is free for every request whose pages are full, each
    request gets one new slot, written at the end of its row. *)

From S2P Require Import Prelude Allocator PagedAllocator PagedProofs ReqPool Request KVAllocator RadixCache.
From S2P Require Import RadixInv RadixOwn RadixInsert RadixEvict SamplingParams SchedulePolicy PrefixCache PrefillAdder PrefillAdderProofs.
From S2P Require Import ScheduleBatch BatchKernels BatchMemory MemoryAccount BatchRetract.

Section rows.
Context (ps : nat) (Hps : (0 < ps)%nat) (overlap : bool) (p : ReqPool.t).

(** A request of a decode batch, as a row of the batch: its slots lie at
    their positions of the pages, and there is room for one more. *)
Record decodable (x : Req.t * (Z * (Z * Z))) : Prop := mk_decodable {
  dc_idx : Req.req_pool_idx x.1 = Some x.2.1;
  dc_node : is_Some (Req.last_node x.1);
  dc_row : 0 ≤ x.2.1 < ReqPool.size p;
  dc_len : x.2.2.1 = if overlap then Req.seqlen x.1 else Req.seqlen x.1 - 1;
  dc_fits : 0 < x.2.2.1 < ReqPool.max_context_len p;
  dc_prefix : len (Req.prefix_indices x.1) ≤ x.2.2.1;
  dc_slots : ∀ j, 0 ≤ j < x.2.2.1 →
    (ReqPool.row x.2.1 p !!! Z.to_nat j) mod Z.of_nat ps = j mod Z.of_nat ps;
}.

(** The last slot of a request, and its own slots. *)
Definition last_slot (x : Req.t * (Z * (Z * Z))) : Z := ReqPool.row x.2.1 p !!! Z.to_nat (x.2.2.1 - 1).
Definition own_slots (x : Req.t * (Z * (Z * Z))) : list Z :=
  (ReqPool.row x.2.1 p).[len (Req.prefix_indices x.1) / Z.of_nat ps * Z.of_nat ps :: x.2.2.1].

(** The partial page at its end, and the full ones. *)
Definition full_len (x : Req.t * (Z * (Z * Z))) : nat := (length (own_slots x) / ps * ps)%nat.
Definition tail_page (x : Req.t * (Z * (Z * Z))) : list (list Z) := pages ps (drop (full_len x) (own_slots x)).
Definition full_pages (x : Req.t * (Z * (Z * Z))) : list (list Z) := pages ps (take (full_len x) (own_slots x)).

Lemma own_split x : pages ps (own_slots x) = full_pages x ++ tail_page x.
Proof using Hps.
  unfold full_pages, tail_page. rewrite <-pages_app; [by rewrite take_drop|lia|].
  rewrite length_take, Nat.min_l; [apply Nat.Div0.mod_mul|]. unfold full_len. rewrite Nat.mul_comm. apply Nat.Div0.mul_div_le.
Qed.

Lemma own_perm xs : xs ≫= (fun x => pages ps (own_slots x)) ≡ₚ (xs ≫= tail_page) ++ (xs ≫= full_pages).
Proof using Hps.
  induction xs as [|x xs IH]; [done|]. csimpl. rewrite own_split, IH.
  generalize (full_pages x), (tail_page x), (xs ≫= full_pages), (xs ≫= tail_page). intros. solve_Permutation.
Qed.

Lemma pages_short (l : list Z) : l ≠ [] → (length l ≤ ps)%nat → pages ps l = [l].
Proof using Hps.
  intros Hl Hle. rewrite pages_unfold by done. rewrite take_ge, drop_ge by lia. by rewrite pages_nil.
Qed.

Lemma tail_page_ok x : ReqPool.wf p → decodable x →
  (x.2.2.1 mod Z.of_nat ps = 0 ∧ tail_page x = []) ∨
  (x.2.2.1 mod Z.of_nat ps ≠ 0 ∧ ∃ t, tail_page x = [t] ∧ last_slot x ∈ t ∧ len t = x.2.2.1 mod Z.of_nat ps).
Proof using Hps.
  intros (_ & Hrl & _) [_ _ D3 _ D5 D6 _]. unfold tail_page, full_len.
  pose proof (Hrl _ D3) as Hlr. set (s := x.2.2.1) in *. set (row := ReqPool.row x.2.1 p) in *.
  set (a := len (Req.prefix_indices x.1) / Z.of_nat ps * Z.of_nat ps).
  assert (0 ≤ a ≤ s) as Ha.
  { unfold a. pose proof (len_nonneg (Req.prefix_indices x.1)) as Hn.
    pose proof (Z.mul_div_le (len (Req.prefix_indices x.1)) (Z.of_nat ps) ltac:(lia)).
    pose proof (Z.div_pos _ (Z.of_nat ps) Hn ltac:(lia)). nia. }
  assert (own_slots x = take (Z.to_nat s - Z.to_nat a) (drop (Z.to_nat a) row)) as Eo.
  { unfold own_slots. fold row s a. apply py_slice_nonneg; lia. }
  assert (length (own_slots x) = Z.to_nat s - Z.to_nat a)%nat as El.
  { rewrite Eo, length_take, length_drop. unfold len in Hlr. lia. }
  assert (Z.of_nat (length (own_slots x)) mod Z.of_nat ps = s mod Z.of_nat ps) as Em.
  { rewrite El, Nat2Z.inj_sub, !Z2Nat.id by lia. unfold a. rewrite <-Zminus_mod_idemp_r, Z.mod_mul, Z.sub_0_r by lia. done. }
  pose proof (Nat.div_mod_eq (length (own_slots x)) ps) as Hdm. rewrite (Nat.mul_comm ps) in Hdm.
  pose proof (Nat.mod_upper_bound (length (own_slots x)) ps ltac:(lia)) as Hub.
  rewrite <-Nat2Z.inj_mod in Em. set (n := length (own_slots x)) in *.
  destruct (decide (n mod ps = 0)%nat) as [Hz|Hnz]; [left|right].
  - split; [lia|]. rewrite drop_ge by lia. by rewrite pages_nil.
  - split; [lia|]. eexists. split.
    + apply pages_short; [|rewrite length_drop; lia]. intros E%(f_equal length). rewrite length_drop in E. simpl in E. lia.
    + split; [|unfold len; rewrite length_drop; lia]. apply list_elem_of_lookup. exists (n - 1 - n / ps * ps)%nat. rewrite lookup_drop.
      replace (n / ps * ps + (n - 1 - n / ps * ps))%nat with (n - 1)%nat by lia.
      rewrite Eo, lookup_take_lt by lia. rewrite lookup_drop. unfold last_slot. fold s row.
      replace (Z.to_nat a + (n - 1))%nat with (Z.to_nat (s - 1)) by lia.
      apply list_lookup_lookup_total_lt. unfold len in Hlr. lia.
Qed.

(** What the allocator sees. *)
Definition decode_pair (x : Req.t * (Z * (Z * Z))) : Z * Z := (1 + x.2.2.1, last_slot x).

Lemma tail_pages_on xs pgs :
  ReqPool.wf p → Forall decodable xs → Forall2 (chunk_on (Z.of_nat ps)) (xs ≫= tail_page) pgs →
  pgs = old_pages (Z.of_nat ps) (decode_reqs (decode_pair <$> xs)).
Proof using Hps.
  intros Hw Hx. revert pgs. induction Hx as [|x xs Hx _ IH]; intros pgs Hf; [by inversion Hf|].
  csimpl in Hf. apply Forall2_app_inv_l in Hf as (p1 & p2 & F1 & F2 & ->).
  csimpl. unfold old_pages. csimpl. fold (old_pages (Z.of_nat ps) (decode_reqs (decode_pair <$> xs))).
  rewrite <-(IH p2 F2). f_equal. replace (1 + x.2.2.1 - 1) with x.2.2.1 by lia.
  pose proof (cdiv_bounds x.2.2.1 (Z.of_nat ps) ltac:(lia)) as Hc.
  pose proof (Z.div_mod x.2.2.1 (Z.of_nat ps) ltac:(lia)) as Hd.
  pose proof (Z.mod_pos_bound x.2.2.1 (Z.of_nat ps) ltac:(lia)) as Hb.
  destruct (tail_page_ok x Hw Hx) as [[Hz Et]|(Hnz & t & Et & Hin & _)]; rewrite Et in F1.
  - inversion F1; subst. rewrite Hz in Hd. destruct (Z.ltb_spec x.2.2.1 (cdiv x.2.2.1 (Z.of_nat ps) * Z.of_nat ps)); [|done].
    assert (cdiv x.2.2.1 (Z.of_nat ps) < x.2.2.1 / Z.of_nat ps + 1) by nia. nia.
  - inversion F1 as [|? pg ? l Hpg%chunk_div F1']; subst. inversion F1'; subst.
    destruct (Z.ltb_spec x.2.2.1 (cdiv x.2.2.1 (Z.of_nat ps) * Z.of_nat ps)) as [|Hge].
    + f_equal. symmetry. by apply (proj1 (Forall_forall _ _) Hpg).
    + assert (x.2.2.1 = cdiv x.2.2.1 (Z.of_nat ps) * Z.of_nat ps) as E by lia. exfalso. apply Hnz. rewrite E. apply Z.mod_mul. lia.
Qed.

(** ** The rows after a step *)

Definition grown (x : Req.t * (Z * (Z * Z))) : Req.t * (Z * (Z * Z)) :=
  (x.1, (x.2.1, (1 + x.2.2.1, 1 + x.2.2.2))).

(** The last page of a request with its new slot. *)
Definition new_tail (x : Req.t * (Z * (Z * Z))) (v : Z) : list Z := drop (full_len x) (own_slots x) ++ [v].

Lemma tail_short x : (length (drop (full_len x) (own_slots x)) < ps)%nat.
Proof using Hps.
  rewrite length_drop. unfold full_len. pose proof (Nat.div_mod_eq (length (own_slots x)) ps).
  pose proof (Nat.mod_upper_bound (length (own_slots x)) ps ltac:(lia)). lia.
Qed.

Lemma own_new x v : pages ps (own_slots x ++ [v]) = full_pages x ++ [new_tail x v].
Proof using Hps.
  transitivity (pages ps (take (full_len x) (own_slots x) ++ new_tail x v)).
  { unfold new_tail. by rewrite app_assoc, take_drop. }
  rewrite pages_app; [|lia|].
  - unfold full_pages. f_equal. apply pages_short.
    + by intros [_ ?]%app_nil.
    + unfold new_tail. rewrite length_app. pose proof (tail_short x). simpl. lia.
  - rewrite length_take, Nat.min_l; [apply Nat.Div0.mod_mul|]. unfold full_len. rewrite Nat.mul_comm. apply Nat.Div0.mul_div_le.
Qed.

(** The slot [v] of a request and the page it is on. *)
Lemma new_tail_on x page off pg :
  ReqPool.wf p → decodable x → Forall2 (chunk_on (Z.of_nat ps)) (tail_page x) pg →
  let v := ref_slot (Z.of_nat ps) x.2.2.1 (last_slot x) (fun k => page (off + k)) x.2.2.1 in
  v mod Z.of_nat ps = x.2.2.1 mod Z.of_nat ps ∧
  chunk_on (Z.of_nat ps) (new_tail x v) (v / Z.of_nat ps) ∧
  [v / Z.of_nat ps] = touched (Z.of_nat ps) page off (x.2.2.1, 1 + x.2.2.1, last_slot x).
Proof using Hps.
  intros Hw Hx Hpg v. pose proof Hx as [_ _ _ _ D5 _ D7].
  assert ((last_slot x + 1) mod Z.of_nat ps = x.2.2.1 mod Z.of_nat ps) as Hal.
  { unfold last_slot. rewrite <-Zplus_mod_idemp_l, D7, Zplus_mod_idemp_l by lia. f_equal. lia. }
  assert (v mod Z.of_nat ps = x.2.2.1 mod Z.of_nat ps) as Hm.
  { unfold v. eapply (ref_slot_mod _ _ (1 + x.2.2.1)); try done; lia. }
  assert (v / Z.of_nat ps = if x.2.2.1 <? cdiv x.2.2.1 (Z.of_nat ps) * Z.of_nat ps then last_slot x / Z.of_nat ps
    else page (off + (x.2.2.1 - cdiv x.2.2.1 (Z.of_nat ps) * Z.of_nat ps) / Z.of_nat ps)) as Hd.
  { unfold v. rewrite (ref_slot_div _ _ (1 + x.2.2.1)) by (done || lia). done. }
  split; [done|]. unfold touched. cbn [fst snd].
  pose proof (cdiv_bounds x.2.2.1 (Z.of_nat ps) ltac:(lia)) as Hc.
  pose proof (new_pages_one (Z.of_nat ps) (1 + x.2.2.1) ltac:(lia)) as Hn.
  replace (1 + x.2.2.1 - 1) with x.2.2.1 in Hn by lia.
  destruct (tail_page_ok x Hw Hx) as [[Hz Et]|(Hnz & t & Et & Hin & Hlt)].
  - assert (x.2.2.1 = cdiv x.2.2.1 (Z.of_nat ps) * Z.of_nat ps) as Ec.
    { pose proof (Z.div_mod x.2.2.1 (Z.of_nat ps) ltac:(lia)) as Hdm. rewrite Hz in Hdm.
      assert (cdiv x.2.2.1 (Z.of_nat ps) = x.2.2.1 / Z.of_nat ps) as -> by nia. lia. }
    destruct (Z.ltb_spec x.2.2.1 (cdiv x.2.2.1 (Z.of_nat ps) * Z.of_nat ps)); [lia|].
    rewrite <-Ec, Z.sub_diag, Z.div_0_l in Hd by lia. rewrite Hz in Hn. rewrite Z.eqb_refl in Hn.
    split.
    + unfold new_tail. assert (drop (full_len x) (own_slots x) = []) as ->.
      { destruct (drop (full_len x) (own_slots x)) eqn:E; [done|]. unfold tail_page in Et. rewrite E in Et.
        by rewrite pages_unfold in Et. }
      assert (v = v / Z.of_nat ps * Z.of_nat ps + len (@nil Z)) as Ev
        by (change (len []) with 0; pose proof (Z.div_mod v (Z.of_nat ps) ltac:(lia)); lia).
      rewrite Ev at 1. apply chunk_snoc; [by left|]. change (len []) with 0. lia.
    + rewrite Hn. simpl. by rewrite Hd.
  - assert (x.2.2.1 < cdiv x.2.2.1 (Z.of_nat ps) * Z.of_nat ps) as Hltc.
    { destruct (Z.eq_dec x.2.2.1 (cdiv x.2.2.1 (Z.of_nat ps) * Z.of_nat ps)) as [E|]; [|lia].
      exfalso. apply Hnz. rewrite E. apply Z.mod_mul. lia. }
    destruct (Z.ltb_spec x.2.2.1 (cdiv x.2.2.1 (Z.of_nat ps) * Z.of_nat ps)); [|lia].
    destruct (Z.eqb_spec (x.2.2.1 mod Z.of_nat ps) 0); [done|].
    rewrite Et in Hpg. inversion Hpg as [|? q ? ? Hch F]; subst. pose proof (chunk_div _ _ _ Hch) as Hq. split.
    + unfold new_tail. assert (drop (full_len x) (own_slots x) = t) as ->.
      { pose proof (tail_short x). unfold tail_page in Et. destruct (drop (full_len x) (own_slots x)) eqn:E; [by rewrite pages_nil in Et|].
        rewrite pages_short in Et by (done || lia). by injection Et. }
      assert (last_slot x / Z.of_nat ps = q) as Eq by (by apply (proj1 (Forall_forall _ _) Hq)).
      rewrite Hd, Eq. assert (v = q * Z.of_nat ps + len t) as -> by (pose proof (Z.div_mod v (Z.of_nat ps) ltac:(lia)); lia).
      apply chunk_snoc; [by right|]. rewrite Hlt. apply Z.mod_pos_bound. lia.
    + rewrite Hn. simpl. by rewrite Hd.
Qed.

Lemma new_tails_on xs : ReqPool.wf p → Forall decodable xs →
  Forall2 (chunk_on (Z.of_nat ps)) (xs ≫= tail_page) (old_pages (Z.of_nat ps) (decode_reqs (decode_pair <$> xs))) →
  ∀ page off, let out := ref_extend (Z.of_nat ps) page off (decode_reqs (decode_pair <$> xs)) in
  Forall2 (fun x v => v mod Z.of_nat ps = x.2.2.1 mod Z.of_nat ps) xs out ∧
  Forall2 (chunk_on (Z.of_nat ps)) (zip_with new_tail xs out)
    (touched_all (Z.of_nat ps) page off (decode_reqs (decode_pair <$> xs))).
Proof using Hps.
  intros Hw Hx. induction Hx as [|x xs Hx _ IH]; intros Hold page off out; [by split; constructor|].
  csimpl in Hold. unfold old_pages in Hold. csimpl in Hold. fold (old_pages (Z.of_nat ps) (decode_reqs (decode_pair <$> xs))) in Hold.
  replace (1 + x.2.2.1 - 1) with x.2.2.1 in Hold by lia.
  apply Forall2_app_inv_l in Hold as (p1 & p2 & F1 & F2 & E).
  assert (length p1 = length (if x.2.2.1 <? cdiv x.2.2.1 (Z.of_nat ps) * Z.of_nat ps then [last_slot x / Z.of_nat ps] else [])) as El.
  { rewrite (tail_pages_on [x] p1); [|done|by constructor|by simpl; rewrite app_nil_r].
    unfold old_pages. csimpl. rewrite app_nil_r. by replace (1 + x.2.2.1 - 1) with x.2.2.1 by lia. }
  apply app_inj_1 in E as [<- <-]; [|done].
  destruct (new_tail_on x page off _ Hw Hx F1) as (H1 & H2 & H3).
  destruct (IH F2 page (off + new_pages (Z.of_nat ps) x.2.2.1 (1 + x.2.2.1))) as [IH1 IH2].
  unfold out. csimpl. cbn [ref_extend touched_all fst snd].
  replace (1 + x.2.2.1 - 1) with x.2.2.1 by lia.
  rewrite (arange_cons x.2.2.1) by lia. rewrite (arange_empty (x.2.2.1 + 1)) by lia. csimpl. split.
  - by constructor.
  - rewrite <-H3. simpl. by constructor.
Qed.

(** ** Reading and writing the rows *)

Lemma gather_last xs :
  ReqPool.wf p → Forall decodable xs →
  gather (ReqPool.req_to_token p) ((fun x => x.2.1) <$> xs)
    ((fun n => n - 2) <$> (Z.add 1 <$> ((fun x => x.2.2.1) <$> xs))) = Ok (last_slot <$> xs).
Proof using.
  clear Hps. intros (Hl & Hrl & _). induction 1 as [|x xs [_ _ D3 _ D5 _ _] _ IH]; [done|]. csimpl.
  unfold tensor_at. rewrite wrap_index_ok by lia. simpl. fold (ReqPool.row x.2.1 p).
  pose proof (Hrl _ D3) as Hlr. rewrite Hlr, wrap_index_ok by lia. simpl. rewrite IH. simpl. do 2 f_equal.
  unfold last_slot. do 2 f_equal. lia.
Qed.

End rows.

Lemma scatter_tensor_ok (idx pos vs : list Z) : ∀ p,
  ReqPool.wf p → length idx = length pos → length vs = length pos → NoDup idx →
  Forall2 (fun i j => 0 ≤ i < ReqPool.size p ∧ 0 ≤ j < ReqPool.max_context_len p) idx pos →
  ∃ rows, scatter idx pos vs (ReqPool.req_to_token p) = Ok rows ∧ ReqPool.wf (with_rows rows p) ∧
    (∀ k i j v, idx !! k = Some i → pos !! k = Some j → vs !! k = Some v →
       ReqPool.row i (with_rows rows p) = <[Z.to_nat j := int32 v]> (ReqPool.row i p)) ∧
    (∀ i, 0 ≤ i → i ∉ idx → ReqPool.row i (with_rows rows p) = ReqPool.row i p).
Proof.
  revert pos vs. induction idx as [|i idx IH]; intros [|j pos] [|v vs] p Hw H1 H2 Hnd Hin; try done.
  { exists (ReqPool.req_to_token p). by destruct p. }
  apply NoDup_cons in Hnd as [Hni Hnd]. inversion Hin as [|?? ?? [Hi Hj] Hin']; subst. pose proof Hw as (Hl & Hrl & Hm).
  cbn [scatter]. unfold tensor_set. rewrite wrap_index_ok by lia. cbn [mbind pyres_bind].
  fold (ReqPool.row i p). rewrite (Hrl i Hi), wrap_index_ok by lia. cbn [mbind pyres_bind mret pyres_ret].
  set (r' := <[Z.to_nat j := int32 v]> (ReqPool.row i p)).
  set (p1 := with_rows (<[Z.to_nat i := r']> (ReqPool.req_to_token p)) p).
  assert (ReqPool.row i p1 = r') as Er.
  { unfold ReqPool.row, p1. simpl. apply list_lookup_total_insert_eq. unfold len in Hl. lia. }
  assert (∀ j, 0 ≤ j → j ≠ i → ReqPool.row j p1 = ReqPool.row j p) as Eo.
  { intros k Hk Hne. unfold ReqPool.row, p1. simpl. apply list_lookup_total_insert_ne. lia. }
  assert (ReqPool.wf p1) as Hw1.
  { split; [unfold len, p1; simpl; by rewrite length_insert|]. split; [|done]. intros k Hk.
    destruct (decide (k = i)) as [->|]; [|rewrite Eo by lia; by apply Hrl].
    rewrite Er. unfold r', len. rewrite length_insert. by apply Hrl. }
  destruct (IH pos vs p1 Hw1) as (rows & E & Hwr & Hs & Ho); [by simplify_eq/=..|done|done|].
  exists rows. split; [exact E|]. split; [exact Hwr|]. change (with_rows rows p1) with (with_rows rows p) in *. split.
  - intros [|k] i' j' v' Ki Kj Kv; simplify_eq/=; [by rewrite Ho, Er by (done || lia)|].
    rewrite (Hs k i' j' v' Ki Kj Kv). rewrite Eo; [done| |].
    + destruct (Forall2_lookup_lr _ _ _ _ _ _ Hin' Ki Kj) as [? _]. lia.
    + intros ->. apply Hni. by eapply list_elem_of_lookup_2.
  - intros k Hk Hn. rewrite Ho by set_solver. apply Eo; set_solver.
Qed.

(** The new slot is at the end of the request's own slots. *)
Lemma own_grown ps overlap (p p' : ReqPool.t) x v :
  ReqPool.wf p → (0 < ps)%nat → decodable ps overlap p x →
  ReqPool.row x.2.1 p' = <[Z.to_nat x.2.2.1 := v]> (ReqPool.row x.2.1 p) →
  own_slots ps p' (grown x) = own_slots ps p x ++ [v].
Proof.
  intros (_ & Hrl & _) Hps [_ _ D3 _ D5 D6 _] Er. unfold own_slots, grown. cbn [fst snd]. rewrite Er.
  pose proof (Hrl _ D3) as Hlr. set (row := ReqPool.row x.2.1 p) in *. set (n := x.2.2.1) in *.
  set (a := len (Req.prefix_indices x.1) / Z.of_nat ps * Z.of_nat ps).
  assert (0 ≤ a ≤ n) as Ha.
  { unfold a. pose proof (len_nonneg (Req.prefix_indices x.1)) as Hn.
    pose proof (Z.mul_div_le (len (Req.prefix_indices x.1)) (Z.of_nat ps) ltac:(lia)).
    pose proof (Z.div_pos _ (Z.of_nat ps) Hn ltac:(lia)). nia. }
  rewrite !py_slice_nonneg by (rewrite ?len_insert; lia).
  replace (Z.to_nat (1 + n) - Z.to_nat a)%nat with (S (Z.to_nat n - Z.to_nat a)) by lia.
  rewrite (take_S_r _ _ v).
  - f_equal. rewrite drop_insert_ge by lia. by rewrite take_insert_ge by lia.
  - rewrite lookup_drop. replace (Z.to_nat a + (Z.to_nat n - Z.to_nat a))%nat with (Z.to_nat n) by lia.
    apply list_lookup_insert_eq. unfold len in Hlr. lia.
Qed.

Lemma rows_grown rs idxs ss os :
  zip rs (zip idxs (zip (Z.add 1 <$> ss) (Z.add 1 <$> os))) = grown <$> zip rs (zip idxs (zip ss os)).
Proof.
  revert idxs ss os. induction rs as [|r rs IH]; intros [|i idxs] [|n ss] [|o os]; try done. csimpl. by rewrite IH.
Qed.

Lemma own_grown_perm ps (p p' : ReqPool.t) xs out : (0 < ps)%nat →
  Forall2 (fun x v => own_slots ps p' (grown x) = own_slots ps p x ++ [v]) xs out →
  (grown <$> xs) ≫= (fun x => pages ps (own_slots ps p' x)) ≡ₚ zip_with (new_tail ps p) xs out ++ (xs ≫= full_pages ps p).
Proof.
  intros Hps. induction 1 as [|x v xs out E _ IH]; [done|]. csimpl. rewrite E, own_new by done. rewrite IH.
  generalize (full_pages ps p x), (xs ≫= full_pages ps p), (zip_with (new_tail ps p) xs out). intros. solve_Permutation.
Qed.

(** The pages of a batch after the allocation. *)
Lemma decode_chunks_ok ps overlap (p : ReqPool.t) xs newp pgs tree rest (a : Paged.t) :
  let sl := decode_pair p <$> xs in
  let out := ref_extend (Z.of_nat ps) (fun k => newp !!! Z.to_nat k) 0 (decode_reqs sl) in
  (0 < ps)%nat → ReqPool.wf p → Forall (decodable ps overlap p) xs →
  len newp = total_pages (Z.of_nat ps) (decode_reqs sl) →
  Forall2 (chunk_on (Z.of_nat ps)) (tree ++ (xs ≫= tail_page ps p) ++ (xs ≫= full_pages ps p) ++ rest) pgs →
  Own.owned a (newp ++ pgs) →
  Paged.page_size a = Z.of_nat ps ∧ (Paged.num_pages a + 1) * Z.of_nat ps ≤ 2 ^ 31 →
  paged_holds ps a (tree ++ (zip_with (new_tail ps p) xs out ++ (xs ≫= full_pages ps p)) ++ rest) ∧
  Forall2 (fun x v => v mod Z.of_nat ps = x.2.2.1 mod Z.of_nat ps ∧ 0 ≤ v < 2 ^ 31) xs out.
Proof.
  intros sl out Hps Hw Hx Hn Hf Hown [Hpg Hsm].
  apply Forall2_app_inv_l in Hf as (t1 & q1 & Ft & Hf & ->). apply Forall2_app_inv_l in Hf as (o1 & q2 & Fo & Hf & ->).
  pose proof (tail_pages_on ps Hps overlap p xs o1 Hw Hx Fo) as ->.
  destruct (new_tails_on ps Hps overlap p xs Hw Hx Fo (fun k => newp !!! Z.to_nat k) 0) as [Hmod Hch].
  assert (valid_batch (decode_reqs sl)) as Hv.
  { apply decode_valid. apply Forall_fmap. eapply Forall_impl; [exact Hx|]. intros x [_ _ _ _ D5 _ _]. simpl. lia. }
  pose proof (touched_all_perm (Z.of_nat ps) (fun k => newp !!! Z.to_nat k) 0 _ ltac:(lia) Hv) as Htp.
  fold sl out in Hmod, Hch, Htp, Hown. rewrite Z.add_0_l, <-Hn in Htp.
  assert ((fun k => newp !!! Z.to_nat k) <$> arange 0 (len newp) = newp) as Enewp.
  { rewrite (arange_fmap_lookup newp _ (fun x => x)); [apply list_fmap_id|]. intros i x Hi. simpl. rewrite Nat2Z.id.
    by apply list_lookup_total_correct. }
  rewrite Enewp in Htp. set (touch := touched_all _ _ _ _) in *.
  assert (Own.owned a (t1 ++ touch ++ q2)) as Hown'.
  { rewrite Htp. eapply Own.owned_proper; [|exact Hown]. solve_Permutation. }
  split.
  - split; [done|]. exists (t1 ++ touch ++ q2). split; [|done]. apply Forall2_app; [done|]. rewrite <-app_assoc. by apply Forall2_app.
  - apply Forall2_same_length_lookup. split; [by eapply Forall2_length|]. intros k x v Hk Hv'.
    split; [exact (Forall2_lookup_lr _ _ _ _ _ _ Hmod Hk Hv')|].
    assert (zip_with (new_tail ps p) xs out !! k = Some (new_tail ps p x v)) as Hz by (apply lookup_zip_with_Some; eauto).
    destruct (Forall2_lookup_l _ _ _ _ _ Hch Hz) as (pg & Hpgk & Hall%chunk_div).
    assert (v / Z.of_nat ps = pg) as Ev.
    { apply (proj1 (Forall_forall _ _) Hall). unfold new_tail. set_solver. }
    destruct Hown' as [Hp _ _].
    assert (pg ∈ arange 1 (Paged.num_pages a + 1)) as Hin.
    { rewrite <-Hp. apply list_elem_of_lookup_2 in Hpgk. set_solver. }
    apply elem_of_arange in Hin. pose proof (Z.div_mod v (Z.of_nat ps) ltac:(lia)) as Hdm.
    pose proof (Z.mod_pos_bound v (Z.of_nat ps) ltac:(lia)). rewrite Ev in Hdm. nia.
Qed.

Lemma zsum_succ l : zsum (Z.add 1 <$> l) = zsum l + len l.
Proof. induction l as [|x l IH]; [done|]. csimpl. rewrite !zsum_cons, len_cons, IH. lia. Qed.

(** A request after the step: the new token's slot is the last of its row. *)
Record stepped (ps : nat) (overlap : bool) (p : ReqPool.t) (x : Req.t * (Z * (Z * Z))) : Prop := mk_stepped {
  st_idx : Req.req_pool_idx x.1 = Some x.2.1;
  st_node : is_Some (Req.last_node x.1);
  st_row : 0 ≤ x.2.1 < ReqPool.size p;
  st_len : x.2.2.1 = if overlap then 1 + Req.seqlen x.1 else Req.seqlen x.1;
  st_fits : 0 < x.2.2.1 ≤ ReqPool.max_context_len p;
  st_prefix : len (Req.prefix_indices x.1) < x.2.2.1;
  st_slots : ∀ j, 0 ≤ j < x.2.2.1 →
    (ReqPool.row x.2.1 p !!! Z.to_nat j) mod Z.of_nat ps = j mod Z.of_nat ps;
}.

Lemma grown_stepped ps overlap (p p' : ReqPool.t) x v :
  ReqPool.wf p → decodable ps overlap p x → ReqPool.size p' = ReqPool.size p →
  ReqPool.max_context_len p' = ReqPool.max_context_len p → v mod Z.of_nat ps = x.2.2.1 mod Z.of_nat ps →
  ReqPool.row x.2.1 p' = <[Z.to_nat x.2.2.1 := v]> (ReqPool.row x.2.1 p) → stepped ps overlap p' (grown x).
Proof.
  intros (_ & Hrl & _) [D1 D2 D3 D4 D5 D6 D7] E1 E2 Hv Er. split; cbn [grown fst snd]; try done; try lia.
  - destruct overlap; lia.
  - intros j Hj. rewrite Er. pose proof (Hrl _ D3) as Hl. unfold len in Hl. destruct (decide (j = x.2.2.1)) as [->|].
    + rewrite list_lookup_total_insert_eq by lia. done.
    + rewrite list_lookup_total_insert_ne by lia. apply D7. lia.
Qed.

(** ** The whole operation *)

Section prepare.
Context (hash : list Z → Z) `{HeapQ} (garbage tl_other : Z → Z) (ps : nat).
#[local] Instance dba : BatchAllocator Paged.t := paged_batch_allocator garbage tl_other.
#[local] Instance dkv : KVAllocator ps Paged.t := paged_kv ps.

Lemma rows_fields b : batch_wf b →
  (rows b).*1 = reqs b ∧ (fun x => x.2.1) <$> rows b = req_pool_indices b ∧ (fun x => x.2.2.1) <$> rows b = seq_lens b.
Proof.
  intros [W1 W2 W3 _ _]. unfold rows. split; [by apply fst_zip; rewrite !length_zip_with; lia|].
  set (yz := zip (req_pool_indices b) (zip (seq_lens b) (orig_seq_lens b))).
  assert (snd <$> zip (reqs b) yz = yz) as E by (apply snd_zip; unfold yz; rewrite !length_zip_with; lia). split.
  - trans (fst <$> (snd <$> zip (reqs b) yz)); [by rewrite <-list_fmap_compose|].
    rewrite E. apply fst_zip. rewrite length_zip_with. lia.
  - trans (fst <$> (snd <$> (snd <$> zip (reqs b) yz))); [by rewrite <-!list_fmap_compose|].
    rewrite E. unfold yz. rewrite snd_zip by (rewrite length_zip_with; lia). apply fst_zip. lia.
Qed.

Lemma prepare_for_decode_ok b (m : memory Paged.t) c G Hs rest o :
  let p := req_to_token_pool m in let xs := rows b in
  radix_mem (ps := ps) m c G Hs ((xs ≫= (fun x => pages ps (own_slots ps p x))) ++ rest) → (1 < ps)%nat →
  batch_wf b → output_ids b = Some o → reqs b ≠ [] → ReqPool.wf p → NoDup (req_pool_indices b) →
  Forall (decodable ps (enable_overlap b) p) xs →
  total_pages (Z.of_nat ps) (decode_reqs (decode_pair p <$> xs)) * Z.of_nat ps ≤
    kv_available (token_to_kv_pool_allocator m) →
  ∃ out b' m' c' G',
    prepare_for_decode hash false b m = Ok (b', m') ∧ reqs b' = reqs b ∧ req_pool_indices b' = req_pool_indices b ∧
    seq_lens b' = Z.add 1 <$> seq_lens b ∧ out_cache_loc b' = Some out ∧ NoDup out ∧ len out = len (reqs b) ∧
    let p' := req_to_token_pool m' in
    ReqPool.free_slots p' = ReqPool.free_slots p ∧ pool_shape m' = pool_shape m ∧ ReqPool.wf p' ∧
    Forall2 (fun x v => v mod Z.of_nat ps = x.2.2.1 mod Z.of_nat ps ∧ 0 ≤ v < 2 ^ 31 ∧
       ReqPool.row x.2.1 p' = <[Z.to_nat x.2.2.1 := v]> (ReqPool.row x.2.1 p)) xs out ∧
    rows b' = grown <$> xs ∧ enable_overlap b' = enable_overlap b ∧ forward_mode b' = Some DECODE ∧ batch_wf b' ∧ G' ⊆ G ∧
    radix_mem (ps := ps) m' c' G' Hs ((rows b' ≫= (fun x => pages ps (own_slots ps p' x))) ++ rest).
Proof.
  intros p xs M Hps W Ho Hne Hw Hnd Hx Hfit. destruct (rows_fields b W) as (F1 & F2 & F3). fold xs in F1, F2, F3.
  assert (radix_mem (ps := ps) m c G Hs ((xs ≫= tail_page ps p) ++ (xs ≫= full_pages ps p) ++ rest)) as M'.
  { destruct M as [M1 M2 M3 M4 M5 M6 M7]. split; try done. eapply kv_owned_perm; [|exact M5].
    rewrite (own_perm ps ltac:(lia) p xs). by rewrite !app_assoc. }
  assert (Paged.page_size (token_to_kv_pool_allocator m) = Z.of_nat ps) as Hpg by apply (rm_owned _ _ _ _ _ M).
  assert (xs ≠ []) as Hxs by (intros E; rewrite E in F1; symmetry in F1; done).
  assert (Forall2 (chunk_on (Z.of_nat ps)) (xs ≫= tail_page ps p) (old_pages (Z.of_nat ps) (decode_reqs (decode_pair p <$> xs)))) as Hold.
  { destruct (rm_owned _ _ _ _ _ M') as [_ (pgs & Hf & _)].
    apply Forall2_app_inv_l in Hf as (p1 & p2 & _ & Hf & ->). apply Forall2_app_inv_l in Hf as (p3 & p4 & Hf & _ & ->).
    by rewrite <-(tail_pages_on ps ltac:(lia) (enable_overlap b) p xs p3 Hw Hx Hf). }
  destruct (decode_alloc_ok hash garbage tl_other ps m c G Hs (xs ≫= tail_page ps p) ((xs ≫= full_pages ps p) ++ rest) (decode_pair p <$> xs) M') as
    (out & newp & m' & c' & G' & pgs & Ea & Hndo & Hl & Hp' & Ht & R & Hd & Hown & Hch & Eout & Hnp & Hpsc & Hsm & Hcl & HG); try done.
  { lia. }
  { by destruct xs. }
  { apply Forall_fmap. eapply Forall_impl; [exact Hx|]. intros x [_ _ _ _ D5 _ _]. simpl. lia. }
  { apply Forall_fmap. eapply Forall_impl; [exact Hx|]. intros x [_ _ _ _ D5 _ D7]. simpl. unfold last_slot.
    rewrite <-Zplus_mod_idemp_l, D7, Zplus_mod_idemp_l by lia. f_equal. lia. }
  unfold prepare_for_decode. rewrite Ho. cbn [ba_page_size dba paged_batch_allocator]. rewrite Hpg.
  destruct (Z.eqb_spec (Z.of_nat ps) 1) as [|_]; [lia|]. fold p.
  assert (gather (ReqPool.req_to_token p) (req_pool_indices b) ((fun n => n - 2) <$> (Z.add 1 <$> seq_lens b))
    = Ok (last_slot p <$> xs)) as -> by (rewrite <-F2, <-F3; by eapply gather_last).
  cbn [mbind pyres_bind].
  assert ((decode_pair p <$> xs).*1 = Z.add 1 <$> seq_lens b) as E1 by (by rewrite <-F3, <-!list_fmap_compose).
  assert ((decode_pair p <$> xs).*2 = last_slot p <$> xs) as E2 by (by rewrite <-!list_fmap_compose).
  rewrite E1, E2 in Ea. change (pba garbage tl_other) with dba in Ea. change (pkv ps) with dkv in Ea.
  rewrite Ea. cbn [mbind pyres_bind]. rewrite Hp'. fold p. rewrite len_fmap in Hl.
  assert (len xs = len (reqs b)) as Hlx by (rewrite <-F1; by rewrite len_fmap).
  destruct (scatter_tensor_ok (req_pool_indices b) (seq_lens b) out p Hw) as (rows' & E3 & Hw' & Hs' & _).
  { rewrite (bw_idx _ W), (bw_seq _ W). done. }
  { rewrite (bw_seq _ W). unfold len in *. lia. }
  { done. }
  { rewrite <-F2, <-F3. apply Forall2_fmap, Forall_Forall2_diag. eapply Forall_impl; [exact Hx|].
    intros x [_ _ D3 _ D5 _ _]. lia. }
  rewrite E3. cbn [mbind pyres_bind mret pyres_ret].
  destruct (decode_chunks_ok ps (enable_overlap b) p xs newp pgs (tree_chunks c' G') rest (token_to_kv_pool_allocator m'))
    as [Hh Hv]; try done; [lia|]. rewrite <-Eout in Hh, Hv.
  set (p' := with_rows rows' p) in *.
  assert (Forall2 (fun x v => v mod Z.of_nat ps = x.2.2.1 mod Z.of_nat ps ∧ 0 ≤ v < 2 ^ 31 ∧
    ReqPool.row x.2.1 p' = <[Z.to_nat x.2.2.1 := v]> (ReqPool.row x.2.1 p)) xs out) as Hrow.
  { apply Forall2_same_length_lookup. split; [by eapply Forall2_length|]. intros k x v Hk Hvk.
    destruct (Forall2_lookup_lr _ _ _ _ _ _ Hv Hk Hvk) as [Hm H32]. split; [done|]. split; [done|].
    rewrite <-(int32_small v) by lia. apply (Hs' k); [|..|done].
    - by rewrite <-F2, list_lookup_fmap, Hk.
    - by rewrite <-F3, list_lookup_fmap, Hk. }
  eexists out, _, _, c', G'. split; [done|].
  cbn [reqs req_pool_indices seq_lens out_cache_loc req_to_token_pool with_pool enable_overlap forward_mode]. fold p'.
  do 5 (split; [done|]). split; [lia|]. split; [done|]. split; [unfold pool_shape; simpl; done|]. split; [done|]. split; [done|].
  unfold rows. cbn [reqs req_pool_indices seq_lens orig_seq_lens]. rewrite rows_grown. fold (rows b). fold xs. do 3 (split; [done|]).
  split; [|split; [done|]].
  { destruct W as [W1 W2 W3 _ W5]. split; simpl; rewrite ?length_fmap; try done. rewrite W5, zsum_succ. unfold len. lia. }
  split; simpl; try done.
  - eapply paged_holds_perm; [|exact Hh]. apply Permutation_app_head, Permutation_app_tail. symmetry.
    apply own_grown_perm; [lia|]. apply Forall2_same_length_lookup. split; [by eapply Forall2_length|]. intros k x v Hk Hvk.
    eapply own_grown; [done|lia|by eapply Forall_lookup_1|]. apply (Forall2_lookup_lr _ _ _ _ _ _ Hrow Hk Hvk).
  - rewrite paged_available_held. destruct Hsm as [-> _]. len_pos. nia.
Qed.

End prepare.
