(* ===== verification/SchedulerDecode.v ===== *)
(** * The decoding batch

    [update_running_batch]: check, retraction and preparation composed.
    [retract_decode] stops when the free memory covers [retract_decode_steps]
    tokens for every kept request, while the decode allocator needs a whole
    page for every request whose pages are full: the step never runs out of
    memory when pages are at most that long, and can when they are longer. *)

From Stdlib Require Import QArith.
From S2P Require Import Prelude Allocator PagedAllocator PagedProofs SWAAllocator ReqPool SamplingParams Request KVAllocator.
From S2P Require Import RadixCache RadixInv RadixOwn RadixInsert RadixEvict SchedulePolicy PrefixCache PrefillAdder PrefillAdderProofs ScheduleBatch TreeCache Scheduler.
From S2P Require Import BatchKernels BatchMemory MemoryAccount BatchRetract BatchDecode.
Open Scope Z_scope.

(** ** The rows of a retracted batch *)

Section shape.
Context (hash : list Z → Z) `{HeapQ} {ps : nat} {A : Type} `{KVAllocator ps A}.

Lemma evict_shape n (m m' : memory A) : _evict_tree_cache_if_needed hash n m = Ok m' → pool_shape m' = pool_shape m.
Proof.
  unfold _evict_tree_cache_if_needed. destruct (tree_cache m) as [| |c]; [intros E; by injection E as <-..|].
  destruct (_ <? n); [|intros E; by injection E as <-].
  destruct (evict _ _ _ _) as [[c' a]|]; [|done]. intros E. by injection E as <-.
Qed.

Lemma retract_one_shape pg s r kept (m m' : memory A) :
  retract_one hash pg s r kept m = Ok m' → pool_shape m' = pool_shape m.
Proof.
  unfold retract_one. destruct (RadixReq.pool_row r) as [idx|]; [|done]. simpl. destruct (tree_cache m); [done| |].
  - destruct (kv_free _ _); [|done]. intros E. by injection E as <-.
  - destruct (kv_free _ _); [|done]. destruct (Req.last_node r); [|done]. simpl.
    destruct (dec_lock_ref _ _) as [[? ?]|]; [|done]. simpl. intros E%evict_shape. exact E.
Qed.

Lemma retract_loop_shape spec pg b fuel : ∀ first l ret (m m' : memory A) l' ret',
  retract_loop hash fuel spec pg b first l ret m = Ok (l', ret', m') → pool_shape m' = pool_shape m.
Proof.
  induction fuel as [|fuel IH]; intros first l ret m m' l' ret'; cbn [retract_loop];
    (destruct (_ || first); [|intros E; by injection E as _ _ <-]);
    (destruct (len l =? 1); [destruct (py_assert _); [|done]; intros E; by injection E as _ _ <-|]); [done|].
  destruct (last l) as [i|]; [|done]. destruct (reqs b !! i) as [r|]; [|done]. destruct (seq_lens b !! i) as [s|]; [|done].
  destruct (retract_one _ _ _ _ _ _) as [m1|] eqn:E; [|done]. simpl. intros ->%IH. by eapply retract_one_shape.
Qed.

Lemma retract_decode_shape spec pg b (m : memory A) ret q b' m' :
  retract_decode hash spec pg b m = Ok (ret, q, b', m') → pool_shape m' = pool_shape m.
Proof.
  unfold retract_decode. intros E. apply pyres_bind_ok in E as ([[l' ret'] m1] & E1 & E).
  apply retract_loop_shape in E1. apply pyres_bind_ok in E as (b1 & _ & E). apply pyres_bind_ok in E as (t & _ & E).
  destruct (t =? 0); [done|]. by injection E as _ _ _ <-.
Qed.

End shape.

(** ** A decoding step *)

Section decode.
Context (hash : list Z → Z) `{HeapQ} (garbage tl_other : Z → Z) (ps : nat).
#[local] Instance sdba : BatchAllocator Paged.t := paged_batch_allocator garbage tl_other.
#[local] Instance sdkv : KVAllocator ps Paged.t := paged_kv ps.
Context (cfg : Config) (Hps : (1 < ps)%nat) (Hsmall : Z.of_nat ps ≤ retract_decode_steps).
Context (Hcfg : cfg_page_size cfg = Z.of_nat ps) (Hspec : spec_algorithm cfg = None)
  (Hbuf : decode_mem_cache_buf_multiplier cfg = 1).
Abbreviation sched := (Scheduler (A := Paged.t)).
Implicit Types (m : memory Paged.t) (b : ScheduleBatch).

(** The requests [l] of the batch, as rows. *)
Definition picked b (l : list nat) : list (Req.t * (Z * (Z * Z))) := omap (fun i => rows b !! i) l.

Lemma rows_lookup b i x : batch_wf b → rows b !! i = Some x →
  reqs b !! i = Some x.1 ∧ seq_lens b !! i = Some x.2.2.1.
Proof using.
  intros W Hi. destruct (rows_fields b W) as (F1 & _ & F3).
  by rewrite <-F1, <-F3, !list_lookup_fmap, Hi.
Qed.

Lemma rows_some b i : batch_wf b → (i < length (reqs b))%nat → is_Some (rows b !! i).
Proof using.
  intros W Hi. apply lookup_lt_is_Some_2. destruct (rows_fields b W) as (F1 & _). rewrite <-F1, length_fmap in Hi. done.
Qed.

(** Locks and pages by index and by row. *)
Definition row_node (x : Req.t * (Z * (Z * Z))) : nat := default 0%nat (Req.last_node x.1).
Definition row_own (p : ReqPool.t) (x : Req.t * (Z * (Z * Z))) : list (list Z) := pages ps (own_slots ps p x).

Lemma picked_own b (p : ReqPool.t) l :
  batch_wf b → Forall (fun x => Req.req_pool_idx x.1 = Some x.2.1) (rows b) →
  Forall (fun i => (i < length (reqs b))%nat) l →
  l ≫= own_of (ps := ps) b (ReqPool.req_to_token p) = picked b l ≫= row_own p.
Proof using.
  intros W Hx. induction 1 as [|i l Hi _ IH]; [done|]. unfold picked in *. csimpl.
  destruct (rows_some b i W Hi) as [x Ex]. rewrite Ex. csimpl. rewrite IH. f_equal.
  destruct (rows_lookup b i x W Ex) as [E1 E2]. unfold own_of. rewrite E1, E2.
  rewrite (Forall_lookup_1 _ _ _ _ Hx Ex). done.
Qed.

Lemma picked_node b l :
  batch_wf b → Forall (fun i => (i < length (reqs b))%nat) l → node_of b <$> l = row_node <$> picked b l.
Proof using.
  intros W. induction 1 as [|i l Hi _ IH]; [done|]. unfold picked in *. csimpl.
  destruct (rows_some b i W Hi) as [x Ex]. rewrite Ex. csimpl. rewrite IH. f_equal.
  destruct (rows_lookup b i x W Ex) as [E1 _]. unfold node_of, row_node. by rewrite E1.
Qed.

Lemma picked_all b : batch_wf b → picked b (seq 0 (length (reqs b))) = rows b.
Proof using.
  intros W. destruct (rows_fields b W) as (F1 & _). unfold picked. rewrite <-F1, length_fmap. apply omap_seq_all.
Qed.

Lemma indices_all b : Forall (fun i => (i < length (reqs b))%nat) (seq 0 (length (reqs b))).
Proof using. clear. apply Forall_forall. intros i Hi%elem_of_seq. lia. Qed.

(** The memory of the whole batch, by rows. *)
Lemma running_all m b c G oH other :
  batch_wf b → Forall (fun x => Req.req_pool_idx x.1 = Some x.2.1) (rows b) →
  running_mem b (ReqPool.req_to_token (req_to_token_pool m)) m c G (seq 0 (length (reqs b))) oH other ↔
  radix_mem (ps := ps) m c G ((row_node <$> rows b) ++ oH) ((rows b ≫= row_own (req_to_token_pool m)) ++ other).
Proof using.
  intros W Hx. rewrite <-(picked_all b W) at 1 2.
  rewrite <-(picked_own b _ _ W Hx (indices_all b)), <-(picked_node b _ W (indices_all b)).
  split; [by intros [M _]|by intros M; split].
Qed.

Lemma running_rows b p overlap :
  batch_wf b → Forall (decodable ps overlap p) (rows b) → Forall (running b) (seq 0 (length (reqs b))).
Proof using Hps.
  intros W Hx. apply Forall_forall. intros i Hi%elem_of_seq. destruct (rows_some b i W) as [x Ex]; [lia|].
  destruct (rows_lookup b i x W Ex) as [E1 E2]. pose proof (Forall_lookup_1 _ _ _ _ Hx Ex) as [D1 [n D2] _ _ _ _ _].
  exists x.1, x.2.2.1, x.2.1, n. done.
Qed.

Lemma decodable_shape overlap p p' x :
  ReqPool.req_to_token p' = ReqPool.req_to_token p → ReqPool.size p' = ReqPool.size p →
  ReqPool.max_context_len p' = ReqPool.max_context_len p → decodable ps overlap p x → decodable ps overlap p' x.
Proof using.
  intros E1 E2 E3 [D1 D2 D3 D4 D5 D6 D7]. split; rewrite ?E2, ?E3; try done.
  intros j Hj. unfold ReqPool.row. rewrite E1. by apply D7.
Qed.

Lemma wf_shape (p p' : ReqPool.t) :
  ReqPool.req_to_token p' = ReqPool.req_to_token p → ReqPool.size p' = ReqPool.size p →
  ReqPool.max_context_len p' = ReqPool.max_context_len p → ReqPool.wf p → ReqPool.wf p'.
Proof using.
  unfold ReqPool.wf, ReqPool.row. by intros -> -> ->.
Qed.

Lemma decode_fits p xs avail :
  (Z.of_nat ps | avail) → (len xs * retract_decode_steps ≤ avail ∨ length xs = 1%nat ∧ 0 < avail) →
  total_pages (Z.of_nat ps) (decode_reqs (decode_pair p <$> xs)) * Z.of_nat ps ≤ avail.
Proof using Hps Hsmall.
  intros [q ->] Hc. pose proof (decode_total_pages (Z.of_nat ps) (decode_pair p <$> xs) ltac:(lia)) as Ht.
  rewrite len_fmap in Ht. pose proof (len_nonneg xs). destruct Hc as [Hc|[Hl Hp]].
  - nia.
  - assert (len xs = 1) as E by (unfold len; lia). assert (1 ≤ q) by nia. nia.
Qed.

(** The request's locked prefix: node [n] with path [ll], and the slots past
    it in pages of its own. *)
Definition attached (G : gmap nat path) (r : Req.t) : Prop :=
  ∃ n ll, Req.last_node r = Some n ∧ G !! n = Some ll ∧
    ll.*1 `prefix_of` (Req.origin_input_ids r ++ Req.output_ids r).[: -1] ∧
    Z.of_nat (length ll) ≤ len (Req.prefix_indices r) < Z.of_nat (length ll + ps).

Lemma attached_sub (G G' : gmap nat path) r n :
  G' ⊆ G → Req.last_node r = Some n → is_Some (G' !! n) → attached G r → attached G' r.
Proof using.
  intros Hsub En [ll' Hl] (n' & ll & En' & Hg & Hr). rewrite En in En'. injection En' as <-. exists n, ll.
  split; [done|]. split; [|done]. rewrite Hl. f_equal. apply (lookup_weaken _ _ _ _ Hl) in Hsub. congruence.
Qed.

(** A decode batch in accounted memory: [oH] and [other] are the locks and
    pages of requests outside the batch. *)
Record decode_ready m b c G (oH : list nat) (other : list (list Z)) : Prop := mk_decode_ready {
  dr_wf : batch_wf b;
  dr_out : is_Some (output_ids b);
  dr_some : reqs b ≠ [];
  dr_pool : ReqPool.wf (req_to_token_pool m);
  dr_nodup : NoDup (req_pool_indices b);
  dr_rows : Forall (decodable ps (enable_overlap b) (req_to_token_pool m)) (rows b);
  dr_mem : running_mem b (ReqPool.req_to_token (req_to_token_pool m)) m c G (seq 0 (length (reqs b))) oH other;
  dr_own : retractable (ps := ps) b (ReqPool.req_to_token (req_to_token_pool m)) None m c G (seq 0 (length (reqs b))) oH other;
  dr_max : Forall (fun r => ∃ k, SamplingParams.max_new_tokens (Req.sampling_params r) = Some k ∧ 0 < k) (reqs b);
  dr_attached : Forall (attached G) (reqs b);
}.

(** A single request can go on: its next page is free or evictable. *)
Definition single_fits m b (c : RadixCache) : Prop :=
  length (reqs b) = 1%nat → new_page_count_next_decode b m * Z.of_nat ps ≤
    kv_available (token_to_kv_pool_allocator m) + evictable_size c.

(** The rows of the request pool: free, of the batch, or [oS]. *)
Definition slots_ok m b (oS : list Z) : Prop := ReqPool.owned (req_to_token_pool m) (req_pool_indices b ++ oS).

(** The batch after the step: each request has one more slot, at the end of
    its row. *)
Record decode_started m b c G (oH : list nat) (other : list (list Z)) : Prop := mk_decode_started {
  ds_wf : batch_wf b;
  ds_mode : forward_mode b = Some DECODE;
  ds_out : ∃ out, out_cache_loc b = Some out ∧ NoDup out ∧ len out = len (reqs b);
  ds_pool : ReqPool.wf (req_to_token_pool m);
  ds_nodup : NoDup (req_pool_indices b);
  ds_rows : Forall (stepped ps (enable_overlap b) (req_to_token_pool m)) (rows b);
  ds_mem : running_mem b (ReqPool.req_to_token (req_to_token_pool m)) m c G (seq 0 (length (reqs b))) oH other;
  ds_attached : Forall (attached G) (reqs b);
}.

Lemma decodable_idx overlap p xs : Forall (decodable ps overlap p) xs → Forall (fun x => Req.req_pool_idx x.1 = Some x.2.1) xs.
Proof using. intros Hx. eapply Forall_impl; [exact Hx|]. by intros x []. Qed.

Lemma attached_rows m c G G' (xs : list (Req.t * (Z * (Z * Z)))) oH rest :
  radix_mem (ps := ps) m c G' ((row_node <$> xs) ++ oH) rest → G' ⊆ G →
  Forall (attached G) xs.*1 → Forall (attached G') xs.*1.
Proof using.
  intros M Hsub Ha. apply Forall_forall. intros r Hin.
  pose proof (proj1 (Forall_forall _ _) Ha r Hin) as Hr. pose proof Hr as (n & ll & En & _).
  eapply attached_sub; [done..| |done]. apply (r_handles _ _ _ (rm_repr _ _ _ _ _ M)).
  apply list_elem_of_fmap in Hin as (x & -> & Hx). apply elem_of_app. left. apply list_elem_of_fmap. exists x. split; [|done].
  unfold row_node. by rewrite En.
Qed.

(** Preparing a batch whose pages are free. *)
Lemma prepare_kept_ok m b c G oH other :
  batch_wf b → is_Some (output_ids b) → reqs b ≠ [] → ReqPool.wf (req_to_token_pool m) →
  NoDup (req_pool_indices b) → Forall (decodable ps (enable_overlap b) (req_to_token_pool m)) (rows b) →
  radix_mem (ps := ps) m c G ((row_node <$> rows b) ++ oH) ((rows b ≫= row_own (req_to_token_pool m)) ++ other) →
  Forall (attached G) (reqs b) →
  total_pages (Z.of_nat ps) (decode_reqs (decode_pair (req_to_token_pool m) <$> rows b)) * Z.of_nat ps ≤
    kv_available (token_to_kv_pool_allocator m) →
  ∃ b' m' c' G', prepare_for_decode hash false b m = Ok (b', m') ∧ reqs b' = reqs b ∧
    seq_lens b' = Z.add 1 <$> seq_lens b ∧ enable_overlap b' = enable_overlap b ∧ decode_started m' b' c' G' oH other ∧
    (∀ oS, slots_ok m b oS → slots_ok m' b' oS) ∧ pool_shape m' = pool_shape m.
Proof using Hps.
  intros W [o Ho] Hne Hw Hnd Hx M Hat Hfit.
  destruct (prepare_for_decode_ok hash garbage tl_other ps b m c G ((row_node <$> rows b) ++ oH) other o) as
    (out & b' & m' & c' & G' & E & E1 & E2 & E3 & Eo & Hndo & Hlo & Hfs & Hsh & Hw' & Hrow & Er & Eov & Em & W' & HG & M'); try done.
  exists b', m', c', G'. do 4 (split; [done|]). pose proof Hsh as Hsh'. injection Hsh as Hs1 Hs2.
  assert (Forall (stepped ps (enable_overlap b) (req_to_token_pool m')) (rows b')) as Hst.
  { rewrite Er. apply Forall_fmap. apply Forall_lookup. intros k x Hk.
    destruct (Forall2_lookup_l _ _ _ _ _ Hrow Hk) as (v & _ & Hm & _ & Hr).
    eapply grown_stepped; [exact Hw| |done|done|exact Hm|exact Hr]. by eapply Forall_lookup_1. }
  assert (row_node <$> rows b' = row_node <$> rows b) as En by (rewrite Er, <-list_fmap_compose; done).
  assert (Forall (attached G') (rows b').*1) as Ha.
  { eapply (attached_rows m' c' G); [by rewrite En|done|]. destruct (rows_fields b' W') as (-> & _). by rewrite E1. }
  split; [|split; [unfold slots_ok, ReqPool.owned; by rewrite Hfs, E2, Hs1|done]]. split; try done.
  - exists out. by rewrite E1.
  - by rewrite E2.
  - by rewrite Eov.
  - apply running_all; [done| |by rewrite En]. eapply Forall_impl; [exact Hst|]. by intros x [].
  - by destruct (rows_fields b' W') as (<- & _).
Qed.

Lemma available_divide m b tbl c G l oH other :
  running_mem (ps := ps) b tbl m c G l oH other → (Z.of_nat ps | kv_available (token_to_kv_pool_allocator m)).
Proof using.
  intros [M _]. assert (Paged.page_size (token_to_kv_pool_allocator m) = Z.of_nat ps) as Hpg by apply (rm_owned _ _ _ _ _ M).
  change (Z.of_nat ps | Paged.available_size (token_to_kv_pool_allocator m)).
  rewrite paged_available_held, Hpg. apply Z.divide_factor_r.
Qed.

Lemma retracted_rids b kept gone spec :
  retract_order spec (reqs b) = kept ++ gone →
  (Req.rid <$> omap (fun i => reqs b !! i) kept) ++ (Req.rid <$> omap (reset_of b) (reverse gone)) ≡ₚ Req.rid <$> reqs b.
Proof using.
  intros E. rewrite (reverse_Permutation gone).
  assert (Req.rid <$> omap (reset_of b) gone = Req.rid <$> omap (fun i => reqs b !! i) gone) as ->.
  { induction gone as [|i gone IH] in |- *; [done|]. unfold reset_of. csimpl. destruct (reqs b !! i); simpl; [|exact IH].
    f_equal. exact IH. }
  rewrite <-fmap_app, <-omap_app, <-E, retract_order_perm, omap_seq_all. done.
Qed.

Lemma picked_slots b l :
  batch_wf b → Forall (fun x => Req.req_pool_idx x.1 = Some x.2.1) (rows b) →
  Forall (fun i => (i < length (reqs b))%nat) l → omap (slot_of b) l = (fun x => x.2.1) <$> picked b l.
Proof using.
  intros W Hx. induction 1 as [|i l Hi _ IH]; [done|]. unfold picked, slot_of in *. csimpl. destruct (rows_some b i W Hi) as [x Ex].
  destruct (rows_lookup b i x W Ex) as [E1 _]. rewrite Ex, E1. simpl. rewrite (Forall_lookup_1 _ _ _ _ Hx Ex). simpl. by rewrite IH.
Qed.

Lemma retracted_slots b kept gone :
  batch_wf b → Forall (fun x => Req.req_pool_idx x.1 = Some x.2.1) (rows b) →
  retract_order None (reqs b) = kept ++ gone →
  ((fun x => x.2.1) <$> picked b kept) ++ omap (slot_of b) (reverse gone) ≡ₚ req_pool_indices b.
Proof using.
  intros W Hx E. rewrite (reverse_Permutation gone). destruct (rows_fields b W) as (_ & F2 & _).
  pose proof (retract_order_perm b None) as Hp. rewrite E in Hp.
  assert (Forall (fun i => (i < length (reqs b))%nat) (kept ++ gone)) as [_ Hg]%Forall_app by (rewrite Hp; apply indices_all).
  rewrite (picked_slots b gone W Hx Hg).
  rewrite <-F2, <-(picked_all b W), <-fmap_app. unfold picked. by rewrite <-omap_app, Hp.
Qed.

Lemma kept_indices b kept gone spec :
  retract_order spec (reqs b) = kept ++ gone →
  NoDup kept ∧ Forall (fun i => (i < length (reqs b))%nat) kept.
Proof using.
  clear Hps Hsmall Hcfg Hspec Hbuf. intros E. pose proof (retract_order_perm b spec) as Hp. rewrite E in Hp.
  assert (NoDup (kept ++ gone)) as Hnd by (rewrite Hp; apply NoDup_seq). apply NoDup_app in Hnd as (Hnd & _).
  split; [done|]. apply Forall_forall. intros i Hi.
  assert (i ∈ seq 0 (length (reqs b))) as Hin by (rewrite <-Hp; set_solver). apply elem_of_seq in Hin. clear -Hin. lia.
Qed.

Lemma picked_nodup b kept : batch_wf b → NoDup kept → NoDup (req_pool_indices b) →
  NoDup ((fun x => x.2.1) <$> picked b kept).
Proof using.
  intros W Hk Hn. destruct (rows_fields b W) as (_ & F2 & _). rewrite <-F2 in Hn. unfold picked.
  induction Hk as [|i kept Hi _ IH]; [constructor|]. csimpl. destruct (rows b !! i) as [x|] eqn:Ex; [|done]. csimpl.
  constructor; [|done]. intros (y & Ey & (j & Hj & Ej)%list_elem_of_omap)%list_elem_of_fmap.
  assert (i = j) as ->; [|done].
  eapply NoDup_lookup; [exact Hn|..]; rewrite list_lookup_fmap; [by rewrite Ex|rewrite Ej; simpl; by rewrite Ey].
Qed.

Lemma picked_length b l :
  batch_wf b → Forall (fun i => (i < length (reqs b))%nat) l → length (picked b l) = length l.
Proof using.
  intros W. unfold picked. induction 1 as [|i l Hi _ IH]; [done|]. csimpl.
  destruct (rows_some b i W Hi) as [x Ex]. rewrite Ex. simpl. by rewrite IH.
Qed.

Lemma running_pool m1 m b c G l oH other tbl :
  running_mem (ps := ps) b tbl m1 c G l oH other → ReqPool.req_to_token (req_to_token_pool m) = tbl →
  pool_shape m1 = pool_shape m →
  ReqPool.req_to_token (req_to_token_pool m1) = ReqPool.req_to_token (req_to_token_pool m) ∧
  ReqPool.size (req_to_token_pool m1) = ReqPool.size (req_to_token_pool m) ∧
  ReqPool.max_context_len (req_to_token_pool m1) = ReqPool.max_context_len (req_to_token_pool m).
Proof using. intros [_ ->] <- E. by injection E as -> ->. Qed.

(** Retraction, then preparation of what is kept. *)
Lemma retract_then_prepare m b c G oH other :
  decode_ready m b c G oH other → length (reqs b) ≠ 1%nat →
  ∃ ret q b' m1 b'' m' c' G', retract_decode hash None (Z.of_nat ps) b m = Ok (ret, q, b', m1) ∧
    prepare_for_decode hash false b' m1 = Ok (b'', m') ∧
    (Req.rid <$> reqs b'') ++ (Req.rid <$> ret) ≡ₚ Req.rid <$> reqs b ∧ reqs b'' ⊆+ reqs b ∧ reqs b'' ≠ [] ∧ ret ≠ [] ∧
    enable_overlap b'' = enable_overlap b ∧ decode_started m' b'' c' G' oH other ∧
    (∀ oS, slots_ok m b oS → slots_ok m' b'' oS) ∧ pool_shape m' = pool_shape m ∧
    Forall (fun r' => ∃ r, r ∈ reqs b ∧ r' = Req.reset_for_retract r) ret ∧ (0 < q)%Q.
Proof using Hps Hsmall.
  intros [W [o Ho] Hne Hw Hnd Hx Hm Hown Hmax Hat] Hl1.
  destruct (retract_decode_ok hash ps Paged.t b m c G oH other o None) as
    (kept & gone & q & b' & m1 & c1 & G1 & E & Eo & Hk & Hg & _ & Hm1 & Hreq & Hpos & W' & Er & [Hq0 _] & Erow & Ho' & Hov & HG & Hfs);
    try done; [lia|by eapply running_rows|].
  destruct (kept_indices b kept gone None Eo) as [Hkn Hkl]. fold (picked b kept) in Erow.
  pose proof (retract_decode_shape _ _ _ _ _ _ _ _ _ E) as Hsh1.
  destruct (running_pool m1 m _ _ _ _ _ _ _ Hm1 eq_refl Hsh1) as (P1 & P2 & P3).
  assert (Forall (decodable ps (enable_overlap b') (req_to_token_pool m1)) (rows b')) as Hx1.
  { rewrite Hov, Erow. apply Forall_forall. intros x (i & _ & Hi)%list_elem_of_omap.
    eapply decodable_shape; [done..|]. by eapply Forall_lookup_1. }
  assert (radix_mem (ps := ps) m1 c1 G1 ((row_node <$> rows b') ++ oH) ((rows b' ≫= row_own (req_to_token_pool m1)) ++ other)) as M1.
  { destruct Hm1 as [M1 _]. rewrite (picked_node b kept W Hkl) in M1. rewrite <-P1 in M1.
    by rewrite (picked_own b _ kept W (decodable_idx _ _ _ Hx) Hkl), <-Erow in M1. }
  pose proof (retracted_rids b kept gone None Eo) as Hrid.
  assert (reqs b' ⊆+ reqs b) as Hsubm.
  { rewrite Er. trans (omap (fun i => reqs b !! i) (kept ++ gone)); [rewrite omap_app; by apply submseteq_inserts_r|].
    by rewrite <-Eo, retract_order_perm, omap_seq_all. }
  assert (length (reqs b') = length kept) as Hlk.
  { destruct (rows_fields b' W') as (F1 & _). rewrite <-F1, length_fmap, Erow. by apply picked_length. }
  assert (reqs b' ≠ []) as Hne' by (intros En; rewrite En in Hlk; by destruct kept).
  destruct (prepare_kept_ok m1 b' c1 G1 oH other) as (b'' & m' & c' & G' & E2 & Er2 & _ & Eov & Hs & Hsl & Hsh); try done.
  - by eapply wf_shape.
  - destruct (rows_fields b' W') as (_ & F2 & _). rewrite <-F2, Erow. by apply picked_nodup.
  - destruct (rows_fields b' W') as (F1 & _). rewrite <-F1. eapply attached_rows; [exact M1|done|].
    rewrite F1. apply Forall_forall. intros r Hr. apply (proj1 (Forall_forall _ _) Hat). by eapply elem_of_submseteq.
  - rewrite Erow. apply decode_fits; [by eapply available_divide|]. unfold len. rewrite picked_length by done.
    unfold get_required_tokens, len in Hreq. rewrite Z.add_0_r in Hreq. tauto.
  - exists (omap (reset_of b) (reverse gone)), q, b', m1, b'', m', c', G'. split; [done|]. split; [done|].
    split; [by rewrite Er2, Er|]. split; [by rewrite Er2|]. split; [by rewrite Er2|].
    split; [|split; [by rewrite Eov|split; [done|split; [|split; [by rewrite Hsh|split; [|done]]]]]].
    2:{ intros oS Hown'. apply Hsl. unfold slots_ok, ReqPool.owned in *. rewrite Hfs, P2, <-Hown'.
        rewrite <-(retracted_slots b kept gone W (decodable_idx _ _ _ Hx) Eo). destruct (rows_fields b' W') as (_ & <- & _). rewrite Erow.
        generalize (omap (slot_of b) (reverse gone)). intros. solve_Permutation. }
    2:{ apply Forall_forall. intros r' (i & _ & Hi)%list_elem_of_omap. unfold reset_of in Hi. destruct (reqs b !! i) as [r|] eqn:Ei; [|done].
        injection Hi as <-. exists r. split; [by eapply list_elem_of_lookup_2|done]. }
    intros En. rewrite En, app_nil_r, <-Er in Hrid. apply Permutation_length in Hrid. rewrite !length_fmap, Hlk in Hrid.
    pose proof (Permutation_length (retract_order_perm b None)) as Hlo. rewrite Eo, length_app, length_seq in Hlo.
    destruct gone; [|simpl in *; lia]. by apply Hl1, Hg.
Qed.

Lemma decode_lens m b c G oH other : decode_ready m b c G oH other →
  (decode_pair (req_to_token_pool m) <$> rows b).*1 = (fun r => 1 + kv_len b r) <$> reqs b.
Proof using.
  intros [W _ _ _ _ Hx _ _ _ _]. destruct (rows_fields b W) as (F1 & _). rewrite <-F1, <-!list_fmap_compose.
  apply fmap_ext_elem. intros x Hin. simpl. by rewrite (dc_len _ _ _ _ (proj1 (Forall_forall _ _) Hx x Hin)).
Qed.

Lemma update_running_batch_ok (s : sched) (B : Batch) b c G oH other :
  filter_batch (default_keep (fun _ => false) (reqs (sb B))) (sb B) = Ok b →
  decode_ready (mem s) b c G oH other → single_fits (mem s) b c →
  ∃ B' s' ret c' G', update_running_batch hash cfg B s = Ok (B', s') ∧
    waiting_queue s' = waiting_queue s ++ ret ∧
    (Req.rid <$> reqs (sb B')) ++ (Req.rid <$> ret) ≡ₚ Req.rid <$> reqs b ∧ reqs (sb B') ⊆+ reqs b ∧ reqs (sb B') ≠ [] ∧
    (ret = [] ↔ new_page_count_next_decode b (mem s) * Z.of_nat ps ≤
       kv_available (token_to_kv_pool_allocator (mem s)) + evictable_size c) ∧
    enable_overlap (sb B') = enable_overlap b ∧ decode_started (mem s') (sb B') c' G' oH other ∧
    (∀ oS, slots_ok (mem s) b oS → slots_ok (mem s') (sb B') oS) ∧ pool_shape (mem s') = pool_shape (mem s) ∧
    chunked_req s' = chunked_req s ∧ last_batch s' = last_batch s ∧
    waiting_queue_radix_tree s' = waiting_queue_radix_tree s ∧
    Forall (fun r' => ∃ r, r ∈ reqs b ∧ r' = Req.reset_for_retract r) ret ∧
    (0 <= min_new_token_ratio cfg → 0 <= new_token_ratio s')%Q.
Proof using All.
  intros Ef D Hone. pose proof D as [W Ho Hne Hw Hnd Hx Hm Hown Hmax Hat]. pose proof (decode_lens _ _ _ _ _ _ D) as Esl.
  unfold update_running_batch. rewrite Ef. cbn [mbind pyres_bind].
  assert (is_empty b = false) as -> by (unfold is_empty; destruct (reqs b); [done|]; rewrite len_cons; len_pos; lia).
  set (p := req_to_token_pool (mem s)) in *.
  assert (Paged.page_size (token_to_kv_pool_allocator (mem s)) = Z.of_nat ps) as Hpg
    by apply (rm_owned _ _ _ _ _ (run_mem _ _ _ _ _ _ _ _ Hm)).
  pose proof (decode_page_count garbage tl_other ps b (mem s) _ Hpg ltac:(lia) Esl) as Epc.
  change (pba garbage tl_other) with sdba in Epc. unfold single_fits in Hone. rewrite Epc in Hone |- *.
  destruct (check_decode_ok hash garbage tl_other ps b (mem s) c G _ _ (decode_pair p <$> rows b) (run_mem _ _ _ _ _ _ _ _ Hm) ltac:(lia) Esl)
    as (m1 & c1 & G1 & E1 & M1 & Hp1 & Hiff & Hge & HG & Hsum & Hprot).
  assert (running_mem b (ReqPool.req_to_token (req_to_token_pool m1)) m1 c1 G1 (seq 0 (length (reqs b))) oH other) as Hm1.
  { split; [|done]. by rewrite Hp1. }
  assert (Forall (attached G1) (reqs b)) as Hat1.
  { destruct (rows_fields b W) as (F1 & _). rewrite <-F1 in Hat |- *. eapply attached_rows; [|exact HG|exact Hat].
    apply running_all; [done|by eapply decodable_idx|exact Hm1]. }
  rewrite Hbuf. change (pba garbage tl_other) with sdba in E1. change (pkv ps) with sdkv in E1. rewrite E1. cbn [mbind pyres_bind].
  rewrite Hspec, Hcfg, (bool_decide_eq_false_2 (is_Some (@None (Z * Z * Z)))) by (by intros [? [=]]).
  destruct (Z.leb_spec (total_pages (Z.of_nat ps) (decode_reqs (decode_pair p <$> rows b)) * Z.of_nat ps)
    (kv_available (token_to_kv_pool_allocator m1))) as [Hle|Hgt].
  - destruct (prepare_kept_ok m1 b c1 G1 oH other) as (b'' & m' & c' & G' & E2 & Er2 & _ & Eov & Hs & Hsl & Hsh); rewrite ?Hp1; try done.
    { rewrite <-Hp1. apply running_all; [done|by eapply decodable_idx|exact Hm1]. }
    cbn [mret pyres_ret mbind pyres_bind mem with_mem with_ratio]. rewrite E2. cbn [mret pyres_ret mbind pyres_bind].
    eexists _, _, [], c', G'. split; [reflexivity|]. simpl. rewrite Er2, !app_nil_r.
    split_and!; try done.
    + split; [intros _; by apply Hiff|done].
    + intros oS Hsl0. apply Hsl. unfold slots_ok in *. by rewrite Hp1.
    + rewrite Hsh. unfold pool_shape. by rewrite Hp1.
    + intros Hmin. unfold Qmax. destruct (Qle_bool _ _) eqn:Eq; [done|]. apply SamplingParams.Qle_bool_false in Eq.
      eapply Qle_trans; [exact Hmin|]. by apply Qlt_le_weak.
  - assert (length (reqs b) ≠ 1%nat) as Hl1.
    { intros Hl. apply Zlt_not_le in Hgt. by apply Hgt, Hiff, Hone. }
    destruct (retract_then_prepare m1 b c1 G1 oH other) as (ret & q & b' & m2 & b'' & m' & c' & G' & E2 & E3 & Hrid & Hsub & Hn & Hr & Eov & Hs & Hsl & Hsh & Hres & Hq0); [|done|].
    { split; try done; rewrite ?Hp1; try done. eapply retractable_sub; [exact Hown|rewrite <-Hp1; exact Hm1|done..]. }
    cbn [mem with_mem]. rewrite E2. cbn [mbind pyres_bind mret pyres_ret].
    lazymatch goal with |- context [prepare_for_decode hash false b' ?m] => change m with m2 end. rewrite E3.
    cbn [mbind pyres_bind mret pyres_ret]. eexists _, _, ret, c', G'. split; [reflexivity|]. simpl.
    split_and!; try done.
    + split; [done|]. intros Hle%Hiff. by apply Zlt_not_le in Hgt.
    + intros oS Hsl0. apply Hsl. unfold slots_ok in *. by rewrite Hp1.
    + rewrite Hsh. unfold pool_shape. by rewrite Hp1.
    + intros _. by apply Qlt_le_weak.
Qed.

End decode.

(** C18: a decoding step finds its memory. Pages have more than one and at
    most [retract_decode_steps] tokens, there is no speculative decoding and
    the buffer multiplier is 1. The batch without its finished requests is
    [decode_ready]: not empty, with every token of the pool accounted for
    (free, in the tree, or held by a request) and limits of at least one
    token, and [retractable]: every request holds pages of its own, or each
    of them alone would leave some of the pool free. A request that is alone
    needs its next page to be free or evictable ([single_fits]). (Without
    these conditions the assertion in [retract_decode] can fail, see
    [event_loop_retract_fails].) Then [update_running_batch] succeeds: each
    request it keeps gets one new slot of its own at the end of its row, and
    all memory is accounted for again; requests are retracted only if the
    free and the evictable memory do not cover the pages of the step, never
    all of them, and they go to the end of the waiting queue, so that no
    request is lost or duplicated. *)
Theorem scheduler_decode_gets_memory hash `{HeapQ} (garbage tl_other : Z → Z) (ps : nat) (cfg : Config)
    (s : Scheduler (A := Paged.t)) (B : Batch) b c G oH other :
  (1 < ps)%nat → Z.of_nat ps ≤ retract_decode_steps →
  cfg_page_size cfg = Z.of_nat ps → spec_algorithm cfg = None → decode_mem_cache_buf_multiplier cfg = 1 →
  filter_batch (default_keep (fun _ => false) (reqs (sb B))) (sb B) = Ok b →
  decode_ready ps (mem s) b c G oH other → single_fits garbage tl_other ps (mem s) b c →
  ∃ B' s' retracted c' G',
    update_running_batch (ps := ps) (H0 := paged_kv ps) (H1 := paged_batch_allocator garbage tl_other) hash cfg B s = Ok (B', s') ∧
    waiting_queue s' = waiting_queue s ++ retracted ∧
    (Req.rid <$> reqs (sb B')) ++ (Req.rid <$> retracted) ≡ₚ Req.rid <$> reqs b ∧ reqs (sb B') ≠ [] ∧
    (retracted = [] ↔
       new_page_count_next_decode (H1 := paged_batch_allocator garbage tl_other) b (mem s) * Z.of_nat ps ≤
       Paged.available_size (token_to_kv_pool_allocator (mem s)) + evictable_size c) ∧
    decode_started ps (mem s') (sb B') c' G' oH other.
Proof.
  intros H1 H2 H3 H4 H5 Ef D Hs.
  destruct (update_running_batch_ok hash garbage tl_other ps cfg H1 H2 H3 H4 H5 s B b c G oH other Ef D Hs)
    as (B' & s' & ret & c' & G' & E & Hq & Hp & _ & Hn & Hr & _ & Hd & _). by exists B', s', ret, c', G'.
Qed.

(** Two requests of three and two tokens in pages of two, a full pool and
    three evictable pages. *)
Definition decode_config : Config :=
  mkConfig 2 2 1 1024 None false false false (fun _ => true) (inr FCFS) (1#2)%Q (1#10)%Q (1#100)%Q 1 12 None true true.

Definition decode_scheduler : Scheduler (A := Paged.t) :=
  mkScheduler retract_memory [] (mkSBatch retract_batch false false None None) None None (1#2)%Q 0
    (init_RadixCache Z.of_nat 1 false false) [].

Lemma decode_ready_demo : ∃ G, decode_ready 2 retract_memory retract_batch demo_cache G [] [].
Proof.
  destruct retract_memory_ok as [G M]. exists G. split.
  - split; try reflexivity; intros ? [= <-]; reflexivity.
  - eexists. reflexivity.
  - discriminate.
  - split; [reflexivity|]. split; [|vm_compute; discriminate]. intros i Hi. simpl in Hi.
    assert (i = 0 ∨ i = 1) as [-> | ->] by lia; reflexivity.
  - repeat constructor; set_solver.
  - apply Forall_cons_2; [|apply Forall_cons_2; [|apply Forall_nil_2; exact I]];
      (split; [reflexivity|eexists; reflexivity|vm_compute; split; [discriminate|reflexivity]|reflexivity
              |vm_compute; split; reflexivity|vm_compute; discriminate|]); intros j Hj; simpl in Hj.
    + assert (j = 0 ∨ j = 1 ∨ j = 2) as [-> | [-> | ->]] by lia; reflexivity.
    + assert (j = 0 ∨ j = 1) as [-> | ->] by lia; reflexivity.
  - exact M.
  - left. intros i Hi. apply elem_of_cons in Hi as [->|Hi%list_elem_of_singleton]; [discriminate|]. rewrite Hi. discriminate.
  - repeat constructor; exists 3; split; reflexivity.
  - assert (G !! 0%nat = Some []) as Hr.
    { assert (root_node demo_cache = 0%nat) as <- by (vm_compute; reflexivity).
      exact (r_root _ _ _ (rm_repr _ _ _ _ _ (run_mem _ _ _ _ _ _ _ _ M))). }
    apply Forall_cons_2; [|apply Forall_cons_2; [|apply Forall_nil_2; exact I]]; exists 0%nat, []; (split; [reflexivity|split; [exact Hr|split; [apply prefix_nil|vm_compute; split; [discriminate|reflexivity]]]]).
Qed.

Lemma scheduler_decode_gets_memory_witness :
  ∃ B' s' retracted,
    update_running_batch (ps := 2) (H0 := paged_kv 2) (H1 := paged_batch_allocator (fun _ => 0) (fun _ => 0))
      demo_hash decode_config (running_batch decode_scheduler) decode_scheduler = Ok (B', s') ∧
    (Req.rid <$> reqs (sb B')) ++ (Req.rid <$> retracted) ≡ₚ Req.rid <$> reqs retract_batch.
Proof.
  destruct decode_ready_demo as [G D].
  destruct (scheduler_decode_gets_memory demo_hash (fun _ => 0) (fun _ => 0) 2 decode_config decode_scheduler
    (running_batch decode_scheduler) retract_batch demo_cache G [] [])
    as (B' & s' & ret & c' & G' & E & _ & Hp & _);
    [lia|discriminate|reflexivity|reflexivity|reflexivity|reflexivity|exact D|intros [=]|].
  exists B', s', ret. split; [exact E|exact Hp].
Defined.

(** ** Large pages *)

(** Pages of 32 tokens; four requests of 31 tokens and one output each, with
    the first 32 slots of a page of their own. *)
Definition page32_req (i : Z) : Req.t :=
  Req.set_last_node (Some 0%nat) (Req.set_req_pool_idx (Some i)
    (Req.set_output_ids [5; 6] (Req.init "r" (arange 0 31) Req.demo_params false [] None [] 32000))).

Definition page32_pool : Paged.t :=
  match Paged.alloc 128 (Paged.init (fun _ => 0) 160 32 false false) with
  | Ok (_, p) => p
  | Raise _ => Paged.init (fun _ => 0) 160 32 false false
  end.

Definition page32_rows : ReqPool.t :=
  ReqPool.mk 4 64 ((fun i => arange (32 * (i + 1)) (32 * (i + 1) + 64)) <$> arange 0 4) [].

Definition page32_batch : ScheduleBatch :=
  mkBatch (page32_req <$> arange 0 4) (Some DECODE) false [] (arange 0 4) [32; 32; 32; 32] [32; 32; 32; 32]
    None (Some [6; 6; 6; 6]) 128 false [] [] 0 [] None.

Definition page32_config : Config :=
  mkConfig 32 4 1 1024 None false false false (fun _ => true) (inr FCFS) (1#2)%Q (1#10)%Q (1#100)%Q 1 160 None true true.

Definition page32_scheduler : Scheduler (A := Paged.t) :=
  mkScheduler (mkMemory page32_rows page32_pool (RadixTree (init_RadixCache Z.of_nat 32 false false)))
    [] (mkSBatch page32_batch false false None None) None None (1#2)%Q 0 (init_RadixCache Z.of_nat 1 false false) [].

(** With pages larger than [retract_decode_steps] the memory left by a
    retraction need not suffice for the next decoding step.  In this state
    every page is free or held by one request, one page is free and each of
    the four requests needs a new page; [retract_decode] retracts one request
    and stops with two free pages for the three others, since 64 free tokens
    cover 3 * 20; [update_running_batch] then fails with out of memory,
    although retracting a second request would have been enough. *)
Theorem scheduler_decode_large_pages_oom :
  Own.owned page32_pool [1; 2; 3; 4] ∧ Paged.available_size page32_pool = 32 ∧
  (∃ retracted ratio b m, retract_decode (ps := 32) (H0 := paged_kv 32) demo_hash None 32 page32_batch (mem page32_scheduler)
      = Ok (retracted, ratio, b, m) ∧ len retracted = 1 ∧ len (reqs b) = 3 ∧
      Paged.available_size (token_to_kv_pool_allocator m) = 64) ∧
  update_running_batch (ps := 32) (H0 := paged_kv 32) (H1 := paged_batch_allocator (fun _ => 0) (fun _ => 0))
    demo_hash page32_config (running_batch page32_scheduler) page32_scheduler = Raise RuntimeError.
Proof.
  split; [split; [vm_compute; apply (Permutation_app_comm [5] [1; 2; 3; 4])|reflexivity|reflexivity]|]. split; [reflexivity|].
  split; [|vm_compute; reflexivity].
  eexists _, _, _, _. split; [vm_compute; reflexivity|]. split; [reflexivity|split; reflexivity].
Qed.
