(* ===== verification/LiveRows.v ===== *)
(** * The requests of a batch that go on

    Finished requests stay in a batch until [filter_batch] drops them.  The
    rows of the others determine what the batch holds; filtering leaves
    exactly these rows, ready for the next decoding step. *)

From Stdlib Require Import QArith.
From S2P Require Import Prelude Allocator PagedAllocator PagedProofs SWAAllocator ReqPool SamplingParams Request KVAllocator.
From S2P Require Import RadixCache RadixInv RadixOwn RadixEvict SchedulePolicy PrefixCache PrefillAdder ScheduleBatch TreeCache Scheduler.
From S2P Require Import BatchKernels BatchMemory MemoryAccount BatchRetract BatchDecode SchedulerDecode.
Open Scope Z_scope.

Abbreviation row := (Req.t * (Z * (Z * Z)))%type.

(** ** Live requests *)

Definition unfinished (rs : list Req.t) (i : nat) : Prop := Req.finished <$> rs !! i = Some false.
#[export] Instance unfinished_dec rs i : Decision (unfinished rs i).
Proof. unfold unfinished. apply _. Defined.

Definition live (rs : list Req.t) : list nat := filter (unfinished rs) (seq 0 (length rs)).

Definition live_rows (b : ScheduleBatch) : list row := filter (fun x => Req.finished x.1 = false) (rows b).

(** A request that was rejected is finished before it gets its one token; it
    holds memory until then. *)
Definition spent (r : Req.t) : bool := Req.finished r && negb (bool_decide (Req.output_ids r = [])).
Definition held_rows (b : ScheduleBatch) : list row := filter (fun x => spent x.1 = false) (rows b).

(** [filter_batch] keeps the requests that go on. *)
Lemma keep_live rs : default_keep (fun _ => false) rs = live rs.
Proof.
  unfold default_keep, live.
  assert (∀ k (l : list Req.t), (∀ j, rs !! (k + j)%nat = l !! j) →
    (filter (fun ir : nat * Req.t => negb (Req.finished ir.2) && negb false = true) (zip (seq k (length l)) l)).*1
    = filter (unfinished rs) (seq k (length l))) as Hk; [|by apply (Hk 0%nat rs)].
  intros k l. revert k. induction l as [|r l IH]; intros k Hl; [done|]. csimpl. rewrite !filter_cons.
  assert (rs !! k = Some r) as Er by (specialize (Hl 0%nat); by rewrite Nat.add_0_r in Hl).
  assert (unfinished rs k ↔ Req.finished r = false) as Hu.
  { unfold unfinished. rewrite Er. simpl. split; [intros E; by injection E|by intros ->]. }
  rewrite <-(IH (S k)) by (intros j; replace (S k + j)%nat with (k + S j)%nat by lia; apply (Hl (S j))).
  destruct (decide (unfinished rs k)) as [D|D]; rewrite Hu in D.
  - rewrite decide_True by (simpl; by rewrite D). done.
  - rewrite decide_False by (simpl; by destruct (Req.finished r)). done.
Qed.

Lemma live_lt rs : Forall (fun i => (i < length rs)%nat) (live rs).
Proof. apply Forall_forall. intros i [_ Hi%elem_of_seq]%list_elem_of_filter. lia. Qed.

Lemma filter_full {X} (P : X → Prop) `{∀ x, Decision (P x)} (l : list X) : length (filter P l) = length l → filter P l = l.
Proof.
  induction l as [|x l IH]; [done|]. rewrite filter_cons. case_decide; simpl; intros E.
  - f_equal. apply IH. lia.
  - pose proof (length_filter P l). lia.
Qed.

(** By index and by row. *)
Lemma live_picked b : batch_wf b → picked b (live (reqs b)) = live_rows b.
Proof.
  intros W. unfold picked, live, live_rows. destruct (rows_fields b W) as (F1 & _).
  assert (∀ k l, drop k (rows b) = l →
    omap (fun i => rows b !! i) (filter (unfinished (reqs b)) (seq k (length l))) = filter (fun x => Req.finished x.1 = false) l) as Hk.
  { intros k l. revert k. induction l as [|x l IH]; intros k Hd; [done|]. csimpl. rewrite !filter_cons.
    assert (rows b !! k = Some x) as Ex by (rewrite <-(Nat.add_0_r k), <-lookup_drop, Hd; done).
    rewrite <-(IH (S k)) by (rewrite <-Nat.add_1_r, <-drop_drop, Hd; done).
    assert (unfinished (reqs b) k ↔ Req.finished x.1 = false) as Hu.
    { unfold unfinished. rewrite <-F1, list_lookup_fmap, Ex. simpl. split; [intros E; by injection E|by intros ->]. }
    destruct (decide (unfinished (reqs b) k)) as [D|D]; rewrite Hu in D.
    - rewrite decide_True by done. csimpl. by rewrite Ex.
    - by rewrite decide_False by done. }
  rewrite <-(Hk 0%nat (rows b)) by done. by rewrite <-F1, length_fmap.
Qed.

Lemma live_reqs b : batch_wf b → (live_rows b).*1 = filter (fun r => Req.finished r = false) (reqs b).
Proof.
  intros W. destruct (rows_fields b W) as (F1 & _). rewrite <-F1. unfold live_rows. clear.
  induction (rows b) as [|x l IH]; [done|]. csimpl. rewrite !filter_cons. case_decide; csimpl; by rewrite IH.
Qed.

Lemma live_rows_nil b : batch_wf b → live_rows b = [] ↔ live (reqs b) = [].
Proof.
  intros W. rewrite <-(live_picked b W). split; [|by intros ->]. intros E. apply (f_equal length) in E.
  rewrite (picked_length b) in E by (done || apply live_lt). by apply length_zero_iff_nil.
Qed.

Lemma live_rows_app b1 b2 b : rows b = rows b1 ++ rows b2 → live_rows b = live_rows b1 ++ live_rows b2.
Proof. intros E. unfold live_rows. by rewrite E, filter_app. Qed.

Lemma filter_live_id b :
  filter (fun x => Req.finished x.1 = false) (live_rows b) = live_rows b.
Proof.
  unfold live_rows. induction (rows b) as [|x l IH]; [done|]. rewrite !filter_cons. case_decide; [|done].
  rewrite filter_cons, decide_True by done. by f_equal.
Qed.

(** ** Filtering *)

(** Filtering a batch with live requests leaves their rows. *)
Lemma filter_live b o :
  batch_wf b → output_ids b = Some o → live_rows b ≠ [] →
  ∃ b', filter_batch (live (reqs b)) b = Ok b' ∧ batch_wf b' ∧ enable_overlap b' = enable_overlap b ∧
    rows b' = live_rows b ∧ is_Some (output_ids b').
Proof.
  intros W Ho Hne. assert (live (reqs b) ≠ []) as Hl by (by rewrite <-live_rows_nil).
  destruct (filter_batch_ok b (live (reqs b)) o W Ho Hl (live_lt _)) as (b2 & Ef & W2 & Hov2 & Hsame & Hsel).
  exists b2. split; [done|]. split; [done|]. split; [done|]. rewrite <-(live_picked b W).
  destruct (decide (length (live (reqs b)) = length (reqs b))) as [Ek|Ek].
  - rewrite (Hsame Ek). assert (live (reqs b) = seq 0 (length (reqs b))) as ->.
    { apply filter_full. by rewrite length_seq. }
    rewrite picked_all by done. split; [done|by exists o].
  - destruct (Hsel Ek) as (_ & -> & ->). eauto.
Qed.

Section ready.
Context (ps : nat) (Hps : (0 < ps)%nat).
#[local] Instance lrkv : KVAllocator ps Paged.t := paged_kv ps.
Implicit Types (m : memory Paged.t) (b : ScheduleBatch) (c : RadixCache) (G : gmap nat path).

(** The condition for retraction, by rows. *)
Definition rows_retractable m c G (xs : list row) (oH : list nat) (other : list (list Z)) : Prop :=
  let p := req_to_token_pool m in
  (∀ x, x ∈ xs → row_own ps p x ≠ []) ∨
  (∀ x, x ∈ xs → zsum ((fun h => len (default [] (G !! h))) <$> row_node x :: oH) + Z.of_nat ps * len (row_own ps p x ++ other) <
     kv_available (token_to_kv_pool_allocator m) + evictable_size c + protected_size c
     + Z.of_nat ps * len ((xs ≫= row_own ps p) ++ other)).

Lemma rows_retractable_ok m b c G oH other :
  batch_wf b → Forall (fun x => Req.req_pool_idx x.1 = Some x.2.1) (rows b) → rows_retractable m c G (rows b) oH other →
  retractable (ps := ps) b (ReqPool.req_to_token (req_to_token_pool m)) None m c G (seq 0 (length (reqs b))) oH other.
Proof using.
  clear Hps. intros W Hx Hr. set (tbl := ReqPool.req_to_token (req_to_token_pool m)).
  assert (∀ i, i ∈ seq 0 (length (reqs b)) → ∃ x, x ∈ rows b ∧ node_of b i = row_node x ∧
    own_of (ps := ps) b tbl i = row_own ps (req_to_token_pool m) x) as Hrow.
  { intros i Hi%elem_of_seq. destruct (rows_some b i W) as [x Ex]; [lia|]. exists x. split; [by eapply list_elem_of_lookup_2|].
    destruct (rows_lookup b i x W Ex) as [E1 E2]. split; [unfold node_of, row_node; by rewrite E1|].
    unfold own_of. rewrite E1, E2, (Forall_lookup_1 _ _ _ _ Hx Ex). done. }
  destruct Hr as [Ho|Hf]; [left|right; split; [done|]]; intros i Hi; destruct (Hrow i Hi) as (x & Hin & En & Eo).
  - rewrite Eo. by apply Ho.
  - unfold footprint, capacity. rewrite En, Eo. specialize (Hf x Hin).
    pose proof (picked_own ps b (req_to_token_pool m) _ W Hx (indices_all b)) as E. fold tbl in E. rewrite E, (picked_all b W). exact Hf.
Qed.

(** What a row needs for the next step. *)
Record next_row m (G : gmap nat path) (x : row) : Prop := mk_next_row {
  nr_dec : decodable ps false (req_to_token_pool m) x;
  nr_attached : attached ps G x.1;
  nr_max : ∃ k, SamplingParams.max_new_tokens (Req.sampling_params x.1) = Some k ∧ 0 < k;
}.

Lemma filter_ready m b c G oH other o :
  batch_wf b → output_ids b = Some o → enable_overlap b = false → ReqPool.wf (req_to_token_pool m) →
  live_rows b ≠ [] → NoDup ((fun x => x.2.1) <$> live_rows b) → Forall (next_row m G) (live_rows b) →
  radix_mem m c G ((row_node <$> live_rows b) ++ oH) ((live_rows b ≫= row_own ps (req_to_token_pool m)) ++ other) →
  rows_retractable m c G (live_rows b) oH other →
  ∃ b', filter_batch (default_keep (fun _ => false) (reqs b)) b = Ok b' ∧ enable_overlap b' = false ∧
    rows b' = live_rows b ∧ decode_ready ps m b' c G oH other.
Proof using.
  clear Hps. intros W Ho Hov Hw Hne Hnd Hx M Hr. rewrite keep_live.
  destruct (filter_live b o W Ho Hne) as (b' & E & W' & Hov' & Er & Ho'). exists b'. split; [done|]. rewrite Hov'. split; [done|].
  split; [done|]. destruct (rows_fields b' W') as (F1 & F2 & _). rewrite <-Er in *.
  assert (Forall (decodable ps false (req_to_token_pool m)) (rows b')) as Hd by (eapply Forall_impl; [exact Hx|]; by intros x []).
  split; try done.
  - intros En. rewrite En in F1. by apply fmap_nil_inv in F1.
  - by rewrite <-F2.
  - by rewrite Hov', Hov.
  - apply running_all; [done|by eapply decodable_idx|done].
  - apply rows_retractable_ok; [done|by eapply decodable_idx|done].
  - rewrite <-F1. apply Forall_fmap. eapply Forall_impl; [exact Hx|]. by intros x [].
  - rewrite <-F1. apply Forall_fmap. eapply Forall_impl; [exact Hx|]. by intros x [].
Qed.

End ready.
