(* ===== verification/OutputProcessor.v ===== *)
(** * Processing the results of a batch

    Models [srt/managers/scheduler_output_processor_mixin.py]
    ([process_batch_result_prefill] and [process_batch_result_decode]),
    [Scheduler.abort_request] and the body of [Scheduler.event_loop_normal]
    ([scheduler.py]).  Left out: log probabilities and hidden states, which are
    only handed to the output, the output stream, and statistics. *)

From Stdlib Require Import QArith.
From S2P Require Import Prelude Allocator PagedAllocator SWAAllocator ReqPool SamplingParams Request KVAllocator FreeGroups RadixCache.
From S2P Require Import RadixEvict RadixReq ChunkCache SchedulePolicy PrefixCache PrefillAdder ScheduleBatch TreeCache Scheduler.
Open Scope Z_scope.

Section process.
Context (hash : list Z → Z) (clock : nat → Z) (garbage : Z → Z) `{HeapQ}.
Context (torch_garbage : nat → list Z) (shuffle : list Req.t → list Req.t).
Context {ps : nat} {A : Type} `{FreeGroups ps A} `{BatchAllocator A}.
Context (cfg : Config).
(** A request's grammar object accepts a token and answers [is_terminated()],
    or raises [ValueError]. *)
Context (accept_token : Req.t → Z → option bool).
Abbreviation sched := (Scheduler (A := A)).
Implicit Types (s : sched) (rs : list Req.t).

(** ** Aborting *)

(** [recv_req.abort_all or req.rid.startswith(recv_req.rid)] *)
Definition abort_matches (recv_req : AbortReq) (r : Req.t) : bool :=
  abort_all recv_req || String.prefix (abort_rid recv_req) (Req.rid r).

Definition mark_abort (recv_req : AbortReq) (r : Req.t) : Req.t :=
  if negb (Req.finished r) && abort_matches recv_req r then Req.set_to_abort true r else r.

(** The batch with its requests updated in place. *)
Definition map_reqs (f : list Req.t → list Req.t) (B : Batch) : Batch :=
  with_sb (with_reqs (f (reqs (sb B))) (sb B)) B.

(** Without disaggregation and hierarchical cache.  [cur] are the requests of
    [cur_batch]; the model returns them next to the scheduler, and the ids it
    reports to the tokenizer.  The grammar queue is not part of this state:
    [cancel_grammars] is what becomes of it. *)
Definition abort_request (recv_req : AbortReq) (cur : list Req.t) s : list string * list Req.t * sched :=
  let queue := waiting_queue s in
  let sent := reverse (Req.rid <$> filter (fun r => abort_matches recv_req r = true) queue) in
  let s := with_queue (filter (fun r => abort_matches recv_req r = false) queue) s in
  (sent, mark_abort recv_req <$> cur,
   with_running (map_reqs (fmap (mark_abort recv_req)) (running_batch s)) s).

(** ** Caching *)

(** [self.tree_cache.cache_finished_req(req)] *)
Definition cache_finished (r : Req.t) s : pyres sched :=
  let m := mem s in
  match tree_cache m with
  | NoTree => Raise AttributeError
  | ChunkTree =>
      '(pool, a) ← ChunkCache.cache_finished_req r (req_to_token_pool m) (token_to_kv_pool_allocator m);
      mret (with_mem (mkMemory pool a ChunkTree) s)
  | RadixTree c =>
      '(c, pool, a) ← cache_finished_req hash clock r c (req_to_token_pool m) (token_to_kv_pool_allocator m);
      mret (with_mem (mkMemory pool a (RadixTree c)) s)
  end.

(** [self.tree_cache.cache_unfinished_req(req)] *)
Definition cache_unfinished (r : Req.t) s : pyres (Req.t * sched) :=
  let m := mem s in
  match tree_cache m with
  | NoTree => Raise AttributeError
  | ChunkTree =>
      r ← ChunkCache.cache_unfinished_req r (req_to_token_pool m);
      mret (r, s)
  | RadixTree c =>
      '(r, c, pool, a) ← cache_unfinished_req hash clock r c (req_to_token_pool m) (token_to_kv_pool_allocator m);
      mret (r, with_mem (mkMemory pool a (RadixTree c)) s)
  end.

(** [self.token_to_kv_pool_allocator.free(batch.out_cache_loc[j : j + 1])] *)
Definition free_delayed (b : ScheduleBatch) (j : Z) s : pyres sched :=
  match out_cache_loc b with
  | None => Raise TypeError
  | Some out =>
      let m := mem s in
      a ← kv_free out.[j :: j + 1] (token_to_kv_pool_allocator m);
      mret (with_mem (mkMemory (req_to_token_pool m) a (tree_cache m)) s)
  end.

Definition append_output (token : Z) (r : Req.t) : Req.t :=
  Req.set_output_ids (Req.output_ids r ++ [token]) r.

(** [req.grammar.accept_token(next_token_id)] of request [i]; a [ValueError]
    aborts the request.  The abort is noted with the ids that it reports. *)
Definition grammar_accept (i : nat) (token : Z) (r : Req.t) rs s : list Req.t * sched :=
  match Req.grammar r with
  | None => (rs, s)
  | Some _ =>
      match accept_token r token with
      | Some terminated => (<[i := Req.set_grammar (Some terminated) r]> rs, s)
      | None =>
          let a := mkAbort (Req.rid r) false in
          let '(ids, rs, s) := abort_request a rs s in
          (rs, with_aborts (aborts s ++ [(a, ids)]) s)
      end
  end.

(** ** Decoding *)

(** One iteration of the loop over [zip(batch.reqs, next_token_ids)]: [rs] are
    the requests of the batch as they are now. *)
Definition decode_one (b : ScheduleBatch) (i : nat) (token : Z) rs s : pyres (list Req.t * sched) :=
  match rs !! i with
  | None => mret (rs, s)
  | Some r =>
      if Req.is_retracted r then mret (rs, s) else
      if cfg_enable_overlap cfg && Req.finished r then
        if cfg_page_size cfg =? 1 then
          s ← free_delayed b (Z.of_nat i) s;
          mret (rs, s)
        else if (len (Req.origin_input_ids r) + len (Req.output_ids r) - 1) mod cfg_page_size cfg =? 0 then
          s ← free_delayed b (Z.of_nat i) s;
          mret (rs, s)
        else mret (rs, s)
      else
        let spec_none := bool_decide (spec_algorithm cfg = None) in
        let r := if spec_none then append_output token r else r in
        r ← Req.check_finished r;
        s ← (if Req.finished r then cache_finished r s else mret s);
        let rs := <[i := r]> rs in
        mret (if spec_none then grammar_accept i token r rs s else (rs, s))
  end.

Fixpoint decode_loop (b : ScheduleBatch) (i : nat) (tokens : list Z) rs s : pyres (list Req.t * sched) :=
  match tokens with
  | [] => mret (rs, s)
  | token :: tokens =>
      '(rs, s) ← decode_one b i token rs s;
      decode_loop b (S i) tokens rs s
  end.

Definition with_allocator (a : A) s : sched :=
  with_mem (mkMemory (req_to_token_pool (mem s)) a (tree_cache (mem s))) s.

(** The batch is [self.running_batch]. *)
Definition process_batch_result_decode (B : Batch) (next_token_ids : list Z) s : pyres (Batch * sched) :=
  let s := with_allocator (fg_begin (token_to_kv_pool_allocator (mem s))) s in
  '(rs, s) ← decode_loop (sb B) 0 next_token_ids (reqs (sb B)) s;
  a ← fg_end (token_to_kv_pool_allocator (mem s));
  let B := map_reqs (fun _ => rs) B in
  mret (B, with_running B (with_allocator a s)).

(** ** Prefill *)

(** [req not in batch.decoding_reqs]; requests are compared by their ids. *)
Definition not_decoding (B : Batch) (r : Req.t) : bool :=
  match decoding_reqs B with
  | None => true
  | Some l => bool_decide (Req.rid r ∉ Req.rid <$> l)
  end.

Definition prefill_one (B : Batch) (i : nat) (token : Z) rs s : pyres (list Req.t * sched) :=
  match rs !! i with
  | None => mret (rs, s)
  | Some r =>
      if Req.is_retracted r then mret (rs, s) else
      if is_mixed_chunk cfg && cfg_enable_overlap cfg && Req.finished r then
        s ← free_delayed (sb B) (len (default [] (out_cache_loc (sb B))) - len rs + Z.of_nat i) s;
        mret (rs, s)
      else if Req.is_chunked r <=? 0 then
        r ← Req.check_finished (append_output token r);
        '(r, s) ←
          (if Req.finished r then s ← cache_finished r s; mret (r, s)
           else if not_decoding B r then cache_unfinished r s
           else mret (r, s));
        mret (grammar_accept i token r (<[i := r]> rs) s)
      else mret (<[i := Req.set_is_chunked (Req.is_chunked r - 1) r]> rs, s)
  end.

(** An embedding or reward model: no token is generated. *)
Definition embed_one (i : nat) rs s : pyres (list Req.t * sched) :=
  match rs !! i with
  | None => mret (rs, s)
  | Some r =>
      if Req.is_retracted r then mret (rs, s) else
      if Req.is_chunked r <=? 0 then
        r ← Req.check_finished (append_output 0 r);
        '(r, s) ← (if Req.finished r then s ← cache_finished r s; mret (r, s) else cache_unfinished r s);
        mret (<[i := r]> rs, s)
      else mret (<[i := Req.set_is_chunked (Req.is_chunked r - 1) r]> rs, s)
  end.

Fixpoint prefill_loop (B : Batch) (i : nat) (tokens : list Z) rs s : pyres (list Req.t * sched) :=
  match tokens with
  | [] => mret (rs, s)
  | token :: tokens =>
      '(rs, s) ← prefill_one B i token rs s;
      prefill_loop B (S i) tokens rs s
  end.

Fixpoint embed_loop (idxs : list nat) rs s : pyres (list Req.t * sched) :=
  match idxs with
  | [] => mret (rs, s)
  | i :: idxs => '(rs, s) ← embed_one i rs s; embed_loop idxs rs s
  end.

(** [next_token_ids] is [None] for an embedding model.  The chunked request of
    the scheduler is an object of the batch. *)
Definition process_batch_result_prefill (B : Batch) (next_token_ids : option (list Z)) s : pyres (Batch * sched) :=
  '(rs, s) ←
    (match next_token_ids with
     | Some tokens => prefill_loop B 0 tokens (reqs (sb B)) s
     | None => embed_loop (seq 0 (length (reqs (sb B)))) (reqs (sb B)) s
     end);
  mret (map_reqs (fun _ => rs) B, with_chunked (object_in rs <$> chunked_req s) s).

(** ** The event loop *)

Definition with_output_ids (o : option (list Z)) (b : ScheduleBatch) : ScheduleBatch :=
  mkBatch (reqs b) (forward_mode b) (enable_overlap b) (input_ids b) (req_pool_indices b) (seq_lens b)
    (orig_seq_lens b) (out_cache_loc b) o (seq_lens_sum b) (return_logprob b)
    (prefix_lens b) (extend_lens b) (extend_num_tokens b) (extend_logprob_start_lens b)
    (extend_input_logprob_token_ids b).

(** [run_batch]: the model worker samples one token per request, or computes
    embeddings. *)
Context (forward : Batch → option (list Z)).

Definition run_batch (B : Batch) : option (list Z) * Batch :=
  let result := forward B in
  match result with
  | Some tokens =>
      (result, with_sb (with_output_ids (Some tokens) (sb B)) B)
  | None => (result, B)
  end.

Definition process_batch_result (B : Batch) (result : option (list Z)) s : pyres (Batch * sched) :=
  match forward_mode (sb B), result with
  | Some DECODE, Some tokens => process_batch_result_decode B tokens s
  | Some EXTEND, _ | Some MIXED, _ => process_batch_result_prefill B result s
  | _, _ => mret (B, s)
  end.

(** One iteration of [event_loop_normal], after the new requests are in the
    queue. *)
Definition event_loop_step s : pyres sched :=
  '(batch, s) ← get_next_batch_to_run hash clock garbage torch_garbage shuffle cfg s;
  match batch with
  | Some B =>
      let '(result, B) := run_batch B in
      '(B, s) ← process_batch_result B result s;
      mret (with_last (Some B) s)
  | None =>
      check_memory cfg s;;
      mret (with_last None (with_ratio (init_new_token_ratio cfg) s))
  end.

(** [_add_request_to_queue], without disaggregation and hierarchical cache. *)
Definition _add_request_to_queue (r : Req.t) s : sched := with_queue (waiting_queue s ++ [r]) s.

(** [event_loop_normal]; [received] are the requests that arrive before each
    iteration. *)
Fixpoint event_loop_normal (received : list (list Req.t)) s : pyres sched :=
  match received with
  | [] => mret s
  | rs :: received =>
      s ← event_loop_step (foldl (fun s r => _add_request_to_queue r s) s rs);
      event_loop_normal received s
  end.

End process.
