(* ===== verification/PoolFrame.v ===== *)
(** * The size of the KV pool

    No operation of the scheduler changes the number of pages its allocator
    manages: a frame for all operations that go through the memory. *)

From Stdlib Require Import QArith.
From S2P Require Import Prelude Allocator PagedAllocator SWAAllocator ReqPool SamplingParams Request KVAllocator FreeGroups.
From S2P Require Import RadixCache RadixEvict RadixReq ChunkCache SchedulePolicy PrefixCache PrefillAdder ScheduleBatch TreeCache Scheduler OutputProcessor.
Open Scope Z_scope.

(** An allocator of a fixed number of pages. *)
Class PoolSize (ps : nat) (A : Type) `{FreeGroups ps A} `{BatchAllocator A} := {
  num_pages : A → Z;
  size_free : ∀ idx a a', kv_free idx a = Ok a' → num_pages a' = num_pages a;
  size_alloc : ∀ n a o a', ba_alloc n a = Ok (o, a') → num_pages a' = num_pages a;
  size_extend : ∀ pre seq last n a o a', ba_alloc_extend pre seq last n a = Ok (o, a') → num_pages a' = num_pages a;
  size_decode : ∀ seq last a o a', ba_alloc_decode seq last a = Ok (o, a') → num_pages a' = num_pages a;
  size_begin : ∀ a, num_pages (fg_begin a) = num_pages a;
  size_end : ∀ a a', fg_end a = Ok a' → num_pages a' = num_pages a;
}.

Lemma merge_size n a : Base.size (Base.merge_if_short n a) = Base.size a.
Proof. unfold Base.merge_if_short, Base.merge_and_sort_free. by repeat case_match. Qed.

Lemma token_free_size idx a : Base.size (Token.free idx a) = Base.size a.
Proof. unfold Token.free. by repeat case_match. Qed.

#[export] Program Instance token_size : PoolSize 1 Base.t := {| num_pages := Base.size |}.
Next Obligation. intros idx a a' E. injection E as <-. apply token_free_size. Qed.
Next Obligation.
  intros n a o a' E. assert (a' = snd (Token.alloc n a)) as -> by (by injection E as ->).
  unfold Token.alloc. case_match; simpl; apply merge_size.
Qed.
Next Obligation. done. Qed.
Next Obligation. done. Qed.
Next Obligation. done. Qed.
Next Obligation.
  intros a a' E. injection E as <-. unfold Base.free_group_end. simpl. case_match; [done|]. by rewrite token_free_size.
Qed.

#[export] Program Instance paged_size (garbage tl_other : Z → Z) (ps : nat) :
    @PoolSize ps Paged.t _ (paged_groups ps) (paged_batch_allocator garbage tl_other) :=
  {| num_pages := Paged.num_pages |}.
Next Obligation. intros g t ps idx a a' E. by destruct (paged_free_frame _ _ _ E) as (_ & -> & _). Qed.
Next Obligation.
  intros g t ps n a o a' E. simpl in E. unfold Paged.alloc in E. apply pyres_bind_ok in E as (_ & _ & E). simpl in E.
  case_match; by injection E as _ <-.
Qed.
Next Obligation.
  intros g t ps pre seq last n a o a' E. simpl in E. unfold Paged.alloc_extend in E.
  apply pyres_bind_ok in E as (_ & _ & E). destruct (launch _ _) as [st rt]. apply pyres_bind_ok in E as (_ & _ & E). simpl in E.
  case_match; by injection E as _ <-.
Qed.
Next Obligation.
  intros g t ps seq last a o a' E. simpl in E. unfold Paged.alloc_decode in E.
  apply pyres_bind_ok in E as (_ & _ & E). destruct (launch _ _) as [st rt]. apply pyres_bind_ok in E as (_ & _ & E). simpl in E.
  case_match; by injection E as _ <-.
Qed.
Next Obligation. done. Qed.
Next Obligation.
  intros g t ps a a' E. simpl in E. unfold Paged.free_group_end in E. simpl in E. case_match; [by injection E as <-|].
  by destruct (paged_free_frame _ _ _ E) as (_ & -> & _).
Qed.

(** Take a successful run apart. *)
Ltac ok_inv E :=
  repeat match type of E with
  | mbind _ _ = Ok _ => let x := fresh "x" in let E' := fresh "E" in apply pyres_bind_ok in E as (x & E' & E); cbn beta iota in E
  | (match ?x with _ => _ end) = Ok _ => let Ex := fresh "Ex" in destruct x eqn:Ex; try discriminate E
  | mret _ = Ok _ => injection E as E; subst
  | Ok _ = Ok _ => injection E as E; subst
  | Raise _ = Ok _ => discriminate E
  end.

Section frame.
Context (hash : list Z → Z) (clock : nat → Z) (garbage : Z → Z) `{HeapQ} {ps : nat} {A : Type} `{PoolSize ps A}.
Context (cfg : Config) (accept_token : Req.t → Z → option bool).
Abbreviation sched := (Scheduler (A := A)).
Implicit Types (m : memory A) (s : sched).

Definition mem_pages m : Z := num_pages (token_to_kv_pool_allocator m).

Lemma evict_loop_size fuel : ∀ n k leaves c (a : A) c' a',
  evict_loop hash fuel n k leaves c a = Ok (c', a') → num_pages a' = num_pages a.
Proof.
  induction fuel as [|fuel IH]; intros n k leaves c a c' a' E; simpl in E; ok_inv E; try done.
  - by eapply IH.
  - apply IH in E. rewrite E. by eapply size_free.
Qed.

Lemma evict_if_needed_size n m m' : _evict_tree_cache_if_needed hash n m = Ok m' → mem_pages m' = mem_pages m.
Proof.
  unfold _evict_tree_cache_if_needed. intros E. ok_inv E; try done. unfold evict in E0. ok_inv E0; [done|].
  unfold mem_pages. simpl. by eapply evict_loop_size.
Qed.

Lemma retract_one_size pg l r kept m m' : retract_one hash pg l r kept m = Ok m' → mem_pages m' = mem_pages m.
Proof.
  unfold retract_one. intros E. ok_inv E.
  - unfold mem_pages. simpl. by eapply size_free.
  - apply evict_if_needed_size in E. rewrite E. unfold mem_pages. simpl. by eapply size_free.
Qed.

Lemma retract_loop_size spec pg b fuel : ∀ first l ret m l' ret' m',
  retract_loop hash fuel spec pg b first l ret m = Ok (l', ret', m') → mem_pages m' = mem_pages m.
Proof.
  induction fuel as [|fuel IH]; intros first l ret m l' ret' m' E; cbn [retract_loop] in E; ok_inv E; try done.
  apply IH in E. rewrite E. by eapply retract_one_size.
Qed.

Lemma retract_decode_size spec pg b m ret q b' m' :
  retract_decode hash spec pg b m = Ok (ret, q, b', m') → mem_pages m' = mem_pages m.
Proof. unfold retract_decode. intros E. ok_inv E. by eapply retract_loop_size. Qed.

Lemma check_decode_size n b m ok m' : check_decode_mem hash n b m = Ok (ok, m') → mem_pages m' = mem_pages m.
Proof. unfold check_decode_mem. intros E. ok_inv E. by eapply evict_if_needed_size. Qed.

Lemma alloc_token_size n k m out st m' : alloc_token_slots hash n k m = Ok (out, st, m') → mem_pages m' = mem_pages m.
Proof.
  unfold alloc_token_slots, finish_alloc. intros E. ok_inv E.
  erewrite <-(evict_if_needed_size _ m) by done. unfold mem_pages. simpl. by eapply size_alloc.
Qed.

Lemma alloc_paged_extend_size pre seq last n k m out st m' :
  alloc_paged_token_slots_extend hash pre seq last n k m = Ok (out, st, m') → mem_pages m' = mem_pages m.
Proof.
  unfold alloc_paged_token_slots_extend, finish_alloc. intros E. ok_inv E.
  erewrite <-(evict_if_needed_size _ m) by done. unfold mem_pages. simpl. by eapply size_extend.
Qed.

Lemma alloc_paged_decode_size seq last k m out st m' :
  alloc_paged_token_slots_decode hash seq last k m = Ok (out, st, m') → mem_pages m' = mem_pages m.
Proof.
  unfold alloc_paged_token_slots_decode, finish_alloc. intros E. ok_inv E.
  erewrite <-(evict_if_needed_size _ m) by done. unfold mem_pages. simpl. by eapply size_decode.
Qed.

Lemma prepare_for_decode_size e b m b' m' : prepare_for_decode hash e b m = Ok (b', m') → mem_pages m' = mem_pages m.
Proof.
  unfold prepare_for_decode. intros E. ok_inv E; [done|]. unfold mem_pages. simpl. fold (mem_pages m).
  ok_inv E0; [by eapply alloc_token_size|by eapply alloc_paged_decode_size].
Qed.

Lemma prepare_for_extend_size t1 t2 b m b' m' : prepare_for_extend hash garbage t1 t2 b m = Ok (b', m') → mem_pages m' = mem_pages m.
Proof.
  unfold prepare_for_extend. intros E. apply pyres_bind_ok in E as ([idxs m1] & E0 & E).
  assert (mem_pages m1 = mem_pages m) as <- by (unfold alloc_req_slots in E0; by ok_inv E0).
  apply pyres_bind_ok in E as ([rs p] & _ & E). apply pyres_bind_ok in E as ([[out st] m2] & E2 & E).
  trans (mem_pages m2); [by ok_inv E|]. trans (mem_pages (with_pool p m1)); [|done].
  clear E. ok_inv E2; eauto using alloc_token_size, alloc_paged_extend_size.
Qed.

Lemma cache_finished_req_size r c pool (a : A) c' pool' a' :
  cache_finished_req hash clock r c pool a = Ok (c', pool', a') → num_pages a' = num_pages a.
Proof.
  unfold cache_finished_req. intros E. ok_inv E; try (by eapply size_free).
  all: ok_inv E1; repeat match goal with E' : kv_free _ _ = Ok _ |- _ => apply size_free in E' end; congruence.
Qed.

Lemma cache_unfinished_req_size r c pool (a : A) r' c' pool' a' :
  cache_unfinished_req hash clock r c pool a = Ok (r', c', pool', a') → num_pages a' = num_pages a.
Proof. unfold cache_unfinished_req. intros E. ok_inv E; [done|]. by eapply size_free. Qed.

Lemma cache_finished_size r s s' : cache_finished hash clock r s = Ok s' → mem_pages (mem s') = mem_pages (mem s).
Proof.
  unfold cache_finished. intros E. ok_inv E; unfold mem_pages; simpl; [|by eapply cache_finished_req_size].
  unfold ChunkCache.cache_finished_req in E0. ok_inv E0. by eapply size_free.
Qed.

Lemma cache_unfinished_size r s r' s' : cache_unfinished hash clock r s = Ok (r', s') → mem_pages (mem s') = mem_pages (mem s).
Proof. unfold cache_unfinished. intros E. ok_inv E; [done|]. by eapply cache_unfinished_req_size. Qed.

Lemma free_delayed_size b j s s' : free_delayed b j s = Ok s' → mem_pages (mem s') = mem_pages (mem s).
Proof. unfold free_delayed. intros E. ok_inv E. by eapply size_free. Qed.

Lemma grammar_accept_mem i t r rs s rs' s' : grammar_accept accept_token i t r rs s = (rs', s') → mem s' = mem s.
Proof. unfold grammar_accept, abort_request. repeat case_match; intros E; by simplify_eq. Qed.

Hint Resolve cache_finished_size cache_unfinished_size free_delayed_size : core.

Lemma decode_one_size b i t rs s rs' s' :
  decode_one hash clock cfg accept_token b i t rs s = Ok (rs', s') → mem_pages (mem s') = mem_pages (mem s).
Proof.
  unfold decode_one. intros E. ok_inv E; eauto.
  trans (mem_pages (mem x0)); [|ok_inv E1; eauto].
  destruct (bool_decide _); [by apply grammar_accept_mem in E as ->|by simplify_eq].
Qed.

Lemma decode_loop_size b tokens : ∀ i rs s rs' s',
  decode_loop hash clock cfg accept_token b i tokens rs s = Ok (rs', s') → mem_pages (mem s') = mem_pages (mem s).
Proof.
  induction tokens as [|t tokens IH]; intros i rs s rs' s' E; simpl in E; ok_inv E; [done|].
  apply IH in E. rewrite E. by eapply decode_one_size.
Qed.

Lemma process_decode_size B tokens s B' s' :
  process_batch_result_decode hash clock cfg accept_token B tokens s = Ok (B', s') → mem_pages (mem s') = mem_pages (mem s).
Proof.
  unfold process_batch_result_decode. intros E. ok_inv E. apply decode_loop_size in E0.
  unfold mem_pages in *. simpl in *. rewrite size_begin in E0. rewrite <-E0. by eapply size_end.
Qed.

Lemma prefill_one_size B i t rs s rs' s' :
  prefill_one hash clock cfg accept_token B i t rs s = Ok (rs', s') → mem_pages (mem s') = mem_pages (mem s).
Proof.
  unfold prefill_one. intros E. ok_inv E; eauto. apply grammar_accept_mem in E as ->. ok_inv E1; eauto.
Qed.

Lemma embed_one_size i rs s rs' s' : embed_one hash clock i rs s = Ok (rs', s') → mem_pages (mem s') = mem_pages (mem s).
Proof. unfold embed_one. intros E. ok_inv E; eauto. ok_inv E1; eauto. Qed.

Lemma prefill_loop_size B tokens : ∀ i rs s rs' s',
  prefill_loop hash clock cfg accept_token B i tokens rs s = Ok (rs', s') → mem_pages (mem s') = mem_pages (mem s).
Proof.
  induction tokens as [|t tokens IH]; intros i rs s rs' s' E; simpl in E; ok_inv E; [done|].
  apply IH in E. rewrite E. by eapply prefill_one_size.
Qed.

Lemma embed_loop_size idxs : ∀ rs s rs' s',
  embed_loop hash clock idxs rs s = Ok (rs', s') → mem_pages (mem s') = mem_pages (mem s).
Proof.
  induction idxs as [|i idxs IH]; intros rs s rs' s' E; simpl in E; ok_inv E; [done|].
  apply IH in E. rewrite E. by eapply embed_one_size.
Qed.

Lemma process_prefill_size B o s B' s' :
  process_batch_result_prefill hash clock cfg accept_token B o s = Ok (B', s') → mem_pages (mem s') = mem_pages (mem s).
Proof.
  unfold process_batch_result_prefill. intros E. ok_inv E. simpl. ok_inv E0; eauto using prefill_loop_size, embed_loop_size.
Qed.

Lemma process_result_size B o s B' s' :
  process_batch_result hash clock cfg accept_token B o s = Ok (B', s') → mem_pages (mem s') = mem_pages (mem s).
Proof.
  unfold process_batch_result. intros E. ok_inv E; eauto using process_decode_size, process_prefill_size.
Qed.

Lemma update_running_size B s B' s' :
  update_running_batch hash cfg B s = Ok (B', s') → mem_pages (mem s') = mem_pages (mem s).
Proof.
  unfold update_running_batch. intros E. ok_inv E; [done|]. apply check_decode_size in E1. apply prepare_for_decode_size in E3.
  simpl. rewrite E3, <-E1. ok_inv E2; [done|]. by eapply retract_decode_size.
Qed.

Lemma park_chunked_size r s r' s' : park_chunked hash clock r s = Ok (r', s') → mem_pages (mem s') = mem_pages (mem s).
Proof. unfold park_chunked. intros E. ok_inv E; [done|]. by eapply cache_unfinished_req_size. Qed.

Lemma merge_last_mem ex L s s' : merge_last ex L s = Ok s' → mem s' = mem s.
Proof. unfold merge_last. intros E. ok_inv E; repeat case_match; done. Qed.

Lemma mix_running_size B s B' s' : mix_running hash cfg B s = Ok (B', s') → mem_pages (mem s') = mem_pages (mem s).
Proof. unfold mix_running. intros E. ok_inv E; [done| |done]. by eapply prepare_for_decode_size. Qed.

Context (torch_garbage : nat → list Z) (shuffle : list Req.t → list Req.t) (forward : Batch → option (list Z)).

Lemma calc_priority_alloc s s' : calc_priority_step hash clock torch_garbage shuffle cfg s = Ok s' →
  mem_pages (mem s') = mem_pages (mem s).
Proof. unfold calc_priority_step. intros E. by ok_inv E. Qed.

Lemma new_prefill_size s o s' :
  get_new_batch_prefill hash clock garbage torch_garbage shuffle cfg s = Ok (o, s') → mem_pages (mem s') = mem_pages (mem s).
Proof.
  unfold get_new_batch_prefill. intros E. destruct (_ && bool_decide _); [by injection E as _ <-|].
  destruct (_ && bool_decide _); [by injection E as _ <-|].
  apply pyres_bind_ok in E as (s1 & E1 & E). rewrite <-(calc_priority_alloc _ _ E1).
  apply pyres_bind_ok in E as (ad & _ & E). apply pyres_bind_ok in E as ([ch ad1] & _ & E).
  apply pyres_bind_ok in E as ([[q ad2] full] & _ & E). destruct (PrefillAdder.can_run_list ad2); [by injection E as _ <-|].
  apply pyres_bind_ok in E as (ch' & _ & E). apply pyres_bind_ok in E as ([nb s2] & E2 & E). injection E as _ <-.
  unfold start_prefill in E2. apply pyres_bind_ok in E2 as ([b m] & E3 & E2).
  rewrite (mix_running_size _ _ _ _ E2). simpl. by rewrite (prepare_for_extend_size _ _ _ _ _ _ E3).
Qed.

Lemma next_batch_size s o s' :
  get_next_batch_to_run hash clock garbage torch_garbage shuffle cfg s = Ok (o, s') → mem_pages (mem s') = mem_pages (mem s).
Proof.
  unfold get_next_batch_to_run. intros E. apply pyres_bind_ok in E as ([ex s1] & E1 & E).
  assert (mem_pages (mem s1) = mem_pages (mem s)) as <- by (ok_inv E1; simpl; eauto using park_chunked_size).
  apply pyres_bind_ok in E as (s2 & E2 & E). assert (mem s2 = mem s1) as <- by (ok_inv E2; eauto using merge_last_mem).
  apply pyres_bind_ok in E as ([nb s3] & E3 & E). rewrite <-(new_prefill_size _ _ _ E3). clear -E.
  ok_inv E; try done; simpl; eauto using update_running_size.
Qed.

(** The pool keeps its size through the whole event loop. *)
Lemma event_loop_size s s' :
  event_loop_step hash clock garbage torch_garbage shuffle cfg accept_token forward s = Ok s' →
  mem_pages (mem s') = mem_pages (mem s).
Proof.
  unfold event_loop_step. intros E. apply pyres_bind_ok in E as ([o s1] & E1 & E). rewrite <-(next_batch_size _ _ _ E1).
  destruct o as [B|]; [|ok_inv E; done]. destruct (run_batch forward B) as [res B']. ok_inv E. simpl. eauto using process_result_size.
Qed.

End frame.
