(* ===== verification/OutputProofs.v ===== *)
(** * Processing a decode batch

    [process_batch_result_decode] keeps the KV memory accounted for: every
    request gets its token, finished requests hand their slots to the tree or
    back to the allocator, and the rest is ready for the next step. *)

From Stdlib Require Import QArith.
From S2P Require Import Prelude Allocator PagedAllocator PagedProofs SWAAllocator ReqPool SamplingParams Request KVAllocator FreeGroups.
From S2P Require Import RadixCache RadixInv RadixOwn RadixInsert RadixLocks RadixEvict RadixReq SchedulePolicy PrefixCache PrefillAdder ScheduleBatch TreeCache Scheduler.
From S2P Require Import BatchKernels BatchMemory MemoryAccount BatchRetract BatchDecode SchedulerDecode LiveRows OutputProcessor.
Open Scope Z_scope.

(** ** Requests *)

(** The fields of a request that say where its memory is. *)
Definition core (r : Req.t) :=
  (Req.rid r, Req.origin_input_ids r, Req.req_pool_idx r, Req.last_node r, Req.prefix_indices r,
   Req.sampling_params r, Req.is_retracted r, Req.tokenizer r, Req.fill_ids r, Req.is_chunked r).

(** Still as it was, up to the mark of an abort. *)
Definition untouched (r0 r : Req.t) : Prop :=
  core r = core r0 ∧ Req.output_ids r = Req.output_ids r0 ∧ Req.finished_reason r = Req.finished_reason r0.

(** One more token; a request that goes on has room for another. *)
Record advanced (r0 r : Req.t) : Prop := mk_advanced {
  ad_core : core r = core r0;
  ad_out : ∃ t, Req.output_ids r = Req.output_ids r0 ++ [t];
  ad_live : Req.finished r = false →
    ∃ k, SamplingParams.max_new_tokens (Req.sampling_params r) = Some k ∧ len (Req.output_ids r) < k;
}.

Lemma check_stop_strs_frame r r' : Req.check_stop_strs r = Ok r' → core r' = core r ∧ Req.output_ids r' = Req.output_ids r.
Proof.
  unfold Req.check_stop_strs. destruct (SamplingParams.stop_strs _); [intros E; by injection E as <-|].
  destruct (Req.tokenizer r); [|done]. destruct (find _ _); intros E; by injection E as <-.
Qed.

Lemma check_finished_frame r r' out t :
  Req.output_ids r = out ++ [t] → Req.check_finished r = Ok r' →
  core r' = core r ∧ ∃ t', Req.output_ids r' = out ++ [t'].
Proof.
  intros Ho. unfold Req.check_finished. destruct (Req.finished r); [intros E; injection E as <-; eauto|].
  destruct (Req.to_abort r); [intros E; injection E as <-; eauto|].
  intros E. apply pyres_bind_ok in E as (m & _ & E). destruct (m <=? _); [injection E as <-; eauto|].
  destruct (bool_decide _).
  { apply pyres_bind_ok in E as (x & _ & E). injection E as <-. eauto. }
  apply pyres_bind_ok in E as (x & _ & E). destruct (_ && _); [injection E as <-; eauto|].
  destruct (_ || _); [|apply check_stop_strs_frame in E as [-> ->]; eauto].
  injection E as <-. destruct (SamplingParams.stop_token_ids _), (Req.eos_token_ids _); (split; [done|]); simpl;
    unfold Req.set_last_output; simpl; rewrite ?Ho, ?removelast_last; simpl; rewrite ?removelast_last; eauto.
Qed.

Lemma check_finished_live r r' : Req.finished r = false → Req.check_finished r = Ok r' → Req.finished r' = false →
  ∃ k, SamplingParams.max_new_tokens (Req.sampling_params r) = Some k ∧ len (Req.output_ids r) < k.
Proof.
  intros Hf. unfold Req.check_finished. rewrite Hf. destruct (Req.to_abort r); [intros E; by injection E as <-|].
  unfold Req.get_max_new_tokens. destruct (SamplingParams.max_new_tokens _) as [k|]; [|done]. simpl.
  destruct (Z.leb_spec k (len (Req.output_ids r))); [intros E; by injection E as <-|]. eauto.
Qed.

(** Appending a token and checking. *)
Lemma append_check_ok r0 r token :
  untouched r0 r → Req.finished r0 = false →
  (∃ k, SamplingParams.max_new_tokens (Req.sampling_params r0) = Some k) →
  SamplingParams.stop_strs (Req.sampling_params r0) = [] ∨ is_Some (Req.tokenizer r0) →
  ∃ r', Req.check_finished (append_output token r) = Ok r' ∧ advanced r0 r'.
Proof.
  intros (Hc & Ho & Hfr) Hf Hk Ht.
  assert (Req.finished r = false) as Hfin by (unfold Req.finished in *; by rewrite Hfr).
  assert (Req.sampling_params r = Req.sampling_params r0 ∧ Req.tokenizer r = Req.tokenizer r0) as [Es Et]
    by (by injection Hc).
  destruct (Req.check_finished_returns (append_output token r)) as (r' & E).
  { unfold Req.checkable, append_output. simpl. rewrite Es, Et. split; [done|]. split; [by intros [_ [=]]%app_nil|done]. }
  exists r'. split; [done|]. destruct (check_finished_frame (append_output token r) r' (Req.output_ids r0) token ltac:(simpl; by rewrite Ho) E) as [Hc' Ho'].
  split; [by rewrite Hc', <-Hc|done|]. intros Hl.
  destruct (check_finished_live (append_output token r) _ Hfin E Hl) as (k & Hk' & Hlt). exists k. simpl in Hk', Hlt. rewrite Ho in Hlt.
  assert (Req.sampling_params r' = Req.sampling_params r) as -> by (by injection Hc'). split; [done|].
  destruct Ho' as [t' ->]. rewrite len_app in *. done.
Qed.

Lemma untouched_refl r : untouched r r.
Proof. done. Qed.

Lemma untouched_trans r0 r r' : untouched r0 r → untouched r r' → untouched r0 r'.
Proof. intros (A1 & A2 & A3) (B1 & B2 & B3). unfold untouched. by rewrite B1, B2, B3. Qed.

Lemma untouched_finished r r' : untouched r r' → Req.finished r' = Req.finished r.
Proof. intros (_ & _ & E). unfold Req.finished. by rewrite E. Qed.

Lemma advanced_untouched r0 r r' : advanced r0 r → untouched r r' → advanced r0 r'.
Proof.
  intros [A1 A2 A3] U. pose proof (untouched_finished _ _ U) as Ef. destruct U as (B1 & B2 & B3).
  split; [congruence|by rewrite B2|]. rewrite Ef, B2. intros Hl. destruct (A3 Hl) as (k & Hk & Hlt). exists k. split; [|done].
  rewrite <-Hk. f_equal. by injection B1.
Qed.

Lemma mark_untouched a r : untouched r (mark_abort a r).
Proof. unfold mark_abort. by destruct (_ && _). Qed.

(** The scheduler's other fields while results are processed: only marks of
    aborts reach the running batch. *)
Definition marked (B B' : Batch) : Prop := ∃ rs, B' = map_reqs (fun _ => rs) B ∧ Forall2 untouched (reqs (sb B)) rs.

Record steady {A} (s s' : Scheduler (A := A)) : Prop := mk_steady {
  sd_chunked : chunked_req s' = chunked_req s;
  sd_last : last_batch s' = last_batch s;
  sd_ratio : new_token_ratio s' = new_token_ratio s;
  sd_wq : waiting_queue_radix_tree s' = waiting_queue_radix_tree s;
  sd_running : marked (running_batch s) (running_batch s');
}.

#[export] Instance marked_preorder : PreOrder marked.
Proof.
  split.
  - intros B. exists (reqs (sb B)). split; [by destruct B as [[] ? ? ? ?]|]. by apply Forall_Forall2_diag, Forall_true.
  - intros B1 B2 B3 (rs & -> & F1) (rs' & -> & F2). exists rs'. split; [done|]. simpl in F2.
    revert rs' F2. induction F1 as [|r1 r2 l1 l2 U _ IH]; intros rs' F2; inversion F2; subst; constructor; [by eapply untouched_trans|auto].
Qed.

#[export] Instance steady_preorder {A} : PreOrder (@steady A).
Proof.
  split; [by intros s|]. intros s1 s2 s3 [A1 A2 A3 A4 A5] [B1 B2 B3 B4 B5]. split; [congruence..|by etrans].
Qed.

Lemma floor_prefix (ps n : nat) (q : Z) :
  (0 < ps)%nat → (n mod ps = 0)%nat → Z.of_nat n ≤ q < Z.of_nat (n + ps) → q / Z.of_nat ps * Z.of_nat ps = Z.of_nat n.
Proof.
  intros Hps Hm Hq. apply Nat.Div0.mod_divides in Hm as [k ->].
  assert (q / Z.of_nat ps = Z.of_nat k) as ->; [|lia]. symmetry. apply Z.div_unique with (q - Z.of_nat ps * Z.of_nat k); lia.
Qed.

(** ** Finishing a request *)

Section finish.
Context (hash : list Z → Z) (clock : nat → Z) {ps : nat} {A : Type} `{FreeGroups ps A}.
Context (b : ScheduleBatch) (tbl : list (list Z)) (oH : list nat) (other : list (list Z)).
Abbreviation sched := (Scheduler (A := A)).
Implicit Types (m : memory A) (s : sched).

(** The memory inside a free group, while the requests [l] hold theirs. *)
Record held_mem m (c : RadixCache) (G : gmap nat path) (l : list nat) : Prop := mk_held_mem {
  hm_tree : tree_cache m = RadixTree c;
  hm_repr : repr c G ((node_of b <$> l) ++ oH);
  hm_on : disable c = false;
  hm_page : page_size c = ps;
  hm_owned : kv_owned (token_to_kv_pool_allocator m) (tree_chunks c G ++ (l ≫= own_of (ps := ps) b tbl) ++ other);
  hm_open : fg_open (token_to_kv_pool_allocator m);
  hm_tbl : ReqPool.req_to_token (req_to_token_pool m) = tbl;
}.

Lemma held_mem_perm m c G l l' : l ≡ₚ l' → held_mem m c G l → held_mem m c G l'.
Proof.
  intros E [M1 M2 M3 M4 M5 M6 M7]. split; try done.
  - eapply repr_perm; [|exact M2]. by rewrite E.
  - eapply kv_owned_perm; [|exact M5]. by rewrite E.
Qed.

Lemma cache_finished_open r c pool a c' pool' a' :
  fg_open a → cache_finished_req hash clock r c pool a = Ok (c', pool', a') → fg_open a'.
Proof.
  intros Ho. unfold cache_finished_req. intros E. apply pyres_bind_ok in E as (idx & _ & E).
  destruct (disable c).
  { apply pyres_bind_ok in E as (a1 & E1 & E). injection E as _ _ <-. by eapply fg_free_open. }
  apply pyres_bind_ok in E as (a1 & E1 & E). apply pyres_bind_ok in E as ([n c1] & _ & E).
  apply pyres_bind_ok in E as (a2 & E2 & E). apply pyres_bind_ok in E as (nd & _ & E).
  apply pyres_bind_ok in E as ([d c2] & _ & E). injection E as _ _ <-. eapply fg_free_open; [|exact E2].
  destruct (page_size c =? 1)%nat; [by injection E1 as <-|]. by eapply fg_free_open.
Qed.

(** The row of a request that has taken its step. *)
Lemma finished_tokens r0 r : advanced r0 r →
  (Req.origin_input_ids r ++ Req.output_ids r).[: -1] = Req.origin_input_ids r0 ++ Req.output_ids r0.
Proof.
  intros [A1 [t A2] _]. rewrite A2. assert (Req.origin_input_ids r = Req.origin_input_ids r0) as -> by (by injection A1).
  rewrite app_assoc. generalize (Req.origin_input_ids r0 ++ Req.output_ids r0). intros l.
  unfold py_take, py_norm. rewrite len_app. change (len [t]) with 1. simpl. len_pos.
  rewrite take_app_le; [apply take_ge|]; unfold len; lia.
Qed.

Lemma cache_finished_step s c G l i r0 r x :
  held_mem (mem s) c G (i :: l) → batch_wf b → rows b !! i = Some x → x.1 = r0 → stepped ps false (req_to_token_pool (mem s)) x →
  ReqPool.wf (req_to_token_pool (mem s)) → attached ps G r0 → advanced r0 r →
  ∃ m' c' G', cache_finished hash clock r s = Ok (with_mem m' s) ∧ held_mem m' c' G' l ∧ G ⊆ G' ∧
    req_to_token_pool m' = ReqPool.free [x.2.1] (req_to_token_pool (mem s)).
Proof.
  intros [M1 M2 M3 M4 M5 M6 M7] W Hi Hx0 [S1 _ S3 S4 S5 S6 _] (_ & Hrl & _) (n & ll & En & Hg & Hpre & Hbnd) Hadv.
  pose proof (finished_tokens r0 r Hadv) as Et. destruct Hadv as [A1 _ _].
  assert (Req.req_pool_idx r = Req.req_pool_idx r0 ∧ Req.last_node r = Req.last_node r0 ∧ Req.prefix_indices r = Req.prefix_indices r0)
    as (Ei & Eln & Epi) by (by injection A1).
  destruct (rows_lookup b i x W Hi) as [Er Es]. rewrite Hx0 in Er, S1, S4, S6.
  set (p := req_to_token_pool (mem s)) in *. set (tokens := Req.origin_input_ids r0 ++ Req.output_ids r0) in *.
  assert (len tokens = x.2.2.1) as Hlt by (rewrite S4; unfold tokens, Req.seqlen; by rewrite len_app).
  pose proof (Hrl _ S3) as Hlr.
  assert (length ll mod ps = 0)%nat as Hal by (rewrite <-M4; by eapply path_aligned).
  assert (node_of b i = n) as Enode by (unfold node_of; rewrite Er; simpl; by rewrite En).
  assert (own_of (ps := ps) b tbl i = pages ps (drop (length ll) (ReqPool.read x.2.1 (len tokens) p))) as Eown.
  { unfold own_of. rewrite Er, Es, S1. unfold uncached, ReqPool.read. fold p in M7. rewrite <-M7. fold (ReqPool.row x.2.1 p).
    f_equal. assert (len (Req.prefix_indices r0) / Z.of_nat ps * Z.of_nat ps = Z.of_nat (length ll)) as ->.
    { apply floor_prefix; [|done|done]. rewrite <-M4. apply (r_page _ _ _ M2). }
    rewrite Hlt, py_slice_nonneg by lia. rewrite py_take_nonneg, Nat2Z.id by lia. by rewrite skipn_firstn_comm. }
  destruct (cache_finished_ok hash clock r c G ((node_of b <$> l) ++ oH) p (token_to_kv_pool_allocator (mem s))
    ((l ≫= own_of (ps := ps) b tbl) ++ other) x.2.1 n ll) as (c' & G' & a' & E & R' & HG & Ho' & Hd' & Hp' & _); rewrite ?Et; try done.
  - csimpl in M2. by rewrite Enode in M2.
  - split; try done.
    + by rewrite Ei.
    + by rewrite Eln.
    + etrans; [exact Hpre|]. unfold py_take. apply prefix_take.
    + fold tokens. rewrite Hlt. unfold ReqPool.read. rewrite len_py_take by lia. lia.
    + by rewrite Epi.
  - fold tokens. rewrite <-Eown. csimpl in M5. by rewrite <-app_assoc in M5.
  - unfold cache_finished. rewrite M1. fold p. rewrite E. cbn [mbind pyres_bind mret pyres_ret].
    eexists _, c', G'. split; [reflexivity|]. split; [|done]. split; simpl; try done.
    by eapply cache_finished_open.
Qed.

End finish.

Lemma stepped_shape ps overlap p p' x :
  ReqPool.req_to_token p' = ReqPool.req_to_token p → ReqPool.size p' = ReqPool.size p →
  ReqPool.max_context_len p' = ReqPool.max_context_len p → stepped ps overlap p x → stepped ps overlap p' x.
Proof.
  intros E1 E2 E3 [D1 D2 D3 D4 D5 D6 D7]. split; rewrite ?E2, ?E3; try done.
  intros j Hj. unfold ReqPool.row. rewrite E1. by apply D7.
Qed.

(** ** The loop over a decode batch *)

Section loop.
Context (hash : list Z → Z) (clock : nat → Z) {ps : nat} {A : Type} `{FreeGroups ps A}.
Context (cfg : Config) (accept_token : Req.t → Z → option bool).
Context (Hov : cfg_enable_overlap cfg = false) (Hspec : spec_algorithm cfg = None).
Context (b : ScheduleBatch) (tbl : list (list Z)) (oH : list nat) (other : list (list Z)) (p0 : ReqPool.t) (F0 : list Z) (Q0 : list Req.t).
Context (W : batch_wf b) (Hrows : Forall (stepped ps false p0) (rows b)) (Htbl : ReqPool.req_to_token p0 = tbl).
Abbreviation sched := (Scheduler (A := A)).
Implicit Types (s : sched) (rs : list Req.t).

(** What the requests need to be processed. *)
Definition processable (r : Req.t) : Prop :=
  Req.finished r = false ∧ Req.is_retracted r = false ∧
  (∃ k, SamplingParams.max_new_tokens (Req.sampling_params r) = Some k) ∧
  (SamplingParams.stop_strs (Req.sampling_params r) = [] ∨ is_Some (Req.tokenizer r)).
Context (Hreqs : Forall processable (reqs b)).

(** The requests that hold memory when [i] of them are processed. *)
Definition holding rs (i : nat) : list nat :=
  filter (unfinished rs) (seq 0 i) ++ seq i (length (reqs b) - i).

Record loop_inv (i : nat) rs s (c : RadixCache) (G : gmap nat path) : Prop := mk_loop_inv {
  li_done : ∀ j r0 r, (j < i)%nat → reqs b !! j = Some r0 → rs !! j = Some r → advanced r0 r;
  li_todo : ∀ j r0 r, (i ≤ j)%nat → reqs b !! j = Some r0 → rs !! j = Some r → untouched r0 r;
  li_len : length rs = length (reqs b);
  li_mem : held_mem b tbl oH other (mem s) c G (holding rs i);
  li_att : Forall (attached ps G) (reqs b);
  li_wf : ReqPool.wf (req_to_token_pool (mem s));
  li_shape : pool_shape (mem s) = (ReqPool.size p0, ReqPool.max_context_len p0);
  li_slots : ReqPool.free_slots (req_to_token_pool (mem s)) ++ omap (slot_of b) (holding rs i) ≡ₚ F0;
  li_queue : waiting_queue s `sublist_of` Q0;
}.

Lemma attached_grow (G G' : gmap nat path) r : G ⊆ G' → attached ps G r → attached ps G' r.
Proof using. intros Hs (n & ll & E & Hg & Hr). exists n, ll. split; [done|]. split; [by eapply lookup_weaken|done]. Qed.

Lemma grammar_accept_ok i token r rs s :
  rs !! i = Some r →
  ∃ rs' s', grammar_accept accept_token i token r rs s = (rs', s') ∧ Forall2 untouched rs rs' ∧ mem s' = mem s ∧
    waiting_queue s' `sublist_of` waiting_queue s ∧ steady s s'.
Proof using.
  intros Hi. unfold grammar_accept. assert (Forall2 untouched rs rs) as Hrefl by (apply Forall_Forall2_diag, Forall_true; done).
  destruct (Req.grammar r); [|by exists rs, s]. destruct (accept_token r token) as [t|].
  - eexists _, s. split; [done|]. split; [|split; [done|done]]. apply Forall2_same_length_lookup. split; [by rewrite length_insert|].
    intros j x y Hx Hy. destruct (decide (i = j)) as [<-|Hne].
    + rewrite list_lookup_insert_eq in Hy by (by eapply lookup_lt_Some). by simplify_eq.
    + rewrite list_lookup_insert_ne in Hy by done. by simplify_eq.
  - eexists _, _. split; [done|]. split; [|split; [done|split; [apply sublist_filter|]]].
    2:{ split; try done. eexists. split; [reflexivity|]. apply Forall2_fmap_r, Forall_Forall2_diag, Forall_true. intros x. apply mark_untouched. }
    apply Forall2_fmap_r. eapply Forall2_impl; [exact Hrefl|].
    intros x y U. eapply untouched_trans; [exact U|]. apply mark_untouched.
Qed.

Lemma unfinished_untouched rs rs' i : Forall2 untouched rs rs' → unfinished rs' i ↔ unfinished rs i.
Proof using.
  intros Hf. unfold unfinished. destruct (rs !! i) as [r|] eqn:E.
  - destruct (Forall2_lookup_l _ _ _ _ _ Hf E) as (r' & E' & U). rewrite E'. simpl. by rewrite (untouched_finished _ _ U).
  - apply lookup_ge_None in E. rewrite (Forall2_length _ _ _ Hf) in E. apply lookup_ge_None in E. by rewrite E.
Qed.

Lemma holding_untouched rs rs' i : Forall2 untouched rs rs' → holding rs' i = holding rs i.
Proof using.
  intros Hf. unfold holding. f_equal. apply filter_ext_elem. intros j _. by apply unfinished_untouched.
Qed.

(** Marks of aborts keep the invariant. *)
Lemma loop_inv_untouched i rs rs' s s' c G :
  loop_inv i rs s c G → Forall2 untouched rs rs' → mem s' = mem s →
  waiting_queue s' `sublist_of` waiting_queue s → loop_inv i rs' s' c G.
Proof using.
  intros [I1 I2 I3 I4 I5 I6 I7 I8 I9] Hf Em Hq. split; rewrite ?(holding_untouched _ _ _ Hf); try (by rewrite Em).
  - intros j r0 r Hj E0 E. destruct (Forall2_lookup_r _ _ _ _ _ Hf E) as (r1 & E1 & U).
    eapply advanced_untouched; [by eapply I1|done].
  - intros j r0 r Hj E0 E. destruct (Forall2_lookup_r _ _ _ _ _ Hf E) as (r1 & E1 & U).
    eapply untouched_trans; [by eapply I2|done].
  - by rewrite <-(Forall2_length _ _ _ Hf).
  - done.
  - by etrans.
Qed.

(** [i] joins or leaves the holders. *)
Lemma holding_step rs i r r' :
  (i < length (reqs b))%nat → rs !! i = Some r →
  holding rs i ≡ₚ i :: (filter (unfinished rs) (seq 0 i) ++ seq (S i) (length (reqs b) - S i)) ∧
  holding (<[i := r']> rs) (S i) ≡ₚ (if Req.finished r' then [] else [i]) ++
    (filter (unfinished rs) (seq 0 i) ++ seq (S i) (length (reqs b) - S i)).
Proof using.
  clear. intros Hi Hr. unfold holding. assert (seq i (length (reqs b) - i) = i :: seq (S i) (length (reqs b) - S i)) as ->.
  { by replace (length (reqs b) - i)%nat with (S (length (reqs b) - S i)) by lia. }
  split; [by rewrite Permutation_middle|]. rewrite seq_S, filter_app. simpl.
  assert (filter (unfinished (<[i := r']> rs)) (seq 0 i) = filter (unfinished rs) (seq 0 i)) as ->.
  { apply filter_ext_elem. intros j Hj%elem_of_seq. unfold unfinished. by rewrite list_lookup_insert_ne by lia. }
  assert (filter (unfinished (<[i := r']> rs)) [i] = if Req.finished r' then [] else [i]) as ->.
  { assert (<[i := r']> rs !! i = Some r') as E by (apply list_lookup_insert_eq; by eapply lookup_lt_Some).
    rewrite filter_cons. unfold unfinished at 1. case_decide as D; rewrite E in D; simpl in D.
    - injection D as ->. done.
    - destruct (Req.finished r'); [done|]. by destruct D. }
  solve_Permutation.
Qed.

Lemma decode_one_ok i token rs s c G :
  (i < length (reqs b))%nat → loop_inv i rs s c G →
  ∃ rs' s' c' G', decode_one hash clock cfg accept_token b i token rs s = Ok (rs', s') ∧
    loop_inv (S i) rs' s' c' G' ∧ steady s s'.
Proof using All.
  intros Hi I. pose proof I as [I1 I2 I3 I4 I5 I6 I7 I8 I9].
  destruct (lookup_lt_is_Some_2 (reqs b) i Hi) as [r0 Er0].
  destruct (lookup_lt_is_Some_2 rs i) as [r Er]; [by rewrite I3|].
  pose proof (I2 i r0 r ltac:(lia) Er0 Er) as U.
  destruct (Forall_lookup_1 _ _ _ _ Hreqs Er0) as (P1 & P2 & P3 & P4).
  unfold decode_one. rewrite Er. assert (Req.is_retracted r = false) as ->.
  { destruct U as (Hc & _). rewrite <-P2. by injection Hc. }
  rewrite Hov, Hspec. cbn [andb]. rewrite bool_decide_eq_true_2 by done.
  destruct (append_check_ok r0 r token U P1 P3 P4) as (r' & Ec & Ha). rewrite Ec. cbn [mbind pyres_bind].
  destruct (holding_step rs i r r' Hi Er) as [Hh Hh'].
  assert (∃ m' c' G', (if Req.finished r' then cache_finished hash clock r' s else mret s) = Ok (with_mem m' s) ∧
    held_mem b tbl oH other m' c' G' (holding (<[i := r']> rs) (S i)) ∧ G ⊆ G' ∧
    ReqPool.wf (req_to_token_pool m') ∧ pool_shape m' = pool_shape (mem s) ∧
    ReqPool.free_slots (req_to_token_pool m') ++ omap (slot_of b) (holding (<[i := r']> rs) (S i)) ≡ₚ F0)
    as (m' & c' & G' & E & M' & HG & Hw & Hsh & Hsl).
  { apply (held_mem_perm _ _ _ _ _ _ _ _ _ Hh) in I4. rewrite Hh in I8. destruct (Req.finished r') eqn:Ef.
    - destruct (rows_some b i W) as [x Ex]; [lia|]. destruct (rows_lookup b i x W Ex) as [Ex0 _].
      assert (stepped ps false (req_to_token_pool (mem s)) x) as Hst.
      { injection I7 as Hz1 Hz2. eapply stepped_shape; [|done|done|by eapply Forall_lookup_1].
        by rewrite (hm_tbl _ _ _ _ _ _ _ _ I4), Htbl. }
      destruct (cache_finished_step hash clock b tbl oH other s c G _ i r0 r' x I4 W Ex) as (m' & c' & G' & E & M' & HG & Ep); try done.
      { congruence. }
      { by eapply Forall_lookup_1. }
      exists m', c', G'. split; [done|]. split; [by eapply held_mem_perm; [symmetry; exact Hh'|]|]. split; [done|].
      rewrite Ep. split; [done|]. split; [unfold pool_shape; by rewrite Ep|].
      rewrite Hh', <-I8. csimpl. unfold slot_of at 2. rewrite Er0. simpl.
      assert (Req.req_pool_idx r0 = Some x.2.1) as -> by (assert (x.1 = r0) as <- by congruence; apply Hst).
      generalize (omap (slot_of b) (filter (unfinished rs) (seq 0 i) ++ seq (S i) (length (reqs b) - S i))). intros. solve_Permutation.
    - exists (mem s), c, G. split; [by destruct s|]. split; [by eapply held_mem_perm; [symmetry; exact Hh'|]|].
      split; [done|]. split; [done|]. split; [done|]. rewrite Hh'. exact I8. }
  rewrite E. cbn [mbind pyres_bind mret pyres_ret].
  assert (loop_inv (S i) (<[i := r']> rs) (with_mem m' s) c' G') as I'.
  { split; try done.
    - intros j q0 q Hj E0 Eq. destruct (decide (j = i)) as [->|Hne].
      + rewrite list_lookup_insert_eq in Eq by (by eapply lookup_lt_Some). by simplify_eq.
      + rewrite list_lookup_insert_ne in Eq by done. apply (I1 j); [lia|done..].
    - intros j q0 q Hj E0 Eq. rewrite list_lookup_insert_ne in Eq by lia. apply (I2 j); [lia|done..].
    - by rewrite length_insert.
    - eapply Forall_impl; [exact I5|]. intros q. by apply attached_grow.
    - by rewrite <-I7. }
  destruct (grammar_accept_ok i token r' (<[i := r']> rs) (with_mem m' s)) as (rs' & s' & Eg & Hf & Em & Hq & [Sd1 Sd2 Sd3 Sd4 Sd5]).
  { apply list_lookup_insert_eq. by eapply lookup_lt_Some. }
  rewrite Eg. exists rs', s', c', G'. split; [done|]. split; [by eapply loop_inv_untouched|done].
Qed.

Lemma decode_loop_ok tokens : ∀ i rs s c G,
  (i + length tokens = length (reqs b))%nat → loop_inv i rs s c G →
  ∃ rs' s' c' G', decode_loop hash clock cfg accept_token b i tokens rs s = Ok (rs', s') ∧
    loop_inv (length (reqs b)) rs' s' c' G' ∧ steady s s'.
Proof using All.
  induction tokens as [|t tokens IH]; intros i rs s c G Hl I; simpl in Hl.
  - replace i with (length (reqs b)) in I by lia. by exists rs, s, c, G.
  - destruct (decode_one_ok i t rs s c G ltac:(lia) I) as (rs1 & s1 & c1 & G1 & E & I1 & Hsd).
    cbn [decode_loop]. rewrite E. cbn [mbind pyres_bind].
    destruct (IH (S i) rs1 s1 c1 G1) as (rs' & s' & c' & G' & E' & I' & Hsd'); [lia|done|].
    exists rs', s', c', G'. split; [done|]. split; [done|by etrans].
Qed.

Lemma process_decode_ok (B : Batch) tokens s c G :
  sb B = b → length tokens = length (reqs b) →
  running_mem b tbl (mem s) c G (seq 0 (length (reqs b))) oH other → Forall (attached ps G) (reqs b) →
  ReqPool.wf (req_to_token_pool (mem s)) → pool_shape (mem s) = (ReqPool.size p0, ReqPool.max_context_len p0) →
  ReqPool.free_slots (req_to_token_pool (mem s)) ++ omap (slot_of b) (seq 0 (length (reqs b))) ≡ₚ F0 → waiting_queue s `sublist_of` Q0 →
  ∃ rs B' s' c' G', process_batch_result_decode hash clock cfg accept_token B tokens s = Ok (B', s') ∧
    B' = map_reqs (fun _ => rs) B ∧ running_batch s' = B' ∧ Forall2 advanced (reqs b) rs ∧
    running_mem b tbl (mem s') c' G' (live rs) oH other ∧ Forall (attached ps G') (reqs b) ∧
    ReqPool.wf (req_to_token_pool (mem s')) ∧ pool_shape (mem s') = pool_shape (mem s) ∧
    ReqPool.free_slots (req_to_token_pool (mem s')) ++ omap (slot_of b) (live rs) ≡ₚ F0 ∧
    waiting_queue s' `sublist_of` Q0 ∧ chunked_req s' = chunked_req s ∧ last_batch s' = last_batch s ∧
    new_token_ratio s' = new_token_ratio s ∧ waiting_queue_radix_tree s' = waiting_queue_radix_tree s.
Proof using All.
  intros EB Hlt [[M1 M2 M3 M4 M5 M6 M7] T] Hat Hw Hsh Hsl0 Hq0. unfold process_batch_result_decode. rewrite EB.
  destruct (fg_begin_ok _ _ M6 M5) as [Hown Hopen].
  set (s1 := with_allocator _ s).
  assert (loop_inv 0 (reqs b) s1 c G) as I0.
  { split; try done; [intros; lia|intros; by simplify_eq| |]; unfold holding; simpl; rewrite Nat.sub_0_r; [by split|done]. }
  destruct (decode_loop_ok tokens 0 (reqs b) s1 c G ltac:(lia) I0) as (rs & s2 & c2 & G2 & E & [I1 _ I3 [N1 N2 N3 N4 N5 N6 N7] I5 I6 I7 I8 I9] & [Hch Hla Hra Hwq _]).
  rewrite E. cbn [mbind pyres_bind].
  assert (holding rs (length (reqs b)) = live rs) as El by (unfold holding, live; by rewrite Nat.sub_diag, app_nil_r, I3).
  rewrite El in *. destruct (fg_end_ok _ _ N6 N5) as (a' & Ea & Hc' & Ho'). rewrite Ea. cbn [mbind pyres_bind mret pyres_ret].
  eexists rs, _, _, c2, G2. split; [reflexivity|]. split; [done|]. split; [done|]. split; [|split; [|split; [done|split; [done|split; [|split; [done|split; [done|split; [exact Hch|split; [exact Hla|split; [exact Hra|exact Hwq]]]]]]]]]].
  - apply Forall2_same_length_lookup. split; [done|]. intros j r0 r E0 Er. apply (I1 j); [|done..]. by eapply lookup_lt_Some.
  - split; [|done]. split; try done. simpl. by eapply fg_nonneg.
  - unfold pool_shape in *. simpl. congruence.
Qed.

End loop.

(** ** The next step *)

Section next.
Context (ps : nat) (b : ScheduleBatch) (m : memory Paged.t) (c : RadixCache) (G : gmap nat path).
Context (oH : list nat) (other : list (list Z)) (rs : list Req.t) (tokens : list Z).
#[local] Instance nkv : KVAllocator ps Paged.t := paged_kv ps.
Context (Hps : (0 < ps)%nat) (W : batch_wf b) (Hov : enable_overlap b = false).
Context (Hrows : Forall (stepped ps false (req_to_token_pool m)) (rows b)) (Hnd : NoDup (req_pool_indices b)).
Context (Hlim : Forall (fun r => ∃ k, SamplingParams.max_new_tokens (Req.sampling_params r) = Some k ∧ 0 < k ∧
  len (Req.origin_input_ids r) + k ≤ ReqPool.max_context_len (req_to_token_pool m)) (reqs b)).
Context (Hadv : Forall2 advanced (reqs b) rs) (Hlt : length tokens = length (reqs b)).
Context (Hmem : running_mem b (ReqPool.req_to_token (req_to_token_pool m)) m c G (live rs) oH other).
Context (Hat : Forall (attached ps G) (reqs b)) (Hw : ReqPool.wf (req_to_token_pool m)).

(** The batch with its tokens and its updated requests. *)
Definition after : ScheduleBatch := with_reqs rs (with_output_ids (Some tokens) b).

Lemma after_wf : batch_wf after.
Proof using W Hadv Hlt.
  destruct W as [W1 W2 W3 _ W5]. pose proof (Forall2_length _ _ _ Hadv) as El.
  split; simpl; try congruence.
Qed.

(** Its rows: the same place and length, the advanced request. *)
Lemma after_rows i x' : rows after !! i = Some x' →
  ∃ x, rows b !! i = Some x ∧ x'.2 = x.2 ∧ advanced x.1 x'.1 ∧ x.1 ∈ reqs b.
Proof using W Hadv.
  unfold rows. simpl. rewrite lookup_zip_with_Some. intros (r & y & -> & Er & Ey).
  destruct (Forall2_lookup_r _ _ _ _ _ Hadv Er) as (r0 & E0 & Ha). exists (r0, y). split; [|split; [done|split; [done|]]].
  - apply lookup_zip_with_Some. eauto.
  - by eapply list_elem_of_lookup_2.
Qed.

Lemma after_decodable i x' : rows after !! i = Some x' → Req.finished x'.1 = false →
  decodable ps false (req_to_token_pool m) x' ∧ len (Req.prefix_indices x'.1) < x'.2.2.1.
Proof using W Hadv Hrows Hlim Hps Hlt.
  intros Hx' Hf. destruct (after_rows i x' Hx') as (x & Hx & E2 & [A1 [t A2] A3] & Hin).
  pose proof (Forall_lookup_1 _ _ _ _ Hrows Hx) as [S1 S2 S3 S4 S5 S6 S7].
  destruct (A3 Hf) as (k & Hk & Hlk).
  destruct (proj1 (Forall_forall _ _) Hlim _ Hin) as (k' & Hk' & _ & Hle).
  injection A1 as C1 C2 C3 C4 C5 C6 C7 C8 C9 C10. rewrite C6 in Hk. assert (k' = k) as -> by congruence.
  rewrite A2, len_app in Hlk. change (len [t]) with 1 in Hlk.
  assert (x'.2.2.1 = Req.seqlen x'.1 - 1) as El.
  { rewrite E2, S4. unfold Req.seqlen. rewrite C2, A2, len_app. change (len [t]) with 1. lia. }
  split; [|by rewrite E2, C5]. split; rewrite ?C3, ?C4, ?C5, ?E2; try done.
  - by rewrite <-E2.
  - split; [lia|]. rewrite S4. unfold Req.seqlen. lia.
  - lia.
Qed.

(** The place of the rows that go on does not change. *)
Lemma picked_after p : 
  row_node <$> picked after (live rs) = row_node <$> picked b (live rs) ∧
  picked after (live rs) ≫= row_own ps p = picked b (live rs) ≫= row_own ps p ∧
  (fun x => x.2.1) <$> picked after (live rs) = (fun x => x.2.1) <$> picked b (live rs).
Proof using W Hadv Hlt.
  assert (Forall (fun i => (i < length (reqs b))%nat) (live rs)) as Hl.
  { rewrite (Forall2_length _ _ _ Hadv). apply live_lt. }
  clear Hmem. unfold picked. induction Hl as [|i l Hi _ IH]; [done|]. csimpl.
  destruct (rows_some after i after_wf) as [x' Ex']; [simpl; by rewrite <-(Forall2_length _ _ _ Hadv)|].
  destruct (after_rows i x' Ex') as (x & Ex & E2 & [A1 _ _] & _). rewrite Ex, Ex'. csimpl.
  injection A1 as C1 C2 C3 C4 C5 C6 C7 C8 C9 C10. destruct IH as (IH1 & IH2 & IH3). split_and!.
  - rewrite IH1. f_equal. unfold row_node. by rewrite C4.
  - rewrite IH2. f_equal. unfold row_own, own_slots. by rewrite C5, E2.
  - by rewrite IH3, E2.
Qed.

(** The rows that go on are ready for the next step. *)
Lemma next_rows :
  live_rows after = picked after (live rs) ∧ (fun x => x.2.1) <$> live_rows after = omap (slot_of b) (live rs) ∧
  NoDup ((fun x => x.2.1) <$> live_rows after) ∧ Forall (next_row ps m G) (live_rows after) ∧
  radix_mem (ps := ps) m c G ((row_node <$> live_rows after) ++ oH) ((live_rows after ≫= row_own ps (req_to_token_pool m)) ++ other) ∧
  (∀ x, x ∈ live_rows after → row_own ps (req_to_token_pool m) x ≠ []).
Proof using All.
  assert (live_rows after = picked after (live rs)) as Elr by (symmetry; apply (live_picked after after_wf)).
  assert (Forall (fun i => (i < length (reqs b))%nat) (live rs)) as Hl by (rewrite (Forall2_length _ _ _ Hadv); apply live_lt).
  assert (Forall (fun x => Req.req_pool_idx x.1 = Some x.2.1) (rows b)) as Hidx
    by (eapply Forall_impl; [exact Hrows|]; by intros x []).
  destruct (picked_after (req_to_token_pool m)) as (Pn & Po & Ps).
  assert (∀ x, x ∈ live_rows after → ∃ r0, r0 ∈ reqs b ∧ advanced r0 x.1 ∧ decodable ps false (req_to_token_pool m) x ∧
    len (Req.prefix_indices x.1) < x.2.2.1) as Hdec.
  { intros x [Hf (i & Hi)%list_elem_of_lookup]%list_elem_of_filter. destruct (after_rows i x Hi) as (x0 & _ & _ & Ha & Hin).
    exists x0.1. split; [done|]. split; [done|]. by apply (after_decodable i x Hi). }
  split; [done|]. split; [by rewrite Elr, Ps, (picked_slots b _ W Hidx Hl)|]. split.
  { rewrite Elr. apply picked_nodup; [exact after_wf| |exact Hnd]. apply NoDup_filter, NoDup_seq. }
  split.
  { apply Forall_forall. intros x Hx. destruct (Hdec x Hx) as (r0 & Hin & Ha & D & _). pose proof (finished_tokens r0 x.1 Ha) as Et.
    destruct Ha as [A1 _ _]. injection A1 as _ _ _ C4 C5 C6 _ _ C9 C10. split; [done| |].
    - destruct (proj1 (Forall_forall _ _) Hat r0 Hin) as (n & ll & En & Hg & Hpre & Hb).
      exists n, ll. rewrite C4, C5, Et. split; [done|]. split; [done|]. split; [|done]. etrans; [exact Hpre|]. apply prefix_take.
    - destruct (proj1 (Forall_forall _ _) Hlim r0 Hin) as (k & Hk & Hk0 & _). exists k. by rewrite C6. }
  split.
  { rewrite Elr, Pn, Po. destruct Hmem as [M _]. by rewrite (picked_node b _ W Hl), (picked_own ps b _ _ W Hidx Hl) in M. }
  intros x Hx. destruct (Hdec x Hx) as (_ & _ & _ & [D1 _ D3 _ D5 D6 _] & Hlt').
  destruct Hw as (_ & Hrl & _). pose proof (Hrl _ D3) as Hlr. unfold row_own, own_slots.
  pose proof (Z.mul_div_le (len (Req.prefix_indices x.1)) (Z.of_nat ps) ltac:(lia)) as Hdiv.
  pose proof (Z.div_pos (len (Req.prefix_indices x.1)) (Z.of_nat ps) ltac:(len_pos; lia) ltac:(lia)).
  rewrite py_slice_nonneg by nia. rewrite pages_unfold; [done|lia|]. intros En%(f_equal length).
  rewrite length_take, length_drop in En. unfold len in Hlr. simpl in En. nia.
Qed.

Lemma next_ready : live rs ≠ [] →
  ∃ b2, filter_batch (live rs) after = Ok b2 ∧ enable_overlap b2 = false ∧
    decode_ready ps m b2 c G oH other ∧ reqs b2 = omap (fun i => rs !! i) (live rs) ∧
    req_pool_indices b2 = omap (slot_of b) (live rs).
Proof using All.
  intros Hne. destruct next_rows as (Elr & Esl & Hnd' & Hx & M & Hown).
  destruct (filter_ready ps m after c G oH other tokens after_wf eq_refl Hov Hw) as (b2 & Ef & Hov2 & Er & D); try done.
  { by rewrite (live_rows_nil after after_wf). }
  { by left. }
  rewrite keep_live in Ef. exists b2. split; [exact Ef|]. split; [done|]. split; [done|].
  destruct (rows_fields b2 (dr_wf _ _ _ _ _ _ _ D)) as (<- & <- & _). rewrite Er. split; [|exact Esl].
  rewrite Elr. unfold picked. destruct (rows_fields after after_wf) as (F1 & _). generalize (live rs). intros l.
  change rs with (reqs after). rewrite <-F1. induction l as [|i l IH]; [done|]. csimpl. rewrite list_lookup_fmap.
  destruct (rows after !! i); csimpl; by rewrite IH.
Qed.

End next.
