(* ===== verification/PrefillOutput.v ===== *)
(** * Processing a prefill batch

    [process_batch_result_prefill] gives every request its first token.  A
    request that finishes hands its slots to the tree or back to the
    allocator; the others share their complete pages with the tree and go on
    as rows of a decode batch. *)

From Stdlib Require Import QArith.
From S2P Require Import Prelude Allocator PagedAllocator PagedProofs SWAAllocator ReqPool SamplingParams Request KVAllocator FreeGroups.
From S2P Require Import RadixCache RadixInv RadixOwn RadixInsert RadixLocks RadixEvict RadixReq SchedulePolicy PrefixCache PrefillAdder ScheduleBatch TreeCache Scheduler.
From S2P Require Import BatchKernels BatchMemory MemoryAccount BatchExtend BatchRetract SchedulerProofs BatchDecode SchedulerDecode LiveRows OutputProcessor OutputProofs.
Open Scope Z_scope.

(** ** One request *)

Section row.
Context (hash : list Z → Z) (clock : nat → Z) (ps : nat) (Hps : (0 < ps)%nat).
#[local] Instance rwkv : KVAllocator ps Paged.t := paged_kv ps.
Abbreviation sched := (Scheduler (A := Paged.t)).
Implicit Types (s : sched) (m : memory Paged.t) (p : ReqPool.t) (c : RadixCache) (G : gmap nat path) (x : row).

(** The row of a request whose input has just been computed: its slots are
    those of the path of its node, then its own. *)
Record ran_row p G x : Prop := mk_ran_row {
  rn_idx : Req.req_pool_idx x.1 = Some x.2.1;
  rn_row : 0 ≤ x.2.1 < ReqPool.size p;
  rn_len : x.2.2.1 = Req.seqlen x.1;
  rn_fits : 0 < x.2.2.1 < ReqPool.max_context_len p;
  rn_fill : Req.fill_ids x.1 = Req.origin_input_ids x.1 ++ Req.output_ids x.1;
  rn_path : ∃ n l, Req.last_node x.1 = Some n ∧ G !! n = Some l ∧ Req.prefix_indices x.1 = l.*2 ∧
    l.*1 `prefix_of` Req.fill_ids x.1 ∧ take (length l) (ReqPool.read x.2.1 x.2.2.1 p) = l.*2;
}.

Lemma len_read p i n : ReqPool.wf p → 0 ≤ i < ReqPool.size p → 0 ≤ n ≤ ReqPool.max_context_len p → len (ReqPool.read i n p) = n.
Proof using. clear. intros (_ & Hr & _) Hi Hn. unfold ReqPool.read. rewrite len_py_take by lia. rewrite (Hr i Hi). lia. Qed.

Lemma row_own_read p x (n : nat) :
  0 ≤ x.2.2.1 → len (Req.prefix_indices x.1) / Z.of_nat ps * Z.of_nat ps = Z.of_nat n →
  row_own ps p x = pages ps (drop n (ReqPool.read x.2.1 x.2.2.1 p)).
Proof using.
  clear Hps. intros Hl En. unfold row_own, own_slots, ReqPool.read. rewrite En, py_slice_nonneg by lia.
  rewrite py_take_nonneg, Nat2Z.id by lia. by rewrite skipn_firstn_comm.
Qed.

Lemma path_floor c G Hs n l : repr c G Hs → page_size c = ps → G !! n = Some l →
  len l.*2 / Z.of_nat ps * Z.of_nat ps = Z.of_nat (length l).
Proof using Hps.
  intros R Ep Hn. apply floor_prefix; [done|rewrite <-Ep; by eapply path_aligned|]. unfold len. rewrite length_fmap. lia.
Qed.

(** What the request holds in the sense of the cache. *)
Lemma ran_holds p G x r :
  ReqPool.wf p → ran_row p G x → advanced x.1 r →
  ∃ n l, Req.last_node x.1 = Some n ∧ G !! n = Some l ∧ take (length l) (ReqPool.read x.2.1 x.2.2.1 p) = l.*2 ∧
    Req.prefix_indices r = l.*2 ∧ len (Req.fill_ids x.1) = x.2.2.1 ∧
    (Req.origin_input_ids r ++ Req.output_ids r).[: -1] = Req.fill_ids x.1 ∧
    req_holds (ps := ps) r p G (Req.fill_ids x.1) x.2.1 n l.
Proof using Hps.
  intros Hw [R1 R2 R3 R4 R5 (n & l & En & Hg & Ep & Hk & Ht)] Ha. pose proof (finished_tokens _ _ Ha) as Et.
  destruct Ha as [A1 _ _]. injection A1 as C1 C2 C3 C4 C5 C6 C7 C8 C9 C10.
  assert (len (Req.fill_ids x.1) = x.2.2.1) as El by (rewrite R5, R3; unfold Req.seqlen; by rewrite len_app).
  exists n, l. rewrite C5, Et, R5. split_and!; try done; [by rewrite <-R5|]. split; rewrite ?C3, ?C4, ?C5; try done.
  - by rewrite <-R5.
  - rewrite <-R5, El. by apply len_read; [..|lia].
  - rewrite Ep. unfold len. rewrite length_fmap. lia.
Qed.

Lemma paged_nonneg (a : Paged.t) cs : kv_owned (ps := ps) a cs → 0 ≤ kv_available (ps := ps) a.
Proof using.
  clear. intros [[Hpg _] _]. change (0 ≤ Paged.available_size a). rewrite paged_available_held, Hpg. len_pos. nia.
Qed.

Lemma finish_row s c G Hs rest x r :
  let p := req_to_token_pool (mem s) in
  radix_mem (mem s) c G (row_node x :: Hs) (row_own ps p x ++ rest) → ReqPool.wf p → ran_row p G x → advanced x.1 r →
  ∃ m' c' G', cache_finished hash clock r s = Ok (with_mem m' s) ∧ radix_mem m' c' G' Hs rest ∧ G ⊆ G' ∧
    req_to_token_pool m' = ReqPool.free [x.2.1] p.
Proof using Hps.
  intros p [M1 M2 M3 M4 M5 M6 M7] Hw Hr Ha.
  destruct (ran_holds p G x r Hw Hr Ha) as (n & l & En & Hg & _ & Ep & El & Et & Hh).
  assert (Req.prefix_indices x.1 = Req.prefix_indices r) as Epx by (destruct Ha as [A1 _ _]; by injection A1).
  assert (row_own ps p x = pages ps (drop (length l) (ReqPool.read x.2.1 (len (Req.fill_ids x.1)) p))) as Eo.
  { rewrite El. apply row_own_read; [destruct Hr; lia|]. rewrite Epx, Ep. by eapply path_floor. }
  destruct (cache_finished_ok hash clock r c G Hs p (token_to_kv_pool_allocator (mem s)) rest x.2.1 n l)
    as (c' & G' & a' & E & R' & HG & Ho' & Hd' & Hp' & Hcl & _); rewrite ?Et; try done.
  - by replace n with (row_node x) by (unfold row_node; by rewrite En).
  - rewrite <-Eo. exact M5.
  - unfold cache_finished. rewrite M1. fold p. rewrite E. cbn [mbind pyres_bind mret pyres_ret].
    eexists _, c', G'. split; [reflexivity|]. split; [|done]. split; simpl; try done; [by apply Hcl|by eapply paged_nonneg].
Qed.

Lemma tree_int32 m c G Hs rest : radix_mem m c G Hs rest → in_int32 (concat (tree_chunks c G)).
Proof using Hps.
  intros [_ _ _ _ Ho _ _]. pose proof Ho as [[_ Hb] _]. apply owned_chunks, Forall_app in Ho as [Ho _].
  apply Forall_concat. eapply Forall_impl; [exact Ho|]. intros ch (pg & Hc & Hpg). apply Forall_lookup. intros i v Hi.
  destruct (chunk_lookup _ _ _ _ _ Hc Hi) as [-> Hlt]. nia.
Qed.

(** Slots of a path and the own slots after it lie at their position. *)
Lemma row_in_page m c G Hs rest n l own :
  radix_mem m c G Hs (pages ps own ++ rest) → G !! n = Some l →
  ∀ i v, (l.*2 ++ own) !! i = Some v → in_page (ps := ps) (Paged.num_pages (token_to_kv_pool_allocator m)) v i.
Proof using Hps.
  intros [_ R _ Ep Ho _ _] Hn i v Hi. assert (length l mod ps = 0)%nat as Hal by (rewrite <-Ep; by eapply path_aligned).
  apply lookup_app_Some in Hi as [Hi|[Hge Hi]]; [exact (tree_in_page _ _ _ _ _ _ _ R Ep Ho Hn i v Hi)|]. rewrite length_fmap in *.
  destruct (pages_in_page (Paged.num_pages (token_to_kv_pool_allocator m)) own Hps) with (i := (i - length l)%nat) (x := v) as [H1 H2].
  - apply owned_chunks, Forall_app in Ho as [_ Ho]. by apply Forall_app in Ho as [Ho _].
  - done.
  - split; [|done]. rewrite H1. apply Nat.Div0.mod_divides in Hal as [z Hz].
    replace (Z.of_nat i) with (Z.of_nat (i - length l) + Z.of_nat z * Z.of_nat ps) by lia. by rewrite Z.mod_add by lia.
Qed.

Lemma aligned_len_floor c (n : nat) : page_size c = ps → Z.of_nat n / Z.of_nat ps * Z.of_nat ps = Z.of_nat (page_aligned_len c n).
Proof using Hps.
  intros Ep. destruct (aligned_len_spec c n) as (_ & _ & ->); [by rewrite Ep|]. rewrite Ep. by rewrite Nat2Z.inj_mul, Nat2Z.inj_div.
Qed.

Lemma continue_row s c G Hs rest x r :
  let p := req_to_token_pool (mem s) in
  radix_mem (mem s) c G (row_node x :: Hs) (row_own ps p x ++ rest) → ReqPool.wf p → ran_row p G x → advanced x.1 r →
  ∃ m' c' G' n' l', let r' := Req.set_last_node (Some n') (Req.set_prefix_indices l' r) in let p' := req_to_token_pool m' in
    cache_unfinished hash clock r s = Ok (r', with_mem m' s) ∧
    radix_mem m' c' G' (row_node (r', x.2) :: Hs) (row_own ps p' (r', x.2) ++ rest) ∧ G ⊆ G' ∧
    row_frame x.2.1 p p' ∧ ReqPool.wf p' ∧ decodable ps false p' (r', x.2) ∧ attached ps G' r'.
Proof using Hps.
  intros p M Hw Hr Ha. assert (Req.fill_ids r = Req.fill_ids x.1) as Ef by (destruct Ha as [A1 _ _]; by injection A1). pose proof M as [M1 M2 M3 M4 M5 M6 M7].
  destruct (ran_holds p G x r Hw Hr Ha) as (n & l & En & Hg & Hsh & Ep & El & Et & Hh).
  assert (Req.prefix_indices x.1 = Req.prefix_indices r) as Epx by (destruct Ha as [A1 _ _]; by injection A1).
  set (kv := ReqPool.read x.2.1 x.2.2.1 p) in *.
  assert (row_own ps p x = pages ps (drop (length l) kv)) as Eo.
  { apply row_own_read; [destruct Hr; lia|]. rewrite Epx, Ep. by eapply path_floor. }
  assert (kv = l.*2 ++ drop (length l) kv) as Ekv by (by rewrite <-Hsh, take_drop).
  assert (length l ≤ length (Req.fill_ids x.1))%nat as Hll.
  { pose proof (prefix_length _ _ (rh_tokens _ _ _ _ _ _ _ Hh)) as Hp. by rewrite length_fmap in Hp. }
  assert (length kv = length (Req.fill_ids x.1)) as Lkv.
  { apply Nat2Z.inj. fold (len kv) (len (Req.fill_ids x.1)). rewrite El. apply len_read; [done|apply Hr|destruct Hr; lia]. }
  rewrite Eo in M. pose proof (row_in_page _ _ _ _ _ n l (drop (length l) kv) M Hg) as Hin. rewrite <-Ekv in Hin.
  pose proof (rn_row _ _ _ Hr) as Hidx.
  destruct (cache_unfinished_ok hash clock r c G Hs p (token_to_kv_pool_allocator (mem s)) rest x.2.1 n l)
    as (r' & c' & G' & p' & a' & n' & lw & E & R' & HG & Hg' & Hlw & Ho' & Hw' & Hread & -> & Hd' & Hp' & Hcl & Hfr); rewrite ?Ef, ?El; try done.
  { by replace n with (row_node x) by (unfold row_node; by rewrite En). }
  { left. rewrite Ep. apply length_fmap. }
  { rewrite Ep, length_fmap. done. }
  { fold kv. destruct M5 as [[_ Hb] _]. apply Forall_lookup. intros i v Hi. destruct (Hin i v Hi) as [_ Hv]. lia. }
  { by eapply tree_int32. }
  { fold kv. rewrite <-Eo. exact M5. }
  rewrite Ef, El in *. fold kv in Ho', Hread, E |- *.
  set (al := page_aligned_len c (length (Req.fill_ids x.1))) in *.
  destruct (aligned_len_spec c (length (Req.fill_ids x.1))) as (_ & Hal & _); [rewrite M4; lia|]. fold al in Hal.
  assert (length lw = al) as Llw by (rewrite <-(length_fmap fst), Hlw, length_take; lia).
  assert (length (lw.*2 ++ drop al kv) = length kv) as Lnew by (rewrite length_app, length_fmap, length_drop; lia).
  eexists (mkMemory p' a' (RadixTree c')), c', G', n', (lw.*2 ++ drop al kv). cbn [req_to_token_pool].
  split; [unfold cache_unfinished; rewrite M1; fold p; by rewrite E|].
  set (r' := Req.set_last_node _ _).
  assert (x.2.2.1 = Z.of_nat (length kv)) as Elen by (rewrite <-El, Lkv; done).
  assert (row_own ps p' (r', x.2) = pages ps (drop al kv)) as Eo'.
  { rewrite (row_own_read p' (r', x.2) al); cbn [fst snd].
    - by rewrite Hread, drop_app_length' by (by rewrite length_fmap).
    - lia.
    - change (Req.prefix_indices r') with (lw.*2 ++ drop al kv). unfold len. rewrite Lnew, Lkv. by apply aligned_len_floor. }
  assert (radix_mem (mkMemory p' a' (RadixTree c')) c' G' (row_node (r', x.2) :: Hs) (row_own ps p' (r', x.2) ++ rest)) as M'.
  { split; cbn [tree_cache token_to_kv_pool_allocator]; try done; [by rewrite Eo'|by apply Hcl|by eapply paged_nonneg]. }
  pose proof Ha as [A1 [t At] _]. injection A1 as C1 C2 C3 C4 C5 C6 C7 C8 C9 C10.
  destruct Hr as [R1 R2 R3 R4 R5 _]. destruct Hfr as [F1 F2 F3 F4].
  split; [done|]. split; [done|]. split; [by split|]. split; [done|]. split.
  - split; cbn [fst snd]; try done.
    + change (Req.req_pool_idx r') with (Req.req_pool_idx r). by rewrite C3.
    + by rewrite F1.
    + change (Req.seqlen r') with (Req.seqlen r). rewrite R3. unfold Req.seqlen. rewrite C2, At, len_app. change (len [t]) with 1. lia.
    + by rewrite F2.
    + change (Req.prefix_indices r') with (lw.*2 ++ drop al kv). unfold len. lia.
    + intros j Hj. rewrite Eo' in M'. pose proof (row_in_page _ _ _ _ _ n' lw (drop al kv) M' Hg') as Hin'.
      destruct (lookup_lt_is_Some_2 (lw.*2 ++ drop al kv) (Z.to_nat j)) as [v Hv]; [lia|].
      destruct (Hin' _ _ Hv) as [Hm _]. rewrite <-Hread in Hv. unfold ReqPool.read in Hv. rewrite py_take_nonneg, lookup_take_lt in Hv by lia.
      rewrite (list_lookup_total_correct _ _ _ Hv), Hm. f_equal. lia.
  - exists n', lw. split; [done|]. split; [done|]. change (Req.origin_input_ids r') with (Req.origin_input_ids r).
    change (Req.output_ids r') with (Req.output_ids r). rewrite Et, Hlw. split; [apply prefix_take|].
    change (Req.prefix_indices r') with (lw.*2 ++ drop al kv). unfold len. rewrite Lnew, Lkv, Llw.
    pose proof (aligned_len_floor c (length (Req.fill_ids x.1)) M4) as Hfl. fold al in Hfl.
    pose proof (Z.mod_pos_bound (Z.of_nat (length (Req.fill_ids x.1))) (Z.of_nat ps) ltac:(lia)).
    pose proof (Z.div_mod (Z.of_nat (length (Req.fill_ids x.1))) (Z.of_nat ps) ltac:(lia)). lia.
Qed.

End row.

(** ** Rows of a batch whose requests change *)

Lemma delete_insert_list {X} (l : list X) i y : delete i (<[i := y]> l) = delete i l.
Proof. revert i. induction l as [|x l IH]; intros [|i]; [done..|]. simpl. f_equal. apply IH. Qed.

Section change.
Context (ps : nat) (b : ScheduleBatch).

(** The batch with the requests [rs]. *)
Abbreviation cur rs := (with_reqs rs b).

Lemma rows_insert rs i r x : rows (cur rs) !! i = Some x → rows (cur (<[i := r]> rs)) = <[i := (r, x.2)]> (rows (cur rs)).
Proof.
  unfold rows. simpl. intros (q & y & -> & _ & Hy)%lookup_zip_with_Some.
  rewrite (insert_zip_with _ rs _ i r y). by rewrite (list_insert_id _ _ _ Hy).
Qed.

Lemma held_split rs i x : rows (cur rs) !! i = Some x →
  held_rows (cur rs) ≡ₚ (if spent x.1 then [] else [x]) ++ filter (fun x => spent x.1 = false) (delete i (rows (cur rs))).
Proof.
  intros Hi. unfold held_rows. rewrite (delete_Permutation _ _ _ Hi) at 1. rewrite filter_cons.
  destruct (spent x.1); [by rewrite decide_False|by rewrite decide_True].
Qed.

Lemma held_insert rs i r x : rows (cur rs) !! i = Some x →
  held_rows (cur (<[i := r]> rs)) ≡ₚ
    (if spent r then [] else [(r, x.2)]) ++ filter (fun x => spent x.1 = false) (delete i (rows (cur rs))).
Proof.
  intros Hi. pose proof (rows_insert rs i r x Hi) as E.
  assert (rows (cur (<[i := r]> rs)) !! i = Some (r, x.2)) as Hi'.
  { rewrite E. apply list_lookup_insert_eq. by eapply lookup_lt_Some. }
  rewrite (held_split _ i _ Hi'), E. by rewrite delete_insert_list.
Qed.

(** Rows whose requests are marked. *)
Definition marked_row (x y : row) : Prop := untouched x.1 y.1 ∧ y.2 = x.2.

Lemma marked_rows rs rs' : Forall2 untouched rs rs' → Forall2 marked_row (rows (cur rs)) (rows (cur rs')).
Proof.
  unfold rows. simpl. generalize (zip (req_pool_indices b) (zip (seq_lens b) (orig_seq_lens b))). intros l F. revert l.
  induction F as [|r r' rs rs' U _ IH]; intros [|y l]; simpl; constructor; [done|auto].
Qed.

Lemma marked_live xs ys : Forall2 marked_row xs ys →
  Forall2 marked_row (filter (fun x => Req.finished x.1 = false) xs) (filter (fun x => Req.finished x.1 = false) ys).
Proof.
  induction 1 as [|x y xs ys [U E] _ IH]; [constructor|]. rewrite !filter_cons, (untouched_finished _ _ U).
  case_decide; [by constructor|done].
Qed.

Lemma untouched_spent r r' : untouched r r' → spent r' = spent r.
Proof. intros U. unfold spent. rewrite (untouched_finished _ _ U). by destruct U as (_ & -> & _). Qed.

Lemma marked_held xs ys : Forall2 marked_row xs ys →
  Forall2 marked_row (filter (fun x => spent x.1 = false) xs) (filter (fun x => spent x.1 = false) ys).
Proof.
  induction 1 as [|x y xs ys [U E] _ IH]; [constructor|]. rewrite !filter_cons, (untouched_spent _ _ U).
  case_decide; [by constructor|done].
Qed.

Lemma marked_fields p xs ys : Forall2 marked_row xs ys →
  row_node <$> ys = row_node <$> xs ∧ ys ≫= row_own ps p = xs ≫= row_own ps p ∧
  (fun x => x.2.1) <$> ys = (fun x : row => x.2.1) <$> xs ∧ (Req.rid <$> ys.*1) = (Req.rid <$> xs.*1).
Proof.
  induction 1 as [|x y xs ys [(Hc & _) E] _ (I1 & I2 & I3 & I4)]; [done|]. csimpl. injection Hc as C1 C2 C3 C4 C5 C6 C7 C8 C9 C10.
  rewrite I1, I2, I3, I4, C1, E. split_and!; try done.
  - f_equal. unfold row_node. by rewrite C4.
  - f_equal. unfold row_own, own_slots. by rewrite C5, E.
Qed.

Lemma ran_marked p G x y : marked_row x y → ran_row p G x → ran_row p G y.
Proof.
  intros [(Hc & Ho & _) E] [R1 R2 R3 R4 R5 R6]. injection Hc as C1 C2 C3 C4 C5 C6 C7 C8 C9 C10.
  split; unfold Req.seqlen in *; rewrite ?E, ?Ho, ?C2, ?C3, ?C4, ?C5, ?C9; done.
Qed.

Lemma next_marked m G x y : marked_row x y → next_row ps m G x → next_row ps m G y.
Proof.
  intros [(Hc & Ho & _) E] [[D1 D2 D3 D4 D5 D6 D7] (n & ll & Ha) Hk]. injection Hc as C1 C2 C3 C4 C5 C6 C7 C8 C9 C10. split.
  - split; unfold Req.seqlen in *; rewrite ?E, ?Ho, ?C2, ?C3, ?C4, ?C5; done.
  - exists n, ll. by rewrite C2, C4, C5, Ho.
  - by rewrite C6.
Qed.

(** Rows are read from their line of the request table. *)
Record same_line (p p' : ReqPool.t) (j : Z) : Prop := mk_same_line {
  sl_line : ReqPool.row j p' = ReqPool.row j p;
  sl_size : ReqPool.size p' = ReqPool.size p;
  sl_context : ReqPool.max_context_len p' = ReqPool.max_context_len p;
}.

Lemma own_line p p' x : same_line p p' x.2.1 → row_own ps p' x = row_own ps p x.
Proof. intros [E _ _]. unfold row_own, own_slots. by rewrite E. Qed.

Lemma ran_line p p' G G' x : same_line p p' x.2.1 → G ⊆ G' → ran_row p G x → ran_row p' G' x.
Proof.
  intros [E1 E2 E3] HG [R1 R2 R3 R4 R5 (n & l & A1 & A2 & A3 & A4 & A5)]. split; rewrite ?E2, ?E3; try done.
  exists n, l. unfold ReqPool.read in *. rewrite E1. split_and!; try done. by eapply lookup_weaken.
Qed.

Lemma next_line (m m' : memory Paged.t) G G' x :
  same_line (req_to_token_pool m) (req_to_token_pool m') x.2.1 → G ⊆ G' → next_row ps m G x → next_row ps m' G' x.
Proof.
  intros [E1 E2 E3] HG [[D1 D2 D3 D4 D5 D6 D7] Ha Hk]. split; [|by eapply attached_grow|done].
  split; rewrite ?E1, ?E2, ?E3; done.
Qed.

End change.

(** ** The loop over a prefill batch *)

(** The fields of a request that a prefill keeps, and one more token. *)
Definition ident (r : Req.t) :=
  (Req.rid r, Req.origin_input_ids r, Req.req_pool_idx r, Req.sampling_params r, Req.is_retracted r, Req.tokenizer r,
   Req.is_chunked r).

Record progressed (r0 r : Req.t) : Prop := mk_progressed {
  pg_ident : ident r = ident r0;
  pg_out : ∃ t, Req.output_ids r = Req.output_ids r0 ++ [t];
  pg_live : Req.finished r = false →
    ∃ k, SamplingParams.max_new_tokens (Req.sampling_params r) = Some k ∧ len (Req.output_ids r) < k;
  pg_still : Req.finished r = false → Req.finished r0 = false;
}.

Lemma untouched_ident r r' : untouched r r' → ident r' = ident r.
Proof. intros (Hc & _). injection Hc as C1 C2 C3 C4 C5 C6 C7 C8 C9 C10. unfold ident. congruence. Qed.

Lemma advanced_progressed r0 r : (Req.finished r = false → Req.finished r0 = false) → advanced r0 r → progressed r0 r.
Proof. intros Hf [A1 A2 A3]. split; try done. injection A1 as C1 C2 C3 C4 C5 C6 C7 C8 C9 C10. unfold ident. congruence. Qed.

Lemma untouched_progressed r0 r r' : untouched r0 r → progressed r r' → progressed r0 r'.
Proof.
  intros U [P1 [t P2] P3 P4]. pose proof (untouched_ident _ _ U) as E. rewrite (untouched_finished _ _ U) in P4. destruct U as (_ & Ho & _).
  split; [congruence| |done|done]. exists t. by rewrite P2, Ho.
Qed.

Lemma progressed_untouched r0 r r' : progressed r0 r → untouched r r' → progressed r0 r'.
Proof.
  intros [P1 P2 P3 P4] U. pose proof (untouched_ident _ _ U) as E. pose proof (untouched_finished _ _ U) as Ef. destruct U as (Hc & Ho & _).
  split; [congruence|by rewrite Ho| |by rewrite Ef]. rewrite Ef, Ho. intros Hl. destruct (P3 Hl) as (k & Hk & Hlt). exists k. split; [|done].
  rewrite <-Hk. f_equal. by injection Hc.
Qed.

Lemma progressed_spent r0 r : progressed r0 r → spent r = Req.finished r.
Proof. intros [_ [t E] _ _]. unfold spent. rewrite E, bool_decide_false, andb_true_r; [done|]. by intros [_ [=]]%app_nil. Qed.

(** What the requests need to be processed: one that has finished was rejected
    before its first token. *)
Definition prefillable (r : Req.t) : Prop :=
  spent r = false ∧ Req.is_retracted r = false ∧
  (∃ k, SamplingParams.max_new_tokens (Req.sampling_params r) = Some k) ∧
  (SamplingParams.stop_strs (Req.sampling_params r) = [] ∨ is_Some (Req.tokenizer r)).

Lemma append_prefill_ok r token :
  (∃ k, SamplingParams.max_new_tokens (Req.sampling_params r) = Some k) →
  SamplingParams.stop_strs (Req.sampling_params r) = [] ∨ is_Some (Req.tokenizer r) →
  ∃ r', Req.check_finished (append_output token r) = Ok r' ∧ advanced r r' ∧ (Req.finished r' = false → Req.finished r = false).
Proof.
  intros Hk Ht. destruct (Req.finished r) eqn:Ef.
  2:{ destruct (append_check_ok r r token (untouched_refl r) Ef Hk Ht) as (r' & ? & ?). by exists r'. }
  exists (append_output token r). split; [|split; [split; [done|by eexists|]|]].
  - unfold Req.check_finished. change (Req.finished (append_output token r)) with (Req.finished r). by rewrite Ef.
  - change (Req.finished (append_output token r)) with (Req.finished r). by rewrite Ef.
  - change (Req.finished (append_output token r)) with (Req.finished r). by rewrite Ef.
Qed.

Section loop.
Context (hash : list Z → Z) (clock : nat → Z) (ps : nat) (Hps : (0 < ps)%nat).
Context (cfg : Config) (accept_token : Req.t → Z → option bool) (Hov : cfg_enable_overlap cfg = false).
Context (B : Batch) (oH : list nat) (other : list (list Z)) (p0 : ReqPool.t) (G0 : gmap nat path) (F0 : list Z) (Q0 : list Req.t).
#[local] Existing Instance rwkv.
Abbreviation sched := (Scheduler (A := Paged.t)).
Abbreviation b := (sb B).
Abbreviation cur rs := (with_reqs rs (sb B)).
Abbreviation pool s := (req_to_token_pool (mem s)).
Implicit Types (s : sched) (rs : list Req.t) (c : RadixCache) (G : gmap nat path).
Context (W : batch_wf b) (Hnd : NoDup (req_pool_indices b)) (Hidx : Forall (Z.le 0) (req_pool_indices b)) (Hdec : decoding_reqs B = None).
Context (Hreqs : Forall prefillable (reqs b)) (Hchunk : Forall (fun r => Req.is_chunked r ≤ 0) (reqs b)).

Record prefill_inv (i : nat) rs s c G : Prop := mk_prefill_inv {
  pi_len : length rs = length (reqs b);
  pi_done : ∀ j r0 r, (j < i)%nat → reqs b !! j = Some r0 → rs !! j = Some r → progressed r0 r;
  pi_todo : ∀ j r0 r, (i ≤ j)%nat → reqs b !! j = Some r0 → rs !! j = Some r → untouched r0 r;
  pi_next : ∀ j x, (j < i)%nat → rows (cur rs) !! j = Some x → Req.finished x.1 = false → next_row ps (mem s) G x;
  pi_ran : ∀ j x, (i ≤ j)%nat → rows (cur rs) !! j = Some x → ran_row (pool s) G x;
  pi_mem : radix_mem (ps := ps) (mem s) c G ((row_node <$> held_rows (cur rs)) ++ oH) ((held_rows (cur rs) ≫= row_own ps (pool s)) ++ other);
  pi_wf : ReqPool.wf (pool s);
  pi_shape : pool_shape (mem s) = (ReqPool.size p0, ReqPool.max_context_len p0);
  pi_slots : ReqPool.free_slots (pool s) ++ ((fun x => x.2.1) <$> held_rows (cur rs)) ≡ₚ F0;
  pi_other : ∀ j, 0 ≤ j → j ∉ req_pool_indices b → ReqPool.row j (pool s) = ReqPool.row j p0;
  pi_queue : waiting_queue s `sublist_of` Q0;
  pi_grown : G0 ⊆ G;
}.

(** Every line of the table a row uses is its own. *)
Lemma cur_indices rs : length rs = length (reqs b) → (fun x => x.2.1) <$> rows (cur rs) = req_pool_indices b.
Proof using W.
  intros Hl. assert (batch_wf (with_output_ids None (cur rs))) as W'.
  { destruct W as [W1 W2 W3 _ W5]. split; simpl; congruence || done. }
  by destruct (rows_fields _ W') as (_ & E & _).
Qed.

Lemma other_index rs i j x y : length rs = length (reqs b) →
  rows (cur rs) !! i = Some x → rows (cur rs) !! j = Some y → i ≠ j → y.2.1 ≠ x.2.1.
Proof using W Hnd.
  intros Hl Hx Hy Hne E. apply Hne. eapply NoDup_lookup; [exact Hnd|..]; rewrite <-(cur_indices rs Hl), list_lookup_fmap;
    [rewrite Hx; done|rewrite Hy; simpl; by rewrite E].
Qed.

(** The row [i] is replaced by that of [r], or released. *)
Lemma prefill_update i rs s c G x r0 r m' c' G' :
  let others := filter (fun x => spent x.1 = false) (delete i (rows (cur rs))) in
  let mine : list row := if Req.finished r then [] else [(r, x.2)] in let p' := req_to_token_pool m' in
  prefill_inv i rs s c G → rows (cur rs) !! i = Some x → spent x.1 = false → reqs b !! i = Some r0 → progressed r0 r →
  (Req.finished r = false → next_row ps m' G' (r, x.2)) → G ⊆ G' → ReqPool.wf p' → pool_shape m' = pool_shape (mem s) →
  (∀ j, 0 ≤ j → j ≠ x.2.1 → same_line (pool s) p' j) →
  ReqPool.free_slots p' = ReqPool.free_slots (pool s) ++ (if Req.finished r then [x.2.1] else []) →
  radix_mem (ps := ps) m' c' G' ((row_node <$> mine) ++ (row_node <$> others) ++ oH)
    ((mine ≫= row_own ps p') ++ (others ≫= row_own ps (pool s)) ++ other) →
  prefill_inv (S i) (<[i := r]> rs) (with_mem m' s) c' G'.
Proof using W Hnd Hidx.
  clear Hps. intros others mine p' [I1 I2 I3 I4 I5 I6 I7 I8 I9 I10 I11 I12] Hx Hf Hr0 Hpg Hnext HG Hw' Hsh Hline Hfs M'.
  pose proof (cur_indices rs I1) as Ei.
  assert (i < length rs)%nat as Hi. { apply lookup_lt_Some in Hx. unfold rows in Hx. rewrite length_zip_with in Hx. simpl in Hx. lia. }
  assert (∀ j y, rows (cur rs) !! j = Some y → req_pool_indices b !! j = Some y.2.1) as Hin.
  { intros j y Ey. by rewrite <-Ei, list_lookup_fmap, Ey. }
  assert (∀ j y, j ≠ i → rows (cur rs) !! j = Some y → same_line (pool s) p' y.2.1) as Hrow.
  { intros j y Hj Ey. apply Hline; [|by eapply other_index]. exact (Forall_lookup_1 _ _ _ _ Hidx (Hin j y Ey)). }
  assert (Forall (fun y => same_line (pool s) p' y.2.1) others) as Hoth.
  { apply Forall_forall. intros y [Hfy (j & Hj)%list_elem_of_lookup]%list_elem_of_filter.
    destruct (decide (j < i)%nat); [apply (Hrow j)|apply (Hrow (S j))]; try lia; rewrite <-Hj;
      [by rewrite list_lookup_delete_lt|by rewrite list_lookup_delete_ge by lia]. }
  assert (held_rows (cur (<[i := r]> rs)) ≡ₚ mine ++ others) as El by (unfold mine; rewrite <-(progressed_spent _ _ Hpg); by apply held_insert).
  assert (held_rows (cur rs) ≡ₚ x :: others) as El0 by (rewrite (held_split _ rs i x Hx), Hf; done).
  assert (others ≫= row_own ps p' = others ≫= row_own ps (pool s)) as Eo.
  { clear -Hoth. induction Hoth as [|y l Hy _ IH]; [done|]. csimpl. by rewrite IH, (own_line ps (pool s) p' y Hy). }
  assert (∀ j y, j ≠ i → rows (cur (<[i := r]> rs)) !! j = Some y → rows (cur rs) !! j = Some y) as Hrest.
  { intros j y Hj. by rewrite (rows_insert _ rs i r x Hx), list_lookup_insert_ne. }
  split; simpl.
  - by rewrite length_insert.
  - intros j q0 q Hj E0 Eq. destruct (decide (j = i)) as [->|Hne].
    + rewrite list_lookup_insert_eq in Eq by done. by simplify_eq.
    + rewrite list_lookup_insert_ne in Eq by done. apply (I2 j); [lia|done..].
  - intros j q0 q Hj E0 Eq. rewrite list_lookup_insert_ne in Eq by lia. apply (I3 j); [lia|done..].
  - intros j y Hj Ey Hfy. destruct (decide (j = i)) as [->|Hne].
    + rewrite (rows_insert _ rs i r x Hx), list_lookup_insert_eq in Ey by (by eapply lookup_lt_Some). injection Ey as <-. by apply Hnext.
    + apply Hrest in Ey; [|done]. eapply (next_line ps (mem s)); [by apply (Hrow j)|done|]. apply (I4 j); [lia|done..].
  - intros j y Hj Ey. apply Hrest in Ey; [|lia]. eapply ran_line; [apply (Hrow j); [lia|done]|done|]. apply (I5 j); [lia|done].
  - destruct M' as [M1 M2 M3 M4 M5 M6 M7]. split; try done.
    + eapply repr_perm; [|exact M2]. by rewrite El, fmap_app, app_assoc.
    + eapply kv_owned_perm; [|exact M5]. fold p'. by rewrite El, bind_app, Eo, <-app_assoc.
  - done.
  - by rewrite Hsh.
  - rewrite <-I9, El, El0. fold p'. rewrite Hfs. unfold mine. destruct (Req.finished r); csimpl; [|by rewrite app_nil_r].
    by rewrite <-app_assoc.
  - intros j Hj Hnj. fold p'. rewrite <-I10 by done. apply Hline; [done|]. intros ->. apply Hnj. by eapply list_elem_of_lookup_2, Hin.
  - done.
  - by etrans.
Qed.

(** The release or the hand-over of a request that has got its token. *)
Lemma prefill_cache_ok i rs s c G x r0 r :
  prefill_inv i rs s c G → rows (cur rs) !! i = Some x → spent x.1 = false → reqs b !! i = Some r0 →
  untouched r0 x.1 → advanced x.1 r → (Req.finished r = false → Req.finished x.1 = false) →
  ∃ r' m' c' G', (if Req.finished r then s ← cache_finished (ps := ps) hash clock r s; mret (r, s) else cache_unfinished (ps := ps) hash clock r s)
      = Ok (r', with_mem m' s) ∧ prefill_inv (S i) (<[i := r']> rs) (with_mem m' s) c' G'.
Proof using W Hnd Hidx Hps.
  intros I Hx Hf Hr0 U Ha Hst. pose proof I as [I1 I2 I3 I4 I5 I6 I7 I8 I9 I10 I11 I12].
  pose proof (I5 i x ltac:(lia) Hx) as Hran. set (others := filter (fun x => spent x.1 = false) (delete i (rows (cur rs)))).
  assert (held_rows (cur rs) ≡ₚ x :: others) as El by (rewrite (held_split _ rs i x Hx), Hf; done).
  assert (radix_mem (ps := ps) (mem s) c G (row_node x :: (row_node <$> others) ++ oH)
    (row_own ps (pool s) x ++ (others ≫= row_own ps (pool s)) ++ other)) as M.
  { destruct I6 as [M1 M2 M3 M4 M5 M6 M7]. split; try done.
    - eapply repr_perm; [|exact M2]. by rewrite El.
    - eapply kv_owned_perm; [|exact M5]. rewrite El. csimpl. by rewrite <-app_assoc. }
  pose proof (advanced_progressed _ _ Hst Ha) as Hpg. apply (untouched_progressed r0) in Hpg; [|done].
  destruct (Req.finished r) eqn:Er.
  - destruct (finish_row hash clock ps Hps s c G _ _ x r M I7 Hran Ha) as (m' & c' & G' & E & M' & HG & Ep).
    exists r, m', c', G'. rewrite E. split; [done|].
    eapply (prefill_update i rs s c G x r0 r m' c' G'); try done; rewrite ?Er, ?Ep; try done.
    unfold pool_shape. by rewrite Ep.
  - destruct (continue_row hash clock ps Hps s c G _ _ x r M I7 Hran Ha) as (m' & c' & G' & n' & l' & E & M' & HG & [F1 F2 F3 F4] & Hw' & Hd & Hat).
    set (r' := Req.set_last_node _ _) in *. exists r', m', c', G'. split; [done|].
    assert (Req.finished r' = false) as Er' by exact Er.
    eapply (prefill_update i rs s c G x r0 r' m' c' G'); try done; rewrite ?Er'; try done.
    + by destruct Hpg.
    + intros _. split; [done|done|]. destruct (pg_live _ _ Hpg Er) as (k & Hk & Hlt). exists k. split; [done|]. len_pos. lia.
    + unfold pool_shape. by rewrite F1, F2.
    + intros j Hj Hne. split; [by apply F4|done..].
    + by rewrite F3, app_nil_r.
    + csimpl. by rewrite app_nil_r.
Qed.

Lemma prefill_inv_marked i rs rs' s s' c G :
  prefill_inv i rs s c G → Forall2 untouched rs rs' → mem s' = mem s →
  waiting_queue s' `sublist_of` waiting_queue s → prefill_inv i rs' s' c G.
Proof using.
  clear Hps. intros [I1 I2 I3 I4 I5 I6 I7 I8 I9 I10 I11 I12] Hf Em Hq. pose proof (marked_rows b rs rs' Hf) as Hm.
  destruct (marked_fields ps (pool s) _ _ (marked_held _ _ Hm)) as (E1 & E2 & E3 & _).
  fold (held_rows (cur rs)) (held_rows (cur rs')) in E1, E2, E3.
  split; rewrite ?Em; try done.
  - by rewrite <-(Forall2_length _ _ _ Hf).
  - intros j r0 r Hj E0 E. destruct (Forall2_lookup_r _ _ _ _ _ Hf E) as (r1 & Er1 & U).
    eapply progressed_untouched; [by eapply I2|done].
  - intros j r0 r Hj E0 E. destruct (Forall2_lookup_r _ _ _ _ _ Hf E) as (r1 & Er1 & U).
    eapply untouched_trans; [by eapply I3|done].
  - intros j y Hj Ey Hfy. destruct (Forall2_lookup_r _ _ _ _ _ Hm Ey) as (x & Ex & Hxy).
    eapply next_marked; [done|]. eapply I4; [done..|]. destruct Hxy as [U _]. by rewrite <-(untouched_finished _ _ U).
  - intros j y Hj Ey. destruct (Forall2_lookup_r _ _ _ _ _ Hm Ey) as (x & Ex & Hxy). eapply ran_marked; [done|]. by eapply I5.
  - by rewrite E1, E2.
  - by rewrite E3.
  - by etrans.
Qed.

Lemma prefill_one_ok i token rs s c G :
  (i < length (reqs b))%nat → prefill_inv i rs s c G →
  ∃ rs' s' c' G', prefill_one (ps := ps) hash clock cfg accept_token B i token rs s = Ok (rs', s') ∧
    prefill_inv (S i) rs' s' c' G' ∧ steady s s'.
Proof using All.
  intros Hi I. pose proof I as [I1 I2 I3 I4 I5 I6 I7 I8 I9 I10 I11 I12].
  destruct (lookup_lt_is_Some_2 rs i) as [r Er]; [lia|]. destruct (lookup_lt_is_Some_2 (reqs b) i Hi) as [r0 Er0].
  pose proof (I3 i r0 r ltac:(lia) Er0 Er) as U. pose proof (Forall_lookup_1 _ _ _ _ Hreqs Er0) as (P1 & P2 & P3 & P4).
  pose proof (Forall_lookup_1 _ _ _ _ Hchunk Er0) as Hc. simpl in Hc.
  pose proof (untouched_spent _ _ U) as Ef. rewrite P1 in Ef. pose proof U as (Hcore & _ & _).
  injection Hcore as C1 C2 C3 C4 C5 C6 C7 C8 C9 C10.
  assert (is_Some (rows (cur rs) !! i)) as [x Hx].
  { unfold rows. simpl. apply lookup_lt_is_Some_2. rewrite !length_zip_with. destruct W as [W1 W2 W3 _ _]. lia. }
  assert (x.1 = r) as Ex. { unfold rows in Hx. apply lookup_zip_with_Some in Hx as (q & y & -> & Hq & _). simpl in Hq. by simplify_eq. }
  destruct (append_prefill_ok r token) as (r' & Ech & Ha & Hst); [by rewrite C6|by rewrite C6, C8|].
  destruct (prefill_cache_ok i rs s c G x r0 r' I Hx) as (r'' & m' & c' & G' & E & I'); rewrite ?Ex; try done.
  destruct (grammar_accept_ok accept_token i token r'' (<[i := r'']> rs) (with_mem m' s)) as (rs' & s' & Eg & Hf & Em & Hq & [Sd1 Sd2 Sd3 Sd4 Sd5]).
  { apply list_lookup_insert_eq. lia. }
  unfold prefill_one. rewrite Er, C7, P2, Hov, andb_false_r. cbn [andb].
  destruct (Z.leb_spec (Req.is_chunked r) 0); [|lia]. rewrite Ech. cbn [mbind pyres_bind].
  assert ((if Req.finished r' then s ← cache_finished (ps := ps) hash clock r' s; mret (r', s)
     else if not_decoding B r' then cache_unfinished (ps := ps) hash clock r' s else mret (r', s)) = Ok (r'', with_mem m' s)) as ->.
  { rewrite <-E. unfold not_decoding. by rewrite Hdec. }
  cbn [mbind pyres_bind mret pyres_ret]. rewrite Eg. exists rs', s', c', G'. split; [done|].
  split; [by eapply prefill_inv_marked|done].
Qed.

Lemma prefill_loop_ok tokens : ∀ i rs s c G,
  (i + length tokens = length (reqs b))%nat → prefill_inv i rs s c G →
  ∃ rs' s' c' G', prefill_loop (ps := ps) hash clock cfg accept_token B i tokens rs s = Ok (rs', s') ∧
    prefill_inv (length (reqs b)) rs' s' c' G' ∧ steady s s'.
Proof using All.
  induction tokens as [|t tokens IH]; intros i rs s c G Hl I; simpl in Hl.
  - replace i with (length (reqs b)) in I by lia. exists rs, s, c, G. done.
  - destruct (prefill_one_ok i t rs s c G ltac:(lia) I) as (rs1 & s1 & c1 & G1 & E & I1 & Hsd).
    cbn [prefill_loop]. rewrite E. cbn [mbind pyres_bind].
    destruct (IH (S i) rs1 s1 c1 G1) as (rs' & s' & c' & G' & E' & I' & Hsd'); [lia|done|].
    exists rs', s', c', G'. split; [done|]. split; [done|by etrans].
Qed.

Lemma process_prefill_ok tokens s c G :
  length tokens = length (reqs b) → chunked_req s = None → prefill_inv 0 (reqs b) s c G →
  ∃ rs s' c' G', process_batch_result_prefill (ps := ps) hash clock cfg accept_token B (Some tokens) s = Ok (map_reqs (fun _ => rs) B, s') ∧
    prefill_inv (length (reqs b)) rs s' c' G' ∧ steady s s'.
Proof using All.
  intros Hl Hc I. destruct (prefill_loop_ok tokens 0 (reqs b) s c G Hl I) as (rs & s' & c' & G' & E & I' & [D1 D2 D3 D4 D5]).
  unfold process_batch_result_prefill. rewrite E. cbn [mbind pyres_bind mret pyres_ret]. rewrite D1, Hc.
  exists rs, (with_chunked None s'), c', G'. split; [done|]. split; [|split; try done; by rewrite Hc].
  destruct I' as [I1 I2 I3 I4 I5 I6 I7 I8 I9 I10 I11 I12]. by split.
Qed.

End loop.
