(* ===== verification/EventLoop.v ===== *)
(** * The event loop

    One iteration of [event_loop_normal] picks a batch, runs the model and
    processes the result.  With nothing waiting, a batch whose requests fit
    the pool together is decoded to its end: every step finds its memory, no
    request is retracted, and the idle check of [check_memory] passes when all
    of them have finished. *)

From Stdlib Require Import QArith.
From S2P Require Import Prelude Allocator PagedAllocator PagedProofs SWAAllocator ReqPool SamplingParams Request KVAllocator FreeGroups.
From S2P Require Import RadixCache RadixInv RadixOwn RadixInsert RadixLocks RadixEvict RadixReq SchedulePolicy PrefixCache PrefillAdder ScheduleBatch TreeCache Scheduler.
From S2P Require Import BatchKernels BatchMemory MemoryAccount BatchRetract BatchDecode SchedulerDecode LiveRows OutputProcessor PoolFrame OutputProofs.
Open Scope Z_scope.

(** ** The demand of a batch *)

(** The tokens a request may come to hold, in whole pages. *)
Definition max_new (r : Req.t) : Z := default 0 (SamplingParams.max_new_tokens (Req.sampling_params r)).
Definition budget (ps : nat) (r : Req.t) : Z :=
  cdiv (len (Req.origin_input_ids r) + max_new r) (Z.of_nat ps) * Z.of_nat ps.
Definition demand (ps : nat) (rs : list Req.t) : Z := zsum (budget ps <$> rs).

(** A request being served: it has not finished, its limit is set and fits
    the context, and it has tokens left. *)
Record serving (max_context_len : Z) (r : Req.t) : Prop := mk_serving {
  sv_processable : processable r;
  sv_limit : SamplingParams.max_new_tokens (Req.sampling_params r) = Some (max_new r);
  sv_left : len (Req.output_ids r) < max_new r;
  sv_context : len (Req.origin_input_ids r) + max_new r ≤ max_context_len;
}.

Section demand.
Context (garbage tl_other : Z → Z) (ps : nat) (Hps : (0 < ps)%nat).
#[local] Instance deba : BatchAllocator Paged.t := paged_batch_allocator garbage tl_other.
#[local] Instance dekv : KVAllocator ps Paged.t := paged_kv ps.

(** A request's path, its own pages and the page of the next step. *)
Lemma row_budget p c G Hs x :
  repr c G Hs → page_size c = ps → ReqPool.wf p → attached ps G x.1 → decodable ps false p x →
  serving (ReqPool.max_context_len p) x.1 →
  len (default [] (G !! row_node x)) + Z.of_nat ps * len (row_own ps p x) +
    new_pages (Z.of_nat ps) (1 + x.2.2.1 - 1) (1 + x.2.2.1) * Z.of_nat ps ≤ budget ps x.1.
Proof using Hps.
  intros R Ep (_ & Hrl & _) (n & ll & En & Hg & _ & Hb) [D1 D2 D3 D4 D5 D6 _] [_ _ S3 _].
  assert (length ll mod ps = 0)%nat as Hal by (rewrite <-Ep; by eapply path_aligned).
  pose proof (floor_prefix ps (length ll) _ Hps Hal Hb) as Efl. pose proof (Hrl _ D3) as Hlr.
  unfold row_node. rewrite En. simpl. rewrite Hg. simpl. unfold row_own, own_slots. rewrite Efl, pages_cdiv by done.
  set (L := Z.of_nat (length ll)) in *.
  assert (len ((ReqPool.row x.2.1 p).[L :: x.2.2.1]) = x.2.2.1 - L) as ->.
  { rewrite py_slice_nonneg by lia. unfold len in *. rewrite length_take, length_drop. lia. }
  assert (L mod Z.of_nat ps = 0) as Hm by (unfold L; rewrite <-Nat2Z.inj_mod; lia).
  assert (L + Z.of_nat ps * cdiv (x.2.2.1 - L) (Z.of_nat ps) = cdiv x.2.2.1 (Z.of_nat ps) * Z.of_nat ps) as Hc.
  { unfold cdiv. apply Z.mod_divide in Hm as [q Hq]; [|lia]. rewrite Hq.
    replace (x.2.2.1 + Z.of_nat ps - 1) with (x.2.2.1 - q * Z.of_nat ps + Z.of_nat ps - 1 + q * Z.of_nat ps) by lia.
    rewrite Z.div_add by lia. lia. }
  change (len ll) with L. unfold new_pages. replace (1 + x.2.2.1 - 1) with x.2.2.1 by lia.
  assert (cdiv (1 + x.2.2.1) (Z.of_nat ps) ≤ cdiv (len (Req.origin_input_ids x.1) + max_new x.1) (Z.of_nat ps)).
  { apply cdiv_mono; [lia|]. unfold Req.seqlen in D4. lia. }
  unfold budget. nia.
Qed.

Lemma rows_budget p c G Hs xs :
  repr c G Hs → page_size c = ps → ReqPool.wf p →
  Forall (fun x => attached ps G x.1 ∧ decodable ps false p x ∧ serving (ReqPool.max_context_len p) x.1) xs →
  zsum ((fun h => len (default [] (G !! h))) <$> (row_node <$> xs)) + Z.of_nat ps * len (xs ≫= row_own ps p) +
    total_pages (Z.of_nat ps) (decode_reqs (decode_pair p <$> xs)) * Z.of_nat ps ≤ demand ps xs.*1.
Proof using Hps.
  intros R Ep Hw. unfold total_pages, demand. induction 1 as [|x xs (Ha & Hd & Hv) _ IH]; [csimpl; unfold zsum, len; simpl; lia|].
  csimpl. rewrite !zsum_cons, len_app. pose proof (row_budget p c G Hs x R Ep Hw Ha Hd Hv) as Hx. cbn [fst snd]. lia.
Qed.

(** The pages of the next step fit when the demand fits the pool. *)
Lemma demand_fits m b c G :
  decode_ready ps m b c G [] [] → enable_overlap b = false →
  Forall (serving (ReqPool.max_context_len (req_to_token_pool m))) (reqs b) →
  demand ps (reqs b) ≤ Z.max 0 (Paged.num_pages (token_to_kv_pool_allocator m)) * Z.of_nat ps →
  new_page_count_next_decode b m * Z.of_nat ps ≤ kv_available (token_to_kv_pool_allocator m) + evictable_size c.
Proof using Hps.
  intros D Hov Hsv Hfit. pose proof (decode_lens ps _ _ _ _ _ _ D) as Esl. destruct D as [W _ _ Hw _ Hx Hm _ _ Hat].
  rewrite Hov in Hx. 
  apply (running_all ps m b c G [] [] W (decodable_idx _ _ _ _ Hx)) in Hm. rewrite !app_nil_r in Hm.
  pose proof (paged_account m c G _ _ Hm) as Hacc'. pose proof (protected_le c G _ (rm_repr _ _ _ _ _ Hm)) as Hpr.
  assert (Paged.page_size (token_to_kv_pool_allocator m) = Z.of_nat ps) as Hpg by apply (rm_owned _ _ _ _ _ Hm).
  pose proof (decode_page_count garbage tl_other ps b m _ Hpg ltac:(lia) Esl) as Epc.
  change (pba garbage tl_other) with deba in Epc. rewrite Epc.
  destruct (rows_fields b W) as (F1 & _).
  pose proof (rows_budget (req_to_token_pool m) c G _ (rows b) (rm_repr _ _ _ _ _ Hm) (rm_page _ _ _ _ _ Hm) Hw) as Hb.
  rewrite F1 in Hb.
  change (kv_available (token_to_kv_pool_allocator m)) with (Paged.available_size (token_to_kv_pool_allocator m)).
  enough (Forall (fun x => attached ps G x.1 ∧ decodable ps false (req_to_token_pool m) x ∧
    serving (ReqPool.max_context_len (req_to_token_pool m)) x.1) (rows b)) as Hall by (specialize (Hb Hall); lia).
  rewrite <-F1, Forall_fmap in Hat, Hsv. apply Forall_forall. intros x Hin. rewrite Forall_forall in Hat, Hsv, Hx. by split; [apply Hat|split; [apply Hx|apply Hsv]].
Qed.

End demand.

(** ** A decoding round *)

Section round.
Context (hash : list Z → Z) (clock : nat → Z) (garbage : Z → Z) `{HeapQ}.
Context (torch_garbage : nat → list Z) (shuffle : list Req.t → list Req.t) (tl_other : Z → Z) (ps : nat).
#[local] Instance rdba : BatchAllocator Paged.t := paged_batch_allocator garbage tl_other.
Context (cfg : Config) (accept_token : Req.t → Z → option bool) (forward : Batch → option (list Z)).
Context (Hps : (1 < ps)%nat) (Hsmall : Z.of_nat ps ≤ retract_decode_steps).
Context (Hcfg : cfg_page_size cfg = Z.of_nat ps) (Hspec : spec_algorithm cfg = None)
  (Hbuf : decode_mem_cache_buf_multiplier cfg = 1) (Hov : cfg_enable_overlap cfg = false).
(** The model worker samples one token per request. *)
Context (Hforward : ∀ B, ∃ tokens, forward B = Some tokens ∧ length tokens = length (reqs (sb B))).
Abbreviation sched := (Scheduler (A := Paged.t)).
Implicit Types (s : sched).

Definition pages_of s : Z := Z.max 0 (Paged.num_pages (token_to_kv_pool_allocator (mem s))) * Z.of_nat ps.
Definition context_of s : Z := ReqPool.max_context_len (req_to_token_pool (mem s)).

(** The running batch: [b] are its requests that have not finished. *)
Record running_ready s b c G : Prop := mk_running_ready {
  rr_filter : filter_batch (default_keep (fun _ => false) (reqs (sb (running_batch s)))) (sb (running_batch s)) = Ok b;
  rr_ready : decode_ready ps (mem s) b c G [] [];
  rr_overlap : enable_overlap b = false;
  rr_slots : slots_ok (mem s) b [];
  rr_serving : Forall (serving (context_of s)) (reqs b);
  rr_demand : demand ps (reqs b) ≤ pages_of s;
}.

(** All of them have finished and nothing is held. *)
Record all_done s c G : Prop := mk_all_done {
  ad_done : Forall (fun r => Req.finished r = true) (reqs (sb (running_batch s)));
  ad_mem : radix_mem (H0 := paged_kv ps) (mem s) c G [] [];
  ad_slots : ReqPool.owned (req_to_token_pool (mem s)) [];
  ad_pool : ReqPool.wf (req_to_token_pool (mem s));
}.

(** The requests after the round: each has one token more, and the tokens it
    has left are one fewer. *)
Definition left (r : Req.t) : Z := max_new r - len (Req.output_ids r).

Lemma advanced_left r0 r : advanced r0 r → left r = left r0 - 1 ∧ budget ps r = budget ps r0.
Proof using.
  clear. intros [A1 [t A2] _]. injection A1 as _ C2 _ _ _ C6 _ _ C9 C10. unfold left, budget, max_new. rewrite A2, C2, C6, len_app.
  change (len [t]) with 1. split; [lia|done].
Qed.

Lemma advanced_serving k r0 r : advanced r0 r → serving k r0 → Req.finished r = false → serving k r.
Proof using.
  clear. intros [A1 _ A3] [(_ & P2 & P3 & P4) S2 S3 S4] Hf. destruct (A3 Hf) as (k' & Hk & Hl).
  injection A1 as C1 C2 C3 C4 C5 C6 C7 C8 C9 C10. unfold max_new in *. rewrite C6 in Hk. rewrite Hk in S3, S4.
  split; unfold processable, max_new; rewrite ?C2, ?C6, ?C7, ?C8, ?Hk; try done.
  split; [done|]. split; [done|]. split; [eauto|done].
Qed.

Lemma batch_slots b : batch_wf b → Forall (fun x => Req.req_pool_idx x.1 = Some x.2.1) (rows b) →
  omap (slot_of b) (seq 0 (length (reqs b))) = req_pool_indices b.
Proof using.
  intros W Hx. rewrite (picked_slots b _ W Hx (indices_all b)), (picked_all b W). by destruct (rows_fields b W) as (_ & -> & _).
Qed.

Lemma demand_live k rs0 rs : Forall2 advanced rs0 rs → Forall (serving k) rs0 →
  demand ps (omap (fun i => rs !! i) (live rs)) ≤ demand ps rs0.
Proof using Hps.
  intros Hadv Hsv. assert (budget ps <$> rs0 = budget ps <$> rs) as E.
  { clear Hsv. induction Hadv as [|r0 r rs0 rs Ha _ IH]; [done|]. csimpl. destruct (advanced_left r0 r Ha) as [_ ->]. by rewrite IH. }
  unfold demand. apply zsum_submseteq.
  - rewrite E. apply fmap_submseteq. rewrite <-(omap_seq_all rs) at 2. unfold live. generalize (seq 0 (length rs)). intros l.
    induction l as [|i l IH]; [done|]. rewrite filter_cons. case_decide; csimpl; destruct (rs !! i); try done.
    + by apply submseteq_skip.
    + by apply submseteq_cons.
  - intros x (r & -> & Hr)%list_elem_of_fmap. destruct (proj1 (Forall_forall _ _) Hsv r Hr) as [_ _ S3 _].
    unfold budget, cdiv. pose proof (Z.div_pos (len (Req.origin_input_ids r) + max_new r + Z.of_nat ps - 1) (Z.of_nat ps)).
    len_pos. nia.
Qed.

(** What processing a decode batch leaves: nothing, or the next batch. *)
Definition settled s rs : Prop :=
  ∃ c G, (live rs = [] ∧ all_done s c G) ∨ (∃ b, running_ready s b c G ∧ reqs b = omap (fun i => rs !! i) (live rs)).

Lemma process_round s B c G :
  decode_started ps (mem s) (sb B) c G [] [] → enable_overlap (sb B) = false → slots_ok (mem s) (sb B) [] →
  Forall (serving (context_of s)) (reqs (sb B)) → demand ps (reqs (sb B)) ≤ pages_of s →
  ∃ rs B' s', process_batch_result (ps := ps) hash clock cfg accept_token (run_batch forward B).2 (run_batch forward B).1 s = Ok (B', s') ∧
    running_batch s' = B' ∧ is_extend (sb B') = false ∧ reqs (sb B') = rs ∧ Forall2 advanced (reqs (sb B)) rs ∧ settled s' rs ∧
    waiting_queue s' `sublist_of` waiting_queue s ∧ chunked_req s' = chunked_req s ∧ last_batch s' = last_batch s ∧
    pages_of s' = pages_of s ∧ context_of s' = context_of s.
Proof using Hps Hspec Hov Hforward garbage tl_other.
  intros [W Hmode _ Hw Hnd Hrows Hmem Hat] Eov Hsl Hsv Hdm. destruct (Hforward B) as (tokens & Ef & Hl).
  unfold run_batch. rewrite Ef. cbn [fst snd]. rewrite Eov in Hrows.
  set (b1 := with_output_ids (Some tokens) (sb B)). set (p := req_to_token_pool (mem s)).
  assert (Forall (fun x => Req.req_pool_idx x.1 = Some x.2.1) (rows (sb B))) as Hidx
    by (eapply Forall_impl; [exact Hrows|]; by intros x []).
  assert (batch_wf b1) as W1 by (destruct W; split; try done; intros o E; by injection E as <-).
  assert (Forall processable (reqs b1)) as Hpr by (eapply Forall_impl; [exact Hsv|]; by intros r []).
  destruct (process_decode_ok (H := paged_kv ps) hash clock cfg accept_token Hov Hspec b1 (ReqPool.req_to_token p) [] [] p
    (arange 0 (ReqPool.size p)) (waiting_queue s) W1 Hrows eq_refl Hpr (with_sb b1 B) tokens s c G)
    as (rs & B' & s' & c' & G' & E & EB & Er & Hadv & Hmem' & Hat' & Hw' & Hsh & Hsl' & Hq & Hch & Hla & _); try done.
  { by destruct Hmem as [M T]; split. }
  { unfold slots_ok, ReqPool.owned in Hsl. rewrite app_nil_r in Hsl. fold p in Hsl. rewrite <-Hsl.
    apply reflexive_eq. f_equal. exact (batch_slots (sb B) W Hidx). }
  exists rs, B', s'. unfold process_batch_result. cbn [sb with_sb]. change (forward_mode b1) with (forward_mode (sb B)). rewrite Hmode.
  assert (pages_of s' = pages_of s) as Epg.
  { unfold pages_of. f_equal. f_equal. exact (process_decode_size (H3 := paged_size garbage tl_other ps) hash clock cfg accept_token _ _ _ _ _ E). }
  injection Hsh as Hz1 Hz2.
  assert (is_extend (sb B') = false) as Hie by (rewrite EB; unfold is_extend; simpl; by rewrite Hmode).
  assert (reqs (sb B') = rs) as Ers by (by rewrite EB).
  split; [exact E|]. split_and!; try done. exists c', G'. destruct (decide (live rs = [])) as [Hlive|Hlive].
  - left. split; [done|]. split.
    + rewrite Er, Ers. apply Forall_forall. intros r (i & Hi)%list_elem_of_lookup. apply not_false_iff_true. intros Hf.
      assert (i ∈ live rs) as Hin; [|by rewrite Hlive in Hin; apply elem_of_nil in Hin].
      apply list_elem_of_filter. split; [unfold unfinished; by rewrite Hi, <-Hf|]. apply elem_of_seq. apply lookup_lt_Some in Hi. lia.
    + destruct Hmem' as [M _]. by rewrite Hlive in M.
    + rewrite Hlive in Hsl'. unfold ReqPool.owned. by rewrite Hz1.
    + done.
  - right. destruct Hmem' as [M Etbl].
    destruct (next_ready ps (sb B) (mem s') c' G' [] [] rs tokens) as (b2 & E2 & Eov2 & D2 & Er2 & Ei2); try done; [lia|..].
    + eapply Forall_impl; [exact Hrows|]. intros x. by apply stepped_shape.
    + eapply Forall_impl; [exact Hsv|]. intros r [_ S2 S3 S4]. exists (max_new r). rewrite Hz2. split; [done|]. len_pos. split; [lia|done].
    + by split; [rewrite Etbl|].
    + exists b2. split; [|done]. split; try done.
      * rewrite Er, Ers, keep_live. rewrite EB. exact E2.
      * unfold slots_ok, ReqPool.owned. rewrite Ei2, app_nil_r, Hz1. exact Hsl'.
      * rewrite Er2. unfold context_of. rewrite Hz2. apply Forall_forall. intros r (i & Hi & Hr)%list_elem_of_omap.
        destruct (Forall2_lookup_r _ _ _ _ _ Hadv Hr) as (r0 & E0 & Ha). eapply advanced_serving; [done|by eapply Forall_lookup_1|].
        apply list_elem_of_filter in Hi as [Hu _]. unfold unfinished in Hu. rewrite Hr in Hu. by injection Hu.
      * rewrite Er2, Epg. etrans; [by eapply demand_live|done].
Qed.

(** A batch whose demand fits is prepared without retraction. *)
Lemma update_round s b c G :
  running_ready s b c G →
  ∃ B s' c' G', update_running_batch (ps := ps) hash cfg (running_batch s) s = Ok (B, s') ∧ is_empty (sb B) = false ∧
    waiting_queue s' = waiting_queue s ∧ chunked_req s' = chunked_req s ∧ last_batch s' = last_batch s ∧
    pages_of s' = pages_of s ∧ context_of s' = context_of s ∧ reqs (sb B) ≡ₚ reqs b ∧
    decode_started ps (mem s') (sb B) c' G' [] [] ∧ enable_overlap (sb B) = false ∧ slots_ok (mem s') (sb B) [].
Proof using Hps Hsmall Hcfg Hspec Hbuf.
  intros [Ef D Eov Hsl Hsv Hdm]. pose proof (demand_fits garbage tl_other ps ltac:(lia) (mem s) b c G D Eov Hsv Hdm) as Hfit.
  destruct (update_running_batch_ok hash garbage tl_other ps cfg Hps Hsmall Hcfg Hspec Hbuf s (running_batch s) b c G [] [] Ef D)
    as (B & s' & ret & c' & G' & E & Hq & Hrid & Hsub & Hne & Hret & Hov' & Hst & Hslt & Hsh & Hch & Hla & _); [by intros _|].
  assert (ret = []) as -> by (by apply Hret). rewrite app_nil_r in Hq, Hrid. injection Hsh as Hz1 Hz2.
  exists B, s', c', G'. split; [exact E|]. split_and!; try done.
  - unfold is_empty. destruct (reqs (sb B)); [done|]. rewrite len_cons. len_pos. lia.
  - unfold pages_of. f_equal. f_equal. exact (update_running_size (H3 := paged_size garbage tl_other ps) hash cfg _ _ _ _ E).
  - apply submseteq_length_Permutation; [done|]. apply Permutation_length in Hrid. rewrite !length_fmap in Hrid. lia.
  - congruence.
  - by apply Hslt.
Qed.

(** ** The event loop with an empty queue *)

(** Nothing waits, and the last batch was no prefill. *)
Definition quiet s : Prop :=
  waiting_queue s = [] ∧ chunked_req s = None ∧
  match last_batch s with Some L => is_extend (sb L) = false | None => True end.

Abbreviation step := (event_loop_step (ps := ps) hash clock garbage torch_garbage shuffle cfg accept_token forward).

Lemma quiet_next s : quiet s →
  get_next_batch_to_run (ps := ps) hash clock garbage torch_garbage shuffle cfg s =
  if is_empty (sb (running_batch s)) then Ok (None, s)
  else '(B, s') ← update_running_batch (ps := ps) hash cfg (running_batch s) s;
       mret (if is_empty (sb B) then None else Some B, with_running B s').
Proof using.
  intros (Hq & Hc & Hl). unfold get_next_batch_to_run, chunked_object. rewrite Hc. cbn [fmap option_fmap option_map mbind pyres_bind mret pyres_ret].
  assert (∀ X (f : sched → pyres X), (match last_batch s with Some L => if is_extend (sb L) then merge_last [] L s else mret s | None => mret s end ≫= f) = f s) as ->.
  { intros X f. destruct (last_batch s); [rewrite Hl|]; done. }
  unfold get_new_batch_prefill. rewrite Hc, Hq. rewrite orb_true_r. done.
Qed.

(** One round: the batch advances. *)
Lemma step_decoding s b c G :
  quiet s → running_ready s b c G →
  ∃ s' rs0 rs, step s = Ok s' ∧ rs0 ≡ₚ reqs b ∧ Forall2 advanced rs0 rs ∧ quiet s' ∧ settled s' rs ∧
    reqs (sb (running_batch s')) = rs ∧ pages_of s' = pages_of s ∧ context_of s' = context_of s.
Proof using All.
  intros Hq R. pose proof R as [Ef D _ _ Hsv Hdm]. unfold event_loop_step. rewrite (quiet_next s Hq).
  destruct (update_round s b c G R) as (B & s1 & c1 & G1 & E1 & He & Hq1 & Hc1 & Hl1 & Hp1 & Hx1 & Hperm & Hst & Eov & Hsl).
  assert (is_empty (sb (running_batch s)) = false) as ->.
  { unfold is_empty. destruct (reqs (sb (running_batch s))) eqn:Er; [|rewrite len_cons; len_pos; lia].
    exfalso. apply (dr_some _ _ _ _ _ _ _ D). cbn in Ef. by injection Ef as <-. }
  rewrite E1. cbn [mbind pyres_bind mret pyres_ret]. rewrite He.
  destruct (process_round (with_running B s1) B c1 G1) as (rs & B' & s2 & E2 & Er2 & Hie & Ers & Hadv & Hset & Hq2 & Hc2 & Hl2 & Hp2 & Hx2); try done.
  { change (context_of (with_running B s1)) with (context_of s1). rewrite Hx1. by rewrite Hperm. }
  { change (pages_of (with_running B s1)) with (pages_of s1). rewrite Hp1. unfold demand. by rewrite (zsum_perm _ _ (fmap_Permutation (budget ps) _ _ Hperm)). }
  destruct (run_batch forward B) as [res B1]. cbn [fst snd] in E2. rewrite E2. cbn [mbind pyres_bind mret pyres_ret].
  exists (with_last (Some B') s2), (reqs (sb B)), rs. split; [done|]. split; [done|]. split; [done|]. split.
  { destruct Hq as (Q1 & Q2 & _). simpl in *. rewrite Hq1, Q1 in Hq2. apply sublist_nil_r in Hq2.
    unfold quiet. simpl. by rewrite Hq2, Hc2, Hc1. }
  split; [|split; [simpl; by rewrite Er2|split; simpl; [by etrans|by etrans]]].
  destruct Hset as (c' & G' & Hset). exists c', G'. destruct Hset as [[Hl [A1 A2 A3 A4]]|(b' & [R1 R2 R3 R4 R5 R6] & Hb')].
  - left. split; [done|]. by split.
  - right. exists b'. split; [|done]. by split.
Qed.

(** ** The idle loop *)

Lemma live_nil rs : Forall (fun r => Req.finished r = true) rs → live rs = [].
Proof using.
  clear. intros Hd. apply elem_of_nil_inv. intros i [Hu Hi]%list_elem_of_filter. unfold unfinished in Hu.
  destruct (rs !! i) as [r|] eqn:E; [|done]. injection Hu as Hf. by rewrite (Forall_lookup_1 _ _ _ _ Hd E) in Hf.
Qed.

(** With nothing held the memory check passes. *)
Lemma idle_check s c G :
  radix_mem (H0 := paged_kv ps) (mem s) c G [] [] → ReqPool.owned (req_to_token_pool (mem s)) [] → ReqPool.wf (req_to_token_pool (mem s)) →
  pages_of s = max_total_num_tokens cfg → check_memory (ps := ps) cfg s = Ok tt.
Proof using.
  clear -tl_other garbage. intros M Hown Hw Hp. pose proof (paged_account (mem s) c G [] [] M) as Hacc. rewrite (protected_none c G (rm_repr _ _ _ _ _ M)) in Hacc.
  unfold check_memory. rewrite (rm_tree _ _ _ _ _ M). simpl.
  assert (Paged.available_size (token_to_kv_pool_allocator (mem s)) + evictable_size c = max_total_num_tokens cfg) as ->.
  { unfold pages_of in Hp. change (len []) with 0 in Hacc. lia. }
  rewrite Z.eqb_refl. simpl. unfold ReqPool.owned in Hown. rewrite app_nil_r in Hown.
  rewrite (len_perm _ _ Hown), len_arange, Z.sub_0_r, Z.max_r; [by rewrite Z.eqb_refl|].
  destruct Hw as [<- _]. len_pos. lia.
Qed.

(** Nothing runs: the memory check passes and nothing changes. *)
Lemma step_idle s c G :
  quiet s → all_done s c G → pages_of s = max_total_num_tokens cfg →
  ∃ s', step s = Ok s' ∧ quiet s' ∧ all_done s' c G ∧ reqs (sb (running_batch s')) = [] ∧ mem s' = mem s.
Proof using Hps.
  intros Hq [Hd M Hown Hw] Hp. unfold event_loop_step. rewrite (quiet_next s Hq).
  assert (∀ s1, mem s1 = mem s → check_memory (ps := ps) cfg s1 = Ok tt) as Hck.
  { intros s1 Em. eapply idle_check; unfold pages_of; by rewrite Em. }
  destruct (is_empty (sb (running_batch s))) eqn:He.
  - cbn [mbind pyres_bind]. rewrite Hck by done. cbn [mbind pyres_bind mret pyres_ret]. eexists. split; [done|].
    destruct Hq as (Q1 & Q2 & Q3). split; [done|]. split; [by split|]. split; [|done]. simpl.
    unfold is_empty in He. apply Z.eqb_eq, len_zero in He. done.
  - assert (update_running_batch (ps := ps) hash cfg (running_batch s) s =
      Ok (set_full false (with_sb (with_reqs [] (sb (running_batch s))) (running_batch s)), s)) as ->.
    { unfold update_running_batch. rewrite keep_live. assert (live (reqs (sb (running_batch s))) = []) as ->; [|done].
      by apply live_nil. }
    cbn [mbind pyres_bind mret pyres_ret]. simpl. rewrite Hck by done. cbn [mbind pyres_bind mret pyres_ret]. eexists. split; [done|].
    destruct Hq as (Q1 & Q2 & Q3). split; [done|]. split; [by split|]. done.
Qed.

(** ** The run of a batch *)

(** [n] iterations of the loop without new requests. *)
Abbreviation event_loop_run n :=
  (event_loop_normal (ps := ps) hash clock garbage torch_garbage shuffle cfg accept_token forward (replicate n [])).

Lemma run_done c G k : ∀ s, quiet s → all_done s c G → pages_of s = max_total_num_tokens cfg →
  ∃ s', event_loop_run k s = Ok s' ∧ quiet s' ∧ all_done s' c G.
Proof using Hps.
  induction k as [|k IH]; intros s Hq Hd Hp; [by exists s|].
  destruct (step_idle s c G Hq Hd Hp) as (s1 & E & Hq1 & Hd1 & _ & Em). cbn [replicate event_loop_normal foldl]. rewrite E. cbn [mbind pyres_bind].
  apply IH; [done..|]. unfold pages_of. by rewrite Em.
Qed.

Lemma left_live rs0 rs (n : Z) : Forall2 advanced rs0 rs → Forall (fun r => left r ≤ n) rs0 →
  Forall (fun r => left r ≤ n - 1) (omap (fun i => rs !! i) (live rs)).
Proof using ps.
  clear Hps Hsmall Hcfg Hspec Hbuf Hov Hforward. intros Hadv Hl. apply Forall_forall. intros r (i & _ & Hi)%list_elem_of_omap.
  destruct (Forall2_lookup_r _ _ _ _ _ Hadv Hi) as (r0 & E0 & Ha). destruct (advanced_left r0 r Ha) as [-> _].
  pose proof (Forall_lookup_1 _ _ _ _ Hl E0) as H0. simpl in H0. lia.
Qed.

Lemma left_pos s b c G (n : nat) : running_ready s b c G → Forall (fun r => left r ≤ Z.of_nat n) (reqs b) → (0 < n)%nat.
Proof using.
  clear. intros [_ D _ _ Hsv _] Hn. destruct (reqs b) as [|r rs] eqn:Er; [by destruct (dr_some _ _ _ _ _ _ _ D)|].
  apply Forall_cons in Hn as [Hn _]. apply Forall_cons in Hsv as [[_ _ Hsv _] _]. unfold left in Hn. lia.
Qed.

Lemma run_batch_ok k : ∀ (n : nat) s b c G,
  quiet s → running_ready s b c G → pages_of s = max_total_num_tokens cfg → Forall (fun r => left r ≤ Z.of_nat n) (reqs b) →
  ∃ s', event_loop_run k s = Ok s' ∧ quiet s' ∧ ((n ≤ k)%nat → ∃ c' G', all_done s' c' G').
Proof using All.
  induction k as [|k IH]; intros n s b c G Hq R Hp Hn.
  - exists s. split; [done|]. split; [done|]. intros Hk. pose proof (left_pos s b c G n R Hn). lia.
  - destruct (step_decoding s b c G Hq R) as (s1 & rs0 & rs & E & Hperm & Hadv & Hq1 & (c1 & G1 & Hset) & _ & Hp1 & _).
    cbn [replicate event_loop_normal foldl]. rewrite E. cbn [mbind pyres_bind]. rewrite <-Hp1 in Hp. destruct Hset as [[Hl Hd]|(b' & R' & Er')].
    + destruct (run_done c1 G1 k s1 Hq1 Hd Hp) as (s' & E' & Hq' & Hd'). exists s'. split; [done|]. split; [done|]. eauto.
    + destruct n as [|n]; [pose proof (left_pos s b c G 0 R Hn); lia|].
      destruct (IH n s1 b' c1 G1 Hq1 R' Hp) as (s' & E' & Hq' & Hd').
      { rewrite Er'. replace (Z.of_nat n) with (Z.of_nat (S n) - 1) by lia. eapply left_live; [done|]. by rewrite Hperm. }
      exists s'. split; [done|]. split; [done|]. intros Hk. apply Hd'. lia.
Qed.

End round.

(** a running batch is served to its end.  When nothing waits, the memory
    of the pool is accounted for and the requests of the batch fit the pool
    together with the tokens they may still generate, every iteration of
    [event_loop_normal] succeeds: no step runs out of memory and no request is
    retracted, whatever tokens the model samples.  After as many iterations
    as some request has tokens left, all requests have finished, nothing is
    held, and the memory check of the idle loop passes from then on. *)
Theorem event_loop_completes hash clock (garbage : Z → Z) `{HeapQ} torch_garbage shuffle (tl_other : Z → Z) (ps : nat)
    (cfg : Config) (accept_token : Req.t → Z → option bool) (forward : Batch → option (list Z))
    (s : Scheduler (A := Paged.t)) b c G (n k : nat) :
  (1 < ps)%nat → Z.of_nat ps ≤ retract_decode_steps →
  cfg_page_size cfg = Z.of_nat ps → spec_algorithm cfg = None → decode_mem_cache_buf_multiplier cfg = 1 →
  cfg_enable_overlap cfg = false →
  (∀ B, ∃ tokens, forward B = Some tokens ∧ length tokens = length (reqs (sb B))) →
  quiet s → running_ready ps s b c G → pages_of ps s = max_total_num_tokens cfg →
  Forall (fun r => left r ≤ Z.of_nat n) (reqs b) →
  ∃ s', event_loop_normal (ps := ps) (H2 := paged_batch_allocator garbage tl_other) hash clock garbage torch_garbage shuffle cfg
      accept_token forward (replicate k []) s = Ok s' ∧
    quiet s' ∧ ((n ≤ k)%nat → ∃ c' G', all_done ps s' c' G').
Proof. intros H1 H2 H3 H4 H5 H6 H7. by apply run_batch_ok. Qed.

(** The two requests of the retraction example: six pages for at most five
    tokens each. *)
Definition demo_forward (B : Batch) : option (list Z) := Some (replicate (length (reqs (sb B))) 5).

Lemma decode_scheduler_ready : ∃ G, running_ready 2 decode_scheduler retract_batch demo_cache G.
Proof.
  destruct decode_ready_demo as [G D]. exists G. split.
  - vm_compute. reflexivity.
  - exact D.
  - reflexivity.
  - vm_compute. reflexivity.
  - repeat constructor; try (vm_compute; done); (eexists; reflexivity) || (left; reflexivity).
  - vm_compute. discriminate.
Qed.

Lemma event_loop_completes_witness :
  ∃ s' c G, event_loop_normal (ps := 2) (H0 := paged_kv 2) (H1 := paged_groups 2) (H2 := paged_batch_allocator (fun _ => 0) (fun _ => 0))
      demo_hash Z.of_nat (fun _ => 0) (fun n => replicate n 0) (fun l => l) decode_config
      (fun _ _ => None) demo_forward (replicate 2 []) decode_scheduler = Ok s' ∧ all_done 2 s' c G.
Proof.
  destruct decode_scheduler_ready as [G R].
  destruct (event_loop_completes demo_hash Z.of_nat (fun _ => 0) (fun n => replicate n 0) (fun l => l) (fun _ => 0) 2 decode_config
    (fun _ _ => None) demo_forward decode_scheduler retract_batch demo_cache G 2 2) as (s' & E & _ & Hd);
    [lia|discriminate|reflexivity|reflexivity|reflexivity|reflexivity| |split; [reflexivity|split; [reflexivity|exact I]]|exact R|reflexivity| |].
  - intros B. eexists. split; [reflexivity|]. apply length_replicate.
  - repeat constructor; vm_compute; discriminate.
  - destruct Hd as (c' & G' & Hd); [lia|]. exists s', c', G'. split; [exact E|exact Hd].
Defined.
