(* ===== verification/Serving.v ===== *)
(** * Serving without loss

    The whole of [event_loop_normal] with prefill, merging of batches,
    decoding, retraction and the idle check, for a server without chunked
    prefill, mixed batches, overlap scheduling and speculative decoding.  From
    a state in which every page and every row of the request table is
    accounted for, every iteration succeeds and leads to such a state. *)

From Stdlib Require Import QArith.
From S2P Require Import Prelude Allocator PagedAllocator PagedProofs SWAAllocator ReqPool SamplingParams Request KVAllocator FreeGroups.
From S2P Require Import RadixCache RadixInv RadixOwn RadixInsert RadixLocks RadixEvict RadixReq SchedulePolicy SchedulePolicyProofs PrefixCache PrefillAdder ScheduleBatch.
From S2P Require Import TreeCache Scheduler AdmissionProofs BatchKernels BatchMemory MemoryAccount BatchExtend BatchRetract SchedulerProofs.
From S2P Require Import BatchDecode SchedulerDecode LiveRows OutputProcessor PoolFrame OutputProofs PrefillOutput EventLoop.
Open Scope Z_scope.

(** ** Settings and requests *)

(** The settings of the server. *)
Record plain_config (ps : nat) (cfg : Config) : Prop := mk_plain_config {
  cf_paged : (1 < ps)%nat;
  cf_small : Z.of_nat ps ≤ retract_decode_steps;
  cf_page : cfg_page_size cfg = Z.of_nat ps;
  cf_spec : spec_algorithm cfg = None;
  cf_buf : decode_mem_cache_buf_multiplier cfg = 1;
  cf_overlap : cfg_enable_overlap cfg = false;
  cf_mixed : is_mixed_chunk cfg = false;
  cf_whole : chunked_prefill_size cfg = None;
  cf_triton : support_triton cfg = true ∧ last_loc_by_triton cfg = true;
  cf_ratio : (0 <= min_new_token_ratio cfg)%Q ∧ (0 <= init_new_token_ratio cfg)%Q;
  cf_pool : max_total_num_tokens cfg < 2 ^ 30;
}.

(** A request the server can complete: it fits the context, and alone it
    leaves a page of the pool free.  It may have been rejected before its first
    token.  [fits] stands for a further condition on its input and its
    parameters. *)
Record wanted (fits : list Z → SamplingParams.t → Prop) (ps : nat) (context pages : Z) (r : Req.t) : Prop := mk_wanted {
  wt_finished : spent r = false;
  wt_stop : SamplingParams.stop_strs (Req.sampling_params r) = [] ∨ is_Some (Req.tokenizer r);
  wt_limit : SamplingParams.max_new_tokens (Req.sampling_params r) = Some (max_new r);
  wt_left : len (Req.output_ids r) < max_new r;
  wt_context : len (Req.origin_input_ids r) + (if Req.finished r then 1 else max_new r) ≤ context;
  wt_input : 0 < len (Req.origin_input_ids r);
  wt_chunked : Req.is_chunked r ≤ 0;
  wt_spare : Req.finished r = false → budget ps r + Z.of_nat ps ≤ pages;
  wt_fits : fits (Req.origin_input_ids r) (Req.sampling_params r);
}.

(** A request in a running batch. *)
Definition going (r : Req.t) : Prop := Req.is_retracted r = false ∧ Req.finished r = false.

Section wanted.
Context (fits : list Z → SamplingParams.t → Prop) (ps : nat) (context pages : Z).
Abbreviation wanted := (wanted fits ps context pages).

Lemma wanted_prefillable r : wanted r → Req.is_retracted r = false → prefillable r.
Proof. intros [W1 W2 W3 _ _ _ _ _ _] Hr. split; [done|]. split; [done|]. split; [eauto|done]. Qed.

Lemma wanted_processable r : wanted r → going r → processable r.
Proof. intros [W1 W2 W3 _ _ _ _ _ _] [Hr Hf]. split; [done|]. split; [done|]. split; [eauto|done]. Qed.

(** The fields that matter. *)
Lemma wanted_fields r r' :
  Req.finished_reason r' = Req.finished_reason r → Req.tokenizer r' = Req.tokenizer r → Req.sampling_params r' = Req.sampling_params r →
  Req.output_ids r' = Req.output_ids r → Req.origin_input_ids r' = Req.origin_input_ids r → Req.is_chunked r' ≤ 0 →
  wanted r → wanted r'.
Proof.
  intros E1 E2 E3 E4 E5 E6 [W1 W2 W3 W4 W5 W6 W7 W8 W9].
  split; unfold spent, Req.finished, budget, max_new in *; rewrite ?E1, ?E2, ?E3, ?E4, ?E5; done.
Qed.

Lemma wanted_same r r' : same_request r r' → wanted r → wanted r'.
Proof. intros (S1 & S2 & S3 & S4 & S5 & S6 & S7) Hw. eapply wanted_fields; try done. rewrite S7. apply Hw. Qed.

Lemma wanted_untouched r r' : untouched r r' → wanted r → wanted r'.
Proof.
  intros (Hc & Ho & Hf) Hw. injection Hc as C1 C2 C3 C4 C5 C6 C7 C8 C9 C10. eapply wanted_fields; try done. rewrite C10. apply Hw.
Qed.

Lemma wanted_retract r : wanted r → wanted (Req.reset_for_retract r).
Proof. by apply wanted_fields. Qed.

Lemma wanted_progressed r0 r : progressed r0 r → Req.finished r = false → wanted r0 → wanted r.
Proof.
  intros [P1 _ P3 P4] Hf [W1 W2 W3 W4 W5 W6 W7 W8 W9]. destruct (P3 Hf) as (k & Hk & Hl). specialize (P4 Hf).
  injection P1 as C1 C2 C3 C4 C5 C6 C7. split; unfold budget, max_new in *; rewrite ?C2, ?C4, ?C6, ?C7; try done.
  - unfold spent. by rewrite Hf.
  - rewrite C4 in Hk. by rewrite Hk.
  - by rewrite Hf, P4 in *.
  - intros _. by apply W8.
Qed.

Lemma wanted_seqlen r : wanted r → 0 < Req.seqlen r < context.
Proof.
  intros [W1 W2 W3 W4 W5 W6 W7 W8 W9]. unfold Req.seqlen, spent in *. len_pos. destruct (Req.finished r); [|lia].
  apply negb_false_iff, bool_decide_eq_true in W1. rewrite W1 in *. change (len []) with 0. lia.
Qed.

Lemma wanted_waiting r : wanted r → waiting true r ∧ Req.seqlen r ≤ context.
Proof.
  intros Hw. pose proof (wanted_seqlen r Hw). destruct Hw as [W1 W2 W3 W4 W5 W6 W7 W8 W9]. unfold waiting. len_pos.
  split; [split; [exists (max_new r); split; [done|lia]|split; [lia|done]]|lia].
Qed.

End wanted.

(** ** The invariant *)

Section serving.
Context (hash : list Z → Z) (clock : nat → Z) (garbage : Z → Z) `{HeapQ}.
Context (torch_garbage : nat → list Z) (shuffle : list Req.t → list Req.t) (tl_other : Z → Z) (ps : nat).
#[local] Instance svba : BatchAllocator Paged.t := paged_batch_allocator garbage tl_other.
#[local] Instance svkv : KVAllocator ps Paged.t := paged_kv ps.
Context (cfg : Config) (accept_token : Req.t → Z → option bool) (forward : Batch → option (list Z)).
Context (fits : list Z → SamplingParams.t → Prop).
Context (Hgarbage : ∀ n, length (torch_garbage n) = n) (Hshuffle : ∀ l, shuffle l ≡ₚ l).
Context (Hforward : ∀ B, ∃ tokens, forward B = Some tokens ∧ length tokens = length (reqs (sb B))).
Context (Hcfg : plain_config ps cfg).
Abbreviation sched := (Scheduler (A := Paged.t)).
Abbreviation pool s := (req_to_token_pool (mem s)).
Implicit Types (s : sched) (c : RadixCache) (G : gmap nat path) (X : list row) (B : Batch).

(** The state of the memory and the queue while the rows [X] are served. *)
Record accounted s c G X : Prop := mk_accounted {
  ac_rows : Forall (next_row ps (mem s) G) X;
  ac_wanted : Forall (fun x => wanted fits ps (context_of s) (max_total_num_tokens cfg) x.1 ∧ going x.1) X;
  ac_mem : radix_mem (ps := ps) (mem s) c G (row_node <$> X) (X ≫= row_own ps (pool s));
  ac_slots : ReqPool.owned (pool s) ((fun x => x.2.1) <$> X);
  ac_pool : ReqPool.wf (pool s);
  ac_queue : Forall (wanted fits ps (context_of s) (max_total_num_tokens cfg)) (waiting_queue s);
  ac_rids : NoDup ((Req.rid <$> X.*1) ++ (Req.rid <$> waiting_queue s));
  ac_wq : wq_ready (waiting_queue_radix_tree s);
  ac_ratio : (0 <= new_token_ratio s)%Q;
  ac_chunked : chunked_req s = None;
  ac_pages : pages_of ps s = max_total_num_tokens cfg;
  ac_places : max_micro_batch_size cfg ≤ ReqPool.size (pool s);
}.

(** A batch between two steps: its finished requests are still in it. *)
Record batch_ready (b : ScheduleBatch) : Prop := mk_batch_ready {
  br_some : reqs b ≠ [] → batch_wf b ∧ is_Some (output_ids b);
  br_overlap : enable_overlap b = false;
  br_limit : Forall (fun r => ∃ m, SamplingParams.max_new_tokens (Req.sampling_params r) = Some m ∧ len (Req.output_ids r) ≤ m) (reqs b);
}.

(** The last batch, when it was a prefill, holds requests of its own. *)
Definition prefilled_rows s : list row :=
  match last_batch s with Some L => if is_extend (sb L) then live_rows (sb L) else [] | None => [] end.

Record last_ready L : Prop := mk_last_ready {
  lr_batch : batch_ready (sb L);
  lr_chunked : chunked_of L = None;
  lr_only : is_prefill_only L = false;
}.

(** Between two iterations. *)
Definition serving_ok s : Prop :=
  ∃ c G, accounted s c G (live_rows (sb (running_batch s)) ++ prefilled_rows s) ∧ batch_ready (sb (running_batch s)) ∧
    ∀ L, last_batch s = Some L → is_extend (sb L) = true → last_ready L.

Lemma ready_rows b : batch_ready b → (rows b).*1 = reqs b.
Proof using.
  clear. intros [Hs _ _]. destruct (decide (reqs b = [])) as [E|Hne]; [unfold rows; by rewrite E|].
  destruct (Hs Hne) as [W _]. by destruct (rows_fields b W) as (-> & _).
Qed.

Lemma no_rows b : reqs b = [] → live_rows b = [].
Proof using. clear. intros E. unfold live_rows, rows. by rewrite E. Qed.

(** The tokens still to generate. *)
Definition work_of X (q : list Req.t) : Z := zsum (left <$> X.*1 ++ q).
Definition work s : Z := work_of (live_rows (sb (running_batch s)) ++ prefilled_rows s) (waiting_queue s).

(** The requests that have not finished, by name. *)
Definition names_of X (q : list Req.t) : list string := (Req.rid <$> X.*1) ++ (Req.rid <$> q).
Definition names s : list string := names_of (live_rows (sb (running_batch s)) ++ prefilled_rows s) (waiting_queue s).

Lemma sublist_work (l k : list Req.t) : l `sublist_of` k → Forall (fun r => 0 ≤ left r) k → zsum (left <$> l) ≤ zsum (left <$> k).
Proof using.
  clear. intros Hs Hk. apply zsum_submseteq; [by apply sublist_submseteq, fmap_sublist|].
  intros z (r & -> & Hr)%list_elem_of_fmap. by apply (proj1 (Forall_forall _ _) Hk).
Qed.

(** Lists with the same names and the same work. *)
Lemma named_work (l q : list Req.t) :
  Req.rid <$> l ≡ₚ Req.rid <$> q → NoDup (Req.rid <$> q) →
  Forall (fun r => ∃ r0, r0 ∈ q ∧ Req.rid r = Req.rid r0 ∧ left r = left r0) l → left <$> l ≡ₚ left <$> q.
Proof using.
  clear. intros Hp Hnd Hf. set (key r := (Req.rid r, left r)).
  assert (∀ k, Req.rid <$> k = (key <$> k).*1 ∧ left <$> k = (key <$> k).*2) as Hk by (intros k; by rewrite <-!list_fmap_compose).
  rewrite (proj2 (Hk l)), (proj2 (Hk q)). apply fmap_Permutation. apply submseteq_length_Permutation.
  - apply NoDup_submseteq.
    + rewrite <-Hp, (proj1 (Hk l)) in Hnd. by eapply NoDup_fmap_1.
    + intros y (r & -> & Hr)%list_elem_of_fmap. destruct (proj1 (Forall_forall _ _) Hf r Hr) as (r0 & H0 & E1 & E2).
      apply list_elem_of_fmap. exists r0. split; [unfold key; by rewrite E1, E2|done].
  - apply Permutation_length in Hp. rewrite !length_fmap in *. lia.
Qed.

Lemma wanted_left context pages r : wanted fits ps context pages r → 0 < left r.
Proof using. clear. intros [_ _ _ W4 _ _ _ _ _]. unfold left. lia. Qed.

Lemma progressed_left r0 r : progressed r0 r → left r = left r0 - 1.
Proof using.
  clear. intros [P1 [t P2] _ _]. injection P1 as C1 C2 C3 C4 C5 C6 C7. unfold left, max_new. rewrite C4, P2, len_app.
  change (len [t]) with 1. lia.
Qed.

(** A step of the requests [l]. *)
Lemma progressed_work l rs :
  Forall2 progressed l rs → Forall (fun r => 0 < left r) l → l ≠ [] →
  zsum (left <$> filter (fun r => Req.finished r = false) rs) < zsum (left <$> l).
Proof using.
  clear. intros F Hp Hne.
  assert (∀ l rs, Forall2 progressed l rs → Forall (fun r => 0 < left r) l →
    zsum (left <$> filter (fun r => Req.finished r = false) rs) + len l ≤ zsum (left <$> l)) as Hle.
  { clear. induction 1 as [|r0 r l rs Hr _ IH]; intros Hp; [done|]. apply Forall_cons in Hp as [Hp0 Hp]. specialize (IH Hp).
    pose proof (progressed_left _ _ Hr). rewrite filter_cons. case_decide; csimpl; rewrite ?zsum_cons, len_cons in *; lia. }
  specialize (Hle l rs F Hp). destruct l; [done|]. rewrite len_cons in Hle. len_pos. lia.
Qed.

Lemma live_filter b rs : (rows (with_reqs rs b)).*1 = rs →
  (live_rows (with_reqs rs b)).*1 = filter (fun r => Req.finished r = false) rs.
Proof using.
  clear. intros F1. rewrite <-F1 at 2. unfold live_rows. clear F1. induction (rows (with_reqs rs b)) as [|x l IH]; [done|].
  csimpl. rewrite !filter_cons. case_decide; csimpl; by rewrite IH.
Qed.

Lemma marked_left X Y : Forall2 marked_row X Y → left <$> Y.*1 = left <$> X.*1.
Proof using.
  clear. induction 1 as [|x y X Y [(Hc & Ho & _) _] _ IH]; [done|]. csimpl. injection Hc as C1 C2 C3 C4 C5 C6 C7 C8 C9 C10.
  unfold left, max_new in *. by rewrite IH, Ho, C6.
Qed.

Lemma same_left r r' : same_request r r' → left r' = left r.
Proof using. clear. intros (_ & _ & E3 & E4 & _). unfold left, max_new. by rewrite E3, E4. Qed.

(** *** The state the rounds start from *)

Lemma accounted_free s c G X : accounted s c G X →
  ReqPool.available_size (pool s) = ReqPool.size (pool s) - len X.
Proof using.
  clear. intros A. pose proof (ac_slots _ _ _ _ A) as Ho. unfold ReqPool.owned in Ho. apply len_perm in Ho.
  rewrite len_app, len_fmap, len_arange in Ho. unfold ReqPool.available_size.
  destruct (ac_pool _ _ _ _ A) as [Hs _]. len_pos. lia.
Qed.

Lemma accounted_size s c G X : accounted s c G X →
  kv_available (ps := ps) (token_to_kv_pool_allocator (mem s)) + evictable_size c ≤ max_total_num_tokens cfg.
Proof using.
  intros A. pose proof (paged_account (mem s) c G _ _ (ac_mem _ _ _ _ A)) as Hacc. pose proof (ac_pages _ _ _ _ A) as Hp.
  unfold pages_of in Hp. change (kv_available (token_to_kv_pool_allocator (mem s))) with (Paged.available_size (token_to_kv_pool_allocator (mem s))).
  assert (0 ≤ protected_size c).
  { unfold protected_size. rewrite (r_protected _ _ _ (rm_repr _ _ _ _ _ (ac_mem _ _ _ _ A))). apply gsum_nonneg.
    intros n l _. unfold protected_weight, weight. repeat case_decide; len_pos; lia. }
  len_pos. nia.
Qed.

Lemma accounted_sched s c G X : accounted s c G X → X = live_rows (sb (running_batch s)) → batch_ready (sb (running_batch s)) →
  sched_ok ps cfg s c G (row_node <$> X) (X ≫= row_own ps (pool s)) ((fun x => x.2.1) <$> X).
Proof using Hcfg.
  intros A EX Br. pose proof (accounted_free _ _ _ _ A) as Hfree. pose proof (accounted_size _ _ _ _ A) as Hsz.
  destruct A as [A1 A2 A3 A4 A5 A6 A7 A8 A9 A10 A11 A12]. destruct Hcfg as [_ _ _ _ _ _ _ _ _ _ Hpool]. split; try done.
  - exact (Z.le_lt_trans _ _ _ Hsz Hpool).
  - rewrite Hfree. assert (len X ≤ len (reqs (sb (running_batch s)))); [|lia].
    rewrite EX, <-(ready_rows _ Br), len_fmap. unfold len, live_rows.
    pose proof (length_filter (fun x : row => Req.finished x.1 = false) (rows (sb (running_batch s)))). lia.
  - apply Br.
  - eapply Forall_impl; [exact A6|]. intros r. apply wanted_waiting.
  - by apply NoDup_app in A7 as (_ & _ & ?).
Qed.

(** *** The last prefill batch joins the running batch *)

Lemma accounted_frame s s' c G X X' :
  accounted s c G X → X = X' → mem s' = mem s → waiting_queue s' = waiting_queue s →
  waiting_queue_radix_tree s' = waiting_queue_radix_tree s → new_token_ratio s' = new_token_ratio s → chunked_req s' = chunked_req s →
  accounted s' c G X'.
Proof using.
  intros [A1 A2 A3 A4 A5 A6 A7 A8 A9 A10 A11 A12] <- Em Eq Ew Er Ec.
  split; unfold context_of, pages_of in *; rewrite ?Em, ?Eq, ?Ew, ?Er, ?Ec; done.
Qed.

Lemma merge_batches s c G L :
  accounted s c G (live_rows (sb (running_batch s)) ++ live_rows (sb L)) → batch_ready (sb (running_batch s)) → last_ready L →
  ∃ s1, merge_last [] L s = Ok s1 ∧ accounted s1 c G (live_rows (sb (running_batch s1))) ∧ batch_ready (sb (running_batch s1)) ∧
    waiting_queue s1 = waiting_queue s ∧
    (reqs (sb (running_batch s1)) = [] → batch_is_full (running_batch s1) = true →
       reqs (sb L) = [] ∧ running_batch s1 = running_batch s) ∧
    live_rows (sb (running_batch s1)) = live_rows (sb (running_batch s)) ++ live_rows (sb L) ∧
    (live_rows (sb L) = [] → reqs (sb (running_batch s1)) = reqs (sb (running_batch s))) ∧ mem s1 = mem s.
Proof using.
  clear -H. intros A Br [[Hs Ho Hl] Hc Hp]. unfold merge_last. rewrite Hc.
  assert (default_keep (fun r => bool_decide (Req.rid r ∈ [] ++ option_list None)) (reqs (sb L)) = live (reqs (sb L))) as ->.
  { rewrite <-keep_live. unfold default_keep. by f_equal. }
  destruct (decide (live_rows (sb L) = [])) as [El|Hne].
  - assert (live (reqs (sb L)) = []) as ->.
    { destruct (decide (reqs (sb L) = [])) as [->|Hn]; [done|]. destruct (Hs Hn) as [W _]. by apply live_rows_nil. }
    cbn [filter_batch mbind pyres_bind mret pyres_ret]. rewrite El, app_nil_r in A. eexists. split; [done|].
    destruct (Z.ltb_spec (batch_size (with_reqs [] (sb L))) (batch_size (sb L))) as [Hlt|Hge]; simpl.
    + split; [by eapply accounted_frame|]. split; [done|]. split; [done|]. by rewrite El, app_nil_r.
    + split; [by eapply accounted_frame|]. split; [done|]. split; [done|]. split; [|by rewrite El, app_nil_r]. intros _ _. split; [|done].
      unfold batch_size in Hge. simpl in Hge. destruct (reqs (sb L)); [done|]. rewrite len_cons in Hge. len_pos. change (len []) with 0 in Hge. lia.
  - assert (reqs (sb L) ≠ []) as Hn by (intros E; by rewrite no_rows in Hne).
    destruct (Hs Hn) as [W [o Hout]]. destruct (filter_live (sb L) o W Hout Hne) as (b' & Ef & W' & Hov' & Er' & Ho').
    rewrite Ef. cbn [mbind pyres_bind]. set (running := if _ <? _ then _ else _).
    assert (sb running = sb (running_batch s)) as Esb by (unfold running; by destruct (_ <? _)).
    destruct (rows_fields b' W') as (F1 & _).
    assert (reqs b' ≠ []) as Hne' by (intros E; rewrite E, Er' in F1; by apply fmap_nil_inv in F1).
    assert (is_empty b' = false) as -> by (unfold is_empty; destruct (reqs b'); [done|rewrite len_cons; len_pos; lia]).
    cbn [is_prefill_only with_sb]. rewrite Hp. cbn [negb andb].
    assert (live_rows b' = live_rows (sb L)) as Elb.
    { unfold live_rows at 1. rewrite Er'. apply filter_live_id. }
    assert (Forall (fun r => ∃ m, SamplingParams.max_new_tokens (Req.sampling_params r) = Some m ∧ len (Req.output_ids r) ≤ m) (reqs b')) as Hl'.
    { rewrite <-F1, Er'. apply Forall_forall. intros r (x & -> & [_ Hx]%list_elem_of_filter)%list_elem_of_fmap.
      apply (proj1 (Forall_forall _ _) Hl). rewrite <-(proj1 (rows_fields _ W)). by apply list_elem_of_fmap_2. }
    destruct (is_empty (sb running)) eqn:Hem.
    + eexists. split; [done|]. simpl. assert (reqs (sb (running_batch s)) = []) as Er.
      { rewrite Esb in Hem. unfold is_empty in Hem. apply Z.eqb_eq in Hem. by apply len_zero. }
      split; [|split; [by split; [intros _; split|congruence|done]|split; [done|split; [by intros E|split; [by rewrite (no_rows _ Er), Elb|split; [done|done]]]]]].
      eapply accounted_frame; [exact A| |done..]. by rewrite (no_rows _ Er), Elb.
    + assert (reqs (sb (running_batch s)) ≠ []) as Hnr by (intros E; rewrite Esb in Hem; unfold is_empty in Hem; by rewrite E in Hem).
      destruct Br as [Bs Bo Bl]. destruct (Bs Hnr) as [Wr Hor]. rewrite Esb.
      destruct (merge_batch_ok (sb (running_batch s)) b' Wr W') as (rb & Em & Wm & Erm & Eqm & Eov & Hom); [by right|].
      rewrite Em. cbn [mbind pyres_bind mret pyres_ret]. eexists. split; [done|]. simpl. split; [|split; [|split; [done|split; [|split; [by rewrite (live_rows_app _ _ _ Erm), Elb|split; [done|done]]]]]].
      * eapply accounted_frame; [exact A| |done..]. by rewrite (live_rows_app _ _ _ Erm), Elb.
      * split; [intros _; split; [done|by apply Hom]|congruence|]. rewrite Eqm. by apply Forall_app.
      * rewrite Eqm. by intros [? _]%app_nil.
Qed.

(** *** A prefill round *)

Lemma zip_fmap_both {T U V : Type} (f : T → U) (g : T → V) (l : list T) : zip (f <$> l) (g <$> l) = (fun x => (f x, g x)) <$> l.
Proof using. clear. induction l as [|x l IH]; [done|]. csimpl. by rewrite IH. Qed.

(** The rows of a new batch. *)
Lemma started_rows m m' b G Hs rest used :
  prefill_started ps cfg m m' b G Hs rest used →
  Forall (fun r => Req.fill_ids r = Req.origin_input_ids r ++ Req.output_ids r ∧
    0 < Req.seqlen r < ReqPool.max_context_len (req_to_token_pool m)) (reqs b) →
  ∃ c' G', NoDup (req_pool_indices b) ∧ Forall (Z.le 0) (req_pool_indices b) ∧
    Forall (ran_row (req_to_token_pool m') G') (rows b) ∧ (∀ h, h ∈ Hs → G' !! h = G !! h) ∧
    radix_mem (ps := ps) m' c' G' ((row_node <$> rows b) ++ Hs) ((rows b ≫= row_own ps (req_to_token_pool m')) ++ rest).
Proof using Hcfg.
  intros (c' & G' & nodes & out & S1 & S2 & S3 & S4 & S5 & S6 & S7 & S8 & S9 & S10 & S11 & S12 & S13 & S14 & S15) Hf.
  destruct (rows_fields b S1) as (F1 & F2 & F3). injection S11 as Hz1 Hz2. pose proof (cf_paged _ _ Hcfg) as Hps.
  assert (∀ k x, rows b !! k = Some x → prefill_row ps G' (req_to_token_pool m') x.2.1 x.1 ∧ x.2.2.1 = len (Req.fill_ids x.1) ∧ x.1 ∈ reqs b) as Hrow.
  { intros k x Hk. split; [|split].
    - eapply (Forall2_lookup_lr _ _ _ k); [exact S9|rewrite <-F2, list_lookup_fmap, Hk; done|rewrite <-F1, list_lookup_fmap, Hk; done].
    - assert (seq_lens b !! k = Some x.2.2.1) as E by (rewrite <-F3, list_lookup_fmap, Hk; done).
      rewrite S7, <-F1, !list_lookup_fmap, Hk in E. by injection E.
    - rewrite <-F1. apply list_elem_of_fmap_2. by eapply list_elem_of_lookup_2. }
  destruct (owned_rows _ _ _ S12) as [Hnd Hi].
  assert (Forall (ran_row (req_to_token_pool m') G') (rows b)) as Hran.
  { apply Forall_lookup. intros k x Hk. destruct (Hrow k x Hk) as ([P1 P2 (n & l & En & Hg & Ep & Hl) P4 (new & Hnew & Hlen) P6 P7] & El & Hin).
    destruct (proj1 (Forall_forall _ _) Hf _ Hin) as [Hfill Hseq].
    assert (x.2.2.1 = Req.seqlen x.1) as Es by (rewrite El, Hfill; unfold Req.seqlen; by rewrite len_app).
    split; try done; rewrite ?Es, ?Hz2; try done.
    - apply (proj1 (Forall_forall _ _) Hi). rewrite <-F2. apply list_elem_of_fmap_2 with (f := fun x : row => x.2.1). by eapply list_elem_of_lookup_2.
    - exists n, l. split_and!; try done. rewrite <-Es, El, Hnew, Ep. apply take_app_length'. by rewrite length_fmap. }
  exists c', G'. split; [done|]. split; [eapply Forall_impl; [exact Hi|]; intros i Hi'; apply Hi'|]. split; [done|]. split; [done|].
  assert (row_node <$> rows b = nodes) as En.
  { apply (inj (fmap (Some : nat → option nat))). rewrite <-S8, <-F1, <-!list_fmap_compose. apply fmap_ext_elem. intros x (k & Hk)%list_elem_of_lookup.
    destruct (Hrow k x Hk) as ([_ _ (n & l & E & _) _ _ _ _] & _). simpl. unfold row_node. by rewrite E. }
  assert (zip (req_pool_indices b) (reqs b) ≫= new_chunks ps (req_to_token_pool m') = rows b ≫= row_own ps (req_to_token_pool m')) as Eo.
  { rewrite <-F1, <-F2, zip_fmap_both. clear -Hrow Hps. induction (rows b) as [|x xs IH]; [done|]. csimpl. f_equal.
    - destruct (Hrow 0%nat x eq_refl) as ([_ _ _ [q Hq] _ _ _] & El & _). unfold new_chunks. cbn [fst snd].
      rewrite (row_own_read ps _ x (length (Req.prefix_indices x.1))), El; [done|rewrite El; len_pos; lia|].
      change (Z.of_nat (length (Req.prefix_indices x.1))) with (len (Req.prefix_indices x.1)). rewrite Hq, Z.div_mul by lia. done.
    - apply IH. intros k y Hk. exact (Hrow (S k) y Hk). }
  rewrite Eo in S15. destruct S15 as [M1 M2 M3 M4 M5 M6 M7]. split; try done.
  eapply repr_perm; [|exact M2]. by rewrite En, reverse_Permutation.
Qed.

(** The requests of a new batch are wanted ones, computed whole. *)
Lemma batch_wanted s s' B c G X :
  accounted s c G X → new_batch_ok ps cfg s s' B G (row_node <$> X) (X ≫= row_own ps (pool s)) ((fun x => x.2.1) <$> X) →
  Forall (fun r => (wanted fits ps (context_of s) (max_total_num_tokens cfg) r ∧ Req.is_retracted r = false) ∧
    Req.fill_ids r = Req.origin_input_ids r ++ Req.output_ids r) (reqs (sb B)).
Proof using Hcfg.
  intros A Nb. destruct (nb_whole _ _ _ _ _ _ _ _ _ Nb (cf_whole _ _ Hcfg)) as (_ & _ & Hq).
  destruct (nb_started _ _ _ _ _ _ _ _ _ Nb) as (c' & G' & nodes & out & S1 & _ & _ & _ & _ & _ & _ & _ & S9 & _).
  apply Forall_lookup. intros k r Hk. destruct (Forall_lookup_1 _ _ _ _ Hq Hk) as [(r0 & H0 & S0) Hf]. split; [split|done].
  - eapply wanted_same; [done|]. by apply (proj1 (Forall_forall _ _) (ac_queue _ _ _ _ A)).
  - destruct (Forall2_lookup_r _ _ _ _ _ S9 Hk) as (i & _ & P). apply P.
Qed.

Lemma held_all b : batch_wf b → Forall (fun r => spent r = false) (reqs b) → held_rows b = rows b.
Proof using.
  clear. intros W Hf. destruct (rows_fields b W) as (F1 & _). rewrite <-F1, Forall_fmap in Hf. unfold held_rows. clear F1.
  induction Hf as [|x xs Hx _ IH]; [done|]. rewrite filter_cons, decide_True by done. by rewrite IH.
Qed.

(** Once every request has its token, the rows held are the live ones. *)
Lemma held_live b rs : (rows (with_reqs rs b)).*1 = rs → Forall2 progressed (reqs b) rs →
  held_rows (with_reqs rs b) = live_rows (with_reqs rs b).
Proof using.
  clear. intros F1 Hp. apply filter_ext_elem. intros x Hx.
  assert (x.1 ∈ rs) as (j & Hj)%list_elem_of_lookup by (rewrite <-F1; by apply list_elem_of_fmap_2).
  destruct (Forall2_lookup_r _ _ _ _ _ Hp Hj) as (r0 & _ & Hpr). by rewrite (progressed_spent _ _ Hpr).
Qed.

Abbreviation sampled tokens B := (with_sb (with_output_ids (Some tokens) (sb B)) B).

(** The loop over the new batch can start. *)
Lemma started_inv s s' B c G X tokens :
  accounted s c G X → new_batch_ok ps cfg s s' B G (row_node <$> X) (X ≫= row_own ps (pool s)) ((fun x => x.2.1) <$> X) →
  ∃ c' G', NoDup (req_pool_indices (sb B)) ∧ Forall (Z.le 0) (req_pool_indices (sb B)) ∧
    (∀ h, h ∈ row_node <$> X → G' !! h = G !! h) ∧
    prefill_inv ps (sampled tokens B) (row_node <$> X) (X ≫= row_own ps (pool s)) (pool s') G'
      (ReqPool.free_slots (pool s') ++ req_pool_indices (sb B)) (waiting_queue s') 0 (reqs (sb B)) s' c' G'.
Proof using Hcfg.
  intros A Nb. pose proof (batch_wanted _ _ _ _ _ _ A Nb) as Hw. pose proof (nb_started _ _ _ _ _ _ _ _ _ Nb) as St.
  destruct (started_rows _ _ _ _ _ _ _ St) as (c' & G' & Hnd & Hi & Hran & HG & M).
  { eapply Forall_impl; [exact Hw|]. intros r ((Hr & _) & Hf). split; [done|]. exact (wanted_seqlen _ _ _ _ _ Hr). }
  exists c', G'. split; [done|]. split; [done|]. split; [done|].
  destruct St as (c1 & G1 & nodes & out & S1 & _ & _ & _ & _ & _ & _ & _ & _ & S10 & _).
  assert (held_rows (with_reqs (reqs (sb B)) (sb (sampled tokens B))) = rows (sb B)) as El.
  { rewrite <-(held_all _ S1); [done|]. eapply Forall_impl; [exact Hw|]. by intros r [[[] _] _]. }
  destruct (rows_fields _ S1) as (_ & F2 & _). split; rewrite ?El; try done.
  - intros j r0 r Hj. lia.
  - intros j r0 r _ E0 E. simpl in E0. simplify_eq. apply untouched_refl.
  - intros j x Hj. lia.
  - intros j x _ Hx. exact (Forall_lookup_1 _ _ _ _ Hran Hx).
  - by rewrite F2.
Qed.

(** Rows that are only marked, under a table that keeps their lines and a
    tree that keeps their paths. *)
Lemma kept_rows m m' G G' X Y :
  Forall2 marked_row X Y → Forall (fun x => same_line (req_to_token_pool m) (req_to_token_pool m') x.2.1) X →
  (∀ h, h ∈ row_node <$> X → G' !! h = G !! h) → Forall (next_row ps m G) X →
  Forall (next_row ps m' G') Y ∧ Y ≫= row_own ps (req_to_token_pool m') = X ≫= row_own ps (req_to_token_pool m).
Proof using.
  clear. intros F Hl HG Hn. rewrite (proj1 (proj2 (marked_fields ps (req_to_token_pool m') _ _ F))). split.
  - induction F as [|x y X Y Hxy _ IH]; [constructor|]. apply Forall_cons in Hl as [Hx Hl]. apply Forall_cons in Hn as [Hnx Hn].
    constructor; [|apply IH; [done| |done]; intros h Hh; apply HG; csimpl; by apply list_elem_of_further].
    eapply next_marked; [done|]. pose proof (next_line ps m m' G G x Hx (reflexivity _) Hnx) as [D (n & ll & En & Hg & Ha) Hk].
    split; [done| |done]. exists n, ll. split; [done|]. split; [|done]. rewrite HG; [done|]. csimpl.
    unfold row_node at 1. rewrite En. apply list_elem_of_here.
  - clear F HG Hn. induction Hl as [|x X Hx _ IH]; [done|]. csimpl. by rewrite IH, (own_line ps _ _ x Hx).
Qed.

Lemma marked_ready B B' : marked B B' → batch_ready (sb B) →
  batch_ready (sb B') ∧ Forall2 marked_row (live_rows (sb B)) (live_rows (sb B')).
Proof using.
  clear. intros (rs & -> & F) [Bs Bo Bl]. split.
  - split; simpl.
    + intros Hne. assert (reqs (sb B) ≠ []) as Hn by (intros E; rewrite E in F; apply Forall2_nil_inv_l in F; done).
      destruct (Bs Hn) as [[W1 W2 W3 W4 W5] Ho]. split; [|done]. apply Forall2_length in F. split; simpl; rewrite <-?F; done.
    + done.
    + apply Forall_lookup. intros i r Hi. destruct (Forall2_lookup_r _ _ _ _ _ F Hi) as (r0 & H0 & (Hc & -> & _)).
      injection Hc as C1 C2 C3 C4 C5 C6 C7 C8 C9 C10. rewrite C6. exact (Forall_lookup_1 _ _ _ _ Bl H0).
  - apply marked_live, (marked_rows (sb B) (reqs (sb B)) rs), F.
Qed.

Lemma marked_wanted context pages X Y : Forall2 marked_row X Y →
  Forall (fun x => wanted fits ps context pages x.1 ∧ going x.1) X →
  Forall (fun x => wanted fits ps context pages x.1 ∧ going x.1) Y.
Proof using.
  clear. intros F Hx. apply Forall_lookup. intros i y Hy. destruct (Forall2_lookup_r _ _ _ _ _ F Hy) as (x & E & [U _]).
  destruct (Forall_lookup_1 _ _ _ _ Hx E) as [Hw Hr]. split; [by eapply wanted_untouched|].
  pose proof U as (Hc & _). injection Hc as C1 C2 C3 C4 C5 C6 C7 C8 C9 C10. unfold going. rewrite C7, (untouched_finished _ _ U). exact Hr.
Qed.

Lemma submseteq_NoDup {T : Type} (l k : list T) : l ⊆+ k → NoDup k → NoDup l.
Proof using. clear. intros [k' E]%submseteq_Permutation Hk. rewrite E in Hk. by apply NoDup_app in Hk as (? & _). Qed.

(** The requests that go on after a step. *)
Lemma progressed_rows b rs context pages :
  batch_wf b → Forall2 progressed (reqs b) rs →
  Forall (fun r => wanted fits ps context pages r ∧ Req.is_retracted r = false) (reqs b) →
  let Z := live_rows (with_reqs rs b) in
  (rows (with_reqs rs b)).*1 = rs ∧ Forall (fun x => wanted fits ps context pages x.1 ∧ going x.1) Z ∧
  Req.rid <$> Z.*1 ⊆+ Req.rid <$> reqs b ∧
  Forall (fun r => ∃ m, SamplingParams.max_new_tokens (Req.sampling_params r) = Some m ∧ len (Req.output_ids r) ≤ m) rs.
Proof using.
  clear. intros W Hp Hw Z.
  assert ((rows (with_reqs rs b)).*1 = rs) as F1.
  { assert (batch_wf (with_output_ids None (with_reqs rs b))) as W'.
    { destruct W as [W1 W2 W3 _ W5]. pose proof (Forall2_length _ _ _ Hp). split; simpl; congruence || done. }
    by destruct (rows_fields _ W') as (E & _). }
  split; [done|]. split; [|split].
  - apply Forall_forall. intros x [Hf (j & Hj)%list_elem_of_lookup]%list_elem_of_filter.
    assert (rs !! j = Some x.1) as E by (rewrite <-F1, list_lookup_fmap, Hj; done).
    destruct (Forall2_lookup_r _ _ _ _ _ Hp E) as (r0 & E0 & Hpr). destruct (Forall_lookup_1 _ _ _ _ Hw E0) as (Hw0 & Hr0).
    split; [by eapply wanted_progressed|]. destruct Hpr as [P1 _ _ _]. injection P1 as C1 C2 C3 C4 C5 C6 C7. unfold going. by rewrite C5.
  - assert (Req.rid <$> reqs b = Req.rid <$> rs) as ->.
    { clear -Hp. induction Hp as [|r0 r l0 l [P1 _ _ _] _ IH]; [done|]. csimpl. injection P1 as ->. by rewrite IH. }
    rewrite <-F1 at 1. do 2 apply fmap_submseteq. apply sublist_submseteq. apply sublist_filter.
  - apply Forall_lookup. intros i r Hi. destruct (Forall2_lookup_r _ _ _ _ _ Hp Hi) as (r0 & H0 & [P1 [t P2] _ _]).
    destruct (Forall_lookup_1 _ _ _ _ Hw H0) as [[_ _ W6 W7 _ _ _ _ _] _]. injection P1 as C1 C2 C3 C4 C5 C6 C7.
    exists (max_new r0). rewrite C4, P2, len_app. split; [done|]. change (len [t]) with 1. lia.
Qed.

Lemma prefill_done_rows B oH other p0 G0 F0 Q0 rs s c G :
  (rows (with_reqs rs (sb B))).*1 = rs → prefill_inv ps B oH other p0 G0 F0 Q0 (length (reqs (sb B))) rs s c G →
  Forall (next_row ps (mem s) G) (live_rows (with_reqs rs (sb B))).
Proof using.
  clear. intros F1 I. apply Forall_forall. intros x [Hf (j & Hj)%list_elem_of_lookup]%list_elem_of_filter. eapply pi_next; [exact I| |done..].
  assert (rs !! j = Some x.1) as E by (rewrite <-F1, list_lookup_fmap, Hj; done).
  apply lookup_lt_Some in E. by rewrite <-(pi_len _ _ _ _ _ _ _ _ _ _ _ _ _ I).
Qed.

Lemma prefill_progressed B oH other p0 G0 F0 Q0 rs s c G :
  prefill_inv ps B oH other p0 G0 F0 Q0 (length (reqs (sb B))) rs s c G → Forall2 progressed (reqs (sb B)) rs.
Proof using.
  clear. intros I. apply Forall2_same_length_lookup_2; [symmetry; apply I|]. intros j r0 r E0 E.
  eapply pi_done; [exact I|by eapply lookup_lt_Some|done..].
Qed.

(** What the rows of the running batch keep through a prefill round. *)
Lemma prefill_kept s s1 s2 B tokens rs c G X c2 G1 G2 :
  accounted s c G X → new_batch_ok ps cfg s s1 B G (row_node <$> X) (X ≫= row_own ps (pool s)) ((fun x => x.2.1) <$> X) →
  (∀ h, h ∈ row_node <$> X → G1 !! h = G !! h) →
  prefill_inv ps (sampled tokens B) (row_node <$> X) (X ≫= row_own ps (pool s)) (pool s1) G1
      (ReqPool.free_slots (pool s1) ++ req_pool_indices (sb B)) (waiting_queue s1) (length (reqs (sb B))) rs s2 c2 G2 →
  Forall (fun x => same_line (pool s) (pool s2) x.2.1) X ∧ (∀ h, h ∈ row_node <$> X → G2 !! h = G !! h) ∧
  pool_shape (mem s2) = pool_shape (mem s).
Proof using.
  clear -hash H. intros A Nb HG I.
  destruct (nb_started _ _ _ _ _ _ _ _ _ Nb) as (c' & G' & nodes & out & _ & _ & _ & _ & _ & _ & _ & _ & _ & _ & S11 & S12 & S13 & _).
  assert (pool_shape (mem s2) = pool_shape (mem s)) as Hsh by (rewrite <-S11; apply I). split; [|split; [|done]].
  - assert (NoDup (req_pool_indices (sb B) ++ ((fun x => x.2.1) <$> X))) as Hnd.
    { unfold ReqPool.owned in S12. assert (NoDup (arange 0 (ReqPool.size (pool s1)))) as Hn by apply NoDup_seqZ.
      rewrite <-S12 in Hn. by apply NoDup_app in Hn as (_ & _ & ?). }
    apply NoDup_app in Hnd as (_ & Hdis & _). apply Forall_forall. intros x Hx.
    destruct (proj1 (Forall_forall _ _) (ac_rows _ _ _ _ A) x Hx) as [[_ _ D3 _ _ _ _] _ _].
    assert (x.2.1 ∉ req_pool_indices (sb B)) as Hni.
    { intros Hin. apply (Hdis _ Hin). apply list_elem_of_fmap. by exists x. }
    injection Hsh as Hz1 Hz2. split; [|done..]. rewrite (pi_other _ _ _ _ _ _ _ _ _ _ _ _ _ I), S13 by (done || lia). done.
  - intros h Hh. rewrite <-(HG h Hh). destruct (r_handles _ _ _ (rm_repr _ _ _ _ _ (ac_mem _ _ _ _ A)) h Hh) as [lh Eh].
    rewrite <-(HG h Hh) in Eh. rewrite Eh. eapply lookup_weaken; [exact Eh|apply I].
Qed.

(** Admission moves the work from the queue to the batch. *)
Lemma prefill_work s s' B q c G X :
  accounted s c G X → new_batch_ok ps cfg s s' B G (row_node <$> X) (X ≫= row_own ps (pool s)) ((fun x => x.2.1) <$> X) →
  Forall (from_queue (waiting_queue s)) q → (Req.rid <$> reqs (sb B)) ++ (Req.rid <$> q) ≡ₚ Req.rid <$> waiting_queue s →
  left <$> reqs (sb B) ++ q ≡ₚ left <$> waiting_queue s.
Proof using Hcfg.
  intros A Nb Hq Hrid. destruct (nb_whole _ _ _ _ _ _ _ _ _ Nb (cf_whole _ _ Hcfg)) as (_ & _ & Hb). apply named_work.
  - by rewrite fmap_app.
  - pose proof (ac_rids _ _ _ _ A) as Hnd. by apply NoDup_app in Hnd as (_ & _ & ?).
  - assert (∀ r, from_queue (waiting_queue s) r → ∃ r0, r0 ∈ waiting_queue s ∧ Req.rid r = Req.rid r0 ∧ left r = left r0) as Hf.
    { intros r (r0 & H0 & S0). exists r0. split; [done|]. split; [apply S0|by apply same_left]. }
    apply Forall_app. split; [eapply Forall_impl; [exact Hb|]; intros r [Hr _]; by apply Hf|]. eapply Forall_impl; [exact Hq|exact Hf].
Qed.

Lemma prefill_settled s s1 s2 B tokens rs c G X c2 G1 G2 :
  accounted s c G X → X = live_rows (sb (running_batch s)) → batch_ready (sb (running_batch s)) →
  (Req.rid <$> reqs (sb B)) ++ (Req.rid <$> waiting_queue s1) ≡ₚ Req.rid <$> waiting_queue s → round_frame s s1 →
  new_batch_ok ps cfg s s1 B G (row_node <$> X) (X ≫= row_own ps (pool s)) ((fun x => x.2.1) <$> X) →
  (∀ h, h ∈ row_node <$> X → G1 !! h = G !! h) → batch_wf (sb (sampled tokens B)) →
  prefill_inv ps (sampled tokens B) (row_node <$> X) (X ≫= row_own ps (pool s)) (pool s1) G1
      (ReqPool.free_slots (pool s1) ++ req_pool_indices (sb B)) (waiting_queue s1) (length (reqs (sb B))) rs s2 c2 G2 →
  steady s1 s2 → pages_of ps s2 = pages_of ps s →
  accounted s2 c2 G2 (live_rows (sb (running_batch s2)) ++ live_rows (with_reqs rs (sb (sampled tokens B)))) ∧ batch_ready (sb (running_batch s2)) ∧
  work_of (live_rows (sb (running_batch s2)) ++ live_rows (with_reqs rs (sb (sampled tokens B)))) (waiting_queue s2) < work_of X (waiting_queue s) ∧
  names_of (live_rows (sb (running_batch s2)) ++ live_rows (with_reqs rs (sb (sampled tokens B)))) (waiting_queue s2) ⊆+ names_of X (waiting_queue s) ∧
  context_of s2 = context_of s.
Proof using Hcfg.
  intros A EX Br Hrid [R1 R2 (full & R3) R4 R5 R6] Nb HG W I [D1 D2 D3 D4 D5] Hpg.
  pose proof (batch_wanted _ _ _ _ _ _ A Nb) as Hw. destruct (prefill_kept _ _ _ _ _ _ _ _ _ _ _ _ A Nb HG I) as (Hline & HG2 & Hsh).
  pose proof (prefill_progressed _ _ _ _ _ _ _ _ _ _ _ I) as Hprog. apply Forall_and in Hw as [Hw _].
  destruct (progressed_rows _ rs _ _ W Hprog Hw) as (F1 & HwZ & Hsub & _). pose proof (prefill_done_rows _ _ _ _ _ _ _ _ _ _ _ F1 I) as HnZ.
  destruct (nb_whole _ _ _ _ _ _ _ _ _ Nb (cf_whole _ _ Hcfg)) as (Hch & _).
  destruct (nb_started _ _ _ _ _ _ _ _ _ Nb) as (c' & G' & nodes & out & _ & _ & _ & _ & _ & _ & _ & _ & _ & _ & _ & S12 & _).
  rewrite R3 in D5. apply marked_ready in D5 as [Br2 FY]; [|exact Br]. change (sb (set_full full (running_batch s))) with (sb (running_batch s)) in FY.
  rewrite <-EX in FY. set (Y := live_rows (sb (running_batch s2))) in *. set (Z := live_rows (with_reqs rs (sb (sampled tokens B)))) in *.
  destruct (kept_rows (mem s) (mem s2) G G2 X Y FY Hline HG2 (ac_rows _ _ _ _ A)) as [HnY EoY].
  destruct (marked_fields ps (pool s2) _ _ FY) as (EnY & _ & EiY & ErY).
  injection Hsh as Hz1 Hz2. assert (context_of s2 = context_of s) as Ec by exact Hz2.
  assert (names_of (Y ++ Z) (waiting_queue s2) ⊆+ names_of X (waiting_queue s)) as Hnames.
  { unfold names_of. rewrite !fmap_app, ErY, <-app_assoc, <-Hrid. apply submseteq_skips_l.
    apply submseteq_app; [done|]. apply fmap_submseteq. apply sublist_submseteq, I. }
  split; [|split; [done|split; [|done]]]; last first.
  { pose proof (progressed_work _ _ Hprog) as Hlt. rewrite <-(live_filter _ _ F1) in Hlt. fold Z in Hlt.
    unfold work_of. rewrite !fmap_app, !zsum_app, (marked_left _ _ FY).
    assert (Forall (fun r => 0 < left r) (reqs (sb B))) as Hpos by (eapply Forall_impl; [exact Hw|]; intros r [Hr _]; by eapply wanted_left).
    specialize (Hlt Hpos (nb_some _ _ _ _ _ _ _ _ _ Nb)). simpl in Hlt.
    rewrite <-(zsum_perm _ _ (prefill_work _ _ _ _ _ _ _ A Nb R1 Hrid)), fmap_app, zsum_app.
    assert (zsum (left <$> waiting_queue s2) ≤ zsum (left <$> waiting_queue s1)); [|lia]. apply sublist_work; [apply I|].
    apply Forall_forall. intros r Hr. destruct (proj1 (Forall_forall _ _) R1 r Hr) as (r0 & H0 & S0).
    simpl. rewrite (same_left _ _ S0). pose proof (wanted_left _ _ _ (proj1 (Forall_forall _ _) (ac_queue _ _ _ _ A) r0 H0)). lia. }
  destruct I as [I1 I2 I3 I4 I5 I6 I7 I8 I9 I10 I11 I12]. rewrite (held_live _ _ F1 Hprog) in I6, I9. fold Z in I6, I9. destruct A as [A1 A2 A3 A4 A5 A6 A7 A8 A9 A10 A11 A12].
  split; rewrite ?Ec, ?D1, ?D3, ?D4, ?R5, ?Hpg, ?Hz1; try done.
  - by apply Forall_app.
  - apply Forall_app. split; [by eapply marked_wanted|done].
  - destruct I6 as [M1 M2 M3 M4 M5 M6 M7]. split; try done.
    + eapply repr_perm; [|exact M2]. by rewrite fmap_app, EnY, Permutation_app_comm.
    + eapply kv_owned_perm; [|exact M5]. by rewrite bind_app, EoY, (Permutation_app_comm (X ≫= _)).
  - unfold ReqPool.owned in *. injection I8 as Hs1 _. rewrite Hs1, <-S12, fmap_app, EiY, app_assoc, (Permutation_app_comm _ (_ <$> Z)), app_assoc.
    rewrite (Permutation_app_comm (_ <$> Z)), I9. by rewrite <-app_assoc.
  - apply Forall_forall. intros r Hr. eapply elem_of_submseteq in Hr; [|apply sublist_submseteq, I11].
    destruct (proj1 (Forall_forall _ _) R1 r Hr) as (r0 & H0 & S0). eapply wanted_same; [done|]. by apply (proj1 (Forall_forall _ _) A6).
  - eapply submseteq_NoDup; [exact Hnames|exact A7].
Qed.

(** The new batch is ready to be merged. *)
Lemma prefill_last s s1 B tokens rs c G X :
  accounted s c G X → new_batch_ok ps cfg s s1 B G (row_node <$> X) (X ≫= row_own ps (pool s)) ((fun x => x.2.1) <$> X) →
  batch_wf (sb (sampled tokens B)) → Forall2 progressed (reqs (sb B)) rs → last_ready (map_reqs (fun _ => rs) (sampled tokens B)).
Proof using Hcfg.
  intros A Nb W Hp. pose proof W as [W1 W2 W3 W4 W5]. pose proof (batch_wanted _ _ _ _ _ _ A Nb) as Hw.
  destruct (nb_whole _ _ _ _ _ _ _ _ _ Nb (cf_whole _ _ Hcfg)) as (_ & Hco & _).
  destruct (nb_started _ _ _ _ _ _ _ _ _ Nb) as (c' & G' & nodes & out & _ & _ & S3 & _).
  pose proof (Forall2_length _ _ _ Hp) as Hl. split; [split| |]; simpl in *.
  - intros _. split; [|by eexists]. split; simpl; rewrite <-?Hl; done.
  - by rewrite S3, (cf_overlap _ _ Hcfg).
  - apply Forall_and in Hw as [Hw _]. by destruct (progressed_rows _ rs _ _ W Hp Hw) as (_ & _ & _ & ?).
  - done.
  - rewrite (nb_only _ _ _ _ _ _ _ _ _ Nb). pose proof (nb_some _ _ _ _ _ _ _ _ _ Nb) as Hne.
    destruct (reqs (sb B)) as [|r l]; [done|]. apply Forall_cons in Hw as [[[[_ _ W6 W7 _ _ _ _ _] _] _] _]. simpl.
    rewrite W6, bool_decide_false; [done|]. intros [= E]. len_pos. lia.
Qed.

(** The next state after a prefill round. *)
Lemma prefill_round s s1 B c G X :
  accounted s c G X → X = live_rows (sb (running_batch s)) → batch_ready (sb (running_batch s)) →
  get_new_batch_prefill (ps := ps) hash clock garbage torch_garbage shuffle cfg s = Ok (Some B, s1) →
  (Req.rid <$> reqs (sb B)) ++ (Req.rid <$> waiting_queue s1) ≡ₚ Req.rid <$> waiting_queue s → round_frame s s1 →
  new_batch_ok ps cfg s s1 B G (row_node <$> X) (X ≫= row_own ps (pool s)) ((fun x => x.2.1) <$> X) →
  ∃ B' s2, process_batch_result (ps := ps) hash clock cfg accept_token (run_batch forward B).2 (run_batch forward B).1 s1 = Ok (B', s2) ∧
    serving_ok (with_last (Some B') s2) ∧ work (with_last (Some B') s2) < work_of X (waiting_queue s) ∧
    names (with_last (Some B') s2) ⊆+ names_of X (waiting_queue s) ∧ context_of s2 = context_of s ∧ is_extend (sb B') = true ∧ reqs (sb B') ≠ [].
Proof using All.
  intros A EX Br Eg Hrid Rf Nb. destruct (Hforward B) as (tokens & Ef & Hl). unfold run_batch. rewrite Ef. cbn [fst snd].
  pose proof (batch_wanted _ _ _ _ _ _ A Nb) as Hw. pose proof (cf_paged _ _ Hcfg) as Hps.
  destruct (started_inv s s1 B c G X tokens A Nb) as (c1 & G1 & Hnd & Hi & HG & I).
  destruct (nb_whole _ _ _ _ _ _ _ _ _ Nb (cf_whole _ _ Hcfg)) as (Hch & Hco & _).
  destruct (nb_started _ _ _ _ _ _ _ _ _ Nb) as (c' & G' & nodes & out & S1 & S2 & S3 & _ & _ & _ & _ & _ & _ & _ & S11 & S12 & S13 & _).
  assert (batch_wf (sb (sampled tokens B))) as W by (destruct S1; split; try done; intros o E; by injection E as <-).
  assert (Forall prefillable (reqs (sb B))) as Hpr.
  { eapply Forall_impl; [exact Hw|]. intros r ((Hr & Hret) & _). by eapply wanted_prefillable. }
  assert (Forall (fun r => Req.is_chunked r ≤ 0) (reqs (sb B))) as Hck by (eapply Forall_impl; [exact Hw|]; intros r ((Hr & _) & _); apply Hr).
  destruct (process_prefill_ok hash clock ps ltac:(lia) cfg accept_token (cf_overlap _ _ Hcfg) (sampled tokens B) (row_node <$> X)
    (X ≫= row_own ps (pool s)) (pool s1) G1 _ (waiting_queue s1) W Hnd Hi (nb_decoding _ _ _ _ _ _ _ _ _ Nb) Hpr Hck
    tokens s1 c1 G1 Hl Hch I) as (rs & s2 & c2 & G2 & E & I2 & Sd).
  eexists _, s2. split; [unfold process_batch_result; cbn [sb with_sb forward_mode with_output_ids]; rewrite S2; exact E|].
  pose proof (new_prefill_size (H3 := paged_size garbage tl_other ps) hash clock garbage cfg torch_garbage shuffle _ _ _ Eg) as Ep1.
  pose proof (process_prefill_size (H3 := paged_size garbage tl_other ps) hash clock cfg accept_token _ _ _ _ _ E) as Ep2.
  destruct (prefill_settled s s1 s2 B tokens rs c G X c2 G1 G2 A EX Br Hrid Rf Nb HG W I2 Sd) as (A2 & Br2 & Hwork & Hnames & Hctx).
  { unfold pages_of. do 2 f_equal. by etrans. }
  set (s3 := with_last _ s2).
  assert (prefilled_rows s3 = live_rows (with_reqs rs (sb (sampled tokens B)))) as Ep.
  { unfold prefilled_rows. cbn [s3 last_batch with_last]. unfold is_extend. cbn [sb map_reqs with_sb with_reqs forward_mode with_output_ids]. by rewrite S2. }
  split; [|split; [unfold work; by rewrite Ep|split; [unfold names; by rewrite Ep|split; [done|split; [unfold is_extend; simpl; by rewrite S2|]]]]]; last first.
  { pose proof (pi_len _ _ _ _ _ _ _ _ _ _ _ _ _ I2) as El. simpl in El |- *. intros ->. apply (nb_some _ _ _ _ _ _ _ _ _ Nb), length_zero_iff_nil. by rewrite <-El. }
  exists c2, G2. rewrite Ep. split; [|split; [exact Br2|]].
  - by eapply accounted_frame.
  - intros L [= <-] _. apply (prefill_last s s1 B tokens rs c G X A Nb W).
    exact (prefill_progressed _ _ _ _ _ _ _ _ _ _ _ I2).
Qed.

(** *** A decoding round *)

Lemma wanted_serving r context pages : wanted fits ps context pages r → going r → serving context r.
Proof using.
  clear. intros Hw Hr. pose proof (wanted_processable _ _ _ _ _ Hw Hr) as Hp. destruct Hw as [W1 W2 W3 W4 W5 W6 W7 W8 W9].
  rewrite (proj2 Hr) in W5. by split.
Qed.

(** The rows are ready for a step, and each of them alone leaves a page. *)
Lemma decode_prepared s c G X :
  accounted s c G X → X = live_rows (sb (running_batch s)) → batch_ready (sb (running_batch s)) → X ≠ [] →
  ∃ b, filter_batch (default_keep (fun _ => false) (reqs (sb (running_batch s)))) (sb (running_batch s)) = Ok b ∧
    enable_overlap b = false ∧ rows b = X ∧ decode_ready ps (mem s) b c G [] [] ∧ single_fits garbage tl_other ps (mem s) b c.
Proof using Hcfg.
  intros [A1 A2 A3 A4 A5 A6 A7 A8 A9 A10 A11 A12] EX [Bs Bo Bl] Hne. pose proof (cf_paged _ _ Hcfg) as Hps.
  assert (reqs (sb (running_batch s)) ≠ []) as Hn by (intros E; by rewrite EX, no_rows in Hne).
  destruct (Bs Hn) as [W [o Ho]].
  pose proof (paged_account (mem s) c G _ _ A3) as Hacc. fold (pages_of ps s) in Hacc. rewrite A11 in Hacc.
  assert (∀ x, x ∈ X → len (default [] (G !! row_node x)) + Z.of_nat ps * len (row_own ps (pool s) x) < max_total_num_tokens cfg) as Hrow.
  { intros x Hx. destruct (proj1 (Forall_forall _ _) A1 x Hx) as [D At _]. destruct (proj1 (Forall_forall _ _) A2 x Hx) as [Hw Hr].
    pose proof (row_budget ps ltac:(lia) _ c G _ x (rm_repr _ _ _ _ _ A3) (rm_page _ _ _ _ _ A3) A5 At D) as Hb.
    specialize (Hb ltac:(by eapply wanted_serving)). pose proof (wt_spare _ _ _ _ _ Hw (proj2 Hr)).
    assert (0 ≤ new_pages (Z.of_nat ps) (1 + x.2.2.1 - 1) (1 + x.2.2.1)); [|nia].
    unfold new_pages. pose proof (cdiv_mono (1 + x.2.2.1 - 1) (1 + x.2.2.1) (Z.of_nat ps) ltac:(lia) ltac:(lia)). lia. }
  destruct (filter_ready ps (mem s) (sb (running_batch s)) c G [] [] o W Ho Bo A5) as (b & Ef & Hov & Er & D); rewrite <-?EX, ?app_nil_r; try done.
  { unfold ReqPool.owned in A4. assert (NoDup (arange 0 (ReqPool.size (pool s)))) as Hnd by apply NoDup_seqZ.
    rewrite <-A4 in Hnd. by apply NoDup_app in Hnd as (_ & _ & ?). }
  { right. intros x Hx. rewrite !app_nil_r. csimpl. specialize (Hrow x Hx). rewrite zsum_cons. change (zsum []) with 0.
    change (kv_available (token_to_kv_pool_allocator (mem s))) with (Paged.available_size (token_to_kv_pool_allocator (mem s))). lia. }
  exists b. split; [done|]. split; [done|]. split; [congruence|]. split; [exact D|].
  intros Hone. destruct (rows_fields b (dr_wf _ _ _ _ _ _ _ D)) as (F1 & _). rewrite Er, <-EX in F1.
  assert (Forall (fun r => wanted fits ps (context_of s) (max_total_num_tokens cfg) r ∧ going r) (reqs b)) as Hw
    by (by rewrite <-F1, Forall_fmap).
  eapply (demand_fits garbage tl_other ps ltac:(lia) (mem s) b c G D Hov).
  - eapply Forall_impl; [exact Hw|]. intros r [Hr1 Hr2]. by eapply wanted_serving.
  - fold (pages_of ps s). rewrite A11. destruct (reqs b) as [|r [|]]; [done| |done]. apply Forall_cons in Hw as [[Hr [_ Hg]] _].
    unfold demand. csimpl. rewrite zsum_cons. change (zsum []) with 0. pose proof (wt_spare _ _ _ _ _ Hr Hg). lia.
Qed.

(** A decode batch with the slots of its next tokens. *)
Record step_started s B c G : Prop := mk_step_started {
  ss_started : decode_started ps (mem s) (sb B) c G [] [];
  ss_some : reqs (sb B) ≠ [];
  ss_overlap : enable_overlap (sb B) = false;
  ss_slots : SchedulerDecode.slots_ok (mem s) (sb B) [];
  ss_wanted : Forall (fun r => wanted fits ps (context_of s) (max_total_num_tokens cfg) r ∧ going r) (reqs (sb B));
  ss_queue : Forall (wanted fits ps (context_of s) (max_total_num_tokens cfg)) (waiting_queue s);
  ss_rids : NoDup ((Req.rid <$> reqs (sb B)) ++ (Req.rid <$> waiting_queue s));
  ss_wq : wq_ready (waiting_queue_radix_tree s);
  ss_ratio : (0 <= new_token_ratio s)%Q;
  ss_chunked : chunked_req s = None;
  ss_pages : pages_of ps s = max_total_num_tokens cfg;
  ss_places : max_micro_batch_size cfg ≤ ReqPool.size (pool s);
}.

Lemma update_round_ok s c G X :
  accounted s c G X → X = live_rows (sb (running_batch s)) → batch_ready (sb (running_batch s)) → X ≠ [] →
  ∃ B s', update_running_batch (ps := ps) hash cfg (running_batch s) s = Ok (B, s') ∧ is_empty (sb B) = false ∧
    zsum (left <$> reqs (sb B) ++ waiting_queue s') = work_of X (waiting_queue s) ∧
    Req.rid <$> reqs (sb B) ++ waiting_queue s' ≡ₚ names_of X (waiting_queue s) ∧ context_of s' = context_of s ∧
    ∃ c' G', step_started (with_running B s') B c' G'.
Proof using Hcfg.
  intros A EX Br Hne. destruct (decode_prepared s c G X A EX Br Hne) as (b & Ef & Hov & Er & D & Hone).
  destruct (rows_fields b (dr_wf _ _ _ _ _ _ _ D)) as (F1 & F2 & _). rewrite Er in F1, F2.
  destruct (update_running_batch_ok hash garbage tl_other ps cfg (cf_paged _ _ Hcfg) (cf_small _ _ Hcfg) (cf_page _ _ Hcfg)
    (cf_spec _ _ Hcfg) (cf_buf _ _ Hcfg) s (running_batch s) b c G [] [] Ef D Hone)
    as (B & s' & ret & c' & G' & E & Hq & Hrid & Hsub & Hne' & _ & Hov' & Hst & Hslt & Hsh & Hch & Hla & Hwq & Hret & Hra).
  destruct A as [A1 A2 A3 A4 A5 A6 A7 A8 A9 A10 A11 A12]. injection Hsh as Hz1 Hz2.
  assert (Forall (fun r => wanted fits ps (context_of s) (max_total_num_tokens cfg) r ∧ going r) (reqs b)) as Hw
    by (by rewrite <-F1, Forall_fmap).
  exists B, s'. split; [exact E|]. split; [unfold is_empty; destruct (reqs (sb B)); [done|rewrite len_cons; len_pos; lia]|].
  split.
  { unfold work_of. rewrite Hq, F1.
    assert (left <$> reqs (sb B) ++ ret ≡ₚ left <$> reqs b) as Ew%zsum_perm; [|rewrite !fmap_app, !zsum_app in *; lia].
    apply named_work; [by rewrite fmap_app| |].
    - apply NoDup_app in A7 as (? & _ & _). by rewrite <-F1.
    - apply Forall_app. split; apply Forall_forall; intros r Hr.
      + eapply elem_of_submseteq in Hr; [|exact Hsub]. by exists r.
      + destruct (proj1 (Forall_forall _ _) Hret r Hr) as (r0 & H0 & ->). by exists r0. }
  assert (Req.rid <$> reqs (sb B) ++ waiting_queue s' ≡ₚ names_of X (waiting_queue s)) as Hnames.
  { unfold names_of. rewrite Hq, !fmap_app, (Permutation_app_comm (Req.rid <$> waiting_queue s)), app_assoc, Hrid, <-F1. done. }
  split; [done|]. split; [exact Hz2|].
  exists c', G'. split; change (context_of (with_running B s')) with (context_of s'); cbn [mem with_running waiting_queue waiting_queue_radix_tree new_token_ratio chunked_req];
    rewrite ?Hq; try done.
  - congruence.
  - apply Hslt. unfold SchedulerDecode.slots_ok. rewrite app_nil_r, <-F2. exact A4.
  - unfold context_of in *. rewrite Hz2. apply Forall_forall. intros r Hr. eapply elem_of_submseteq in Hr; [|exact Hsub].
    by apply (proj1 (Forall_forall _ _) Hw).
  - unfold context_of in *. rewrite Hz2. apply Forall_app. split; [done|]. eapply Forall_impl; [exact Hret|]. intros r' (r & Hr & ->).
    apply wanted_retract. by apply (proj1 (Forall_forall _ _) Hw).
  - rewrite <-Hq, <-fmap_app, Hnames. exact A7.
  - by rewrite Hwq.
  - apply Hra, (cf_ratio _ _ Hcfg).
  - by rewrite Hch.
  - rewrite <-A11. unfold pages_of. do 2 f_equal. exact (update_running_size (H3 := paged_size garbage tl_other ps) hash cfg _ _ _ _ E).
  - by rewrite Hz1.
Qed.

Lemma process_round_ok s B c G :
  step_started s B c G →
  ∃ B' s', process_batch_result (ps := ps) hash clock cfg accept_token (run_batch forward B).2 (run_batch forward B).1 s = Ok (B', s') ∧
    serving_ok (with_last (Some B') s') ∧ work (with_last (Some B') s') < zsum (left <$> reqs (sb B) ++ waiting_queue s) ∧
    names (with_last (Some B') s') ⊆+ Req.rid <$> reqs (sb B) ++ waiting_queue s ∧ context_of s' = context_of s ∧
    reqs (sb (running_batch s')) ≠ [].
Proof using Hcfg Hforward garbage tl_other.
  intros [[W Hmode _ Hw Hnd Hrows Hmem Hat] Hsome Eov Hsl Hwt Hqw Hrids Hwq Hra Hch Hpg Hpl]. destruct (Hforward B) as (tokens & Ef & Hl).
  unfold run_batch. rewrite Ef. cbn [fst snd]. rewrite Eov in Hrows. pose proof (cf_paged _ _ Hcfg) as Hps.
  set (b1 := with_output_ids (Some tokens) (sb B)). set (p := pool s).
  assert (Forall (fun x => Req.req_pool_idx x.1 = Some x.2.1) (rows (sb B))) as Hidx
    by (eapply Forall_impl; [exact Hrows|]; by intros x []).
  assert (batch_wf b1) as W1 by (destruct W; split; try done; intros o E; by injection E as <-).
  assert (Forall processable (reqs b1)) as Hpr by (eapply Forall_impl; [exact Hwt|]; intros r []; by eapply wanted_processable).
  destruct (process_decode_ok (H := paged_kv ps) hash clock cfg accept_token (cf_overlap _ _ Hcfg) (cf_spec _ _ Hcfg) b1 (ReqPool.req_to_token p) [] [] p
    (arange 0 (ReqPool.size p)) (waiting_queue s) W1 Hrows eq_refl Hpr (with_sb b1 B) tokens s c G)
    as (rs & B' & s' & c' & G' & E & EB & Er & Hadv & Hmem' & Hat' & Hw' & Hsh & Hsl' & Hq & Hch' & Hla & Hra' & Hwq'); try done.
  { by destruct Hmem as [M T]; split. }
  { unfold SchedulerDecode.slots_ok, ReqPool.owned in Hsl. rewrite app_nil_r in Hsl. fold p in Hsl. rewrite <-Hsl.
    apply reflexive_eq. f_equal. exact (batch_slots (sb B) W Hidx). }
  exists B', s'. unfold process_batch_result. cbn [sb with_sb]. change (forward_mode b1) with (forward_mode (sb B)). rewrite Hmode.
  split; [exact E|]. injection Hsh as Hz1 Hz2.
  destruct Hmem' as [M Etbl].
  destruct (next_rows ps (sb B) (mem s') c' G' [] [] rs tokens) as (Elr & Esl & Hnd' & Hx & M' & _); try done.
  { lia. }
  { eapply Forall_impl; [exact Hrows|]. intros x. by apply stepped_shape. }
  { eapply Forall_impl; [exact Hwt|]. intros r [[_ _ S3 S4 S5 _ _ _ _] [_ Hg]]. exists (max_new r). unfold context_of in S5. rewrite Hg in S5. rewrite Hz2.
    split; [done|]. len_pos. split; [lia|done]. }
  { by split; [rewrite Etbl|]. }
  assert (Forall2 progressed (reqs b1) rs) as Hprog.
  { apply Forall2_same_length_lookup_2; [by apply Forall2_length in Hadv|]. intros j r0 r E0 E1.
    apply advanced_progressed; [|by eapply Forall2_lookup_lr]. intros _. by destruct (Forall_lookup_1 _ _ _ _ Hwt E0) as [_ []]. }
  destruct (progressed_rows b1 rs (context_of s) (max_total_num_tokens cfg) W1 Hprog) as (F1 & HwZ & Hsub & Hlim).
  { eapply Forall_impl; [exact Hwt|]. by intros r [Hr [Hg _]]. }
  assert (prefilled_rows (with_last (Some B') s') = []) as Ep.
  { unfold prefilled_rows. cbn [last_batch with_last]. rewrite EB. unfold is_extend. simpl. by rewrite Hmode. }
  unfold serving_ok, work, names. rewrite Ep. cbn [with_last running_batch waiting_queue]. rewrite Er, EB, app_nil_r.
  assert (names_of (live_rows (with_reqs rs b1)) (waiting_queue s') ⊆+ Req.rid <$> reqs (sb B) ++ waiting_queue s) as Hnames.
  { rewrite fmap_app. apply submseteq_app; [exact Hsub|]. apply fmap_submseteq. by apply sublist_submseteq. }
  split; [|split; [|split; [exact Hnames|split; [exact Hz2|]]]]; last first.
  { simpl. intros ->. apply Forall2_nil_inv_r in Hadv. done. }
  { unfold work_of. change (sb (map_reqs (fun _ => rs) (with_sb b1 B))) with (with_reqs rs b1). rewrite (live_filter _ _ F1), !fmap_app, !zsum_app.
    assert (Forall (fun r => 0 < left r) (reqs b1)) as Hpos by (eapply Forall_impl; [exact Hwt|]; intros r [Hr _]; by eapply wanted_left).
    pose proof (progressed_work _ _ Hprog Hpos Hsome) as Hlt. simpl in Hlt.
    assert (zsum (left <$> waiting_queue s') ≤ zsum (left <$> waiting_queue s)); [|lia]. apply sublist_work; [done|].
    eapply Forall_impl; [exact Hqw|]. intros r Hr. simpl. pose proof (wanted_left _ _ _ Hr). lia. }
  exists c', G'. split; [|split].
  - split; unfold context_of in *; cbn [mem with_last waiting_queue waiting_queue_radix_tree new_token_ratio chunked_req]; rewrite ?Hz2, ?Hz1, ?Hra', ?Hwq', ?Hch'; try done.
    + by rewrite !app_nil_r in M'.
    + unfold ReqPool.owned. rewrite Hz1. etrans; [|exact Hsl']. apply reflexive_eq. f_equal. exact Esl.
    + apply Forall_forall. intros r Hr. eapply elem_of_submseteq in Hr; [|apply sublist_submseteq, Hq]. by apply (proj1 (Forall_forall _ _) Hqw).
    + eapply submseteq_NoDup; [exact Hnames|]. by rewrite fmap_app.
    + rewrite <-Hpg. unfold pages_of. do 2 f_equal. exact (process_decode_size (H3 := paged_size garbage tl_other ps) hash clock cfg accept_token _ _ _ _ _ E).
  - split; simpl; [|exact Eov|exact Hlim]. intros _. split; [exact (after_wf (sb B) rs tokens W Hadv Hl)|by eexists].
  - intros L [= <-]. unfold is_extend. simpl. by rewrite Hmode.
Qed.

(** *** One iteration *)

Abbreviation step := (event_loop_step (ps := ps) hash clock garbage torch_garbage shuffle cfg accept_token forward).

(** A round that admits nothing changes the tree only. *)
Lemma no_batch s s' c G X :
  accounted s c G X → (Req.rid <$> waiting_queue s') ≡ₚ Req.rid <$> waiting_queue s → round_frame s s' → pages_of ps s' = pages_of ps s →
  prefill_outcome ps cfg s s' None c G (row_node <$> X) (X ≫= row_own ps (pool s)) ((fun x => x.2.1) <$> X) →
  (∃ c' G', accounted s' c' G' X) ∧ work_of X (waiting_queue s') = work_of X (waiting_queue s) ∧
  names_of X (waiting_queue s') ≡ₚ names_of X (waiting_queue s).
Proof using.
  clear -H. intros A Hrid [R1 R2 (full & R3) R4 R5 R6] Hpg (Hch & Ep & Ea & c' & G' & M & _ & HG).
  destruct A as [A1 A2 A3 A4 A5 A6 A7 A8 A9 A10 A11 A12]. split; [|split; [|unfold names_of; by rewrite Hrid]].
  - exists c', G'. split; unfold context_of in *; rewrite ?Ep, ?Hch, ?R5, ?Hpg, ?Hrid; try done.
    + eapply Forall_impl; [exact A1|]. intros x Hx. eapply next_line; [|exact HG|exact Hx]. rewrite Ep. by split.
    + eapply Forall_impl; [exact R1|]. intros r (r0 & H0 & S0). eapply wanted_same; [done|]. by apply (proj1 (Forall_forall _ _) A6).
  - unfold work_of. rewrite !fmap_app, !zsum_app. f_equal. apply zsum_perm, named_work; [done| |].
    + by apply NoDup_app in A7 as (_ & _ & ?).
    + eapply Forall_impl; [exact R1|]. intros r (r0 & H0 & S0). exists r0. split; [done|]. split; [apply S0|by apply same_left].
Qed.

(** An empty running batch takes new requests, unless a prefill batch is about
    to join it. *)
Definition open_batch s : Prop :=
  reqs (sb (running_batch s)) = [] → batch_is_full (running_batch s) = false ∨
    ∃ L, last_batch s = Some L ∧ is_extend (sb L) = true ∧ reqs (sb L) ≠ [].

(** The last prefill batch joins the running one. *)
Lemma merge_round s : serving_ok s →
  ∃ s1 c G, (match last_batch s with Some L => if is_extend (sb L) then merge_last [] L s else mret s | None => mret s end) = Ok s1 ∧
    accounted s1 c G (live_rows (sb (running_batch s1))) ∧ batch_ready (sb (running_batch s1)) ∧
    work_of (live_rows (sb (running_batch s1))) (waiting_queue s1) = work s ∧
    names_of (live_rows (sb (running_batch s1))) (waiting_queue s1) = names s ∧ mem s1 = mem s ∧
    (live_rows (sb (running_batch s1)) = [] → reqs (sb (running_batch s1)) = reqs (sb (running_batch s))) ∧
    (open_batch s → reqs (sb (running_batch s1)) = [] → batch_is_full (running_batch s1) = false).
Proof using.
  clear -H. intros (c & G & A & Br & Hl). unfold prefilled_rows, work, names in *. unfold prefilled_rows.
  assert ((∀ L, last_batch s = Some L → is_extend (sb L) = false) → open_batch s → reqs (sb (running_batch s)) = [] → batch_is_full (running_batch s) = false) as Hop.
  { intros Hn Ho Er. destruct (Ho Er) as [?|(L & E & Ee & _)]; [done|]. by rewrite (Hn L E) in Ee. }
  destruct (last_batch s) as [L|] eqn:El; [destruct (is_extend (sb L)) eqn:Ee|].
  - destruct (merge_batches s c G L A Br (Hl L eq_refl Ee)) as (s1 & E & A1 & B1 & Hq & Hfull & Hm & Hr & Em). exists s1, c, G. do 3 (split; [done|]).
    split; [by rewrite Hm, Hq|]. split; [by rewrite Hm, Hq|]. split; [done|]. split.
    + rewrite Hm. intros [_ Ex]%app_nil. by apply Hr.
    + intros Ho Er. apply not_true_iff_false. intros Hf. destruct (Hfull Er Hf) as [EL Es]. rewrite Es in Er, Hf.
      destruct (Ho Er) as [?|(L' & E' & _ & Hne)]; [congruence|]. rewrite El in E'. by injection E' as <-.
  - rewrite app_nil_r in *. exists s, c, G. do 7 (split; [done|]). apply Hop. congruence.
  - rewrite app_nil_r in *. exists s, c, G. do 7 (split; [done|]). by apply Hop.
Qed.

(** A state without rows, whose estimate is reset. *)
Lemma accounted_idle s s' c G :
  accounted s c G [] → mem s' = mem s → waiting_queue s' = waiting_queue s → waiting_queue_radix_tree s' = waiting_queue_radix_tree s →
  chunked_req s' = chunked_req s → last_batch s' = None → reqs (sb (running_batch s')) = [] → enable_overlap (sb (running_batch s')) = false →
  new_token_ratio s' = init_new_token_ratio cfg → check_memory (ps := ps) cfg s = Ok tt ∧ serving_ok s' ∧ work s' = work_of [] (waiting_queue s) ∧ names s' = names_of [] (waiting_queue s).
Proof using Hcfg.
  intros [A1 A2 A3 A4 A5 A6 A7 A8 A9 A10 A11 A12] Em Eq Ew Ec El Er Eo Era.
  split; [by eapply (idle_check ps cfg s c G)|].
  unfold serving_ok, work, names, prefilled_rows. rewrite El, Eq, (no_rows _ Er). split; [|done]. exists c, G. split; [|split; [|done]].
  - split; unfold context_of, pages_of in *; rewrite ?Em, ?Eq, ?Ew, ?Ec, ?Era; try done. apply (cf_ratio _ _ Hcfg).
  - split; [|done|]; rewrite Er; [done|constructor].
Qed.

(** What an iteration that runs no batch has found: no request of the running
    batch goes on, and [get_new_batch_prefill] admits none. *)
Record idled s s' : Prop := mk_idled {
  id_work : work s' = work s;
  id_running : reqs (sb (running_batch s')) = [];
  id_last : last_batch s' = None;
  id_queue : ∃ s1 s2, get_new_batch_prefill (ps := ps) hash clock garbage torch_garbage shuffle cfg s1 = Ok (None, s2) ∧
    (∃ c G, accounted s1 c G []) ∧ batch_ready (sb (running_batch s1)) ∧ work_of [] (waiting_queue s1) = work s ∧
    reqs (sb (running_batch s1)) = reqs (sb (running_batch s)) ∧
    (open_batch s → reqs (sb (running_batch s)) = [] → batch_is_full (running_batch s1) = false) ∧
    (reqs (sb (running_batch s)) ≠ [] → batch_is_full (running_batch s') = false) ∧
    (reqs (sb (running_batch s)) = [] → batch_is_full (running_batch s') = batch_is_full (running_batch s2));
}.

(** The rest of the iteration when no request goes on. *)
Lemma idle_round s c G :
  accounted s c G [] → live_rows (sb (running_batch s)) = [] → batch_ready (sb (running_batch s)) →
  ∃ s', ('(o, s) ← (if is_empty (sb (running_batch s)) then mret (None, s) else
           '(B, s) ← update_running_batch (ps := ps) hash cfg (running_batch s) s;
           mret (if is_empty (sb B) then None else Some B, with_running B s));
         match o with
         | Some B => let '(result, B) := run_batch forward B in
             '(B, s) ← process_batch_result (ps := ps) hash clock cfg accept_token B result s; mret (with_last (Some B) s)
         | None => check_memory (ps := ps) cfg s;; mret (with_last None (with_ratio (init_new_token_ratio cfg) s))
         end) = Ok s' ∧ serving_ok s' ∧ work s' = work_of [] (waiting_queue s) ∧ names s' = names_of [] (waiting_queue s) ∧ context_of s' = context_of s ∧ reqs (sb (running_batch s')) = [] ∧ last_batch s' = None ∧
    (reqs (sb (running_batch s)) ≠ [] → batch_is_full (running_batch s') = false) ∧
    (reqs (sb (running_batch s)) = [] → batch_is_full (running_batch s') = batch_is_full (running_batch s)).
Proof using Hcfg.
  intros A Hn [Bs Bo Bl]. destruct (decide (reqs (sb (running_batch s)) = [])) as [Er|Hne].
  - assert (is_empty (sb (running_batch s)) = true) as -> by (unfold is_empty; by rewrite Er).
    destruct (accounted_idle s (with_last None (with_ratio (init_new_token_ratio cfg) s)) c G A) as (Ec & Hs & Hw & Hn'); try done.
    cbn [mbind pyres_bind mret pyres_ret]. rewrite Ec. eexists. split; [reflexivity|]. done.
  - assert (is_empty (sb (running_batch s)) = false) as ->.
    { unfold is_empty. destruct (reqs (sb (running_batch s))); [done|]. rewrite len_cons. len_pos. lia. }
    destruct (Bs Hne) as [W _].
    assert (update_running_batch (ps := ps) hash cfg (running_batch s) s =
      Ok (set_full false (with_sb (with_reqs [] (sb (running_batch s))) (running_batch s)), s)) as ->.
    { unfold update_running_batch. rewrite keep_live. by rewrite (proj1 (live_rows_nil _ W) Hn). }
    cbn [mbind pyres_bind mret pyres_ret]. set (B := set_full false _). change (is_empty (sb B)) with true. cbn iota.
    destruct (accounted_idle s (with_last None (with_ratio (init_new_token_ratio cfg) (with_running B s))) c G A) as (Ec & Hs & Hw & Hn'); try done.
    assert (check_memory (ps := ps) cfg (with_running B s) = Ok tt) as -> by exact Ec.
    eexists. split; [reflexivity|]. done.
Qed.

(** Every iteration succeeds, and it takes work off unless it idles. *)
Lemma serving_step s : serving_ok s →
  ∃ s', step s = Ok s' ∧ serving_ok s' ∧ names s' ⊆+ names s ∧ context_of s' = context_of s ∧
    ((work s' < work s ∧ ((∃ L, last_batch s' = Some L ∧ is_extend (sb L) = true ∧ reqs (sb L) ≠ []) ∨ reqs (sb (running_batch s')) ≠ [])) ∨
     idled s s').
Proof using All.
  intros S. pose proof S as (c0 & G0 & A0 & _). unfold event_loop_step, get_next_batch_to_run, chunked_object.
  rewrite (ac_chunked _ _ _ _ A0). cbn [fmap option_fmap option_map mbind pyres_bind mret pyres_ret].
  destruct (merge_round s S) as (s1 & c & G & E1 & A & Br & Hw & Hnm & Em & Hr & Hop). rewrite E1.
  assert (context_of s = context_of s1) as Ex by (unfold context_of; by rewrite Em). rewrite Ex. cbn [mbind pyres_bind].
  set (X := live_rows (sb (running_batch s1))) in *.
  pose proof (accounted_sched s1 c G X A eq_refl Br) as So.
  destruct (get_new_batch_prefill_ok hash clock garbage tl_other ps torch_garbage shuffle Hgarbage Hshuffle cfg (cf_paged _ _ Hcfg) (cf_page _ _ Hcfg)
    (cf_mixed _ _ Hcfg) (proj1 (cf_triton _ _ Hcfg)) (proj2 (cf_triton _ _ Hcfg)) s1 c G _ _ _ So (ac_chunked _ _ _ _ A))
    as (o & s2 & E2 & Hrid & Rf & Ho).
  change (get_new_batch_prefill (ps := ps) hash clock garbage torch_garbage shuffle cfg s1 = Ok (o, s2)) in E2. rewrite E2. cbn [mbind pyres_bind].
  destruct o as [B|].
  - cbn [mbind pyres_bind mret pyres_ret]. destruct (prefill_round s1 s2 B c G X A eq_refl Br E2 Hrid Rf Ho) as (B' & s3 & E3 & S3 & W3 & N3 & X3 & Ee & Hne).
    destruct (run_batch forward B) as [res B1]. cbn [fst snd] in E3. rewrite E3. cbn [mbind pyres_bind mret pyres_ret].
    eexists. split; [reflexivity|]. split; [done|]. split; [by rewrite <-Hnm|]. split; [exact X3|]. left. split; [lia|]. left. by exists B'.
  - pose proof (new_prefill_size (H3 := paged_size garbage tl_other ps) hash clock garbage cfg torch_garbage shuffle _ _ _ E2) as Ep.
    destruct (no_batch s1 s2 c G X A Hrid Rf) as ((c2 & G2 & A2) & W2 & N2); [unfold pages_of; do 2 f_equal; exact Ep|exact Ho|].
    destruct (rf_running _ _ Rf) as [full Efull]. assert (context_of s2 = context_of s1) as X2 by (pose proof (rf_shape _ _ Rf) as Hsh; by injection Hsh).
    assert (live_rows (sb (running_batch s2)) = X) as EX by (by rewrite Efull).
    assert (reqs (sb (running_batch s2)) = reqs (sb (running_batch s1))) as Ers by (by rewrite Efull).
    assert (batch_ready (sb (running_batch s2))) as Br2 by (by rewrite Efull).
    destruct (decide (X = [])) as [E0|Hne].
    + rewrite E0 in A, A2, EX, W2, Hw, Hr, N2, Hnm. destruct (idle_round s2 c2 G2 A2 EX Br2) as (s' & E' & S' & W' & N' & X' & Er' & El' & Hf1 & Hf2).
      exists s'. split; [exact E'|]. split; [done|]. split; [by rewrite N', N2, Hnm|]. split; [rewrite X'; exact X2|]. right. rewrite Ers, (Hr eq_refl) in Hf1, Hf2. split; [lia|done|done|].
      exists s1, s2. split; [done|]. split; [by exists c, G|]. split; [done|]. split; [done|]. split; [by apply Hr|].
      split; [|done]. intros Hopen Er. apply Hop; [done|]. by rewrite Hr.
    + destruct (update_round_ok s2 c2 G2 X A2 (eq_sym EX) Br2 Hne) as (B & s3 & E3 & He & W3 & N3 & X3 & c3 & G3 & St).
      assert (is_empty (sb (running_batch s2)) = false) as ->.
      { unfold is_empty. destruct (reqs (sb (running_batch s2))) eqn:Er2; [|rewrite len_cons; len_pos; lia].
        by rewrite <-EX, (no_rows _ Er2) in Hne. }
      rewrite E3. cbn [mbind pyres_bind mret pyres_ret]. rewrite He.
      destruct (process_round_ok _ B c3 G3 St) as (B' & s4 & E4 & S4 & W4 & N4 & X4 & Hne4).
      destruct (run_batch forward B) as [res B1]. cbn [fst snd] in E4. rewrite E4. cbn [mbind pyres_bind mret pyres_ret].
      eexists. split; [reflexivity|]. split; [done|]. split.
      { etrans; [exact N4|]. cbn [waiting_queue with_running]. by rewrite N3, N2, Hnm. }
      split; [etrans; [exact X4|]; etrans; [exact X3|exact X2]|].
      left. split; [cbn [waiting_queue with_running] in W4; lia|by right].
Qed.

(** *** New requests *)

Lemma receive_all s rs : foldl (fun s r => _add_request_to_queue r s) s rs = with_queue (waiting_queue s ++ rs) s.
Proof using.
  clear. revert s. induction rs as [|r rs IH]; intros s; simpl; [rewrite app_nil_r; by destruct s|].
  rewrite IH. unfold _add_request_to_queue. cbn [waiting_queue with_queue]. by rewrite <-app_assoc.
Qed.

Lemma receive_ok s rs :
  serving_ok s → Forall (wanted fits ps (context_of s) (max_total_num_tokens cfg)) rs → NoDup (names s ++ (Req.rid <$> rs)) →
  serving_ok (with_queue (waiting_queue s ++ rs) s) ∧ names (with_queue (waiting_queue s ++ rs) s) = names s ++ (Req.rid <$> rs) ∧
  work (with_queue (waiting_queue s ++ rs) s) = work s + zsum (left <$> rs).
Proof using.
  clear. intros (c & G & [A1 A2 A3 A4 A5 A6 A7 A8 A9 A10 A11 A12] & Br & Hl) Hrs Hnd.
  assert (names (with_queue (waiting_queue s ++ rs) s) = names s ++ (Req.rid <$> rs)) as En.
  { unfold names, names_of. simpl. by rewrite (fmap_app Req.rid (waiting_queue s)), app_assoc. }
  split; [|split; [done|]]; last first.
  { unfold work, work_of. cbn [waiting_queue with_queue running_batch]. change (prefilled_rows (with_queue _ s)) with (prefilled_rows s).
    rewrite !fmap_app, !zsum_app. lia. }
  exists c, G. split; [|done]. split; try done; simpl.
  - apply Forall_app. by split.
  - rewrite <-En in Hnd. exact Hnd.
Qed.

(** A run of the loop, from the lemma of one iteration. *)
Lemma event_loop_run_ok received : ∀ s,
  serving_ok s → Forall (Forall (wanted fits ps (context_of s) (max_total_num_tokens cfg))) received →
  NoDup (names s ++ (Req.rid <$> concat received)) →
  ∃ s', event_loop_normal (ps := ps) hash clock garbage torch_garbage shuffle cfg accept_token forward received s = Ok s' ∧
    serving_ok s' ∧ names s' ⊆+ names s ++ (Req.rid <$> concat received).
Proof using All.
  induction received as [|rs received IH]; intros s S Hw Hnd; [exists s; by rewrite app_nil_r|]. cbn [event_loop_normal concat] in *.
  apply Forall_cons in Hw as [Hrs Hw]. rewrite fmap_app, app_assoc in Hnd |- *. rewrite receive_all.
  destruct (receive_ok s rs S Hrs) as (S1 & N1 & _); [by apply NoDup_app in Hnd as (? & _)|].
  destruct (serving_step _ S1) as (s2 & E2 & S2 & N2 & X2 & _). rewrite E2. cbn [mbind pyres_bind].
  assert (names s2 ++ (Req.rid <$> concat received) ⊆+ (names s ++ (Req.rid <$> rs)) ++ (Req.rid <$> concat received)) as Hsub.
  { apply submseteq_skips_r. by rewrite <-N1. }
  destruct (IH s2 S2) as (s' & E' & S' & N').
  - rewrite X2. exact Hw.
  - by eapply submseteq_NoDup.
  - exists s'. split; [done|]. split; [done|]. by etrans.
Qed.

(** C2: with requests it can complete the server never fails. The server has
    a paged pool, with pages of more than one and at most
    [retract_decode_steps] tokens, below 2^30 tokens; chunked prefill, mixed
    batches, overlap and speculative decoding are off, the Triton kernels
    are used and the ratios are not negative. Before every iteration of
    [event_loop_normal] it receives requests with ids of their own, each of
    which is [wanted]: it has a prompt and a limit of at least one new
    token, fits the context with both, leaves a page of the pool free when
    alone (or was rejected before its first token), and needs a tokenizer if
    it has stop strings; requests that leave no page free do bring the loop
    down, see [event_loop_retract_fails]. A forward pass yields one token
    for each request, whatever it is. From a state in which every page and
    every row of the request table is accounted for, every iteration
    returns, whatever is sampled, cached and evicted: admission, prefill,
    merging of batches, decoding, retraction and the idle check find the
    memory they need, no assertion fails and no page is lost; and such a
    state is reached again. No request appears that was neither there nor
    received. *)
Theorem event_loop_never_fails received s :
  serving_ok s → Forall (Forall (wanted fits ps (context_of s) (max_total_num_tokens cfg))) received →
  NoDup (names s ++ (Req.rid <$> concat received)) →
  ∃ s', event_loop_normal (ps := ps) hash clock garbage torch_garbage shuffle cfg accept_token forward received s = Ok s' ∧
    serving_ok s' ∧ names s' ⊆+ names s ++ (Req.rid <$> concat received).
Proof using All. apply event_loop_run_ok. Qed.

End serving.

(** *** Start-up *)

Section fresh.
Context (clock : nat → Z) (garbage : Z → Z) (ps : nat) (cfg : Config).
#[local] Instance frkv : KVAllocator ps Paged.t := paged_kv ps.

(** The scheduler of a server that has just started, with a table of [rows]
    rows, [context] tokens each, and [size] tokens of memory. *)
Definition fresh_server (rows context size : Z) (need_sort debug events : bool) : Scheduler (A := Paged.t) :=
  init_running_status clock cfg
    (init_memory_pool_and_cache clock (ps := ps) true false events (ReqPool.init rows context)
       (Paged.init garbage size (Z.of_nat ps) need_sort debug)).

Lemma fresh_pool rows context : 0 ≤ rows → 0 ≤ context → ReqPool.wf (ReqPool.init rows context).
Proof.
  intros Hr Hc. split; [|split; [|done]].
  - simpl. unfold len. rewrite length_replicate. lia.
  - intros i Hi. unfold ReqPool.row. simpl in *. rewrite (list_lookup_total_correct _ _ (replicate (Z.to_nat context) 0)).
    + unfold len. rewrite length_replicate. lia.
    + apply lookup_replicate. split; [done|lia].
Qed.

Lemma fresh_memory size need_sort debug (events : bool) : (0 < ps)%nat → (Z.of_nat ps | size) → 0 ≤ size → size + Z.of_nat ps ≤ 2 ^ 31 →
  kv_owned (Paged.init garbage size (Z.of_nat ps) need_sort debug) [].
Proof.
  intros Hps [q ->] Hs Hb. split; [|exists []; split; [constructor|]].
  - simpl. rewrite Z.div_mul by lia. split; [done|lia].
  - split; [|done|change (0 < Z.of_nat ps); lia]. unfold Base.held, Own.pending. simpl. by rewrite !app_nil_r.
Qed.

Lemma fresh_server_ok fits rows context size need_sort debug events :
  plain_config ps cfg → 0 ≤ rows → 0 ≤ context → size = max_total_num_tokens cfg → (Z.of_nat ps | size) → max_micro_batch_size cfg ≤ rows →
  0 ≤ size → serving_ok ps cfg fits (fresh_server rows context size need_sort debug events).
Proof.
  intros Hcfg Hr Hc Es Hd Hm Hs. pose proof (cf_paged _ _ Hcfg) as Hps. pose proof (cf_small _ _ Hcfg) as Hsm. pose proof (cf_pool _ _ Hcfg) as Hpool.
  change retract_decode_steps with 20 in Hsm.
  pose proof (fresh_memory size need_sort debug events ltac:(lia) Hd Hs ltac:(lia)) as Hown.
  pose proof (init_repr clock ps events ltac:(lia)) as R.
  exists (init_RadixCache clock ps false events), {[0%nat := []]}. unfold prefilled_rows. simpl. split; [|split; [split; [done|done|constructor]|done]].
  split; simpl; try done; try (by constructor).
  - split; [done|exact R|by destruct events|by destruct events| |reflexivity|by eapply paged_nonneg].
    change (kv_owned (Paged.init garbage size (Z.of_nat ps) need_sort debug) (tree_chunks (init_RadixCache clock ps false events) {[0%nat := []]} ++ [])).
    assert (tree_chunks (init_RadixCache clock ps false events) {[0%nat := []]} = []) as ->; [|done].
    unfold tree_chunks. rewrite map_to_list_singleton. destruct events; csimpl; rewrite app_nil_r; apply (pages_nil ps); lia.
  - unfold ReqPool.owned. simpl. by rewrite app_nil_r.
  - by apply fresh_pool.
  - split; [done|]. split; [done|]. intros n. exact (r_fresh _ _ _ (init_repr clock 1 false ltac:(lia)) n).
  - apply (cf_ratio _ _ Hcfg).
  - unfold pages_of. simpl. destruct Hd as [q ->]. rewrite Z.div_mul by lia. rewrite <-Es. rewrite Z.max_r; [done|]. nia.
Qed.

End fresh.

(** *** A small server *)

(** Six pages of two tokens and two places. *)
Definition serve_config : Config :=
  mkConfig 2 2 1 64 None false false false (fun _ => true) (inl LPM) (1#2)%Q (1#10)%Q (1#100)%Q 1 12 None true true.

Definition serve_scheduler : Scheduler (A := Paged.t) := fresh_server Z.of_nat (fun _ => 0) 2 serve_config 2 8 12 false true true.

Definition serve_req (rid : string) (ids : list Z) : Req.t :=
  Req.init rid ids (SamplingParams.mk (Some 2) StopNone [] 0 [7] 1%Q 1%Q 1 0%Q 0%Q 0%Q 1%Q 0 1 None None None false None) false [] None [] 32000.

Lemma serve_config_plain : plain_config 2 serve_config.
Proof. split; try reflexivity; try lia; try (vm_compute; done). Qed.

Lemma serve_scheduler_ok fits : serving_ok 2 serve_config fits serve_scheduler.
Proof. apply fresh_server_ok; [exact serve_config_plain|lia|lia|reflexivity|exists 6; reflexivity|reflexivity|lia]. Qed.

Lemma serve_req_wanted fits rid x y z :
  fits [x; y; z] (Req.sampling_params (serve_req rid [x; y; z])) → wanted fits 2 (context_of serve_scheduler) 12 (serve_req rid [x; y; z]).
Proof. intros Hf. split; try done; try (vm_compute; done). by left. Qed.

Lemma event_loop_never_fails_witness :
  ∃ s', event_loop_normal (ps := 2) (H0 := paged_kv 2) (H1 := paged_groups 2) (H2 := paged_batch_allocator (fun _ => 0) (fun _ => 0))
      demo_hash Z.of_nat (fun _ => 0) (fun n => replicate n 0) (fun l => l) serve_config (fun _ _ => None) demo_forward
      [[serve_req "a" [1; 2; 3]; serve_req "b" [9; 8; 7]]; [serve_req "c" [1; 2; 9]]; []; []] serve_scheduler = Ok s' ∧
    serving_ok 2 serve_config (fun _ _ => True) s'.
Proof.
  destruct (event_loop_never_fails demo_hash Z.of_nat (fun _ => 0) (fun n => replicate n 0) (fun l => l) (fun _ => 0) 2 serve_config
    (fun _ _ => None) demo_forward (fun _ _ => True) (fun n => length_replicate n 0) (fun l => reflexivity l)
    (fun B => ex_intro _ _ (conj eq_refl (length_replicate _ _))) serve_config_plain
    [[serve_req "a" [1; 2; 3]; serve_req "b" [9; 8; 7]]; [serve_req "c" [1; 2; 9]]; []; []] serve_scheduler) as (s' & E & S' & _).
  - apply serve_scheduler_ok.
  - repeat match goal with |- Forall _ _ => constructor end; apply serve_req_wanted; exact I.
  - apply (bool_decide_unpack (NoDup _)). vm_compute. reflexivity.
  - exists s'. split; [exact E|exact S'].
Defined.
