(* ===== verification/Completion.v ===== *)
(** * Every request completes

    When no batch is running, the first request of the queue is admitted if
    it fits the empty pool together with the tokens reserved for it.  With
    such requests every iteration of [event_loop_normal] generates tokens or
    drops finished requests, so that the queue and the batches run empty. *)

From Stdlib Require Import QArith.
From S2P Require Import Prelude Allocator PagedAllocator PagedProofs SWAAllocator ReqPool SamplingParams Request KVAllocator FreeGroups.
From S2P Require Import RadixCache RadixInv RadixOwn RadixInsert RadixLocks RadixEvict RadixReq SchedulePolicy SchedulePolicyProofs PrefixCache PrefillAdder PrefillAdderProofs ScheduleBatch.
From S2P Require Import TreeCache Scheduler AdmissionProofs BatchKernels BatchMemory MemoryAccount BatchExtend BatchRetract SchedulerProofs.
From S2P Require Import BatchDecode SchedulerDecode LiveRows OutputProcessor PoolFrame OutputProofs PrefillOutput EventLoop Serving.
Open Scope Z_scope.

(** ** Admission into an empty server *)

Section first.
Context (hash : list Z → Z) (clock : nat → Z) `{HeapQ} {ps : nat} (Hps : (0 < ps)%nat).
#[local] Instance fikv : KVAllocator ps Paged.t := paged_kv ps.
#[local] Existing Instance adm_match.
Abbreviation adder := (PrefillAdder.t Paged.t tree).

(** One lock takes at most the path of its node from the evictable tokens. *)
Lemma lock_one c c' G c0 n l :
  radix_ok ps c (Some (G, c0)) [] → radix_ok ps c' (Some (G, c0)) [Some n] → G !! n = Some l →
  evictable_size c - len l ≤ evictable_size c'.
Proof using.
  clear Hps. intros (H1 & E1 & _ & P1 & R1 & U1) (H2 & E2 & _ & P2 & R2 & U2) Hn.
  symmetry in E1, E2. apply fmap_nil_inv in E1 as ->. destruct H2 as [|n' [|]]; [done| |done]. injection E2 as ->.
  pose proof (tree_account c G _ R1) as T1. pose proof (tree_account c' G _ R2) as T2. rewrite P1, (upto_chunks _ _ G U1) in T1.
  rewrite P2, (upto_chunks _ _ G U2) in T2. pose proof (protected_none c G R1). pose proof (protected_le c' G _ R2) as Hp.
  csimpl in Hp. rewrite zsum_cons, Hn in Hp. change (zsum []) with 0 in Hp. simpl in Hp. lia.
Qed.

(** The attempt to add a request to an empty list, when it has its tokens
    before and after its node is locked. *)
Lemma add_first (a a' : adder) r n hc res r' :
  PrefillAdder.add_one_req r hc a = Ok (res, r', a') →
  pc_disable (PrefillAdder.tree_cache a) = false → PrefillAdder.clipped_new_tokens r = Ok n → Req.host_hit_length r = 0 →
  PrefillAdder.rem_chunk_tokens a = None → PrefillAdder.can_run_list a = [] →
  (inject_Z (Req.extend_input_len r + n) < PrefillAdder.rem_total_tokens a)%Q →
  (∀ u t, pc_inc_lock_ref (Req.last_node r) (PrefillAdder.tree_cache a) = Ok (u, t) →
     (inject_Z (Req.extend_input_len r + n) < PrefillAdder.rem_total_tokens (PrefillAdder.with_tree t a))%Q) →
  PrefillAdder.can_run_list a' ≠ [].
Proof using.
  clear Hps. intros E Hd En Hh Hc Hr Hq Hl. unfold PrefillAdder.add_one_req in E. rewrite Hd, andb_false_r, En in E. cbn [mbind pyres_bind] in E.
  assert (∀ x y : Q, (x < y)%Q → Qle_bool y x = false) as Hlt.
  { intros x y Hxy. apply not_true_iff_false. rewrite Qle_bool_iff. by apply Qlt_not_le. }
  rewrite (Hlt _ _ Hq), Hr in E. change (len [] =? 0) with true in E. rewrite andb_false_r in E. unfold PrefillAdder._lock_node in E.
  apply pyres_bind_ok in E as ([[o r1] a1] & E & E1).
  apply pyres_bind_ok in E as ([u t] & Ei & E). specialize (Hl u t Ei). apply pyres_bind_ok in E as ([[o2 r2] a2] & E2 & E).
  apply pyres_bind_ok in E as (t3 & _ & E). injection E as -> -> <-. injection E1 as _ _ <-. simpl.
  apply pyres_bind_ok in E2 as ([[o4 r4] a4] & E2 & E). injection E as _ _ <-. revert E2. unfold PrefillAdder.add_locked. rewrite (Hlt _ _ Hl).
  unfold PrefillAdder.load_back. rewrite Hh. cbn [mbind pyres_bind mret pyres_ret Z.ltb Z.compare]. simpl. rewrite Hr, Hc.
  change (len [] =? 0) with true. rewrite andb_false_r. intros E2. apply pyres_bind_ok in E2 as ([r5 a5] & E5 & E2). rewrite ?En in E2.
  apply pyres_bind_ok in E2 as (n' & _ & E2). injection E2 as _ _ <-. simpl.
  intros Ea. by apply app_nil in Ea as [_ ?].
Qed.

(** A request that fits next to the tokens reserved for it is admitted when
    nothing is locked. *)
Lemma step_first (k : Paged.t) c G m r hc (a a' : adder) res r' :
  repr c G [] → disable c = false → page_size c = ps →
  PrefillAdder.tree_cache a = RadixTree c → PrefillAdder.token_to_kv_pool_allocator a = PlainPool k →
  PrefillAdder.rem_chunk_tokens a = None → PrefillAdder.can_run_list a = [] → PrefillAdder.rem_total_token_offset a == 0 →
  waiting true r → SamplingParams.max_new_tokens (Req.sampling_params r) = Some m →
  Req.seqlen r + Z.min m CLIP_MAX_NEW_TOKENS < Paged.available_size k + evictable_size c →
  step_req hash clock hc r a = Ok (res, r', a') → PrefillAdder.can_run_list a' ≠ [].
Proof using Hps.
  intros R Hd Hp Et Ek Hc Hr Hz Hw Hm Hfit E.
  assert (tree_ok ps (RadixTree c) (Some (Some (G, c))) []) as O by (exists []; done).
  destruct (init_round_ok hash clock Hps (RadixTree c) _ [] r O Hw) as (r1 & t1 & v1 & E1 & O1 & G1 & Hev & S1 & P1 & Hh & Hfull).
  unfold step_req in E. rewrite Et, E1 in E. cbn [mbind pyres_bind default] in E.
  destruct S1 as (_ & S2 & S3 & S4 & _). destruct P1 as [(p & Hpath & Pi & _) _ _ P4 _].
  assert (∃ c1 G2 c2, t1 = RadixTree c1 ∧ v1 = Some (Some (G2, c2))) as (c1 & G2 & c2 & -> & ->).
  { destruct G1 as [Gon _ _ _]. destruct t1 as [| |c1], v1 as [[[G2 c2]|]|]; try done. by eexists _, _, _. }
  destruct Hpath as (n & En & Hg). simpl in Hev. set (av := Paged.available_size k) in *.
  assert (Req.extend_input_len r1 + Z.min m CLIP_MAX_NEW_TOKENS < av + evictable_size c - len p) as Hlt.
  { rewrite Hfull, S2, S3, Pi, len_app, len_fmap in P4. unfold Req.seqlen in Hfit. lia. }
  assert (∀ t e, pc_evictable_size t = e → Req.extend_input_len r1 + Z.min m CLIP_MAX_NEW_TOKENS < av + e →
    (inject_Z (Req.extend_input_len r1 + Z.min m CLIP_MAX_NEW_TOKENS) < PrefillAdder.rem_total_tokens (PrefillAdder.with_tree t a))%Q) as Hrem.
  { intros t e He Hl. unfold PrefillAdder.rem_total_tokens. cbn [PrefillAdder.rem_total_token_offset PrefillAdder.with_tree].
    rewrite Hz, (available_tree _ k) by done. cbn [PrefillAdder.tree_cache PrefillAdder.with_tree]. rewrite He.
    unfold Qminus. rewrite Qplus_0_r. rewrite <-Zlt_Qlt. exact Hl. }
  eapply (add_first _ a' r1 (Z.min m CLIP_MAX_NEW_TOKENS)); [exact E|..]; try done.
  - destruct O1 as (H' & _ & Hd1 & _). exact Hd1.
  - unfold PrefillAdder.clipped_new_tokens, Req.get_max_new_tokens. by rewrite S4, Hm.
  - apply (Hrem _ (evictable_size c)); [done|]. len_pos. lia.
  - intros u t Ei. destruct (pc_inc_ok (PrefixCacheLaws := tree_prefix_laws ps) (RadixTree c1) _ [] (Req.last_node r1) O1) as (u' & t' & Ei' & O' & _).
    { rewrite En. exists n. split; [done|]. by exists p. }
    pose proof (eq_trans (eq_sym Ei') Ei : Ok (u', t') = Ok (u, t)) as Eq. injection Eq as _ ->. clear Ei Ei'.
    change (PrefillAdder.with_tree t (PrefillAdder.with_tree (Datatypes.id (RadixTree c1)) a)) with (PrefillAdder.with_tree t a).
    destruct t as [| |ct]; [done..|]. apply (Hrem _ (evictable_size ct)); [done|].
    rewrite En in O'. pose proof (lock_one c1 ct G2 c2 n p O1 O' Hg). lia.
Qed.

Lemma loop_first cfg (k : Paged.t) c G m r rest (a a' : adder) alloc lora hc full q' full' :
  adder_ok (H1 := tree_prefix_laws ps) a k (Some (Some (G, c))) [] 0 →
  repr c G [] → disable c = false → page_size c = ps → PrefillAdder.tree_cache a = RadixTree c →
  PrefillAdder.rem_chunk_tokens a = None → PrefillAdder.can_run_list a = [] → PrefillAdder.rem_total_token_offset a == 0 →
  Forall (waiting true) (r :: rest) → SamplingParams.max_new_tokens (Req.sampling_params r) = Some m →
  Req.seqlen r + Z.min m CLIP_MAX_NEW_TOKENS < Paged.available_size k + evictable_size c →
  enable_lora cfg = false → 0 < alloc →
  admit_loop hash clock cfg alloc lora hc (r :: rest) a full = Ok (q', a', full') → PrefillAdder.can_run_list a' ≠ [].
Proof using Hps.
  intros O R Hd Hp Et Hc Hr Hz Hw Hm Hfit Hlora Hal E. rewrite admit_loop_cons, Hlora, Hr in E. cbn [andb] in E. change (len []) with 0 in E.
  rewrite (proj2 (Z.leb_gt _ 0) Hal) in E. apply pyres_bind_ok in E as ([[res r1] a1] & Es & E).
  apply Forall_cons in Hw as [Hw Hrest]. pose proof (ao_pool _ _ _ _ _ O) as Ek.
  pose proof (step_first k c G m r hc a a1 res r1 R Hd Hp Et Ek Hc Hr Hz Hw Hm Hfit Es) as Hne.
  destruct (step_req_ok hash clock Hps a k (Some (Some (G, c))) [] 0 hc r O Hw) as (res0 & r0 & a0 & v' & Es' & Gr & _ & _ & Hcase).
  change (step_req hash clock hc r a = Ok (res0, r0, a0)) in Es'. rewrite Es in Es'. injection Es' as -> -> ->.
  destruct res0; cbn [admit_next] in E; [|injection E as _ <- _; done|injection E as _ <- _; done].
  apply pyres_bind_ok in E as ([[rest' a2] full2] & El & E). injection E as _ <- _.
  destruct Hcase as [(? & _)|(O1 & _ & _)]; [done|].
  destruct (admit_loop_ok hash clock cfg Hps alloc lora hc rest a0 k v' _ 0 full O1) as (q2 & a3 & f3 & v3 & adm & El' & _ & _ & Ea & _).
  { eapply Forall_impl; [exact Hrest|]. intros x. by rewrite (gr_on _ _ Gr). }
  change (admit_loop hash clock cfg alloc lora hc rest a0 full = Ok (q2, a3, f3)) in El'. rewrite El in El'. injection El' as _ -> _.
  rewrite Ea. by intros [? _]%app_nil.
Qed.

End first.

(** The input, the tokens to generate but one, and the tokens reserved at
    admission fit the pool. *)
Definition modest (pages : Z) (ids : list Z) (p : SamplingParams.t) : Prop :=
  let m := default 0 (SamplingParams.max_new_tokens p) in len ids + (m - 1) + Z.min m CLIP_MAX_NEW_TOKENS < pages.

Section complete.
Context (hash : list Z → Z) (clock : nat → Z) (garbage : Z → Z) `{HeapQ}.
Context (torch_garbage : nat → list Z) (shuffle : list Req.t → list Req.t) (tl_other : Z → Z) (ps : nat).
#[local] Instance cpba : BatchAllocator Paged.t := svba garbage tl_other.
#[local] Existing Instance svkv.
Context (cfg : Config) (accept_token : Req.t → Z → option bool) (forward : Batch → option (list Z)).
Context (Hgarbage : ∀ n, length (torch_garbage n) = n) (Hshuffle : ∀ l, shuffle l ≡ₚ l).
Context (Hforward : ∀ B, ∃ tokens, forward B = Some tokens ∧ length tokens = length (reqs (sb B))).
Context (Hcfg : plain_config ps cfg) (Hlora : enable_lora cfg = false) (Hplaces : 0 < max_micro_batch_size cfg).
Abbreviation fits := (modest (max_total_num_tokens cfg)).
Abbreviation sched := (Scheduler (A := Paged.t)).
Implicit Types (s : sched) (c : RadixCache) (G : gmap nat path).

(** An empty server that is not full admits a request. *)
Lemma admits s s' c G :
  accounted ps cfg fits s c G [] → batch_ready (sb (running_batch s)) → reqs (sb (running_batch s)) = [] →
  batch_is_full (running_batch s) = false → waiting_queue s ≠ [] →
  get_new_batch_prefill (ps := ps) hash clock garbage torch_garbage shuffle cfg s ≠ Ok (None, s').
Proof using Hcfg Hgarbage Hshuffle Hlora Hplaces.
  intros A Br Er Hfull Hq E. pose proof (cf_paged _ _ Hcfg) as Hps.
  assert ([] = live_rows (sb (running_batch s))) as EX by (by rewrite no_rows).
  pose proof (accounted_sched ps cfg fits Hcfg s c G [] A EX Br) as So.
  pose proof (accounted_free ps cfg fits s c G [] A) as Hfree. change (len []) with 0 in Hfree.
  destruct (calc_priority_step_ok hash clock ps torch_garbage shuffle Hgarbage Hshuffle cfg s c G _ _ _ So)
    as (q & c1 & G1 & wq & E1 & Hwq & R1 & Hd1 & Hp1 & Hev1 & Gr1 & Hq1 & Hrid1).
  pose proof (ac_places _ _ _ _ _ _ _ A) as Hpl.
  assert (0 < get_num_allocatable_reqs cfg 0 s) as Hal by (unfold get_num_allocatable_reqs; case_match; lia).
  assert ((len (waiting_queue s) =? 0) = false) as Hlen by (apply Z.eqb_neq; intros Ez; by apply len_zero in Ez).
  unfold get_new_batch_prefill in E. rewrite (ac_chunked _ _ _ _ _ _ _ A), Hfull, Er, Hlen in E. change (len []) with 0 in E.
  cbn [orb andb] in E. rewrite (proj2 (Z.leb_gt _ 0) Hal) in E. cbn [andb] in E. rewrite E1 in E. clear E1. cbn [mbind pyres_bind] in E.
  set (s1 := with_tree (RadixTree c1) _) in E. change (reqs (sb (running_batch s1))) with (reqs (sb (running_batch s))) in E.
  rewrite Er, (cf_mixed _ _ Hcfg), (cf_whole _ _ Hcfg), (cf_page _ _ Hcfg) in E. cbn [PrefillAdder.init PrefillAdder.running_offset foldr mbind pyres_bind mret pyres_ret] in E.
  set (a := PrefillAdder.mk _ _ _ _ _ _ _ _ _ _ _ _ _ _) in E.
  assert (chunked_req s1 = None) as Ec by apply A. rewrite Ec in E. cbn [mbind pyres_bind mret pyres_ret] in E.
  apply pyres_bind_ok in E as ([[q' a'] full] & E2 & E).
  assert (PrefillAdder.can_run_list a' = []) as Ecr.
  { destruct (PrefillAdder.can_run_list a') as [|r l]; [done|]. exfalso.
    apply pyres_bind_ok in E as (ch & _ & E). apply pyres_bind_ok in E as ([nb s2] & _ & E). discriminate E. }
  clear E. revert Ecr. destruct q as [|r rest].
  { symmetry in Hrid1. apply Permutation_nil_r, fmap_nil_inv in Hrid1. done. }
  pose proof (ac_mem _ _ _ _ _ _ _ A) as M. pose proof (paged_account (mem s) c G _ _ M) as Hacc. pose proof (protected_none c G (rm_repr _ _ _ _ _ M)) as Hpr.
  pose proof (ac_pages _ _ _ _ _ _ _ A) as Hpg. unfold pages_of in Hpg. csimpl in Hacc. change (len []) with 0 in Hacc.
  assert (Forall (fun r => wanted fits ps (context_of s) (max_total_num_tokens cfg) r) (r :: rest)) as Hw.
  { eapply Forall_impl; [exact Hq1|]. intros x (r0 & H0 & S0). eapply wanted_same; [done|]. by apply (proj1 (Forall_forall _ _) (ac_queue _ _ _ _ _ _ _ A)). }
  destruct (adder_init_ok ps ltac:(lia) (token_to_kv_pool_allocator (mem s)) c1 G1 [] [] (new_token_ratio s)
    (max_prefill_tokens cfg) None R1 Hd1 Hp1) as (a0 & Ea & Oa & _); [apply M|apply M|apply A|constructor|].
  assert (a0 = a) as -> by (by injection Ea as <-).
  eapply (loop_first (ps := ps) hash clock ltac:(lia) cfg _ c1 G1 (max_new r)); [exact Oa| |done..| | | | | | |exact E2]; try done.
  - eapply Forall_impl; [exact Hw|]. intros x Hx. by apply (wanted_waiting _ _ _ _ x Hx).
  - apply Forall_cons in Hw as [Hw _]. apply Hw.
  - apply Forall_cons in Hw as [[_ _ _ W4 _ _ _ _ W9] _]. unfold modest in W9. unfold Req.seqlen, max_new in *. rewrite Hev1. lia.
Qed.

Abbreviation ok := (serving_ok ps cfg fits).
Abbreviation loop := (event_loop_normal (ps := ps) hash clock garbage torch_garbage shuffle cfg accept_token forward).

Lemma serving_work s : ok s → 0 ≤ work s ∧ (work s = 0 → names s = []).
Proof using.
  clear. intros (c & G & A & _). unfold work, work_of, names, names_of. set (X := live_rows _ ++ _) in *.
  assert (Forall (fun r => 0 < left r) (X.*1 ++ waiting_queue s)) as Hp.
  { apply Forall_app. split.
    - apply Forall_fmap. eapply Forall_impl; [apply (ac_wanted _ _ _ _ _ _ _ A)|]. intros x [Hx _]. by eapply wanted_left.
    - eapply Forall_impl; [apply (ac_queue _ _ _ _ _ _ _ A)|]. intros r Hr. by eapply wanted_left. }
  rewrite <-fmap_app. revert Hp. generalize (X.*1 ++ waiting_queue s). intros l. clear. intros Hp.
  assert (len l ≤ zsum (left <$> l)) as Hle.
  { induction Hp as [|r l Hr _ IH]; [done|]. csimpl. rewrite zsum_cons, len_cons. lia. }
  len_pos. split; [lia|]. intros E. assert (len l = 0) as ->%len_zero by lia. done.
Qed.

(** Two for every token to generate, one while the running batch has requests
    to drop. *)
Definition measure s : Z := 2 * work s + if decide (reqs (sb (running_batch s)) = []) then 0 else 1.

Lemma step_measure s : ok s → open_batch s →
  ∃ s', event_loop_step (ps := ps) hash clock garbage torch_garbage shuffle cfg accept_token forward s = Ok s' ∧ ok s' ∧ open_batch s' ∧
    context_of s' = context_of s ∧ names s' ⊆+ names s ∧ work s' ≤ work s ∧ (measure s' < measure s ∨ work s' = 0).
Proof using All.
  intros S Ho.
  destruct (serving_step hash clock garbage torch_garbage shuffle tl_other ps cfg accept_token forward fits Hgarbage Hshuffle Hforward Hcfg s S)
    as (s' & E & S' & N' & X' & Hcase). exists s'. split; [exact E|]. split; [done|].
  destruct Hcase as [[Hlt Hrun]|[Iw Ir Il (s1 & s2 & E2 & (c & G & A) & Br & W1 & Er1 & Hf1 & Hf2 & Hf3)]].
  - split; [|split; [done|split; [done|split; [lia|left]]]].
    + intros Er. destruct Hrun as [(L & E1 & E2 & E3)|?]; [right; by exists L|done].
    + unfold measure. do 2 case_decide; lia.
  - destruct (decide (reqs (sb (running_batch s)) = [])) as [Er|Hne].
    + rewrite Er in Er1. specialize (Hf1 Ho Er). specialize (Hf3 Er).
      destruct (decide (waiting_queue s1 = [])) as [Eq|Hq].
      2:{ exfalso. by apply (admits s1 s2 c G A Br Er1 Hf1 Hq). }
      assert (s2 = s1) as ->.
      { unfold get_new_batch_prefill in E2. rewrite (ac_chunked _ _ _ _ _ _ _ A), Eq, orb_true_r in E2. by injection E2. }
      rewrite Eq in W1. change (work_of [] []) with 0 in W1.
      split; [intros _; left; congruence|]. split; [done|]. split; [done|]. split; [lia|]. right. lia.
    + split; [intros _; left; by apply Hf2|]. split; [done|]. split; [done|]. split; [lia|]. left.
      unfold measure. rewrite decide_True, decide_False by done. lia.
Qed.

(** The loop without new requests. *)
Lemma drain_ok (k : nat) : ∀ s, ok s → open_batch s → measure s ≤ Z.of_nat k ∨ work s = 0 →
  ∃ s', loop (replicate k []) s = Ok s' ∧ ok s' ∧ work s' = 0.
Proof using All.
  induction k as [|k IH]; intros s S Ho Hk.
  - exists s. split; [done|]. split; [done|]. destruct (serving_work s S) as [Hw _]. destruct Hk as [Hk|?]; [|done].
    unfold measure in Hk. case_decide; lia.
  - destruct (step_measure s S Ho) as (s1 & E & S1 & O1 & _ & _ & Hle & Hm). cbn [replicate event_loop_normal foldl].
    rewrite E. cbn [mbind pyres_bind]. apply IH; [done..|]. pose proof (serving_work s1 S1) as [Hw1 _].
    destruct Hk as [Hk|Hk]; [|right; lia]. destruct Hm as [Hm|Hm]; [left; lia|by right].
Qed.

Lemma loop_app l1 : ∀ l2 s s1, loop l1 s = Ok s1 → loop (l1 ++ l2) s = loop l2 s1.
Proof using.
  clear. induction l1 as [|rs l1 IH]; intros l2 s s1 E; [by injection E as ->|]. cbn [app event_loop_normal] in *.
  apply pyres_bind_ok in E as (s2 & E2 & E). rewrite E2. cbn [mbind pyres_bind]. by apply IH.
Qed.

(** The loop while requests arrive. *)
Lemma arrivals_ok received : ∀ s,
  ok s → open_batch s → Forall (Forall (wanted fits ps (context_of s) (max_total_num_tokens cfg))) received →
  NoDup (names s ++ (Req.rid <$> concat received)) →
  ∃ s', loop received s = Ok s' ∧ ok s' ∧ open_batch s' ∧ work s' ≤ work s + zsum (left <$> concat received).
Proof using All.
  induction received as [|rs received IH]; intros s S Ho Hw Hnd; [exists s; split_and!; try done; csimpl; change (zsum []) with 0; lia|].
  cbn [event_loop_normal concat] in *. apply Forall_cons in Hw as [Hrs Hw]. rewrite fmap_app, app_assoc in Hnd. rewrite receive_all.
  destruct (receive_ok ps cfg fits s rs S Hrs) as (S1 & N1 & W1); [by apply NoDup_app in Hnd as (? & _)|].
  destruct (step_measure _ S1) as (s2 & E2 & S2 & O2 & X2 & N2 & Hle & _); [exact Ho|]. rewrite E2. cbn [mbind pyres_bind].
  destruct (IH s2 S2 O2) as (s' & E' & S' & O' & W').
  - rewrite X2. exact Hw.
  - eapply submseteq_NoDup; [|exact Hnd]. apply submseteq_skips_r. by rewrite <-N1.
  - exists s'. split; [done|]. split; [done|]. split; [done|]. rewrite fmap_app, zsum_app. lia.
Qed.

(** No request waits, none of the batches has an unfinished one, and the
    memory is free or in the cache. *)
Record drained s : Prop := mk_drained {
  dn_queue : waiting_queue s = [];
  dn_running : Forall (fun r => Req.finished r = true) (reqs (sb (running_batch s)));
  dn_last : ∀ L, last_batch s = Some L → is_extend (sb L) = true → Forall (fun r => Req.finished r = true) (reqs (sb L));
  dn_memory : check_memory (ps := ps) cfg s = Ok tt;
}.

Lemma all_finished b : batch_ready b → live_rows b = [] → Forall (fun r => Req.finished r = true) (reqs b).
Proof using.
  clear. intros Br Hl. rewrite <-(ready_rows b Br). apply Forall_fmap, Forall_forall. intros x Hx. apply not_false_iff_true. intros Hf.
  assert (x ∈ live_rows b) as Hin by (apply list_elem_of_filter; done). rewrite Hl in Hin. by apply elem_of_nil in Hin.
Qed.

Lemma names_drained s : ok s → names s = [] → drained s.
Proof using.
  clear. intros (c & G & A & Br & Hlast) En. unfold names, names_of in En. apply app_nil in En as [Ex Eq]. apply fmap_nil_inv, fmap_nil_inv in Ex. apply fmap_nil_inv in Eq.
  rewrite Ex in A. apply app_nil in Ex as [Er Ep]. split; [done|by apply all_finished| |].
  - intros L El Ee. unfold prefilled_rows in Ep. rewrite El, Ee in Ep. apply all_finished; [|done]. apply (Hlast L El Ee).
  - destruct A as [_ _ A3 A4 A5 _ _ _ _ _ A11 _]. by eapply idle_check.
Qed.

Lemma serves_all_ok received (k : nat) s :
  ok s → open_batch s → Forall (Forall (wanted fits ps (context_of s) (max_total_num_tokens cfg))) received →
  NoDup (names s ++ (Req.rid <$> concat received)) → 2 * (work s + zsum (left <$> concat received)) < Z.of_nat k →
  ∃ s', loop (received ++ replicate k []) s = Ok s' ∧ ok s' ∧ drained s'.
Proof using All.
  intros S Ho Hw Hnd Hk. destruct (arrivals_ok received s S Ho Hw Hnd) as (s1 & E1 & S1 & O1 & W1).
  destruct (drain_ok k s1 S1 O1) as (s' & E' & S' & Hz); [left; unfold measure; case_decide; lia|].
  exists s'. split; [by rewrite (loop_app received _ s s1 E1)|]. split; [done|]. apply names_drained; [done|]. by apply (serving_work s' S').
Qed.


End complete.

