(* ===== verification/ServingLimits.v ===== *)
(** * What the conditions of serving exclude

    Two small servers show that the conditions on requests are needed: when a
    request needs the whole pool, a retraction can fail although every request
    fits alone; and a request that was admitted and then retracted can be too
    large to be admitted again, even into an empty server. *)

From Stdlib Require Import QArith.
From S2P Require Import Prelude Allocator PagedAllocator PagedProofs SWAAllocator ReqPool SamplingParams Request KVAllocator FreeGroups.
From S2P Require Import RadixCache RadixInv RadixOwn RadixInsert SchedulePolicy PrefixCache PrefillAdder ScheduleBatch TreeCache Scheduler.
From S2P Require Import BatchKernels BatchMemory BatchRetract SchedulerDecode OutputProcessor EventLoop Serving Completion.
Open Scope Z_scope.

(** A server with pages of eight tokens and four places, whose model always
    samples the same token. *)
Definition small_config (max_prefill total : Z) (ratio : Q) : Config :=
  mkConfig 8 4 1 max_prefill None false false false (fun _ => true) (inr FCFS) ratio (1#10)%Q (1#100)%Q 1 total None true true.

Definition small_server (cfg : Config) : Scheduler (A := Paged.t) :=
  fresh_server Z.of_nat (fun _ => 0) 8 cfg 4 32 (max_total_num_tokens cfg) false true false.

Abbreviation small_step cfg :=
  (event_loop_step (ps := 8) (H0 := paged_kv 8) (H1 := paged_groups 8) (H2 := paged_batch_allocator (fun _ => 0) (fun _ => 0))
     demo_hash Z.of_nat (fun _ => 0) (fun n => replicate n 0) (fun l => l) cfg (fun _ _ => None) demo_forward).
Abbreviation small_loop cfg :=
  (event_loop_normal (ps := 8) (H0 := paged_kv 8) (H1 := paged_groups 8) (H2 := paged_batch_allocator (fun _ => 0) (fun _ => 0))
     demo_hash Z.of_nat (fun _ => 0) (fun n => replicate n 0) (fun l => l) cfg (fun _ _ => None) demo_forward).

Definition small_req (rid : string) (ids : list Z) (max_new : Z) : Req.t :=
  Req.init rid ids (SamplingParams.mk (Some max_new) StopNone [] 0 [] 1%Q 1%Q 1 0%Q 0%Q 0%Q 1%Q 0 1 None None None false None) false [] None [] 32000.

(** ** A retraction that fails *)

Definition crash_config : Config := small_config 8 16 (1#2)%Q.
Definition crash_requests : list Req.t :=
  [small_req "k" [1; 2; 3; 4; 5; 6; 7; 8] 4; small_req "r" [9] 2; small_req "j" [1; 2; 3; 4; 5; 6; 7; 8] 2].

(** Retraction can bring the server down.  Three requests arrive, each of
    which the server serves when it is alone.  Together they are admitted; in
    the sixth iteration the assertion of [retract_decode] that the last
    request has space fails, and the exception leaves the event loop. *)
Theorem event_loop_retract_fails :
  Forall (fun r => match small_loop crash_config ([[r]] ++ replicate 8 []) (small_server crash_config) with
                   | Ok s => names s = []
                   | Raise _ => False
                   end) crash_requests ∧
  small_loop crash_config ([crash_requests] ++ replicate 5 []) (small_server crash_config) = Raise AssertionError.
Proof. split; [|vm_compute; reflexivity]. repeat match goal with |- Forall _ _ => constructor end; vm_compute; reflexivity. Qed.

(** ** A request that starves *)

Definition starve_config : Config := small_config 64 32 (1#10)%Q.
Definition starve_requests : list Req.t := [small_req "k" [1; 2; 3; 4; 5; 6; 7; 8] 15; small_req "r" [9] 12; small_req "q" [10] 12].

Lemma stuck_loop cfg s : small_step cfg s = Ok s → ∀ n, small_loop cfg (replicate n []) s = Ok s.
Proof. intros E n. induction n as [|n IH]; [done|]. cbn [replicate event_loop_normal foldl]. by rewrite E. Qed.

(** C39: a retracted request can starve.  Three requests arrive that satisfy the
    conditions under which no iteration fails.  One of them is retracted with
    nine tokens generated.  When the others have finished, the server is
    empty and half of its memory is free and the rest can be evicted; but the
    admission test counts the generated tokens and all the tokens to generate
    of the request, finds no space and marks the running batch as full.
    Every later iteration leaves the state as it is: the request waits for
    ever. *)
Theorem event_loop_starves :
  Forall (wanted (fun _ _ => True) 8 32 32) starve_requests ∧
  ∃ s, small_loop starve_config ([starve_requests] ++ replicate 24 []) (small_server starve_config) = Ok s ∧
    (fun r => (Req.rid r, len (Req.output_ids r))) <$> waiting_queue s = [("k"%string, 9)] ∧ reqs (sb (running_batch s)) = [] ∧
    check_memory (ps := 8) (H0 := paged_kv 8) starve_config s = Ok tt ∧
    ∀ n, small_loop starve_config (replicate n []) s = Ok s.
Proof.
  split.
  { repeat match goal with |- Forall _ _ => constructor end; split; try done; try (vm_compute; done); by left. }
  assert (match small_loop starve_config ([starve_requests] ++ replicate 24 []) (small_server starve_config) with
    | Ok s => small_step starve_config s = Ok s ∧ (fun r => (Req.rid r, len (Req.output_ids r))) <$> waiting_queue s = [("k"%string, 9)] ∧
        reqs (sb (running_batch s)) = [] ∧ check_memory (ps := 8) (H0 := paged_kv 8) starve_config s = Ok tt
    | Raise _ => False
    end) as Hs by (vm_compute; split_and!; reflexivity).
  destruct (small_loop starve_config _ _) as [s|]; [|done]. destruct Hs as (E & Hq & Hr & Hc).
  exists s. split; [done|]. split; [done|]. split; [done|]. split; [done|]. by apply stuck_loop.
Qed.
