(* ===== verification/Intake.v ===== *)
(** * Requests on their way into the queue

    Models [Scheduler.process_input_requests], [handle_generate_request],
    [handle_batch_generate_request], [handle_embedding_request],
    [handle_batch_embedding_request], [move_ready_grammar_requests],
    [open_session] and [close_session] ([srt/managers/scheduler.py]),
    [validate_input_length] ([managers/utils.py]) and [Session.create_req]
    ([managers/session_controller.py]) and the cache of
    [BaseGrammarBackend] ([constrained/base_grammar_backend.py]), without
    disaggregation and data parallelism, for one tensor-parallel rank.
    Messages are modelled without the numbers that the code interpolates. *)

From Stdlib Require Import QArith.
From stdpp Require Import strings.
From S2P Require Import Prelude Allocator PagedAllocator SWAAllocator ReqPool SamplingParams Request KVAllocator FreeGroups RadixCache.
From S2P Require Import PrefixCache ScheduleBatch TreeCache Scheduler OutputProcessor.
Open Scope Z_scope.

(** ** Sessions *)

Record SessionParams := mkSessionParams {
  sp_id : option string;
  sp_rid : option string;
  sp_offset : option Z;
  sp_replace : bool;
  sp_drop_previous_output : bool;
}.

(** [TokenizedGenerateReqInput].  [tg_pad] is [pad_input_ids_func] applied to
    the multimodal inputs, if there are any; [tg_input_embeds] is the number
    of embeddings; [tg_structural_tag] is an attribute of the sampling
    parameters. *)
Record TokenizedGenerateReqInput := mkGenerate {
  tg_rid : string;
  tg_input_ids : list Z;
  tg_pad : option (list Z → list Z);
  tg_sampling_params : SamplingParams.t;
  tg_structural_tag : option string;
  tg_return_logprob : bool;
  tg_logprob_start_len : Z;
  tg_lora_id : option string;
  tg_input_embeds : option Z;
  tg_session_params : option SessionParams;
}.

Module Session.

(** Nodes are objects, referred to by their position in the store; the
    dictionary [req_nodes] maps a request id to its node. *)
Record node := mkNode { req : Req.t; parent : option nat; childs : list nat }.
Record t := mk { session_id : string; store : list node; req_nodes : list (string * nat) }.

Definition set_node (i : nat) (n : node) (s : t) : t := mk (session_id s) (<[i := n]> (store s)) (req_nodes s).

(** [if self.req.finished_reason is None: self.req.to_abort = True] *)
Definition abort (i : nat) (s : t) : t :=
  match store s !! i with
  | Some n => if Req.finished (req n) then s else set_node i (mkNode (Req.set_to_abort true (req n)) (parent n) (childs n)) s
  | None => s
  end.

(** [del req_dict[rid]] *)
Definition del (rid : string) (s : t) : pyres t :=
  if decide (rid ∈ (req_nodes s).*1) then mret (mk (session_id s) (store s) (filter (fun e => e.1 ≠ rid) (req_nodes s)))
  else Raise KeyError.

(** [clear], with fuel for its recursion over the tree. *)
Fixpoint clear (fuel : nat) (i : nat) (s : t) : pyres t :=
  match fuel with
  | O => Raise OutOfFuel
  | S fuel =>
      match store s !! i with
      | None => mret s
      | Some n =>
          s ← foldl (fun acc j => s ← acc; clear fuel j s) (mret s) (childs n);
          let s := abort i s in
          del (Req.rid (req n)) s
      end
  end.

Definition clear_childs (i : nat) (s : t) : pyres t :=
  match store s !! i with
  | None => mret s
  | Some n =>
      s ← foldl (fun acc j => s ← acc; clear (length (store s)) j s) (mret s) (childs n);
      match store s !! i with
      | None => mret s
      | Some n => mret (set_node i (mkNode (req n) (parent n) []) s)
      end
  end.

(** [for _, req_node in self.req_nodes.items(): req_node.clear(self.req_nodes)]:
    the first [clear] removes an entry of the dictionary that is iterated. *)
Definition clear_all (s : t) : pyres t :=
  match req_nodes s with
  | [] => mret s
  | (_, i) :: _ =>
      s' ← clear (length (store s)) i s;
      Raise RuntimeError
  end.

(** The request that [session_params] refers to, and whether to abort. *)
Definition last_node (p : SessionParams) (s : t) : pyres (option nat * bool * t) :=
  let find rid := (list_find (fun e => e.1 = rid) (req_nodes s)) ≫= fun ie => Some ie.2.2 in
  match sp_rid p with
  | None => if sp_replace p then s ← clear_all s; mret (None, false, s) else mret (None, false, s)
  | Some rid =>
      match find rid with
      | None => mret (None, true, s)
      | Some i =>
          if sp_replace p then s ← clear_childs i (abort i s); mret (Some i, false, s)
          else mret (Some i, match store s !! i with Some n => negb (Req.finished (req n)) | None => false end, s)
      end
  end.

(** The new input: the conversation so far, then [ids]. *)
Definition continue_ids (p : SessionParams) (origin : list Z) (last : Req.t) (ids : list Z) : list Z :=
  let input := if sp_drop_previous_output p then origin
    else origin ++ match SamplingParams.max_new_tokens (Req.sampling_params last) with
                   | Some m => (Req.output_ids last).[: m]
                   | None => Req.output_ids last
                   end in
  match sp_offset p with
  | Some o => if o =? 0 then input ++ ids else input.[: o] ++ ids
  | None => input ++ ids
  end.

(** [bos] is [tokenizer.bos_token_id], if there is a tokenizer.  The request is
    created with [lora_path=req.lora_path], an attribute that
    [TokenizedGenerateReqInput] does not have. *)
Definition create_req (r : TokenizedGenerateReqInput) (bos : option Z) (s : t) : pyres (Req.t * t) :=
  match tg_session_params r with
  | None => Raise AssertionError
  | Some p =>
      '(i, _, s) ← last_node p s;
      match i ≫= fun i => store s !! i with
      | None => Raise AttributeError
      | Some n =>
          ids ← (match bos, tg_input_ids r with
                 | Some _, [] => Raise IndexError
                 | Some b, x :: rest => mret (if x =? b then rest else x :: rest)
                 | None, ids => mret ids
                 end);
          let input_ids := continue_ids p (Req.origin_input_ids (req n)) (req n) ids in
          let input_ids_unpadded := continue_ids p (Req.origin_input_ids_unpadded (req n)) (req n) ids in
          Raise AttributeError
      end
  end.

End Session.

(** ** Settings and state *)

Record IntakeConfig := mkIntake {
  max_req_len : Z;
  max_req_input_len : Z;
  allow_auto_truncate : bool;
  max_queued_requests : Z;
  hf_eos_token_id : list Z;
  model_vocab_size : Z;
  the_tokenizer : option Tokenizer;
  bos_token_id : Z;
  has_grammar_backend : bool;
}.

(** [TpModelWorker.__init__] *)
Definition request_limits (context_len max_total_num_tokens : Z) : Z * Z :=
  let max_req_len := Z.min (context_len - 1) (max_total_num_tokens - 1) in (max_req_len, max_req_len - 5).

(** [TokenizedEmbeddingReqInput] *)
Record TokenizedEmbeddingReqInput := mkEmbedding {
  te_rid : string;
  te_input_ids : list Z;
  te_pad : option (list Z → list Z);
  te_sampling_params : SamplingParams.t;
}.

(** What the tokenizer sends. *)
Inductive recv_req :=
  | Generate (r : TokenizedGenerateReqInput)
  | BatchGenerate (rs : list TokenizedGenerateReqInput)
  | Embedding (r : TokenizedEmbeddingReqInput)
  | BatchEmbedding (rs : list TokenizedEmbeddingReqInput)
  | OpenSession (session_id : option string)
  | CloseSession (session_id : string)
  | Abort (r : AbortReq).

(** A compiled grammar with its [is_terminated()], or the object that marks an
    invalid one. *)
Inductive grammar_value := GrammarObj (terminated : bool) | INVALID_GRAMMAR_OBJ.

(** What [req.grammar.result(timeout=0.03)] does: it times out, raises what the
    compilation raised, or returns its result, which is [None] for a kind of
    grammar that the backend does not support. *)
Inductive future_result := TimedOut | Failed (e : pyexn) | Compiled (g : option grammar_value).

(** A request in the grammar queue with its [grammar_key] and
    [grammar_wait_ct]. *)
Record pending := mkPending { pd_req : Req.t; pd_key : string * string; pd_ct : Z }.

Definition set_pd_req (r : Req.t) (p : pending) : pending := mkPending r (pd_key p) (pd_ct p).

Section intake.
Context {A : Type} (icfg : IntakeConfig).
(** The compilations, and [ct > GRAMMAR_TIMEOUT / 0.03]. *)
Context (grammar_result : pending → future_result) (waited_too_long : Z → bool).
Abbreviation sched := (Scheduler (A := A)).

(** [sent] are the ids of the requests that are reported as rejected to the
    tokenizer; [grammar_cache] is the cache of the grammar backend. *)
Record Server := mkServer {
  sch : sched;
  grammar_queue : list pending;
  grammar_cache : gmap (string * string) grammar_value;
  sessions : gmap string Session.t;
  sent : list string;
  return_health_check_ct : Z;
}.
Implicit Types (v : Server).

Definition with_sch (s : sched) v : Server :=
  mkServer s (grammar_queue v) (grammar_cache v) (sessions v) (sent v) (return_health_check_ct v).
Definition with_grammars (q : list pending) v : Server :=
  mkServer (sch v) q (grammar_cache v) (sessions v) (sent v) (return_health_check_ct v).
Definition with_cache (m : gmap (string * string) grammar_value) v : Server :=
  mkServer (sch v) (grammar_queue v) m (sessions v) (sent v) (return_health_check_ct v).
Definition with_sessions (m : gmap string Session.t) v : Server :=
  mkServer (sch v) (grammar_queue v) (grammar_cache v) m (sent v) (return_health_check_ct v).
Definition with_sent (l : list string) v : Server :=
  mkServer (sch v) (grammar_queue v) (grammar_cache v) (sessions v) l (return_health_check_ct v).
Definition with_health (n : Z) v : Server :=
  mkServer (sch v) (grammar_queue v) (grammar_cache v) (sessions v) (sent v) n.

Definition queue_request (r : Req.t) v : Server := with_sch (_add_request_to_queue r (sch v)) v.
Definition reject_request (msg : string) (r : Req.t) v : Server := queue_request (Req.set_finish_with_abort msg r) v.

(** ** Validation *)

Definition validate_input_length (r : Req.t) : Req.t * option string :=
  if max_req_input_len icfg <=? len (Req.origin_input_ids r) then
    if allow_auto_truncate icfg then (Req.set_origin_input_ids (Req.origin_input_ids r).[: max_req_input_len icfg] r, None)
    else (r, Some "Input length exceeds the maximum allowed length."%string)
  else (r, None).

(** The limit on the number of new tokens. *)
Definition limit_new_tokens (r : Req.t) : Req.t :=
  let p := Req.sampling_params r in
  Req.set_sampling_params
    (SamplingParams.set_max_new_tokens
       (Some (Z.min (default (2 ^ 30) (SamplingParams.max_new_tokens p))
                (max_req_len icfg - len (Req.origin_input_ids r) - 1))) p) r.

(** Multimodal inputs lengthen the prompt; [None] when it became too long. *)
Definition expand_multimodal (pad : option (list Z → list Z)) (r : Req.t) : Req.t * bool :=
  match pad with
  | None => (r, true)
  | Some f =>
      let r := Req.set_multimodal_inputs (Some 1%nat) (Req.set_origin_input_ids (f (Req.origin_input_ids r)) r) in
      (r, len (Req.origin_input_ids r) <? max_req_input_len icfg)
  end.

(** ** Generation requests *)

(** [("json", ...)] and so on: the first of the four that is set.  The last
    test is for a true value: with an empty tag [key] is unbound. *)
Definition grammar_key (p : SamplingParams.t) (structural_tag : option string) : pyres (option (string * string)) :=
  match SamplingParams.json_schema p, SamplingParams.regex p, SamplingParams.ebnf p, structural_tag with
  | Some k, _, _, _ => mret (Some ("json"%string, k))
  | None, Some k, _, _ => mret (Some ("regex"%string, k))
  | None, None, Some k, _ => mret (Some ("ebnf"%string, k))
  | None, None, None, Some "" => Raise UnboundLocalError
  | None, None, None, Some k => mret (Some ("structural_tag"%string, k))
  | None, None, None, None => mret None
  end.

(** [get_cached_or_future_value]: a cached value, or [None] when a compilation
    is started. *)
Definition get_cached_or_future_value (k : string * string) v : option grammar_value := grammar_cache v !! k.

Definition grammar_of (g : grammar_value) : option bool :=
  match g with GrammarObj b => Some b | INVALID_GRAMMAR_OBJ => Some false end.

Definition constrained (p : SamplingParams.t) (structural_tag : option string) : bool :=
  bool_decide (is_Some (SamplingParams.json_schema p)) || bool_decide (is_Some (SamplingParams.regex p)) ||
  bool_decide (is_Some (SamplingParams.ebnf p)) || bool_decide (is_Some structural_tag).

(** The last part: the request waits for its grammar or joins the queue.  A
    request that waits holds the compilation as its [grammar], which is not
    read until it has a result. *)
Definition queue_with_grammar (structural_tag : option string) (r : Req.t) v : pyres Server :=
  py_assert (negb (constrained (Req.sampling_params r) structural_tag) || has_grammar_backend icfg) ;;
  key ← grammar_key (Req.sampling_params r) structural_tag;
  match key with
  | None => mret (queue_request r v)
  | Some k =>
      match get_cached_or_future_value k v with
      | Some INVALID_GRAMMAR_OBJ =>
          mret (reject_request "Invalid grammar request with cache hit" (Req.set_grammar (grammar_of INVALID_GRAMMAR_OBJ) r) v)
      | Some value => mret (queue_request (Req.set_grammar (grammar_of value) r) v)
      | None => mret (with_grammars (grammar_queue v ++ [mkPending r k 0]) v)
      end
  end.

(** What follows the creation of the request. *)
Definition validate_generate (g : TokenizedGenerateReqInput) (r : Req.t) v : pyres Server :=
  let '(r, fits) := expand_multimodal (tg_pad g) r in
  if negb fits then mret (reject_request "Multimodal prompt is too long after expanding multimodal tokens." r v) else
  let '(r, error_msg) := validate_input_length r in
  match error_msg with
  | Some msg => mret (reject_request msg r v)
  | None =>
      let n := len (Req.origin_input_ids r) in
      let start := if (tg_logprob_start_len g =? -1) || negb (tg_return_logprob g) then n - 1 else tg_logprob_start_len g in
      if n <=? start
      then mret (reject_request "logprob_start_len is higher than the number of input tokens" (Req.set_logprob_start_len (n - 1) r) v)
      else
        let r := limit_new_tokens (Req.set_logprob_start_len start r) in
        queue_with_grammar (tg_structural_tag g) r v
  end.

(** [Req(...)], with fake ids for embeddings, and [req.tokenizer]. *)
Definition new_request (g : TokenizedGenerateReqInput) : Req.t :=
  let input_ids := match tg_input_embeds g with Some n => replicate (Z.to_nat n) 1 | None => tg_input_ids g end in
  Req.set_tokenizer (the_tokenizer icfg)
    (Req.init (tg_rid g) input_ids (tg_sampling_params g) (tg_return_logprob g) [] (tg_lora_id g) (hf_eos_token_id icfg) (model_vocab_size icfg)).

Definition handle_generate_request (g : TokenizedGenerateReqInput) v : pyres Server :=
  let id := tg_session_params g ≫= sp_id in
  match id, id ≫= fun id => sessions v !! id with
  | Some id, Some ses =>
      '(r, ses) ← Session.create_req g ((fun _ => bos_token_id icfg) <$> the_tokenizer icfg) ses;
      let v := with_sessions (<[id := ses]> (sessions v)) v in
      match Req.finished_reason r with
      | Some (FINISH_ABORT _ _ _) => mret (queue_request r v)
      | _ => validate_generate g r v
      end
  | Some id, None => mret (reject_request "Invalid request: session id does not exist" (new_request g) v)
  | None, _ => validate_generate g (new_request g) v
  end.

Definition handle_batch_generate_request (gs : list TokenizedGenerateReqInput) v : pyres Server :=
  foldl (fun acc g => v ← acc; handle_generate_request g v) (mret v) gs.

(** ** Embedding requests *)

(** [vocab_size] is left [None], which is not read for embeddings. *)
Definition handle_embedding_request (e : TokenizedEmbeddingReqInput) v : Server :=
  let r := Req.set_tokenizer (the_tokenizer icfg) (Req.init (te_rid e) (te_input_ids e) (te_sampling_params e) false [] None [] 0) in
  let '(r, fits) := expand_multimodal (te_pad e) r in
  if negb fits then reject_request "Multimodal prompt is too long after expanding multimodal tokens." r v else
  let '(r, error_msg) := validate_input_length r in
  match error_msg with
  | Some _ => queue_request r v
  | None => queue_request (Req.set_logprob_start_len (len (Req.origin_input_ids r) - 1) r) v
  end.

Definition handle_batch_embedding_request (es : list TokenizedEmbeddingReqInput) v : Server :=
  foldl (fun v e => handle_embedding_request e v) v es.

(** ** Sessions *)

Definition open_session (session_id : option string) v : bool * Server :=
  match session_id with
  | None => (false, v)
  | Some id => match sessions v !! id with
               | Some _ => (false, v)
               | None => (true, with_sessions (<[id := Session.mk id [] []]> (sessions v)) v)
               end
  end.

Definition close_session (session_id : string) v : Server := with_sessions (delete session_id (sessions v)) v.

(** ** Grammars *)

(** One round over the queue: the ready requests in order, stopping at the
    first that is not; the counter of that one, whether it has waited too
    long, and the cache. *)
Fixpoint ready_grammars (q : list pending) (cache : gmap (string * string) grammar_value) :
    pyres (list Req.t * list pending * bool * gmap (string * string) grammar_value) :=
  match q with
  | [] => mret ([], [], false, cache)
  | p :: q' =>
      let r := pd_req p in
      if Req.finished r then '(rs, rest, t, cache) ← ready_grammars q' cache; mret (r :: rs, rest, t, cache) else
      match grammar_result p with
      | TimedOut => mret ([], mkPending r (pd_key p) (pd_ct p + 1) :: q', waited_too_long (pd_ct p + 1), cache)
      | Failed e => Raise e
      | Compiled None => Raise AttributeError
      | Compiled (Some g) =>
          let r := Req.set_grammar (grammar_of g) r in
          let r := match g with INVALID_GRAMMAR_OBJ => Req.set_finish_with_abort "Invalid grammar request" r | _ => r end in
          '(rs, rest, t, cache) ← ready_grammars q' (<[pd_key p := g]> cache);
          mret (r :: rs, rest, t, cache)
      end
  end.

Definition move_ready_grammar_requests v : pyres Server :=
  '(ready, rest, timeout, cache) ← ready_grammars (grammar_queue v) (grammar_cache v);
  let '(ready, rest, cache) :=
    match (timeout : bool), rest with
    | true, p :: rest =>
        (ready ++ [Req.set_finish_with_abort "Grammar preprocessing timed out" (pd_req p)], rest, <[pd_key p := INVALID_GRAMMAR_OBJ]> cache)
    | _, _ => (ready, rest, cache)
    end in
  mret (with_cache cache (with_grammars rest (with_sch (_extend_requests_to_queue ready (sch v)) v))).

(** ** Dispatch *)

Definition recv_rid (m : recv_req) : option string :=
  match m with Generate g => Some (tg_rid g) | Embedding e => Some (te_rid e) | Abort a => Some (abort_rid a) | _ => None end.

Definition is_health_check_generate_req (m : recv_req) : bool :=
  match recv_rid m with Some rid => String.prefix "HEALTH_CHECK" rid | None => false end.

Definition is_work_request (m : recv_req) : bool :=
  match m with Generate _ | Embedding _ | BatchGenerate _ | BatchEmbedding _ => true | _ => false end.

(** What [abort_request] does to the grammar queue. *)
Definition cancel_grammars (a : AbortReq) (q : list pending) : list pending :=
  (fun p => if abort_matches a (pd_req p) then set_pd_req (Req.set_finish_with_abort "Aborted by AbortReq." (pd_req p)) p else p) <$> q.

(** [abort_request] with the grammar queue; [cur_batch] is [last_batch]
    between two iterations. *)
Definition handle_abort (a : AbortReq) v : Server :=
  let '(ids, _, s) := abort_request a [] (sch v) in
  let s := with_last (map_reqs (fmap (mark_abort a)) <$> last_batch s) s in
  with_sent (sent v ++ ids) (with_grammars (cancel_grammars a (grammar_queue v)) (with_sch s v)).

(** The aborts that the scheduler has caused in an iteration. *)
Definition deliver_aborts v : Server :=
  let v' := foldl (fun v '(a, ids) => with_sent (sent v ++ ids) (with_grammars (cancel_grammars a (grammar_queue v)) v))
    v (aborts (sch v)) in
  with_sch (with_aborts [] (sch v')) v'.

(** Nothing is offloaded. *)
Definition process_input_request (m : recv_req) v : pyres Server :=
  if is_health_check_generate_req m && (bool_decide (is_Some (chunked_req (sch v))) || negb (is_empty (sb (running_batch (sch v)))))
  then mret (with_health (return_health_check_ct v + 1) v) else
  if is_work_request m && (max_queued_requests icfg <? len (waiting_queue (sch v)) + 1) then
    match recv_rid m with
    | Some rid => mret (with_sent (sent v ++ [rid]) v)
    | None => Raise AttributeError
    end
  else
    match m with
    | Generate g => handle_generate_request g v
    | BatchGenerate gs => handle_batch_generate_request gs v
    | Embedding e => mret (handle_embedding_request e v)
    | BatchEmbedding es => mret (handle_batch_embedding_request es v)
    | OpenSession id => mret (open_session id v).2
    | CloseSession id => mret (close_session id v)
    | Abort a => mret (handle_abort a v)
    end.

Definition process_input_requests (ms : list recv_req) v : pyres Server :=
  foldl (fun acc m => v ← acc; process_input_request m v) (mret v) ms.

End intake.

(** ** The server *)

Section server.
Context (hash : list Z → Z) (clock : nat → Z) (garbage : Z → Z) `{HeapQ}.
Context (torch_garbage : nat → list Z) (shuffle : list Req.t → list Req.t).
Context {ps : nat} {A : Type} `{FreeGroups ps A} `{BatchAllocator A}.
Context (cfg : Config) (accept_token : Req.t → Z → option bool) (forward : Batch → option (list Z)).
Context (icfg : IntakeConfig) (grammar_result : pending → future_result) (waited_too_long : Z → bool).
Implicit Types (v : Server (A := A)).

(** One iteration of [event_loop_normal] with the messages [ms].
    [get_new_batch_prefill] starts with [move_ready_grammar_requests]; what
    [get_next_batch_to_run] does before it does not touch the queues, and
    nothing after the output processing of an iteration reads the grammar
    queue. *)
Definition server_step (ms : list recv_req) v : pyres (Server (A := A)) :=
  v ← process_input_requests icfg ms v;
  v ← move_ready_grammar_requests grammar_result waited_too_long v;
  s ← event_loop_step (ps := ps) hash clock garbage torch_garbage shuffle cfg accept_token forward (sch v);
  mret (deliver_aborts (with_sch s v)).

Fixpoint server_loop (received : list (list recv_req)) v : pyres (Server (A := A)) :=
  match received with
  | [] => mret v
  | ms :: received => v ← server_step ms v; server_loop received v
  end.

End server.
