(* ===== verification/IntakeProofs.v ===== *)
(** * What reaches the queue

    The outcome of [handle_generate_request] for every request: queued within
    the limits of the server, queued as rejected with a prompt of one token,
    waiting for its grammar, or an exception.  No request is lost between the
    messages, the two queues and the reports to the tokenizer, and the grammar
    queue is served in order, with exactly the compiled grammars cached. *)

From Stdlib Require Import QArith.
From stdpp Require Import strings.
From S2P Require Import Prelude Allocator PagedAllocator SWAAllocator ReqPool SamplingParams Request KVAllocator FreeGroups RadixCache.
From S2P Require Import PrefixCache PrefillAdder ScheduleBatch TreeCache Scheduler OutputProcessor LiveRows Intake.
Open Scope Z_scope.

(** ** One request *)

Section handle.
Context {A : Type} (icfg : IntakeConfig).
Abbreviation Server := (Server (A := A)).
Implicit Types (v : Server) (g : TokenizedGenerateReqInput) (r : Req.t).

(** A request within the limits; [ids] is its prompt after the expansion of
    multimodal inputs. *)
Record accepted (ids : list Z) (p : SamplingParams.t) r : Prop := mk_accepted {
  ac_finished : Req.finished_reason r = None;
  ac_output : Req.output_ids r = [];
  ac_ids : Req.origin_input_ids r = if max_req_input_len icfg <=? len ids then ids.[: max_req_input_len icfg] else ids;
  ac_truncated : max_req_input_len icfg ≤ len ids → allow_auto_truncate icfg = true;
  ac_params : Req.sampling_params r = SamplingParams.set_max_new_tokens
    (Some (Z.min (default (2 ^ 30) (SamplingParams.max_new_tokens p)) (max_req_len icfg - len (Req.origin_input_ids r) - 1))) p;
  ac_tokenizer : Req.tokenizer r = the_tokenizer icfg;
  ac_whole : Req.is_chunked r = 0;
  ac_logprob : Req.return_logprob r = true → Req.logprob_start_len r < len (Req.origin_input_ids r);
}.

(** A request as it was received. *)
Definition created (p : SamplingParams.t) r : Prop :=
  Req.output_ids r = [] ∧ Req.sampling_params r = p ∧ Req.tokenizer r = the_tokenizer icfg ∧ Req.is_chunked r = 0.

(** A rejected one. *)
Definition rejected (ids : list Z) (p : SamplingParams.t) r : Prop :=
  ∃ msg q, r = Req.set_finish_with_abort msg q ∧ (created p q ∨ accepted ids p q).

(** The request is at the end of the waiting queue, or waits for its grammar. *)
Definition arrived v v' r : Prop :=
  sessions v' = sessions v ∧ grammar_cache v' = grammar_cache v ∧ sent v' = sent v ∧ return_health_check_ct v' = return_health_check_ct v ∧
  ((sch v' = with_queue (waiting_queue (sch v) ++ [r]) (sch v) ∧ grammar_queue v' = grammar_queue v) ∨
   (∃ k, sch v' = sch v ∧ grammar_queue v' = grammar_queue v ++ [mkPending r k 0] ∧ Req.finished_reason r = None)).

Lemma arrived_queue r v : arrived v (queue_request r v) r.
Proof using. unfold arrived. do 4 (split; [done|]). by left. Qed.

(** It has a prompt of one token and carries the error. *)
Lemma rejected_fields ids p r : rejected ids p r →
  Req.origin_input_ids r = [0] ∧ Req.output_ids r = [] ∧ ∃ msg, Req.finished_reason r = Some (FINISH_ABORT msg (Some 400) (Some "BadRequestError"%string)).
Proof using.
  intros (msg & q & -> & Hq). split; [done|]. split; [by destruct Hq as [[]|[]]|].
  unfold Req.set_finish_with_abort, finish_abort. simpl. by destruct msg; eexists.
Qed.

Definition prompt_of g : list Z :=
  let ids := match tg_input_embeds g with Some n => replicate (Z.to_nat n) 1 | None => tg_input_ids g end in
  match tg_pad g with Some f => f ids | None => ids end.

Lemma expand_ok g :
  ∃ r fits, expand_multimodal icfg (tg_pad g) (new_request icfg g) = (r, fits) ∧ Req.rid r = tg_rid g ∧
    Req.origin_input_ids r = prompt_of g ∧ created (tg_sampling_params g) r ∧ Req.finished_reason r = None ∧
    Req.return_logprob r = tg_return_logprob g.
Proof using.
  unfold expand_multimodal, prompt_of. destruct (tg_pad g) as [f|]; eexists _, _; (split; [reflexivity|]); unfold created; simpl; by destruct (tg_input_embeds g).
Qed.

(** What goes wrong with a grammar that passes the other checks: there is no
    backend, or all that is asked for is an empty structural tag. *)
Definition grammar_error (p : SamplingParams.t) (tag : option string) : option pyexn :=
  if constrained p tag then
    if has_grammar_backend icfg then
      match SamplingParams.json_schema p, SamplingParams.regex p, SamplingParams.ebnf p, tag with
      | None, None, None, Some "" => Some UnboundLocalError
      | _, _, _, _ => None
      end
    else Some AssertionError
  else None.

Definition handles_grammar (p : SamplingParams.t) (tag : option string) : Prop := grammar_error p tag = None.

(** The request refers to a session that is open. *)
Definition session_open g v : Prop := ∃ id, tg_session_params g ≫= sp_id = Some id ∧ is_Some (sessions v !! id).

(** The prompt, cut to the limit. *)
Definition cut_prompt g : list Z :=
  if max_req_input_len icfg <=? len (prompt_of g) then (prompt_of g).[: max_req_input_len icfg] else prompt_of g.

(** The request is outside sessions, its prompt is short enough or may be cut,
    and the log probabilities start inside it. *)
Definition checked g : Prop :=
  tg_session_params g ≫= sp_id = None ∧
  (max_req_input_len icfg ≤ len (prompt_of g) → allow_auto_truncate icfg = true ∧ tg_pad g = None) ∧
  (tg_return_logprob g = true → tg_logprob_start_len g < len (cut_prompt g)).

(** What becomes of a generation request; [adm] describes an accepted one. *)
Inductive outcome (adm : Req.t → Prop) g v : pyres Server → Prop :=
  | out_session e : session_open g v → outcome adm g v (Raise e)
  | out_rejected msg r : ¬ session_open g v → ¬ checked g → created (tg_sampling_params g) r → Req.rid r = tg_rid g →
      outcome adm g v (Ok (queue_request (Req.set_finish_with_abort msg r) v))
  | out_grammar_error e : checked g → grammar_error (tg_sampling_params g) (tg_structural_tag g) = Some e → outcome adm g v (Raise e)
  | out_accepted r : checked g → grammar_key (tg_sampling_params g) (tg_structural_tag g) = Ok None → adm r →
      outcome adm g v (Ok (queue_request r v))
  | out_cached k b r : checked g → handles_grammar (tg_sampling_params g) (tg_structural_tag g) →
      grammar_key (tg_sampling_params g) (tg_structural_tag g) = Ok (Some k) →
      grammar_cache v !! k = Some (GrammarObj b) → adm r → Req.grammar r = Some b → outcome adm g v (Ok (queue_request r v))
  | out_invalid k msg r : checked g → handles_grammar (tg_sampling_params g) (tg_structural_tag g) →
      grammar_key (tg_sampling_params g) (tg_structural_tag g) = Ok (Some k) →
      grammar_cache v !! k = Some INVALID_GRAMMAR_OBJ → adm r → outcome adm g v (Ok (queue_request (Req.set_finish_with_abort msg r) v))
  | out_waits k r : checked g → handles_grammar (tg_sampling_params g) (tg_structural_tag g) →
      grammar_key (tg_sampling_params g) (tg_structural_tag g) = Ok (Some k) →
      grammar_cache v !! k = None → adm r → outcome adm g v (Ok (with_grammars (grammar_queue v ++ [mkPending r k 0]) v)).

Lemma outcome_impl (adm adm' : Req.t → Prop) g v res : (∀ r, adm r → adm' r) → outcome adm g v res → outcome adm' g v res.
Proof using.
  intros Hi. destruct 1;
    [by eapply out_session|by eapply out_rejected|by eapply out_grammar_error|eapply out_accepted|eapply out_cached|eapply out_invalid|eapply out_waits];
    eauto.
Qed.

Lemma accepted_grammar ids p r x : accepted ids p r → accepted ids p (Req.set_grammar x r).
Proof using. intros [A1 A2 A3 A4 A5 A6 A7 A8]. by split. Qed.

(** An accepted request of [g]. *)
Definition taken g r : Prop := accepted (prompt_of g) (tg_sampling_params g) r ∧ Req.rid r = tg_rid g.

Lemma grammar_key_same r p tag :
  SamplingParams.json_schema (Req.sampling_params r) = SamplingParams.json_schema p →
  SamplingParams.regex (Req.sampling_params r) = SamplingParams.regex p →
  SamplingParams.ebnf (Req.sampling_params r) = SamplingParams.ebnf p →
  constrained (Req.sampling_params r) tag = constrained p tag ∧ grammar_key (Req.sampling_params r) tag = grammar_key p tag.
Proof using. intros E1 E2 E3. unfold constrained, grammar_key. by rewrite E1, E2, E3. Qed.

Lemma queue_with_grammar_ok g r v : checked g → taken g r → outcome (taken g) g v (queue_with_grammar icfg (tg_structural_tag g) r v).
Proof using.
  intros Hc [Ha Ei]. unfold queue_with_grammar.
  destruct (grammar_key_same r (tg_sampling_params g) (tg_structural_tag g)) as [-> ->]; [by rewrite (ac_params _ _ _ Ha)..|].
  set (p := tg_sampling_params g) in *. set (tag := tg_structural_tag g) in *.
  assert (∀ x, taken g (Req.set_grammar x r)) as Hx by (intros x; split; [by apply accepted_grammar|done]).
  assert (constrained p tag = false → grammar_key p tag = Ok None) as Hfree.
  { unfold constrained, grammar_key. by destruct (SamplingParams.json_schema p), (SamplingParams.regex p), (SamplingParams.ebnf p), tag. }
  destruct (constrained p tag) eqn:Econ; cbn [negb orb].
  2:{ rewrite (Hfree eq_refl). simpl. apply out_accepted; [done|by apply Hfree|done]. }
  destruct (has_grammar_backend icfg) eqn:Eb; cbn [py_assert mbind pyres_bind].
  2:{ apply out_grammar_error; [done|]. unfold grammar_error. fold p tag. by rewrite Econ, Eb. }
  assert ((grammar_error p tag = Some UnboundLocalError ∧ grammar_key p tag = Raise UnboundLocalError) ∨
    (grammar_error p tag = None ∧ ∃ k, grammar_key p tag = Ok (Some k))) as [[E1 ->]|[E1 [k Ek]]].
  { unfold grammar_error, grammar_key. rewrite Econ, Eb. unfold constrained in Econ.
    destruct (SamplingParams.json_schema p), (SamplingParams.regex p), (SamplingParams.ebnf p), tag as [[]|]; eauto; done. }
  { by apply out_grammar_error. }
  rewrite Ek. cbn [mbind pyres_bind]. unfold get_cached_or_future_value.
  destruct (grammar_cache v !! k) as [[b|]|] eqn:Ec.
  - by eapply out_cached.
  - by eapply out_invalid.
  - by eapply out_waits.
Qed.

Lemma create_req_raises g bos s : ∃ e, Session.create_req g bos s = Raise e.
Proof using.
  unfold Session.create_req. destruct (tg_session_params g) as [p|]; [|eauto].
  destruct (Session.last_node p s) as [[[i b] s']|e]; cbn [mbind pyres_bind]; [|eauto].
  destruct (i ≫= _); [|eauto]. destruct bos; destruct (tg_input_ids g); cbn [mbind pyres_bind mret pyres_ret]; eauto.
Qed.

(** The checks from the length of the prompt on. *)
Lemma validated_outcome g r v :
  tg_session_params g ≫= sp_id = None → Req.rid r = tg_rid g → created (tg_sampling_params g) r →
  Req.finished_reason r = None → Req.return_logprob r = tg_return_logprob g → Req.origin_input_ids r = cut_prompt g →
  (max_req_input_len icfg ≤ len (prompt_of g) → allow_auto_truncate icfg = true ∧ tg_pad g = None) →
  let n := len (Req.origin_input_ids r) in
  let start := if (tg_logprob_start_len g =? -1) || negb (tg_return_logprob g) then n - 1 else tg_logprob_start_len g in
  outcome (taken g) g v
    (if n <=? start
     then mret (reject_request "logprob_start_len is higher than the number of input tokens" (Req.set_logprob_start_len (n - 1) r) v)
     else queue_with_grammar icfg (tg_structural_tag g) (limit_new_tokens icfg (Req.set_logprob_start_len start r)) v).
Proof using.
  intros Hs Ei (Eo & Ep & Et & Ec) Ef El Eids Ht n start.
  assert (¬ session_open g v) as Hno by (intros (id & E & _); congruence).
  destruct (Z.leb_spec n start) as [Hle|Hlt].
  - eapply out_rejected; try done. intros (_ & _ & Hl). unfold start in Hle. destruct (tg_return_logprob g); [|rewrite orb_true_r in Hle; simpl in Hle; lia].
    specialize (Hl eq_refl). rewrite <-Eids in Hl. fold n in Hl. destruct (tg_logprob_start_len g =? -1); simpl in Hle; lia.
  - apply queue_with_grammar_ok.
    + split; [done|]. split; [done|]. intros Hr. rewrite <-Eids. fold n. unfold start in Hlt. rewrite Hr in Hlt. cbn [negb] in Hlt.
      rewrite orb_false_r in Hlt. destruct (Z.eqb_spec (tg_logprob_start_len g) (-1)) as [->|]; [unfold n; len_pos; lia|lia].
    + split; [|done]. split; simpl; try done; [by intros [? _]%Ht|by rewrite Ep].
Qed.

Lemma handle_generate_request_ok g v : outcome (taken g) g v (handle_generate_request icfg g v).
Proof.
  unfold handle_generate_request. destruct (tg_session_params g ≫= sp_id) as [id|] eqn:Es.
  { cbn [mbind option_bind]. destruct (sessions v !! id) as [ses|] eqn:Eo.
    - destruct (create_req_raises g ((fun _ => bos_token_id icfg) <$> the_tokenizer icfg) ses) as [e ->]. apply out_session. by exists id.
    - eapply out_rejected; [|by intros [? _]; congruence|done|done]. intros (id' & E & [? Hx]). congruence. }
  assert (¬ session_open g v) as Hno by (intros (id & E & _); congruence).
  unfold validate_generate. destruct (expand_ok g) as (r & fits & E & Ei & Eids & Hc & Ef & El). rewrite E.
  assert (tg_pad g ≠ None → fits = (len (prompt_of g) <? max_req_input_len icfg)) as Hfit.
  { intros Hp. rewrite <-Eids. unfold expand_multimodal in E. destruct (tg_pad g) as [f|]; [|done]. by injection E as <- <-. }
  destruct fits; cbn [negb].
  2:{ eapply out_rejected; try done. intros (_ & Hl & _). unfold expand_multimodal in E. destruct (tg_pad g) as [f|]; [|done].
      specialize (Hfit ltac:(done)). symmetry in Hfit. apply Z.ltb_ge in Hfit. by destruct (Hl Hfit). }
  unfold validate_input_length. rewrite Eids.
  destruct (Z.leb_spec (max_req_input_len icfg) (len (prompt_of g))) as [Hlong|Hshort].
  - destruct (allow_auto_truncate icfg) eqn:Ht.
    + apply validated_outcome; try done.
      * unfold cut_prompt. simpl. by rewrite (proj2 (Z.leb_le _ _) Hlong).
      * intros _. split; [done|]. destruct (tg_pad g) as [f|]; [|done]. specialize (Hfit ltac:(done)). symmetry in Hfit. apply Z.ltb_lt in Hfit. lia.
    + eapply out_rejected; try done. intros (_ & Hl & _). destruct (Hl Hlong); congruence.
  - apply validated_outcome; try done; [|lia]. unfold cut_prompt. by rewrite (proj2 (Z.leb_gt _ _) Hshort).
Qed.

(** How a request ends up that the server can handle. *)
Definition settles g (res : pyres Server) v : Prop :=
  ∃ v' r, res = Ok v' ∧ Req.rid r = tg_rid g ∧ arrived v v' r ∧
    (accepted (prompt_of g) (tg_sampling_params g) r ∨ rejected (prompt_of g) (tg_sampling_params g) r) ∧
    (checked g → accepted (prompt_of g) (tg_sampling_params g) r ∨
      ∃ msg q, r = Req.set_finish_with_abort msg q ∧ accepted (prompt_of g) (tg_sampling_params g) q).

Lemma outcome_settles g v res : ¬ session_open g v → handles_grammar (tg_sampling_params g) (tg_structural_tag g) →
  outcome (taken g) g v res → settles g res v.
Proof using.
  unfold handles_grammar. intros Hs Hg.
  destruct 1 as [e ?|msg r _ Hn Hc Ei|e Hc He|r Hc Ek [Ha Ei]|k b r Hc Hh Ek Ev [Ha Ei] Er|k msg r Hc Hh Ek Ev [Ha Ei]|k r Hc Hh Ek Ev [Ha Ei]]; try congruence.
  - eexists _, (Req.set_finish_with_abort msg r). split; [reflexivity|]. split; [done|]. split; [apply arrived_queue|].
    split; [|by intros ?%Hn]. right. eexists _, _. split; [done|by left].
  - eexists _, r. split; [reflexivity|]. split; [done|]. split; [apply arrived_queue|]. split; [by left|intros _; by left].
  - eexists _, r. split; [reflexivity|]. split; [done|]. split; [apply arrived_queue|]. split; [by left|intros _; by left].
  - eexists _, (Req.set_finish_with_abort msg r). split; [reflexivity|]. split; [done|]. split; [apply arrived_queue|].
    split; [|intros _; by eauto]. right. eexists _, _. split; [done|by right].
  - eexists _, r. split; [reflexivity|]. split; [done|]. split; [|split; [by left|intros _; by left]].
    unfold arrived. do 4 (split; [done|]). right. exists k. by destruct Ha.
Qed.

(** A request that [g] asks for, within the limits: unfinished, with the given
    prompt, cut to the limit if it is too long; the prompt with all the tokens
    it may generate stays below the context and the memory. *)
Record admitted (context total : Z) g r : Prop := mk_admitted {
  ad_rid : Req.rid r = tg_rid g;
  ad_finished : Req.finished_reason r = None;
  ad_prompt : Req.origin_input_ids r = cut_prompt g;
  ad_fits : ∃ m, SamplingParams.max_new_tokens (Req.sampling_params r) = Some m ∧
    m ≤ default (2 ^ 30) (SamplingParams.max_new_tokens (tg_sampling_params g)) ∧
    len (Req.origin_input_ids r) + m < context - 1 ∧ len (Req.origin_input_ids r) + m < total - 1;
}.


End handle.

(** *** Many messages *)

Section intake.
Context {A : Type} (icfg : IntakeConfig).
Abbreviation Server := (Server (A := A)).
Implicit Types (v : Server) (m : recv_req).

(** A message for one request, which the server can handle. *)
Definition single m : Prop :=
  match m with
  | Generate g => tg_session_params g ≫= sp_id = None ∧ handles_grammar icfg (tg_sampling_params g) (tg_structural_tag g)
  | BatchGenerate _ | BatchEmbedding _ => False
  | Embedding _ | OpenSession _ | CloseSession _ | Abort _ => True
  end.

Definition is_batch m : bool := match m with BatchGenerate _ | BatchEmbedding _ => true | _ => false end.

(** Where the requests are: in the queues, or reported to the tokenizer. *)
Definition queued_ids v : list string := (Req.rid <$> waiting_queue (sch v)) ++ (Req.rid ∘ pd_req <$> grammar_queue v) ++ sent v.

Definition busy v : bool := bool_decide (is_Some (chunked_req (sch v))) || negb (is_empty (sb (running_batch (sch v)))).

(** The requests that the message brings; a health check of a busy server is
    dropped. *)
Definition brought (b : bool) m : list string :=
  if is_health_check_generate_req m && b then []
  else match m with
       | Generate g => [tg_rid g]
       | BatchGenerate gs => tg_rid <$> gs
       | Embedding e => [te_rid e]
       | BatchEmbedding es => te_rid <$> es
       | OpenSession _ | CloseSession _ | Abort _ => []
       end.

Lemma arrived_queued v v' r : arrived v v' r →
  queued_ids v' ≡ₚ queued_ids v ++ [Req.rid r] ∧ busy v' = busy v ∧ len (waiting_queue (sch v')) ≤ len (waiting_queue (sch v)) + 1.
Proof using.
  intros (_ & _ & Es & _ & [[E Eg]|(k & E & Eg & _)]); unfold queued_ids, busy; rewrite E, Eg, Es; simpl.
  - rewrite fmap_app, len_app. split; [|done]. csimpl. rewrite <-!app_assoc. apply Permutation_app_head. by rewrite (Permutation_app_comm [_]), <-app_assoc.
  - split; [|split; [done|lia]]. rewrite fmap_app, <-!app_assoc. do 2 apply Permutation_app_head. apply Permutation_app_comm.
Qed.

Lemma embedding_arrives e v : ∃ r, Req.rid r = te_rid e ∧ arrived v (handle_embedding_request icfg e v) r.
Proof using.
  unfold handle_embedding_request, validate_input_length, expand_multimodal. destruct (te_pad e) as [f|]; simpl.
  - destruct (_ <? _); simpl; [|eexists; split; [|apply arrived_queue]; done].
    destruct (_ <=? _); [destruct (allow_auto_truncate icfg)|]; eexists; (split; [|apply arrived_queue]); done.
  - destruct (_ <=? _); [destruct (allow_auto_truncate icfg)|]; eexists; (split; [|apply arrived_queue]); done.
Qed.

Lemma cancel_ids a q : Req.rid ∘ pd_req <$> cancel_grammars a q = Req.rid ∘ pd_req <$> q.
Proof using.
  unfold cancel_grammars. rewrite <-list_fmap_compose. apply list_fmap_ext. intros _ p _. simpl. by destruct (abort_matches a (pd_req p)).
Qed.

Lemma abort_queued a v : queued_ids (handle_abort a v) ≡ₚ queued_ids v ∧ busy (handle_abort a v) = busy v ∧
  len (waiting_queue (sch (handle_abort a v))) ≤ len (waiting_queue (sch v)).
Proof using.
  unfold queued_ids, busy, handle_abort. simpl. split; [|split].
  - rewrite cancel_ids, reverse_Permutation.
    assert (∀ q, (Req.rid <$> filter (fun r => abort_matches a r = true) q) ++ (Req.rid <$> filter (fun r => abort_matches a r = false) q) ≡ₚ Req.rid <$> q) as Hs.
    { intros q. rewrite <-fmap_app. apply fmap_Permutation. induction q as [|r q IH]; [done|]. rewrite !filter_cons.
      destruct (abort_matches a r); simpl; [by rewrite IH|]. by rewrite <-Permutation_middle, IH. }
    rewrite <-(Hs (waiting_queue (sch v))). rewrite (Permutation_app_comm (sent v)).
    generalize (Req.rid <$> filter (fun r => abort_matches a r = true) (waiting_queue (sch v))) (Req.rid <$> filter (fun r => abort_matches a r = false) (waiting_queue (sch v))).
    intros x y. solve_Permutation.
  - f_equal. unfold is_empty. simpl. by rewrite len_fmap.
  - unfold len. pose proof (length_filter (fun r => abort_matches a r = false) (waiting_queue (sch v))). lia.
Qed.

(** [v'] is [v] with the requests [ids] added to the queues or the reports. *)
Definition gains v v' (ids : list string) : Prop := queued_ids v' ≡ₚ queued_ids v ++ ids ∧ busy v' = busy v.

Lemma gains_trans v v1 v2 l1 l2 : gains v v1 l1 → gains v1 v2 l2 → gains v v2 (l1 ++ l2).
Proof using. intros [Q1 B1] [Q2 B2]. split; [|congruence]. by rewrite Q2, Q1, <-app_assoc. Qed.

Lemma gains_refl v v' : queued_ids v' = queued_ids v → busy v' = busy v → gains v v' [].
Proof using. intros E B. split; [by rewrite app_nil_r, E|done]. Qed.

(** What is left when a request was handled. *)
Lemma generate_gains g v v' : handle_generate_request icfg g v = Ok v' →
  gains v v' [tg_rid g] ∧ len (waiting_queue (sch v')) ≤ len (waiting_queue (sch v)) + 1.
Proof using.
  intros E. pose proof (handle_generate_request_ok icfg g v) as Ho. rewrite E in Ho.
  assert (∃ r, Req.rid r = tg_rid g ∧ arrived v v' r) as (r & Er & Har).
  { inversion Ho as [|msg r Hn Hc Hcr Ei|?|r Hc Ek [Ha Ei]|k b r Hc Hh Ek Ev [Ha Ei] Er|k msg r Hc Hh Ek Ev [Ha Ei]|k r Hc Hh Ek Ev [Ha Ei]]; subst;
      try (eexists; split; [|apply arrived_queue]; done).
    exists r. split; [done|]. unfold arrived. do 4 (split; [done|]). right. exists k. by destruct Ha. }
  destruct (arrived_queued v v' r Har) as (? & ? & ?). rewrite <-Er. by split.
Qed.

Lemma embedding_gains e v : gains v (handle_embedding_request icfg e v) [te_rid e] ∧
  len (waiting_queue (sch (handle_embedding_request icfg e v))) ≤ len (waiting_queue (sch v)) + 1.
Proof using.
  destruct (embedding_arrives e v) as (r & Er & Har). destruct (arrived_queued _ _ r Har) as (? & ? & ?). rewrite <-Er. by split.
Qed.

Lemma foldl_raise {X Y} (f : Y → X → pyres Y) l e : foldl (fun acc x => y ← acc; f y x) (Raise e) l = Raise e.
Proof using. by induction l. Qed.

Lemma batch_gains gs : ∀ v v', handle_batch_generate_request icfg gs v = Ok v' → gains v v' (tg_rid <$> gs).
Proof using.
  unfold handle_batch_generate_request. induction gs as [|g gs IH]; intros v v'; cbn [foldl].
  { intros [= <-]. by apply gains_refl. }
  cbn [mbind pyres_bind mret pyres_ret]. destruct (handle_generate_request icfg g v) as [v1|e] eqn:E; [|by rewrite (foldl_raise (fun v g => handle_generate_request icfg g v))].
  intros E'. apply (gains_trans v v1 v' [tg_rid g]); [by apply generate_gains|by apply IH].
Qed.

Lemma embeddings_gain es : ∀ v, gains v (handle_batch_embedding_request icfg es v) (te_rid <$> es).
Proof using.
  unfold handle_batch_embedding_request. induction es as [|e es IH]; intros v; cbn [foldl]; [by apply gains_refl|].
  eapply (gains_trans v _ _ [te_rid e]); [apply embedding_gains|apply IH].
Qed.

Lemma process_gains m v v' : process_input_request icfg m v = Ok v' → gains v v' (brought (busy v) m) ∧
  (is_batch m = false → len (waiting_queue (sch v')) ≤ Z.max (len (waiting_queue (sch v))) (max_queued_requests icfg)).
Proof using.
  unfold process_input_request, brought. fold (busy v).
  destruct (is_health_check_generate_req m && busy v) eqn:Eh.
  { intros [= <-]. split; [by apply gains_refl|simpl; lia]. }
  destruct (is_work_request m && _) eqn:Ew.
  { destruct m; try done; intros [= <-]; (split; [|simpl; lia]); (split; [|done]); unfold queued_ids; simpl; by rewrite !app_assoc. }
  destruct m as [g|gs|e|es|o|o|a]; simpl in Ew |- *; try apply Z.ltb_ge in Ew.
  - intros E. destruct (generate_gains g v v' E). split; [done|]. lia.
  - intros E. split; [by apply batch_gains|done].
  - intros [= <-]. destruct (embedding_gains e v). split; [done|]. lia.
  - intros [= <-]. split; [apply embeddings_gain|done].
  - intros [= <-]. unfold open_session. destruct o as [id|]; [destruct (sessions v !! id)|]; (split; [by apply gains_refl|simpl; lia]).
  - intros [= <-]. split; [by apply gains_refl|simpl; lia].
  - intros [= <-]. destruct (abort_queued a v) as (? & ? & ?). split; [split; [by rewrite app_nil_r|done]|]. lia.
Qed.

Lemma process_returns m v : single m → ∃ v', process_input_request icfg m v = Ok v'.
Proof using.
  intros Hm. unfold process_input_request. destruct (_ && _); [by eexists|]. destruct (_ && _) eqn:Ew.
  { destruct m; try done; by eexists. }
  destruct m as [g|gs|e|es|o|o|a]; try done; [|by eexists..]. destruct Hm as [Hs Hg].
  assert (¬ session_open g v) as Hno by (intros (id & E & _); congruence).
  destruct (outcome_settles icfg g v _ Hno Hg (handle_generate_request_ok icfg g v)) as (v' & r & -> & _). by eexists.
Qed.

(** C5: no request is lost on the way in.  Whatever messages
    [process_input_requests] handles, if it returns, each request received,
    alone or in a batch, except a health check of a busy server, is exactly
    once in the waiting queue, in the grammar queue or in the reports to the
    tokenizer, and so are those that were there before: aborted requests and
    those that find the queue full move to the reports.  Without batches the
    waiting queue does not grow beyond [max_queued_requests], or its previous
    length if that is larger.  It does return for embedding requests, aborts,
    session messages and generation requests outside sessions whose grammars
    the server can handle; but a batch that comes first and finds the
    queue full raises [AttributeError]. *)
Theorem process_input_requests_conserves ms v :
  (∀ v', process_input_requests icfg ms v = Ok v' →
     queued_ids v' ≡ₚ queued_ids v ++ (ms ≫= brought (busy v)) ∧
     (Forall (fun m => is_batch m = false) ms → len (waiting_queue (sch v')) ≤ Z.max (len (waiting_queue (sch v))) (max_queued_requests icfg))) ∧
  (Forall single ms → ∃ v', process_input_requests icfg ms v = Ok v') ∧
  (∀ m, is_batch m = true → max_queued_requests icfg < len (waiting_queue (sch v)) + 1 → process_input_requests icfg (m :: ms) v = Raise AttributeError).
Proof using.
  unfold process_input_requests. split_and!.
  - revert v. induction ms as [|m ms IH]; intros v v'; cbn [foldl].
    { intros [= <-]. csimpl. rewrite app_nil_r. split; [done|]. lia. }
    cbn [mbind pyres_bind mret pyres_ret]. destruct (process_input_request icfg m v) as [v1|e] eqn:E; [|by rewrite (foldl_raise (fun v m => process_input_request icfg m v))].
    intros E'. destruct (process_gains m v v1 E) as [[Q1 B1] L1]. destruct (IH v1 v' E') as [Q' L']. split.
    + rewrite Q', Q1, B1. csimpl. by rewrite <-app_assoc.
    + intros [Hm Hms]%Forall_cons. specialize (L1 Hm). specialize (L' Hms). lia.
  - intros Hms. revert v. induction Hms as [|m ms Hm _ IH]; intros v; cbn [foldl]; [by eexists|].
    cbn [mbind pyres_bind mret pyres_ret]. destruct (process_returns m v Hm) as [v1 ->]. apply IH.
  - intros m Hb Hfull. cbn [foldl mbind pyres_bind mret pyres_ret].
    assert (process_input_request icfg m v = Raise AttributeError) as ->.
    { unfold process_input_request. destruct m; try done; cbn; by rewrite (proj2 (Z.ltb_lt _ _) Hfull). }
    apply (foldl_raise (fun v m => process_input_request icfg m v)).
Qed.

End intake.

(** *** The grammar queue *)

Section grammars.
Context {A : Type} (grammar_result : pending → future_result) (waited_too_long : Z → bool).
Abbreviation Server := (Server (A := A)).
Implicit Types (v : Server) (p : pending) (q : list pending).

(** How a request leaves the queue. *)
Inductive readied p : Req.t → Prop :=
  | rd_aborted : Req.finished (pd_req p) = true → readied p (pd_req p)
  | rd_compiled b :
      Req.finished (pd_req p) = false → grammar_result p = Compiled (Some (GrammarObj b)) → readied p (Req.set_grammar (Some b) (pd_req p))
  | rd_invalid :
      Req.finished (pd_req p) = false → grammar_result p = Compiled (Some INVALID_GRAMMAR_OBJ) →
      readied p (Req.set_finish_with_abort "Invalid grammar request" (Req.set_grammar (Some false) (pd_req p)))
  | rd_timeout :
      Req.finished (pd_req p) = false → grammar_result p = TimedOut → waited_too_long (pd_ct p + 1) = true →
      readied p (Req.set_finish_with_abort "Grammar preprocessing timed out" (pd_req p)).

Definition bump p : pending := mkPending (pd_req p) (pd_key p) (pd_ct p + 1).

(** It stays: the compilation goes on. *)
Definition stays p : Prop := Req.finished (pd_req p) = false ∧ grammar_result p = TimedOut.

(** It leaves the queue in this round. *)
Definition done_waiting p : Prop := Req.finished (pd_req p) = true ∨ ∃ g, grammar_result p = Compiled (Some g).

(** Its compilation raises, or yields nothing that can be copied. *)
Definition breaks p (e : pyexn) : Prop :=
  Req.finished (pd_req p) = false ∧ (grammar_result p = Failed e ∨ (grammar_result p = Compiled None ∧ e = AttributeError)).

(** The cache after the requests [l] have left. *)
Definition cached_value p : grammar_value :=
  match grammar_result p with Compiled (Some g) => g | _ => INVALID_GRAMMAR_OBJ end.
Definition cache_all (l : list pending) (cache : gmap (string * string) grammar_value) : gmap (string * string) grammar_value :=
  foldl (fun m p => if Req.finished (pd_req p) then m else <[pd_key p := cached_value p]> m) cache l.

Lemma ready_grammars_ok q : ∀ cache,
  (∃ rs gone rest rest' t, ready_grammars grammar_result waited_too_long q cache = Ok (rs, rest', t, cache_all gone cache) ∧
    q = gone ++ rest ∧ Forall2 readied gone rs ∧ Forall done_waiting gone ∧
    ((rest = [] ∧ rest' = [] ∧ t = false) ∨ ∃ p l, rest = p :: l ∧ rest' = bump p :: l ∧ stays p ∧ t = waited_too_long (pd_ct p + 1))) ∨
  (∃ gone p rest e, q = gone ++ p :: rest ∧ Forall done_waiting gone ∧ breaks p e ∧
    ready_grammars grammar_result waited_too_long q cache = Raise e).
Proof using.
  induction q as [|p q IH]; intros cache; cbn [ready_grammars].
  { left. exists [], [], [], [], false. split; [done|]. split; [done|]. split; [constructor|]. split; [constructor|by left]. }
  assert (∀ r cache1, readied p r → done_waiting p → cache1 = cache_all [p] cache →
    (∃ rs gone rest rest' t, ('(rs, rest, t, cache) ← ready_grammars grammar_result waited_too_long q cache1; mret (r :: rs, rest, t, cache))
        = Ok (rs, rest', t, cache_all gone cache) ∧
      p :: q = gone ++ rest ∧ Forall2 readied gone rs ∧ Forall done_waiting gone ∧
      ((rest = [] ∧ rest' = [] ∧ t = false) ∨ ∃ p l, rest = p :: l ∧ rest' = bump p :: l ∧ stays p ∧ t = waited_too_long (pd_ct p + 1))) ∨
    (∃ gone p' rest e, p :: q = gone ++ p' :: rest ∧ Forall done_waiting gone ∧ breaks p' e ∧
      ('(rs, rest, t, cache) ← ready_grammars grammar_result waited_too_long q cache1; mret (r :: rs, rest, t, cache)) = Raise e)) as Hgo.
  { intros r cache1 Hr Hd ->. destruct (IH (cache_all [p] cache)) as [(rs & gone & rest & rest' & t & E & -> & Hrs & Hdone & Hend)|(gone & p' & rest & e & -> & Hdone & Hb & E)].
    - left. exists (r :: rs), (p :: gone), rest, rest', t. rewrite E. split; [done|]. split; [done|]. split; [by constructor|]. split; [by constructor|done].
    - right. exists (p :: gone), p', rest, e. rewrite E. split; [done|]. split; [by constructor|done]. }
  destruct (Req.finished (pd_req p)) eqn:Ef.
  { apply Hgo; [by constructor|by left|]. cbn. by rewrite Ef. }
  assert (∀ g, grammar_result p = Compiled (Some g) → <[pd_key p := g]> cache = cache_all [p] cache) as Hcache.
  { intros g Eg. cbn. rewrite Ef. unfold cached_value. by rewrite Eg. }
  destruct (grammar_result p) as [|e|[[b|]|]] eqn:Eg.
  - left. exists [], [], (p :: q), (bump p :: q), (waited_too_long (pd_ct p + 1)). split; [done|]. split; [done|]. split; [constructor|].
    split; [constructor|]. right. by exists p, q.
  - right. exists [], p, q, e. split; [done|]. split; [constructor|]. split; [|done]. split; [done|by left].
  - apply Hgo; [by constructor|right; eauto|by apply Hcache].
  - apply Hgo; [by constructor|right; eauto|by apply Hcache].
  - right. exists [], p, q, AttributeError. split; [done|]. split; [constructor|]. split; [|done]. split; [done|by right].
Qed.

(** The server after the requests [gone] have left as [ready]. *)
Definition moved v (gone : list pending) (ready : list Req.t) (queue : list pending) : Server :=
  with_cache (cache_all gone (grammar_cache v)) (with_grammars queue (with_sch (with_queue (waiting_queue (sch v) ++ ready) (sch v)) v)).

(** What is left of the grammar queue: nothing; or what follows a request that
    has waited too long; or a request whose compilation goes on, counted once
    more, and what follows. *)
Definition remains (gone rest queue : list pending) : Prop :=
  (rest = [] ∧ queue = [] ∧ Forall done_waiting gone) ∨
  (∃ gone' p, gone = gone' ++ [p] ∧ Forall done_waiting gone' ∧ stays p ∧ waited_too_long (pd_ct p + 1) = true ∧ queue = rest) ∨
  (∃ p l, rest = p :: l ∧ Forall done_waiting gone ∧ stays p ∧ waited_too_long (pd_ct p + 1) = false ∧ queue = bump p :: l).

Lemma move_ready_ok v :
  (∃ gone rest ready queue, move_ready_grammar_requests grammar_result waited_too_long v = Ok (moved v gone ready queue) ∧
    grammar_queue v = gone ++ rest ∧ Forall2 readied gone ready ∧ remains gone rest queue) ∨
  (∃ gone p rest e, grammar_queue v = gone ++ p :: rest ∧ Forall done_waiting gone ∧ breaks p e ∧
    move_ready_grammar_requests grammar_result waited_too_long v = Raise e).
Proof using.
  unfold move_ready_grammar_requests.
  destruct (ready_grammars_ok (grammar_queue v) (grammar_cache v))
    as [(rs & gone & rest & rest' & t & E & Eq & Hrs & Hd & Hend)|(gone & p & rest & e & Eq & Hd & Hb & E)]; rewrite E; cbn [mbind pyres_bind].
  2:{ right. by exists gone, p, rest, e. }
  left. destruct Hend as [(-> & -> & ->)|(p & l & -> & -> & Hst & ->)].
  - exists gone, [], rs, []. split; [done|]. split; [done|]. split; [done|]. by left.
  - destruct (waited_too_long (pd_ct p + 1)) eqn:Ew.
    + exists (gone ++ [p]), l, (rs ++ [Req.set_finish_with_abort "Grammar preprocessing timed out" (pd_req p)]), l.
      split; [|split; [by rewrite <-app_assoc|split]].
      * unfold moved, cache_all. rewrite foldl_app. destruct Hst as [Hf Hg].
        assert (cached_value p = INVALID_GRAMMAR_OBJ) as Ev by (unfold cached_value; by rewrite Hg). cbn [foldl]. by rewrite Hf, Ev.
      * apply Forall2_app; [done|]. constructor; [|constructor]. destruct Hst as [Hf Hg]. exact (rd_timeout p Hf Hg Ew).
      * right. left. by exists gone, p.
    + exists gone, (p :: l), rs, (bump p :: l). split; [done|]. split; [done|]. split; [done|]. right. right. by exists p, l.
Qed.

(** C6: the grammar queue is served in order.  Either
    [move_ready_grammar_requests] returns: it appends to the waiting queue,
    in their order, the requests of a prefix of the grammar queue: those that
    were aborted, as they are; those whose grammar is compiled, with it; and,
    rejected, those whose grammar is invalid and one that has waited too
    long, which ends the prefix.  The rest stays in order; unless it is
    empty or follows one that has waited too long, it starts with a request
    whose compilation goes on and whose count has grown.  The cache gains,
    for each moved request that was not aborted, exactly the grammar that
    was compiled for its key, or the mark of an invalid one after a timeout;
    nothing else changes.  Or, behind requests that are done, it meets one
    whose compilation raised, and raises the same, or one whose kind of
    grammar the backend does not support, and raises [AttributeError]. *)
Theorem grammar_queue_in_order v :
  (∃ gone rest ready queue, move_ready_grammar_requests grammar_result waited_too_long v = Ok (moved v gone ready queue) ∧
    grammar_queue v = gone ++ rest ∧ Forall2 readied gone ready ∧ remains gone rest queue) ∨
  (∃ gone p rest e, grammar_queue v = gone ++ p :: rest ∧ Forall done_waiting gone ∧ breaks p e ∧
    move_ready_grammar_requests grammar_result waited_too_long v = Raise e).
Proof using. apply move_ready_ok. Qed.

End grammars.

(** *** A small server *)

Definition door_config : IntakeConfig := mkIntake 9 4 true 1 [] 32000 None 1 true.
Definition door_params (regex : option string) : SamplingParams.t :=
  SamplingParams.mk None StopNone [] 0 [] 1%Q 1%Q 1 0%Q 0%Q 0%Q 1%Q 0 1 None regex None false None.
Definition door_input (rid : string) (ids : list Z) (regex : option string) : TokenizedGenerateReqInput :=
  mkGenerate rid ids None (door_params regex) None false (-1) None None None.
Definition door_batch : Batch := init_new [] false None.
Definition door_server : Server (A := unit) :=
  mkServer (mkScheduler (mkMemory (ReqPool.init 1 1) tt NoTree) [] door_batch None None 0%Q 0
    (init_RadixCache Z.of_nat 1 false false) []) [] ∅ ∅ [] 0.


(** The third finds the queue full, and the second is aborted. *)
Definition door_messages : list recv_req :=
  [Generate (door_input "a" [1; 2] (Some "x"%string)); Generate (door_input "b" [1] None); Generate (door_input "c" [1] None); Abort (mkAbort "b" false)].

Lemma process_input_requests_conserves_witness :
  ∃ v', process_input_requests door_config door_messages door_server = Ok v' ∧ queued_ids v' ≡ₚ ["a"; "b"; "c"]%string ∧ len (waiting_queue (sch v')) ≤ 1.
Proof.
  destruct (process_input_requests_conserves (A := unit) door_config door_messages door_server) as (Hc & Hr & _).
  destruct Hr as [v' E]; [repeat match goal with |- Forall _ _ => constructor end; try exact I; split; reflexivity|].
  exists v'. split; [exact E|]. destruct (Hc v' E) as [Q L]. split; [exact Q|]. apply L. repeat constructor.
Defined.

Lemma grammar_queue_in_order_witness :
  let v := with_grammars [mkPending (new_request door_config (door_input "a" [1] None)) ("regex", "x")%string 0;
                          mkPending (new_request door_config (door_input "b" [1] None)) ("regex", "y")%string 5] door_server in
  let result p := if bool_decide (pd_key p = ("regex", "x")%string) then Compiled (Some (GrammarObj false)) else TimedOut in
  ∃ gone rest ready queue, move_ready_grammar_requests result (fun ct => 3 <? ct) v = Ok (moved result v gone ready queue) ∧
    grammar_queue v = gone ++ rest ∧ Forall2 (readied result (fun ct => 3 <? ct)) gone ready.
Proof.
  intros v result. destruct (grammar_queue_in_order (A := unit) result (fun ct => 3 <? ct) v)
    as [(gone & rest & ready & queue & E & Eq & F & _)|(gone & p & rest & e & _ & _ & _ & E)].
  - exists gone, rest, ready, queue. split; [exact E|]. split; [exact Eq|exact F].
  - exfalso. vm_compute in E. discriminate E.
Defined.
