(* ===== verification/ServerLoop.v ===== *)
(** * The whole server

    The messages of the tokenizer, the grammar queue and the event loop
    together.  With the limits that the server puts on requests, and a pool
    larger than the context, no stream of generation requests, aborts and
    session messages makes it fail, rejected requests included. *)

From Stdlib Require Import QArith.
From stdpp Require Import strings.
From S2P Require Import Prelude Allocator PagedAllocator PagedProofs SWAAllocator ReqPool SamplingParams Request KVAllocator FreeGroups.
From S2P Require Import RadixCache RadixInv RadixOwn RadixInsert SchedulePolicy PrefixCache PrefillAdder ScheduleBatch TreeCache Scheduler.
From S2P Require Import BatchKernels BatchMemory SchedulerDecode LiveRows OutputProcessor OutputProofs PrefillOutput EventLoop Serving ServingLimits Intake IntakeProofs.
Open Scope Z_scope.

Section server.
Context (hash : list Z → Z) (clock : nat → Z) (garbage : Z → Z) `{HeapQ}.
Context (torch_garbage : nat → list Z) (shuffle : list Req.t → list Req.t) (tl_other : Z → Z) (ps : nat).
#[local] Instance slba : BatchAllocator Paged.t := svba garbage tl_other.
#[local] Existing Instance svkv.
Context (cfg : Config) (accept_token : Req.t → Z → option bool) (forward : Batch → option (list Z)).
Context (Hgarbage : ∀ n, length (torch_garbage n) = n) (Hshuffle : ∀ l, shuffle l ≡ₚ l).
Context (Hforward : ∀ B, ∃ tokens, forward B = Some tokens ∧ length tokens = length (reqs (sb B))).
Context (Hcfg : plain_config ps cfg).
Context (icfg : IntakeConfig) (grammar_result : pending → future_result) (waited_too_long : Z → bool) (context : Z).
Abbreviation pages := (max_total_num_tokens cfg).
Abbreviation anything := (fun (_ : list Z) (_ : SamplingParams.t) => True).
Abbreviation wanted := (wanted anything ps context pages).
Abbreviation sched := (Scheduler (A := Paged.t)).
Abbreviation Server := (Server (A := Paged.t)).
Implicit Types (s : sched) (v : Server) (r : Req.t) (g : TokenizedGenerateReqInput).

(** ** Aborts *)

Lemma mark_marked a B : marked B (map_reqs (fmap (mark_abort a)) B).
Proof using.
  exists (mark_abort a <$> reqs (sb B)). split; [done|]. apply Forall2_fmap_r, Forall_Forall2_diag, Forall_true. intros x. apply mark_untouched.
Qed.

Definition aborted (a : AbortReq) s : sched :=
  with_last (map_reqs (fmap (mark_abort a)) <$> last_batch s)
    (with_running (map_reqs (fmap (mark_abort a)) (running_batch s)) (with_queue (filter (fun r => abort_matches a r = false) (waiting_queue s)) s)).

Lemma aborted_prefilled a s : (∀ L, last_batch s = Some L → is_extend (sb L) = true → last_ready L) →
  Forall2 marked_row (prefilled_rows s) (prefilled_rows (aborted a s)) ∧
  ∀ L, last_batch (aborted a s) = Some L → is_extend (sb L) = true → last_ready L.
Proof using.
  clear. intros Hl. unfold prefilled_rows. cbn [aborted with_last last_batch]. destruct (last_batch s) as [L|]; [|by split].
  cbn [fmap option_fmap option_map]. change (is_extend (sb (map_reqs (fmap (mark_abort a)) L))) with (is_extend (sb L)).
  destruct (is_extend (sb L)) eqn:Ee.
  - destruct (Hl L eq_refl Ee) as [L1 L2 L3]. destruct (marked_ready L _ (mark_marked a L) L1) as [Hr Hm]. split; [done|].
    intros L' [= <-] _. by split.
  - split; [constructor|]. intros L' [= <-]. change (is_extend (sb (map_reqs (fmap (mark_abort a)) L))) with (is_extend (sb L)). by rewrite Ee.
Qed.

Lemma abort_serving fits a s : serving_ok ps cfg fits s → serving_ok ps cfg fits (aborted a s) ∧ names (aborted a s) ⊆+ names s.
Proof using.
  clear. intros (c & G & A & Br & Hl). destruct (marked_ready _ _ (mark_marked a (running_batch s)) Br) as [Br' Fr].
  destruct (aborted_prefilled a s Hl) as [Fp Hl']. pose proof (Forall2_app Fr Fp) as F.
  set (X := live_rows (sb (running_batch s)) ++ prefilled_rows s) in *.
  set (Y := live_rows (sb (map_reqs (fmap (mark_abort a)) (running_batch s))) ++ prefilled_rows (aborted a s)) in *.
  destruct A as [A1 A2 A3 A4 A5 A6 A7 A8 A9 A10 A11 A12].
  destruct (marked_fields ps (req_to_token_pool (mem s)) _ _ F) as (E1 & E2 & E3 & E4).
  assert (names (aborted a s) ⊆+ names s) as Hn.
  { unfold names, names_of. fold X. change (live_rows (sb (running_batch (aborted a s))) ++ prefilled_rows (aborted a s)) with Y. rewrite E4.
    apply submseteq_skips_l, fmap_submseteq, sublist_submseteq, sublist_filter. }
  split; [|done]. exists c, G. split; [|by split].
  change (live_rows (sb (running_batch (aborted a s))) ++ prefilled_rows (aborted a s)) with Y. split; simpl; try done.
  - eapply (kept_rows ps (mem s) (mem s) G G X Y F); [by apply Forall_true|done|done].
  - by eapply marked_wanted.
  - by rewrite E1, E2.
  - by rewrite E3.
  - apply Forall_forall. intros r [_ Hr]%list_elem_of_filter. by apply (proj1 (Forall_forall _ _) A6).
  - eapply submseteq_NoDup; [exact Hn|exact A7].
Qed.

(** ** The invariant *)

(** The limits of the server: those of the worker, with a pool that is larger
    than the context by two pages. *)
Record limits : Prop := mk_limits {
  lm_worker : ∃ context_len, context_len ≤ context ∧ context_len + 2 * Z.of_nat ps ≤ pages ∧
    request_limits context_len pages = (max_req_len icfg, max_req_input_len icfg);
  lm_positive : 0 < max_req_input_len icfg;
}.

(** A generation request without a session and with a grammar, if any, that the
    server can handle.  It asks for at least one token, or leaves the number
    open and passes the checks of its prompt. *)
Definition acceptable (m : recv_req) : Prop :=
  match m with
  | Generate g =>
      tg_session_params g ≫= sp_id = None ∧ handles_grammar icfg (tg_sampling_params g) (tg_structural_tag g) ∧
      match SamplingParams.max_new_tokens (tg_sampling_params g) with Some n => 0 < n | None => checked icfg g end ∧
      (SamplingParams.stop_strs (tg_sampling_params g) = [] ∨ is_Some (the_tokenizer icfg)) ∧ prompt_of g ≠ []
  | OpenSession _ | CloseSession _ | Abort _ => True
  | _ => False
  end.

Definition new_ids (m : recv_req) : list string := match m with Generate g => [tg_rid g] | _ => [] end.

Definition server_names v : list string := names (sch v) ++ (Req.rid ∘ pd_req <$> grammar_queue v).

(** A request in one of the queues that has not run. *)
Definition fresh r : Prop := wanted r ∧ Req.output_ids r = [].

Record server_ok v : Prop := mk_server_ok {
  so_serving : serving_ok ps cfg anything (sch v);
  so_context : context_of (sch v) = context;
  so_grammars : Forall (fresh ∘ pd_req) (grammar_queue v);
  so_names : NoDup (server_names v);
}.

Lemma reject_fresh msg r : 2 ≤ context → fresh r → fresh (Req.set_finish_with_abort msg r).
Proof using.
  clear. intros Hc [[W1 W2 W3 W4 W5 W6 W7 W8 W9] Eo]. split; [|done].
  assert (Req.finished (Req.set_finish_with_abort msg r) = true) as Ef by done.
  split; try done.
  unfold spent. rewrite Ef. simpl. by rewrite Eo.
Qed.

Lemma grammar_fresh x r : fresh r → fresh (Req.set_grammar x r).
Proof using. clear. intros [Hw Eo]. split; [|done]. eapply wanted_fields; [..|exact Hw]; try done. apply Hw. Qed.

Lemma settled_fresh g r : limits → acceptable (Generate g) →
  accepted icfg (prompt_of g) (tg_sampling_params g) r ∨ rejected icfg (prompt_of g) (tg_sampling_params g) r →
  (checked icfg g → accepted icfg (prompt_of g) (tg_sampling_params g) r ∨
     ∃ msg q, r = Req.set_finish_with_abort msg q ∧ accepted icfg (prompt_of g) (tg_sampling_params g) q) → fresh r.
Proof using Hcfg.
  intros [(cl & Hcl & Hp & [= El Ei]) Hpos] (_ & _ & Hnew & Hstop & Hne).
  set (n := default (2 ^ 30) (SamplingParams.max_new_tokens (tg_sampling_params g))).
  assert (0 < n) as Hn by (unfold n; by destruct (SamplingParams.max_new_tokens _)). pose proof (cf_paged _ _ Hcfg) as Hps.
  assert (0 < len (prompt_of g)) as Hlen by (destruct (prompt_of g); [done|rewrite len_cons; len_pos; lia]).
  assert (∀ q, accepted icfg (prompt_of g) (tg_sampling_params g) q → fresh q) as Hacc.
  { intros q [A1 A2 A3 A4 A5 A6 A7 A8]. split; [|done].
    assert (Req.finished q = false) as Ef by (unfold Req.finished; by rewrite A1).
    assert (0 < len (Req.origin_input_ids q) ≤ max_req_input_len icfg) as Hl.
    { rewrite A3. destruct (Z.leb_spec (max_req_input_len icfg) (len (prompt_of g))); [rewrite len_py_take by lia|]; lia. }
    assert (max_new q = Z.min n (max_req_len icfg - len (Req.origin_input_ids q) - 1)) as Em by (unfold max_new; by rewrite A5).
    split; rewrite ?Ef, ?Em, ?A2; try done; try lia.
    - unfold spent. by rewrite Ef.
    - rewrite A5, A6. exact Hstop.
    - rewrite A5. simpl. by eexists.
    - change (len []) with 0. lia.
    - intros _. unfold budget. rewrite Em.
      pose proof (cdiv_bounds (len (Req.origin_input_ids q) + Z.min n (max_req_len icfg - len (Req.origin_input_ids q) - 1)) (Z.of_nat ps) ltac:(lia)). lia. }
  intros [Ha|(msg & q & -> & [Hc|Ha])] Hch; [by apply Hacc| |apply reject_fresh; [lia|by apply Hacc]].
  destruct (SamplingParams.max_new_tokens (tg_sampling_params g)) as [n'|] eqn:En.
  2:{ destruct (Hch Hnew) as [Ha|(msg' & q' & -> & Ha)]; [by apply Hacc|]. apply reject_fresh; [lia|by apply Hacc]. }
  simpl in n. subst n. destruct Hc as (C1 & C2 & C3 & C4). split; [|done].
  assert (Req.finished (Req.set_finish_with_abort msg q) = true) as Ef by done.
  assert (max_new (Req.set_finish_with_abort msg q) = n') as Em by (unfold max_new; simpl; by rewrite C2, En).
  split; rewrite ?Ef, ?Em; try done; simpl.
  - unfold spent. rewrite Ef. simpl. by rewrite C1.
  - by rewrite C2, C3.
  - by rewrite C2, En.
  - by rewrite C1.
  - change (len [0]) with 1. lia.
  - lia.
Qed.

(** ** One message *)

Lemma arrived_ok v v' r : server_ok v → arrived v v' r → fresh r → Req.rid r ∉ server_names v →
  server_ok v' ∧ server_names v' ≡ₚ server_names v ++ [Req.rid r].
Proof using.
  clear. intros [S1 S2 S3 S4] (_ & _ & _ & _ & Ha) [Hw Ho] Hni.
  assert (NoDup (server_names v ++ [Req.rid r])) as Hnd.
  { apply NoDup_app. split; [done|]. split; [|apply NoDup_singleton]. intros x Hx ->%list_elem_of_singleton. done. }
  destruct Ha as [[Es Eg]|(k & Es & Eg & _)].
  - destruct (receive_ok ps cfg anything (sch v) [r] S1) as (S' & N' & _).
    { rewrite S2. constructor; [done|constructor]. }
    { eapply submseteq_NoDup; [|exact Hnd]. unfold server_names. rewrite <-app_assoc. apply submseteq_skips_l. csimpl. apply submseteq_inserts_l. done. }
    assert (server_names v' ≡ₚ server_names v ++ [Req.rid r]) as En.
    { unfold server_names. rewrite Es, Eg, N'. csimpl. rewrite <-!app_assoc. apply Permutation_app_head, Permutation_app_comm. }
    split; [|done]. split; rewrite ?Es, ?Eg; try done. by rewrite En.
  - assert (server_names v' = server_names v ++ [Req.rid r]) as En.
    { unfold server_names. by rewrite Es, Eg, fmap_app, app_assoc. }
    split; [|by rewrite En]. split; rewrite ?Es, ?Eg, ?En; try done. apply Forall_app. split; [done|]. constructor; [done|constructor].
Qed.

Lemma cancel_fresh a q : 2 ≤ context → Forall (fresh ∘ pd_req) q → Forall (fresh ∘ pd_req) (cancel_grammars a q).
Proof using.
  clear. intros Hc Hq. apply Forall_fmap. eapply Forall_impl; [exact Hq|]. intros p Hp. simpl in *.
  destruct (abort_matches a (pd_req p)); [by apply reject_fresh|done].
Qed.

Lemma abort_ok a v : 2 ≤ context → server_ok v → server_ok (handle_abort a v) ∧ server_names (handle_abort a v) ⊆+ server_names v.
Proof using.
  clear. intros Hc [S1 S2 S3 S4]. destruct (abort_serving anything a (sch v) S1) as [S1' N'].
  assert (Req.rid ∘ pd_req <$> grammar_queue (handle_abort a v) = Req.rid ∘ pd_req <$> grammar_queue v) as Eg.
  { apply cancel_ids. }
  assert (server_names (handle_abort a v) ⊆+ server_names v) as Hn.
  { unfold server_names. rewrite Eg. apply submseteq_skips_r. exact N'. }
  split; [|done]. split; try done; [|by eapply submseteq_NoDup].
  by apply cancel_fresh.
Qed.

Lemma serving_aborts fits l s : serving_ok ps cfg fits s → serving_ok ps cfg fits (with_aborts l s).
Proof using.
  clear. intros (c & G & [A1 A2 A3 A4 A5 A6 A7 A8 A9 A10 A11 A12] & Br & Hl). exists c, G. split; [by split|by split].
Qed.

Lemma deliver_aborts_ok v : 2 ≤ context → server_ok v → server_ok (deliver_aborts v) ∧ server_names (deliver_aborts v) = server_names v.
Proof using.
  clear. intros Hc S. unfold deliver_aborts.
  assert (∀ l w, server_ok w → let w' := foldl (fun v '(a, ids) => with_sent (sent v ++ ids) (with_grammars (cancel_grammars a (grammar_queue v)) v)) w l in
    server_ok w' ∧ server_names w' = server_names w) as Hl.
  { induction l as [|[a ids] l IH]; intros w Sw; cbn [foldl]; [done|].
    set (w1 := with_sent _ _). assert (server_names w1 = server_names w) as En by (unfold server_names; simpl; by rewrite cancel_ids).
    destruct (IH w1) as [S' N']; [|by rewrite <-En]. destruct Sw as [S1 S2 S3 S4]. split; try done; [by apply cancel_fresh|by rewrite En]. }
  destruct (Hl (aborts (sch v)) v S) as [[S1 S2 S3 S4] N]. split; [split; [by apply serving_aborts|exact S2|exact S3|exact S4]|exact N].
Qed.

Lemma message_ok m v : limits → server_ok v → acceptable m → NoDup (server_names v ++ new_ids m) →
  ∃ v', process_input_request icfg m v = Ok v' ∧ server_ok v' ∧ server_names v' ⊆+ server_names v ++ new_ids m.
Proof using Hcfg.
  intros Hlim S Hm Hnd. pose proof Hlim as [(cl & Hcl & Hp & [= El Ei]) Hpos]. unfold process_input_request.
  assert (∀ v' : Server, sch v' = sch v → grammar_queue v' = grammar_queue v → server_ok v' ∧ server_names v' ⊆+ server_names v ++ new_ids m) as Hsame.
  { intros v' E1 E2. destruct S as [S1 S2 S3 S4]. unfold server_names in *. split; [split|]; unfold server_names; rewrite ?E1, ?E2; try done.
    by apply submseteq_inserts_r. }
  destruct (_ && _); [eexists; split; [reflexivity|by apply Hsame]|]. destruct (_ && _) eqn:Ew.
  { destruct m; try done; eexists; (split; [reflexivity|by apply Hsame]). }
  destruct m as [g| | | |o|o|a]; try done; simpl.
  - pose proof Hm as (Hs & Hg & _). assert (¬ session_open g v) as Hno by (intros (id & E & _); congruence).
    destruct (outcome_settles icfg g v _ Hno Hg (handle_generate_request_ok icfg g v)) as (v' & r & -> & Er & Har & Hr & Hch).
    exists v'. split; [done|]. change (new_ids (Generate g)) with [tg_rid g] in *. rewrite <-Er in *. destruct (arrived_ok v v' r S Har) as [S' N'].
    + by eapply settled_fresh.
    + apply NoDup_app in Hnd as (_ & Hd & _). intros Hin. apply (Hd _ Hin), list_elem_of_here.
    + split; [done|]. by rewrite N'.
  - eexists. split; [reflexivity|]. apply Hsame; unfold open_session; destruct o as [id|]; try done; by destruct (sessions v !! id).
  - eexists. split; [reflexivity|]. by apply Hsame.
  - eexists. split; [reflexivity|]. rewrite app_nil_r. apply abort_ok; [lia|done].
Qed.

Lemma messages_ok ms : ∀ v, limits → server_ok v → Forall acceptable ms → NoDup (server_names v ++ (ms ≫= new_ids)) →
  ∃ v', process_input_requests icfg ms v = Ok v' ∧ server_ok v' ∧ server_names v' ⊆+ server_names v ++ (ms ≫= new_ids).
Proof using Hcfg.
  unfold process_input_requests. induction ms as [|m ms IH]; intros v Hlim S Hms Hnd; cbn [foldl]; csimpl in *.
  - exists v. by rewrite app_nil_r.
  - apply Forall_cons in Hms as [Hm Hms]. rewrite app_assoc in Hnd |- *.
    destruct (message_ok m v Hlim S Hm) as (v1 & E1 & S1 & N1); [by apply NoDup_app in Hnd as (? & _)|].
    cbn [mbind pyres_bind mret pyres_ret]. rewrite E1.
    assert (server_names v1 ++ (ms ≫= new_ids) ⊆+ (server_names v ++ new_ids m) ++ (ms ≫= new_ids)) as Hsub by (by apply submseteq_skips_r).
    destruct (IH v1 Hlim S1 Hms) as (v' & E' & S' & N'); [by eapply submseteq_NoDup|]. exists v'. split; [exact E'|]. split; [done|by etrans].
Qed.

(** ** One iteration *)

Lemma readied_fresh p r : 2 ≤ context → readied grammar_result waited_too_long p r → fresh (pd_req p) → fresh r ∧ Req.rid r = Req.rid (pd_req p).
Proof using.
  clear. intros Hc [Hf|b Hf Hg|Hf Hg|Hf Hg Hw] Hp; (split; [|done]).
  - done.
  - by apply grammar_fresh.
  - by apply reject_fresh, grammar_fresh.
  - by apply reject_fresh.
Qed.

Lemma readied_all gone ready : 2 ≤ context → Forall2 (readied grammar_result waited_too_long) gone ready → Forall (fresh ∘ pd_req) gone →
  Forall fresh ready ∧ Req.rid <$> ready = Req.rid ∘ pd_req <$> gone.
Proof using.
  clear. intros Hc. induction 1 as [|p r gone ready Hr _ IH]; intros Hg; [done|]. apply Forall_cons in Hg as [Hp Hg].
  destruct (IH Hg) as [I1 I2]. destruct (readied_fresh p r Hc Hr Hp) as [F E]. split; [by constructor|]. csimpl. by rewrite I2, E.
Qed.

Context (Hsupported : ∀ p e, grammar_result p ≠ Failed e ∧ grammar_result p ≠ Compiled None).

Lemma grammars_ok v : 2 ≤ context → server_ok v →
  ∃ v', move_ready_grammar_requests grammar_result waited_too_long v = Ok v' ∧ server_ok v' ∧ server_names v' = server_names v.
Proof using Hsupported.
  intros Hc [S1 S2 S3 S4]. destruct (move_ready_ok grammar_result waited_too_long v)
    as [(gone & rest & ready & queue & E & Eq & Hr & Hrest)|(gone & p & rest & e & _ & _ & [_ Hb] & _)].
  2:{ destruct (Hsupported p e) as [N1 N2]. by destruct Hb as [?|[? _]]. }
  set (v' := moved grammar_result v gone ready queue) in *. assert (sch v' = with_queue (waiting_queue (sch v) ++ ready) (sch v)) as Es by done.
  exists v'. split; [done|]. rewrite Eq in S3. apply Forall_app in S3 as [Hg Hk]. destruct (readied_all gone ready Hc Hr Hg) as [Hf Ei].
  assert (Forall (fresh ∘ pd_req) (grammar_queue v') ∧ Req.rid ∘ pd_req <$> grammar_queue v' = Req.rid ∘ pd_req <$> rest) as [Hk' Er].
  { simpl. destruct Hrest as [(-> & -> & _)|[(? & ? & _ & _ & _ & _ & ->)|(p & l & -> & _ & _ & _ & ->)]]; [done..|]. apply Forall_cons in Hk as [Hp Hl]. split; [by constructor|done]. }
  assert (names (sch v) ++ (Req.rid <$> ready) ++ (Req.rid ∘ pd_req <$> rest) = server_names v) as En.
  { unfold server_names. by rewrite Eq, fmap_app, Ei. }
  destruct (receive_ok ps cfg anything (sch v) ready S1) as (S' & N' & _).
  { rewrite S2. eapply Forall_impl; [exact Hf|]. by intros r []. }
  { rewrite <-En, app_assoc in S4. by apply NoDup_app in S4 as (? & _). }
  assert (server_names v' = server_names v) as Ev by (unfold server_names at 1; by rewrite Es, N', Er, <-app_assoc).
  split; [|done]. split; rewrite ?Es, ?Ev; done.
Qed.

Abbreviation step := (server_step (ps := ps) hash clock garbage torch_garbage shuffle cfg accept_token forward icfg grammar_result waited_too_long).
Abbreviation loop := (server_loop (ps := ps) hash clock garbage torch_garbage shuffle cfg accept_token forward icfg grammar_result waited_too_long).

Lemma server_step_ok ms v : limits → server_ok v → Forall acceptable ms → NoDup (server_names v ++ (ms ≫= new_ids)) →
  ∃ v', step ms v = Ok v' ∧ server_ok v' ∧ server_names v' ⊆+ server_names v ++ (ms ≫= new_ids).
Proof using All.
  intros Hlim S Hms Hnd. pose proof Hlim as [(cl & Hcl & Hp & [= El Ei]) Hpos]. unfold server_step.
  destruct (messages_ok ms v Hlim S Hms Hnd) as (v1 & -> & S1 & N1). cbn [mbind pyres_bind].
  destruct (grammars_ok v1 ltac:(lia) S1) as (v2 & -> & [T1 T2 T3 T4] & N2). cbn [mbind pyres_bind].
  destruct (serving_step hash clock garbage torch_garbage shuffle tl_other ps cfg accept_token forward anything Hgarbage Hshuffle Hforward Hcfg (sch v2) T1)
    as (s' & E & S' & N' & X' & _).
  change (event_loop_step (ps := ps) hash clock garbage torch_garbage shuffle cfg accept_token forward (sch v2) = Ok s') in E.
  rewrite E. cbn [mbind pyres_bind mret pyres_ret]. eexists. split; [reflexivity|].
  assert (server_names (with_sch s' v2) ⊆+ server_names v2) as Hn by (unfold server_names; by apply submseteq_skips_r).
  destruct (deliver_aborts_ok (with_sch s' v2) ltac:(lia)) as [Sd Nd].
  { split; try done; [by rewrite <-T2|by eapply submseteq_NoDup]. }
  split; [done|]. rewrite Nd, Hn, N2. exact N1.
Qed.

(** C3: with messages it can handle the whole server never fails. The server
    has a configuration as in Serving.v ([plain_config]), with the limits
    that the worker computes, which leave room for a prompt, and a pool
    larger than the context by two pages; its grammar backend neither raises
    nor fails to support the kind of grammar it is asked for. Before every
    iteration it receives [acceptable] messages: aborts, requests to open
    and close sessions, and generation requests of any length with fresh ids
    that name no session, have a prompt, need a tokenizer if they have stop
    strings, ask for no grammar or for one the server can start to compile
    (there is a backend, and the structural tag is not empty), and limit the
    new tokens by a positive number or, if they leave the limit open, pass
    the checks of their prompt; batches and embedding requests are left out.
    Messages outside these conditions can end the loop, see
    [server_message_failures]. A forward pass yields one token for each
    request. From a state in which all memory is accounted for and the
    queues hold such requests, whatever is received, rejected, aborted,
    compiled, sampled, cached and evicted, every iteration returns and leads
    to a state with all memory accounted for; no request appears that was
    neither there nor received. *)
Theorem server_never_fails received v :
  limits → server_ok v → Forall (Forall acceptable) received → NoDup (server_names v ++ (concat received ≫= new_ids)) →
  ∃ v', loop received v = Ok v' ∧ server_ok v' ∧ server_names v' ⊆+ server_names v ++ (concat received ≫= new_ids).
Proof using All.
  intros Hlim. revert v. induction received as [|ms received IH]; intros v S Hm Hnd; [exists v; csimpl; by rewrite app_nil_r|].
  cbn [server_loop concat] in *. apply Forall_cons in Hm as [Hms Hm]. rewrite bind_app, app_assoc in Hnd |- *.
  destruct (server_step_ok ms v Hlim S Hms) as (v1 & -> & S1 & N1); [by apply NoDup_app in Hnd as (? & _)|]. cbn [mbind pyres_bind].
  assert (server_names v1 ++ (concat received ≫= new_ids) ⊆+ (server_names v ++ (ms ≫= new_ids)) ++ (concat received ≫= new_ids)) as Hsub
    by (by apply submseteq_skips_r).
  destruct (IH v1 S1 Hm) as (v' & E' & S' & N'); [by eapply submseteq_NoDup|]. exists v'. split; [done|]. split; [done|by etrans].
Qed.

End server.

(** ** A small server *)

Definition serve_intake : IntakeConfig := mkIntake 7 2 false 4 [] 32000 None 1 true.

(** A compilation takes two rounds. *)
Definition serve_grammar (p : pending) : future_result :=
  if pd_ct p <? 1 then TimedOut
  else if bool_decide (pd_key p = ("regex", "("))%string then Compiled (Some INVALID_GRAMMAR_OBJ) else Compiled (Some (GrammarObj false)).

Definition serve_server : Server (A := Paged.t) := mkServer serve_scheduler [] ∅ ∅ [] 0.

Definition serve_params (max_new : option Z) (regex ebnf : option string) : SamplingParams.t :=
  SamplingParams.mk max_new StopNone [] 0 [] 1%Q 1%Q 1 0%Q 0%Q 0%Q 1%Q 0 1 None regex ebnf false None.

Definition serve_input (rid : string) (ids : list Z) (p : SamplingParams.t) (session : option string) : TokenizedGenerateReqInput :=
  mkGenerate rid ids None p None false (-1) None None ((fun id => mkSessionParams (Some id) None None false false) <$> session).
Definition serve_generate rid ids p session : recv_req := Generate (serve_input rid ids p session).

Abbreviation serve_loop grammar :=
  (server_loop (ps := 2) (H0 := paged_kv 2) (H1 := paged_groups 2) (H2 := paged_batch_allocator (fun _ => 0) (fun _ => 0))
     demo_hash Z.of_nat (fun _ => 0) (fun n => replicate n 0) (fun l => l) serve_config (fun _ _ => Some false) demo_forward
     serve_intake grammar (fun ct => 3 <? ct)).

(** One request that is served, one with a grammar, one with an invalid one,
    one that is too long, and one that is aborted. *)
Definition serve_messages : list (list recv_req) :=
  [[serve_generate "a" [1] (serve_params (Some 3) None None) None; serve_generate "b" [2] (serve_params (Some 2) (Some "[a-z]*"%string) None) None;
    serve_generate "c" [3] (serve_params (Some 2) (Some "("%string) None) None];
   [serve_generate "d" [1; 2; 3; 4] (serve_params (Some 2) None None) None; OpenSession (Some "s"%string)];
   [serve_generate "e" [5] (serve_params (Some 4) None None) None; Abort (mkAbort "e" false); CloseSession "s"]; []; []; []; []].

Lemma serve_limits : limits 2 serve_config serve_intake 8.
Proof. split; [|done]. exists 8. split; [lia|]. split; [vm_compute; done|reflexivity]. Qed.

Lemma serve_server_ok : server_ok 2 serve_config 8 serve_server.
Proof. split; [apply serve_scheduler_ok|reflexivity|constructor|vm_compute; constructor]. Qed.

Lemma serve_acceptable rid ids n regex : ids ≠ [] → 0 < n → acceptable serve_intake (serve_generate rid ids (serve_params (Some n) regex None) None).
Proof.
  intros Hi Hn. split; [done|]. split; [by destruct regex|]. split; [done|]. split; [by left|]. done.
Qed.

Lemma serve_messages_acceptable : Forall (Forall (acceptable serve_intake)) serve_messages.
Proof. repeat match goal with |- Forall _ _ => constructor end; try exact I; apply serve_acceptable; done. Qed.

Lemma server_never_fails_witness :
  ∃ v', serve_loop serve_grammar serve_messages serve_server = Ok v' ∧ server_ok 2 serve_config 8 v'.
Proof.
  destruct (server_never_fails demo_hash Z.of_nat (fun _ => 0) (fun n => replicate n 0) (fun l => l) (fun _ => 0) 2 serve_config
    (fun _ _ => Some false) demo_forward (fun n => length_replicate n 0) (fun l => reflexivity l)
    (fun B => ex_intro _ _ (conj eq_refl (length_replicate _ _))) serve_config_plain serve_intake serve_grammar (fun ct => 3 <? ct) 8)
    with (received := serve_messages) (v := serve_server) as (v' & E & S' & _).
  - intros p e. unfold serve_grammar. destruct (_ <? _); [done|]. by case_bool_decide.
  - exact serve_limits.
  - exact serve_server_ok.
  - exact serve_messages_acceptable.
  - apply (bool_decide_unpack (NoDup _)). vm_compute. reflexivity.
  - exists v'. split; [exact E|exact S'].
Defined.

(** ** What brings the server down *)

(** Four messages that make the event loop raise.  A request that is too long
    and leaves [max_new_tokens] open is rejected before the limit is filled
    in, and the admission test compares [None]; with a limit it is only
    reported as rejected.  Every request of an open session fails, since the
    session passes on an attribute that requests do not have.  A kind of
    grammar that the backend does not support yields [None] in place of a
    grammar, which is then copied.  A batch of requests has no id to report
    when the queue is full. *)
Theorem server_message_failures :
  let long n := serve_generate "d" [1; 2; 3; 4] (serve_params n None None) None in
  let short rid := serve_input rid [1] (serve_params (Some 2) None None) None in
  serve_loop serve_grammar [[long None]] serve_server = Raise TypeError ∧
  (∃ v, serve_loop serve_grammar [[long (Some 2)]; []] serve_server = Ok v ∧ server_names v = []) ∧
  serve_loop serve_grammar [[OpenSession (Some "s"%string)]; [serve_generate "d" [1] (serve_params (Some 2) None None) (Some "s"%string)]] serve_server
    = Raise AttributeError ∧
  serve_loop (fun _ => Compiled None) [[serve_generate "d" [1] (serve_params (Some 2) None (Some "x"%string)) None]] serve_server = Raise AttributeError ∧
  serve_loop serve_grammar [[Generate (short "a"); Generate (short "b"); Generate (short "c"); Generate (short "d"); BatchGenerate [short "e"]]] serve_server
    = Raise AttributeError.
Proof.
  split; [vm_compute; reflexivity|]. split; [|split; [|split]; vm_compute; reflexivity].
  eexists. split; [vm_compute; reflexivity|]. vm_compute. reflexivity.
Qed.
