(* ===== verification/Eplb.v ===== *)
(** * Placement of experts

    Models [srt/eplb/eplb_algorithms/deepseek.py]: how often each logical
    expert of a mixture-of-experts layer is replicated and which replica goes
    to which GPU.  Tensors whose first dimension ranges over the layers are
    lists of rows; the code treats the rows independently, so the operations
    are written for one row.  Loads are rationals.  [torch.sort] and
    [torch.max] do not say which of equal elements comes first: they are
    parameters. *)

From Stdlib Require Import QArith.
From S2P Require Import Prelude.
Open Scope Z_scope.

#[export] Instance Q_inhabited : Inhabited Q := populate 0%Q.

(** ** Tensor operations on one row *)

Definition get_at {A} (l : list A) (i : Z) : pyres A :=
  match (if 0 <=? i then l !! Z.to_nat i else None) with Some x => Ok x | None => Raise IndexError end.
Definition set_at {A} (i : Z) (x : A) (l : list A) : list A := <[Z.to_nat i := x]> l.

(** [l.gather(-1, idx)] and [l.scatter_(-1, idx, src)] *)
Definition gather {A} (l : list A) (idx : list Z) : pyres (list A) := mapM (get_at l) idx.
Definition scatter_ (l idx src : list Z) : pyres (list Z) :=
  foldl (fun acc (ix : Z * Z) => l ← acc; get_at l ix.1;; mret (set_at ix.1 ix.2 l)) (mret l) (zip idx src).

(** [l.view(k, n)] *)
Definition view {A} (k n : Z) (l : list A) : list (list A) :=
  (fun i => take (Z.to_nat n) (drop (i * Z.to_nat n) l)) <$> seq 0 (Z.to_nat k).

Definition qsum (l : list Q) : Q := foldl Qplus 0%Q l.

(** [a % b] *)
Definition py_mod (a b : Z) : pyres Z := if b =? 0 then Raise ZeroDivisionError else mret (a mod b).

(** [min(l, key=key)]: the first of the smallest. *)
Definition py_min (key : Z → Q) (l : list Z) : pyres Z :=
  match l with
  | [] => Raise ValueError
  | x :: l => mret (foldl (fun m y => if Qle_bool (key m) (key y) then m else y) x l)
  end.

(** [row.sort(descending=True).indices] and [row.max().indices]. *)
Class TorchOrder := {
  argsort : list Q → list Z;
  argmax : list Q → Z;
  argsort_perm l : argsort l ≡ₚ arange 0 (len l);
  argsort_desc l i j x y : (i < j)%nat → argsort l !! i = Some x → argsort l !! j = Some y →
    (l !!! Z.to_nat y <= l !!! Z.to_nat x)%Q;
  argmax_in l : l ≠ [] → 0 ≤ argmax l < len l;
  argmax_max l x : x ∈ l → (x <= l !!! Z.to_nat (argmax l))%Q;
}.

Section eplb.
Context `{TorchOrder} (torch_garbage : nat → list Z).

(** ** Packing *)

Record packing := mkPacking {
  pack_weights : list Q;
  pack_items : list Z;
  pack_index : list Z;
  rank_in_pack : list Z;
}.

(** The body of the inner loop. *)
Definition pack_group (num_packs groups_per_pack : Z) (weight : list Q) (st : packing) (group : Z) : pyres packing :=
  pack ← py_min (fun i => pack_weights st !!! Z.to_nat i)
           (filter (fun i => pack_items st !!! Z.to_nat i < groups_per_pack) (arange 0 num_packs));
  items ← get_at (pack_items st) pack;
  py_assert (items <? groups_per_pack) ;;
  w ← get_at weight group;
  mret (mkPacking (set_at pack (pack_weights st !!! Z.to_nat pack + w)%Q (pack_weights st))
          (set_at pack (items + 1) (pack_items st))
          (set_at group pack (pack_index st)) (set_at group items (rank_in_pack st))).

Definition balanced_packing (weight : list Q) (num_packs : Z) : pyres (list Z * list Z) :=
  let num_groups := len weight in
  m ← py_mod num_groups num_packs;
  py_assert (m =? 0) ;;
  let groups_per_pack := num_groups / num_packs in
  if groups_per_pack =? 1 then mret (arange 0 num_groups, replicate (length weight) 0)
  else
    st ← foldl (fun acc group => st ← acc; pack_group num_packs groups_per_pack weight st group)
           (mret (mkPacking (replicate (Z.to_nat num_packs) 0%Q) (replicate (Z.to_nat num_packs) 0)
                    (replicate (length weight) (-1)) (replicate (length weight) (-1))))
           (argsort weight);
    mret (pack_index st, rank_in_pack st).

(** ** Replication *)

Record replication := mkReplication { phy2log : list Z; replica_rank : list Z; logcnt : list Z }.

Definition per_replica (weight : list Q) (cnt : list Z) : list Q := zip_with (fun w c => w / inject_Z c)%Q weight cnt.

(** The body of the loop. *)
Definition replicate_one (weight : list Q) (st : replication) (i : Z) : pyres replication :=
  let scores := per_replica weight (logcnt st) in
  match scores with
  | [] => Raise IndexError
  | _ =>
      let redundant := argmax scores in
      c ← get_at (logcnt st) redundant;
      mret (mkReplication (set_at i redundant (phy2log st)) (set_at i c (replica_rank st)) (set_at redundant (c + 1) (logcnt st)))
  end.

Definition replicate_experts (weight : list Q) (num_phy : Z) : pyres replication :=
  let num_log := len weight in
  py_assert (0 <=? num_phy - num_log) ;;
  foldl (fun acc i => st ← acc; replicate_one weight st i)
    (mret (mkReplication (arange 0 num_phy) (replicate (Z.to_nat num_phy) 0) (replicate (length weight) 1)))
    (arange num_log num_phy).

(** ** Placement *)

Definition inverse (perm : list Z) : pyres (list Z) := scatter_ (torch_garbage (length perm)) perm (arange 0 (len perm)).

(** Steps 2 and 3 for the experts of one node. *)
Definition place_on_node (tokens_per_mlog : list Q) (num_phy num_gpus phy_experts_per_gpu : Z) : pyres replication :=
  st ← replicate_experts tokens_per_mlog num_phy;
  tokens_per_phy ← gather (per_replica tokens_per_mlog (logcnt st)) (phy2log st);
  '(pack_index, rank_in_pack) ← balanced_packing tokens_per_phy num_gpus;
  let phy2pphy := zip_with (fun p r => p * phy_experts_per_gpu + r) pack_index rank_in_pack in
  pphy2phy ← inverse phy2pphy;
  pphy2mlog ← gather (phy2log st) pphy2phy;
  pphyrank ← gather (replica_rank st) pphy2phy;
  mret (mkReplication pphy2mlog pphyrank (logcnt st)).

Definition rebalance_experts_hierarchical (weight : list Q) (num_physical_experts num_groups num_nodes num_gpus : Z) : pyres replication :=
  let num_logical_experts := len weight in
  m ← py_mod num_logical_experts num_groups;
  py_assert (m =? 0) ;;
  let group_size := num_logical_experts / num_groups in
  m ← py_mod num_groups num_nodes;
  py_assert (m =? 0) ;;
  let groups_per_node := num_groups / num_nodes in
  m ← py_mod num_gpus num_nodes;
  py_assert (m =? 0) ;;
  m ← py_mod num_physical_experts num_gpus;
  py_assert (m =? 0) ;;
  let phy_experts_per_gpu := num_physical_experts / num_gpus in
  let tokens_per_group := qsum <$> view num_groups group_size weight in
  '(group_pack_index, group_rank_in_pack) ← balanced_packing tokens_per_group num_nodes;
  let log2mlog := zip_with (fun p r => (p * groups_per_node + r) * group_size) group_pack_index group_rank_in_pack
                    ≫= fun start => Z.add start <$> arange 0 group_size in
  mlog2log ← inverse log2mlog;
  tokens_per_mlog ← gather weight mlog2log;
  let per_node := num_logical_experts / num_nodes in
  nodes ← mapM (fun tokens => place_on_node tokens (num_physical_experts / num_nodes) (num_gpus / num_nodes) phy_experts_per_gpu)
            (view num_nodes per_node tokens_per_mlog);
  let pphy2mlog := concat (zip_with (fun k st => Z.add (Z.of_nat k * per_node) <$> phy2log st) (seq 0 (length nodes)) nodes) in
  pphy2log ← gather mlog2log pphy2mlog;
  cnt ← gather (nodes ≫= logcnt) log2mlog;
  mret (mkReplication pphy2log (nodes ≫= replica_rank) cnt).

(** [logcnt.max()] *)
Definition max_of (l : list Z) : pyres Z := match l with [] => Raise RuntimeError | x :: l => mret (foldl Z.max x l) end.

(** The maps of all layers: [physical_to_logical_map], [logical_to_physical_map]
    and the number of replicas. *)
Definition rebalance_experts (weight : list (list Q)) (num_replicas num_groups num_nodes num_gpus : Z) (enable_hierarchical : bool) :
    pyres (list (list Z) * list (list (list Z)) * list (list Z)) :=
  layers ← mapM (fun w => if enable_hierarchical then rebalance_experts_hierarchical w num_replicas num_groups num_nodes num_gpus
                          else rebalance_experts_hierarchical w num_replicas 1 1 num_gpus) weight;
  maxlogcnt ← max_of (layers ≫= logcnt);
  log2phy ← mapM (fun st =>
      l ← scatter_ (replicate (Z.to_nat (len (logcnt st) * maxlogcnt)) (-1))
            (zip_with (fun e r => e * maxlogcnt + r) (phy2log st) (replica_rank st)) (arange 0 num_replicas);
      mret (view (len (logcnt st)) maxlogcnt l)) layers;
  mret (phy2log <$> layers, log2phy, logcnt <$> layers).

End eplb.

(** ** An instance *)

(** Insertion keeps the first of equal elements first. *)
Fixpoint insert_desc (l : list Q) (i : Z) (s : list Z) : list Z :=
  match s with
  | [] => [i]
  | j :: s' => if Qle_bool (l !!! Z.to_nat i) (l !!! Z.to_nat j) then j :: insert_desc l i s' else i :: s
  end.
Definition stable_argsort (l : list Q) : list Z := foldl (fun s i => insert_desc l i s) [] (arange 0 (len l)).
Definition first_argmax (l : list Q) : Z :=
  foldl (fun m i => if Qle_bool (l !!! Z.to_nat i) (l !!! Z.to_nat m) then m else i) 0 (arange 0 (len l)).
