(* ===== verification/EplbProofs.v ===== *)
(** * The placement of experts is consistent

    Packing fills every pack evenly; replication gives every replica of an
    expert its own rank and keeps the largest load as small as possible; the
    maps between logical and physical experts of [rebalance_experts] are
    inverse to each other. *)

From Stdlib Require Import QArith.
From S2P Require Import Prelude Eplb.
Open Scope Z_scope.

(** ** Rows *)

Lemma get_at_ok {A} (l : list A) i x : get_at l i = Ok x ↔ 0 ≤ i ∧ l !! Z.to_nat i = Some x.
Proof.
  unfold get_at. destruct (Z.leb_spec 0 i); [|split; [done|lia]]. destruct (l !! Z.to_nat i); split; [by intros [= ->]|by intros [_ [= ->]]|done|by intros []].
Qed.

Lemma get_at_range {A} (l : list A) i : 0 ≤ i < len l → ∃ x, get_at l i = Ok x ∧ l !! Z.to_nat i = Some x.
Proof.
  intros Hi. destruct (lookup_lt_is_Some_2 l (Z.to_nat i)) as [x Hx]; [unfold len in Hi; lia|]. exists x. split; [|done]. apply get_at_ok. lia || by split; [lia|].
Qed.

Lemma lookup_range {A} (l : list A) k x : l !! k = Some x → 0 ≤ Z.of_nat k < len l.
Proof. intros Hk%lookup_lt_Some. unfold len. lia. Qed.

Lemma gather_total {A} (l : list A) idx : Forall (fun i => 0 ≤ i < len l) idx →
  ∃ r, gather l idx = Ok r ∧ Forall2 (fun i x => l !! Z.to_nat i = Some x) idx r.
Proof.
  unfold gather. induction 1 as [|i idx Hi _ (r & E & F)]; [by exists []|]. destruct (get_at_range l i Hi) as (x & Ex & Hx).
  exists (x :: r). cbn [mapM]. rewrite Ex. cbn [mbind pyres_bind]. rewrite E. split; [done|by constructor].
Qed.

Lemma gather_inv {A} (l : list A) idx : ∀ r, gather l idx = Ok r → Forall2 (fun i x => 0 ≤ i ∧ l !! Z.to_nat i = Some x) idx r.
Proof.
  unfold gather. induction idx as [|i idx IH]; intros r E; cbn [mapM] in E; [by injection E as <-|].
  apply pyres_bind_ok in E as (x & Ex%get_at_ok & E). apply pyres_bind_ok in E as (rs & Ers & E). injection E as <-. constructor; [done|by apply IH].
Qed.

Lemma scatter_total idx : ∀ src l, NoDup idx → Forall (fun i => 0 ≤ i < len l) idx → length src = length idx →
  ∃ l', scatter_ l idx src = Ok l' ∧ length l' = length l ∧
    (∀ k i x, idx !! k = Some i → src !! k = Some x → l' !! Z.to_nat i = Some x) ∧ (∀ j, Z.of_nat j ∉ idx → l' !! j = l !! j).
Proof.
  unfold scatter_. induction idx as [|i idx IH]; intros [|x src] l Hnd Hi Hl; try done; [by exists l|]. injection Hl as Hl.
  apply NoDup_cons in Hnd as [Hni Hnd]. apply Forall_cons in Hi as [Hi Hr]. cbn [zip zip_with foldl mbind pyres_bind mret pyres_ret fst snd].
  destruct (get_at_range l i Hi) as (y & -> & Hy). cbn [mbind pyres_bind].
  destruct (IH src (set_at i x l) Hnd) as (l' & E & El & Hin & Hout); [|done|].
  { eapply Forall_impl; [exact Hr|]. intros j. unfold set_at, len. by rewrite length_insert. }
  exists l'. split; [exact E|]. unfold set_at in El, Hout. rewrite length_insert in El. split; [done|]. split.
  - intros [|k] j z Hj Hz; simpl in Hj, Hz; [|by eapply Hin]. injection Hj as <-. injection Hz as <-.
    rewrite Hout by (rewrite Z2Nat.id; [done|lia]). apply list_lookup_insert_eq. by eapply lookup_lt_Some.
  - intros j Hj. apply not_elem_of_cons in Hj as [Hne Hj]. rewrite Hout by done. apply list_lookup_insert_ne. lia.
Qed.

(** ** Permutations of a range *)

Lemma range_perm n l : 0 ≤ n → l ≡ₚ arange 0 n ↔ len l = n ∧ NoDup l ∧ Forall (fun i => 0 ≤ i < n) l.
Proof.
  intros Hn. split.
  - intros E. split; [rewrite (len_perm _ _ E), len_arange; lia|]. rewrite E. split; [apply NoDup_arange|].
    apply Forall_forall. intros x Hx. by apply elem_of_arange.
  - intros (El & Hnd & Hr). apply submseteq_length_Permutation.
    + apply NoDup_submseteq; [done|]. intros x Hx. apply elem_of_arange. by apply (proj1 (Forall_forall _ _) Hr).
    + pose proof (len_arange 0 n) as Ea. unfold len in *. lia.
Qed.

Lemma slot_inj g p p' r r' : 0 ≤ r < g → 0 ≤ r' < g → p * g + r = p' * g + r' → p = p' ∧ r = r'.
Proof. intros Hr Hr' E. destruct (Z.lt_trichotomy p p') as [|[->|]]; [nia|lia|nia]. Qed.

(** Every index occurs. *)
Lemma perm_index n l i : l ≡ₚ arange 0 n → 0 ≤ i < n → ∃ k, l !! k = Some i.
Proof. intros E Hi. apply list_elem_of_lookup. rewrite E. by apply elem_of_arange. Qed.

Section inverse.
Context (torch_garbage : nat → list Z) (Hgarbage : ∀ n, length (torch_garbage n) = n).

Lemma inverse_ok n perm : 0 ≤ n → perm ≡ₚ arange 0 n →
  ∃ inv, inverse torch_garbage perm = Ok inv ∧ inv ≡ₚ arange 0 n ∧
    (∀ k x, perm !! k = Some x ↔ inv !! Z.to_nat x = Some (Z.of_nat k) ∧ 0 ≤ x).
Proof using Hgarbage.
  intros Hn Hp. pose proof Hp as (El & Hnd & Hr)%range_perm; [|done]. unfold inverse.
  destruct (scatter_total perm (arange 0 (len perm)) (torch_garbage (length perm)) Hnd) as (inv & E & Elen & Hin & _).
  { eapply Forall_impl; [exact Hr|]. intros i Hi. unfold len in *. rewrite Hgarbage. lia. }
  { pose proof (len_arange 0 (len perm)) as Ea. unfold len in *. lia. }
  rewrite Hgarbage in Elen.
  assert (∀ k x, perm !! k = Some x → inv !! Z.to_nat x = Some (Z.of_nat k)) as Hf.
  { intros k x Hk. apply (Hin k x _ Hk). unfold arange. apply lookup_lt_Some in Hk. unfold len. rewrite lookup_seqZ_lt by lia. done. }
  assert (∀ j k, inv !! j = Some k → perm !! Z.to_nat k = Some (Z.of_nat j) ∧ 0 ≤ k) as Hb.
  { intros j k Hj. destruct (perm_index n perm (Z.of_nat j) Hp) as [i Hi].
    { apply lookup_range in Hj. unfold len in *. lia. }
    pose proof (Hf _ _ Hi) as Ej. rewrite Nat2Z.id, Hj in Ej. injection Ej as ->. rewrite Nat2Z.id. split; [done|lia]. }
  exists inv. split; [exact E|]. split.
  - apply range_perm; [done|]. split; [unfold len in *; lia|]. split.
    + apply NoDup_alt. intros a b k Ha Hk. apply Hb in Ha as [Ha _]. apply Hb in Hk as [Hk _]. rewrite Ha in Hk. injection Hk. lia.
    + apply Forall_lookup. intros j k Hj. apply Hb in Hj as [Hj Hk]. apply lookup_range in Hj. lia.
  - intros k x. split.
    + intros Hk. split; [by apply Hf|]. apply (Forall_lookup_1 _ _ _ _ Hr Hk).
    + intros [Hx H0]. apply Hb in Hx as [Hx _]. by rewrite Nat2Z.id, Z2Nat.id in Hx.
Qed.

End inverse.

(** ** Packing *)

Lemma py_min_in key l : l ≠ [] → ∃ x, py_min key l = Ok x ∧ x ∈ l ∧ ∀ y, y ∈ l → (key x <= key y)%Q.
Proof.
  destruct l as [|x l]; [done|]. intros _. cbn [py_min]. eexists. split; [reflexivity|].
  set (f := fun m y => if Qle_bool (key m) (key y) then m else y).
  assert (∀ l x, (foldl f x l = x ∨ foldl f x l ∈ l) ∧ (key (foldl f x l) <= key x)%Q ∧ ∀ y, y ∈ l → (key (foldl f x l) <= key y)%Q) as Hf.
  { clear. intros l. induction l as [|y l IH]; intros x; cbn [foldl].
    { split; [by left|]. split; [apply Qle_refl|]. by intros y Hy%elem_of_nil. }
    destruct (IH (f x y)) as (I1 & I2 & I3).
    assert ((f x y = x ∨ f x y = y) ∧ (key (f x y) <= key x)%Q ∧ (key (f x y) <= key y)%Q) as (F1 & F2 & F3).
    { unfold f. destruct (Qle_bool (key x) (key y)) eqn:E.
      - apply Qle_bool_iff in E. split; [by left|]. split; [apply Qle_refl|done].
      - split; [by right|]. assert (key y <= key x)%Q; [|split; [done|apply Qle_refl]]. apply Qnot_lt_le. intros Hlt.
        apply Qlt_le_weak, Qle_bool_iff in Hlt. congruence. }
    split; [|split].
    - destruct I1 as [E|E]; [|right; by apply list_elem_of_further]. rewrite E. destruct F1 as [->| ->]; [by left|right; apply list_elem_of_here].
    - eapply Qle_trans; [exact I2|done].
    - intros z [->|Hz]%elem_of_cons; [eapply Qle_trans; [exact I2|done]|by apply I3]. }
  destruct (Hf l x) as (H1 & H2 & H3). split.
  - destruct H1 as [->|?]; [apply list_elem_of_here|by apply list_elem_of_further].
  - intros y [->|Hy]%elem_of_cons; [done|by apply H3].
Qed.

Section packing.
Context (weight : list Q) (num_packs gpp : Z) (Hpacks : 0 < num_packs) (Hn : len weight = num_packs * gpp).

(** After the groups [seen]: those are in packs, at ranks of their own, and the
    counters add up. *)
Record packed (seen : list Z) (st : packing) : Prop := mk_packed {
  pk_lens : len (pack_weights st) = num_packs ∧ len (pack_items st) = num_packs ∧
    length (pack_index st) = length weight ∧ length (rank_in_pack st) = length weight;
  pk_items : Forall (fun c => 0 ≤ c ≤ gpp) (pack_items st);
  pk_sum : zsum (pack_items st) = len seen;
  pk_in : ∀ g, g ∈ seen → ∃ p r c, pack_index st !! Z.to_nat g = Some p ∧ rank_in_pack st !! Z.to_nat g = Some r ∧
    pack_items st !! Z.to_nat p = Some c ∧ 0 ≤ p < num_packs ∧ 0 ≤ r < c;
  pk_inj : ∀ g g' p r, g ∈ seen → g' ∈ seen → pack_index st !! Z.to_nat g = Some p → rank_in_pack st !! Z.to_nat g = Some r →
    pack_index st !! Z.to_nat g' = Some p → rank_in_pack st !! Z.to_nat g' = Some r → g = g';
}.

Lemma zsum_full l c : Forall (fun x => x = c) l → zsum l = len l * c.
Proof using. clear. induction 1 as [|x l -> _ IH]; [done|]. rewrite zsum_cons, len_cons, IH. lia. Qed.

Lemma zsum_insert l i x y : l !! i = Some x → zsum (<[i := y]> l) = zsum l + (y - x).
Proof using.
  clear. revert i. induction l as [|z l IH]; intros [|i] Hi; simplify_eq/=; rewrite !zsum_cons; [lia|]. rewrite (IH i Hi). lia.
Qed.

(** A pack has room while groups are left. *)
Lemma pack_room seen st : packed seen st → len seen < len weight →
  ∃ pack c, py_min (fun i => pack_weights st !!! Z.to_nat i)
      (filter (fun i => pack_items st !!! Z.to_nat i < gpp) (arange 0 num_packs)) = Ok pack ∧
    0 ≤ pack < num_packs ∧ pack_items st !! Z.to_nat pack = Some c ∧ 0 ≤ c < gpp.
Proof using Hn Hpacks.
  intros [(L1 & L2 & _) P2 P3 _ _] Hlt. set (cand := filter _ _).
  assert (cand ≠ []) as Hne.
  { intros E. assert (Forall (fun x => x = gpp) (pack_items st)) as Hfull.
    { apply Forall_lookup. intros i x Hi. destruct (Forall_lookup_1 _ _ _ _ P2 Hi) as [Hx1 Hx2]. apply Z.le_antisymm; [done|]. apply Z.nlt_ge. intros Hx.
      assert (Z.of_nat i ∈ cand) as Hc; [|rewrite E in Hc; by apply elem_of_nil in Hc].
      apply list_elem_of_filter. rewrite Nat2Z.id, (list_lookup_total_correct _ _ _ Hi). split; [done|]. apply elem_of_arange.
      apply lookup_range in Hi. lia. }
    rewrite (zsum_full _ _ Hfull) in P3. nia. }
  destruct (py_min_in (fun i => pack_weights st !!! Z.to_nat i) cand Hne) as (pack & E & Hin & _). exists pack.
  apply list_elem_of_filter in Hin as [Hroom Hr%elem_of_arange].
  destruct (lookup_lt_is_Some_2 (pack_items st) (Z.to_nat pack)) as [c Hc]; [unfold len in L2; lia|].
  rewrite (list_lookup_total_correct _ _ _ Hc) in Hroom. pose proof (Forall_lookup_1 _ _ _ _ P2 Hc). exists c. split; [done|]. split; [done|]. split; [done|]. simpl in *. lia.
Qed.

Lemma pack_group_ok seen st g : packed seen st → g ∉ seen → NoDup seen → Forall (fun i => 0 ≤ i < len weight) seen → 0 ≤ g < len weight →
  ∃ st', pack_group num_packs gpp weight st g = Ok st' ∧ packed (seen ++ [g]) st'.
Proof using Hn Hpacks.
  intros P Hg Hnd Hs Hr.
  assert (len seen < len weight) as Hlt.
  { assert (seen ++ [g] ⊆+ arange 0 (len weight)) as Hsub.
    { apply NoDup_submseteq.
      - apply NoDup_app. split; [done|]. split; [|apply NoDup_singleton]. intros x Hx ->%list_elem_of_singleton. done.
      - intros x [Hx|Hx%list_elem_of_singleton]%elem_of_app; [|subst]; apply elem_of_arange; [|done]. by apply (proj1 (Forall_forall _ _) Hs). }
    apply submseteq_length in Hsub. rewrite length_app in Hsub. simpl in Hsub. pose proof (len_arange 0 (len weight)) as Ea. unfold len in *. lia. }
  destruct (pack_room seen st P Hlt) as (pack & c & E & Hp & Hc & Hroom). pose proof P as [(L1 & L2 & L3 & L4) P2 P3 P4 P5].
  unfold pack_group. rewrite E. cbn [mbind pyres_bind]. rewrite (proj2 (get_at_ok (pack_items st) pack c)) by (split; [lia|done]). cbn [mbind pyres_bind].
  rewrite (proj2 (Z.ltb_lt c gpp)) by lia. cbn [py_assert mbind pyres_bind].
  destruct (get_at_range weight g Hr) as (w & -> & Hw). cbn [mbind pyres_bind mret pyres_ret]. eexists. split; [reflexivity|].
  assert (Z.to_nat g < length weight)%nat as Hgn by (unfold len in Hr; lia).
  assert (∀ x, x ∈ seen → Z.to_nat g ≠ Z.to_nat x) as Hne.
  { intros x Hx Ex. apply Hg. pose proof (proj1 (Forall_forall _ _) Hs x Hx). simpl in *. by replace g with x by lia. }
  split; unfold set_at; simpl.
  - unfold len in *. rewrite !length_insert. done.
  - apply Forall_insert; [done|lia].
  - rewrite (zsum_insert _ _ _ _ Hc), P3, len_app. change (len [g]) with 1. lia.
  - intros x [Hx|Hx%list_elem_of_singleton]%elem_of_app.
    + destruct (P4 x Hx) as (p & r & c' & E1 & E2 & E3 & Hp' & Hr'). rewrite !list_lookup_insert_ne by (by apply Hne).
      destruct (decide (Z.to_nat pack = Z.to_nat p)) as [Ep|Hnp].
      * rewrite <-Ep in *. exists p, r, (c + 1). rewrite Ep. rewrite <-Ep, list_lookup_insert_eq by (by eapply lookup_lt_Some).
        assert (c' = c) as -> by congruence. split; [done|]. split; [done|]. split; [done|]. lia.
      * exists p, r, c'. by rewrite list_lookup_insert_ne.
    + subst x. exists pack, c, (c + 1). rewrite !list_lookup_insert_eq by (first [done|lia|by eapply lookup_lt_Some]). split; [done|]. split; [done|]. split; [done|]. lia.
  - assert (∀ x, x ∈ seen → <[Z.to_nat g:=pack]> (pack_index st) !! Z.to_nat x = Some pack →
      <[Z.to_nat g:=c]> (rank_in_pack st) !! Z.to_nat x = Some c → False) as Hfresh.
    { intros x Hx. rewrite !list_lookup_insert_ne by (by apply Hne). intros Ex1 Ex2.
      destruct (P4 x Hx) as (p & r & c' & E1 & E2 & E3 & _ & Hr'). simplify_eq. lia. }
    assert (<[Z.to_nat g:=pack]> (pack_index st) !! Z.to_nat g = Some pack ∧ <[Z.to_nat g:=c]> (rank_in_pack st) !! Z.to_nat g = Some c) as [G1 G2].
    { split; apply list_lookup_insert_eq; lia. }
    intros x y p r [Hx|Hx%list_elem_of_singleton]%elem_of_app [Hy|Hy%list_elem_of_singleton]%elem_of_app Ex1 Ex2 Ey1 Ey2.
    + rewrite !list_lookup_insert_ne in * by (by apply Hne). by eapply P5.
    + subst y. exfalso. rewrite G1 in Ey1. rewrite G2 in Ey2. simplify_eq. by eapply Hfresh.
    + subst x. exfalso. rewrite G1 in Ex1. rewrite G2 in Ex2. simplify_eq. by eapply Hfresh.
    + by subst.
Qed.

Lemma pack_all todo : ∀ seen st, packed seen st → NoDup (seen ++ todo) → Forall (fun i => 0 ≤ i < len weight) (seen ++ todo) →
  ∃ st', foldl (fun acc g => st ← acc; pack_group num_packs gpp weight st g) (mret st) todo = Ok st' ∧ packed (seen ++ todo) st'.
Proof using Hn Hpacks.
  induction todo as [|g todo IH]; intros seen st P Hnd Hr; [exists st; by rewrite app_nil_r|]. cbn [foldl mbind pyres_bind mret pyres_ret].
  pose proof Hnd as (N1 & N2 & N3)%NoDup_app. pose proof Hr as [R1 [R2 R3]%Forall_cons]%Forall_app.
  destruct (pack_group_ok seen st g P) as (st1 & -> & P1); [|done|done|done|].
  { intros Hg. apply (N2 g Hg), list_elem_of_here. }
  rewrite cons_middle, app_assoc in Hnd, Hr |- *. apply IH; done.
Qed.

End packing.

Section balanced.
Context `{TorchOrder}.

(** Every pack gets the same number of groups, at ranks of their own: pack and
    rank together number the groups. *)
Lemma balanced_packing_ok weight num_packs : 0 < num_packs → (num_packs | len weight) →
  let gpp := len weight / num_packs in
  ∃ index rank, balanced_packing weight num_packs = Ok (index, rank) ∧
    zip_with (fun p r => p * gpp + r) index rank ≡ₚ arange 0 (len weight) ∧ length index = length weight ∧
    Forall2 (fun p r => 0 ≤ p < num_packs ∧ 0 ≤ r < gpp) index rank.
Proof.
  intros Hp [gpp Eg]. cbn zeta. assert (len weight / num_packs = gpp) as Egp by (rewrite Eg, Z.div_mul; lia). rewrite Egp. unfold balanced_packing, py_mod.
  rewrite (proj2 (Z.eqb_neq num_packs 0)) by lia. cbn [mbind pyres_bind mret pyres_ret].
  rewrite (proj2 (Z.mod_divide (len weight) num_packs ltac:(lia)) (ex_intro _ gpp Eg)). cbn [py_assert mbind pyres_bind].
  rewrite Egp. destruct (Z.eqb_spec gpp 1) as [->|Hne].
  - eexists _, _. split; [reflexivity|].
    assert (length (arange 0 (len weight)) = length weight) as El by (pose proof (len_arange 0 (len weight)); unfold len in *; lia).
    assert (zip_with (fun p r => p * 1 + r) (arange 0 (len weight)) (replicate (length weight) 0) = arange 0 (len weight)) as ->.
    { rewrite zip_with_replicate_r_eq by done. rewrite <-(list_fmap_id (arange 0 (len weight))) at 2. apply list_fmap_ext. intros _ x _. simpl. lia. }
    split; [done|]. split; [done|]. apply Forall2_replicate_r; [done|]. apply Forall_forall. intros x Hx%elem_of_arange. simpl; lia.
  - pose proof (argsort_perm weight) as Hs. apply range_perm in Hs as (El & Hnd & Hr); [|len_pos; lia].
    destruct (pack_all weight num_packs gpp Hp ltac:(lia) (argsort weight) [] (mkPacking (replicate (Z.to_nat num_packs) 0%Q) (replicate (Z.to_nat num_packs) 0)
      (replicate (length weight) (-1)) (replicate (length weight) (-1)))) as (st & -> & [(L1 & L2 & L3 & L4) P2 P3 P4 P5]); [|done|done|].
    { split; simpl; unfold len; rewrite ?length_replicate; try done; try lia.
      - apply Forall_replicate. len_pos. nia.
      - rewrite (zsum_full _ 0) by (by apply Forall_replicate). by rewrite Z.mul_0_r.
      - by intros g Hg%elem_of_nil.
      - by intros g g' p r Hg%elem_of_nil. }
    cbn [mbind pyres_bind mret pyres_ret app] in *. eexists _, _. split; [reflexivity|].
    assert (∀ j, (j < length weight)%nat → ∃ p r, pack_index st !! j = Some p ∧ rank_in_pack st !! j = Some r ∧ 0 ≤ p < num_packs ∧ 0 ≤ r < gpp ∧
      Z.of_nat j ∈ argsort weight) as Hj.
    { intros j Hj. assert (Z.of_nat j ∈ argsort weight) as Hin by (rewrite (argsort_perm weight); apply elem_of_arange; unfold len; lia).
      destruct (P4 _ Hin) as (p & r & c & E1 & E2 & E3 & Hpp & Hrr). rewrite Nat2Z.id in *. exists p, r.
      pose proof (Forall_lookup_1 _ _ _ _ P2 E3). simpl in *. split_and!; done || lia. }
    assert (Forall2 (fun p r => 0 ≤ p < num_packs ∧ 0 ≤ r < gpp) (pack_index st) (rank_in_pack st)) as F2.
    { apply Forall2_same_length_lookup_2; [congruence|]. intros j p r Ep Er.
      destruct (Hj j) as (p' & r' & ? & ? & ? & ? & _); [rewrite <-L3; by eapply lookup_lt_Some|]. by simplify_eq. }
    split; [|done]. apply range_perm; [len_pos; lia|]. split; [unfold len; rewrite length_zip_with; lia|]. split.
    + apply NoDup_alt. intros a b z (p & r & -> & Ap & Ar)%lookup_zip_with_Some (p' & r' & Ez & Bp & Br)%lookup_zip_with_Some.
      destruct (Forall2_lookup_lr _ _ _ _ _ _ F2 Ap Ar). destruct (Forall2_lookup_lr _ _ _ _ _ _ F2 Bp Br).
      destruct (slot_inj gpp p p' r r') as [<- <-]; [lia..|].
      destruct (Hj a) as (_ & _ & _ & _ & _ & _ & Ha); [rewrite <-L3; by eapply lookup_lt_Some|].
      destruct (Hj b) as (_ & _ & _ & _ & _ & _ & Hb); [rewrite <-L3; by eapply lookup_lt_Some|].
      apply Nat2Z.inj. apply (P5 _ _ p r Ha Hb); by rewrite Nat2Z.id.
    + apply Forall_lookup. intros a z (p & r & -> & Ap & Ar)%lookup_zip_with_Some.
      destruct (Forall2_lookup_lr _ _ _ _ _ _ F2 Ap Ar). nia.
Qed.

End balanced.

(** ** Replicas *)

(** The physical experts below [P] are the replicas of the [L] logical ones:
    each is one replica of its expert, and every replica exists once. *)
Record replicas (L P : Z) (st : replication) : Prop := mk_replicas {
  rp_phy : len (phy2log st) = P;
  rp_rank : len (replica_rank st) = P;
  rp_log : len (logcnt st) = L;
  rp_one : Forall (Z.le 1) (logcnt st);
  rp_in : ∀ p e r, phy2log st !! p = Some e → replica_rank st !! p = Some r → 0 ≤ e ∧ ∃ c, logcnt st !! Z.to_nat e = Some c ∧ 0 ≤ r < c;
  rp_inj : ∀ p q e r, phy2log st !! p = Some e → replica_rank st !! p = Some r →
    phy2log st !! q = Some e → replica_rank st !! q = Some r → p = q;
  rp_surj : ∀ e c r, logcnt st !! e = Some c → 0 ≤ r < c → ∃ p, phy2log st !! p = Some (Z.of_nat e) ∧ replica_rank st !! p = Some r;
}.

Section replicate.
Context `{TorchOrder} (weight : list Q) (num_phy : Z) (Hsome : weight ≠ []) (Hmore : len weight ≤ num_phy).

(** The same with the first [i] physical experts. *)
Record placed (i : Z) (st : replication) : Prop := mk_placed {
  pl_phy : len (phy2log st) = num_phy;
  pl_rank : len (replica_rank st) = num_phy;
  pl_log : length (logcnt st) = length weight;
  pl_one : Forall (Z.le 1) (logcnt st);
  pl_sum : zsum (logcnt st) = i;
  pl_in : ∀ p e r, Z.of_nat p < i → phy2log st !! p = Some e → replica_rank st !! p = Some r →
    0 ≤ e ∧ ∃ c, logcnt st !! Z.to_nat e = Some c ∧ 0 ≤ r < c;
  pl_inj : ∀ p q e r, Z.of_nat p < i → Z.of_nat q < i → phy2log st !! p = Some e → replica_rank st !! p = Some r →
    phy2log st !! q = Some e → replica_rank st !! q = Some r → p = q;
  pl_surj : ∀ e c r, logcnt st !! e = Some c → 0 ≤ r < c →
    ∃ p, Z.of_nat p < i ∧ phy2log st !! p = Some (Z.of_nat e) ∧ replica_rank st !! p = Some r;
  (** The last replica was given to an expert with the largest load. *)
  pl_greedy : ∀ e c w e' c' w', logcnt st !! e = Some c → weight !! e = Some w → 1 < c →
    logcnt st !! e' = Some c' → weight !! e' = Some w' → (w' / inject_Z c' <= w / inject_Z (c - 1))%Q;
}.

Lemma placed_start : placed (len weight) (mkReplication (arange 0 num_phy) (replicate (Z.to_nat num_phy) 0) (replicate (length weight) 1)).
Proof using Hmore.
  clear Hsome. len_pos. split; simpl.
  - rewrite len_arange. lia.
  - unfold len. rewrite length_replicate. lia.
  - by rewrite length_replicate.
  - apply Forall_replicate. lia.
  - rewrite (zsum_full _ 1) by (by apply Forall_replicate). unfold len. rewrite length_replicate. lia.
  - intros p e r Hp Hpe (-> & _)%lookup_replicate. apply lookup_seqZ in Hpe as [-> Hlt]. split; [lia|]. exists 1. split; [|lia].
    apply lookup_replicate. split; [done|]. unfold len in Hp. lia.
  - intros p q e r _ _ [-> _]%lookup_seqZ _ [Eq _]%lookup_seqZ _. lia.
  - intros e c r [-> He]%lookup_replicate Hr. exists e. split; [unfold len; lia|]. split.
    + apply lookup_seqZ. unfold len in *. lia.
    + apply lookup_replicate. split; [lia|]. unfold len in *. lia.
  - intros e c w e' c' w' [-> _]%lookup_replicate _ Hc. lia.
Qed.

Lemma load_mono w c c' : 1 ≤ c ≤ c' → (0 <= w)%Q → (w / inject_Z c' <= w / inject_Z c)%Q.
Proof using.
  clear. intros Hc Hw. unfold Qdiv. rewrite !(Qmult_comm w). apply Qmult_le_compat_r; [|done].
  unfold Qle, Qinv, inject_Z. simpl. destruct c as [|c|], c' as [|c'|]; try lia. simpl. lia.
Qed.

Lemma load_drops w c : 1 ≤ c → (0 <= w)%Q → (w / inject_Z (c + 1) <= w / inject_Z c)%Q.
Proof using. intros Hc. apply load_mono. lia. Qed.

Lemma replicate_one_ok i st : Forall (fun w => 0 <= w)%Q weight → placed i st → len weight ≤ i < num_phy →
  ∃ st', replicate_one weight st i = Ok st' ∧ placed (i + 1) st'.
Proof using Hsome Hmore.
  intros Hpos [P1 P2 P3 P4 P5 P6 P7 P8 P9] Hi. pose proof (len_nonneg weight) as Hl0. unfold replicate_one. set (scores := per_replica weight (logcnt st)).
  assert (length scores = length weight) as Els by (unfold scores, per_replica; rewrite length_zip_with; lia).
  assert (scores ≠ []) as Hs by (intros E; rewrite E in Els; by destruct weight).
  pose proof (argmax_in scores Hs) as Hm. set (e := argmax scores) in *. unfold len in Hm. rewrite Els in Hm.
  destruct (lookup_lt_is_Some_2 (logcnt st) (Z.to_nat e)) as [c Hc]; [lia|].
  destruct (lookup_lt_is_Some_2 weight (Z.to_nat e)) as [we Hwe]; [lia|].
  assert (∀ e' c' w', logcnt st !! e' = Some c' → weight !! e' = Some w' → (w' / inject_Z c' <= we / inject_Z c)%Q) as Hmax.
  { intros e' c' w' Hc' Hw'.
    assert (scores !! Z.to_nat e = Some (we / inject_Z c)%Q) as Ee by (unfold scores, per_replica; by rewrite lookup_zip_with, Hwe, Hc).
    rewrite <-(list_lookup_total_correct _ _ _ Ee). apply argmax_max. apply (list_elem_of_lookup_2 _ e').
    unfold scores, per_replica. by rewrite lookup_zip_with, Hw', Hc'. }
  exists (mkReplication (set_at i e (phy2log st)) (set_at i c (replica_rank st)) (set_at e (c + 1) (logcnt st))). split.
  { destruct scores; [done|]. rewrite (proj2 (get_at_ok (logcnt st) e c)) by (split; [lia|done]). done. }
  pose proof (Forall_lookup_1 _ _ _ _ P4 Hc) as Hc1.
  assert (∀ e' c', set_at e (c + 1) (logcnt st) !! e' = Some c' → (e' = Z.to_nat e ∧ c' = c + 1) ∨ (e' ≠ Z.to_nat e ∧ logcnt st !! e' = Some c')) as Hcnt.
  { intros e' c'. unfold set_at. destruct (decide (e' = Z.to_nat e)) as [->|Hne].
    - rewrite list_lookup_insert_eq by lia. intros [= <-]. by left.
    - rewrite list_lookup_insert_ne by done. by right. }
  assert (∀ (l : list Z) x p, (Z.of_nat p < i + 1) → len l = num_phy → (Z.of_nat p = i ∧ set_at i x l !! p = Some x) ∨ (Z.of_nat p < i ∧ set_at i x l !! p = l !! p)) as Hset.
  { intros l x p Hp El. unfold set_at, len in *. destruct (decide (Z.of_nat p = i)).
    - left. split; [done|]. replace (Z.to_nat i) with p by lia. apply list_lookup_insert_eq. lia.
    - right. split; [lia|]. apply list_lookup_insert_ne. lia. }
  split; simpl.
  - unfold set_at, len. by rewrite length_insert.
  - unfold set_at, len. by rewrite length_insert.
  - unfold set_at. by rewrite length_insert.
  - unfold set_at. apply Forall_insert; [done|lia].
  - unfold set_at. rewrite (zsum_insert _ _ _ _ Hc). lia.
  - intros p e' r Hp. destruct (Hset (phy2log st) e p Hp P1) as [[Ep ->]|[Hlt ->]]; destruct (Hset (replica_rank st) c p Hp P2) as [[Ep' ->]|[Hlt' ->]]; try lia.
    + intros [= <-] [= <-]. split; [lia|]. exists (c + 1). split; [|lia]. unfold set_at. apply list_lookup_insert_eq. lia.
    + intros E1 E2. destruct (P6 p e' r Hlt E1 E2) as (H0 & c' & Hc' & Hr). split; [done|].
      destruct (decide (e' = e)) as [->|Hne].
      * exists (c + 1). simplify_eq. split; [|lia]. unfold set_at. apply list_lookup_insert_eq. lia.
      * exists c'. split; [|done]. unfold set_at. rewrite list_lookup_insert_ne by lia. done.
  - intros p q e' r Hp Hq.
    destruct (Hset (phy2log st) e p Hp P1) as [[Ep ->]|[Hlt ->]]; destruct (Hset (replica_rank st) c p Hp P2) as [[Ep' ->]|[Hlt' ->]]; try lia;
    destruct (Hset (phy2log st) e q Hq P1) as [[Eq ->]|[Hqt ->]]; destruct (Hset (replica_rank st) c q Hq P2) as [[Eq' ->]|[Hqt' ->]]; try lia.
    + intros [= <-] [= <-] E1 E2. destruct (P6 q _ _ Hqt E1 E2) as (_ & c' & Hc' & Hr). simplify_eq. lia.
    + intros E1 E2 [= <-] [= <-]. destruct (P6 p _ _ Hlt E1 E2) as (_ & c' & Hc' & Hr). simplify_eq. lia.
    + intros. by eapply P7.
  - intros e' c' r Hc' Hr. destruct (Hcnt e' c' Hc') as [[-> ->]|[Hne Hold]].
    + destruct (decide (r = c)) as [->|Hrc].
      * exists (Z.to_nat i). destruct (Hset (phy2log st) e (Z.to_nat i) ltac:(lia) P1) as [[_ ->]|[? _]]; [|lia].
        destruct (Hset (replica_rank st) c (Z.to_nat i) ltac:(lia) P2) as [[_ ->]|[? _]]; [|lia]. rewrite !Z2Nat.id by lia. split; [lia|done].
      * destruct (P8 (Z.to_nat e) c r Hc ltac:(lia)) as (p & Hp & E1 & E2). exists p.
        destruct (Hset (phy2log st) e p ltac:(lia) P1) as [[? _]|[_ ->]]; [lia|]. destruct (Hset (replica_rank st) c p ltac:(lia) P2) as [[? _]|[_ ->]]; [lia|].
        split; [lia|done].
    + destruct (P8 e' c' r Hold Hr) as (p & Hp & E1 & E2). exists p.
      destruct (Hset (phy2log st) e p ltac:(lia) P1) as [[? _]|[_ ->]]; [lia|]. destruct (Hset (replica_rank st) c p ltac:(lia) P2) as [[? _]|[_ ->]]; [lia|].
      split; [lia|done].
  - assert (∀ e' c' w', set_at e (c + 1) (logcnt st) !! e' = Some c' → weight !! e' = Some w' → (w' / inject_Z c' <= we / inject_Z c)%Q ∧
      ∃ c0, logcnt st !! e' = Some c0 ∧ (w' / inject_Z c' <= w' / inject_Z c0)%Q) as Hnew.
    { intros e' c' w' Hc' Hw'. destruct (Hcnt e' c' Hc') as [[-> ->]|[_ Hold]].
      - assert (w' = we) as -> by congruence. pose proof (Forall_lookup_1 _ _ _ _ Hpos Hwe).
        split; [by apply load_drops|]. exists c. split; [done|by apply load_drops].
      - split; [by eapply Hmax|]. exists c'. split; [done|apply Qle_refl]. }
    intros e1 c1 w1 e2 c2 w2 H1 Hw1 Hgt H2 Hw2. destruct (Hnew _ _ _ H2 Hw2) as (Hle & c0 & H0 & Hle0).
    destruct (Hcnt e1 c1 H1) as [[-> ->]|[_ Hold]].
    + assert (w1 = we) as -> by congruence. by replace (c + 1 - 1) with c by lia.
    + eapply Qle_trans; [exact Hle0|]. by eapply P9.
Qed.

Lemma replicate_loop_ok k : ∀ i st, Forall (fun w => 0 <= w)%Q weight → placed i st → len weight ≤ i → i + Z.of_nat k = num_phy →
  ∃ st', foldl (fun acc i => st ← acc; replicate_one weight st i) (mret st) (arange i num_phy) = Ok st' ∧ placed num_phy st'.
Proof using Hsome Hmore.
  induction k as [|k IH]; intros i st Hpos P Hl Hk.
  - rewrite arange_empty by lia. exists st. split; [done|]. by replace num_phy with i by lia.
  - rewrite arange_cons by lia. cbn [foldl mbind pyres_bind mret pyres_ret].
    destruct (replicate_one_ok i st Hpos P ltac:(lia)) as (st1 & -> & P1). apply (IH (i + 1) st1); [done|done|lia|lia].
Qed.

Lemma replicate_experts_ok : Forall (fun w => 0 <= w)%Q weight →
  ∃ st, replicate_experts weight num_phy = Ok st ∧ placed num_phy st.
Proof using Hsome Hmore.
  intros Hpos. unfold replicate_experts. rewrite (proj2 (Z.leb_le 0 _)) by lia. cbn [py_assert mbind pyres_bind].
  eapply (replicate_loop_ok (Z.to_nat (num_phy - len weight))); [done|apply placed_start|lia|len_pos; lia].
Qed.

Lemma placed_replicas st : placed num_phy st → replicas (len weight) num_phy st.
Proof using.
  clear Hsome Hmore. intros [P1 P2 P3 P4 P5 P6 P7 P8 P9].
  assert (∀ (l : list Z) p x, len l = num_phy → l !! p = Some x → Z.of_nat p < num_phy) as Hp by (intros l p x <- Hx%lookup_range; lia).
  split; try done; [unfold len; by rewrite P3|..].
  - intros p e r E1 E2. eapply P6; [by eapply (Hp (phy2log st))|done..].
  - intros p q e r E1 E2 E3 E4. eapply P7; [by eapply (Hp (phy2log st))|by eapply (Hp (phy2log st))|done..].
  - intros e c r Hc Hr. destruct (P8 e c r Hc Hr) as (p & _ & ?). by exists p.
Qed.

Lemma zsum_le l k : Forall2 Z.le l k → zsum l ≤ zsum k.
Proof using. clear. induction 1; rewrite ?zsum_cons; [done|lia]. Qed.

Lemma zsum_lt l k e x y : Forall2 Z.le l k → l !! e = Some x → k !! e = Some y → x < y → zsum l < zsum k.
Proof using.
  clear. intros F. revert e. induction F as [|a b l k Hab F IH]; intros [|e] Hx Hy Hlt; try done; simpl in *; rewrite !zsum_cons.
  - simplify_eq. pose proof (zsum_le _ _ F). lia.
  - specialize (IH e Hx Hy Hlt). lia.
Qed.

#[local] Instance Qlt_decision x y : Decision (x < y)%Q.
Proof using. destruct (Qlt_le_dec x y) as [?|?]; [by left|right]. by apply Qle_not_lt. Defined.

(** No other distribution has a smaller largest load. *)
Lemma placed_optimal st cnt : Forall (fun w => 0 <= w)%Q weight → placed num_phy st →
  length cnt = length weight → Forall (Z.le 1) cnt → zsum cnt ≤ num_phy →
  ∀ load, load ∈ per_replica weight (logcnt st) → ∃ load', load' ∈ per_replica weight cnt ∧ (load <= load')%Q.
Proof using.
  clear Hsome Hmore. intros Hpos [P1 P2 P3 P4 P5 P6 P7 P8 P9] El Hone Hsum load (e & He)%list_elem_of_lookup.
  apply lookup_zip_with_Some in He as (we & ce & -> & Hwe & Hce).
  destruct (decide (Forall (fun load' => load' < we / inject_Z ce)%Q (per_replica weight cnt))) as [Hall|Hex].
  2:{ apply not_Forall_Exists in Hex; [|apply _]. apply Exists_exists in Hex as (x & Hx & Hn). exists x. split; [done|]. by apply Qnot_lt_le. }
  exfalso.
  assert (∀ i w c c', weight !! i = Some w → cnt !! i = Some c' → logcnt st !! i = Some c → (w / inject_Z c' < we / inject_Z ce)%Q) as Hlt.
  { intros i w c c' Hw Hc' _. eapply (Forall_lookup_1 _ _ i _ Hall). unfold per_replica. by rewrite lookup_zip_with, Hw, Hc'. }
  assert (Forall2 Z.le (logcnt st) cnt) as F.
  { apply Forall2_same_length_lookup_2; [lia|]. intros i c c' Hc Hc'. destruct (lookup_lt_is_Some_2 weight i) as [w Hw].
    { apply lookup_lt_Some in Hc. lia. }
    pose proof (Forall_lookup_1 _ _ _ _ P4 Hc) as H1. pose proof (Forall_lookup_1 _ _ _ _ Hone Hc') as H1'.
    destruct (decide (c = 1)) as [->|Hne]; [done|]. apply Z.nlt_ge. intros Hcc.
    pose proof (P9 i c w e ce we Hc Hw ltac:(lia) Hce Hwe) as Hg. pose proof (Hlt i w c c' Hw Hc' Hc) as Hl.
    apply (Qlt_not_le _ _ Hl). eapply Qle_trans; [exact Hg|]. apply load_mono; [lia|exact (Forall_lookup_1 _ _ _ _ Hpos Hw)]. }
  destruct (lookup_lt_is_Some_2 cnt e) as [c' Hc']; [apply lookup_lt_Some in Hwe; lia|].
  pose proof (zsum_lt _ _ e ce c' F Hce Hc') as Hs. apply Z.nle_gt in Hsum; [done|]. rewrite <-P5 at 1. apply Hs.
  apply Z.nle_gt. intros Hle. apply (Qlt_not_le _ _ (Hlt e we ce c' Hwe Hc' Hce)). pose proof (Forall_lookup_1 _ _ _ _ Hone Hc').
  apply load_mono; [lia|exact (Forall_lookup_1 _ _ _ _ Hpos Hwe)].
Qed.

End replicate.

(** C16: replication is consistent and optimal.  For loads that are not negative,
    [replicate_experts] returns; every physical expert is one replica of its
    logical expert, with a rank below the number of replicas, every replica
    occurs once, and each logical expert has at least one.  No other
    distribution of at most [num_phy] replicas over the experts makes the
    largest load of a replica smaller. *)
Theorem replicate_experts_optimal `{TorchOrder} weight num_phy :
  weight ≠ [] → len weight ≤ num_phy → Forall (fun w => 0 <= w)%Q weight →
  ∃ st, replicate_experts weight num_phy = Ok st ∧ replicas (len weight) num_phy st ∧
    ∀ cnt, length cnt = length weight → Forall (Z.le 1) cnt → zsum cnt ≤ num_phy →
      ∀ load, load ∈ per_replica weight (logcnt st) → ∃ load', load' ∈ per_replica weight cnt ∧ (load <= load')%Q.
Proof.
  intros Hs Hm Hpos. destruct (replicate_experts_ok weight num_phy Hs Hm Hpos) as (st & E & P). exists st. split; [done|].
  split; [by apply placed_replicas|]. intros cnt. by apply placed_optimal.
Qed.

(** ** Renumbering *)

Lemma gathered {A} (l : list A) idx r : Forall2 (fun i x => l !! Z.to_nat i = Some x) idx r →
  length r = length idx ∧ ∀ k i, idx !! k = Some i → r !! k = l !! Z.to_nat i.
Proof.
  intros F. split; [symmetry; by eapply Forall2_length|]. intros k i Hi. destruct (Forall2_lookup_l _ _ _ _ _ F Hi) as (x & -> & Hx). done.
Qed.

(** The physical experts in another order. *)
Lemma replicas_reorder L P st perm : 0 ≤ P → replicas L P st → perm ≡ₚ arange 0 P →
  ∃ phy rank, gather (phy2log st) perm = Ok phy ∧ gather (replica_rank st) perm = Ok rank ∧ replicas L P (mkReplication phy rank (logcnt st)).
Proof.
  intros H0 [R1 R2 R3 R4 R5 R6 R7] Hp. pose proof Hp as (El & Hnd & Hr)%range_perm; [|done].
  destruct (gather_total (phy2log st) perm) as (phy & E1 & [L1 F1]%gathered); [by rewrite R1|].
  destruct (gather_total (replica_rank st) perm) as (rank & E2 & [L2 F2]%gathered); [by rewrite R2|].
  exists phy, rank. split; [done|]. split; [done|].
  assert (∀ k e r, phy !! k = Some e → rank !! k = Some r → ∃ i, perm !! k = Some i ∧ phy2log st !! Z.to_nat i = Some e ∧ replica_rank st !! Z.to_nat i = Some r) as Hk.
  { intros k e r He Hr'. destruct (lookup_lt_is_Some_2 perm k) as [i Hi]; [rewrite <-L1; by eapply lookup_lt_Some|].
    exists i. by rewrite <-(F1 k i Hi), <-(F2 k i Hi). }
  split; simpl; try done; [unfold len in *; lia|unfold len in *; lia|..].
  - intros p e r He Hr'. destruct (Hk p e r He Hr') as (i & _ & ? & ?). by eapply R5.
  - intros p q e r Hp1 Hp2 Hq1 Hq2. destruct (Hk _ _ _ Hp1 Hp2) as (i & Hi & I1 & I2). destruct (Hk _ _ _ Hq1 Hq2) as (j & Hj & J1 & J2).
    pose proof (R6 _ _ _ _ I1 I2 J1 J2). pose proof (Forall_lookup_1 _ _ _ _ Hr Hi). pose proof (Forall_lookup_1 _ _ _ _ Hr Hj). simpl in *.
    assert (i = j) as -> by lia. by eapply NoDup_lookup.
  - intros e c r Hc Hr'. destruct (R7 e c r Hc Hr') as (p & E3 & E4). destruct (perm_index P perm (Z.of_nat p) Hp) as [k Hk'].
    { apply lookup_range in E3. lia. }
    exists k. by rewrite (F1 k _ Hk'), (F2 k _ Hk'), Nat2Z.id.
Qed.

(** The logical experts under other names. *)
Lemma replicas_rename L P st to from : 0 ≤ L → replicas L P st → to ≡ₚ arange 0 L → from ≡ₚ arange 0 L →
  (∀ k x, to !! k = Some x ↔ from !! Z.to_nat x = Some (Z.of_nat k) ∧ 0 ≤ x) →
  ∃ phy cnt, gather from (phy2log st) = Ok phy ∧ gather (logcnt st) to = Ok cnt ∧ replicas L P (mkReplication phy (replica_rank st) cnt).
Proof.
  intros H0 [R1 R2 R3 R4 R5 R6 R7] Hto Hfrom Hinv.
  pose proof Hto as (Et & _ & Hrt)%range_perm; [|done]. pose proof Hfrom as (Ef & Hnf & Hrf)%range_perm; [|done].
  destruct (gather_total from (phy2log st)) as (phy & E1 & [L1 F1]%gathered).
  { apply Forall_lookup. intros p e He. destruct (lookup_lt_is_Some_2 (replica_rank st) p) as [r Hr].
    { apply lookup_lt_Some in He. unfold len in *. lia. }
    destruct (R5 p e r He Hr) as (He0 & c & Hc%lookup_range & _). lia. }
  destruct (gather_total (logcnt st) to) as (cnt & E2 & [L2 F2]%gathered); [by rewrite R3|].
  exists phy, cnt. split; [done|]. split; [done|].
  assert (∀ k e', phy !! k = Some e' → ∃ e, phy2log st !! k = Some e ∧ from !! Z.to_nat e = Some e') as Hphy.
  { intros k e' He. destruct (lookup_lt_is_Some_2 (phy2log st) k) as [e Hk]; [rewrite <-L1; by eapply lookup_lt_Some|].
    exists e. by rewrite <-(F1 k e Hk). }
  assert (∀ k c, cnt !! k = Some c → ∃ e, to !! k = Some e ∧ logcnt st !! Z.to_nat e = Some c) as Hcnt.
  { intros k c Hc. destruct (lookup_lt_is_Some_2 to k) as [e Hk]; [rewrite <-L2; by eapply lookup_lt_Some|].
    exists e. by rewrite <-(F2 k e Hk). }
  assert (∀ e e', 0 ≤ e → from !! Z.to_nat e = Some e' → 0 ≤ e' ∧ to !! Z.to_nat e' = Some e) as Hback.
  { intros e e' He Hf. pose proof (Forall_lookup_1 _ _ _ _ Hrf Hf). simpl in *. split; [lia|]. apply Hinv. rewrite Z2Nat.id by lia. done. }
  split; simpl; try done; [unfold len in *; lia|unfold len in *; lia|..].
  - apply Forall_lookup. intros k c (e & _ & Hc)%Hcnt. by eapply (Forall_lookup_1 _ _ _ _ R4).
  - intros p e' r (e & He & Hf)%Hphy Hr. destruct (R5 p e r He Hr) as (He0 & c & Hc & Hrc). destruct (Hback e e' He0 Hf) as [He' Ht].
    split; [done|]. exists c. by rewrite (F2 _ _ Ht).
  - intros p q e' r (e1 & H1 & Hf1)%Hphy Hr1 (e2 & H2 & Hf2)%Hphy Hr2.
    destruct (R5 _ _ _ H1 Hr1) as [Ha _]. destruct (R5 _ _ _ H2 Hr2) as [Hb _].
    pose proof (NoDup_lookup _ _ _ _ Hnf Hf1 Hf2). assert (e1 = e2) as -> by lia. by eapply R6.
  - intros k c r (e & Ht & Hc)%Hcnt Hr. apply Hinv in Ht as [Hf He]. destruct (R7 (Z.to_nat e) c r Hc Hr) as (p & E3 & E4).
    exists p. rewrite Z2Nat.id in E3 by done. by rewrite (F1 p e E3).
Qed.

(** Two nodes side by side. *)
Lemma replicas_app L1 P1 a L2 P2 b : replicas L1 P1 a → replicas L2 P2 b →
  replicas (L1 + L2) (P1 + P2) (mkReplication (phy2log a ++ (Z.add L1 <$> phy2log b)) (replica_rank a ++ replica_rank b) (logcnt a ++ logcnt b)).
Proof.
  intros [A1 A2 A3 A4 A5 A6 A7] [B1 B2 B3 B4 B5 B6 B7].
  assert (length (phy2log a) = length (replica_rank a)) as Ea by (unfold len in *; lia).
  assert (0 ≤ L1) as HL by (rewrite <-A3; apply len_nonneg).
  assert (∀ p e r, (phy2log a ++ (Z.add L1 <$> phy2log b)) !! p = Some e → (replica_rank a ++ replica_rank b) !! p = Some r →
    (phy2log a !! p = Some e ∧ replica_rank a !! p = Some r) ∨
    ∃ e', (length (phy2log a) ≤ p)%nat ∧ e = L1 + e' ∧ phy2log b !! (p - length (phy2log a))%nat = Some e' ∧ replica_rank b !! (p - length (phy2log a))%nat = Some r) as Hs.
  { intros p e r [He|[Hp He]]%lookup_app_Some Hr; apply lookup_app_Some in Hr as [Hr|[Hp' Hr]].
    - by left.
    - apply lookup_lt_Some in He. lia.
    - apply lookup_lt_Some in Hr. lia.
    - right. rewrite list_lookup_fmap in He. apply fmap_Some in He as (e' & He & ->). exists e'. rewrite <-Ea in Hr. done. }
  assert (∀ p e r, phy2log a !! p = Some e → replica_rank a !! p = Some r → e < L1) as Ha.
  { intros p e r H1 H2. destruct (A5 _ _ _ H1 H2) as (? & c & Hc%lookup_range & _). lia. }
  assert (∀ p e r, phy2log b !! p = Some e → replica_rank b !! p = Some r → 0 ≤ e) as Hb by (intros p e r H1 H2; by destruct (B5 _ _ _ H1 H2)).
  split; simpl; rewrite ?len_app, ?len_fmap; try lia.
  - by apply Forall_app.
  - intros p e r He Hr. destruct (Hs p e r He Hr) as [[H1 H2]|(e' & Hp & -> & H1 & H2)].
    + destruct (A5 _ _ _ H1 H2) as (H0 & c & Hc & Hrc). split; [done|]. exists c. split; [|done]. by apply lookup_app_l_Some.
    + destruct (B5 _ _ _ H1 H2) as (H0 & c & Hc & Hrc). split; [lia|]. exists c. split; [|done]. apply lookup_app_Some. right.
      unfold len in A3. replace (Z.to_nat (L1 + e') - length (logcnt a))%nat with (Z.to_nat e') by lia. split; [lia|done].
  - intros p q e r Hp1 Hp2 Hq1 Hq2. destruct (Hs p e r Hp1 Hp2) as [[H1 H2]|(e1 & Hp & -> & H1 & H2)]; destruct (Hs q _ r Hq1 Hq2) as [[H3 H4]|(e2 & Hq & E2 & H3 & H4)].
    + by eapply A6.
    + pose proof (Ha _ _ _ H1 H2). pose proof (Hb _ _ _ H3 H4). lia.
    + pose proof (Ha _ _ _ H3 H4). pose proof (Hb _ _ _ H1 H2). lia.
    + assert (e1 = e2) as -> by lia. pose proof (B6 _ _ _ _ H1 H2 H3 H4). lia.
  - intros e c r [Hc|[He Hc]]%lookup_app_Some Hr.
    + destruct (A7 e c r Hc Hr) as (p & E1 & E2). exists p. split; by apply lookup_app_l_Some.
    + destruct (B7 _ c r Hc Hr) as (p & E1 & E2). exists (length (phy2log a) + p)%nat. split.
      * rewrite lookup_app_r by lia. replace (_ + p - _)%nat with p by lia. rewrite list_lookup_fmap, E1. simpl. f_equal. unfold len in A3. lia.
      * rewrite Ea, lookup_app_r by lia. by replace (_ + p - _)%nat with p by lia.
Qed.

(** ** One node *)

Lemma mapM_ok {A B} (f : A → pyres B) (Q : B → Prop) l : Forall (fun x => ∃ y, f x = Ok y ∧ Q y) l →
  ∃ ys, mapM f l = Ok ys ∧ Forall Q ys ∧ length ys = length l.
Proof.
  induction 1 as [|x l (y & E & Hy) _ (ys & Es & Hs & Hl)]; [by exists []|]. exists (y :: ys). cbn [mapM]. rewrite E. cbn [mbind pyres_bind].
  rewrite Es. split; [done|]. split; [by constructor|]. simpl. by rewrite Hl.
Qed.

Section place.
Context `{TorchOrder} (torch_garbage : nat → list Z) (Hgarbage : ∀ n, length (torch_garbage n) = n).

Lemma place_on_node_ok tokens num_phy num_gpus per_gpu :
  tokens ≠ [] → Forall (fun w => 0 <= w)%Q tokens → len tokens ≤ num_phy → 0 < num_gpus → num_phy = num_gpus * per_gpu →
  ∃ st, place_on_node torch_garbage tokens num_phy num_gpus per_gpu = Ok st ∧ replicas (len tokens) num_phy st.
Proof using Hgarbage.
  intros Hne Hpos Hl Hg Ep. unfold place_on_node. destruct (replicate_experts_ok tokens num_phy Hne Hl Hpos) as (st & -> & P).
  apply placed_replicas in P. pose proof P as [R1 R2 R3 R4 R5 R6 R7]. cbn [mbind pyres_bind].
  destruct (gather_total (per_replica tokens (logcnt st)) (phy2log st)) as (tp & -> & [Lt _]%gathered).
  { apply Forall_lookup. intros p e He. destruct (lookup_lt_is_Some_2 (replica_rank st) p) as [r Hr].
    { apply lookup_lt_Some in He. unfold len in *. lia. }
    destruct (R5 p e r He Hr) as (He0 & c & Hc%lookup_range & _). unfold per_replica, len in *. rewrite length_zip_with. lia. }
  cbn [mbind pyres_bind]. assert (len tp = num_phy) as Elt by (unfold len in *; lia).
  destruct (balanced_packing_ok tp num_gpus Hg) as (idx & rk & -> & Hperm & _); [rewrite Elt, Ep; apply Z.divide_factor_l|].
  cbn [mbind pyres_bind]. rewrite Elt in Hperm. replace (num_phy / num_gpus) with per_gpu in Hperm by (rewrite Ep, Z.mul_comm, Z.div_mul; lia).
  assert (0 ≤ num_phy) as H0 by (len_pos; lia).
  destruct (inverse_ok torch_garbage Hgarbage num_phy _ H0 Hperm) as (inv & -> & Hinv & _). cbn [mbind pyres_bind].
  destruct (replicas_reorder _ _ st inv H0 P Hinv) as (phy & rank & -> & Er & Hr). cbn [mbind pyres_bind]. rewrite Er. by eexists.
Qed.

(** ** One layer *)

Lemma blocks_range G gs : 0 ≤ G → 0 ≤ gs → arange 0 G ≫= (fun s => Z.add (s * gs) <$> arange 0 gs) = arange 0 (G * gs).
Proof using.
  clear. intros HG Hgs. rewrite <-(Z2Nat.id G HG). generalize (Z.to_nat G) as k. clear G HG. intros k. induction k as [|k IH]; [done|].
  rewrite Nat2Z.inj_succ, (arange_app 0 (Z.of_nat k) (Z.succ (Z.of_nat k))) by lia. rewrite bind_app, IH, (arange_cons (Z.of_nat k) (Z.succ (Z.of_nat k))), (arange_empty (Z.of_nat k + 1)) by lia.
  cbn [mbind list_bind]. rewrite app_nil_r, arange_shift, (arange_app 0 (Z.of_nat k * gs) (Z.succ (Z.of_nat k) * gs)) by lia. f_equal. f_equal; lia.
Qed.

Lemma blocks_perm G gs l : 0 ≤ G → 0 ≤ gs → l ≡ₚ arange 0 G → l ≫= (fun s => Z.add (s * gs) <$> arange 0 gs) ≡ₚ arange 0 (G * gs).
Proof using. clear. intros HG Hgs E. rewrite <-(blocks_range G gs HG Hgs). by rewrite E. Qed.

Lemma view_rows {A} k n (l : list A) : 0 ≤ k → 0 ≤ n → len l = k * n → length (view k n l) = Z.to_nat k ∧
  Forall (fun row => len row = n ∧ Forall (fun x => x ∈ l) row) (view k n l).
Proof using.
  clear. intros Hk Hn El. unfold view. split; [by rewrite length_fmap, length_seq|]. apply Forall_fmap, Forall_forall. intros i [_ Hi]%elem_of_seq. simpl. split.
  - rewrite len_take, len_drop. assert (Z.of_nat i + 1 ≤ k) by lia. nia.
  - apply Forall_forall. intros x Hx. apply elem_of_take in Hx as (j & Hx & _). rewrite lookup_drop in Hx. by eapply list_elem_of_lookup_2.
Qed.

(** Experts stay on the node of their block. *)
Definition on_node (ln pn : Z) (phy : list Z) : Prop := ∀ p e, phy !! p = Some e → e / ln = Z.of_nat p / pn.

Abbreviation joined nodes ln := (concat (zip_with (fun k st => Z.add (Z.of_nat k * ln) <$> phy2log st) (seq 0 (length nodes)) nodes)).

Lemma joined_shift (nodes : list replication) ln s : concat (zip_with (fun k st => Z.add (Z.of_nat k * ln) <$> phy2log st) (seq s (length nodes)) nodes)
  = Z.add (Z.of_nat s * ln) <$> joined nodes ln.
Proof using.
  clear. revert s. induction nodes as [|a nodes IH]; intros s; [done|]. cbn [length seq zip_with concat]. rewrite (IH (S s)), (IH 1%nat).
  rewrite fmap_app, <-!list_fmap_compose. f_equal; apply list_fmap_ext; intros _ x _; simpl; lia.
Qed.

Lemma joined_ok nodes ln pn : 0 < ln → 0 < pn → Forall (replicas ln pn) nodes →
  replicas (len nodes * ln) (len nodes * pn) (mkReplication (joined nodes ln) (nodes ≫= replica_rank) (nodes ≫= logcnt)) ∧
  on_node ln pn (joined nodes ln).
Proof using.
  clear. intros Hln Hpn. induction 1 as [|a nodes Ha _ [IH Hon]]; [split; [split; simpl; try done; by constructor|by intros p e]|].
  cbn [length seq zip_with concat]. rewrite (joined_shift nodes ln 1).
  assert ((Z.add (Z.of_nat 0 * ln) <$> phy2log a) = phy2log a) as ->.
  { rewrite <-(list_fmap_id (phy2log a)) at 2. apply list_fmap_ext. intros _ x _. unfold id. lia. }
  replace (Z.of_nat 1 * ln) with ln by lia. rewrite len_cons. split.
  - pose proof (replicas_app _ _ _ _ _ _ Ha IH) as Hr. simpl in Hr. replace ((1 + len nodes) * ln) with (ln + len nodes * ln) by lia.
    replace ((1 + len nodes) * pn) with (pn + len nodes * pn) by lia. exact Hr.
  - destruct Ha as [A1 A2 A3 _ A5 _ _]. intros p e [He|[Hp He]]%lookup_app_Some.
    + pose proof (lookup_range _ _ _ He) as Hrng. destruct (lookup_lt_is_Some_2 (replica_rank a) p) as [r Hr]; [unfold len in *; lia|].
      destruct (A5 p e r He Hr) as (He0 & c & Hc%lookup_range & _). rewrite !Z.div_small by lia. done.
    + rewrite list_lookup_fmap in He. apply fmap_Some in He as (e' & He & ->). apply Hon in He. unfold len in A1.
      rewrite Nat2Z.inj_sub, A1 in He by done. replace (ln + e') with (e' + 1 * ln) by lia. rewrite Z.div_add, He by lia.
      replace (Z.of_nat p) with (Z.of_nat p - pn + 1 * pn) at 2 by lia. rewrite Z.div_add by lia. done.
Qed.

(** What the asserts require, and experts for every GPU. *)
Record sizes (L P G N K : Z) : Prop := mk_sizes {
  sz_some : 0 < L ≤ P;
  sz_groups : 0 < G ∧ (G | L);
  sz_nodes : 0 < N ∧ (N | G) ∧ (N | K);
  sz_gpus : 0 < K ∧ (K | P);
}.

Lemma py_mod_zero a b : 0 < b → (b | a) → py_mod a b = Ok 0.
Proof using. clear. intros Hb Hd. unfold py_mod. rewrite (proj2 (Z.eqb_neq b 0)) by lia. by rewrite (proj2 (Z.mod_divide a b ltac:(lia)) Hd). Qed.

Lemma hierarchical_ok weight P G N K : sizes (len weight) P G N K → Forall (fun w => 0 <= w)%Q weight →
  ∃ st, rebalance_experts_hierarchical torch_garbage weight P G N K = Ok st ∧ replicas (len weight) P st ∧
    ∀ p q e, phy2log st !! p = Some e → phy2log st !! q = Some e → Z.of_nat p / (P / N) = Z.of_nat q / (P / N).
Proof using Hgarbage.
  intros [HL [HG [gs Egs]] [HN [[gpn Egpn] [kn Ekn]]] [HK [ppg Eppg]]] Hpos. set (L := len weight) in *.
  assert (0 < gs) as Hgs by nia. assert (0 < gpn) as Hgpn by nia. assert (0 < kn) as Hkn by nia. assert (0 < ppg) as Hppg by nia.
  unfold rebalance_experts_hierarchical. fold L.
  rewrite !py_mod_zero by (done || (eexists; eassumption)). cbn [mbind pyres_bind py_assert Z.eqb].
  replace (L / G) with gs by (rewrite Egs, Z.div_mul; lia). replace (G / N) with gpn by (rewrite Egpn, Z.div_mul; lia).
  replace (P / K) with ppg by (rewrite Eppg, Z.div_mul; lia). replace (K / N) with kn by (rewrite Ekn, Z.div_mul; lia).
  replace (P / N) with (kn * ppg) by (rewrite Eppg, Ekn; replace (ppg * (kn * N)) with (kn * ppg * N) by lia; rewrite Z.div_mul; lia).
  replace (L / N) with (gpn * gs) by (rewrite Egs, Egpn; replace (gs * (gpn * N)) with (gpn * gs * N) by lia; rewrite Z.div_mul; lia).
  destruct (view_rows G gs weight ltac:(lia) ltac:(lia) ltac:(fold L; lia)) as [Lv _]. set (tpg := qsum <$> view G gs weight).
  assert (len tpg = G) as Etpg by (unfold tpg, len; rewrite length_fmap, Lv; lia).
  destruct (balanced_packing_ok tpg N HN) as (idx & rk & -> & Hslots & _); [rewrite Etpg; by exists gpn|]. cbn [mbind pyres_bind].
  rewrite Etpg in Hslots. replace (G / N) with gpn in Hslots by (rewrite Egpn, Z.div_mul; lia).
  set (log2mlog := zip_with _ idx rk ≫= _).
  assert (log2mlog ≡ₚ arange 0 L) as Hlm.
  { assert (log2mlog = zip_with (fun p r => p * gpn + r) idx rk ≫= fun s => Z.add (s * gs) <$> arange 0 gs) as ->.
    { unfold log2mlog. clear. revert rk. induction idx as [|i idx IH]; intros [|r rk]; try done. cbn [zip_with mbind list_bind]. by rewrite <-IH. }
    replace L with (G * gs) by lia. apply blocks_perm; [lia|lia|done]. }
  destruct (inverse_ok torch_garbage Hgarbage L log2mlog ltac:(lia) Hlm) as (mlog2log & -> & Hml & Hinv). cbn [mbind pyres_bind].
  pose proof Hml as (Elm & _ & Hrm)%range_perm; [|lia].
  destruct (gather_total weight mlog2log) as (tpm & -> & Ftpm); [done|]. cbn [mbind pyres_bind]. pose proof (gathered _ _ _ Ftpm) as [Ltpm _].
  assert (Forall (fun w => 0 <= w)%Q tpm) as Hpos'.
  { apply Forall_lookup. intros k x Hx. destruct (Forall2_lookup_r _ _ _ _ _ Ftpm Hx) as (i & _ & Hi). by eapply (Forall_lookup_1 _ _ _ _ Hpos). }
  destruct (view_rows N (gpn * gs) tpm) as [Lrows Hrows]; [lia|nia|unfold len in *; lia|].
  destruct (mapM_ok (fun tokens => place_on_node torch_garbage tokens (kn * ppg) kn ppg) (replicas (gpn * gs) (kn * ppg)) (view N (gpn * gs) tpm))
    as (nodes & -> & Hnodes & Lnodes).
  { eapply Forall_impl; [exact Hrows|]. intros row [Er Hin]. destruct (place_on_node_ok row (kn * ppg) kn ppg) as (st & E & R); try lia.
    - intros ->. change (len []) with 0 in Er. nia.
    - eapply Forall_impl; [exact Hin|]. intros x Hx. by apply (proj1 (Forall_forall _ _) Hpos').
    - rewrite Er. nia.
    - exists st. split; [done|]. by rewrite <-Er. }
  cbn [mbind pyres_bind]. assert (len nodes = N) as En by (unfold len; lia).
  destruct (joined_ok nodes (gpn * gs) (kn * ppg) ltac:(nia) ltac:(nia) Hnodes) as [Hj Hon]. rewrite En in Hj.
  replace (N * (gpn * gs)) with L in Hj by lia. replace (N * (kn * ppg)) with P in Hj by lia.
  destruct (replicas_rename L P _ log2mlog mlog2log ltac:(lia) Hj Hlm Hml Hinv) as (phy & cnt & E1 & E2 & R). simpl in E1, E2.
  rewrite E1. cbn [mbind pyres_bind]. rewrite E2. cbn [mbind pyres_bind mret pyres_ret]. eexists. split; [reflexivity|]. split; [exact R|]. simpl.
  intros p q e Hp Hq. apply gather_inv in E1.
  destruct (Forall2_lookup_r _ _ _ _ _ E1 Hp) as (a & Ha & Ha0 & Ea). destruct (Forall2_lookup_r _ _ _ _ _ E1 Hq) as (b & Hb & Hb0 & Eb).
  pose proof Hml as (_ & Hnd & _)%range_perm; [|lia]. pose proof (NoDup_lookup _ _ _ _ Hnd Ea Eb). assert (a = b) as -> by lia.
  by rewrite <-(Hon _ _ Ha), <-(Hon _ _ Hb).
Qed.

End place.

(** ** The maps of all layers *)

(** [log2phy] lists for every logical expert exactly its replicas, once each,
    followed by -1. *)
Record placement (L P : Z) (phy : list Z) (log2phy : list (list Z)) (cnt : list Z) : Prop := mk_placement {
  pm_phy : len phy = P;
  pm_log : len log2phy = L;
  pm_cnt : len cnt = L ∧ Forall (Z.le 1) cnt;
  pm_in : Forall (fun e => 0 ≤ e < L) phy;
  pm_rows : ∀ e row c, log2phy !! e = Some row → cnt !! e = Some c →
    ∃ ps, row = ps ++ replicate (length row - length ps) (-1) ∧ len ps = c ∧ NoDup ps ∧
      ∀ x, x ∈ ps ↔ 0 ≤ x ∧ phy !! Z.to_nat x = Some (Z.of_nat e);
}.

Lemma max_of_ok l : l ≠ [] → ∃ m, max_of l = Ok m ∧ Forall (fun x => x ≤ m) l.
Proof.
  destruct l as [|x l]; [done|]. intros _. eexists. split; [reflexivity|].
  assert (∀ l x, x ≤ foldl Z.max x l ∧ Forall (fun y => y ≤ foldl Z.max x l) l) as Hf.
  { clear. induction l as [|y l IH]; intros x; cbn [foldl]; [split; [lia|constructor]|]. destruct (IH (Z.max x y)) as [I1 I2].
    split; [lia|]. constructor; [lia|done]. }
  destruct (Hf l x). by constructor.
Qed.

Lemma view_lookup {A} k n (l : list A) e row r : 0 ≤ n → view k n l !! e = Some row → (r < Z.to_nat n)%nat →
  (e < Z.to_nat k)%nat ∧ row !! r = l !! (e * Z.to_nat n + r)%nat.
Proof.
  intros Hn. unfold view. rewrite list_lookup_fmap. intros (i & [-> Hi]%lookup_seq & ->)%fmap_Some Hr. split; [lia|].
  rewrite lookup_take_lt by done. rewrite lookup_drop. done.
Qed.

Lemma log2phy_ok L P st m : 0 < L → 0 ≤ P → replicas L P st → Forall (fun c => c ≤ m) (logcnt st) →
  ∃ l, scatter_ (replicate (Z.to_nat (L * m)) (-1)) (zip_with (fun e r => e * m + r) (phy2log st) (replica_rank st)) (arange 0 P) = Ok l ∧
    placement L P (phy2log st) (view L m l) (logcnt st).
Proof.
  intros HL HP [R1 R2 R3 R4 R5 R6 R7] Hm. set (idx := zip_with _ _ _).
  assert (1 ≤ m) as Hm1.
  { destruct (lookup_lt_is_Some_2 (logcnt st) 0) as [c Hc]; [unfold len in *; lia|].
    pose proof (Forall_lookup_1 _ _ _ _ Hm Hc). pose proof (Forall_lookup_1 _ _ _ _ R4 Hc). simpl in *. lia. }
  assert (length idx = length (phy2log st)) as Li by (unfold idx; rewrite length_zip_with; unfold len in *; lia).
  assert (∀ p z, idx !! p = Some z → ∃ e r c, z = e * m + r ∧ phy2log st !! p = Some e ∧ replica_rank st !! p = Some r ∧
    logcnt st !! Z.to_nat e = Some c ∧ 0 ≤ e < L ∧ 0 ≤ r < c ∧ c ≤ m) as Hidx.
  { intros p z (e & r & -> & He & Hr)%lookup_zip_with_Some. destruct (R5 p e r He Hr) as (He0 & c & Hc & Hrc). exists e, r, c.
    pose proof (lookup_range _ _ _ Hc). pose proof (Forall_lookup_1 _ _ _ _ Hm Hc). simpl in *. split_and!; done || lia. }
  destruct (scatter_total idx (arange 0 P) (replicate (Z.to_nat (L * m)) (-1))) as (l & E & El & Hin & Hout).
  { apply NoDup_alt. intros p q z Hp Hq. destruct (Hidx p z Hp) as (e & r & c & -> & E1 & E2 & E3 & B1 & B2 & B3).
    destruct (Hidx q _ Hq) as (e' & r' & c' & Ez & E1' & E2' & E3' & B1' & B2' & B3').
    destruct (slot_inj m e e' r r') as [<- <-]; [lia..|]. by eapply R6. }
  { apply Forall_lookup. intros p z Hp. destruct (Hidx p z Hp) as (e & r & c & -> & _ & _ & _ & B1 & B2 & B3). unfold len. rewrite length_replicate. nia. }
  { rewrite Li. pose proof (len_arange 0 P). unfold len in *. lia. }
  exists l. split; [done|]. rewrite length_replicate in El.
  assert (∀ p z, idx !! p = Some z → l !! Z.to_nat z = Some (Z.of_nat p)) as Hl.
  { intros p z Hp. apply (Hin p z _ Hp). unfold arange. apply lookup_seqZ. apply lookup_lt_Some in Hp. unfold len in *. lia. }
  destruct (view_rows L m l) as [Lv Hv]; [lia|lia|unfold len; rewrite El; lia|].
  split; try done; [unfold len; lia| |].
  { apply Forall_lookup. intros p e He. destruct (lookup_lt_is_Some_2 (replica_rank st) p) as [r Hr]; [apply lookup_lt_Some in He; unfold len in *; lia|].
    destruct (R5 p e r He Hr) as (He0 & c & Hc%lookup_range & _). lia. }
  intros e row c He Hc. destruct (Forall_lookup_1 _ _ _ _ Hv He) as [Er _]. pose proof (Forall_lookup_1 _ _ _ _ Hm Hc) as Hcm.
  pose proof (Forall_lookup_1 _ _ _ _ R4 Hc) as Hc1. simpl in Hcm.
  assert (∀ r, (r < Z.to_nat m)%nat → (e < Z.to_nat L)%nat ∧ row !! r = l !! (e * Z.to_nat m + r)%nat) as Hrow by (intros r Hr; eapply view_lookup; [|done|done]; lia).
  assert (∀ r, 0 ≤ r < c → ∃ p, phy2log st !! p = Some (Z.of_nat e) ∧ replica_rank st !! p = Some r ∧ row !! Z.to_nat r = Some (Z.of_nat p)) as Hfull.
  { intros r Hr. destruct (R7 e c r Hc Hr) as (p & E1 & E2). exists p. split; [done|]. split; [done|].
    destruct (Hrow (Z.to_nat r)) as [_ ->]; [lia|]. rewrite <-(Hl p (Z.of_nat e * m + r)); [f_equal; nia|]. unfold idx. by rewrite lookup_zip_with, E1, E2. }
  assert (∀ r, (Z.to_nat c ≤ r < Z.to_nat m)%nat → row !! r = Some (-1)) as Hempty.
  { intros r Hr. destruct (Hrow r) as [He' ->]; [lia|]. rewrite Hout.
    - apply lookup_replicate. split; [done|]. nia.
    - intros (p & Hp)%list_elem_of_lookup. destruct (Hidx p _ Hp) as (e' & r' & c' & Ez & _ & _ & E3 & B1 & B2 & B3).
      destruct (slot_inj m e' (Z.of_nat e) r' (Z.of_nat r)) as [-> ->]; [lia|lia|nia|]. rewrite Nat2Z.id in E3. simplify_eq. lia. }
  exists (take (Z.to_nat c) row). unfold len in Er. assert (length (take (Z.to_nat c) row) = Z.to_nat c) as Lt by (rewrite length_take; lia).
  split; [|split; [unfold len; lia|split]].
  - rewrite <-(take_drop (Z.to_nat c) row) at 1. f_equal. rewrite Lt. apply list_eq. intros i. rewrite lookup_drop.
    destruct (decide (i < length row - Z.to_nat c)%nat).
    + rewrite Hempty by lia. symmetry. by apply lookup_replicate.
    + rewrite (lookup_ge_None_2 row) by lia. symmetry. apply lookup_ge_None_2. rewrite length_replicate. lia.
  - apply NoDup_alt. intros a b x [Ha Hac]%lookup_take_Some [Hb Hbc]%lookup_take_Some.
    destruct (Hfull (Z.of_nat a)) as (p & _ & Ep & Ea); [lia|]. destruct (Hfull (Z.of_nat b)) as (q & _ & Eq & Eb); [lia|].
    rewrite Nat2Z.id in Ea, Eb. rewrite Ha in Ea. rewrite Hb in Eb. injection Ea as ->. injection Eb as Epq. apply Nat2Z.inj in Epq as ->.
    rewrite Ep in Eq. injection Eq. lia.
  - intros x. split.
    + intros (a & [Ha Hac]%lookup_take_Some)%list_elem_of_lookup. destruct (Hfull (Z.of_nat a)) as (p & E1 & _ & Ea); [lia|].
      rewrite Nat2Z.id in Ea. simplify_eq. split; [lia|]. by rewrite Nat2Z.id.
    + intros [Hx Ep]. destruct (lookup_lt_is_Some_2 (replica_rank st) (Z.to_nat x)) as [r Hr]; [apply lookup_lt_Some in Ep; unfold len in *; lia|].
      destruct (R5 _ _ _ Ep Hr) as (_ & c' & Hc' & Hrc). rewrite Nat2Z.id, Hc in Hc'. injection Hc' as <-.
      destruct (Hfull r Hrc) as (p & E1 & E2 & Ea). assert (p = Z.to_nat x) as -> by (by eapply R6). apply list_elem_of_lookup. exists (Z.to_nat r).
      apply lookup_take_Some. rewrite Ea. split; [f_equal; lia|lia].
Qed.

Section rebalance.
Context `{TorchOrder} (torch_garbage : nat → list Z) (Hgarbage : ∀ n, length (torch_garbage n) = n).

(** One node for all when the policy is global. *)
Definition policy_sizes (hierarchical : bool) (L P G N K : Z) : Prop := if hierarchical then sizes L P G N K else sizes L P 1 1 K.

(** The replicas of an expert are on one node. *)
Definition same_node (P N : Z) (phy : list Z) : Prop :=
  ∀ p q e, phy !! p = Some e → phy !! q = Some e → Z.of_nat p / (P / N) = Z.of_nat q / (P / N).

Lemma rebalance_layers weight L P G N K (hierarchical : bool) :
  policy_sizes hierarchical L P G N K → Forall (fun w => len w = L ∧ Forall (fun x => 0 <= x)%Q w) weight →
  ∃ layers, mapM (fun w => if hierarchical then rebalance_experts_hierarchical torch_garbage w P G N K
      else rebalance_experts_hierarchical torch_garbage w P 1 1 K) weight = Ok layers ∧
    Forall (fun st => replicas L P st ∧ (hierarchical = true → same_node P N (phy2log st))) layers ∧ length layers = length weight.
Proof using Hgarbage.
  intros Hsz Hw. apply mapM_ok. eapply Forall_impl; [exact Hw|]. intros w [El Hpos].
  destruct hierarchical; simpl in Hsz; rewrite <-El in Hsz |- *;
    destruct (hierarchical_ok torch_garbage Hgarbage w _ _ _ _ Hsz Hpos) as (st & E & R & Hon); exists st; (split; [done|]); split; done.
Qed.

Lemma rebalance_experts_ok weight L P G N K (hierarchical : bool) :
  weight ≠ [] → policy_sizes hierarchical L P G N K → Forall (fun w => len w = L ∧ Forall (fun x => 0 <= x)%Q w) weight →
  ∃ phy log cnt, rebalance_experts torch_garbage weight P G N K hierarchical = Ok (phy, log, cnt) ∧
    length phy = length weight ∧
    ∀ i a, phy !! i = Some a → ∃ b c, log !! i = Some b ∧ cnt !! i = Some c ∧ placement L P a b c ∧ (hierarchical = true → same_node P N a).
Proof using Hgarbage.
  intros Hne Hsz Hw. unfold rebalance_experts.
  assert (0 < L ∧ 0 ≤ P) as [HL HP] by (destruct hierarchical, Hsz as [Hs _ _ _]; lia).
  destruct (rebalance_layers weight L P G N K hierarchical Hsz Hw) as (layers & -> & Hl & Ll). cbn [mbind pyres_bind].
  destruct (max_of_ok (layers ≫= logcnt)) as (m & -> & Hm).
  { destruct layers as [|st layers]; [by destruct weight|]. apply Forall_cons in Hl as [[[_ _ R3 _ _ _ _] _] _]. cbn [mbind list_bind].
    destruct (logcnt st); [|done]. change (len []) with 0 in R3. lia. }
  cbn [mbind pyres_bind].
  set (f := fun st => _ ← scatter_ (replicate (Z.to_nat (len (logcnt st) * m)) (-1)) _ _; _).
  assert (∃ logs, mapM f layers = Ok logs ∧ Forall2 (fun st log => placement L P (phy2log st) log (logcnt st)) layers logs) as (logs & -> & Flogs).
  { assert (Forall (fun st => replicas L P st ∧ Forall (fun c => c ≤ m) (logcnt st)) layers) as Hall.
    { apply Forall_forall. intros st Hst. split; [by apply (proj1 (Forall_forall _ _) Hl)|]. apply Forall_forall. intros c Hc.
      apply (proj1 (Forall_forall _ _) Hm). apply list_elem_of_bind. by exists st. }
    clear -Hall HL HP. induction Hall as [|st layers [R Hc] _ (logs & E & F)]; [by exists []|].
    destruct (log2phy_ok L P st m HL HP R Hc) as (l & El & Pl). exists (view L m l :: logs). cbn [mapM].
    assert (f st = Ok (view L m l)) as -> by (unfold f; by rewrite (rp_log _ _ _ R), El). cbn [mbind pyres_bind]. rewrite E. split; [done|]. by constructor. }
  cbn [mbind pyres_bind mret pyres_ret]. eexists _, _, _. split; [reflexivity|]. rewrite length_fmap. split; [done|].
  intros i a (st & -> & Hst)%list_lookup_fmap_Some. destruct (Forall2_lookup_l _ _ _ _ _ Flogs Hst) as (log & Hlog & Hp).
  exists log, (logcnt st). split; [done|]. split; [by rewrite list_lookup_fmap, Hst|]. split; [done|]. by apply (Forall_lookup_1 _ _ _ _ Hl Hst).
Qed.

(** C15: the expert placement is consistent.  If the sizes divide as the code
    asserts and there are at least as many physical as logical experts,
    [rebalance_experts] returns for every load.  In every layer the physical
    experts are all assigned to logical ones; each logical expert has at least
    one replica, [logcnt] of them, and its row of the map to physical experts
    lists exactly these, once each, followed by -1.  The hierarchical policy
    puts all replicas of an expert on one node. *)
Theorem rebalance_experts_consistent weight L P G N K (hierarchical : bool) :
  weight ≠ [] → policy_sizes hierarchical L P G N K → Forall (fun w => len w = L ∧ Forall (fun x => 0 <= x)%Q w) weight →
  ∃ phy log cnt, rebalance_experts torch_garbage weight P G N K hierarchical = Ok (phy, log, cnt) ∧
    length phy = length weight ∧
    ∀ i a, phy !! i = Some a → ∃ b c, log !! i = Some b ∧ cnt !! i = Some c ∧ placement L P a b c ∧ (hierarchical = true → same_node P N a).
Proof using Hgarbage. apply rebalance_experts_ok. Qed.

End rebalance.

(** ** The instance *)

Lemma insert_desc_perm l i s : insert_desc l i s ≡ₚ i :: s.
Proof. induction s as [|j s IH]; [done|]. cbn [insert_desc]. destruct (Qle_bool _ _); [|done]. rewrite IH. apply Permutation_swap. Qed.

Lemma insert_desc_sorted l i s : StronglySorted (fun x y => (l !!! Z.to_nat y <= l !!! Z.to_nat x)%Q) s →
  StronglySorted (fun x y => (l !!! Z.to_nat y <= l !!! Z.to_nat x)%Q) (insert_desc l i s).
Proof.
  induction 1 as [|j s Hs IH Hj]; cbn [insert_desc]; [by repeat constructor|]. destruct (Qle_bool _ _) eqn:E.
  - apply Qle_bool_iff in E. constructor; [done|]. rewrite insert_desc_perm. by constructor.
  - assert (l !!! Z.to_nat j <= l !!! Z.to_nat i)%Q as Hle.
    { apply Qnot_lt_le. intros Hlt. apply Qlt_le_weak, Qle_bool_iff in Hlt. congruence. }
    constructor; [by constructor|]. constructor; [done|]. eapply Forall_impl; [exact Hj|]. intros k Hk. simpl in *. by eapply Qle_trans.
Qed.

Lemma stable_argsort_ok l : stable_argsort l ≡ₚ arange 0 (len l) ∧ StronglySorted (fun x y => (l !!! Z.to_nat y <= l !!! Z.to_nat x)%Q) (stable_argsort l).
Proof.
  unfold stable_argsort. generalize (arange 0 (len l)) as k. intros k.
  assert (∀ k s, StronglySorted (fun x y => (l !!! Z.to_nat y <= l !!! Z.to_nat x)%Q) s →
    foldl (fun s i => insert_desc l i s) s k ≡ₚ s ++ k ∧ StronglySorted (fun x y => (l !!! Z.to_nat y <= l !!! Z.to_nat x)%Q) (foldl (fun s i => insert_desc l i s) s k)) as Hf.
  { clear k. induction k as [|i k IH]; intros s Hs; cbn [foldl]; [by rewrite app_nil_r|]. destruct (IH (insert_desc l i s)) as [I1 I2]; [by apply insert_desc_sorted|].
    split; [|done]. rewrite I1, insert_desc_perm. apply Permutation_middle. }
  destruct (Hf k []) as [? ?]; [constructor|]. done.
Qed.

Lemma first_argmax_ok l : l ≠ [] → 0 ≤ first_argmax l < len l ∧ ∀ x, x ∈ l → (x <= l !!! Z.to_nat (first_argmax l))%Q.
Proof.
  intros Hne. assert (0 < len l) as H0 by (destruct l; [done|rewrite len_cons; len_pos; lia]).
  unfold first_argmax. set (f := fun m i => if Qle_bool (l !!! Z.to_nat i) (l !!! Z.to_nat m) then m else i).
  assert (∀ k m, (foldl f m k = m ∨ foldl f m k ∈ k) ∧ (l !!! Z.to_nat m <= l !!! Z.to_nat (foldl f m k))%Q ∧
    ∀ i, i ∈ k → (l !!! Z.to_nat i <= l !!! Z.to_nat (foldl f m k))%Q) as Hf.
  { clear. induction k as [|i k IH]; intros m; cbn [foldl]; [split; [by left|]; split; [apply Qle_refl|by intros i Hi%elem_of_nil]|].
    destruct (IH (f m i)) as (I1 & I2 & I3).
    assert ((f m i = m ∨ f m i = i) ∧ (l !!! Z.to_nat m <= l !!! Z.to_nat (f m i))%Q ∧ (l !!! Z.to_nat i <= l !!! Z.to_nat (f m i))%Q) as (F1 & F2 & F3).
    { unfold f. destruct (Qle_bool _ _) eqn:E; [apply Qle_bool_iff in E; split; [by left|]; split; [apply Qle_refl|done]|].
      split; [by right|]. assert (l !!! Z.to_nat m <= l !!! Z.to_nat i)%Q; [|split; [done|apply Qle_refl]].
      apply Qnot_lt_le. intros Hlt. apply Qlt_le_weak, Qle_bool_iff in Hlt. congruence. }
    split; [|split].
    - destruct I1 as [E|E]; [|right; by apply list_elem_of_further]. rewrite E. destruct F1 as [->| ->]; [by left|right; apply list_elem_of_here].
    - eapply Qle_trans; [exact F2|done].
    - intros j [->|Hj]%elem_of_cons; [eapply Qle_trans; [exact F3|done]|by apply I3]. }
  destruct (Hf (arange 0 (len l)) 0) as (H1 & H2 & H3). split.
  - destruct H1 as [->|H1%elem_of_arange]; lia.
  - intros x (j & Hj)%list_elem_of_lookup. pose proof (lookup_range _ _ _ Hj) as Hr. specialize (H3 (Z.of_nat j)). rewrite Nat2Z.id in H3.
    rewrite <-(list_lookup_total_correct _ _ _ Hj). apply H3, elem_of_arange. lia.
Qed.

#[refine] Instance stable_order : TorchOrder := {| argsort := stable_argsort; argmax := first_argmax |}.
Proof.
  - intros l. apply stable_argsort_ok.
  - intros l i j x y Hij Hx Hy. destruct (stable_argsort_ok l) as [_ Hs]. revert i j Hij Hx Hy.
    induction Hs as [|z s Hs IH Hz]; intros i j Hij Hx Hy; [done|]. destruct j as [|j]; [lia|]. simpl in Hy. destruct i as [|i]; simpl in Hx.
    + injection Hx as <-. exact (Forall_lookup_1 _ _ _ _ Hz Hy).
    + apply (IH i j); [lia|done|done].
  - intros l Hl. by apply first_argmax_ok.
  - intros l x Hx. apply first_argmax_ok; [|done]. intros ->. by apply elem_of_nil in Hx.
Defined.

(** ** Witnesses *)

Lemma replicate_experts_optimal_witness :
  ∃ st, replicate_experts [9; 2; 4]%Q 5 = Ok st ∧ replicas 3 5 st.
Proof.
  destruct (replicate_experts_optimal [9; 2; 4]%Q 5) as (st & E & R & _).
  - discriminate.
  - vm_compute. discriminate.
  - repeat match goal with |- Forall _ _ => constructor end; vm_compute; discriminate.
  - exists st. split; [exact E|exact R].
Defined.

(** Two layers with eight experts in four groups, on two nodes with two GPUs
    each and twelve places. *)
Lemma rebalance_experts_consistent_witness :
  ∃ phy log cnt, rebalance_experts (fun n => replicate n 0) [[90; 132; 40; 61; 104; 165; 39; 4]; [20; 107; 104; 64; 19; 197; 187; 157]]%Q 12 4 2 4 true
    = Ok (phy, log, cnt) ∧ length phy = 2%nat.
Proof.
  destruct (rebalance_experts_consistent (fun n => replicate n 0) (fun n => length_replicate n 0)
    [[90; 132; 40; 61; 104; 165; 39; 4]; [20; 107; 104; 64; 19; 197; 187; 157]]%Q 8 12 4 2 4 true) as (phy & log & cnt & E & El & _).
  - discriminate.
  - split; [lia|split; [lia|by exists 2]|split; [lia|split; by exists 2]|split; [lia|by exists 3]].
  - repeat match goal with |- Forall _ _ => constructor end; (split; [reflexivity|]);
      repeat match goal with |- Forall _ _ => constructor end; vm_compute; discriminate.
  - exists phy, log, cnt. split; [exact E|exact El].
Defined.

(** Twelve experts in four groups on two nodes with four GPUs each. *)
Example rebalance_example :
  rebalance_experts (fun n => replicate n 0) [[90; 132; 40; 61; 104; 165; 39; 4; 73; 56; 183; 86]]%Q 16 4 2 8 true
  = Ok ([[5; 6; 5; 7; 8; 4; 3; 4; 10; 9; 10; 2; 0; 1; 11; 1]],
        [[[12; -1]; [15; 13]; [11; -1]; [6; -1]; [7; 5]; [0; 2]; [1; -1]; [3; -1]; [4; -1]; [9; -1]; [8; 10]; [14; -1]]],
        [[1; 2; 1; 1; 2; 2; 1; 1; 1; 1; 2; 1]]).
Proof. vm_compute. reflexivity. Qed.

(** The packing is greedy: here the packs weigh 7 and 5, and 6 and 6 is
    possible with three objects each (3, 3, 0 and 2, 2, 2). *)
Example balanced_packing_greedy : balanced_packing [3; 3; 2; 2; 2; 0]%Q 2 = Ok ([0; 1; 0; 1; 0; 1], [0; 0; 1; 1; 2; 2]).
Proof. vm_compute. reflexivity. Qed.
