(* ===== verification/ExpertLocation.v ===== *)
(** * Where the experts are

    Models [srt/eplb/expert_location.py] (the maps between logical and physical
    experts, and their update layer by layer) and
    [srt/eplb/expert_location_dispatch.py] (the physical expert that a token is
    sent to).  The copies of the maps on the CPU are the maps.  [random.Random]
    is a state [R] with its [sample] and [shuffle]. *)

From Stdlib Require Import QArith.
From S2P Require Import Prelude Eplb EplbProofs.
Open Scope Z_scope.

(** [l[i]] of a list or a tensor, where a negative index counts from the end. *)
Definition wrap_index {A} (l : list A) (i : Z) : Z := if i <? 0 then i + len l else i.
Definition py_index {A} (l : list A) (i : Z) : pyres A := get_at l (wrap_index l i).

(** ** Construction *)

(** [_logical_to_all_physical_raw] for one expert of one layer. *)
Definition _logical_to_all_physical_raw (row : list Z) : list Z := filter (fun p => p ≠ -1) row.

(** [_compute_logical_to_all_physical_map] before padding, for one layer. *)
Definition append_physical (m : list (list Z)) (pe : Z * Z) : pyres (list (list Z)) :=
  l ← py_index m pe.2; mret (set_at (wrap_index m pe.2) (l ++ [pe.1]) m).
Definition collect_physical (num_logical_experts : Z) (phy : list Z) : pyres (list (list Z)) :=
  foldl (fun acc pe => m ← acc; append_physical m pe)
    (mret (replicate (Z.to_nat num_logical_experts) [])) (zip (arange 0 (len phy)) phy).

(** [max(len(inner) for outer in arr for inner in outer)] raises for no inner
    list. *)
Definition _pad_nested_array (arr : list (list (list Z))) (pad_value : Z) : pyres (list (list (list Z))) :=
  match concat arr with
  | [] => Raise ValueError
  | inners =>
      let max_len := foldr Nat.max 0%nat (length <$> inners) in
      mret (fmap (M := list) (fun inner => inner ++ replicate (max_len - length inner) pad_value) <$> arr)
  end.

Definition _compute_logical_to_all_physical_map (physical_to_logical_map : list (list Z)) (num_logical_experts : Z) :
    pyres (list (list (list Z))) :=
  arr ← mapM (collect_physical num_logical_experts) physical_to_logical_map;
  _pad_nested_array arr (-1).

Section location.
Context {R : Type} (sample : R → list Z → Z → list Z * R) (shuffle : R → list Z → list Z * R).

Definition _fair_choices (arr : list Z) (k : Z) (r : R) : pyres (list Z * R) :=
  if len arr =? 0 then Raise ZeroDivisionError else
  let '(some, r) := sample r arr (k mod len arr) in
  mret (shuffle r (concat (replicate (Z.to_nat (k / len arr)) arr) ++ some)).

Definition _compute_gpu_id_of_physical_expert (p num_local_physical_experts : Z) : Z := p / num_local_physical_experts.

(** [out[out == -1] = choices] *)
Fixpoint fill_missing (out choices : list Z) : list Z :=
  match out with
  | [] => []
  | x :: out => if x =? -1 then match choices with c :: choices => c :: fill_missing out choices | [] => x :: out end
                else x :: fill_missing out choices
  end.

(** The physical expert that each GPU uses, for one expert of one layer: one of
    its own if there is one. *)
Definition own_replica (num_local : Z) (candidates : list Z) (gpu : Z) : Z :=
  default (-1) (head (filter (fun p => _compute_gpu_id_of_physical_expert p num_local = gpu) candidates)).

(** Without a physical expert for each GPU, [_compute_gpu_id_of_physical_expert]
    or, if there is no candidate, [_fair_choices] divides by zero. *)
Definition dispatch_expert (num_gpus num_local : Z) (row : list Z) (r : R) : pyres (list Z * R) :=
  if num_local =? 0 then Raise ZeroDivisionError else
  let candidates := _logical_to_all_physical_raw row in
  let out := own_replica num_local candidates <$> arange 0 num_gpus in
  '(choices, r) ← _fair_choices candidates (len (filter (fun x => x = -1) out)) r;
  mret (fill_missing out choices, r).

(** The loops over the layers and the experts. *)
Fixpoint dispatch_rows (num_gpus num_local : Z) (rows : list (list Z)) (r : R) : pyres (list (list Z) * R) :=
  match rows with
  | [] => mret ([], r)
  | row :: rows =>
      '(out, r) ← dispatch_expert num_gpus num_local row r;
      '(outs, r) ← dispatch_rows num_gpus num_local rows r;
      mret (out :: outs, r)
  end.
Fixpoint dispatch_layers (num_gpus num_local : Z) (layers : list (list (list Z))) (r : R) : pyres (list (list (list Z)) * R) :=
  match layers with
  | [] => mret ([], r)
  | rows :: layers =>
      '(outs, r) ← dispatch_rows num_gpus num_local rows r;
      '(rest, r) ← dispatch_layers num_gpus num_local layers r;
      mret (outs :: rest, r)
  end.

(** The result for [ep_rank]; [r] is [random.Random(seed)]. *)
Definition compute_logical_to_rank_dispatch_physical_map (logical_to_all_physical_map : list (list (list Z)))
    (num_gpus num_physical_experts ep_rank : Z) (r : R) : pyres (list (list Z)) :=
  if num_gpus =? 0 then Raise ZeroDivisionError else
  let num_local_physical_experts := num_physical_experts / num_gpus in
  '(out, _) ← dispatch_layers num_gpus num_local_physical_experts logical_to_all_physical_map r;
  py_assert (forallb (forallb (forallb (fun x => negb (x =? -1)))) out) ;;
  mapM (mapM (fun per_gpu => py_index per_gpu ep_rank)) out.

(** ** The metadata *)

Record ExpertLocationMetadata := mkLocation {
  physical_to_logical_map : list (list Z);
  logical_to_all_physical_map : list (list (list Z));
  logical_to_all_physical_map_num_valid : list (list Z);
  logical_to_rank_dispatch_physical_map : option (list (list Z));
}.

Definition static_dispatch (static : bool) (ep_size ep_rank num_physical_experts : Z) (log : list (list (list Z))) (r : R) :
    pyres (option (list (list Z))) :=
  if static then m ← compute_logical_to_rank_dispatch_physical_map log ep_size num_physical_experts ep_rank r; mret (Some m) else mret None.

(** [static] is [ep_dispatch_algorithm == "static"]; [num_physical_experts] is
    the width of the map.  [F.pad] with a negative width cuts.  The assertion is
    that of [__post_init__]; the other dimensions agree by construction. *)
Definition _init_raw (static : bool) (ep_size ep_rank num_physical_experts : Z) (phy : list (list Z)) (log : list (list (list Z))) (r : R) :
    pyres ExpertLocationMetadata :=
  let pad row := take (Z.to_nat num_physical_experts) (row ++ replicate (Z.to_nat num_physical_experts - length row) (-1)) in
  dispatch ← static_dispatch static ep_size ep_rank num_physical_experts log r;
  py_assert (len phy =? len log) ;;
  mret (mkLocation phy (fmap (M := list) pad <$> log) (fmap (M := list) (fun row => len (filter (fun p => p ≠ -1) row)) <$> log) dispatch).

(** The layers of [update_layer_ids] are taken from [other], of the same shape. *)
Definition where_layer {A} (ids : list Z) (other self : list A) : list A :=
  imap (fun i x => if bool_decide (Z.of_nat i ∈ ids) then default x (other !! i) else x) self.

Definition update (self other : ExpertLocationMetadata) (ids : list Z) : pyres ExpertLocationMetadata :=
  py_assert (eqb (bool_decide (is_Some (logical_to_rank_dispatch_physical_map other)))
                 (bool_decide (is_Some (logical_to_rank_dispatch_physical_map self)))) ;;
  mret (mkLocation (where_layer ids (physical_to_logical_map other) (physical_to_logical_map self))
    (where_layer ids (logical_to_all_physical_map other) (logical_to_all_physical_map self))
    (where_layer ids (logical_to_all_physical_map_num_valid other) (logical_to_all_physical_map_num_valid self))
    (match logical_to_rank_dispatch_physical_map other, logical_to_rank_dispatch_physical_map self with
     | Some o, Some s => Some (where_layer ids o s)
     | _, s => s
     end)).

(** ** Dispatch *)

Record DispatchInfo := mkInfo {
  partial_logical_to_rank_dispatch_physical_map : option (list Z);
  partial_logical_to_all_physical_map : list (list Z);
  partial_logical_to_all_physical_map_num_valid : list Z;
}.

(** [ExpertLocationDispatchInfo.init_new] *)
Definition init_new (m : ExpertLocationMetadata) (layer_id : Z) : pyres DispatchInfo :=
  rank ← (match logical_to_rank_dispatch_physical_map m with Some d => row ← py_index d layer_id; mret (Some row) | None => mret None end);
  all ← py_index (logical_to_all_physical_map m) layer_id;
  valid ← py_index (logical_to_all_physical_map_num_valid m) layer_id;
  mret (mkInfo rank all valid).

Definition _topk_ids_logical_to_physical_static (topk_ids : list Z) (info : DispatchInfo) : pyres (list Z) :=
  match partial_logical_to_rank_dispatch_physical_map info with
  | Some m => mapM (py_index m) topk_ids
  | None => Raise TypeError
  end.

(** [randint] are the random numbers, one for each id. *)
Definition _topk_ids_logical_to_physical_dynamic (randint topk_ids : list Z) (info : DispatchInfo) : pyres (list Z) :=
  mapM (fun re : Z * Z =>
    n ← py_index (partial_logical_to_all_physical_map_num_valid info) re.2;
    i ← py_mod re.1 n;
    row ← py_index (partial_logical_to_all_physical_map info) re.2;
    py_index row i) (zip randint topk_ids).

End location.

(** ** Properties *)

Lemma py_index_ok {A} (l : list A) i x : 0 ≤ i → l !! Z.to_nat i = Some x → py_index l i = Ok x.
Proof. intros Hi Hx. unfold py_index, wrap_index. rewrite (proj2 (Z.ltb_ge i 0)) by lia. by apply get_at_ok. Qed.

(** *** Rows of the map *)

(** The replicas of an expert, then -1. *)
Definition listed (row ps : list Z) : Prop := ∃ n, row = ps ++ replicate n (-1) ∧ Forall (Z.le 0) ps.

Lemma listed_raw row ps : listed row ps → _logical_to_all_physical_raw row = ps.
Proof.
  intros (n & -> & Hp). unfold _logical_to_all_physical_raw. rewrite filter_app, (filter_none _ (replicate n (-1))), app_nil_r.
  - apply filter_all. intros x Hx. pose proof (proj1 (Forall_forall _ _) Hp x Hx). simpl in *. lia.
  - intros x [-> _]%elem_of_replicate. by intros [].
Qed.

Lemma own_replica_ok num_local ps g : Forall (Z.le 0) ps →
  (own_replica num_local ps g = -1 ∧ ∀ q, q ∈ ps → q / num_local ≠ g) ∨
  (own_replica num_local ps g ∈ ps ∧ own_replica num_local ps g / num_local = g).
Proof.
  intros Hp. unfold own_replica, _compute_gpu_id_of_physical_expert. destruct (filter _ ps) as [|p l] eqn:E; simpl.
  - left. split; [done|]. intros q Hq Eq. assert (q ∈ filter (fun p => p / num_local = g) ps) as Hin by (by apply list_elem_of_filter).
    rewrite E in Hin. by apply elem_of_nil in Hin.
  - right. assert (p ∈ filter (fun p => p / num_local = g) ps) as [Hg Hin]%list_elem_of_filter by (rewrite E; apply list_elem_of_here). done.
Qed.

Lemma fill_missing_ok out : ∀ choices, length choices = length (filter (fun x => x = -1) out) →
  length (fill_missing out choices) = length out ∧
  ∀ i x, out !! i = Some x → (x ≠ -1 ∧ fill_missing out choices !! i = Some x) ∨ (x = -1 ∧ ∃ c, c ∈ choices ∧ fill_missing out choices !! i = Some c).
Proof.
  induction out as [|x out IH]; intros choices Hl; cbn [fill_missing]; [done|]. rewrite filter_cons in Hl.
  destruct (Z.eqb_spec x (-1)) as [->|Hne]; [rewrite decide_True in Hl by done|rewrite decide_False in Hl by done].
  - destruct choices as [|c choices]; [done|]. injection Hl as Hl. destruct (IH choices Hl) as [I1 I2]. split; [simpl; by rewrite I1|].
    intros [|i] y Hy; simpl in Hy.
    + injection Hy as <-. right. split; [done|]. exists c. split; [apply list_elem_of_here|done].
    + destruct (I2 i y Hy) as [?|[-> (c' & Hc & E)]]; [by left|]. right. split; [done|]. exists c'. split; [by apply list_elem_of_further|done].
  - destruct (IH choices Hl) as [I1 I2]. split; [simpl; by rewrite I1|]. intros [|i] y Hy; simpl in Hy; [injection Hy as <-; by left|by apply I2].
Qed.

Section dispatch.
Context {R : Type} (sample : R → list Z → Z → list Z * R) (shuffle : R → list Z → list Z * R).
Context (Hsample : ∀ r l k, 0 ≤ k ≤ len l → len (sample r l k).1 = k ∧ Forall (fun x => x ∈ l) (sample r l k).1).
Context (Hshuffle : ∀ r l, (shuffle r l).1 ≡ₚ l).

Lemma fair_choices_ok ps k r : ps ≠ [] → 0 ≤ k →
  ∃ l r', _fair_choices sample shuffle ps k r = Ok (l, r') ∧ len l = k ∧ Forall (fun x => x ∈ ps) l.
Proof using Hsample Hshuffle.
  intros Hne Hk. assert (0 < len ps) as Hl by (destruct ps; [done|rewrite len_cons; len_pos; lia]). unfold _fair_choices.
  rewrite (proj2 (Z.eqb_neq (len ps) 0)) by lia. pose proof (Z.mod_pos_bound k (len ps) Hl) as Hm.
  destruct (Hsample r ps (k mod len ps)) as [Hs1 Hs2]; [lia|]. destruct (sample r ps (k mod len ps)) as [some r1]. simpl in Hs1, Hs2.
  set (all := concat _ ++ some). pose proof (Hshuffle r1 all) as Hp. destruct (shuffle r1 all) as [l r2] eqn:E. simpl in Hp.
  exists l, r2. split; [done|]. split.
  - rewrite (len_perm _ _ Hp). unfold all. rewrite len_app, Hs1.
    assert (∀ n, len (concat (replicate n ps)) = Z.of_nat n * len ps) as Hc.
    { induction n as [|n IH]; [done|]. cbn [replicate concat]. rewrite len_app, IH. lia. }
    rewrite Hc, Z2Nat.id by (apply Z.div_pos; lia). pose proof (Z.div_mod k (len ps)). lia.
  - rewrite Hp. unfold all. apply Forall_app. split; [|done]. generalize (Z.to_nat (k / len ps)) as n. intros n.
    induction n as [|n IH]; [constructor|]. cbn [replicate concat]. apply Forall_app. split; [by apply Forall_forall|done].
Qed.

(** Each GPU is sent to a replica, one of its own if there is one. *)
Definition dispatched (num_gpus num_local : Z) (ps out : list Z) : Prop :=
  len out = num_gpus ∧ ∀ g, 0 ≤ g < num_gpus → ∃ p, out !! Z.to_nat g = Some p ∧ p ∈ ps ∧ (∀ q, q ∈ ps → q / num_local = g → p / num_local = g).

Lemma dispatch_expert_ok num_gpus num_local row ps r : num_local ≠ 0 → 0 ≤ num_gpus → listed row ps → ps ≠ [] →
  ∃ out r', dispatch_expert sample shuffle num_gpus num_local row r = Ok (out, r') ∧ dispatched num_gpus num_local ps out.
Proof using Hsample Hshuffle.
  intros H0 Hg Hrow Hne. unfold dispatch_expert. rewrite (proj2 (Z.eqb_neq num_local 0) H0).
  rewrite (listed_raw row ps Hrow). destruct Hrow as (_ & _ & Hpos).
  set (out := own_replica num_local ps <$> arange 0 num_gpus).
  destruct (fair_choices_ok ps (len (filter (fun x => x = -1) out)) r Hne ltac:(len_pos; lia)) as (l & r' & -> & Ll & Hl). cbn [mbind pyres_bind mret pyres_ret].
  destruct (fill_missing_ok out l) as [F1 F2]; [unfold len in Ll; lia|]. eexists _, _. split; [reflexivity|].
  assert (len out = num_gpus) as Lo by (unfold out; rewrite len_fmap, len_arange; lia). split; [unfold len in *; lia|]. intros g Hgr.
  assert (out !! Z.to_nat g = Some (own_replica num_local ps g)) as Eg.
  { unfold out. rewrite list_lookup_fmap. assert (arange 0 num_gpus !! Z.to_nat g = Some g) as ->; [|done]. apply lookup_seqZ. lia. }
  destruct (own_replica_ok num_local ps g Hpos) as [[E Hno]|[Hin Hown]].
  - destruct (F2 _ _ Eg) as [[? _]|[_ (c & Hc & Ec)]]; [done|]. exists c. split; [done|].
    split; [by apply (proj1 (Forall_forall _ _) Hl)|]. intros q Hq Hqg. by destruct (Hno q Hq).
  - destruct (F2 _ _ Eg) as [[_ Ec]|[E _]]; [by eexists|]. rewrite E in Hin. pose proof (proj1 (Forall_forall _ _) Hpos _ Hin). simpl in *. lia.
Qed.

Lemma dispatch_rows_ok num_gpus num_local rows : ∀ r, num_local ≠ 0 → 0 ≤ num_gpus → Forall (fun row => ∃ ps, listed row ps ∧ ps ≠ []) rows →
  ∃ outs r', dispatch_rows sample shuffle num_gpus num_local rows r = Ok (outs, r') ∧
    Forall2 (fun row out => ∃ ps, listed row ps ∧ dispatched num_gpus num_local ps out) rows outs.
Proof using Hsample Hshuffle.
  induction rows as [|row rows IH]; intros r Hn Hg Hr; cbn [dispatch_rows]; [by exists [], r|]. apply Forall_cons in Hr as [(ps & Hl & Hne) Hr].
  destruct (dispatch_expert_ok num_gpus num_local row ps r Hn Hg Hl Hne) as (out & r1 & -> & Hd). cbn [mbind pyres_bind].
  destruct (IH r1 Hn Hg Hr) as (outs & r2 & -> & F). eexists _, _. split; [reflexivity|]. constructor; [by exists ps|done].
Qed.

Lemma dispatch_layers_ok num_gpus num_local layers : ∀ r, num_local ≠ 0 → 0 ≤ num_gpus → Forall (Forall (fun row => ∃ ps, listed row ps ∧ ps ≠ [])) layers →
  ∃ outs r', dispatch_layers sample shuffle num_gpus num_local layers r = Ok (outs, r') ∧
    Forall2 (Forall2 (fun row out => ∃ ps, listed row ps ∧ dispatched num_gpus num_local ps out)) layers outs.
Proof using Hsample Hshuffle.
  induction layers as [|rows layers IH]; intros r Hn Hg Hr; cbn [dispatch_layers]; [by exists [], r|]. apply Forall_cons in Hr as [H0 Hr].
  destruct (dispatch_rows_ok num_gpus num_local rows r Hn Hg H0) as (out & r1 & -> & Hd). cbn [mbind pyres_bind].
  destruct (IH r1 Hn Hg Hr) as (outs & r2 & -> & F). eexists _, _. split; [reflexivity|]. by constructor.
Qed.

Lemma rank_dispatch_ok layers num_gpus P ep_rank r : 0 ≤ ep_rank < num_gpus → P / num_gpus ≠ 0 → Forall (Forall (fun row => ∃ ps, listed row ps ∧ ps ≠ [])) layers →
  ∃ d, compute_logical_to_rank_dispatch_physical_map sample shuffle layers num_gpus P ep_rank r = Ok d ∧
    Forall2 (Forall2 (fun row p => ∃ ps, listed row ps ∧ p ∈ ps ∧
      ∀ q, q ∈ ps → q / (P / num_gpus) = ep_rank → p / (P / num_gpus) = ep_rank)) layers d.
Proof using Hsample Hshuffle.
  intros Hg Hn Hl. unfold compute_logical_to_rank_dispatch_physical_map. rewrite (proj2 (Z.eqb_neq num_gpus 0)) by lia.
  destruct (dispatch_layers_ok num_gpus (P / num_gpus) layers r Hn ltac:(lia) Hl) as (outs & r' & -> & F). cbn [mbind pyres_bind].
  assert (forallb (forallb (forallb (fun x => negb (x =? -1)))) outs = true) as ->.
  { apply forallb_forall. intros rows Hrows%list_elem_of_In. apply forallb_forall. intros out Hout%list_elem_of_In. apply forallb_forall. intros x Hx%list_elem_of_In.
    apply list_elem_of_lookup in Hrows as (i & Hi). destruct (Forall2_lookup_r _ _ _ _ _ F Hi) as (lay & _ & F').
    apply list_elem_of_lookup in Hout as (j & Hj). destruct (Forall2_lookup_r _ _ _ _ _ F' Hj) as (row & _ & ps & (n & -> & Hpos) & Hlen & Hd).
    apply list_elem_of_lookup in Hx as (k & Hk). destruct (Hd (Z.of_nat k)) as (p & Ep & Hp & _); [apply lookup_range in Hk; lia|].
    rewrite Nat2Z.id, Hk in Ep. injection Ep as ->. pose proof (proj1 (Forall_forall _ _) Hpos p Hp). simpl in *. apply negb_true_iff, Z.eqb_neq. lia. }
  cbn [py_assert mbind pyres_bind]. clear -F Hg. induction F as [|lay rows layers outs F0 _ (d & Ed & Fd)]; [by exists []|].
  assert (∃ d0, mapM (fun per_gpu => py_index per_gpu ep_rank) rows = Ok d0 ∧
    Forall2 (fun row p => ∃ ps, listed row ps ∧ p ∈ ps ∧ ∀ q, q ∈ ps → q / (P / num_gpus) = ep_rank → p / (P / num_gpus) = ep_rank) lay d0) as (d0 & E0 & Fd0).
  { induction F0 as [|row out lay rows (ps & Hl & Hlen & Hd) _ (d0 & E0 & Fd0)]; [by exists []|].
    destruct (Hd ep_rank Hg) as (p & Ep & Hp & Hown). exists (p :: d0). cbn [mapM]. rewrite (py_index_ok out ep_rank p) by (lia || done).
    cbn [mbind pyres_bind]. rewrite E0. split; [done|]. constructor; [by exists ps|done]. }
  exists (d0 :: d). cbn [mapM]. rewrite E0. cbn [mbind pyres_bind]. rewrite Ed. split; [done|by constructor].
Qed.

End dispatch.

(** *** The metadata *)

Section metadata.
Context (L P num_local ep_rank : Z).
Implicit Types (m : ExpertLocationMetadata).

(** One layer: every physical expert is a replica, every logical expert has replicas, the map lists exactly them,
    and the one chosen for this rank is among them, on this GPU if possible. *)
Record layer_ok (phy : list Z) (log : list (list Z)) (valid : list Z) (rank : option (list Z)) : Prop := mk_layer_ok {
  lo_phy : len phy = P ∧ Forall (fun e => 0 ≤ e < L) phy;
  lo_row : ∀ e, 0 ≤ e < L → ∃ row ps, log !! Z.to_nat e = Some row ∧ listed row ps ∧ ps ≠ [] ∧ valid !! Z.to_nat e = Some (len ps) ∧
    ∀ x, x ∈ ps ↔ 0 ≤ x ∧ phy !! Z.to_nat x = Some e;
  lo_rank : ∀ d, rank = Some d → ∀ e, 0 ≤ e < L → ∃ p, d !! Z.to_nat e = Some p ∧ 0 ≤ p ∧ phy !! Z.to_nat p = Some e ∧
    ∀ q, 0 ≤ q → phy !! Z.to_nat q = Some e → q / num_local = ep_rank → p / num_local = ep_rank;
}.

Definition layer_at m (i : nat) (phy : list Z) (log : list (list Z)) (valid : list Z) (rank : option (list Z)) : Prop :=
  physical_to_logical_map m !! i = Some phy ∧ logical_to_all_physical_map m !! i = Some log ∧
  logical_to_all_physical_map_num_valid m !! i = Some valid ∧
  match logical_to_rank_dispatch_physical_map m with Some d => ∃ row, d !! i = Some row ∧ rank = Some row | None => rank = None end.

Definition metadata_ok (n : nat) m : Prop :=
  ∀ i, (i < n)%nat → ∃ phy log valid rank, layer_at m i phy log valid rank ∧ layer_ok phy log valid rank.

(** The rows of [log] list the replicas that [phy] has of each expert. *)
Record located (phy : list Z) (log : list (list Z)) : Prop := mk_located {
  lc_phy : len phy = P;
  lc_in : Forall (fun e => 0 ≤ e < L) phy;
  lc_log : len log = L;
  lc_row : ∀ e row, log !! e = Some row →
    ∃ ps, listed row ps ∧ ps ≠ [] ∧ len ps ≤ P ∧ ∀ x, x ∈ ps ↔ 0 ≤ x ∧ phy !! Z.to_nat x = Some (Z.of_nat e);
}.

Lemma locations_bound (phy : list Z) ps e : len phy = P → NoDup ps → (∀ x, x ∈ ps ↔ 0 ≤ x ∧ phy !! Z.to_nat x = Some e) → len ps ≤ P.
Proof using.
  intros P1 Hnd Hx. assert (ps ⊆+ arange 0 P) as Hs%submseteq_length.
  { apply NoDup_submseteq; [done|]. intros x Hin%Hx. destruct Hin as [H0 Hp%lookup_range]. apply elem_of_arange. lia. }
  pose proof (len_arange 0 P). unfold len in *. lia.
Qed.

Lemma placement_located phy log cnt : placement L P phy log cnt → located phy log.
Proof using.
  intros [P1 P2 [P3 P3'] P4 P5]. split; [done..|]. intros e row He. destruct (lookup_lt_is_Some_2 cnt e) as [c Hc]; [apply lookup_lt_Some in He; unfold len in *; lia|].
  destruct (P5 e row c He Hc) as (ps & Er & El & Hnd & Hx). pose proof (Forall_lookup_1 _ _ _ _ P3' Hc) as Hc1. exists ps.
  assert (Forall (Z.le 0) ps) as Hpos by (apply Forall_forall; intros x Hin; by apply Hx).
  split; [by eexists|]. split; [intros ->; change (len []) with 0 in El; lia|]. split; [|done].
  by eapply locations_bound.
Qed.

Lemma pad_listed row ps : len ps ≤ P → listed row ps → listed (take (Z.to_nat P) (row ++ replicate (Z.to_nat P - length row) (-1))) ps.
Proof using.
  intros Hl (n & -> & Hpos). unfold len in Hl. exists (Z.to_nat P - length ps)%nat. split; [|done].
  rewrite <-app_assoc, <-replicate_add, take_app_ge by lia. f_equal. rewrite take_replicate, length_app, length_replicate. f_equal. lia.
Qed.

Section init.
Context {R : Type} (sample : R → list Z → Z → list Z * R) (shuffle : R → list Z → list Z * R).
Context (Hsample : ∀ r l k, 0 ≤ k ≤ len l → len (sample r l k).1 = k ∧ Forall (fun x => x ∈ l) (sample r l k).1).
Context (Hshuffle : ∀ r l, (shuffle r l).1 ≡ₚ l).

Lemma init_raw_ok (static : bool) K phy log r :
  0 ≤ ep_rank < K → num_local = P / K → num_local ≠ 0 → length phy = length log →
  (∀ i a b, phy !! i = Some a → log !! i = Some b → located a b) →
  ∃ m, _init_raw sample shuffle static K ep_rank P phy log r = Ok m ∧ metadata_ok (length phy) m ∧
    (is_Some (logical_to_rank_dispatch_physical_map m) ↔ static = true).
Proof using Hsample Hshuffle.
  intros Hk En Hn El Hpl. unfold _init_raw.
  assert (∀ i b, log !! i = Some b → ∃ a, phy !! i = Some a ∧ located a b) as Hlog.
  { intros i b Hb. destruct (lookup_lt_is_Some_2 phy i) as [a Ha]; [rewrite El; by eapply lookup_lt_Some|].
    exists a. split; [done|by eapply Hpl]. }
  assert (∃ od, static_dispatch sample shuffle static K ep_rank P log r = Ok od ∧ (is_Some od ↔ static = true) ∧ ∀ d, od = Some d →
    Forall2 (Forall2 (fun row p => ∃ ps, listed row ps ∧ p ∈ ps ∧ ∀ q, q ∈ ps → q / num_local = ep_rank → p / num_local = ep_rank)) log d) as (od & -> & Hst & Hod).
  { unfold static_dispatch. destruct static; [|exists None; split; [done|]; split; [split; [by intros []|done]|done]].
    destruct (rank_dispatch_ok sample shuffle Hsample Hshuffle log K P ep_rank r Hk ltac:(by rewrite <-En)) as (d & -> & F).
    { apply Forall_lookup. intros i b Hb. destruct (Hlog i b Hb) as (a & _ & Hp). apply Forall_lookup. intros e row He.
      destruct (lc_row _ _ Hp e row He) as (ps & Hl & Hne & _). by exists ps. }
    exists (Some d). split; [done|]. split; [done|]. intros d' [= <-]. by rewrite En. }
  cbn [mbind pyres_bind]. rewrite (proj2 (Z.eqb_eq (len phy) (len log))) by (unfold len; lia). cbn [py_assert mbind pyres_bind mret pyres_ret].
  eexists. split; [reflexivity|]. split; [|done]. intros i Hi.
  destruct (lookup_lt_is_Some_2 phy i Hi) as [a Ha]. destruct (lookup_lt_is_Some_2 log i) as [b Hb]; [lia|].
  pose proof (Hpl i a b Ha Hb) as Hp.
  assert (∃ rank, (match od with Some d => ∃ row, d !! i = Some row ∧ rank = Some row | None => rank = None end) ∧
    ∀ d, rank = Some d → Forall2 (fun row p => ∃ ps, listed row ps ∧ p ∈ ps ∧ ∀ q, q ∈ ps → q / num_local = ep_rank → p / num_local = ep_rank) b d) as (rank & Hr1 & Hr2).
  { destruct od as [d|]; [|by exists None]. destruct (Forall2_lookup_l _ _ _ _ _ (Hod d eq_refl) Hb) as (row & Hrow & F).
    exists (Some row). split; [by eexists|]. by intros d' [= <-]. }
  eexists a, _, _, rank. split.
  - split; [done|]. simpl. rewrite !list_lookup_fmap, Hb. split; [reflexivity|]. split; [reflexivity|]. exact Hr1.
  - assert (∀ e, 0 ≤ e < L → ∃ row, b !! Z.to_nat e = Some row) as Hrow.
    { intros e He. apply lookup_lt_is_Some_2. pose proof (lc_log _ _ Hp). unfold len in *. lia. }
    split.
    + by destruct Hp.
    + intros e He. destruct (Hrow e He) as [row Erow]. destruct (lc_row _ _ Hp _ row Erow) as (ps & Hl & Hne & Hlen & Hx).
      rewrite Z2Nat.id in Hx by lia. eexists _, ps. rewrite !list_lookup_fmap, Erow. split; [reflexivity|]. split; [by apply pad_listed|]. split; [done|].
      split; [|done]. simpl. do 2 f_equal. exact (listed_raw row ps Hl).
    + intros d Hd e He. destruct (Hrow e He) as [row Erow]. destruct (Forall2_lookup_l _ _ _ _ _ (Hr2 d Hd) Erow) as (p & Ep & ps' & Hl' & Hin & Hown).
      destruct (lc_row _ _ Hp _ row Erow) as (ps & Hl & _ & _ & Hx). rewrite Z2Nat.id in Hx by lia.
      assert (ps' = ps) as -> by (by rewrite <-(listed_raw row ps Hl), (listed_raw row ps' Hl')).
      exists p. split; [done|]. apply Hx in Hin as [H0 Hpe]. split; [done|]. split; [done|]. intros q Hq Hqe. apply Hown. by apply Hx.
Qed.

End init.

(** *** Dispatch *)

Lemma dispatch_ok n m i : metadata_ok n m → (i < n)%nat →
  ∃ phy info, physical_to_logical_map m !! i = Some phy ∧ init_new m (Z.of_nat i) = Ok info ∧
    (∀ ids rnd, Forall (fun e => 0 ≤ e < L) ids → Forall (Z.le 0) rnd → length rnd = length ids →
      ∃ out, _topk_ids_logical_to_physical_dynamic rnd ids info = Ok out ∧ Forall2 (fun e p => 0 ≤ p ∧ phy !! Z.to_nat p = Some e) ids out) ∧
    (is_Some (logical_to_rank_dispatch_physical_map m) → ∀ ids, Forall (fun e => 0 ≤ e < L) ids →
      ∃ out, _topk_ids_logical_to_physical_static ids info = Ok out ∧
        Forall2 (fun e p => 0 ≤ p ∧ phy !! Z.to_nat p = Some e ∧
          ∀ q, 0 ≤ q → phy !! Z.to_nat q = Some e → q / num_local = ep_rank → p / num_local = ep_rank) ids out).
Proof using.
  intros Hm Hi. destruct (Hm i Hi) as (phy & log & valid & rank & (E1 & E2 & E3 & E4) & [_ Hrow Hrank]).
  assert (init_new m (Z.of_nat i) = Ok (mkInfo rank log valid)) as Einfo.
  { unfold init_new. rewrite (py_index_ok _ (Z.of_nat i) log), (py_index_ok _ (Z.of_nat i) valid) by (lia || by rewrite Nat2Z.id).
    destruct (logical_to_rank_dispatch_physical_map m) as [d|]; [|by rewrite E4]. destruct E4 as (row & Er & ->).
    by rewrite (py_index_ok d (Z.of_nat i) row) by (lia || by rewrite Nat2Z.id). }
  exists phy, (mkInfo rank log valid). split; [done|]. split; [done|]. split.
  - intros ids rnd Hids. revert rnd. unfold _topk_ids_logical_to_physical_dynamic.
    induction Hids as [|e ids He _ IH]; intros [|x rnd] Hr Hl; try done; [by exists []|]. apply Forall_cons in Hr as [Hx Hr]. injection Hl as Hl.
    destruct (IH rnd Hr Hl) as (out & Eout & F). destruct (Hrow e He) as (row & ps & Er & (k & -> & Hpos) & Hne & Ev & Hps).
    assert (0 < len ps) as Hlen by (destruct ps; [done|rewrite len_cons; len_pos; lia]). pose proof (Z.mod_pos_bound x (len ps) Hlen) as Hb.
    destruct (lookup_lt_is_Some_2 ps (Z.to_nat (x mod len ps))) as [p Hp]; [unfold len in *; lia|].
    exists (p :: out).
    cbn [zip zip_with mapM fst snd partial_logical_to_all_physical_map partial_logical_to_all_physical_map_num_valid] in Eout |- *.
    rewrite (py_index_ok valid e (len ps)) by (lia || done). cbn [mbind pyres_bind].
    assert (py_mod x (len ps) = Ok (x mod len ps)) as -> by (unfold py_mod; by rewrite (proj2 (Z.eqb_neq (len ps) 0)) by lia). cbn [mbind pyres_bind].
    rewrite (py_index_ok log e (ps ++ replicate k (-1))) by (lia || done). cbn [mbind pyres_bind].
    rewrite (py_index_ok (ps ++ replicate k (-1)) (x mod len ps) p) by (lia || by apply lookup_app_l_Some). cbn [mbind pyres_bind].
    rewrite Eout. split; [done|]. constructor; [|done]. apply Hps. by eapply list_elem_of_lookup_2.
  - intros Hs ids Hids. destruct (logical_to_rank_dispatch_physical_map m) as [d|]; [|by destruct Hs]. destruct E4 as (row & _ & ->).
    unfold _topk_ids_logical_to_physical_static. cbn [partial_logical_to_rank_dispatch_physical_map]. specialize (Hrank row eq_refl).
    induction Hids as [|e ids He _ (out & Eout & F)]; [by exists []|]. destruct (Hrank e He) as (p & Ep & Hp). exists (p :: out). cbn [mapM].
    rewrite (py_index_ok row e p) by (lia || done). cbn [mbind pyres_bind]. rewrite Eout. split; [done|by constructor].
Qed.

(** *** Updates *)

Lemma where_lookup {A} ids (other self : list A) i x y : self !! i = Some x → other !! i = Some y →
  where_layer ids other self !! i = Some (if bool_decide (Z.of_nat i ∈ ids) then y else x).
Proof using. intros Hx Hy. unfold where_layer. rewrite list_lookup_imap, Hx. simpl. by rewrite Hy. Qed.

Lemma update_ok n m other ids :
  metadata_ok n m → metadata_ok n other →
  (is_Some (logical_to_rank_dispatch_physical_map other) ↔ is_Some (logical_to_rank_dispatch_physical_map m)) →
  ∃ m', update m other ids = Ok m' ∧ metadata_ok n m' ∧
    ∀ i phy log valid rank, (i < n)%nat → layer_at (if bool_decide (Z.of_nat i ∈ ids) then other else m) i phy log valid rank →
      layer_at m' i phy log valid rank.
Proof using.
  intros Hm Ho Hd. unfold update.
  assert (eqb (bool_decide (is_Some (logical_to_rank_dispatch_physical_map other))) (bool_decide (is_Some (logical_to_rank_dispatch_physical_map m))) = true) as ->.
  { apply eqb_true_iff. by apply bool_decide_ext. }
  cbn [py_assert mbind pyres_bind mret pyres_ret]. eexists. split; [reflexivity|].
  set (m' := mkLocation _ _ _ _).
  assert (∀ i phy log valid rank, (i < n)%nat → layer_at (if bool_decide (Z.of_nat i ∈ ids) then other else m) i phy log valid rank →
      layer_at m' i phy log valid rank) as Hat.
  { intros i phy log valid rank Hi Hl. destruct (Hm i Hi) as (a1 & a2 & a3 & a4 & (A1 & A2 & A3 & A4) & _).
    destruct (Ho i Hi) as (b1 & b2 & b3 & b4 & (B1 & B2 & B3 & B4) & _). unfold m', layer_at. simpl.
    rewrite (where_lookup ids _ _ i a1 b1), (where_lookup ids _ _ i a2 b2), (where_lookup ids _ _ i a3 b3) by done.
    destruct (logical_to_rank_dispatch_physical_map m) as [dm|] eqn:Em, (logical_to_rank_dispatch_physical_map other) as [dn|] eqn:En.
    - destruct A4 as (ra & Ea & ->), B4 as (rb & Eb & ->). rewrite (where_lookup ids dn dm i ra rb Ea Eb).
      case_bool_decide; destruct Hl as (L1 & L2 & L3 & L4); [rewrite En in L4|rewrite Em in L4]; destruct L4 as (row & Er & ->); split_and!; try congruence; exists row; split; congruence.
    - exfalso. destruct (proj2 Hd ltac:(by eexists)). done.
    - exfalso. destruct (proj1 Hd ltac:(by eexists)). done.
    - case_bool_decide; destruct Hl as (L1 & L2 & L3 & L4); [rewrite En in L4|rewrite Em in L4]; split_and!; congruence. }
  split; [|done]. intros i Hi. destruct (bool_decide (Z.of_nat i ∈ ids)) eqn:Eb.
  - destruct (Ho i Hi) as (a & b & c & d & Hl & Hok). exists a, b, c, d. split; [|done]. apply Hat; [done|]. by rewrite Eb.
  - destruct (Hm i Hi) as (a & b & c & d & Hl & Hok). exists a, b, c, d. split; [|done]. apply Hat; [done|]. by rewrite Eb.
Qed.

End metadata.
