(* ===== verification/ExpertInit.v ===== *)
(** * The initial placement

    Models the constructors of [ExpertLocationMetadata] in
    [srt/eplb/expert_location.py] and the choice of the algorithm in
    [srt/eplb/eplb_algorithms/__init__.py]: every way to build the maps gives
    a consistent placement. *)

From Stdlib Require Import QArith.
From stdpp Require Import strings.
From S2P Require Import Prelude Eplb EplbProofs ExpertLocation.
Open Scope Z_scope.

(** ** Configuration *)

Record ModelConfigForExpertLocation := mkExpertConfig {
  num_layers : Z;
  num_logical_experts : Z;
  num_groups : option Z;
}.

(** What the constructors read of the server arguments; [ea_rank] is
    [torch.distributed.get_rank()]. *)
Record expert_args := mkExpertArgs {
  ea_redundant : Z;
  ea_ep_size : Z;
  ea_nnodes : Z;
  ea_static : bool;
  ea_algorithm : string;
  ea_rank : Z;
}.

Inductive EplbAlgorithm := deepseek | deepseek_hierarchical | deepseek_vec | deepseek_vec_hierarchical.

Definition EplbAlgorithm_of (s : string) : pyres EplbAlgorithm :=
  if String.eqb s "deepseek" then mret deepseek else
  if String.eqb s "deepseek_hierarchical" then mret deepseek_hierarchical else
  if String.eqb s "deepseek_vec" then mret deepseek_vec else
  if String.eqb s "deepseek_vec_hierarchical" then mret deepseek_vec_hierarchical else Raise KeyError.

Definition compute_algorithm (raw_algorithm : string) (num_groups : option Z) (num_nodes : Z) : pyres EplbAlgorithm :=
  if negb (String.eqb raw_algorithm "auto") then EplbAlgorithm_of raw_algorithm else
  match num_groups with
  | Some g => m ← py_mod g num_nodes; mret (if m =? 0 then deepseek_hierarchical else deepseek)
  | None => mret deepseek
  end.

(** [tokens_per_expert.sum(dim=0)] *)
Definition sum_steps (layers experts : Z) (steps : list (list (list Q))) : list (list Q) :=
  foldl (zip_with (zip_with Qplus)) (replicate (Z.to_nat layers) (replicate (Z.to_nat experts) 0%Q)) steps.

Section construct.
Context `{TorchOrder} (torch_garbage : nat → list Z).
(** [deepseek_vec.rebalance_experts] is an argument. *)
Context (vec_rebalance : list (list (list Q)) → Z → Z → option Z → Z → bool → pyres (list (list Z) * list (list (list Z)) * list (list Z))).
Context {R : Type} (sample : R → list Z → Z → list Z * R) (shuffle : R → list Z → list Z * R).

(** [eplb_algorithms.rebalance_experts] *)
Definition rebalance_by (tokens : list (list (list Q))) (layers experts num_physical_experts num_local_physical_experts : Z)
    (num_groups : option Z) (num_nodes : Z) (algorithm : EplbAlgorithm) : pyres (list (list Z) * list (list (list Z)) * list (list Z)) :=
  let run (hierarchical : bool) groups :=
    if num_local_physical_experts =? 0 then Raise ZeroDivisionError else
    rebalance_experts torch_garbage (sum_steps layers experts tokens) num_physical_experts groups num_nodes
      (num_physical_experts / num_local_physical_experts) hierarchical in
  match algorithm with
  | deepseek => run false 0
  | deepseek_hierarchical => match num_groups with Some g => run true g | None => Raise TypeError end
  | deepseek_vec => vec_rebalance tokens num_physical_experts num_local_physical_experts num_groups num_nodes false
  | deepseek_vec_hierarchical => vec_rebalance tokens num_physical_experts num_local_physical_experts num_groups num_nodes true
  end.

(** The number of physical experts. *)
Definition _init_common (args : expert_args) (config : ModelConfigForExpertLocation) : pyres Z :=
  let num_physical_experts := num_logical_experts config + ea_redundant args in
  m ← py_mod num_physical_experts (ea_ep_size args);
  py_assert (m =? 0) ;;
  mret num_physical_experts.

(** [physical_to_logical_map.shape[1]] *)
Definition map_width (phy : list (list Z)) : Z := match phy with [] => 0 | row :: _ => len row end.

Definition init_raw_args (args : expert_args) (phy : list (list Z)) (log : list (list (list Z))) (r : R) : pyres ExpertLocationMetadata :=
  _init_raw sample shuffle (ea_static args) (ea_ep_size args) (ea_rank args mod ea_ep_size args) (map_width phy) phy log r.

(** The constructors return [None] for a model without experts. *)
Definition init_by_mapping (args : expert_args) (config : option ModelConfigForExpertLocation) (phy : list (list Z)) (r : R) :
    pyres (option ExpertLocationMetadata) :=
  match config with
  | None => mret None
  | Some config =>
      _init_common args config ;;
      log ← _compute_logical_to_all_physical_map phy (num_logical_experts config);
      m ← init_raw_args args phy log r; mret (Some m)
  end.

(** [torch.arange(0, n).repeat(layers, 1) % k] *)
Definition trivial_map (layers n k : Z) : pyres (list (list Z)) :=
  row ← mapM (fun i => if k =? 0 then Raise RuntimeError else mret (i mod k)) (arange 0 n);
  mret (replicate (Z.to_nat layers) row).

Definition init_trivial (args : expert_args) (config : option ModelConfigForExpertLocation) (r : R) : pyres (option ExpertLocationMetadata) :=
  match config with
  | None => mret None
  | Some c =>
      num_physical_experts ← _init_common args c;
      phy ← trivial_map (num_layers c) num_physical_experts (num_logical_experts c);
      init_by_mapping args config phy r
  end.

(** [logical_count] has three dimensions: steps, layers and experts. *)
Definition init_by_eplb (args : expert_args) (config : option ModelConfigForExpertLocation) (logical_count : list (list (list Q))) (r : R) :
    pyres (option ExpertLocationMetadata) :=
  match config with
  | None => mret None
  | Some c =>
      num_physical_experts ← _init_common args c;
      algorithm ← compute_algorithm (ea_algorithm args) (num_groups c) (ea_nnodes args);
      '(phy, log, _) ← rebalance_by logical_count (num_layers c) (num_logical_experts c) num_physical_experts
        (num_physical_experts / ea_ep_size args) (num_groups c) (ea_nnodes args) algorithm;
      m ← init_raw_args args phy log r; mret (Some m)
  end.

End construct.

(** ** Properties *)

Lemma mapM_length_ok {A B} (f : A → pyres B) l k : mapM f l = Ok k → length k = length l.
Proof. revert k. induction l as [|x l IH]; intros k Hk; cbn [mapM] in Hk; pyinv; [done|]. simpl. by erewrite IH. Qed.

Lemma collect_foldl (l : list (Z * Z)) : ∀ m, Forall (fun pe => 0 ≤ pe.2 < len m) l →
  ∃ m', foldl (fun acc pe => m ← acc; append_physical m pe) (Ok m) l = Ok m' ∧
    len m' = len m ∧ ∀ e row, m !! e = Some row → m' !! e = Some (row ++ (filter (fun pe => pe.2 = Z.of_nat e) l).*1).
Proof.
  induction l as [|[p e0] l IH]; intros m Hl; cbn [foldl].
  - exists m. split; [done|]. split; [done|]. intros e row He. by rewrite filter_nil, app_nil_r.
  - apply Forall_cons in Hl as [H0 Hl]. simpl in H0. destruct (lookup_lt_is_Some_2 m (Z.to_nat e0)) as [row0 Hrow0]; [unfold len in *; lia|].
    assert (append_physical m (p, e0) = Ok (<[Z.to_nat e0:=row0 ++ [p]]> m)) as Es.
    { unfold append_physical. simpl. rewrite (py_index_ok m e0 row0) by (lia || done). unfold wrap_index. by rewrite (proj2 (Z.ltb_ge e0 0)) by lia. }
    cbn [mbind pyres_bind]. rewrite Es.
    destruct (IH (<[Z.to_nat e0:=row0 ++ [p]]> m)) as (m' & -> & Lm & Hm).
    { eapply Forall_impl; [exact Hl|]. intros [? ?]. unfold len. by rewrite length_insert. }
    exists m'. split; [done|]. split; [rewrite Lm; unfold len; by rewrite length_insert|]. intros e row He.
    rewrite filter_cons. simpl. case_decide as Ee.
    + subst e0. rewrite Nat2Z.id in *. rewrite He in Hrow0. injection Hrow0 as <-. rewrite (Hm e (row ++ [p])).
      * by rewrite fmap_cons, <-app_assoc.
      * apply list_lookup_insert_eq. by eapply lookup_lt_Some.
    + apply Hm. rewrite list_lookup_insert_ne; [done|lia].
Qed.

Lemma collect_physical_ok L phy : 0 ≤ L → Forall (fun e => 0 ≤ e < L) phy →
  ∃ m, collect_physical L phy = Ok m ∧ len m = L ∧ ∀ e row, m !! e = Some row →
    NoDup row ∧ ∀ x, x ∈ row ↔ 0 ≤ x ∧ phy !! Z.to_nat x = Some (Z.of_nat e).
Proof.
  intros HL Hin. unfold collect_physical. destruct (collect_foldl (zip (arange 0 (len phy)) phy) (replicate (Z.to_nat L) [])) as (m & Em & Lm & Hm).
  { apply Forall_lookup. intros i [p e] (H1 & H2)%lookup_zip_Some. pose proof (Forall_lookup_1 _ _ _ _ Hin H2). unfold len. rewrite length_replicate. simpl in *. lia. }
  assert (len m = L) as EL by (rewrite Lm; unfold len; rewrite length_replicate; lia).
  exists m. split; [exact Em|]. split; [done|]. intros e row He. assert (e < Z.to_nat L)%nat as Hlt by (apply lookup_lt_Some in He; unfold len in *; lia).
  rewrite (Hm e [] (lookup_replicate_2 _ _ _ Hlt)) in He. injection He as <-. split.
  - eapply sublist_NoDup; [apply (NoDup_arange 0 (len phy))|]. etrans; [apply fmap_sublist, sublist_filter|].
    rewrite fst_zip; [done|]. pose proof (len_arange 0 (len phy)). unfold len in *. lia.
  - intros x. rewrite list_elem_of_fmap. split.
    + intros ([p e'] & -> & [He Hz]%list_elem_of_filter). simpl in He. subst e'. apply list_elem_of_lookup in Hz as (i & (H1 & H2)%lookup_zip_Some).
      simpl. apply lookup_seqZ in H1 as [-> Hi]. rewrite Z.add_0_l, Nat2Z.id. split; [lia|done].
    + intros [H0 Hx]. exists (x, Z.of_nat e). split; [done|]. apply list_elem_of_filter. split; [done|]. apply list_elem_of_lookup. exists (Z.to_nat x).
      apply lookup_zip_Some. split; [|done]. apply lookup_seqZ. apply lookup_range in Hx. lia.
Qed.

(** The lists are padded to one length. *)
Lemma pad_nested_ok arr : concat arr ≠ [] → ∃ log, _pad_nested_array arr (-1) = Ok log ∧
  Forall2 (Forall2 (fun ps row => Forall (Z.le 0) ps → listed row ps)) arr log.
Proof.
  intros Hne. unfold _pad_nested_array. destruct (concat arr) as [|x l]; [done|]. eexists. split; [reflexivity|].
  apply Forall2_fmap_r, Forall_Forall2_diag, Forall_forall. intros outer _. apply Forall2_fmap_r, Forall_Forall2_diag, Forall_forall. intros ps _ Hp.
  by eexists.
Qed.

(** A map from physical experts in which every logical expert occurs. *)
Definition covering (L P : Z) (phy : list Z) : Prop :=
  len phy = P ∧ Forall (fun e => 0 ≤ e < L) phy ∧ ∀ e, 0 ≤ e < L → e ∈ phy.

Lemma collected_located L P phy : 0 ≤ L → covering L P phy → ∃ arr, collect_physical L phy = Ok arr ∧ len arr = L ∧
  ∀ log, Forall2 (fun ps row => Forall (Z.le 0) ps → listed row ps) arr log → located L P phy log.
Proof.
  intros HL (Hp & Hin & Hall). destruct (collect_physical_ok L phy HL Hin) as (arr & Ea & La & Ha). exists arr. split; [done|]. split; [done|].
  intros log F. pose proof (Forall2_length _ _ _ F) as El. split; [done..|unfold len in *; lia|]. intros e row Hrow.
  destruct (Forall2_lookup_r _ _ _ _ _ F Hrow) as (ps & Hps & Hl). destruct (Ha e ps Hps) as [Hnd Hx]. exists ps. split.
  { apply Hl, Forall_forall. intros x Hxin. by apply Hx. }
  split; [|split; [by eapply locations_bound|done]].
  intros ->. assert (0 ≤ Z.of_nat e < L) as He by (apply lookup_range in Hps; lia). apply Hall, list_elem_of_lookup in He as (i & Hi).
  assert (Z.of_nat i ∈ []) as []%elem_of_nil. apply Hx. rewrite Nat2Z.id. split; [lia|done].
Qed.

Lemma compute_map_ok L P phy : 0 < L → phy ≠ [] → Forall (covering L P) phy → ∃ log, _compute_logical_to_all_physical_map phy L = Ok log ∧
  length phy = length log ∧ ∀ i a b, phy !! i = Some a → log !! i = Some b → located L P a b.
Proof.
  intros HL Hne Hc. unfold _compute_logical_to_all_physical_map.
  assert (∃ arr, mapM (collect_physical L) phy = Ok arr ∧ Forall2 (fun a x => len x = L ∧
    ∀ log, Forall2 (fun ps row => Forall (Z.le 0) ps → listed row ps) x log → located L P a log) phy arr) as (arr & -> & F).
  { clear Hne. induction Hc as [|a phy Ha _ (arr & E & F)]; [by exists []|]. destruct (collected_located L P a ltac:(lia) Ha) as (x & Ex & Lx & Hx).
    exists (x :: arr). cbn [mapM]. rewrite Ex. cbn [mbind pyres_bind]. rewrite E. split; [done|by constructor]. }
  cbn [mbind pyres_bind]. destruct (pad_nested_ok arr) as (log & -> & Flog).
  { destruct F as [|a x phy' arr' [Lx _] _]; [done|]. destruct x; [change (len []) with 0 in Lx; lia|done]. }
  exists log. split; [done|]. split; [by rewrite (Forall2_length _ _ _ F), (Forall2_length _ _ _ Flog)|]. intros i a b Ha Hb.
  destruct (Forall2_lookup_l _ _ _ _ _ F Ha) as (x & Hx & _ & Hloc). destruct (Forall2_lookup_l _ _ _ _ _ Flog Hx) as (b' & Hb' & Fb).
  rewrite Hb in Hb'. injection Hb' as <-. by apply Hloc.
Qed.

(** The arguments fit a model: the physical experts are shared by the GPUs. *)
Record args_ok (args : expert_args) (c : ModelConfigForExpertLocation) : Prop := mk_args_ok {
  ao_layers : 0 < num_layers c;
  ao_experts : 0 < num_logical_experts c;
  ao_redundant : 0 ≤ ea_redundant args;
  ao_ep : 0 < ea_ep_size args ∧ (ea_ep_size args | num_logical_experts c + ea_redundant args);
}.

Lemma init_common_ok args c : args_ok args c → _init_common args c = Ok (num_logical_experts c + ea_redundant args).
Proof. intros [_ _ _ [He Hd]]. unfold _init_common. by rewrite (py_mod_zero _ _ He Hd). Qed.

Section construct_ok.
Context `{TorchOrder} (torch_garbage : nat → list Z) (Hgarbage : ∀ n, length (torch_garbage n) = n).
Context (vec_rebalance : list (list (list Q)) → Z → Z → option Z → Z → bool → pyres (list (list Z) * list (list (list Z)) * list (list Z))).
Context {R : Type} (sample : R → list Z → Z → list Z * R) (shuffle : R → list Z → list Z * R).
Context (Hsample : ∀ r l k, 0 ≤ k ≤ len l → len (sample r l k).1 = k ∧ Forall (fun x => x ∈ l) (sample r l k).1).
Context (Hshuffle : ∀ r l, (shuffle r l).1 ≡ₚ l).

(** The metadata of a model [c] on this rank, for [n] layers. *)
Definition metadata_for (args : expert_args) (c : ModelConfigForExpertLocation) (n : nat) (m : ExpertLocationMetadata) : Prop :=
  let P := num_logical_experts c + ea_redundant args in
  metadata_ok (num_logical_experts c) P (P / ea_ep_size args) (ea_rank args mod ea_ep_size args) n m ∧
  length (physical_to_logical_map m) = n ∧
  (is_Some (logical_to_rank_dispatch_physical_map m) ↔ ea_static args = true).

Lemma init_args_ok args c phy log r : args_ok args c → phy ≠ [] → length phy = length log →
  (∀ i a b, phy !! i = Some a → log !! i = Some b → located (num_logical_experts c) (num_logical_experts c + ea_redundant args) a b) →
  ∃ m, init_raw_args sample shuffle args phy log r = Ok m ∧ metadata_for args c (length phy) m ∧ physical_to_logical_map m = phy.
Proof using Hsample Hshuffle.
  intros [_ He Hr [Hep [k Hk]]] Hne El Hloc. unfold init_raw_args.
  assert (map_width phy = num_logical_experts c + ea_redundant args) as ->.
  { destruct phy as [|a phy]; [done|]. destruct log as [|b log]; [done|]. simpl. by apply (Hloc 0%nat a b). }
  destruct (init_raw_ok (num_logical_experts c) (num_logical_experts c + ea_redundant args) ((num_logical_experts c + ea_redundant args) / ea_ep_size args)
    (ea_rank args mod ea_ep_size args) sample shuffle Hsample Hshuffle (ea_static args) (ea_ep_size args) phy log r) as (m & Em & Hm & Hs).
  - by apply Z.mod_pos_bound.
  - done.
  - rewrite Hk, Z.div_mul by lia. nia.
  - done.
  - done.
  - rewrite Em. exists m. split; [done|]. assert (physical_to_logical_map m = phy) as Ep.
    { unfold _init_raw in Em. by pyinv. }
    split; [|done]. split; [done|]. split; [by rewrite Ep|done].
Qed.

Lemma init_by_mapping_ok args c phy r : args_ok args c → phy ≠ [] →
  Forall (covering (num_logical_experts c) (num_logical_experts c + ea_redundant args)) phy →
  ∃ m, init_by_mapping sample shuffle args (Some c) phy r = Ok (Some m) ∧ metadata_for args c (length phy) m ∧ physical_to_logical_map m = phy.
Proof using Hsample Hshuffle.
  intros Ha Hne Hc. unfold init_by_mapping. rewrite (init_common_ok args c Ha). cbn [mbind pyres_bind].
  destruct (compute_map_ok _ _ phy (ao_experts _ _ Ha) Hne Hc) as (log & -> & El & Hloc). cbn [mbind pyres_bind].
  destruct (init_args_ok args c phy log r Ha Hne El Hloc) as (m & -> & Hm). by exists m.
Qed.

Lemma trivial_map_ok n P L : 0 < L ≤ P → 0 < n → ∃ phy, trivial_map n P L = Ok phy ∧ length phy = Z.to_nat n ∧ Forall (covering L P) phy.
Proof using.
  intros HL Hn. unfold trivial_map. set (f := fun i => if L =? 0 then Raise RuntimeError else mret (i mod L)).
  assert (∀ l, mapM f l = Ok ((fun i => i mod L) <$> l)) as Hm.
  { induction l as [|i l IH]; [done|]. cbn [mapM]. rewrite IH. unfold f. by rewrite (proj2 (Z.eqb_neq L 0)) by lia. }
  rewrite Hm. eexists. split; [reflexivity|]. split; [by rewrite length_replicate|]. apply Forall_replicate. split; [|split].
  - rewrite len_fmap, len_arange. lia.
  - apply Forall_fmap, Forall_forall. intros i _. simpl. apply Z.mod_pos_bound. lia.
  - intros e He. apply list_elem_of_fmap. exists e. rewrite Z.mod_small by lia. split; [done|]. apply elem_of_arange. lia.
Qed.

Lemma init_trivial_ok args c r : args_ok args c →
  ∃ m, init_trivial sample shuffle args (Some c) r = Ok (Some m) ∧ metadata_for args c (Z.to_nat (num_layers c)) m.
Proof using Hsample Hshuffle.
  intros Ha. unfold init_trivial. rewrite (init_common_ok args c Ha). cbn [mbind pyres_bind]. pose proof Ha as [H1 H2 H3 _].
  destruct (trivial_map_ok (num_layers c) (num_logical_experts c + ea_redundant args) (num_logical_experts c)) as (phy & -> & Lp & Hc); [lia..|].
  cbn [mbind pyres_bind]. destruct (init_by_mapping_ok args c phy r Ha) as (m & -> & Hm & _); [|done|].
  - intros ->. simpl in Lp. lia.
  - exists m. rewrite <-Lp. done.
Qed.

(** Counts of the tokens that each expert was chosen for: steps, layers,
    experts. *)
Definition counts_ok (n L : Z) (tokens : list (list (list Q))) : Prop :=
  Forall (fun step => len step = n ∧ Forall (fun w => len w = L ∧ Forall (fun x => 0 <= x)%Q w) step) tokens.

Lemma zip_with_plus_ok L (v w : list Q) : len v = L ∧ Forall (fun x => 0 <= x)%Q v → len w = L ∧ Forall (fun x => 0 <= x)%Q w →
  len (zip_with Qplus v w) = L ∧ Forall (fun x => 0 <= x)%Q (zip_with Qplus v w).
Proof using.
  intros [Lv Hv] [Lw Hw]. split; [unfold len in *; rewrite length_zip_with; lia|]. apply Forall_lookup. intros i x (a & b & -> & Ha & Hb)%lookup_zip_with_Some.
  rewrite <-(Qplus_0_r 0). apply Qplus_le_compat; [apply (Forall_lookup_1 _ _ _ _ Hv Ha)|apply (Forall_lookup_1 _ _ _ _ Hw Hb)].
Qed.

Lemma sum_steps_ok n L tokens : 0 ≤ n → 0 ≤ L → counts_ok n L tokens →
  len (sum_steps n L tokens) = n ∧ Forall (fun w => len w = L ∧ Forall (fun x => 0 <= x)%Q w) (sum_steps n L tokens).
Proof using.
  intros Hn HL Ht. unfold sum_steps.
  assert (len (replicate (Z.to_nat n) (replicate (Z.to_nat L) 0%Q)) = n ∧
    Forall (fun w => len w = L ∧ Forall (fun x => 0 <= x)%Q w) (replicate (Z.to_nat n) (replicate (Z.to_nat L) 0%Q))) as H0.
  { split; [unfold len; rewrite length_replicate; lia|]. apply Forall_replicate. split; [unfold len; rewrite length_replicate; lia|]. by apply Forall_replicate. }
  revert H0. generalize (replicate (Z.to_nat n) (replicate (Z.to_nat L) 0%Q)) as acc.
  induction Ht as [|step tokens [Ls Hs] _ IH]; intros acc [La Hacc]; [done|]. cbn [foldl]. apply IH. split; [unfold len in *; rewrite length_zip_with; lia|].
  apply Forall_lookup. intros i x (a & b & -> & Ha & Hb)%lookup_zip_with_Some.
  apply zip_with_plus_ok; [apply (Forall_lookup_1 _ _ _ _ Hacc Ha)|apply (Forall_lookup_1 _ _ _ _ Hs Hb)].
Qed.

(** The policy that is chosen, and what it needs. *)
Definition policy_ok (args : expert_args) (c : ModelConfigForExpertLocation) : Prop :=
  let sizes_of G N := sizes (num_logical_experts c) (num_logical_experts c + ea_redundant args) G N (ea_ep_size args) in
  (compute_algorithm (ea_algorithm args) (num_groups c) (ea_nnodes args) = Ok deepseek ∧ sizes_of 1 1) ∨
  (compute_algorithm (ea_algorithm args) (num_groups c) (ea_nnodes args) = Ok deepseek_hierarchical ∧
   ∃ g, num_groups c = Some g ∧ sizes_of g (ea_nnodes args)).

Lemma init_by_eplb_ok args c tokens r : args_ok args c → policy_ok args c → counts_ok (num_layers c) (num_logical_experts c) tokens →
  ∃ m, init_by_eplb torch_garbage vec_rebalance sample shuffle args (Some c) tokens r = Ok (Some m) ∧ metadata_for args c (Z.to_nat (num_layers c)) m.
Proof using Hgarbage Hsample Hshuffle.
  intros Ha Hp Ht. unfold init_by_eplb. rewrite (init_common_ok args c Ha). cbn [mbind pyres_bind]. pose proof Ha as [H1 H2 H3 [H4 [k Hk]]].
  set (L := num_logical_experts c) in *. set (P := L + ea_redundant args) in *.
  assert (0 < k) as Hk0 by nia. assert (P / ea_ep_size args = k) as Edk by (rewrite Hk; apply Z.div_mul; lia).
  assert (P / k = ea_ep_size args) as Ek by (rewrite Hk, Z.mul_comm; apply Z.div_mul; lia).
  destruct (sum_steps_ok (num_layers c) L tokens ltac:(lia) ltac:(lia) Ht) as [Ls Hs].
  assert (∃ alg phy log cnt, compute_algorithm (ea_algorithm args) (num_groups c) (ea_nnodes args) = Ok alg ∧
    rebalance_by torch_garbage vec_rebalance tokens (num_layers c) L P k (num_groups c) (ea_nnodes args) alg = Ok (phy, log, cnt) ∧
    length phy = length (sum_steps (num_layers c) L tokens) ∧ length log = length phy ∧
    ∀ i a, phy !! i = Some a → ∃ b c, log !! i = Some b ∧ placement L P a b c) as (alg & phy & log & cnt & -> & Er & Lp & Ll & Hpl).
  { assert (sum_steps (num_layers c) L tokens ≠ []) as Hne by (intros E; rewrite E in Ls; change (len []) with 0 in Ls; lia).
    assert (∀ h g, policy_sizes h L P g (ea_nnodes args) (ea_ep_size args) → ∃ phy log cnt,
      rebalance_experts torch_garbage (sum_steps (num_layers c) L tokens) P g (ea_nnodes args) (ea_ep_size args) h = Ok (phy, log, cnt) ∧
      length phy = length (sum_steps (num_layers c) L tokens) ∧ length log = length phy ∧
      ∀ i a, phy !! i = Some a → ∃ b c, log !! i = Some b ∧ placement L P a b c) as Hrun.
    { intros h g Hsz. destruct (rebalance_experts_ok torch_garbage Hgarbage _ L P g (ea_nnodes args) (ea_ep_size args) h Hne Hsz Hs) as (phy & log & cnt & E & Lp & Hpl).
      exists phy, log, cnt. split; [done|]. split; [done|]. split.
      - unfold rebalance_experts in E. pyinv. rewrite length_fmap. match goal with H : mapM _ ?l = Ok log |- _ => by rewrite (mapM_length_ok _ _ _ H) end.
      - intros i a Hi. destruct (Hpl i a Hi) as (b & c' & Hb & _ & Hp' & _). by exists b, c'. }
    unfold rebalance_by. rewrite (proj2 (Z.eqb_neq k 0)) by lia. rewrite Ek.
    destruct Hp as [[-> Hsz]|[-> (g & Eg & Hsz)]].
    - destruct (Hrun false 0 Hsz) as (phy & log & cnt & Hr). by exists deepseek, phy, log, cnt.
    - rewrite Eg. destruct (Hrun true g Hsz) as (phy & log & cnt & Hr). by exists deepseek_hierarchical, phy, log, cnt. }
  cbn [mbind pyres_bind]. rewrite Edk, Er. cbn [mbind pyres_bind].
  assert (length phy = Z.to_nat (num_layers c)) as En by (unfold len in Ls; lia).
  destruct (init_args_ok args c phy log r Ha) as (m & -> & Hm & _).
  - intros ->. simpl in En. lia.
  - done.
  - intros i a b Hia Hib. destruct (Hpl i a Hia) as (b' & c' & Hb' & Hp'). rewrite Hib in Hb'. injection Hb' as <-. by eapply placement_located.
  - exists m. rewrite <-En. done.
Qed.

End construct_ok.
