(* ===== verification/ExpertUpdater.v ===== *)
(** * Moving the weights of the experts

    Models [update_expert_weights_single_layer] of
    [srt/eplb/expert_location_updater.py]: the GPUs exchange the weights of the
    experts of one layer until the weights agree with a new placement.  Every
    rank runs the same code; [update_all] runs all of them, with the batch of
    sends and receives in between.  A tensor of weights is a list with one
    element of type [W] for each local physical expert.  The logs are not
    modelled. *)

From S2P Require Import Prelude Eplb ExpertLocation.
Open Scope Z_scope.

(** ** Chunks *)

(** [_ChunkUtils] *)
Record ChunkUtils := mkChunks { chunk_values : list Z; element_values : list Z }.

Definition list_index (l : list Z) (x : Z) : pyres Z :=
  match list_find (fun y => y = x) l with Some (i, _) => mret (Z.of_nat i) | None => Raise ValueError end.

Definition py_divmod (a b : Z) : pyres (Z * Z) := if b =? 0 then Raise ZeroDivisionError else mret (a / b, a mod b).

Definition _chunk_index_from_element_index (num_elements num_chunks element_index : Z) : pyres Z :=
  '(short_chunk_size, num_long_chunks) ← py_divmod num_elements num_chunks;
  let num_elements_for_long_chunks := num_long_chunks * (short_chunk_size + 1) in
  if element_index <? num_elements_for_long_chunks then mret (element_index / (short_chunk_size + 1))
  else '(q, _) ← py_divmod (element_index - num_elements_for_long_chunks) short_chunk_size; mret (num_long_chunks + q).

(** The two ends of the slice. *)
Definition _element_slice_from_chunk_index (num_elements num_chunks chunk_index : Z) : pyres (Z * Z) :=
  '(short_chunk_size, num_long_chunks) ← py_divmod num_elements num_chunks;
  let start := chunk_index * short_chunk_size + Z.min chunk_index num_long_chunks in
  mret (start, start + short_chunk_size + (if chunk_index <? num_long_chunks then 1 else 0)).

Definition chunk_value_from_element_value (c : ChunkUtils) (element_value : Z) : pyres Z :=
  i ← list_index (element_values c) element_value;
  k ← _chunk_index_from_element_index (len (element_values c)) (len (chunk_values c)) i;
  py_index (chunk_values c) k.

Definition element_values_from_chunk_value (c : ChunkUtils) (chunk_value : Z) : pyres (list Z) :=
  if len (element_values c) =? 0 then mret [] else
  k ← list_index (chunk_values c) chunk_value;
  '(start, stop) ← _element_slice_from_chunk_index (len (element_values c)) (len (chunk_values c)) k;
  mret (py_slice start stop (element_values c)).

Definition _deduplicate_ordered (arr : list Z) : list Z :=
  foldl (fun output item => if bool_decide (last output = Some item) then output else output ++ [item]) [] arr.

(** ** Point-to-point operations *)

(** [P2POp]: the tensor is a row of the weights ([isend]) or of the temporary
    buffers ([irecv]), given by the index of the tensor and the local expert. *)
Inductive direction := isend | irecv.
#[export] Instance direction_eq_dec : EqDecision direction.
Proof. solve_decision. Defined.
Record P2POp := mkOp { op : direction; op_tensor : Z * Z; peer : Z }.

(** What a rank gives to [batch_isend_irecv]. *)
Inductive message (W : Type) := Send (peer : Z) (x : W) | Recv (peer : Z).
Arguments Send {W}. Arguments Recv {W}.

Definition sends_to {W} (b : Z) (ms : list (message W)) : list W :=
  omap (fun m => match m with Send p x => if p =? b then Some x else None | Recv _ => None end) ms.
Definition recv_peers {W} (ms : list (message W)) : list Z :=
  omap (fun m => match m with Send _ _ => None | Recv p => Some p end) ms.
(** The elements of [row] that come from [a]. *)
Definition from {W} (a : Z) (peers : list Z) (row : list W) : list W := (filter (fun pv => pv.1 = a) (zip peers row)).*2.

(** [torch.distributed.batch_isend_irecv] on all ranks, with [wait]: the
    messages from one rank to another arrive in the order in which they were
    sent.  The ranks wait for each other if sends and receives do not match. *)
Class PointToPoint (W : Type) := {
  batch_isend_irecv : list (list (message W)) → pyres (list (list W));
  batch_matched ms :
    (∀ a la, ms !! a = Some la → Forall (fun m => let p := match m with Send p _ => p | Recv p => p end in 0 ≤ p < len ms) la) →
    (∀ a b la lb, ms !! a = Some la → ms !! b = Some lb →
      length (sends_to (Z.of_nat b) la) = length (filter (fun p => p = Z.of_nat a) (recv_peers lb))) →
    ∃ out, batch_isend_irecv ms = Ok out ∧ length out = length ms ∧
      ∀ b lb row, ms !! b = Some lb → out !! b = Some row → length row = length (recv_peers lb) ∧
        ∀ a la, ms !! a = Some la → from (Z.of_nat a) (recv_peers lb) row = sends_to (Z.of_nat b) la;
}.

(** ** One rank *)

Section updater.
Context {W : Type}.
Context (old_physical_to_logical_map new_physical_to_logical_map : list Z).
Context (num_local_physical_experts num_gpu_per_node : Z).

Abbreviation old := old_physical_to_logical_map.
Abbreviation new := new_physical_to_logical_map.
Abbreviation num_local := num_local_physical_experts.
Abbreviation tensors := (list (list W)).

(** [[x for x in xs if m[x] == e]] and the first of them. *)
Fixpoint locations_at (m : list Z) (e : Z) (xs : list Z) : pyres (list Z) :=
  match xs with
  | [] => mret []
  | x :: xs => v ← py_index m x; rest ← locations_at m e xs; mret (if v =? e then x :: rest else rest)
  end.
Fixpoint first_at (m : list Z) (e : Z) (xs : list Z) : pyres (option Z) :=
  match xs with
  | [] => mret None
  | x :: xs => v ← py_index m x; if v =? e then mret (Some x) else first_at m e xs
  end.

(** It is only called when there are local experts, so the divisor is not zero. *)
Definition _compute_comm_info (self_node_id logical_expert_id : Z) : pyres (ChunkUtils * ChunkUtils * list Z) :=
  xs ← locations_at old logical_expert_id (arange 0 (len old));
  let all_src_ranks := _deduplicate_ordered ((fun x => x / num_local) <$> xs) in
  let all_src_nodes := (fun x => x / num_gpu_per_node) <$> all_src_ranks in
  let self_node_src_ranks := filter (fun x => x / num_gpu_per_node = self_node_id) all_src_ranks in
  ys ← locations_at new logical_expert_id (arange 0 (len old));
  let need_comm_dst_ranks := _deduplicate_ordered (filter (fun r => r ∉ all_src_ranks) ((fun x => x / num_local) <$> ys)) in
  let need_comm_self_node_dst_ranks :=
    if 0 <? len self_node_src_ranks then filter (fun x => x / num_gpu_per_node = self_node_id) need_comm_dst_ranks else [] in
  let need_comm_cross_node_dst_ranks := filter (fun x => x / num_gpu_per_node ∉ all_src_nodes) need_comm_dst_ranks in
  mret (mkChunks self_node_src_ranks need_comm_self_node_dst_ranks, mkChunks all_src_ranks need_comm_cross_node_dst_ranks,
        need_comm_self_node_dst_ranks).

(** *** Tensors *)

Definition _get_local_expert_location (rank expert_location : Z) : pyres Z :=
  py_assert ((rank * num_local <=? expert_location) && (expert_location <? (rank + 1) * num_local)) ;;
  py_mod expert_location num_local.

Definition _get_tensor (rank : Z) (ts : tensors) (i expert_location : Z) : pyres W :=
  t ← py_index ts i; l ← _get_local_expert_location rank expert_location; py_index t l.

(** [_get_tensor(ts, i, expert_location).copy_(x)] *)
Definition copy_to (rank : Z) (ts : tensors) (i expert_location : Z) (x : W) : pyres tensors :=
  t ← py_index ts i; l ← _get_local_expert_location rank expert_location; py_index t l ;;
  mret (set_at i (set_at l x t) ts).

(** Copies the weights of one expert: [for i in range(num_tensors)]. *)
Definition copy_expert (rank num_tensors : Z) (from : tensors) (src : Z) (to : tensors) (dst : Z) : pyres tensors :=
  foldl (fun acc i => to ← acc; x ← _get_tensor rank from i src; copy_to rank to i dst x) (mret to) (arange 0 num_tensors).

(** *** The steps of [_entrypoint] *)

Record transfer := mkTransfer {
  temp_buffers : tensors;
  buffer2weight_copy_infos : list (Z * Z);
  p2p_op_infos : list (Z * list P2POp);
}.

Definition _create_p2p_recv_and_buffer2weight_copy (rank num_tensors : Z) (st : transfer) (logical_expert_id src_rank dst : Z) : pyres transfer :=
  ops ← mapM (fun i => _get_tensor rank (temp_buffers st) i dst ;; l ← _get_local_expert_location rank dst; mret (mkOp irecv (i, l) src_rank))
          (arange 0 num_tensors);
  mret (mkTransfer (temp_buffers st) (buffer2weight_copy_infos st ++ [(dst, dst)]) (p2p_op_infos st ++ [(logical_expert_id, ops)])).

Definition _handle_recv_of_dst_expert_location (rank self_node_id : Z) (weights : tensors) (st : transfer) (dst : Z) : pyres transfer :=
  logical_expert_id ← py_index new dst;
  o ← py_index old dst;
  if o =? logical_expert_id then mret st else
  same_gpu ← first_at old logical_expert_id (arange (rank * num_local) ((rank + 1) * num_local));
  match same_gpu with
  | Some src =>
      temp ← copy_expert rank (len weights) weights src (temp_buffers st) dst;
      mret (mkTransfer temp (buffer2weight_copy_infos st ++ [(dst, dst)]) (p2p_op_infos st))
  | None =>
      free_rider ← first_at new logical_expert_id (arange (rank * num_local) dst);
      match free_rider with
      | Some src => mret (mkTransfer (temp_buffers st) (buffer2weight_copy_infos st ++ [(src, dst)]) (p2p_op_infos st))
      | None =>
          '(same_node_mapping, cross_node_mapping, need) ← _compute_comm_info self_node_id logical_expert_id;
          chosen_src_rank ← chunk_value_from_element_value (if bool_decide (rank ∈ need) then same_node_mapping else cross_node_mapping) rank;
          _create_p2p_recv_and_buffer2weight_copy rank (len weights) st logical_expert_id chosen_src_rank dst
      end
  end.

Definition _handle_recv (rank self_node_id : Z) (weights temp : tensors) : pyres transfer :=
  foldl (fun acc dst => st ← acc; _handle_recv_of_dst_expert_location rank self_node_id weights st dst)
    (mret (mkTransfer temp [] [])) (arange (rank * num_local) ((rank + 1) * num_local)).

Definition _create_isend_ops_of_logical_expert_id (rank self_node_id : Z) (weights : tensors) (logical_expert_id src : Z) : pyres (Z * list P2POp) :=
  '(same_node_mapping, cross_node_mapping, _) ← _compute_comm_info self_node_id logical_expert_id;
  same_node_dst_ranks ← element_values_from_chunk_value same_node_mapping rank;
  cross_node_dst_ranks ← element_values_from_chunk_value cross_node_mapping rank;
  ops ← mapM (fun di : Z * Z => _get_tensor rank weights di.2 src ;; l ← _get_local_expert_location rank src; mret (mkOp isend (di.2, l) di.1))
          ((same_node_dst_ranks ++ cross_node_dst_ranks) ≫= fun d => (fun i => (d, i)) <$> arange 0 (len weights));
  mret (logical_expert_id, ops).

(** The loop with [handled_logical_expert_ids]. *)
Definition create_isend_of_location (rank self_node_id : Z) (weights : tensors) (st : list Z * list (Z * list P2POp)) (src : Z) :
    pyres (list Z * list (Z * list P2POp)) :=
  logical_expert_id ← py_index old src;
  if bool_decide (logical_expert_id ∈ st.1) then mret st else
  info ← _create_isend_ops_of_logical_expert_id rank self_node_id weights logical_expert_id src;
  mret (logical_expert_id :: st.1, st.2 ++ [info]).
Definition _create_isend_ops (rank self_node_id : Z) (weights : tensors) (infos : list (Z * list P2POp)) : pyres (list (Z * list P2POp)) :=
  st ← foldl (fun acc src => st ← acc; create_isend_of_location rank self_node_id weights st src)
         (mret ([], infos)) (arange (rank * num_local) ((rank + 1) * num_local));
  mret st.2.

(** [sorted(p2p_op_infos, key=lambda info: info[0])] is stable. *)
Fixpoint insert_info (x : Z * list P2POp) (l : list (Z * list P2POp)) : list (Z * list P2POp) :=
  match l with [] => [x] | y :: l' => if x.1 <=? y.1 then x :: l else y :: insert_info x l' end.
Definition sort_infos (l : list (Z * list P2POp)) : list (Z * list P2POp) := foldr insert_info [] l.

(** Up to the call of [batch_isend_irecv]: the assertion on the shapes, the
    receives and the sends. *)
Definition prepare (rank : Z) (weights temp : tensors) : pyres transfer :=
  py_assert (forallb (fun t => len t =? num_local) weights) ;;
  '(self_node_id, _) ← py_divmod rank num_gpu_per_node;
  st ← _handle_recv rank self_node_id weights temp;
  infos ← _create_isend_ops rank self_node_id weights (p2p_op_infos st);
  mret (mkTransfer (temp_buffers st) (buffer2weight_copy_infos st) infos).

Definition p2p_ops (st : transfer) : list P2POp := sort_infos (p2p_op_infos st) ≫= snd.

(** A tensor of a [P2POp]. *)
Definition op_get (ts : tensors) (il : Z * Z) : pyres W := t ← py_index ts il.1; py_index t il.2.
Definition op_set (ts : tensors) (il : Z * Z) (x : W) : pyres tensors :=
  t ← py_index ts il.1; py_index t il.2 ;; mret (set_at il.1 (set_at il.2 x t) ts).

Definition to_message (weights : tensors) (o : P2POp) : pyres (message W) :=
  match op o with isend => x ← op_get weights (op_tensor o); mret (Send (peer o) x) | irecv => mret (Recv (peer o)) end.

(** The received tensors are in the buffers when the requests are waited for. *)
Definition receive (ops : list P2POp) (row : list W) (temp : tensors) : pyres tensors :=
  foldl (fun acc (ox : P2POp * W) => ts ← acc; op_set ts (op_tensor ox.1) ox.2) (mret temp)
    (zip (filter (fun o => op o = irecv) ops) row).

Definition _execute_buffer2weight_copies (rank : Z) (weights temp : tensors) (infos : list (Z * Z)) : pyres tensors :=
  foldl (fun acc (sd : Z * Z) => ts ← acc; copy_expert rank (len weights) temp sd.1 ts sd.2) (mret weights) infos.

(** ** All ranks *)

Record gpu := mkGpu { gpu_weights : tensors; gpu_buffers : tensors }.

Definition finish (rank : Z) (weights : tensors) (st : transfer) (row : list W) : pyres gpu :=
  temp ← receive (p2p_ops st) row (temp_buffers st);
  ws ← _execute_buffer2weight_copies rank weights temp (buffer2weight_copy_infos st);
  mret (mkGpu ws temp).

Definition update_all `{PointToPoint W} (gpus : list gpu) : pyres (list gpu) :=
  sts ← mapM (fun rg : Z * gpu => prepare rg.1 (gpu_weights rg.2) (gpu_buffers rg.2)) (zip (arange 0 (len gpus)) gpus);
  ms ← mapM (fun gs : gpu * transfer => mapM (to_message (gpu_weights gs.1)) (p2p_ops gs.2)) (zip gpus sts);
  out ← batch_isend_irecv ms;
  mapM (fun x : Z * (gpu * (transfer * list W)) => finish x.1 (gpu_weights x.2.1) x.2.2.1 x.2.2.2)
    (zip (arange 0 (len gpus)) (zip gpus (zip sts out))).

End updater.

(** ** An instance *)

(** Takes the messages from a queue for each sender. *)
Fixpoint deliver {W} (queues : list (list W)) (peers : list Z) : pyres (list W) :=
  match peers with
  | [] => mret []
  | a :: peers =>
      q ← get_at queues a;
      match q with
      | [] => Raise RuntimeError
      | x :: q => rest ← deliver (set_at a q queues) peers; mret (x :: rest)
      end
  end.
Definition fifo_exchange {W} (ms : list (list (message W))) : pyres (list (list W)) :=
  mapM (fun bl : Z * list (message W) => deliver (sends_to bl.1 <$> ms) (recv_peers bl.2)) (zip (arange 0 (len ms)) ms).
