(* ===== verification/ExpertTransfer.v ===== *)
(** * Who sends to whom

    The part of [update_expert_weights_single_layer] that decides between
    which ranks the weights of an expert move: the chunks of receivers, and
    that each receiver is served by exactly the sender it expects. *)

From stdpp Require Import sorting.
From S2P Require Import Prelude Eplb EplbProofs ExpertLocation ExpertUpdater.
Open Scope Z_scope.

(** ** Sorted lists *)

Lemma sorted_snoc (R : Z → Z → Prop) l x : StronglySorted R (l ++ [x]) ↔ StronglySorted R l ∧ Forall (fun y => R y x) l.
Proof.
  induction l as [|y l IH]; simpl.
  - split; intros _; [split; constructor|by repeat constructor].
  - split.
    + intros [H1 H2]%StronglySorted_inv. apply IH in H1 as [H1 H3]. apply Forall_app in H2 as [H2 [H4 _]%Forall_cons]. split; constructor; done.
    + intros [[H1 H2]%StronglySorted_inv [H3 H4]%Forall_cons]. constructor; [by apply IH|]. apply Forall_app. split; [done|by constructor].
Qed.

Lemma sorted_NoDup l : StronglySorted Z.lt l → NoDup l.
Proof.
  induction 1 as [|x l _ IH Hx]; constructor; [|done]. intros Hin. pose proof (proj1 (Forall_forall _ _) Hx x Hin). simpl in *. lia.
Qed.

(** Two increasing lists with the same elements are the same. *)
Lemma sorted_ext l k : StronglySorted Z.lt l → StronglySorted Z.lt k → (∀ x, x ∈ l ↔ x ∈ k) → l = k.
Proof.
  intros Hl Hk Hx. assert (∀ l, StronglySorted Z.lt l → StronglySorted Z.le l) as Hle.
  { clear. induction 1 as [|x l Hs IH Hx]; constructor; [done|]. eapply Forall_impl; [exact Hx|]. simpl. lia. }
  apply (StronglySorted_unique Z.le); [by apply Hle..|]. apply NoDup_Permutation; [by apply sorted_NoDup..|done].
Qed.

Lemma sorted_filter (P : Z → Prop) `{∀ x, Decision (P x)} R l : StronglySorted R l → StronglySorted R (filter P l).
Proof.
  induction 1 as [|x l Hs IH Hx]; [constructor|]. rewrite filter_cons. case_decide; [|done]. constructor; [done|].
  apply Forall_forall. intros y [_ Hy]%list_elem_of_filter. by apply (proj1 (Forall_forall _ _) Hx).
Qed.

Lemma sorted_arange a b : StronglySorted Z.lt (arange a b).
Proof.
  destruct (Z.le_gt_cases b a) as [H|H]; [rewrite arange_empty by done; constructor|].
  replace b with (a + Z.of_nat (Z.to_nat (b - a))) by lia. generalize (Z.to_nat (b - a)) as n. clear. intros n. revert a.
  induction n as [|n IH]; intros a; [rewrite arange_empty by lia; constructor|]. rewrite arange_cons by lia.
  replace (a + Z.of_nat (S n)) with (a + 1 + Z.of_nat n) by lia. constructor; [apply IH|]. apply Forall_forall. intros x Hx%elem_of_arange. lia.
Qed.

Lemma deduplicate_ok l : StronglySorted Z.le l → StronglySorted Z.lt (_deduplicate_ordered l) ∧ ∀ x, x ∈ _deduplicate_ordered l ↔ x ∈ l.
Proof.
  unfold _deduplicate_ordered. induction l as [|x l IH] using rev_ind; [split; [constructor|done]|]. intros [Hs Hx]%sorted_snoc.
  destruct (IH Hs) as [I1 I2]. rewrite foldl_snoc. set (d := foldl _ [] l) in *. case_bool_decide as El.
  - split; [done|]. intros y. rewrite I2, elem_of_app, list_elem_of_singleton. split; [by left|]. intros [?| ->]; [done|]. apply I2.
    apply last_Some in El as (k & ->). apply elem_of_app. right. apply list_elem_of_here.
  - split.
    + apply sorted_snoc. split; [done|]. apply Forall_forall. intros y Hy. pose proof (proj1 (Forall_forall _ _) Hx y (proj1 (I2 y) Hy)) as Hle. simpl in Hle.
      destruct (Z.eq_dec y x) as [->|]; [|lia]. exfalso. apply El. destruct d as [|z k _] using rev_ind; [by apply elem_of_nil in Hy|].
      rewrite last_snoc. f_equal. apply sorted_snoc in I1 as [_ I1]. apply elem_of_app in Hy as [Hy|Hy%list_elem_of_singleton]; [|done].
      pose proof (proj1 (Forall_forall _ _) I1 x Hy). pose proof (proj1 (Forall_forall _ _) Hx z (proj1 (I2 z) ltac:(apply elem_of_app; right; apply list_elem_of_here))).
      simpl in *. lia.
    + intros y. rewrite !elem_of_app, I2. done.
Qed.

(** ** Chunks *)

Lemma list_index_ok l x : x ∈ l → ∃ i, list_index l x = Ok (Z.of_nat i) ∧ l !! i = Some x.
Proof.
  intros Hx. unfold list_index. destruct (list_find_elem_of (fun y => y = x) l x Hx eq_refl) as [[i y] E]. rewrite E.
  apply list_find_Some in E as (E & -> & _). by exists i.
Qed.

(** Where a chunk starts; the next one starts where it stops. *)
Definition chunk_start (n c k : Z) : Z := k * (n / c) + Z.min k (n mod c).

Lemma chunk_start_mono n c k k' : 0 ≤ n → 0 < c → k ≤ k' → chunk_start n c k ≤ chunk_start n c k'.
Proof.
  intros Hn Hc Hk. unfold chunk_start. assert (0 ≤ n / c) by (apply Z.div_pos; lia). nia.
Qed.

Lemma chunk_index_ok n c e : 0 < c → 0 ≤ e < n → ∃ k, _chunk_index_from_element_index n c e = Ok k ∧ 0 ≤ k < c ∧
  chunk_start n c k ≤ e < chunk_start n c (k + 1).
Proof.
  intros Hc He. unfold _chunk_index_from_element_index, py_divmod. rewrite (proj2 (Z.eqb_neq c 0)) by lia. cbn [mbind pyres_bind mret pyres_ret].
  unfold chunk_start. pose proof (Z.div_mod n c ltac:(lia)) as En. pose proof (Z.mod_pos_bound n c Hc) as Hm.
  assert (0 ≤ n / c) as Hq by (apply Z.div_pos; lia). set (s := n / c) in *. set (m := n mod c) in *.
  destruct (Z.ltb_spec e (m * (s + 1))) as [Hlt|Hge].
  - exists (e / (s + 1)). split; [done|]. pose proof (Z.div_mod e (s + 1) ltac:(lia)). pose proof (Z.mod_pos_bound e (s + 1) ltac:(lia)).
    assert (0 ≤ e / (s + 1)) by (apply Z.div_pos; lia). assert (e / (s + 1) < m) by nia. rewrite !Z.min_l by lia. split; [lia|]. nia.
  - assert (0 < s) as Hs by nia. rewrite (proj2 (Z.eqb_neq s 0)) by lia. cbn [mbind pyres_bind]. set (q := (e - m * (s + 1)) / s).
    exists (m + q). split; [done|]. pose proof (Z.div_mod (e - m * (s + 1)) s ltac:(lia)) as Ed. fold q in Ed.
    pose proof (Z.mod_pos_bound (e - m * (s + 1)) s Hs). assert (0 ≤ q) by (apply Z.div_pos; lia). assert (q < c - m) by nia.
    rewrite !Z.min_r by lia. split; [lia|]. nia.
Qed.

Lemma chunk_slice_ok n c k : 0 ≤ n → 0 < c → 0 ≤ k < c →
  _element_slice_from_chunk_index n c k = Ok (chunk_start n c k, chunk_start n c (k + 1)) ∧ 0 ≤ chunk_start n c k.
Proof.
  intros Hn Hc Hk. unfold _element_slice_from_chunk_index, py_divmod, chunk_start. rewrite (proj2 (Z.eqb_neq c 0)) by lia. cbn [mbind pyres_bind mret pyres_ret].
  pose proof (Z.mod_pos_bound n c Hc). assert (0 ≤ n / c) by (apply Z.div_pos; lia). split; [|nia]. do 2 f_equal. destruct (Z.ltb_spec k (n mod c)); nia.
Qed.

Lemma elem_of_slice {A} (l : list A) a b x : 0 ≤ a → 0 ≤ b → x ∈ py_slice a b l ↔ ∃ i, l !! i = Some x ∧ a ≤ Z.of_nat i < b.
Proof.
  intros Ha Hb. rewrite py_slice_nonneg by done. rewrite list_elem_of_lookup. split.
  - intros (j & (Hj & Hlt)%lookup_take_Some). rewrite lookup_drop in Hj. eexists. split; [exact Hj|]. lia.
  - intros (i & Hi & Hr). exists (i - Z.to_nat a)%nat. apply lookup_take_Some. rewrite lookup_drop. split; [|lia]. by replace (Z.to_nat a + (i - Z.to_nat a))%nat with i by lia.
Qed.

Lemma NoDup_slice {A} (l : list A) a b : NoDup l → NoDup (py_slice a b l).
Proof.
  intros Hl. unfold py_slice. eapply sublist_NoDup; [exact Hl|]. etrans; [apply sublist_take|apply sublist_drop].
Qed.

(** Both ends of a transfer agree. *)
Lemma chunks_agree c : NoDup (chunk_values c) → NoDup (element_values c) → chunk_values c ≠ [] →
  (∀ b, b ∈ element_values c → ∃ a, chunk_value_from_element_value c b = Ok a ∧ a ∈ chunk_values c) ∧
  (∀ a, a ∈ chunk_values c → ∃ l, element_values_from_chunk_value c a = Ok l ∧ NoDup l ∧
    ∀ b, b ∈ l ↔ b ∈ element_values c ∧ chunk_value_from_element_value c b = Ok a).
Proof.
  intros Hc He Hne. set (n := len (element_values c)). set (k := len (chunk_values c)).
  assert (0 < k) as Hk by (unfold k; destruct (chunk_values c); [done|rewrite len_cons; len_pos; lia]).
  assert (∀ b, b ∈ element_values c → ∃ i j a, element_values c !! i = Some b ∧ chunk_values c !! j = Some a ∧
    chunk_value_from_element_value c b = Ok a ∧ chunk_start n k (Z.of_nat j) ≤ Z.of_nat i < chunk_start n k (Z.of_nat j + 1)) as Hval.
  { intros b Hb. destruct (list_index_ok _ _ Hb) as (i & Ei & Hi). pose proof (lookup_range _ _ _ Hi) as Hr.
    destruct (chunk_index_ok n k (Z.of_nat i) Hk Hr) as (j & Ej & Hj & Hs). destruct (lookup_lt_is_Some_2 (chunk_values c) (Z.to_nat j)) as [a Ha]; [unfold k, len in *; lia|].
    exists i, (Z.to_nat j), a. split; [done|]. split; [done|]. split; [|by rewrite Z2Nat.id by lia].
    unfold chunk_value_from_element_value. rewrite Ei. cbn [mbind pyres_bind]. fold n k. rewrite Ej. cbn [mbind pyres_bind]. apply py_index_ok; [lia|done]. }
  split.
  - intros b Hb. destruct (Hval b Hb) as (i & j & a & _ & Ha & E & _). exists a. split; [done|]. by eapply list_elem_of_lookup_2.
  - intros a Ha. unfold element_values_from_chunk_value. fold n. destruct (Z.eqb_spec n 0) as [E0|Hn].
    { apply len_zero in E0. exists []. split; [done|]. split; [constructor|]. intros b. rewrite E0. split; [by intros ?%elem_of_nil|by intros [?%elem_of_nil _]]. }
    destruct (list_index_ok _ _ Ha) as (j & -> & Hj). cbn [mbind pyres_bind]. fold k. pose proof (lookup_range _ _ _ Hj) as Hr. fold k in Hr.
    assert (0 ≤ n) as Hn0 by apply len_nonneg. destruct (chunk_slice_ok n k (Z.of_nat j) Hn0 Hk Hr) as [-> Hs0]. cbn [mbind pyres_bind mret pyres_ret].
    eexists. split; [reflexivity|]. split; [by apply NoDup_slice|]. intros b.
    rewrite elem_of_slice by (pose proof (chunk_start_mono n k (Z.of_nat j) (Z.of_nat j + 1) Hn0 Hk ltac:(lia)); lia). split.
    + intros (i & Hi & Hin). assert (b ∈ element_values c) as Hb by (by eapply list_elem_of_lookup_2). split; [done|].
      destruct (Hval b Hb) as (i' & j' & a' & Hi' & Ha' & E & Hin'). assert (i' = i) as -> by exact (NoDup_lookup _ _ _ _ He Hi' Hi).
      assert (j' = j) as ->; [|congruence]. destruct (lt_eq_lt_dec j' j) as [[Hlt|Heq]|Hlt]; [|done|].
      * pose proof (chunk_start_mono n k (Z.of_nat j' + 1) (Z.of_nat j) Hn0 Hk ltac:(lia)). lia.
      * pose proof (chunk_start_mono n k (Z.of_nat j + 1) (Z.of_nat j') Hn0 Hk ltac:(lia)). lia.
    + intros [Hb E]. destruct (Hval b Hb) as (i & j' & a' & Hi & Ha' & E' & Hin). rewrite E in E'. injection E' as <-.
      assert (j' = j) as -> by exact (NoDup_lookup _ _ _ _ Hc Ha' Hj). by exists i.
Qed.

(** ** The ranks of a transfer *)

Section transfer.
Context (old new : list Z) (num_local g : Z).
Context (Hlocal : 0 < num_local) (Hlen : len new = len old).

(** A physical expert of the rank is a replica of [e]. *)
Definition has (m : list Z) (r e : Z) : Prop := ∃ x, 0 ≤ x ∧ m !! Z.to_nat x = Some e ∧ x / num_local = r.

Definition ranks_with (m : list Z) (e : Z) : list Z := (fun x => x / num_local) <$> filter (fun x => m !! Z.to_nat x = Some e) (arange 0 (len old)).
Definition srcs (e : Z) : list Z := _deduplicate_ordered (ranks_with old e).
Definition needs (e : Z) : list Z := _deduplicate_ordered (filter (fun r => r ∉ srcs e) (ranks_with new e)).

Definition same_chunks (node e : Z) : ChunkUtils :=
  let from := filter (fun x => x / g = node) (srcs e) in
  mkChunks from (if 0 <? len from then filter (fun x => x / g = node) (needs e) else []).
Definition cross_chunks (e : Z) : ChunkUtils :=
  mkChunks (srcs e) (filter (fun x => x / g ∉ (fun x => x / g) <$> srcs e) (needs e)).

Lemma locations_ok m e xs : Forall (fun x => 0 ≤ x < len m) xs → locations_at m e xs = Ok (filter (fun x => m !! Z.to_nat x = Some e) xs).
Proof using.
  clear. induction 1 as [|x xs Hx _ IH]; [done|]. cbn [locations_at]. destruct (lookup_lt_is_Some_2 m (Z.to_nat x)) as [v Hv]; [unfold len in *; lia|].
  rewrite (py_index_ok m x v) by (lia || done). cbn [mbind pyres_bind]. rewrite IH. cbn [mbind pyres_bind mret pyres_ret]. rewrite filter_cons, Hv.
  destruct (Z.eqb_spec v e) as [->|Hne]; [by rewrite decide_True|]. by rewrite decide_False by congruence.
Qed.

Lemma comm_info_ok node e : _compute_comm_info old new num_local g node e = Ok (same_chunks node e, cross_chunks e, element_values (same_chunks node e)).
Proof using Hlen.
  unfold _compute_comm_info. rewrite !locations_ok; [done|apply Forall_forall; intros x Hx%elem_of_arange; lia..].
Qed.

Lemma ranks_with_ok m e : len m = len old → StronglySorted Z.le (ranks_with m e) ∧ ∀ r, r ∈ ranks_with m e ↔ has m r e.
Proof using Hlocal.
  intros Em. unfold ranks_with. split.
  - pose proof (sorted_filter (fun x => m !! Z.to_nat x = Some e) _ _ (sorted_arange 0 (len old))) as Hs. induction Hs as [|x l _ IH Hx]; [constructor|].
    rewrite fmap_cons. constructor; [done|]. apply Forall_fmap. eapply Forall_impl; [exact Hx|]. intros y Hy. simpl. apply Z.div_le_mono; lia.
  - intros r. rewrite list_elem_of_fmap. split.
    + intros (x & -> & [Hx Hr]%list_elem_of_filter). apply elem_of_arange in Hr. exists x. split; [lia|done].
    + intros (x & H0 & Hx & <-). exists x. split; [done|]. apply list_elem_of_filter. split; [done|]. apply lookup_range in Hx as Hr. apply elem_of_arange. lia.
Qed.

Lemma srcs_ok e : StronglySorted Z.lt (srcs e) ∧ ∀ r, r ∈ srcs e ↔ has old r e.
Proof using Hlocal.
  destruct (ranks_with_ok old e eq_refl) as [Hs Hr]. destruct (deduplicate_ok _ Hs) as [Hd Hx]. split; [done|]. intros r. unfold srcs. by rewrite Hx.
Qed.

Lemma needs_ok e : StronglySorted Z.lt (needs e) ∧ ∀ r, r ∈ needs e ↔ has new r e ∧ ¬ has old r e.
Proof using Hlocal Hlen.
  destruct (ranks_with_ok new e Hlen) as [Hs Hr]. destruct (deduplicate_ok _ (sorted_filter (fun r => r ∉ srcs e) _ _ Hs)) as [Hd Hx]. split; [done|].
  intros r. unfold needs. rewrite Hx, list_elem_of_filter, Hr, (proj2 (srcs_ok e)). tauto.
Qed.

(** The rank that [b] receives [e] from, and those that [a] sends it to. *)
Definition source (b e : Z) : pyres Z :=
  chunk_value_from_element_value (if bool_decide (b ∈ element_values (same_chunks (b / g) e)) then same_chunks (b / g) e else cross_chunks e) b.
Definition dests (a e : Z) : pyres (list Z) :=
  s ← element_values_from_chunk_value (same_chunks (a / g) e) a; c ← element_values_from_chunk_value (cross_chunks e) a; mret (s ++ c).

Lemma same_elements node e b : b ∈ element_values (same_chunks node e) ↔ b ∈ needs e ∧ b / g = node ∧ node ∈ (fun x => x / g) <$> srcs e.
Proof using.
  clear. unfold same_chunks. cbn [element_values]. set (l := filter _ (srcs e)).
  assert (node ∈ (fun x => x / g) <$> srcs e ↔ l ≠ []) as Hl.
  { rewrite list_elem_of_fmap. split.
    - intros (x & -> & Hx) E. assert (x ∈ l) as Hin by (apply list_elem_of_filter; done). rewrite E in Hin. by apply elem_of_nil in Hin.
    - intros Hne. destruct l as [|x k] eqn:E; [done|]. assert (x ∈ l) as [Hx Hin]%list_elem_of_filter by (rewrite E; apply list_elem_of_here). by exists x. }
  rewrite Hl. destruct (Z.ltb_spec 0 (len l)) as [Hlt|Hge].
  - rewrite list_elem_of_filter. assert (l ≠ []) by (intros E; rewrite E in Hlt; done). tauto.
  - assert (l = []) as -> by (apply len_zero; len_pos; lia). rewrite elem_of_nil. tauto.
Qed.

Lemma chunks_NoDup node e : NoDup (chunk_values (same_chunks node e)) ∧ NoDup (element_values (same_chunks node e)) ∧
  NoDup (chunk_values (cross_chunks e)) ∧ NoDup (element_values (cross_chunks e)).
Proof using Hlocal Hlen.
  pose proof (sorted_NoDup _ (proj1 (srcs_ok e))). pose proof (sorted_NoDup _ (proj1 (needs_ok e))). unfold same_chunks, cross_chunks.
  cbn [chunk_values element_values]. split_and!; [by apply NoDup_filter| |done|by apply NoDup_filter]. destruct (0 <? _); [by apply NoDup_filter|constructor].
Qed.

Lemma cross_elements e b : b ∈ element_values (cross_chunks e) ↔ b ∈ needs e ∧ b / g ∉ (fun x => x / g) <$> srcs e.
Proof using. clear. unfold cross_chunks. cbn [element_values]. rewrite list_elem_of_filter. tauto. Qed.

Lemma source_ok b e : b ∈ needs e → srcs e ≠ [] →
  ∃ a, source b e = Ok a ∧ a ∈ srcs e ∧ (b / g ∈ (fun x => x / g) <$> srcs e → a / g = b / g).
Proof using Hlocal Hlen.
  intros Hb Hne. unfold source. destruct (chunks_NoDup (b / g) e) as (N1 & N2 & N3 & N4). case_bool_decide as Hin.
  - apply same_elements in Hin as Hs. destruct (proj1 (chunks_agree (same_chunks (b / g) e) N1 N2 ltac:(intros E; unfold same_chunks in E, Hin; cbn [chunk_values] in E; cbn [element_values] in Hin; rewrite E in Hin; by apply elem_of_nil in Hin)) b Hin) as (a & E & Ha).
    unfold same_chunks in Ha. cbn [chunk_values] in Ha. apply list_elem_of_filter in Ha as [Hg Ha]. by exists a.
  - destruct (proj1 (chunks_agree (cross_chunks e) N3 N4 Hne) b) as (a & E & Ha).
    + apply cross_elements. split; [done|]. intros Hn. apply Hin, same_elements. done.
    + exists a. split; [done|]. split; [done|]. intros Hn. destruct Hin. apply same_elements. done.
Qed.

Lemma dests_ok a e : a ∈ srcs e → ∃ l, dests a e = Ok l ∧ NoDup l ∧ ∀ b, b ∈ l ↔ b ∈ needs e ∧ source b e = Ok a.
Proof using Hlocal Hlen.
  intros Ha. unfold dests. destruct (chunks_NoDup (a / g) e) as (N1 & N2 & N3 & N4).
  assert (a / g ∈ (fun x => x / g) <$> srcs e) as Hnode by (apply list_elem_of_fmap; by exists a).
  assert (a ∈ chunk_values (same_chunks (a / g) e)) as Hsame by (unfold same_chunks; cbn [chunk_values]; by apply list_elem_of_filter).
  destruct (proj2 (chunks_agree (same_chunks (a / g) e) N1 N2 ltac:(intros E; rewrite E in Hsame; by apply elem_of_nil in Hsame)) a Hsame) as (s & -> & Ns & Hs).
  assert (srcs e ≠ []) as Hne by (intros E; rewrite E in Ha; by apply elem_of_nil in Ha).
  destruct (proj2 (chunks_agree (cross_chunks e) N3 N4 Hne) a Ha) as (c & -> & Nc & Hc). cbn [mbind pyres_bind mret pyres_ret].
  exists (s ++ c). split; [done|].
  assert (∀ b, b ∈ s → b / g = a / g ∧ b ∈ needs e ∧ source b e = Ok a) as Hin_s.
  { intros b Hb. apply Hs in Hb as [Hb E]. apply same_elements in Hb as Hb'. destruct Hb' as (Hn & Hg & _). split; [done|]. split; [done|].
    unfold source. by rewrite Hg, bool_decide_true. }
  assert (∀ b, b ∈ c → b / g ∉ (fun x => x / g) <$> srcs e ∧ b ∈ needs e ∧ source b e = Ok a) as Hin_c.
  { intros b Hb. apply Hc in Hb as [Hb E]. apply cross_elements in Hb as [Hn Hg]. split; [done|]. split; [done|].
    unfold source. rewrite bool_decide_false; [done|]. rewrite same_elements. tauto. }
  split.
  - apply NoDup_app. split; [done|]. split; [|done]. intros b H1 H2. destruct (Hin_s b H1) as [Hg _]. destruct (Hin_c b H2) as [Hg' _]. congruence.
  - intros b. rewrite elem_of_app. split.
    + intros [Hb|Hb]; [by destruct (Hin_s b Hb)|by destruct (Hin_c b Hb)].
    + intros [Hb E]. destruct (source_ok b e Hb Hne) as (a' & E' & _ & Hpref). rewrite E in E'. injection E' as <-. unfold source in E. case_bool_decide as Hin.
      * left. apply Hs. apply same_elements in Hin as Hin'. destruct Hin' as (_ & _ & Hn). rewrite (Hpref Hn). by split.
      * right. apply Hc. split; [|done]. apply cross_elements. split; [done|]. intros Hn. apply Hin, same_elements. done.
Qed.

End transfer.
