(* ===== verification/ExpertMigration.v ===== *)
(** * The weights follow the placement

    Proves that [update_expert_weights_single_layer], run on all ranks, ends
    with the weights where the new placement has them: every send is matched
    by a receive in the same order, and every expert is copied from a rank
    that had it. *)

From S2P Require Import Prelude Eplb EplbProofs ExpertLocation ExpertUpdater ExpertTransfer.
Open Scope Z_scope.

(** ** Loops *)

Lemma mapM_app_ok {A B} (f : A → pyres B) l k l' k' : mapM f l = Ok l' → mapM f k = Ok k' → mapM f (l ++ k) = Ok (l' ++ k').
Proof.
  revert l'. induction l as [|x l IH]; intros l' Hl Hk; cbn [mapM] in Hl; [injection Hl as <-; done|]. cbn [app mapM].
  destruct (f x) as [y|]; [|done]. cbn [mbind pyres_bind] in Hl |- *. destruct (mapM f l) as [l1|]; [|done]. cbn [mbind pyres_bind mret pyres_ret] in Hl. injection Hl as <-.
  by rewrite (IH l1 eq_refl Hk).
Qed.

Lemma mapM_bind_ok {A B C} (f : A → pyres B) (h : C → list A) (k : C → list B) l : (∀ e, e ∈ l → mapM f (h e) = Ok (k e)) → mapM f (l ≫= h) = Ok (l ≫= k).
Proof.
  induction l as [|e l IH]; intros Hl; [done|]. cbn [mbind list_bind]. apply mapM_app_ok; [apply Hl, list_elem_of_here|]. apply IH. intros e' He. by apply Hl, list_elem_of_further.
Qed.

Lemma mapM_lookup_ok {A B} (f : A → pyres B) (Q : nat → B → Prop) l : (∀ k x, l !! k = Some x → ∃ y, f x = Ok y ∧ Q k y) →
  ∃ ys, mapM f l = Ok ys ∧ length ys = length l ∧ ∀ k y, ys !! k = Some y → Q k y.
Proof.
  revert Q. induction l as [|x l IH]; intros Q Hl; [by exists []|]. destruct (Hl 0%nat x eq_refl) as (y & Ey & Hy).
  destruct (IH (fun k => Q (S k))) as (ys & Es & Ls & Hs); [intros k z Hz; by apply (Hl (S k))|]. exists (y :: ys). cbn [mapM]. rewrite Ey. cbn [mbind pyres_bind]. rewrite Es.
  split; [done|]. split; [simpl; by rewrite Ls|]. intros [|k] z Hz; [by injection Hz as <-|by apply Hs].
Qed.

Section migration.
Context {W : Type} (value : Z → Z → W).
Context (old new : list Z) (num_local g num_tensors world : Z).
Context (Hlocal : 0 < num_local) (Htensors : 0 ≤ num_tensors).
Context (Hold : len old = world * num_local) (Hnew : len new = world * num_local).
Context (Hcover : ∀ e, e ∈ new → e ∈ old).
Abbreviation tensors := (list (list W)).

(** ** Tensors *)

Definition shape (ts : tensors) : Prop := len ts = num_tensors ∧ Forall (fun t => len t = num_local) ts.
Definition cell (ts : tensors) (i l : Z) : option W := t ← ts !! Z.to_nat i; t !! Z.to_nat l.
Definition local (r x : Z) : Prop := r * num_local ≤ x < (r + 1) * num_local.

Lemma local_mod r x : local r x → x mod num_local = x - r * num_local ∧ 0 ≤ x mod num_local < num_local ∧ x / num_local = r.
Proof using Hlocal.
  intros Hx. unfold local in Hx. assert (x / num_local = r) as E by (symmetry; apply Z.div_unique with (x - r * num_local); lia).
  pose proof (Z.div_mod x num_local ltac:(lia)). rewrite E in *. pose proof (Z.mod_pos_bound x num_local Hlocal). lia.
Qed.

Lemma mod_local_inj r x y : local r x → local r y → x mod num_local = y mod num_local → x = y.
Proof using Hlocal. intros [-> _]%local_mod [-> _]%local_mod. lia. Qed.

Lemma get_local_ok r x : local r x → _get_local_expert_location num_local r x = Ok (x mod num_local).
Proof using Hlocal.
  intros Hx. unfold _get_local_expert_location. unfold local in Hx.
  rewrite (proj2 (Z.leb_le (r * num_local) x)), (proj2 (Z.ltb_lt x ((r + 1) * num_local))) by lia. cbn [andb py_assert mbind pyres_bind].
  unfold py_mod. by rewrite (proj2 (Z.eqb_neq num_local 0)) by lia.
Qed.

Lemma cell_some ts i l : shape ts → 0 ≤ i < num_tensors → 0 ≤ l < num_local → ∃ t x, ts !! Z.to_nat i = Some t ∧ t !! Z.to_nat l = Some x ∧ len t = num_local ∧ cell ts i l = Some x.
Proof using.
  clear. intros [Hl Hs] Hi Hll. destruct (lookup_lt_is_Some_2 ts (Z.to_nat i)) as [t Ht]; [unfold len in *; lia|]. pose proof (Forall_lookup_1 _ _ _ _ Hs Ht) as Hlt. simpl in Hlt.
  destruct (lookup_lt_is_Some_2 t (Z.to_nat l)) as [x Hx]; [unfold len in *; lia|]. exists t, x. unfold cell. by rewrite Ht.
Qed.

Lemma op_get_ok ts i l x : 0 ≤ i → 0 ≤ l → cell ts i l = Some x → op_get ts (i, l) = Ok x.
Proof using.
  clear. intros Hi Hl Hc. unfold cell in Hc. destruct (ts !! Z.to_nat i) as [t|] eqn:E; [|done]. unfold op_get. cbn [fst snd].
  rewrite (py_index_ok ts i t) by done. cbn [mbind pyres_bind]. by apply py_index_ok.
Qed.

Lemma op_set_ok ts i l x : shape ts → 0 ≤ i < num_tensors → 0 ≤ l < num_local →
  ∃ ts', op_set ts (i, l) x = Ok ts' ∧ shape ts' ∧ cell ts' i l = Some x ∧
    ∀ i' l', 0 ≤ i' → 0 ≤ l' → (i', l') ≠ (i, l) → cell ts' i' l' = cell ts i' l'.
Proof using.
  clear. intros Hs Hi Hl. destruct (cell_some ts i l Hs Hi Hl) as (t & y & Ht & Hy & Lt & _). destruct Hs as [Hlen Hs].
  unfold op_set. cbn [fst snd]. rewrite (py_index_ok ts i t) by (lia || done). cbn [mbind pyres_bind].
  rewrite (py_index_ok t l y) by (lia || done). cbn [mbind pyres_bind mret pyres_ret]. eexists. split; [reflexivity|].
  apply lookup_lt_Some in Ht as Hlt. apply lookup_lt_Some in Hy as Hly. unfold set_at. split; [split|split].
  - unfold len. rewrite length_insert. done.
  - apply Forall_insert; [done|]. unfold len. by rewrite length_insert.
  - unfold cell. rewrite list_lookup_insert_eq by done. simpl. by rewrite list_lookup_insert_eq.
  - intros i' l' Hi' Hl' Hne. unfold cell. destruct (decide (i' = i)) as [->|Hii].
    + rewrite list_lookup_insert_eq, Ht by done. simpl. rewrite list_lookup_insert_ne; [done|]. intros E. apply Hne. f_equal. lia.
    + rewrite list_lookup_insert_ne; [done|lia].
Qed.

Lemma get_tensor_ok r ts i x : shape ts → 0 ≤ i < num_tensors → local r x →
  ∃ v, _get_tensor num_local r ts i x = Ok v ∧ cell ts i (x mod num_local) = Some v.
Proof using Hlocal.
  intros Hs Hi Hx. destruct (local_mod r x Hx) as (_ & Hm & _). destruct (cell_some ts i _ Hs Hi Hm) as (t & v & Ht & Hv & _ & Hc).
  exists v. split; [|done]. unfold _get_tensor. rewrite (py_index_ok ts i t) by (lia || done). cbn [mbind pyres_bind].
  rewrite (get_local_ok r x Hx). cbn [mbind pyres_bind]. apply py_index_ok; [lia|done].
Qed.

Lemma copy_to_op r (ts : tensors) i x v : local r x → copy_to num_local r ts i x v = op_set ts (i, x mod num_local) v.
Proof using Hlocal. intros Hx. unfold copy_to, op_set. cbn [fst snd]. by rewrite (get_local_ok r x Hx). Qed.

(** Writing to tensors: every cell holds the last value written to it. *)
Definition written (ts ts' : tensors) (upd : Z → Z → option W) : Prop :=
  shape ts' ∧ ∀ i l, 0 ≤ i < num_tensors → 0 ≤ l < num_local → cell ts' i l = match upd i l with Some v => Some v | None => cell ts i l end.

Lemma copy_expert_ok r from src to dst : shape from → shape to → local r src → local r dst →
  ∃ to', copy_expert num_local r num_tensors from src to dst = Ok to' ∧
    written to to' (fun i l => if decide (l = dst mod num_local) then cell from i (src mod num_local) else None).
Proof using Hlocal.
  intros Hf Ht Hsrc Hdst. unfold copy_expert. set (f := fun acc i => _).
  destruct (local_mod r dst Hdst) as (_ & Hm & _). destruct (local_mod r src Hsrc) as (_ & Hms & _).
  assert (∀ l to, Forall (fun i => 0 ≤ i < num_tensors) l → shape to → ∃ to', foldl f (Ok to) l = Ok to' ∧
    written to to' (fun i p => if decide (p = dst mod num_local ∧ i ∈ l) then cell from i (src mod num_local) else None)) as Hloop.
  { clear to Ht. induction l as [|i l IH]; intros to Hl Ht.
    - exists to. split; [done|]. split; [done|]. intros i p _ _. case_decide as Hd; [|done]. destruct Hd as [_ []%elem_of_nil].
    - apply Forall_cons in Hl as [Hi Hl]. destruct (get_tensor_ok r from i src Hf Hi Hsrc) as (v & Ev & Hv).
      destruct (op_set_ok to i (dst mod num_local) v Ht Hi Hm) as (to1 & E1 & S1 & C1 & O1).
      assert (f (Ok to) i = Ok to1) as Ef by (unfold f; cbn [mbind pyres_bind]; rewrite Ev; cbn [mbind pyres_bind]; by rewrite (copy_to_op r to i dst v Hdst)).
      destruct (IH to1 Hl S1) as (to' & E' & S' & C'). exists to'. split; [change (foldl f (Ok to) (i :: l)) with (foldl f (f (Ok to) i) l); by rewrite Ef|].
      split; [done|]. intros i' p Hi' Hp. rewrite (C' i' p Hi' Hp). case_decide as Hd.
      + destruct Hd as [-> Hin]. rewrite decide_True by (split; [done|by apply list_elem_of_further]).
        by destruct (cell_some from i' _ Hf Hi' Hms) as (? & ? & _ & _ & _ & ->).
      + destruct (decide ((i', p) = (i, dst mod num_local))) as [[= -> ->]|Hne].
        * rewrite C1, decide_True by (split; [done|apply list_elem_of_here]). by rewrite Hv.
        * rewrite O1 by (lia || done). rewrite decide_False; [done|]. intros [-> [->|Hin]%elem_of_cons]; [done|]. by apply Hd. }
  destruct (Hloop (arange 0 num_tensors) to ltac:(apply Forall_forall; intros x Hx%elem_of_arange; lia) Ht) as (to' & E & S & C).
  exists to'. split; [exact E|]. split; [done|]. intros i l Hi Hl. rewrite (C i l Hi Hl). destruct (decide (l = dst mod num_local)) as [->|Hne].
  - rewrite decide_True; [done|]. split; [done|]. apply elem_of_arange. lia.
  - rewrite decide_False; [done|]. by intros [? _].
Qed.

(** ** The operations for an expert *)

(** The first local physical expert that is a replica of [e]. *)
Definition first_loc (m : list Z) (r e : Z) : Z :=
  default 0 (head (filter (fun x => m !! Z.to_nat x = Some e) (arange (r * num_local) ((r + 1) * num_local)))).

Abbreviation source_of := (source old new num_local g).
Abbreviation srcs_of := (srcs old num_local).
Abbreviation needs_of := (needs old new num_local).
Definition src_rank (r e : Z) : Z := match source_of r e with Ok a => a | Raise _ => -1 end.
Definition dst_ranks (r e : Z) : list Z := match dests old new num_local g r e with Ok l => l | Raise _ => [] end.

(** A rank sends what it has, and receives what it needs. *)
Definition expert_ops (r e : Z) : list P2POp :=
  if bool_decide (r ∈ srcs_of e)
  then dst_ranks r e ≫= fun d => (fun i => mkOp isend (i, first_loc old r e mod num_local) d) <$> arange 0 num_tensors
  else (fun i => mkOp irecv (i, first_loc new r e mod num_local) (src_rank r e)) <$> arange 0 num_tensors.
Definition info_of (r e : Z) : Z * list P2POp := (e, expert_ops r e).

Lemma first_at_head m e xs : Forall (fun x => 0 ≤ x < len m) xs → first_at m e xs = Ok (head (filter (fun x => m !! Z.to_nat x = Some e) xs)).
Proof using.
  clear. induction 1 as [|x xs Hx _ IH]; [done|]. cbn [first_at]. destruct (lookup_lt_is_Some_2 m (Z.to_nat x)) as [v Hv]; [unfold len in *; lia|].
  rewrite (py_index_ok m x v) by (lia || done). cbn [mbind pyres_bind]. rewrite filter_cons, Hv.
  destruct (Z.eqb_spec v e) as [->|Hne]; [by rewrite decide_True|]. by rewrite decide_False by congruence.
Qed.

Lemma local_range r x : 0 ≤ r < world → local r x → 0 ≤ x < world * num_local.
Proof using Hlocal. unfold local. nia. Qed.

(** The replicas of [e] in a part of the local range. *)
Lemma head_filter (m : list Z) e a b : match head (filter (fun x => m !! Z.to_nat x = Some e) (arange a b)) with
  | Some x => a ≤ x < b ∧ m !! Z.to_nat x = Some e ∧ ∀ y, a ≤ y < x → m !! Z.to_nat y ≠ Some e
  | None => ∀ y, a ≤ y < b → m !! Z.to_nat y ≠ Some e end.
Proof using.
  clear. destruct (Z.le_gt_cases b a) as [H|H]; [rewrite arange_empty by done; intros y Hy; lia|].
  replace b with (a + Z.of_nat (Z.to_nat (b - a))) by lia. generalize (Z.to_nat (b - a)) as n. clear b H. intros n. revert a.
  induction n as [|n IH]; intros a; [rewrite arange_empty by lia; intros y Hy; lia|]. rewrite arange_cons by lia.
  replace (a + Z.of_nat (S n)) with (a + 1 + Z.of_nat n) by lia. rewrite filter_cons. case_decide as Ha; simpl.
  - split; [lia|]. split; [done|]. intros y Hy. lia.
  - specialize (IH (a + 1)). destruct (head _) as [x|].
    + destruct IH as (I1 & I2 & I3). split; [lia|]. split; [done|]. intros y Hy. destruct (decide (y = a)) as [->|]; [done|]. apply I3. lia.
    + intros y Hy. destruct (decide (y = a)) as [->|]; [done|]. apply IH. lia.
Qed.

Lemma first_loc_unique m r e x : local r x → m !! Z.to_nat x = Some e → (∀ y, r * num_local ≤ y < x → m !! Z.to_nat y ≠ Some e) → first_loc m r e = x.
Proof using.
  clear. intros Hx Hm Hno. unfold first_loc, local in *. pose proof (head_filter m e (r * num_local) ((r + 1) * num_local)) as Hh.
  destruct (head _) as [y|]; simpl; [|by destruct (Hh x Hx)]. destruct Hh as (H1 & H2 & H3).
  destruct (Z.lt_trichotomy x y) as [Hlt|[->|Hlt]]; [|done|]; exfalso; [apply (H3 x); [lia|done]|apply (Hno y); [lia|done]].
Qed.

Lemma first_loc_ok m r e x : local r x → m !! Z.to_nat x = Some e → local r (first_loc m r e) ∧ m !! Z.to_nat (first_loc m r e) = Some e.
Proof using.
  clear. intros Hx Hm. unfold first_loc, local in *. pose proof (head_filter m e (r * num_local) ((r + 1) * num_local)) as Hh.
  destruct (head _) as [y|]; simpl; [|by destruct (Hh x Hx)]. destruct Hh as (H1 & H2 & H3). done.
Qed.

Lemma has_local m r e : 0 ≤ r → has num_local m r e ↔ ∃ x, local r x ∧ m !! Z.to_nat x = Some e.
Proof using Hlocal.
  intros Hr. split.
  - intros (x & H0 & Hx & E). exists x. split; [|done]. unfold local. pose proof (Z.div_mod x num_local ltac:(lia)). pose proof (Z.mod_pos_bound x num_local Hlocal). nia.
  - intros (x & Hx & Hm). exists x. destruct (local_mod r x Hx) as (_ & _ & E). unfold local in Hx. split; [nia|done].
Qed.

Lemma needs_srcs r e : r ∈ needs_of e → srcs_of e ≠ [] ∧ r ∉ srcs_of e.
Proof using Hlocal Hold Hnew Hcover.
  intros [Hn Ho]%(proj2 (needs_ok old new num_local Hlocal ltac:(by rewrite Hnew, Hold) e)). split.
  - destruct Hn as (x & _ & Hx & _). assert (e ∈ old) as (y & Hy)%list_elem_of_lookup by (apply Hcover; by eapply list_elem_of_lookup_2).
    intros E. assert (Z.of_nat y / num_local ∈ srcs_of e) as Hin.
    { apply (proj2 (srcs_ok old num_local Hlocal e)). exists (Z.of_nat y). rewrite Nat2Z.id. split; [lia|done]. }
    rewrite E in Hin. by apply elem_of_nil in Hin.
  - by rewrite (proj2 (srcs_ok old num_local Hlocal e)).
Qed.

(** ** Receives *)

Definition holds (m : list Z) (r : Z) (ts : tensors) : Prop :=
  shape ts ∧ ∀ i x, 0 ≤ i < num_tensors → local r x → cell ts i (x mod num_local) = value i <$> m !! Z.to_nat x.

(** The buffer of [x] has the weights that [x] will have. *)
Definition filled (temp : tensors) (x : Z) : Prop :=
  ∀ i, 0 ≤ i < num_tensors → cell temp i (x mod num_local) = value i <$> new !! Z.to_nat x.

Definition copy_ok (r : Z) (temp : tensors) (sd : Z * Z) : Prop :=
  local r sd.1 ∧ local r sd.2 ∧ new !! Z.to_nat sd.1 = new !! Z.to_nat sd.2 ∧
  (filled temp sd.1 ∨ ∃ e, r ∈ needs_of e ∧ sd.1 = first_loc new r e).

(** After the physical experts of the rank below [d]. *)
Record received (r d : Z) (st : transfer (W := W)) : Prop := mk_received {
  rc_shape : shape (temp_buffers st);
  rc_infos : ∃ ks, p2p_op_infos st = info_of r <$> ks ∧ NoDup ks ∧
    ∀ e, e ∈ ks ↔ r ∈ needs_of e ∧ ∃ x, r * num_local ≤ x < d ∧ new !! Z.to_nat x = Some e;
  rc_copies : Forall (copy_ok r (temp_buffers st)) (buffer2weight_copy_infos st);
  rc_done : ∀ x, r * num_local ≤ x < d → old !! Z.to_nat x ≠ new !! Z.to_nat x → x ∈ (buffer2weight_copy_infos st).*2;
}.

Lemma lookup_map (m : list Z) r x : len m = world * num_local → 0 ≤ r < world → local r x → ∃ e, m !! Z.to_nat x = Some e.
Proof using Hlocal. clear Hold Hnew Hcover. intros Hm Hr Hx%local_range; [|done]. apply lookup_lt_is_Some_2. unfold len in *. lia. Qed.

Lemma range_in (m : list Z) r b : len m = world * num_local → 0 ≤ r < world → b ≤ (r + 1) * num_local → Forall (fun x => 0 ≤ x < len m) (arange (r * num_local) b).
Proof using Hlocal. clear Hold Hnew Hcover. intros Hm Hr Hb. apply Forall_forall. intros x Hx%elem_of_arange. rewrite Hm. nia. Qed.

Lemma create_recv_ok r st e a dst : shape (temp_buffers st) → local r dst →
  _create_p2p_recv_and_buffer2weight_copy num_local r num_tensors st e a dst =
    Ok (mkTransfer (temp_buffers st) (buffer2weight_copy_infos st ++ [(dst, dst)])
          (p2p_op_infos st ++ [(e, (fun i => mkOp irecv (i, dst mod num_local) a) <$> arange 0 num_tensors)])).
Proof using Hlocal.
  intros Hs Hd. unfold _create_p2p_recv_and_buffer2weight_copy. set (f := fun i => _ ;; _).
  assert (∀ l, Forall (fun i => 0 ≤ i < num_tensors) l → mapM f l = Ok ((fun i => mkOp irecv (i, dst mod num_local) a) <$> l)) as Hm.
  { induction 1 as [|i l Hi _ IH]; [done|]. cbn [mapM]. rewrite IH. unfold f. destruct (get_tensor_ok r _ i dst Hs Hi Hd) as (v & -> & _).
    cbn [mbind pyres_bind]. by rewrite (get_local_ok r dst Hd). }
  rewrite Hm; [done|]. apply Forall_forall. intros i Hi%elem_of_arange. lia.
Qed.

(** The condition on the lists of [received] when [d] is done. *)
Lemma needs_step r d e (ks : list Z) : new !! Z.to_nat d = Some e → r * num_local ≤ d →
  (∀ e', e' ∈ ks ↔ r ∈ needs_of e' ∧ ∃ x, r * num_local ≤ x < d ∧ new !! Z.to_nat x = Some e') → (r ∉ needs_of e ∨ e ∈ ks) →
  ∀ e', e' ∈ ks ↔ r ∈ needs_of e' ∧ ∃ x, r * num_local ≤ x < d + 1 ∧ new !! Z.to_nat x = Some e'.
Proof using.
  intros Hd Hr Hks He e'. rewrite Hks. split; intros [Hn (x & Hx & Ex)]; (split; [done|]).
  - exists x. split; [lia|done].
  - destruct (decide (x = d)) as [->|]; [|exists x; split; [lia|done]]. rewrite Hd in Ex. injection Ex as ->. destruct He as [He|He]; [done|]. by apply Hks in He as [_ He].
Qed.

Lemma handle_recv_step r w d st : 0 ≤ r < world → holds old r w → local r d → received r d st →
  ∃ st', _handle_recv_of_dst_expert_location old new num_local g r (r / g) w st d = Ok st' ∧ received r (d + 1) st'.
Proof using Hlocal Htensors Hold Hnew Hcover.
  intros Hr [Hw Hvals] Hd [Hs (ks & Hi & Hnd & Hks) Hc Hdone]. unfold _handle_recv_of_dst_expert_location.
  assert (len new = len old) as Hlen by (by rewrite Hnew, Hold). pose proof (local_range r d Hr Hd) as Hd0.
  destruct (lookup_map new r d Hnew Hr Hd) as [e He]. destruct (lookup_map old r d Hold Hr Hd) as [o Ho].
  rewrite (py_index_ok new d e), (py_index_ok old d o) by (lia || done). cbn [mbind pyres_bind].
  assert (r * num_local ≤ d < (r + 1) * num_local) as Hdr by exact Hd.
  pose proof (proj2 (needs_ok old new num_local Hlocal Hlen e) r) as Hneed. rewrite !has_local in Hneed by lia.
  assert (∀ copies : list (Z * Z), d ∈ copies.*2 → (∀ x, x ∈ (buffer2weight_copy_infos st).*2 → x ∈ copies.*2) →
    ∀ x, r * num_local ≤ x < d + 1 → old !! Z.to_nat x ≠ new !! Z.to_nat x → x ∈ copies.*2) as Hdone'.
  { intros copies H1 H2 x Hx Hne. destruct (decide (x = d)) as [->|]; [done|]. apply H2, Hdone; [lia|done]. }
  destruct (Z.eqb_spec o e) as [->|Hoe].
  { exists st. split; [done|]. split; [done| |done|].
    - exists ks. split; [done|]. split; [done|]. eapply needs_step; [done|lia|done|]. left. rewrite Hneed. intros [_ []]. by exists d.
    - intros x Hx Hne. destruct (decide (x = d)) as [->|]; [congruence|]. apply Hdone; [lia|done]. }
  rewrite (first_at_head old e (arange (r * num_local) ((r + 1) * num_local))) by (apply range_in; [done..|lia]). cbn [mbind pyres_bind].
  pose proof (head_filter old e (r * num_local) ((r + 1) * num_local)) as Hsame. destruct (head _) as [src|].
  { destruct Hsame as (Hsrc & Esrc & _). replace (len w) with num_tensors by (by destruct Hw).
    destruct (copy_expert_ok r w src (temp_buffers st) d Hw Hs Hsrc Hd) as (temp & -> & St & Ct). cbn [mbind pyres_bind]. eexists. split; [reflexivity|].
    assert (filled temp d) as Hfd.
    { intros i Hin. destruct (local_mod r d Hd) as (_ & Hm & _). rewrite (Ct i _ Hin Hm), decide_True by done. rewrite (Hvals i src Hin Hsrc), Esrc, He. done. }
    split; cbn [temp_buffers p2p_op_infos buffer2weight_copy_infos]; [done| | |].
    - exists ks. split; [done|]. split; [done|]. eapply needs_step; [done|lia|done|]. left. rewrite Hneed. intros [_ []]. by exists src.
    - apply Forall_app. split; [|constructor; [|constructor]; split_and!; try done; by left]. eapply Forall_impl; [exact Hc|]. intros [s d'] (C1 & C2 & C3 & C4). split_and!; try done.
      destruct C4 as [C4|C4]; [left|by right]. simpl in *. destruct (decide (s = d)) as [->|Hne]; [done|]. intros i Hin. destruct (local_mod r s C1) as (_ & Hm & _).
      rewrite (Ct i _ Hin Hm), decide_False; [by apply C4|]. intros E. apply Hne. by eapply mod_local_inj.
    - apply Hdone'; rewrite fmap_app; [apply elem_of_app; right; apply list_elem_of_here|intros x Hx; apply elem_of_app; by left]. }
  assert (r ∈ needs_of e) as Hin.
  { apply Hneed. split; [by exists d|]. intros (x & Hx & Ex). by apply (Hsame x Hx). }
  rewrite (first_at_head new e (arange (r * num_local) d)) by (apply range_in; [done..|lia]). cbn [mbind pyres_bind].
  pose proof (head_filter new e (r * num_local) d) as Hfree. destruct (head _) as [src|].
  { destruct Hfree as (Hsrc & Esrc & Hfirst). eexists. split; [reflexivity|]. assert (local r src) as Hls by (unfold local; lia).
    split; cbn [temp_buffers p2p_op_infos buffer2weight_copy_infos]; [done| | |].
    - exists ks. split; [done|]. split; [done|]. eapply needs_step; [done|lia|done|]. right. apply Hks. split; [done|]. by exists src.
    - apply Forall_app. split; [done|]. constructor; [|constructor]. split_and!; simpl; try done; [congruence|]. right. exists e. split; [done|].
      symmetry. by apply first_loc_unique.
    - apply Hdone'; rewrite fmap_app; [apply elem_of_app; right; apply list_elem_of_here|intros x Hx; apply elem_of_app; by left]. }
  rewrite (comm_info_ok old new num_local g Hlen). cbn [mbind pyres_bind].
  destruct (needs_srcs r e Hin) as [Hne Hnot]. destruct (source_ok old new num_local g Hlocal Hlen r e Hin Hne) as (a & Ea & Ha & _).
  pose proof Ea as Ea'. unfold source in Ea'. rewrite Ea'. cbn [mbind pyres_bind]. replace (len w) with num_tensors by (by destruct Hw).
  rewrite create_recv_ok by done. eexists. split; [reflexivity|].
  assert (first_loc new r e = d) as Hloc by (apply first_loc_unique; done).
  split; cbn [temp_buffers p2p_op_infos buffer2weight_copy_infos]; [done| | |].
  - exists (ks ++ [e]). split; [|split].
    + rewrite fmap_app, Hi. f_equal. cbn. f_equal. unfold info_of, expert_ops. rewrite bool_decide_false by done. by rewrite Hloc; unfold src_rank; rewrite Ea.
    + apply NoDup_app. split; [done|]. split; [|apply NoDup_singleton]. intros x Hx ->%list_elem_of_singleton. apply Hks in Hx as [_ (y & Hy & Ey)]. by apply (Hfree y).
    + intros e'. rewrite elem_of_app, Hks, list_elem_of_singleton. split.
      * intros [[Hn (x & Hx & Ex)]| ->]; (split; [done|]); [exists x; split; [lia|done]|exists d; split; [lia|done]].
      * intros [Hn (x & Hx & Ex)]. destruct (decide (x = d)) as [->|]; [right; congruence|]. left. split; [done|]. exists x. split; [lia|done].
  - apply Forall_app. split; [done|]. constructor; [|constructor]. split_and!; simpl; try done. right. by exists e.
  - apply Hdone'; rewrite fmap_app; [apply elem_of_app; right; apply list_elem_of_here|intros x Hx; apply elem_of_app; by left].
Qed.

(** A loop over the physical experts of a rank. *)
Lemma local_loop {St} (f : St → Z → pyres St) (I : Z → St → Prop) r s0 :
  I (r * num_local) s0 → (∀ d s, local r d → I d s → ∃ s', f s d = Ok s' ∧ I (d + 1) s') →
  ∃ s, foldl (fun acc d => s ← acc; f s d) (Ok s0) (arange (r * num_local) ((r + 1) * num_local)) = Ok s ∧ I ((r + 1) * num_local) s.
Proof using Hlocal.
  clear Hold Hnew Hcover Htensors. intros H0 Hstep. assert (∀ n : nat, Z.of_nat n ≤ num_local →
    ∃ s, foldl (fun acc d => s ← acc; f s d) (Ok s0) (arange (r * num_local) (r * num_local + Z.of_nat n)) = Ok s ∧ I (r * num_local + Z.of_nat n) s) as Hn.
  { induction n as [|n IH]; intros Hn; [rewrite Z.add_0_r, arange_empty by lia; by exists s0|]. destruct IH as (s & Es & Is); [lia|].
    rewrite (arange_app _ (r * num_local + Z.of_nat n)), foldl_app, Es by lia. rewrite arange_cons, arange_empty by lia. cbn [foldl mbind pyres_bind].
    destruct (Hstep (r * num_local + Z.of_nat n) s) as (s' & -> & Is'); [unfold local; lia|done|]. exists s'. split; [done|].
    by replace (r * num_local + Z.of_nat (S n)) with (r * num_local + Z.of_nat n + 1) by lia. }
  destruct (Hn (Z.to_nat num_local)) as (s & Es & Is); [lia|]. rewrite Z2Nat.id in Es, Is by lia.
  replace ((r + 1) * num_local) with (r * num_local + num_local) by lia. by exists s.
Qed.

Lemma handle_recv_ok r w temp : 0 ≤ r < world → holds old r w → shape temp →
  ∃ st, _handle_recv old new num_local g r (r / g) w temp = Ok st ∧ received r ((r + 1) * num_local) st.
Proof using Hlocal Htensors Hold Hnew Hcover.
  intros Hr Hw Ht. apply (local_loop _ (fun d st => received r d st)).
  - split; cbn [temp_buffers p2p_op_infos buffer2weight_copy_infos]; [done| |constructor|intros x Hx; lia]. exists []. split; [done|]. split; [constructor|].
    intros e. split; [by intros ?%elem_of_nil|]. intros [_ (x & Hx & _)]. lia.
  - intros d st Hd Hst. by apply handle_recv_step.
Qed.

(** ** Sends *)

Lemma create_isend_ok r w e src : 0 ≤ r < world → holds old r w → local r src → old !! Z.to_nat src = Some e → first_loc old r e = src →
  _create_isend_ops_of_logical_expert_id old new num_local g r (r / g) w e src = Ok (info_of r e).
Proof using Hlocal Hold Hnew.
  intros Hr [Hw _] Hs He Hf. unfold _create_isend_ops_of_logical_expert_id. assert (len new = len old) as Hlen by (by rewrite Hnew, Hold).
  rewrite (comm_info_ok old new num_local g Hlen). cbn [mbind pyres_bind].
  assert (r ∈ srcs_of e) as Hin by (apply (proj2 (srcs_ok old num_local Hlocal e)), has_local; [lia|by exists src]).
  destruct (dests_ok old new num_local g Hlocal Hlen r e Hin) as (l & El & _). unfold info_of, expert_ops, dst_ranks. rewrite El, bool_decide_true by done.
  unfold dests in El. destruct (element_values_from_chunk_value (same_chunks old new num_local g (r / g) e) r) as [s1|] eqn:E1; [|done].
  cbn [mbind pyres_bind] in El. destruct (element_values_from_chunk_value (cross_chunks old new num_local g e) r) as [c1|] eqn:E2; [|done]. injection El as <-.
  cbn [mbind pyres_bind]. replace (len w) with num_tensors by (by destruct Hw). rewrite Hf.
  set (f := fun di : Z * Z => _ ;; _). match goal with |- context [mapM f (?l ≫= _)] => generalize l as ds end. intros ds.
  assert (∀ l, Forall (fun di => 0 ≤ di.2 < num_tensors) l → mapM f l = Ok ((fun di => mkOp isend (di.2, src mod num_local) di.1) <$> l)) as Hm.
  { induction 1 as [|[d i] l Hi _ IH]; [done|]. cbn [mapM]. rewrite IH. unfold f. simpl in Hi |- *. destruct (get_tensor_ok r w i src Hw Hi Hs) as (v & -> & _).
    cbn [mbind pyres_bind]. by rewrite (get_local_ok r src Hs). }
  rewrite Hm.
  - cbn [mbind pyres_bind mret pyres_ret]. do 2 f_equal. induction ds as [|d ds IH]; [done|]. cbn [mbind list_bind]. rewrite fmap_app, IH. f_equal. by rewrite <-list_fmap_compose.
  - apply Forall_forall. intros [d i] (d' & (j & [= -> ->] & Hj%elem_of_arange)%list_elem_of_fmap & _)%list_elem_of_bind. simpl. lia.
Qed.

(** After the physical experts of the rank below [d]. *)
Definition sent (r : Z) (infos : list (Z * list P2POp)) (d : Z) (st : list Z * list (Z * list P2POp)) : Prop :=
  ∃ ks, st.2 = infos ++ (info_of r <$> ks) ∧ NoDup ks ∧ (∀ e, e ∈ st.1 ↔ e ∈ ks) ∧
    ∀ e, e ∈ ks ↔ ∃ x, r * num_local ≤ x < d ∧ old !! Z.to_nat x = Some e.

Lemma create_isend_step r w infos d st : 0 ≤ r < world → holds old r w → local r d → sent r infos d st →
  ∃ st', create_isend_of_location old new num_local g r (r / g) w st d = Ok st' ∧ sent r infos (d + 1) st'.
Proof using Hlocal Hold Hnew.
  intros Hr Hw Hd (ks & Es & Hnd & Hst & Hks). unfold create_isend_of_location. pose proof (local_range r d Hr Hd) as Hd0.
  destruct (lookup_map old r d Hold Hr Hd) as [e He]. rewrite (py_index_ok old d e) by (lia || done). cbn [mbind pyres_bind]. unfold local in Hd.
  assert (∀ e', (∃ x, r * num_local ≤ x < d + 1 ∧ old !! Z.to_nat x = Some e') ↔ e' ∈ ks ∨ e' = e) as Hstep.
  { intros e'. rewrite Hks. split.
    - intros (x & Hx & Ex). destruct (decide (x = d)) as [->|]; [right; congruence|left; exists x; split; [lia|done]].
    - intros [(x & Hx & Ex)| ->]; [exists x; split; [lia|done]|exists d; split; [lia|done]]. }
  case_bool_decide as Hin.
  - exists st. split; [done|]. exists ks. split_and!; [done..|]. intros e'. rewrite Hstep. split; [by left|]. intros [?| ->]; [done|]. by apply Hst.
  - rewrite Hst in Hin. rewrite (create_isend_ok r w e d Hr Hw Hd He).
    + cbn [mbind pyres_bind]. eexists. split; [reflexivity|]. exists (ks ++ [e]). split_and!; cbn [fst snd].
      * by rewrite Es, fmap_app, app_assoc.
      * apply NoDup_app. split; [done|]. split; [|apply NoDup_singleton]. by intros x Hx ->%list_elem_of_singleton.
      * intros e'. rewrite elem_of_cons, Hst, elem_of_app, list_elem_of_singleton. tauto.
      * intros e'. rewrite Hstep, elem_of_app, list_elem_of_singleton. done.
    + apply first_loc_unique; [done..|]. intros y Hy Ey. apply Hin, Hks. by exists y.
Qed.

(** What a rank has prepared: one entry for each expert that it sends or
    receives. *)
Record prepared (r : Z) (st : transfer (W := W)) : Prop := mk_prepared {
  pr_shape : shape (temp_buffers st);
  pr_infos : ∃ ks, p2p_op_infos st = info_of r <$> ks ∧ NoDup ks ∧ ∀ e, e ∈ ks ↔ r ∈ srcs_of e ∨ r ∈ needs_of e;
  pr_copies : Forall (copy_ok r (temp_buffers st)) (buffer2weight_copy_infos st);
  pr_done : ∀ x, local r x → old !! Z.to_nat x ≠ new !! Z.to_nat x → x ∈ (buffer2weight_copy_infos st).*2;
}.

Lemma prepare_ok r w temp : 0 ≤ r < world → g ≠ 0 → holds old r w → shape temp → ∃ st, prepare old new num_local g r w temp = Ok st ∧ prepared r st.
Proof using Hlocal Htensors Hold Hnew Hcover.
  intros Hr Hg Hw Ht. unfold prepare. assert (forallb (fun t => len t =? num_local) w = true) as ->.
  { apply forallb_forall. intros t Hin%list_elem_of_In. apply Z.eqb_eq. by apply (proj1 (Forall_forall _ _) (proj2 (proj1 Hw))). }
  unfold py_divmod. rewrite (proj2 (Z.eqb_neq g 0) Hg). cbn [py_assert mbind pyres_bind mret pyres_ret].
  destruct (handle_recv_ok r w temp Hr Hw Ht) as (st & -> & [Hs (ks & Hi & Hnd & Hks) Hc Hd]). cbn [mbind pyres_bind].
  destruct (local_loop (create_isend_of_location old new num_local g r (r / g) w) (sent r (p2p_op_infos st)) r ([], p2p_op_infos st)) as ([h infos] & E & (ks2 & E2 & Hnd2 & _ & Hks2)).
  { exists []. split; [simpl; by rewrite app_nil_r|]. split; [constructor|]. split; [done|]. intros e. split; [by intros ?%elem_of_nil|]. intros (x & Hx & _). lia. }
  { intros d st' Hld Hst'. by apply create_isend_step. }
  unfold _create_isend_ops. change (mret ([], p2p_op_infos st)) with (Ok (@nil Z, p2p_op_infos st)). rewrite E. cbn [mbind pyres_bind]. simpl in E2. subst infos.
  eexists. split; [reflexivity|]. split; cbn [temp_buffers p2p_op_infos buffer2weight_copy_infos snd]; [done| |done|exact Hd].
  assert (∀ e, e ∈ ks ↔ r ∈ needs_of e) as Hk1.
  { intros e. rewrite Hks. split; [by intros [? _]|]. intros Hn. split; [done|]. apply (proj2 (needs_ok old new num_local Hlocal ltac:(by rewrite Hnew, Hold) e)) in Hn as [Hn _].
    by apply has_local in Hn; [|lia]. }
  assert (∀ e, e ∈ ks2 ↔ r ∈ srcs_of e) as Hk2.
  { intros e. rewrite Hks2, (proj2 (srcs_ok old num_local Hlocal e)), has_local by lia. done. }
  exists (ks ++ ks2). split; [by rewrite fmap_app, Hi|]. split.
  - apply NoDup_app. split; [done|]. split; [|done]. intros e H1%Hk1 H2%Hk2. by apply (needs_srcs r e H1).
  - intros e. rewrite elem_of_app, Hk1, Hk2. tauto.
Qed.

(** ** Messages *)

Lemma sort_infos_perm l : sort_infos l ≡ₚ l.
Proof using.
  clear. induction l as [|x l IH]; [done|]. unfold sort_infos in *. cbn [foldr]. rewrite <-IH at 2. generalize (foldr insert_info [] l) as k. clear.
  induction k as [|y k IH]; [done|]. cbn [insert_info]. destruct (x.1 <=? y.1); [done|]. rewrite IH. apply Permutation_swap.
Qed.

Lemma sort_infos_sorted l : StronglySorted Z.le (sort_infos l).*1.
Proof using.
  clear. induction l as [|x l IH]; [constructor|]. unfold sort_infos in *. cbn [foldr]. revert IH. generalize (foldr insert_info [] l) as k. clear.
  induction k as [|y k IH]; intros Hk; [by repeat constructor|]. apply StronglySorted_inv in Hk as [Hk Hy]. cbn [insert_info]. destruct (Z.leb_spec x.1 y.1) as [Hle|Hlt].
  - rewrite !fmap_cons. constructor; [by constructor|]. constructor; [done|]. eapply Forall_impl; [exact Hy|]. simpl. lia.
  - rewrite fmap_cons. constructor; [by apply IH|]. assert (insert_info x k ≡ₚ x :: k) as ->.
    { clear. induction k as [|y k IH]; [done|]. cbn [insert_info]. destruct (x.1 <=? y.1); [done|]. rewrite IH. apply Permutation_swap. }
    rewrite fmap_cons. constructor; [lia|done].
Qed.

(** The experts that a rank sends or receives, in order. *)
Definition experts_of (r : Z) (ks : list Z) : Prop := StronglySorted Z.lt ks ∧ ∀ e, e ∈ ks ↔ r ∈ srcs_of e ∨ r ∈ needs_of e.

Lemma p2p_ops_ok r st : prepared r st → ∃ ks, p2p_ops st = ks ≫= expert_ops r ∧ experts_of r ks.
Proof using.
  intros [_ (ks & Hi & Hnd & Hks) _ _]. exists (sort_infos (p2p_op_infos st)).*1. pose proof (sort_infos_perm (p2p_op_infos st)) as Hp.
  pose proof (sort_infos_sorted (p2p_op_infos st)) as Hs. unfold p2p_ops. set (l := sort_infos _) in *.
  assert ((p2p_op_infos st).*1 = ks) as Ek by (rewrite Hi, <-list_fmap_compose; apply list_fmap_id).
  assert (l.*1 ≡ₚ ks) as Hpk by (by rewrite Hp, Ek). split; [|split].
  - assert (Forall (fun x => x.2 = expert_ops r x.1) l) as Hl by (rewrite Hp, Hi; apply Forall_fmap, Forall_forall; done). clear -Hl.
    induction Hl as [|x l Hx _ IH]; [done|]. cbn. by rewrite Hx, <-IH.
  - assert (NoDup l.*1) as Hnd' by (by rewrite Hpk). clear -Hs Hnd'. induction Hs as [|x k Hk IH Hx]; [constructor|]. apply NoDup_cons in Hnd' as [Hni Hnd'].
    constructor; [by apply IH|]. apply Forall_forall. intros y Hy. pose proof (proj1 (Forall_forall _ _) Hx y Hy). assert (x ≠ y) by (by intros ->). simpl in *. lia.
  - intros e. by rewrite Hpk.
Qed.

Definition expert_messages (r e : Z) : list (message W) :=
  if bool_decide (r ∈ srcs_of e) then dst_ranks r e ≫= fun d => (fun i => Send d (value i e)) <$> arange 0 num_tensors
  else (fun _ => Recv (src_rank r e)) <$> arange 0 num_tensors.

Lemma expert_messages_ok r w ks : 0 ≤ r < world → holds old r w → mapM (to_message w) (ks ≫= expert_ops r) = Ok (ks ≫= expert_messages r).
Proof using Hlocal.
  clear Hold Hnew Hcover. intros Hr [Hw Hv]. apply mapM_bind_ok. intros e _. unfold expert_ops, expert_messages. case_bool_decide as Hin.
  - apply (proj2 (srcs_ok old num_local Hlocal e)), has_local in Hin as (x & Hx & Ex); [|lia]. destruct (first_loc_ok old r e x Hx Ex) as [Hl El].
    apply mapM_bind_ok. intros d _. assert (Forall (fun i => 0 ≤ i < num_tensors) (arange 0 num_tensors)) as Hi by (apply Forall_forall; intros i Hi%elem_of_arange; lia).
    induction Hi as [|i l Hi _ IH]; [done|]. rewrite !fmap_cons. cbn [mapM]. rewrite IH. unfold to_message at 1. cbn [op op_tensor peer].
    destruct (local_mod r _ Hl) as (_ & Hm & _).
    rewrite (op_get_ok w i (first_loc old r e mod num_local) (value i e)); [done|lia|lia|].
    rewrite (Hv i _ Hi Hl), El. done.
  - induction (arange 0 num_tensors) as [|i l IH]; [done|]. rewrite !fmap_cons. cbn [mapM]. rewrite IH. done.
Qed.

(** What a rank receives: the sender, the tensor and the expert. *)
Definition tags (r : Z) (ks : list Z) : list (Z * (Z * Z)) :=
  ks ≫= fun e => if bool_decide (r ∈ srcs_of e) then [] else (fun i => (src_rank r e, (i, e))) <$> arange 0 num_tensors.
Definition tag_value (t : Z * (Z * Z)) : W := value t.2.1 t.2.2.
Definition tag_op (r : Z) (t : Z * (Z * Z)) : P2POp := mkOp irecv (t.2.1, first_loc new r t.2.2 mod num_local) t.1.

Lemma recv_peers_ok r ks : recv_peers (ks ≫= expert_messages r) = (tags r ks).*1.
Proof using.
  clear. unfold recv_peers, tags. induction ks as [|e ks IH]; [done|]. cbn [mbind list_bind]. rewrite omap_app, fmap_app. f_equal; [|exact IH].
  unfold expert_messages. case_bool_decide.
  - induction (dst_ranks r e) as [|d l IHl]; [done|]. cbn [mbind list_bind]. rewrite omap_app, IHl, app_nil_r. clear.
    induction (arange 0 num_tensors) as [|i l' IHl']; [done|]. rewrite fmap_cons. exact IHl'.
  - clear. induction (arange 0 num_tensors) as [|i l IHl]; [done|]. rewrite !fmap_cons. by apply (f_equal (cons (src_rank r e))) in IHl.
Qed.

Lemma recv_ops_ok r ks : filter (fun o => op o = irecv) (ks ≫= expert_ops r) = tag_op r <$> tags r ks.
Proof using.
  clear. unfold tags. induction ks as [|e ks IH]; [done|]. cbn [mbind list_bind]. rewrite filter_app, fmap_app. f_equal; [|exact IH].
  unfold expert_ops. case_bool_decide.
  - apply filter_none. intros o (d & (i & -> & _)%list_elem_of_fmap & _)%list_elem_of_bind. done.
  - rewrite filter_all; [|by intros o (i & -> & _)%list_elem_of_fmap]. by rewrite <-list_fmap_compose.
Qed.

Definition sends_filter (a b e : Z) : Prop := a ∈ srcs_of e ∧ b ∈ dst_ranks a e.
Definition recvs_filter (a b e : Z) : Prop := b ∉ srcs_of e ∧ src_rank b e = a.
#[local] Instance sends_filter_dec a b e : Decision (sends_filter a b e) := ltac:(unfold sends_filter; apply _).
#[local] Instance recvs_filter_dec a b e : Decision (recvs_filter a b e) := ltac:(unfold recvs_filter; apply _).

Lemma sends_to_ok a b ks : (∀ e, e ∈ ks → a ∈ srcs_of e → NoDup (dst_ranks a e)) →
  sends_to b (ks ≫= expert_messages a) = filter (sends_filter a b) ks ≫= fun e => (fun i => value i e) <$> arange 0 num_tensors.
Proof using.
  clear Hcover Hnew Hold. unfold sends_to. induction ks as [|e ks IH]; intros Hnd; [done|]. cbn [mbind list_bind]. rewrite omap_app, filter_cons.
  rewrite IH by (intros e' He; by apply Hnd, list_elem_of_further). clear IH. specialize (Hnd e ltac:(apply list_elem_of_here)). set (f := omap _).
  assert (f (expert_messages a e) = if decide (sends_filter a b e) then (fun i => value i e) <$> arange 0 num_tensors else []) as ->; [|by case_decide].
  unfold expert_messages, sends_filter. case_bool_decide as Ha.
  - specialize (Hnd Ha). assert (∀ d, f ((fun i => Send d (value i e)) <$> arange 0 num_tensors) = if d =? b then (fun i => value i e) <$> arange 0 num_tensors else []) as Hone.
    { intros d. induction (arange 0 num_tensors) as [|i l IH]; [by destruct (d =? b)|]. rewrite !fmap_cons. unfold f in *. cbn [omap list_omap].
      destruct (d =? b); [by rewrite IH|exact IH]. }
    assert (f (dst_ranks a e ≫= fun d => (fun i => Send d (value i e)) <$> arange 0 num_tensors) =
      if decide (b ∈ dst_ranks a e) then (fun i => value i e) <$> arange 0 num_tensors else []) as ->.
    { induction Hnd as [|d l Hd _ IH]; [by rewrite decide_False by apply not_elem_of_nil|]. cbn [mbind list_bind]. unfold f in *. rewrite omap_app, IH, Hone.
      destruct (Z.eqb_spec d b) as [->|Hne].
      - rewrite decide_False, decide_True by (apply list_elem_of_here || done). by rewrite app_nil_r.
      - simpl. apply decide_ext. rewrite elem_of_cons. split; [by right|]. by intros [?|?]. }
    apply decide_ext. tauto.
  - rewrite decide_False by tauto. clear. induction (arange 0 num_tensors) as [|i l IHl]; [done|]. rewrite fmap_cons. exact IHl.
Qed.

Lemma tags_from a b ks : filter (fun t => t.1 = a) (tags b ks) = filter (recvs_filter a b) ks ≫= fun e => (fun i => (a, (i, e))) <$> arange 0 num_tensors.
Proof using.
  clear. unfold tags. induction ks as [|e ks IH]; [done|]. cbn [mbind list_bind]. rewrite filter_app, filter_cons, IH. unfold recvs_filter. case_bool_decide as Hb.
  - by rewrite decide_False by tauto.
  - destruct (decide (src_rank b e = a)) as [<-|Hne].
    + rewrite decide_True by done. rewrite filter_all; [done|]. by intros t (i & -> & _)%list_elem_of_fmap.
    + rewrite decide_False by tauto. rewrite filter_none; [done|]. by intros t (i & -> & _)%list_elem_of_fmap.
Qed.

(** What [a] sends to [b] is what [b] expects from [a], in the same order. *)
Lemma transfers_match a b ka kb : experts_of a ka → experts_of b kb → filter (sends_filter a b) ka = filter (recvs_filter a b) kb.
Proof using Hlocal Hold Hnew Hcover.
  assert (len new = len old) as Hlen by (by rewrite Hnew, Hold). intros [Sa Ka] [Sb Kb]. apply sorted_ext; [by apply sorted_filter..|]. intros e.
  rewrite !list_elem_of_filter, Ka, Kb. unfold sends_filter, recvs_filter. split.
  - intros [[Ha Hb] _]. destruct (dests_ok old new num_local g Hlocal Hlen a e Ha) as (l & El & _ & Hl). unfold dst_ranks in Hb. rewrite El in Hb.
    apply Hl in Hb as [Hn Es]. destruct (needs_srcs b e Hn) as [_ Hnot]. unfold src_rank. rewrite Es. split; [done|by right].
  - intros [[Hnot Hs] [?|Hn]]; [done|]. destruct (needs_srcs b e Hn) as [Hne _]. destruct (source_ok old new num_local g Hlocal Hlen b e Hn Hne) as (a' & Es & Ha & _).
    unfold src_rank in Hs. rewrite Es in Hs. subst a'. split; [|by left]. split; [done|]. destruct (dests_ok old new num_local g Hlocal Hlen a e Ha) as (l & El & _ & Hl).
    unfold dst_ranks. rewrite El. by apply Hl.
Qed.

Lemma dst_ranks_NoDup a e : a ∈ srcs_of e → NoDup (dst_ranks a e) ∧ ∀ b, b ∈ dst_ranks a e → b ∈ needs_of e.
Proof using Hlocal Hold Hnew.
  assert (len new = len old) as Hlen by (by rewrite Hnew, Hold). intros Ha. destruct (dests_ok old new num_local g Hlocal Hlen a e Ha) as (l & El & Hnd & Hl).
  unfold dst_ranks. rewrite El. split; [done|]. intros b [? _]%Hl. done.
Qed.

Lemma rank_range e r : r ∈ srcs_of e ∨ r ∈ needs_of e → 0 ≤ r < world.
Proof using Hlocal Hold Hnew.
  assert (∀ m, len m = world * num_local → has num_local m r e → 0 ≤ r < world) as Hh.
  { intros m Hm (x & H0 & Hx & <-). apply lookup_range in Hx. split; [apply Z.div_pos; lia|]. apply Z.div_lt_upper_bound; lia. }
  intros [H|H]; [apply (proj2 (srcs_ok old num_local Hlocal e)) in H; exact (Hh old Hold H)|].
  apply (proj2 (needs_ok old new num_local Hlocal ltac:(by rewrite Hnew, Hold) e)) in H as [H _]. exact (Hh new Hnew H).
Qed.

Lemma tags_ok r ks : experts_of r ks → Forall (fun t => 0 ≤ t.1 < world ∧ 0 ≤ t.2.1 < num_tensors ∧ r ∈ needs_of t.2.2) (tags r ks).
Proof using Hlocal Hold Hnew Hcover.
  intros [_ Hk]. apply Forall_forall. intros t (e & Ht & He)%list_elem_of_bind. case_bool_decide as Hin; [by apply elem_of_nil in Ht|].
  apply list_elem_of_fmap in Ht as (i & -> & Hi%elem_of_arange). cbn [fst snd]. apply Hk in He as [?|Hn]; [done|]. split; [|split; [lia|done]].
  destruct (needs_srcs r e Hn) as [Hne _]. destruct (source_ok old new num_local g Hlocal ltac:(by rewrite Hnew, Hold) r e Hn Hne) as (a & Es & Ha & _).
  unfold src_rank. rewrite Es. apply (rank_range e). by left.
Qed.

Lemma from_cons {A} a p ps (x : A) row : from a (p :: ps) (x :: row) = if decide (p = a) then x :: from a ps row else from a ps row.
Proof using.
  unfold from. change (zip (p :: ps) (x :: row)) with ((p, x) :: zip ps row). rewrite filter_cons. simpl. by destruct (decide (p = a)).
Qed.

(** A row is determined by what comes from each rank. *)
Lemma row_unique (ts : list (Z * (Z * Z))) : ∀ row, Forall (fun t => 0 ≤ t.1 < world) ts → length row = length ts →
  (∀ a, 0 ≤ a < world → from a ts.*1 row = tag_value <$> filter (fun t => t.1 = a) ts) → row = tag_value <$> ts.
Proof using.
  clear. induction ts as [|t ts IH]; intros [|x row] Ht Hl Hf; try done. apply Forall_cons in Ht as [H0 Ht]. injection Hl as Hl. rewrite fmap_cons.
  pose proof (Hf t.1 H0) as Hx. rewrite fmap_cons, from_cons, filter_cons, !decide_True in Hx by done. rewrite fmap_cons in Hx. injection Hx as Hx Hx'.
  subst x. f_equal. apply IH; [done..|]. intros a Ha. specialize (Hf a Ha). rewrite fmap_cons, from_cons, filter_cons in Hf.
  destruct (decide (t.1 = a)); [|done]. rewrite fmap_cons in Hf. by injection Hf.
Qed.

(** ** The end *)

Definition right (ts : tensors) (i x : Z) : Prop := cell ts i (x mod num_local) = value i <$> new !! Z.to_nat x.

Lemma buffers_received r temp ks : 0 ≤ r < world → shape temp → experts_of r ks → ∃ temp',
  receive (ks ≫= expert_ops r) (tag_value <$> tags r ks) temp = Ok temp' ∧ shape temp' ∧
  (∀ x i, local r x → 0 ≤ i < num_tensors → right temp i x → right temp' i x) ∧ (∀ e, r ∈ needs_of e → filled temp' (first_loc new r e)).
Proof using Hlocal Hold Hnew Hcover.
  intros Hr Hs Hk. unfold receive. rewrite recv_ops_ok, zip_with_fmap_l, zip_with_fmap_r.
  assert (∀ ts temp, shape temp → Forall (fun t => 0 ≤ t.2.1 < num_tensors ∧ r ∈ needs_of t.2.2) ts → ∃ temp',
    foldl (fun acc (ox : P2POp * W) => ts ← acc; op_set ts (op_tensor ox.1) ox.2) (Ok temp) (zip_with (fun t t' => (tag_op r t, tag_value t')) ts ts) = Ok temp' ∧ shape temp' ∧
    (∀ x i, local r x → 0 ≤ i < num_tensors → right temp i x → right temp' i x) ∧ (∀ t, t ∈ ts → right temp' t.2.1 (first_loc new r t.2.2))) as Hloop.
  { clear temp Hs ks Hk. induction ts as [|t ts IH]; intros temp Hs Hts; [exists temp; split; [done|]; split; [done|]; split; [done|]; intros t Ht; by apply elem_of_nil in Ht|].
    apply Forall_cons in Hts as [[Hi Hn] Hts]. cbn [zip_with foldl fst snd mbind pyres_bind].
    assert (∃ x, local r x ∧ new !! Z.to_nat x = Some t.2.2) as (x0 & Hx0 & Ex0).
    { apply (proj2 (needs_ok old new num_local Hlocal ltac:(by rewrite Hnew, Hold) t.2.2)) in Hn as [Hn _]. by apply has_local in Hn; [|lia]. }
    destruct (first_loc_ok new r _ x0 Hx0 Ex0) as [Hl El]. destruct (local_mod r _ Hl) as (_ & Hm & _).
    destruct (op_set_ok temp t.2.1 (first_loc new r t.2.2 mod num_local) (tag_value t) Hs Hi Hm) as (temp1 & E1 & S1 & C1 & O1).
    assert (op_set temp (op_tensor (tag_op r t)) (tag_value t) = Ok temp1) as -> by exact E1.
    assert (right temp1 t.2.1 (first_loc new r t.2.2)) as Hnew1 by (unfold right; by rewrite C1, El).
    assert (∀ x i, local r x → 0 ≤ i < num_tensors → right temp i x → right temp1 i x) as Hkeep.
    { intros x i Hx Hii Hgood. destruct (decide (i = t.2.1 ∧ x = first_loc new r t.2.2)) as [[-> ->]|Hne]; [done|]. unfold right. rewrite O1; [done|lia| |].
      - apply (local_mod r x Hx).
      - intros [= -> E]. apply Hne. split; [done|]. by eapply mod_local_inj. }
    destruct (IH temp1 S1 Hts) as (temp' & E' & S' & K' & G'). exists temp'. split; [exact E'|]. split; [done|]. split; [by auto|].
    intros t' [->|Ht']%elem_of_cons; [by apply K'|by apply G']. }
  destruct (Hloop (tags r ks) temp Hs) as (temp' & E & S & K & G).
  { eapply Forall_impl; [by apply tags_ok|]. intros t (_ & H1 & H2). done. }
  exists temp'. split; [exact E|]. split; [done|]. split; [done|]. intros e Hn i Hi. apply (G (src_rank r e, (i, e))). apply list_elem_of_bind. exists e. split.
  - destruct (needs_srcs r e Hn) as [_ Hnot]. rewrite bool_decide_false by done. apply list_elem_of_fmap. exists i. split; [done|]. apply elem_of_arange. lia.
  - apply Hk. by right.
Qed.

Lemma copies_ok r ws temp infos : shape ws → shape temp → Forall (fun sd => local r sd.1 ∧ local r sd.2 ∧ new !! Z.to_nat sd.1 = new !! Z.to_nat sd.2 ∧ filled temp sd.1) infos →
  ∃ ws', _execute_buffer2weight_copies num_local r ws temp infos = Ok ws' ∧ shape ws' ∧
    (∀ x i, local r x → 0 ≤ i < num_tensors → right ws i x → right ws' i x) ∧ (∀ x i, x ∈ infos.*2 → 0 ≤ i < num_tensors → right ws' i x).
Proof using Hlocal.
  clear Hold Hnew Hcover. intros Hws Ht Hi. unfold _execute_buffer2weight_copies. replace (len ws) with num_tensors by (by destruct Hws). revert ws Hws.
  induction Hi as [|[s d] infos (Hs & Hd & E & Hf) _ IH]; intros ws Hws; [exists ws; split; [done|]; split; [done|]; split; [done|]; intros x i Hx; by apply elem_of_nil in Hx|].
  cbn [foldl mbind pyres_bind]. simpl in Hs, Hd, E, Hf. destruct (copy_expert_ok r temp s ws d Ht Hws Hs Hd) as (ws1 & E1 & S1 & C1). cbn [fst snd] in *.
  cbn [mret pyres_ret mbind pyres_bind]. rewrite E1.
  assert (∀ i, 0 ≤ i < num_tensors → right ws1 i d) as Hd1.
  { intros i Hi. destruct (local_mod r d Hd) as (_ & Hm & _). unfold right. rewrite (C1 i _ Hi Hm), decide_True by done. rewrite (Hf i Hi), E. destruct (cell_some ws i _ Hws Hi Hm) as (? & ? & _ & _ & _ & Hc).
    destruct (local_mod r s Hs) as (_ & Hms & _). destruct (cell_some temp i _ Ht Hi Hms) as (? & ? & _ & _ & _ & Hct). specialize (Hf i Hi). rewrite Hct, E in Hf. by rewrite <-Hf. }
  destruct (IH ws1 S1) as (ws' & E' & S' & K' & G'). exists ws'. split; [exact E'|]. split; [done|].
  split.
  - intros x i Hx Hii Hgood. apply K'; [done..|]. destruct (decide (x = d)) as [->|Hne]; [by apply Hd1|]. destruct (local_mod r x Hx) as (_ & Hm & _). unfold right.
    rewrite (C1 i _ Hii Hm), decide_False; [done|]. intros Em. apply Hne. by eapply mod_local_inj.
  - intros x i Hx Hii. rewrite fmap_cons in Hx. apply elem_of_cons in Hx as [->|Hx]; [apply K'; [done..|by apply Hd1]|by apply G'].
Qed.

Lemma finish_ok r w st ks : 0 ≤ r < world → holds old r w → prepared r st → p2p_ops st = ks ≫= expert_ops r → experts_of r ks →
  ∃ gp, finish num_local r w st (tag_value <$> tags r ks) = Ok gp ∧ holds new r (gpu_weights gp) ∧ shape (gpu_buffers gp).
Proof using Hlocal Hold Hnew Hcover.
  intros Hr [Hw Hv] [Hs _ Hc Hd] Ho Hk. unfold finish. rewrite Ho. destruct (buffers_received r (temp_buffers st) ks Hr Hs Hk) as (temp & -> & St & K & G). cbn [mbind pyres_bind].
  destruct (copies_ok r w temp (buffer2weight_copy_infos st) Hw St) as (ws & -> & Sw & Kw & Gw).
  { eapply Forall_impl; [exact Hc|]. intros [s d] (C1 & C2 & C3 & C4). split_and!; try done. simpl in *. destruct C4 as [C4|(e & Hn & ->)]; [|by apply G].
    intros i Hi. apply K; [done..|by apply C4]. }
  cbn [mbind pyres_bind]. eexists. split; [reflexivity|]. split; [|done]. split; [done|]. intros i x Hi Hx. cbn [gpu_weights].
  destruct (decide (old !! Z.to_nat x = new !! Z.to_nat x)) as [E|Hne].
  - apply Kw; [done..|]. unfold right. by rewrite (Hv i x Hi Hx), E.
  - apply Gw; [|done]. by apply Hd.
Qed.

(** A rank receives only what it lacks, from its own node if possible. *)
Lemma recv_local r st o : prepared r st → o ∈ p2p_ops st → op o = irecv →
  ∃ e, has num_local new r e ∧ ¬ has num_local old r e ∧ has num_local old (peer o) e ∧
    ((∃ r', has num_local old r' e ∧ r' / g = r / g) → peer o / g = r / g).
Proof using Hlocal Hold Hnew Hcover.
  assert (len new = len old) as Hlen by (by rewrite Hnew, Hold). intros Hp Ho Hop. destruct (p2p_ops_ok r st Hp) as (ks & Ek & Hk).
  assert (o ∈ tag_op r <$> tags r ks) as Hin by (rewrite <-recv_ops_ok, <-Ek; apply list_elem_of_filter; done).
  apply list_elem_of_fmap in Hin as (t & -> & Ht). pose proof (proj1 (Forall_forall _ _) (tags_ok r ks Hk) t Ht) as (_ & _ & Hn). exists t.2.2.
  apply (proj2 (needs_ok old new num_local Hlocal Hlen t.2.2)) in Hn as Hneed. split; [by apply Hneed|]. split; [by apply Hneed|].
  destruct (needs_srcs r _ Hn) as [Hne _]. destruct (source_ok old new num_local g Hlocal Hlen r _ Hn Hne) as (a & Es & Ha & Hpref).
  assert (t.1 = a) as Eta.
  { apply list_elem_of_bind in Ht as (e & Ht & _). case_bool_decide; [by apply elem_of_nil in Ht|]. apply list_elem_of_fmap in Ht as (i & -> & _). simpl in *. unfold src_rank. by rewrite Es. }
  cbn [tag_op peer]. rewrite Eta. split; [by apply (proj2 (srcs_ok old num_local Hlocal t.2.2))|]. intros (r' & Hr' & Er). apply Hpref, list_elem_of_fmap. exists r'. split; [done|].
  by apply (proj2 (srcs_ok old num_local Hlocal t.2.2)).
Qed.

(** ** All ranks *)

Definition gpus_hold (m : list Z) (gpus : list (gpu (W := W))) : Prop :=
  len gpus = world ∧ ∀ r gp, gpus !! r = Some gp → holds m (Z.of_nat r) (gpu_weights gp) ∧ shape (gpu_buffers gp).

Lemma messages_match `{PointToPoint W} (kss : list (list Z)) (ms : list (list (message W))) : len kss = world →
  (∀ r ks, kss !! r = Some ks → experts_of (Z.of_nat r) ks) → ms = imap (fun r ks => ks ≫= expert_messages (Z.of_nat r)) kss →
  ∃ out, batch_isend_irecv ms = Ok out ∧ length out = length kss ∧ ∀ r ks row, kss !! r = Some ks → out !! r = Some row → row = tag_value <$> tags (Z.of_nat r) ks.
Proof using Hlocal Hold Hnew Hcover.
  intros Hl Hk ->. assert (∀ r ks, kss !! r = Some ks → imap (fun r ks => ks ≫= expert_messages (Z.of_nat r)) kss !! r = Some (ks ≫= expert_messages (Z.of_nat r))) as Hms.
  { intros r ks Hr. by rewrite list_lookup_imap, Hr. }
  assert (∀ r l, imap (fun r ks => ks ≫= expert_messages (Z.of_nat r)) kss !! r = Some l → ∃ ks, kss !! r = Some ks ∧ l = ks ≫= expert_messages (Z.of_nat r)) as Hms'.
  { intros r l Hr. rewrite list_lookup_imap in Hr. destruct (kss !! r) as [ks|]; [|done]. injection Hr as <-. by exists ks. }
  assert (∀ a ka b, kss !! a = Some ka → sends_to b (ka ≫= expert_messages (Z.of_nat a)) =
    filter (sends_filter (Z.of_nat a) b) ka ≫= fun e => (fun i => value i e) <$> arange 0 num_tensors) as Hsend.
  { intros a ka b Ha. apply sends_to_ok. intros e _ Hin. by apply dst_ranks_NoDup. }
  assert (∀ a b ka kb, kss !! a = Some ka → kss !! b = Some kb →
    sends_to (Z.of_nat b) (ka ≫= expert_messages (Z.of_nat a)) = tag_value <$> filter (fun t => t.1 = Z.of_nat a) (tags (Z.of_nat b) kb)) as Hpair.
  { intros a b ka kb Ha Hb. rewrite (Hsend a ka (Z.of_nat b) Ha), tags_from, (transfers_match (Z.of_nat a) (Z.of_nat b) ka kb) by eauto.
    generalize (filter (recvs_filter (Z.of_nat a) (Z.of_nat b)) kb) as es. clear. induction es as [|e es IH]; [done|]. cbn [mbind list_bind]. rewrite fmap_app, <-IH, <-list_fmap_compose. done. }
  destruct (batch_matched (imap (fun r ks => ks ≫= expert_messages (Z.of_nat r)) kss)) as (out & Eo & Lo & Ho).
  - intros a la (ka & Ha & ->)%Hms'. apply Forall_forall. intros m (e & Hm & He)%list_elem_of_bind. unfold len. rewrite length_imap. fold (len kss). rewrite Hl.
    unfold expert_messages in Hm. case_bool_decide as Hin.
    + apply list_elem_of_bind in Hm as (d & (i & -> & _)%list_elem_of_fmap & Hd). apply (rank_range e). right. by apply (dst_ranks_NoDup _ _ Hin).
    + apply list_elem_of_fmap in Hm as (i & -> & Hi). pose proof (tags_ok _ _ (Hk a ka Ha)) as Ht. assert ((src_rank (Z.of_nat a) e, (i, e)) ∈ tags (Z.of_nat a) ka) as Hin'.
      { apply list_elem_of_bind. exists e. rewrite bool_decide_false by done. split; [|done]. apply list_elem_of_fmap. by exists i. }
      by apply (proj1 (Forall_forall _ _) Ht _ Hin').
  - intros a b la lb (ka & Ha & ->)%Hms' (kb & Hb & ->)%Hms'. rewrite (Hpair a b ka kb Ha Hb), recv_peers_ok, length_fmap.
    generalize (tags (Z.of_nat b) kb) as ts. clear. induction ts as [|t ts IH]; [done|]. rewrite fmap_cons, !filter_cons. case_decide; simpl; by rewrite IH.
  - exists out. split; [done|]. rewrite length_imap in Lo. split; [done|]. intros b kb row Hb Hrow. destruct (Ho b _ row (Hms b kb Hb) Hrow) as [Lr Hfrom].
    rewrite recv_peers_ok in Lr, Hfrom. apply row_unique.
    + eapply Forall_impl; [by apply tags_ok, Hk|]. intros t (H1 & _). done.
    + by rewrite Lr, length_fmap.
    + intros a Hr. destruct (lookup_lt_is_Some_2 kss (Z.to_nat a)) as [ka Ha]; [unfold len in *; lia|]. specialize (Hfrom _ _ (Hms _ _ Ha)). rewrite (Hpair _ _ _ _ Ha Hb), Z2Nat.id in Hfrom by lia. done.
Qed.

Lemma ops_of_all l : ∀ n : nat, (∀ r st, l !! r = Some st → prepared (Z.of_nat (n + r)) st) → ∃ kss, length kss = length l ∧
  ∀ r ks, kss !! r = Some ks → experts_of (Z.of_nat (n + r)) ks ∧ ∃ st, l !! r = Some st ∧ p2p_ops st = ks ≫= expert_ops (Z.of_nat (n + r)).
Proof using.
  clear. induction l as [|st l IH]; intros n Hp; [by exists []|]. destruct (p2p_ops_ok _ st (Hp 0%nat st eq_refl)) as (ks & Ek & Hk). rewrite Nat.add_0_r in Ek, Hk.
  destruct (IH (S n)) as (kss & Lk & Hkss); [intros r st' Hr; replace (S n + r)%nat with (n + S r)%nat by lia; by apply Hp|]. exists (ks :: kss). split; [simpl; by rewrite Lk|].
  intros [|r] ks' Hr; [injection Hr as <-; rewrite Nat.add_0_r; split; [done|by exists st]|]. replace (n + S r)%nat with (S n + r)%nat by lia. by apply Hkss.
Qed.

Lemma update_all_ok `{PointToPoint W} gpus : g ≠ 0 → gpus_hold old gpus → ∃ gpus', update_all old new num_local g gpus = Ok gpus' ∧ gpus_hold new gpus'.
Proof using Hlocal Htensors Hold Hnew Hcover.
  intros Hg [Hl Hh]. unfold update_all.
  assert (∀ r gp, gpus !! r = Some gp → zip (arange 0 (len gpus)) gpus !! r = Some (Z.of_nat r, gp)) as Hzip.
  { intros r gp Hr. apply lookup_zip_Some. split; [|done]. apply lookup_range in Hr as Hr'. apply lookup_seqZ. lia. }
  assert (length (zip (arange 0 (len gpus)) gpus) = length gpus) as Lz by (rewrite length_zip_with; pose proof (len_arange 0 (len gpus)); unfold len in *; lia).
  assert (∀ r gp, gpus !! r = Some gp → 0 ≤ Z.of_nat r < world) as Hrange by (intros r gp Hr%lookup_range; lia).
  destruct (mapM_lookup_ok (fun rg : Z * gpu => prepare old new num_local g rg.1 (gpu_weights rg.2) (gpu_buffers rg.2)) (fun r st => prepared (Z.of_nat r) st) (zip (arange 0 (len gpus)) gpus))
    as (sts & -> & Ls & Hs).
  { intros r [r' gp] (Hr & Hgp)%lookup_zip_Some. apply lookup_seqZ in Hr as [-> _]. rewrite Z.add_0_l. cbn [fst snd]. destruct (Hh r gp Hgp). apply prepare_ok; eauto. }
  cbn [mbind pyres_bind]. rewrite Lz in Ls.
  assert (∃ kss, length kss = length gpus ∧ ∀ r ks, kss !! r = Some ks → experts_of (Z.of_nat r) ks ∧ ∃ st, sts !! r = Some st ∧ p2p_ops st = ks ≫= expert_ops (Z.of_nat r)) as (kss & Lk & Hk).
  { destruct (ops_of_all sts 0%nat Hs) as (kss & Lk & Hk). exists kss. split; [by rewrite Lk|done]. }
  assert (mapM (fun gs : gpu * transfer => mapM (to_message (gpu_weights gs.1)) (p2p_ops gs.2)) (zip gpus sts) = Ok (imap (fun r ks => ks ≫= expert_messages (Z.of_nat r)) kss)) as ->.
  { destruct (mapM_lookup_ok (fun gs : gpu * transfer => mapM (to_message (gpu_weights gs.1)) (p2p_ops gs.2))
      (fun r l => ∀ ks, kss !! r = Some ks → l = ks ≫= expert_messages (Z.of_nat r)) (zip gpus sts)) as (ms & -> & Lm & Hm).
    - intros r [gp st] (Hgp & Hst)%lookup_zip_Some. destruct (lookup_lt_is_Some_2 kss r) as [ks Hks]; [rewrite Lk; by eapply lookup_lt_Some|].
      destruct (Hk r ks Hks) as (_ & st' & Hst' & Eo). rewrite Hst in Hst'. injection Hst' as <-. cbn [fst snd]. rewrite Eo, (expert_messages_ok (Z.of_nat r)) by (by apply (Hh r gp Hgp) || eauto).
      eexists. split; [done|]. intros ks' Hks'. congruence.
    - f_equal. rewrite length_zip_with in Lm. apply list_eq_same_length with (length kss); [by rewrite length_imap|lia|]. intros r x y _ Hx Hy. rewrite list_lookup_imap in Hy.
      destruct (kss !! r) as [ks|] eqn:E; [|done]. injection Hy as <-. by apply Hm. }
  cbn [mbind pyres_bind]. destruct (messages_match kss _ ltac:(unfold len in *; lia) (fun r ks Hr => proj1 (Hk r ks Hr)) eq_refl) as (out & -> & Lo & Ho). cbn [mbind pyres_bind].
  destruct (mapM_lookup_ok (fun x : Z * (gpu * (transfer * list W)) => finish num_local x.1 (gpu_weights x.2.1) x.2.2.1 x.2.2.2)
    (fun r gp => holds new (Z.of_nat r) (gpu_weights gp) ∧ shape (gpu_buffers gp)) (zip (arange 0 (len gpus)) (zip gpus (zip sts out)))) as (gpus' & -> & Lg & Hg').
  - intros r [r' [gp [st row]]] (Hr & (Hgp & (Hst & Hrow)%lookup_zip_Some)%lookup_zip_Some)%lookup_zip_Some. apply lookup_seqZ in Hr as [-> _]. rewrite Z.add_0_l. cbn [fst snd] in *.
    destruct (lookup_lt_is_Some_2 kss r) as [ks Hks]; [rewrite Lk; by eapply lookup_lt_Some|]. destruct (Hk r ks Hks) as (Hex & st' & Hst' & Eo). rewrite Hst in Hst'. injection Hst' as <-.
    rewrite (Ho r ks row Hks Hrow). apply finish_ok; eauto. by apply Hh.
  - exists gpus'. split; [done|]. split; [|done]. rewrite !length_zip_with in Lg. pose proof (len_arange 0 (len gpus)). unfold len in *. lia.
Qed.

End migration.

(** ** Properties *)

(** C13: the weights follow the placement.  Each GPU has the weights of its
    physical experts under the old placement, and every expert of the new
    placement is in the old one.  Then [update_expert_weights_single_layer],
    run by all ranks, raises no error; every send is met by a receive of the
    same tensor in the same order, so the ranks do not wait for ever; and at
    the end each GPU has the weights of its physical experts under the new
    placement, in every tensor.  This holds for any number of ranks, local
    experts, tensors and GPUs on a node. *)
Theorem expert_weights_migrated {W} `{PointToPoint W} (value : Z → Z → W) old new num_local g num_tensors world gpus :
  0 < num_local → 0 ≤ num_tensors → g ≠ 0 → len old = world * num_local → len new = world * num_local → (∀ e, e ∈ new → e ∈ old) →
  gpus_hold value num_local num_tensors world old gpus →
  ∃ gpus', update_all old new num_local g gpus = Ok gpus' ∧ gpus_hold value num_local num_tensors world new gpus'.
Proof. intros. by apply update_all_ok. Qed.

(** a rank receives only what it lacks, from its own node if possible.  In
    the same situation every receive that a rank prepares is for an expert that
    the new placement puts on it and that none of its physical experts had; it
    comes from a rank that had the expert, and from one on the same node if
    there is any. *)
Theorem expert_transfers_local {W} (value : Z → Z → W) old new num_local g num_tensors world rank weights temp :
  0 < num_local → 0 ≤ num_tensors → g ≠ 0 → len old = world * num_local → len new = world * num_local → (∀ e, e ∈ new → e ∈ old) →
  0 ≤ rank < world → holds value num_local num_tensors old rank weights → shape num_local num_tensors temp →
  ∃ st, prepare old new num_local g rank weights temp = Ok st ∧ ∀ o, o ∈ p2p_ops st → op o = irecv →
    ∃ e, has num_local new rank e ∧ ¬ has num_local old rank e ∧ has num_local old (peer o) e ∧
      ((∃ r, has num_local old r e ∧ r / g = rank / g) → peer o / g = rank / g).
Proof.
  intros Hl Ht Hg Ho Hn Hc Hr Hw Hs. destruct (prepare_ok value old new num_local g num_tensors world Hl Ht Ho Hn Hc rank weights temp Hr Hg Hw Hs) as (st & E & Hp).
  exists st. split; [done|]. intros o Hin Hop. by eapply recv_local.
Qed.

(** ** The instance *)

Lemma deliver_ok {W} (peers : list Z) : ∀ queues : list (list W), Forall (fun p => 0 ≤ p < len queues) peers →
  (∀ a q, queues !! a = Some q → length q = length (filter (fun p => p = Z.of_nat a) peers)) →
  ∃ row, deliver queues peers = Ok row ∧ length row = length peers ∧ ∀ a q, queues !! a = Some q → from (Z.of_nat a) peers row = q.
Proof.
  induction peers as [|p peers IH]; intros queues Hp Hq; cbn [deliver].
  - exists []. split; [done|]. split; [done|]. intros a q Ha. specialize (Hq a q Ha). destruct q; [done|]. done.
  - apply Forall_cons in Hp as [H0 Hp]. destruct (lookup_lt_is_Some_2 queues (Z.to_nat p)) as [q Hqp]; [unfold len in *; lia|].
    rewrite (proj2 (get_at_ok queues p q)) by (split; [lia|done]). cbn [mbind pyres_bind]. pose proof (Hq _ q Hqp) as Hl. rewrite Z2Nat.id, filter_cons, decide_True in Hl by (lia || done).
    destruct q as [|x q]; [done|]. injection Hl as Hl. unfold set_at. apply lookup_lt_Some in Hqp as Hlt.
    destruct (IH (<[Z.to_nat p:=q]> queues)) as (row & -> & Lr & Hr).
    + eapply Forall_impl; [exact Hp|]. intros y. unfold len. by rewrite length_insert.
    + intros a q' Ha. destruct (decide (a = Z.to_nat p)) as [->|Hne].
      * rewrite list_lookup_insert_eq in Ha by done. injection Ha as <-. by rewrite Z2Nat.id by lia.
      * rewrite list_lookup_insert_ne in Ha by done. specialize (Hq a q' Ha). rewrite filter_cons, decide_False in Hq by lia. done.
    + exists (x :: row). split; [done|]. split; [simpl; by rewrite Lr|]. intros a q' Ha. rewrite from_cons. destruct (decide (p = Z.of_nat a)) as [->|Hne].
      * rewrite Nat2Z.id in *. rewrite Hqp in Ha. injection Ha as <-. f_equal. apply Hr. by apply list_lookup_insert_eq.
      * apply Hr. rewrite list_lookup_insert_ne; [done|lia].
Qed.

#[local] Program Instance fifo (W : Type) : PointToPoint W := {| batch_isend_irecv := fifo_exchange |}.
Next Obligation.
  intros W ms Hr Hc. unfold fifo_exchange.
  destruct (mapM_lookup_ok (fun bl : Z * list (message W) => deliver (sends_to bl.1 <$> ms) (recv_peers bl.2))
    (fun b row => ∀ lb, ms !! b = Some lb → length row = length (recv_peers lb) ∧ ∀ a la, ms !! a = Some la → from (Z.of_nat a) (recv_peers lb) row = sends_to (Z.of_nat b) la)
    (zip (arange 0 (len ms)) ms)) as (out & -> & Lo & Ho).
  - intros b [b' lb] (Hb & Hlb)%lookup_zip_Some. apply lookup_seqZ in Hb as [-> _]. rewrite Z.add_0_l. cbn [fst snd].
    destruct (deliver_ok (recv_peers lb) (sends_to (Z.of_nat b) <$> ms)) as (row & -> & Lr & Hrow).
    + unfold len. rewrite length_fmap. fold (len ms). apply Forall_forall. intros p (m & Hm & Em)%list_elem_of_omap. pose proof (proj1 (Forall_forall _ _) (Hr b lb Hlb) m Hm) as Hp.
      destruct m; [done|]. by injection Em as ->.
    + intros a q (la & -> & Hla)%list_lookup_fmap_Some. by apply Hc.
    + exists row. split; [done|]. intros lb' Hlb'. rewrite Hlb in Hlb'. injection Hlb' as <-. split; [done|]. intros a la Hla. apply Hrow. by rewrite list_lookup_fmap, Hla.
  - exists out. rewrite length_zip_with in Lo. split; [done|]. split; [pose proof (len_arange 0 (len ms)); unfold len in *; lia|]. intros b lb row Hlb Hrow. by apply (Ho b row Hrow lb).
Qed.

(** Four GPUs on two nodes, three experts each. *)
Definition example_old : list Z := [0; 1; 2; 3; 4; 5; 6; 7; 0; 1; 2; 3].
Definition example_new : list Z := [5; 5; 7; 3; 6; 1; 1; 7; 4; 0; 2; 4].
Definition example_weights (m : list Z) (r : Z) : list (list Z) :=
  (fun i => (fun l => 100 * i + m !!! Z.to_nat (r * 3 + l)) <$> arange 0 3) <$> arange 0 2.
Definition example_gpus (m : list Z) : list gpu := (fun r => mkGpu (example_weights m r) (replicate 2 (replicate 3 (-1)))) <$> arange 0 4.

Lemma example_gpus_hold : gpus_hold (fun i e => 100 * i + e) 3 2 4 example_old (example_gpus example_old).
Proof.
  split; [done|]. intros r gp Hr. assert (r < 4)%nat as Hlt by (apply lookup_lt_Some in Hr; exact Hr).
  assert (∀ i, 0 ≤ i < 2 → i = 0 ∨ i = 1) as H2 by lia. assert (∀ ts : list (list Z), shape 3 2 ts ↔ len ts = 2 ∧ Forall (fun t => len t = 3) ts) as Hsh by done.
  assert (∀ x, local 3 (Z.of_nat r) x → x = Z.of_nat r * 3 ∨ x = Z.of_nat r * 3 + 1 ∨ x = Z.of_nat r * 3 + 2) as H3 by (unfold local; lia).
  destruct r as [|[|[|[|r]]]]; [injection Hr as <-..|lia]; (split; [split; [split; [done|]; repeat match goal with |- Forall _ _ => constructor end; done|]|
    split; [done|]; repeat match goal with |- Forall _ _ => constructor end; done]);
    intros i x Hi Hx; destruct (H2 i Hi) as [->| ->]; destruct (H3 x Hx) as [->|[->| ->]]; reflexivity.
Qed.

Lemma expert_weights_migrated_witness : ∃ gpus', update_all example_old example_new 3 2 (example_gpus example_old) = Ok gpus' ∧
  gpus_hold (fun i e => 100 * i + e) 3 2 4 example_new gpus'.
Proof.
  apply (expert_weights_migrated (fun i e => 100 * i + e) example_old example_new 3 2 2 4 (example_gpus example_old)).
  - lia.
  - lia.
  - lia.
  - reflexivity.
  - reflexivity.
  - apply Forall_forall. repeat match goal with |- Forall _ _ => constructor end; apply (bool_decide_unpack _); reflexivity.
  - exact example_gpus_hold.
Defined.

Example update_all_example :
  (match update_all example_old example_new 3 2 (example_gpus example_old) with Ok l => Some (map gpu_weights l) | Raise _ => None end)
  = Some (map (example_weights example_new) (arange 0 4)).
Proof. vm_compute. reflexivity. Qed.

Lemma expert_transfers_local_witness : ∃ st, prepare example_old example_new 3 2 2 (example_weights example_old 2) (replicate 2 (replicate 3 (-1))) = Ok st ∧
  ∀ o, o ∈ p2p_ops st → op o = irecv → ∃ e, has 3 example_old (peer o) e.
Proof.
  destruct (example_gpus_hold) as [_ Hg]. destruct (Hg 2%nat _ eq_refl) as [Hw Hs].
  destruct (expert_transfers_local (fun i e => 100 * i + e) example_old example_new 3 2 2 4 2 (example_weights example_old 2) (replicate 2 (replicate 3 (-1)))) as (st & E & Hst).
  - lia.
  - lia.
  - lia.
  - reflexivity.
  - reflexivity.
  - apply Forall_forall. repeat match goal with |- Forall _ _ => constructor end; apply (bool_decide_unpack _); reflexivity.
  - lia.
  - exact Hw.
  - exact Hs.
  - exists st. split; [exact E|]. intros o Ho Hop. destruct (Hst o Ho Hop) as (e & _ & _ & He & _). exists e. exact He.
Defined.
