(* ===== verification/EplbManager.v ===== *)
(** * Rebalancing while the server runs

    Models [srt/eplb/eplb_manager.py], [ExpertLocationUpdater] and the loops
    over layers of [srt/eplb/expert_location_updater.py], and
    [topk_ids_logical_to_physical] of [srt/eplb/expert_location_dispatch.py]:
    after every forward pass the manager may move a few layers to a new
    placement.  The weights are those of all ranks, for each layer; the
    metadata is that of one rank, and the ranks have the same placement. *)

From Stdlib Require Import QArith.
From stdpp Require Import gmap strings.
From S2P Require Import Prelude Eplb EplbProofs ExpertLocation ExpertInit ExpertUpdater ExpertTransfer ExpertMigration.
Open Scope Z_scope.

(** ** Dispatch *)

(** [ExpertLocationDispatchInfo.init_new] and [topk_ids_logical_to_physical];
    [algorithm] is [ep_dispatch_algorithm] and [randint] are random numbers. *)
Definition topk_ids_logical_to_physical (algorithm : option string) (m : option ExpertLocationMetadata) (layer_id : Z) (randint topk_ids : list Z) : pyres (list Z) :=
  match m with
  | None => Raise AssertionError
  | Some m =>
      match algorithm with
      | None => mret topk_ids
      | Some a =>
          info ← init_new m layer_id;
          if String.eqb a "static" then _topk_ids_logical_to_physical_static topk_ids info
          else if String.eqb a "dynamic" || String.eqb a "fake" then _topk_ids_logical_to_physical_dynamic randint topk_ids info
          else Raise NotImplementedError
      end
  end.

Section manager.
Context {W : Type} `{EqDecision W} `{PointToPoint W}.
(** [torch.empty_like], and an integer as an element of a tensor. *)
Context (empty_like : list W → list W) (canary : Z → W).
Abbreviation tensors := (list (list W)).

(** For each layer, the tensors of each rank. *)
Abbreviation layer_weights := (gmap Z (list tensors)).

Definition dict_get (d : layer_weights) (k : Z) : pyres (list tensors) := match d !! k with Some x => mret x | None => Raise KeyError end.

(** ** The updater *)

Definition create_temp_buffers (sample_tensors : tensors) : tensors := empty_like <$> sample_tensors.

(** The property [num_local_physical_experts]. *)
Definition local_experts (world_size : Z) (m : ExpertLocationMetadata) : pyres Z :=
  '(ans, remainder) ← py_divmod (map_width (physical_to_logical_map m)) world_size;
  py_assert (remainder =? 0) ;;
  mret ans.

Definition update_layer (old new : ExpertLocationMetadata) (num_local num_gpu_per_node : Z) (st : layer_weights * list tensors) (layer_id : Z) :
    pyres (layer_weights * list tensors) :=
  ws ← dict_get st.1 layer_id;
  o ← py_index (physical_to_logical_map old) layer_id;
  n ← py_index (physical_to_logical_map new) layer_id;
  gpus ← update_all o n num_local num_gpu_per_node (zip_with mkGpu ws st.2);
  mret (<[layer_id := fmap (M := list) gpu_weights gpus]> st.1, fmap (M := list) gpu_buffers gpus).

Definition _update_expert_weights_raw (world_size nnodes : Z) (old new : ExpertLocationMetadata) (update_layer_ids : list Z) (ws : layer_weights) :
    pyres layer_weights :=
  first ← py_index update_layer_ids 0;
  sample ← dict_get ws first;
  let temp_buffers := create_temp_buffers <$> sample in
  num_local ← local_experts world_size old;
  '(num_gpu_per_node, _) ← py_divmod world_size nnodes;
  st ← foldl (fun acc layer_id => st ← acc; update_layer old new num_local num_gpu_per_node st layer_id) (mret (ws, temp_buffers)) update_layer_ids;
  mret st.1.

Definition _get_canary_value (num_local : Z) (m : ExpertLocationMetadata) (layer_id rank : Z) : pyres (list W) :=
  row ← py_index (physical_to_logical_map m) layer_id;
  mret (canary <$> py_slice (num_local * rank) (num_local * (rank + 1)) row).

(** Appends the canary of each rank to its tensors of the layer. *)
Definition add_canary (num_local : Z) (old : ExpertLocationMetadata) (ws : layer_weights) (layer_id : Z) : pyres layer_weights :=
  ts ← dict_get ws layer_id;
  ts' ← mapM (fun rt : Z * tensors => c ← _get_canary_value num_local old layer_id rt.1; mret (rt.2 ++ [c])) (zip (arange 0 (len ts)) ts);
  mret (<[layer_id := ts']> ws).

Definition check_canary (num_local : Z) (new : ExpertLocationMetadata) (ws : layer_weights) (layer_id : Z) : pyres unit :=
  ts ← dict_get ws layer_id;
  mapM (fun rt : Z * tensors =>
      expect_value ← _get_canary_value num_local new layer_id rt.1;
      actual_value ← py_index rt.2 (-1);
      py_assert (bool_decide (expect_value = actual_value))) (zip (arange 0 (len ts)) ts) ;;
  mret tt.

(** The lists with the canaries are copies; the other tensors are shared. *)
Definition drop_canaries (ws : layer_weights) (with_canary : layer_weights) : layer_weights :=
  map_imap (fun k ts => Some (zip_with (fun t t' => take (length t) t') ts (default ts (with_canary !! k)))) ws.

Definition _update_expert_weights_with_canary (world_size nnodes : Z) (old new : ExpertLocationMetadata) (update_layer_ids : list Z) (ws : layer_weights) :
    pyres layer_weights :=
  num_local ← local_experts world_size old;
  ws1 ← foldl (fun acc layer_id => ws ← acc; add_canary num_local old ws layer_id) (mret ws) update_layer_ids;
  ws2 ← _update_expert_weights_raw world_size nnodes old new update_layer_ids ws1;
  mapM (check_canary num_local new ws2) update_layer_ids ;;
  mret (drop_canaries ws ws2).

(** [ExpertLocationUpdater.update]; [use_canary] is the environment variable. *)
Definition updater_update (use_canary : bool) (world_size nnodes : Z) (m : ExpertLocationMetadata) (ws : layer_weights) (new : ExpertLocationMetadata) (update_layer_ids : list Z) :
    pyres (ExpertLocationMetadata * layer_weights) :=
  ws' ← (if use_canary then _update_expert_weights_with_canary world_size nnodes m new update_layer_ids ws
         else _update_expert_weights_raw world_size nnodes m new update_layer_ids ws);
  m' ← update m new update_layer_ids;
  mret (m', ws').

(** ** The manager *)

(** [range(0, len(items), chunk_size)] has at most [len(items)] elements. *)
Definition _chunk_list (items : list Z) (chunk_size : Z) : pyres (list (list Z)) :=
  if chunk_size =? 0 then Raise ValueError else
  if chunk_size <? 0 then mret [] else
  mret ((fun start => py_slice start (start + chunk_size) items)
          <$> filter (fun start => 0 ≤ start < len items) ((fun k => k * chunk_size) <$> arange 0 (len items))).

Definition _compute_update_layer_ids_chunks (rebalance_layers_per_chunk : option Z) (ws : layer_weights) : pyres (list (list Z)) :=
  let all_layer_ids := torch_sort (elements (dom ws)) in
  let chunk_size := match rebalance_layers_per_chunk with Some k => if k =? 0 then 1000000 else k | None => 1000000 end in
  _chunk_list all_layer_ids chunk_size.

(** What the recorder says: the counts and the utilization of the GPUs. *)
Record dump_record := mkDump { logical_count : list (list (list Q)); average_utilization : option Q }.

Definition _check_rebalance_needed (threshold : Q) (utilization : option Q) : bool :=
  match utilization with None => true | Some u => Qle_bool u threshold end.

(** Where the generator waits: in the loop of [_entrypoint], with that many
    iterations left, or in [rebalance] before it updates the chunks. *)
Inductive eplb_phase :=
  | Waiting (left : Z)
  | Updating (new : option ExpertLocationMetadata) (chunks : list (list Z)).

Record eplb_system := mkSystem { es_meta : ExpertLocationMetadata; es_weights : layer_weights; es_phase : eplb_phase }.

Record eplb_config := mkEplbConfig {
  ec_args : expert_args;
  ec_model : option ModelConfigForExpertLocation;
  ec_iterations : Z;
  ec_layers_per_chunk : option Z;
  ec_threshold : Q;
  ec_canary : bool;
}.

Context `{TorchOrder} (torch_garbage : nat → list Z).
Context (vec_rebalance : list (list (list Q)) → Z → Z → option Z → Z → bool → pyres (list (list Z) * list (list (list Z)) * list (list Z))).
Context {R : Type} (sample : R → list Z → Z → list Z * R) (shuffle : R → list Z → list Z * R).
Context (cfg : eplb_config) (seed : R).

Definition update_expert_location (m : ExpertLocationMetadata) (ws : layer_weights) (new : option ExpertLocationMetadata) (ids : list Z) :
    pyres (ExpertLocationMetadata * layer_weights) :=
  match new with
  | Some new => updater_update (ec_canary cfg) (ea_ep_size (ec_args cfg)) (ea_nnodes (ec_args cfg)) m ws new ids
  | None => Raise AttributeError
  end.

(** The loop of [_entrypoint] starts again; there is at least one iteration
    between two calls of [rebalance]. *)
Definition restart (m : ExpertLocationMetadata) (ws : layer_weights) : pyres eplb_system :=
  if 0 <? ec_iterations cfg then mret (mkSystem m ws (Waiting (ec_iterations cfg - 1))) else Raise OutOfFuel.

(** [rebalance] up to its first [yield], or to its end. *)
Definition rebalance (m : ExpertLocationMetadata) (ws : layer_weights) (dump : dump_record) : pyres eplb_system :=
  if negb (_check_rebalance_needed (ec_threshold cfg) (average_utilization dump)) then restart m ws else
  new ← init_by_eplb torch_garbage vec_rebalance sample shuffle (ec_args cfg) (ec_model cfg) (logical_count dump) seed;
  chunks ← _compute_update_layer_ids_chunks (ec_layers_per_chunk cfg) ws;
  match chunks with
  | [] => restart m ws
  | [ids] => '(m, ws) ← update_expert_location m ws new ids; restart m ws
  | _ => mret (mkSystem m ws (Updating new chunks))
  end.

(** [next(self._main_generator)]; the recorder is asked when [rebalance]
    starts. *)
Definition on_forward_pass_end (st : eplb_system) (dump : dump_record) : pyres eplb_system :=
  match es_phase st with
  | Waiting k => if 0 <? k then mret (mkSystem (es_meta st) (es_weights st) (Waiting (k - 1))) else rebalance (es_meta st) (es_weights st) dump
  | Updating new [] => restart (es_meta st) (es_weights st)
  | Updating new (ids :: chunks) =>
      '(m, ws) ← update_expert_location (es_meta st) (es_weights st) new ids;
      match chunks with [] => restart m ws | _ => mret (mkSystem m ws (Updating new chunks)) end
  end.

(** A sequence of forward passes. *)
Definition run_passes (st : eplb_system) (dumps : list dump_record) : pyres eplb_system :=
  foldl (fun acc dump => st ← acc; on_forward_pass_end st dump) (mret st) dumps.

End manager.
