(* ===== verification/ExpertService.v ===== *)
(** * Experts are always where they are looked for

    Proves that rebalancing keeps the weights, the maps and the dispatch
    consistent at every forward pass, also while only some of the layers have
    moved to the new placement. *)

From Stdlib Require Import QArith.
From stdpp Require Import gmap strings.
From S2P Require Import Prelude Eplb EplbProofs ExpertLocation ExpertInit ExpertUpdater ExpertTransfer ExpertMigration EplbManager.
Open Scope Z_scope.

(** A row of a consistent map. *)
Lemma meta_row L P nl er n m i : metadata_ok L P nl er n m → (i < n)%nat → ∃ row, physical_to_logical_map m !! i = Some row ∧ covering L P row.
Proof.
  intros Hm Hi. destruct (Hm i Hi) as (phy & log & valid & rank & (E & _) & [[Hl Hr] Hrow _]). exists phy. split; [done|]. split; [done|]. split; [done|].
  intros e He. destruct (Hrow e He) as (row & ps & _ & _ & Hne & _ & Hx). destruct ps as [|x ps]; [done|]. destruct (proj1 (Hx x) ltac:(apply list_elem_of_here)) as [_ Hp].
  by eapply list_elem_of_lookup_2.
Qed.

Section updater.
Context {W : Type} `{EqDecision W} `{PointToPoint W} (empty_like : list W → list W) (Hempty : ∀ t, length (empty_like t) = length t).
Abbreviation tensors := (list (list W)).
Abbreviation layer_weights := (gmap Z (list tensors)).
Context (L P nl er world nnodes : Z) (n : nat).
Context (Hnl : 0 < nl) (HP : P = world * nl) (Hnodes : 0 < nnodes ≤ world).
Abbreviation meta_ok := (metadata_ok L P nl er n).

Section layer.
Context (value : Z → Z → W) (T : Z) (HT : 0 ≤ T).

(** Every rank has the weights of a row of the map. *)
Definition weights_hold (row : list Z) (ws : list tensors) : Prop :=
  len ws = world ∧ ∀ r ts, ws !! r = Some ts → holds value nl T row (Z.of_nat r) ts.

Definition buffers_ok (bs : list tensors) : Prop := len bs = world ∧ Forall (shape nl T) bs.

Lemma create_temp_buffers_ok row ws : weights_hold row ws → buffers_ok (create_temp_buffers empty_like <$> ws).
Proof using Hempty.
  intros [Hl Hh]. split; [by rewrite len_fmap|]. apply Forall_fmap, Forall_lookup. intros r ts Hr. destruct (Hh r ts Hr) as [[H1 H2] _]. unfold create_temp_buffers. simpl. split.
  - by rewrite len_fmap.
  - apply Forall_fmap. eapply Forall_impl; [exact H2|]. intros t Ht. simpl. unfold len in *. by rewrite Hempty.
Qed.

Lemma update_layer_ok old new g (ws : layer_weights) bs id ts : meta_ok old → meta_ok new → g ≠ 0 → 0 ≤ id < Z.of_nat n →
  ws !! id = Some ts → (∀ row, physical_to_logical_map old !! Z.to_nat id = Some row → weights_hold row ts) → buffers_ok bs →
  ∃ ts' bs', update_layer old new nl g (ws, bs) id = Ok (<[id:=ts']> ws, bs') ∧ buffers_ok bs' ∧
    ∀ row, physical_to_logical_map new !! Z.to_nat id = Some row → weights_hold row ts'.
Proof using Hnl HP HT.
  intros Ho Hn Hg Hid Hts Hold [Lb Hb]. destruct (meta_row _ _ _ _ _ _ (Z.to_nat id) Ho ltac:(lia)) as (o & Eo & Lo & Ro & Co).
  destruct (meta_row _ _ _ _ _ _ (Z.to_nat id) Hn ltac:(lia)) as (w & Ew & Lw & Rw & Cw). destruct (Hold o Eo) as [Lt Ht].
  unfold update_layer, dict_get. cbn [fst snd]. rewrite Hts. cbn [mbind pyres_bind mret pyres_ret]. rewrite (py_index_ok (physical_to_logical_map old) id o), (py_index_ok (physical_to_logical_map new) id w) by (lia || done). cbn [mbind pyres_bind].
  assert (∀ e, e ∈ w → e ∈ o) as Hcov by (intros e He; apply Co; by apply (proj1 (Forall_forall _ _) Rw)).
  assert (gpus_hold value nl T world o (zip_with mkGpu ts bs)) as Hgpus.
  { split; [unfold len in *; rewrite length_zip_with; lia|]. intros r gp (t & b & -> & Hr & Hbr)%lookup_zip_with_Some. cbn [gpu_weights gpu_buffers]. split; [by apply Ht|].
    by apply (Forall_lookup_1 _ _ _ _ Hb Hbr). }
  destruct (update_all_ok value o w nl g T world Hnl HT ltac:(lia) ltac:(lia) Hcov (zip_with mkGpu ts bs) Hg Hgpus) as (gpus & -> & Lg & Hgp).
  cbn [mbind pyres_bind]. eexists _, _. split; [reflexivity|]. split.
  - split; [by rewrite len_fmap|]. apply Forall_fmap, Forall_lookup. intros r gp Hr. by apply (Hgp r gp Hr).
  - intros row Hrow. rewrite Ew in Hrow. injection Hrow as <-. split; [by rewrite len_fmap|]. intros r t (gp & -> & Hr)%list_lookup_fmap_Some. by apply (Hgp r gp Hr).
Qed.

Lemma local_experts_ok m : meta_ok m → (0 < n)%nat → local_experts world m = Ok nl.
Proof using Hnl HP Hnodes.
  intros Hm Hn. destruct (meta_row _ _ _ _ _ _ 0%nat Hm Hn) as (row & Er & Lr & _). unfold local_experts, py_divmod.
  assert (map_width (physical_to_logical_map m) = P) as -> by (destruct (physical_to_logical_map m); [done|]; by injection Er as ->).
  rewrite (proj2 (Z.eqb_neq world 0)) by lia. cbn [mbind pyres_bind mret pyres_ret]. by rewrite HP, Z.mul_comm, Z.mod_mul, Z.div_mul by lia.
Qed.

Lemma update_raw_ok old new ids (ws : layer_weights) : meta_ok old → meta_ok new → ids ≠ [] → NoDup ids →
  (∀ id, id ∈ ids → 0 ≤ id < Z.of_nat n ∧ ∃ ts, ws !! id = Some ts ∧ ∀ row, physical_to_logical_map old !! Z.to_nat id = Some row → weights_hold row ts) →
  ∃ ws', _update_expert_weights_raw empty_like world nnodes old new ids ws = Ok ws' ∧ (∀ k, k ∉ ids → ws' !! k = ws !! k) ∧
    ∀ id, id ∈ ids → ∃ ts, ws' !! id = Some ts ∧ ∀ row, physical_to_logical_map new !! Z.to_nat id = Some row → weights_hold row ts.
Proof using Hempty Hnl HP Hnodes HT.
  intros Ho Hn Hne Hnd Hids. destruct ids as [|id0 ids0] eqn:Eids; [done|]. rewrite <-Eids in *. unfold _update_expert_weights_raw.
  destruct (Hids id0) as [Hr0 (ts0 & E0 & H0)]; [rewrite Eids; apply list_elem_of_here|]. rewrite (py_index_ok ids 0 id0) by (lia || by rewrite Eids). cbn [mbind pyres_bind].
  unfold dict_get. rewrite E0. cbn [mbind pyres_bind mret pyres_ret]. rewrite (local_experts_ok old Ho) by lia. cbn [mbind pyres_bind]. unfold py_divmod at 1. rewrite (proj2 (Z.eqb_neq nnodes 0)) by lia. cbn [mbind pyres_bind mret pyres_ret].
  assert (world / nnodes ≠ 0) as Hg by (pose proof (Z.div_str_pos world nnodes Hnodes); lia).
  assert (buffers_ok (create_temp_buffers empty_like <$> ts0)) as Hbs.
  { destruct (meta_row _ _ _ _ _ _ (Z.to_nat id0) Ho ltac:(lia)) as (row & Erow & _). by eapply create_temp_buffers_ok, H0. }
  revert Hbs. generalize (create_temp_buffers empty_like <$> ts0) as bs. clear E0 H0 ts0 Hr0 Hne Eids.
  assert (∀ ids (ws : layer_weights) bs, NoDup ids → buffers_ok bs →
    (∀ id, id ∈ ids → 0 ≤ id < Z.of_nat n ∧ ∃ ts, ws !! id = Some ts ∧ ∀ row, physical_to_logical_map old !! Z.to_nat id = Some row → weights_hold row ts) →
    ∃ ws' bs', foldl (fun acc layer_id => st ← acc; update_layer old new nl (world / nnodes) st layer_id) (Ok (ws, bs)) ids = Ok (ws', bs') ∧ (∀ k, k ∉ ids → ws' !! k = ws !! k) ∧
    ∀ id, id ∈ ids → ∃ ts, ws' !! id = Some ts ∧ ∀ row, physical_to_logical_map new !! Z.to_nat id = Some row → weights_hold row ts) as Hloop.
  { clear ids ws Hnd Hids. induction ids as [|id ids IH]; intros ws bs Hnd Hbs Hids; [exists ws, bs; split; [done|]; split; [done|]; intros id Hid; by apply elem_of_nil in Hid|].
    apply NoDup_cons in Hnd as [Hni Hnd]. destruct (Hids id ltac:(apply list_elem_of_here)) as [Hr (ts & Ets & Hts)].
    destruct (update_layer_ok old new (world / nnodes) ws bs id ts Ho Hn Hg Hr Ets Hts Hbs) as (ts' & bs' & E & Hbs' & Hts'). cbn [foldl mbind pyres_bind]. rewrite E.
    destruct (IH (<[id:=ts']> ws) bs' Hnd Hbs') as (ws' & bs2 & E' & Hk & Hin).
    - intros k Hk. destruct (Hids k ltac:(by apply list_elem_of_further)) as [Hkr (tk & Ek & Htk)]. split; [done|]. exists tk. rewrite lookup_insert_ne; [done|]. by intros ->.
    - exists ws', bs2. split; [exact E'|]. split.
      + intros k Hk'. rewrite not_elem_of_cons in Hk'. rewrite Hk by tauto. rewrite lookup_insert_ne; [done|]. by intros ->; destruct Hk'.
      + intros k [->|Hk']%elem_of_cons; [|by apply Hin]. exists ts'. rewrite Hk by done. by rewrite lookup_insert_eq. }
  intros bs Hbs. destruct (Hloop ids ws bs Hnd Hbs Hids) as (ws' & bs' & E & Hk & Hin). exists ws'. split; [|done].
  change (mbind (M := pyres) (fun st => mret st.1) (foldl (fun acc layer_id => st ← acc; update_layer old new nl (world / nnodes) st layer_id) (Ok (ws, bs)) ids) = Ok ws'). by rewrite E.
Qed.

End layer.

(** ** The canary *)

Section canary.
Context (value : Z → Z → W) (canary : Z → W) (T : Z) (HT : 0 ≤ T).

(** The canary is one more tensor, whose values are the logical experts. *)
Definition value_with_canary (i e : Z) : W := if i <? T then value i e else canary e.
Abbreviation slice_of r row := (canary <$> py_slice (nl * r) (nl * (r + 1)) row).

Lemma slice_lookup (row : list Z) r l : 0 ≤ r < world → len row = P → 0 ≤ l < nl → slice_of r row !! Z.to_nat l = canary <$> row !! Z.to_nat (r * nl + l).
Proof using Hnl HP Hnodes.
  intros Hr Hl Hll. rewrite list_lookup_fmap, py_slice_nonneg by nia. rewrite lookup_take_lt by nia. rewrite lookup_drop. do 2 f_equal. nia.
Qed.

Lemma slice_length (row : list Z) r : 0 ≤ r < world → len row = P → len (slice_of r row) = nl.
Proof using Hnl HP Hnodes. intros Hr Hl. rewrite len_fmap, py_slice_nonneg by nia. rewrite len_take, len_drop. nia. Qed.

Lemma holds_snoc row r ts : 0 ≤ r < world → len row = P → holds value nl T row r ts → holds value_with_canary nl (T + 1) row r (ts ++ [slice_of r row]).
Proof using Hnl HP HT Hnodes.
  intros Hr Hl [[L1 S1] Hv]. split; [split; [rewrite len_app, L1; done|apply Forall_app; split; [done|]; constructor; [by apply slice_length|constructor]]|].
  intros i x Hi Hx. destruct (local_mod nl Hnl r x Hx) as (Em & Hm & _). unfold cell, value_with_canary. destruct (Z.ltb_spec i T) as [Hlt|Hge].
  - rewrite lookup_app_l by (unfold len in *; lia). apply Hv; [lia|done].
  - rewrite lookup_app_r by (unfold len in *; lia). replace (Z.to_nat i - length ts)%nat with 0%nat by (unfold len in *; lia). cbn [lookup list_lookup mbind option_bind].
    rewrite (slice_lookup row r _ Hr Hl Hm). do 2 f_equal. lia.
Qed.

Lemma holds_take row r ts : 0 ≤ r < world → len row = P → holds value_with_canary nl (T + 1) row r ts →
  holds value nl T row r (take (Z.to_nat T) ts) ∧ py_index ts (-1) = Ok (slice_of r row).
Proof using Hnl HP HT Hnodes.
  intros Hr Hl [[L1 S1] Hv]. split.
  - split; [split; [rewrite len_take; lia|by apply Forall_take]|]. intros i x Hi Hx. unfold cell. rewrite lookup_take_lt by lia.
    specialize (Hv i x ltac:(lia) Hx). unfold value_with_canary in Hv. by rewrite (proj2 (Z.ltb_lt i T)) in Hv by lia.
  - unfold py_index, wrap_index. replace (if -1 <? 0 then -1 + len ts else -1) with T by (simpl; lia). apply get_at_ok. split; [lia|].
    destruct (lookup_lt_is_Some_2 ts (Z.to_nat T)) as [c Hc]; [unfold len in *; lia|]. rewrite Hc. f_equal. pose proof (Forall_lookup_1 _ _ _ _ S1 Hc) as Lc. simpl in Lc.
    pose proof (slice_length row r Hr Hl) as Ls. apply list_eq_same_length with (Z.to_nat nl); [unfold len in *; lia..|]. intros j x y Hj Hx Hy.
    specialize (Hv T (r * nl + Z.of_nat j) ltac:(lia) ltac:(unfold local; nia)). unfold cell, value_with_canary in Hv. rewrite Hc, Z.ltb_irrefl in Hv. cbn [mbind option_bind] in Hv.
    replace ((r * nl + Z.of_nat j) mod nl) with (Z.of_nat j) in Hv by (symmetry; rewrite Z.add_comm, Z.mod_add by lia; apply Z.mod_small; lia).
    rewrite Nat2Z.id, Hx in Hv. pose proof (slice_lookup row r (Z.of_nat j) Hr Hl ltac:(lia)) as Hsl. rewrite Nat2Z.id, Hy in Hsl.
    assert (Some x = Some y) as Exy by (etrans; [exact Hv|by symmetry]). by injection Exy.
Qed.

(** The state of a layer, with the canaries of the placement [m]. *)
Lemma add_canary_ok m (ws : layer_weights) id ts : meta_ok m → 0 ≤ id < Z.of_nat n → ws !! id = Some ts →
  (∀ row, physical_to_logical_map m !! Z.to_nat id = Some row → weights_hold value T row ts) →
  ∃ ts', add_canary canary nl m ws id = Ok (<[id:=ts']> ws) ∧ (∀ row, physical_to_logical_map m !! Z.to_nat id = Some row → weights_hold value_with_canary (T + 1) row ts').
Proof using Hnl HP HT Hnodes.
  intros Hm Hid Hts Hh. destruct (meta_row _ _ _ _ _ _ (Z.to_nat id) Hm ltac:(lia)) as (row & Er & Lr & _). destruct (Hh row Er) as [Lt Ht]. unfold add_canary, dict_get. rewrite Hts. cbn [mbind pyres_bind mret pyres_ret].
  destruct (mapM_lookup_ok (fun rt : Z * tensors => c ← _get_canary_value canary nl m id rt.1; mret (rt.2 ++ [c])) (fun r t => holds value_with_canary nl (T + 1) row (Z.of_nat r) t)
    (zip (arange 0 (len ts)) ts)) as (ts' & -> & Lts & Hts').
  - intros r [r' t] (Hr & Hrt)%lookup_zip_Some. apply lookup_range in Hrt as Hr'. apply lookup_seqZ in Hr as [-> _]. rewrite Z.add_0_l. cbn [fst snd]. unfold _get_canary_value.
    rewrite (py_index_ok _ id row) by (lia || done). cbn [mbind pyres_bind mret pyres_ret]. eexists. split; [reflexivity|]. apply holds_snoc; [lia|done|by apply Ht].
  - cbn [mbind pyres_bind]. exists ts'. split; [done|]. intros row' Hr'. rewrite Er in Hr'. injection Hr' as <-. split; [|done].
    rewrite length_zip_with in Lts. pose proof (len_arange 0 (len ts)). unfold len in *. lia.
Qed.

Lemma check_canary_ok m (ws : layer_weights) id ts : meta_ok m → 0 ≤ id < Z.of_nat n → ws !! id = Some ts →
  (∀ row, physical_to_logical_map m !! Z.to_nat id = Some row → weights_hold value_with_canary (T + 1) row ts) → check_canary canary nl m ws id = Ok tt.
Proof using Hnl HP HT Hnodes.
  intros Hm Hid Hts Hh. destruct (meta_row _ _ _ _ _ _ (Z.to_nat id) Hm ltac:(lia)) as (row & Er & Lr & _). destruct (Hh row Er) as [Lt Ht]. unfold check_canary, dict_get. rewrite Hts. cbn [mbind pyres_bind mret pyres_ret].
  match goal with |- context [mapM ?f ?l] => destruct (mapM_lookup_ok f (fun _ _ => True) l) as (us & -> & _ & _); [|done] end.
  intros r [r' t] (Hr & Hrt)%lookup_zip_Some. apply lookup_range in Hrt as Hr'. apply lookup_seqZ in Hr as [-> _]. rewrite Z.add_0_l. cbn [fst snd]. unfold _get_canary_value.
  rewrite (py_index_ok _ id row) by (lia || done). cbn [mbind pyres_bind mret pyres_ret]. destruct (holds_take row (Z.of_nat r) t ltac:(lia) Lr (Ht r t Hrt)) as [_ ->].
  cbn [mbind pyres_bind]. rewrite bool_decide_true by done. by exists tt.
Qed.

Lemma update_canary_ok old new ids (ws : layer_weights) : meta_ok old → meta_ok new → ids ≠ [] → NoDup ids →
  (∀ id, id ∈ ids → 0 ≤ id < Z.of_nat n ∧ ∃ ts, ws !! id = Some ts ∧ ∀ row, physical_to_logical_map old !! Z.to_nat id = Some row → weights_hold value T row ts) →
  ∃ ws', _update_expert_weights_with_canary empty_like canary world nnodes old new ids ws = Ok ws' ∧ (∀ k, k ∉ ids → ws' !! k = ws !! k) ∧
    ∀ id, id ∈ ids → ∃ ts, ws' !! id = Some ts ∧ ∀ row, physical_to_logical_map new !! Z.to_nat id = Some row → weights_hold value T row ts.
Proof using Hempty Hnl HP Hnodes HT.
  intros Ho Hn Hne Hnd Hids. unfold _update_expert_weights_with_canary.
  assert (0 < n)%nat as Hn0 by (destruct ids as [|id ids]; [done|]; destruct (Hids id ltac:(apply list_elem_of_here)) as [? _]; lia).
  rewrite (local_experts_ok old Ho Hn0). cbn [mbind pyres_bind].
  assert (∃ ws1, foldl (fun acc id => ws ← acc; add_canary canary nl old ws id) (Ok ws) ids = Ok ws1 ∧ (∀ k, k ∉ ids → ws1 !! k = ws !! k) ∧
    ∀ id, id ∈ ids → ∃ ts, ws1 !! id = Some ts ∧ ∀ row, physical_to_logical_map old !! Z.to_nat id = Some row → weights_hold value_with_canary (T + 1) row ts) as (ws1 & E1 & K1 & C1).
  { clear Hne. revert ws Hids. induction Hnd as [|id ids Hni Hnd IH]; intros ws Hids; [exists ws; split; [done|]; split; [done|]; intros id Hid; by apply elem_of_nil in Hid|].
    destruct (Hids id ltac:(apply list_elem_of_here)) as [Hr (ts & Ets & Hts)]. destruct (add_canary_ok old ws id ts Ho Hr Ets Hts) as (ts' & E & Hts'). cbn [foldl mbind pyres_bind]. rewrite E.
    destruct (IH (<[id:=ts']> ws)) as (ws1 & E' & Hk & Hin).
    - intros k Hk. destruct (Hids k ltac:(by apply list_elem_of_further)) as [Hkr (tk & Ek & Htk)]. split; [done|]. exists tk. rewrite lookup_insert_ne; [done|]. by intros ->.
    - exists ws1. split; [exact E'|]. split.
      + intros k Hk'. rewrite not_elem_of_cons in Hk'. rewrite Hk by tauto. rewrite lookup_insert_ne; [done|]. by intros ->; destruct Hk'.
      + intros k [->|Hk']%elem_of_cons; [|by apply Hin]. exists ts'. rewrite Hk by done. by rewrite lookup_insert_eq. }
  change (mret ws) with (Ok ws). rewrite E1. cbn [mbind pyres_bind].
  destruct (update_raw_ok value_with_canary (T + 1) ltac:(lia) old new ids ws1 Ho Hn Hne Hnd) as (ws2 & -> & K2 & C2).
  { intros id Hid. destruct (Hids id Hid) as [Hr _]. split; [done|]. by apply C1. }
  cbn [mbind pyres_bind]. destruct (mapM_lookup_ok (check_canary canary nl new ws2) (fun _ _ => True) ids) as (us & -> & _ & _).
  { intros k id Hk. assert (id ∈ ids) as Hid by (by eapply list_elem_of_lookup_2). destruct (C2 id Hid) as (ts & Ets & Hts). exists tt. split; [|done].
    eapply check_canary_ok; [done|by apply Hids|done..]. }
  cbn [mbind pyres_bind]. eexists. split; [reflexivity|]. unfold drop_canaries. split.
  - intros k Hk. rewrite map_lookup_imap, K2, K1 by done. destruct (ws !! k) as [ts|]; [|done]. cbn [mbind option_bind default from_option id]. f_equal. clear.
    induction ts as [|t ts IH]; [done|]. cbn [zip_with]. by rewrite IH, take_ge by lia.
  - intros id Hid. destruct (Hids id Hid) as [Hr (ts & Ets & Hts)]. destruct (C2 id Hid) as (ts2 & Ets2 & Hts2).
    rewrite map_lookup_imap, Ets, Ets2. cbn [mbind option_bind default from_option Datatypes.id]. eexists. split; [reflexivity|]. intros row Hrow.
    destruct (meta_row _ _ _ _ _ _ (Z.to_nat id) Hn ltac:(lia)) as (row' & Er' & Lr' & _). rewrite Hrow in Er'. injection Er' as <-.
    destruct (meta_row _ _ _ _ _ _ (Z.to_nat id) Ho ltac:(lia)) as (rowo & Ero & _). destruct (Hts rowo Ero) as [Lts Ht]. destruct (Hts2 row Hrow) as [Lts2 Ht2].
    split; [unfold len in *; rewrite length_zip_with; lia|]. intros r t (t1 & t2 & -> & H1 & H2)%lookup_zip_with_Some. apply lookup_range in H1 as Hr1.
    replace (length t1) with (Z.to_nat T) by (destruct (Ht r t1 H1) as [[Lt1 _] _]; unfold len in Lt1; lia). apply holds_take; [lia|done|by apply Ht2].
Qed.

End canary.
End updater.

(** ** Chunks *)

Lemma chunks_prefix (items : list Z) k j : 0 < k → concat ((fun start => py_slice start (start + k) items) <$>
  filter (fun start => 0 ≤ start < len items) ((fun i => i * k) <$> arange 0 (Z.of_nat j))) = take (j * Z.to_nat k) items.
Proof.
  intros Hk. induction j as [|j IH]; [done|]. rewrite Nat2Z.inj_succ, (arange_app 0 (Z.of_nat j) (Z.succ (Z.of_nat j))) by lia.
  rewrite (arange_cons (Z.of_nat j)), (arange_empty (Z.of_nat j + 1)) by lia. rewrite fmap_app, filter_app, fmap_app, concat_app, IH. clear IH. cbn [fmap list_fmap].
  rewrite filter_cons. case_decide as Hd.
  - rewrite filter_nil. cbn [fmap list_fmap concat]. rewrite app_nil_r, py_slice_nonneg by lia.
    replace (Z.to_nat (Z.of_nat j * k)) with (j * Z.to_nat k)%nat by lia. replace (Z.to_nat (Z.of_nat j * k + k) - j * Z.to_nat k)%nat with (Z.to_nat k) by lia.
    replace (S j * Z.to_nat k)%nat with (j * Z.to_nat k + Z.to_nat k)%nat by lia. apply take_take_drop.
  - rewrite filter_nil. cbn [fmap list_fmap concat]. rewrite app_nil_r. assert (len items ≤ Z.of_nat j * k) by lia. unfold len in *. rewrite !take_ge by nia. done.
Qed.

Lemma chunk_list_ok items k : 0 < k → ∃ chunks, _chunk_list items k = Ok chunks ∧ concat chunks = items ∧ Forall (fun c => c ≠ []) chunks.
Proof.
  intros Hk. unfold _chunk_list. rewrite (proj2 (Z.eqb_neq k 0)), (proj2 (Z.ltb_ge k 0)) by lia. eexists. split; [reflexivity|]. split.
  - etrans; [exact (chunks_prefix items k (length items) Hk)|]. apply take_ge. nia.
  - apply Forall_fmap, Forall_forall. intros start [Hs _]%list_elem_of_filter. simpl. intros E. apply (f_equal len) in E. rewrite py_slice_nonneg, len_take, len_drop in E by lia.
    change (len []) with 0 in E. lia.
Qed.

(** ** The server *)

Section service.
Context {W : Type} `{EqDecision W} `{PointToPoint W} `{TorchOrder}.
Context (empty_like : list W → list W) (Hempty : ∀ t, length (empty_like t) = length t) (canary : Z → W).
Context (torch_garbage : nat → list Z) (Hgarbage : ∀ n, length (torch_garbage n) = n).
Context (vec_rebalance : list (list (list Q)) → Z → Z → option Z → Z → bool → pyres (list (list Z) * list (list (list Z)) * list (list Z))).
Context {R : Type} (sample : R → list Z → Z → list Z * R) (shuffle : R → list Z → list Z * R).
Context (Hsample : ∀ r l k, 0 ≤ k ≤ len l → len (sample r l k).1 = k ∧ Forall (fun x => x ∈ l) (sample r l k).1).
Context (Hshuffle : ∀ r l, (shuffle r l).1 ≡ₚ l).
Context (cfg : eplb_config) (c : ModelConfigForExpertLocation) (seed : R) (value : Z → Z → W) (T : Z).
Abbreviation args := (ec_args cfg).
Abbreviation world := (ea_ep_size (ec_args cfg)).
Abbreviation P := (num_logical_experts c + ea_redundant (ec_args cfg)).
Abbreviation nl := ((num_logical_experts c + ea_redundant (ec_args cfg)) / ea_ep_size (ec_args cfg)).
Abbreviation n := (Z.to_nat (num_layers c)).
Abbreviation layer_weights := (gmap Z (list (list (list W)))).
Abbreviation system := (eplb_system (W := W)).

Record config_ok : Prop := mk_config_ok {
  co_model : ec_model cfg = Some c;
  co_args : args_ok args c;
  co_policy : policy_ok args c;
  co_nodes : 0 < ea_nnodes args ≤ world;
  co_iterations : 0 < ec_iterations cfg;
  co_chunk : ∀ k, ec_layers_per_chunk cfg = Some k → 0 ≤ k;
  co_tensors : 0 ≤ T;
}.

(** Each layer's weights are those of the placement in use. *)
Definition weights_ok (m : ExpertLocationMetadata) (ws : layer_weights) : Prop :=
  ∀ id ts, ws !! id = Some ts → 0 ≤ id < num_layers c ∧ ∀ row, physical_to_logical_map m !! Z.to_nat id = Some row → weights_hold nl world value T row ts.

(** The chunks left to do, and the layers already done. *)
Definition chunks_ok (m new : ExpertLocationMetadata) (ws : layer_weights) (chunks : list (list Z)) : Prop :=
  Forall (fun c => c ≠ []) chunks ∧ NoDup (concat chunks) ∧ (∀ id, id ∈ concat chunks → is_Some (ws !! id)) ∧
  ∀ id, is_Some (ws !! id) → id ∉ concat chunks → physical_to_logical_map m !! Z.to_nat id = physical_to_logical_map new !! Z.to_nat id.

Definition phase_ok (st : system) : Prop :=
  match es_phase st with
  | Waiting k => True
  | Updating new chunks => ∃ new', new = Some new' ∧ metadata_for args c n new' ∧ chunks ≠ [] ∧ chunks_ok (es_meta st) new' (es_weights st) chunks
  end.

Record service_ok (st : system) : Prop := mk_service_ok {
  so_meta : metadata_for args c n (es_meta st);
  so_weights : weights_ok (es_meta st) (es_weights st);
  so_phase : phase_ok st;
}.

Lemma config_sizes : config_ok → 0 < nl ∧ P = world * nl.
Proof using.
  intros [_ [H1 H2 H3 [H4 [k Hk]]] _ _ _ _ _]. rewrite Hk, Z.div_mul by lia. split; [nia|lia].
Qed.

Lemma metadata_updated m new ids : metadata_for args c n m → metadata_for args c n new → ∃ m', update m new ids = Ok m' ∧ metadata_for args c n m' ∧
  ∀ id, 0 ≤ id < num_layers c → physical_to_logical_map m' !! Z.to_nat id = physical_to_logical_map (if bool_decide (id ∈ ids) then new else m) !! Z.to_nat id.
Proof using.
  intros [Hm [Lm Sm]] [Hn [Ln Sn]]. destruct (update_ok _ _ _ _ n m new ids Hm Hn) as (m' & E & Hm' & Hat); [by rewrite Sm, Sn|]. exists m'. split; [done|].
  assert (∀ id, 0 ≤ id < num_layers c → physical_to_logical_map m' !! Z.to_nat id = physical_to_logical_map (if bool_decide (id ∈ ids) then new else m) !! Z.to_nat id) as Hrows.
  { intros id Hid. assert (∃ a b d e, layer_at (if bool_decide (id ∈ ids) then new else m) (Z.to_nat id) a b d e) as (a & b & d & e & Hl).
    { case_bool_decide; [destruct (Hn (Z.to_nat id)) as (a & b & d & e & Hl & _)|destruct (Hm (Z.to_nat id)) as (a & b & d & e & Hl & _)]; try lia; by eexists _, _, _, _. }
    pose proof (Hat (Z.to_nat id) a b d e ltac:(lia)) as Hl'. rewrite Z2Nat.id in Hl' by lia. destruct (Hl' Hl) as [-> _]. by destruct Hl as [-> _]. }
  split; [|done]. split; [done|]. unfold update in E. pyinv. cbn [physical_to_logical_map logical_to_rank_dispatch_physical_map]. split; [unfold where_layer; by rewrite length_imap|].
  rewrite <-Sm. destruct (logical_to_rank_dispatch_physical_map new) eqn:E1, (logical_to_rank_dispatch_physical_map m) eqn:E2; done.
Qed.

Lemma update_location_ok m new ids (ws : layer_weights) : config_ok → metadata_for args c n m → metadata_for args c n new → weights_ok m ws →
  ids ≠ [] → NoDup ids → (∀ id, id ∈ ids → is_Some (ws !! id)) →
  ∃ m' ws', update_expert_location empty_like canary cfg m ws (Some new) ids = Ok (m', ws') ∧ metadata_for args c n m' ∧ weights_ok m' ws' ∧
    (∀ id, is_Some (ws' !! id) ↔ is_Some (ws !! id)) ∧
    ∀ id, 0 ≤ id < num_layers c → physical_to_logical_map m' !! Z.to_nat id = physical_to_logical_map (if bool_decide (id ∈ ids) then new else m) !! Z.to_nat id.
Proof using Hempty.
  intros Hcfg Hm Hn Hw Hne Hnd Hids. destruct (config_sizes Hcfg) as [Hnl HP]. destruct Hcfg as [_ _ _ Hnodes _ _ HT]. unfold update_expert_location, updater_update.
  assert (∀ id, id ∈ ids → 0 ≤ id < Z.of_nat n ∧ ∃ ts, ws !! id = Some ts ∧ ∀ row, physical_to_logical_map m !! Z.to_nat id = Some row → weights_hold nl world value T row ts) as Hids'.
  { intros id Hid. destruct (Hids id Hid) as [ts Hts]. destruct (Hw id ts Hts) as [Hr Hh]. split; [lia|]. by exists ts. }
  destruct (metadata_updated m new ids Hm Hn) as (m' & Eu & Hm' & Hrows).
  assert (∃ ws', (if ec_canary cfg then _update_expert_weights_with_canary empty_like canary world (ea_nnodes args) m new ids ws
      else _update_expert_weights_raw empty_like world (ea_nnodes args) m new ids ws) = Ok ws' ∧ (∀ k, k ∉ ids → ws' !! k = ws !! k) ∧
    ∀ id, id ∈ ids → ∃ ts, ws' !! id = Some ts ∧ ∀ row, physical_to_logical_map new !! Z.to_nat id = Some row → weights_hold nl world value T row ts) as (ws' & -> & Hk & Hin).
  { destruct (ec_canary cfg).
    - apply (update_canary_ok empty_like Hempty _ P nl _ world (ea_nnodes args) n Hnl HP Hnodes value canary T HT m new ids ws (proj1 Hm) (proj1 Hn) Hne Hnd Hids').
    - apply (update_raw_ok empty_like Hempty _ P nl _ world (ea_nnodes args) n Hnl HP Hnodes value T HT m new ids ws (proj1 Hm) (proj1 Hn) Hne Hnd Hids'). }
  cbn [mbind pyres_bind]. rewrite Eu. cbn [mbind pyres_bind mret pyres_ret]. exists m', ws'. split; [done|]. split; [done|].
  assert (∀ id, is_Some (ws' !! id) ↔ is_Some (ws !! id)) as Hdom.
  { intros id. destruct (decide (id ∈ ids)) as [Hid|Hid]; [|by rewrite Hk]. destruct (Hin id Hid) as (ts & -> & _). split; [by intros _; apply Hids|done]. }
  split; [|done]. intros id ts Hts. destruct (proj1 (Hdom id) (mk_is_Some _ _ Hts)) as [ts0 Hts0]. destruct (Hw id ts0 Hts0) as [Hr Hh]. split; [done|]. intros row. rewrite (Hrows id Hr).
  case_bool_decide as Hid; [|rewrite Hk, Hts0 in Hts by done; injection Hts as <-; by apply Hh]. destruct (Hin id Hid) as (ts' & Hts' & Hh'). rewrite Hts in Hts'. injection Hts' as <-. apply Hh'.
Qed.

Lemma restart_ok m (ws : layer_weights) : config_ok → metadata_for args c n m → weights_ok m ws →
  restart cfg m ws = Ok (mkSystem m ws (Waiting (ec_iterations cfg - 1))) ∧ service_ok (mkSystem m ws (Waiting (ec_iterations cfg - 1))).
Proof using.
  intros Hcfg Hm Hw. unfold restart. destruct Hcfg as [_ _ _ _ Hi _ _]. rewrite (proj2 (Z.ltb_lt 0 (ec_iterations cfg))) by done. split; [done|]. by split.
Qed.

(** One chunk. *)
Lemma chunk_step m new (ws : layer_weights) ids chunks : config_ok → metadata_for args c n m → metadata_for args c n new → weights_ok m ws → chunks_ok m new ws (ids :: chunks) →
  ∃ m' ws', update_expert_location empty_like canary cfg m ws (Some new) ids = Ok (m', ws') ∧ metadata_for args c n m' ∧ weights_ok m' ws' ∧ chunks_ok m' new ws' chunks ∧
    ∀ id, is_Some (ws' !! id) ↔ is_Some (ws !! id).
Proof using Hempty.
  intros Hcfg Hm Hn Hw (Hne & Hnd & Hin & Hdone). apply Forall_cons in Hne as [Hne Hnes]. cbn [concat] in *. apply NoDup_app in Hnd as (Hnd & Hdis & Hnds).
  destruct (update_location_ok m new ids ws Hcfg Hm Hn Hw Hne Hnd) as (m' & ws' & E & Hm' & Hw' & Hdom & Hrows); [intros id Hid; apply Hin, elem_of_app; by left|].
  exists m', ws'. split; [done|]. split; [done|]. split; [done|]. split; [|done]. split; [done|]. split; [done|]. split.
  - intros id Hid. apply Hdom, Hin, elem_of_app. by right.
  - intros id Hid%Hdom Hni. destruct Hid as [ts Hts]. destruct (Hw id ts Hts) as [Hr _]. rewrite (Hrows id Hr). case_bool_decide as Hd; [done|]. apply Hdone; [by eexists|].
    rewrite elem_of_app. tauto.
Qed.

Lemma all_chunks_ok (ws : layer_weights) : config_ok → ∃ chunks, _compute_update_layer_ids_chunks (ec_layers_per_chunk cfg) ws = Ok chunks ∧
  Forall (fun c => c ≠ []) chunks ∧ NoDup (concat chunks) ∧ ∀ id, id ∈ concat chunks ↔ is_Some (ws !! id).
Proof using.
  intros [_ _ _ _ _ Hc _]. unfold _compute_update_layer_ids_chunks. set (k := match ec_layers_per_chunk cfg with Some k => _ | None => _ end).
  assert (0 < k) as Hk by (unfold k; destruct (ec_layers_per_chunk cfg) as [k'|]; [|lia]; specialize (Hc k' eq_refl); destruct (Z.eqb_spec k' 0); lia).
  destruct (chunk_list_ok (torch_sort (elements (dom ws))) k Hk) as (chunks & -> & Ec & Hne). exists chunks. split; [done|]. split; [done|]. rewrite Ec. split.
  - rewrite torch_sort_perm. apply NoDup_elements.
  - intros id. rewrite torch_sort_perm, elem_of_elements. apply elem_of_dom.
Qed.

Lemma pass_ok st dump : config_ok → service_ok st → counts_ok (num_layers c) (num_logical_experts c) (logical_count dump) →
  ∃ st', on_forward_pass_end empty_like canary torch_garbage vec_rebalance sample shuffle cfg seed st dump = Ok st' ∧ service_ok st'.
Proof using Hempty Hgarbage Hsample Hshuffle.
  intros Hcfg [Hm Hw Hp] Hd. unfold on_forward_pass_end, phase_ok in *. destruct st as [m ws ph]. cbn [es_meta es_weights es_phase] in *. destruct ph as [k|new chunks].
  - destruct (0 <? k); [by eexists; split; [reflexivity|]; split|]. unfold rebalance. destruct (_check_rebalance_needed _ _); cbn [negb].
    2: { destruct (restart_ok m ws Hcfg Hm Hw) as [-> Hok]. by eexists. }
    rewrite (co_model Hcfg). destruct (init_by_eplb_ok torch_garbage Hgarbage vec_rebalance sample shuffle Hsample Hshuffle args c (logical_count dump) seed (co_args Hcfg) (co_policy Hcfg) Hd) as (new & -> & Hn).
    cbn [mbind pyres_bind]. destruct (all_chunks_ok ws Hcfg) as (chunks & -> & Hne & Hnd & Hin). cbn [mbind pyres_bind].
    assert (chunks_ok m new ws chunks) as Hck. { split; [done|]. split; [done|]. split; [intros id Hid; by apply Hin|]. intros id Hid Hni. destruct Hni. by apply Hin. }
    destruct chunks as [|ids [|ids' chunks]].
    + destruct (restart_ok m ws Hcfg Hm Hw) as [-> Hok]. by eexists.
    + destruct (chunk_step m new ws ids [] Hcfg Hm Hn Hw Hck) as (m' & ws' & -> & Hm' & Hw' & _ & _). cbn [mbind pyres_bind]. destruct (restart_ok m' ws' Hcfg Hm' Hw') as [-> Hok]. by eexists.
    + eexists. split; [reflexivity|]. split; [done..|]. exists new. done.
  - destruct Hp as (new' & -> & Hn & Hne & Hck). destruct chunks as [|ids chunks]; [done|]. destruct (chunk_step m new' ws ids chunks Hcfg Hm Hn Hw Hck) as (m' & ws' & -> & Hm' & Hw' & Hck' & _).
    cbn [mbind pyres_bind]. destruct chunks as [|ids' chunks]; [destruct (restart_ok m' ws' Hcfg Hm' Hw') as [-> Hok]; by eexists|]. eexists. split; [reflexivity|]. split; [done..|]. exists new'. done.
Qed.

Lemma passes_ok st dumps : config_ok → service_ok st → Forall (fun d => counts_ok (num_layers c) (num_logical_experts c) (logical_count d)) dumps →
  ∃ st', run_passes empty_like canary torch_garbage vec_rebalance sample shuffle cfg seed st dumps = Ok st' ∧ service_ok st'.
Proof using Hempty Hgarbage Hsample Hshuffle.
  intros Hcfg Hst Hd. unfold run_passes. change (mret st) with (Ok st). revert st Hst. induction Hd as [|d dumps Hd _ IH]; intros st Hst; [by exists st|].
  destruct (pass_ok st d Hcfg Hst Hd) as (st1 & E & H1). cbn [foldl mbind pyres_bind]. rewrite E. by apply IH.
Qed.

(** ** Dispatch *)

(** The physical expert [p] computes [e]: its GPU has the weights of [e] there. *)
Definition computes (ts : list (list (list W))) (e p : Z) : Prop :=
  ∃ tensors, 0 ≤ p ∧ ts !! Z.to_nat (p / nl) = Some tensors ∧ ∀ i, 0 ≤ i < T → cell tensors i (p mod nl) = Some (value i e).

Definition algorithm_ok (a : string) : Prop :=
  (a = "static"%string ∧ ea_static args = true) ∨ a = "dynamic"%string ∨ a = "fake"%string.

Lemma placed_computes row ts e p : config_ok → covering (num_logical_experts c) P row → weights_hold nl world value T row ts → 0 ≤ p → row !! Z.to_nat p = Some e → computes ts e p.
Proof using.
  intros Hcfg (Lr & _) [Lt Ht] Hp He. destruct (config_sizes Hcfg) as [Hnl HP]. apply lookup_range in He as Hr. rewrite Z2Nat.id in Hr by done.
  pose proof (Z.div_mod p nl ltac:(lia)) as Ed. pose proof (Z.mod_pos_bound p nl Hnl) as Hm. assert (0 ≤ p / nl < world) as Hrank by nia.
  destruct (lookup_lt_is_Some_2 ts (Z.to_nat (p / nl))) as [tensors E]; [unfold len in *; lia|]. exists tensors. split; [done|]. split; [done|].
  intros i Hi. destruct (Ht _ _ E) as [_ Hv]. rewrite Z2Nat.id in Hv by lia. rewrite (Hv i p Hi), He by (unfold local; nia). done.
Qed.

Lemma dispatch_served st id ts a rnd ids : config_ok → service_ok st → es_weights st !! id = Some ts → algorithm_ok a →
  Forall (fun e => 0 ≤ e < num_logical_experts c) ids → Forall (Z.le 0) rnd → length rnd = length ids →
  ∃ out, topk_ids_logical_to_physical (Some a) (Some (es_meta st)) id rnd ids = Ok out ∧ Forall2 (computes ts) ids out.
Proof using.
  intros Hcfg [[Hm [Lm Sm]] Hw _] Hts Ha Hids Hrnd Hl. destruct (Hw id ts Hts) as [Hr Hh].
  destruct (dispatch_ok _ _ _ _ n (es_meta st) (Z.to_nat id) Hm ltac:(lia)) as (row & info & Erow & Einfo & Hdyn & Hst). rewrite Z2Nat.id in Einfo by lia.
  destruct (meta_row _ _ _ _ _ _ (Z.to_nat id) Hm ltac:(lia)) as (row' & Er' & Hcov). rewrite Erow in Er'. injection Er' as <-.
  assert (∀ out, Forall2 (fun e p => 0 ≤ p ∧ row !! Z.to_nat p = Some e) ids out → Forall2 (computes ts) ids out) as Hall.
  { intros out F. eapply Forall2_impl; [exact F|]. intros e p [Hp He]. eapply placed_computes; eauto. }
  unfold topk_ids_logical_to_physical. rewrite Einfo. cbn [mbind pyres_bind]. destruct Ha as [[-> Hs]|Ha].
  - destruct (Hst (proj2 Sm Hs) ids Hids) as (out & E & F). exists out. split; [exact E|]. apply Hall. eapply Forall2_impl; [exact F|]. by intros e p (H1 & H2 & _).
  - destruct (Hdyn ids rnd Hids Hrnd Hl) as (out & E & F). exists out. split; [destruct Ha as [-> | ->]; exact E|]. by apply Hall.
Qed.

Lemma start_ok m (ws : layer_weights) : config_ok → init_trivial sample shuffle args (Some c) seed = Ok (Some m) → weights_ok m ws →
  service_ok (mkSystem m ws (Waiting (ec_iterations cfg))).
Proof using Hsample Hshuffle.
  intros Hcfg Em Hw. destruct (init_trivial_ok sample shuffle Hsample Hshuffle args c seed (co_args Hcfg)) as (m' & Em' & Hm). rewrite Em in Em'. injection Em' as <-. by split.
Qed.

(** C12: every token is computed by the expert it is meant for, at every
    forward pass and during every rebalance.  The server starts with the
    trivial placement and each layer's weights where that placement has them.
    Whatever the recorder reports, any number of forward passes succeed,
    although some of them compute a new placement and others move the weights
    of a few layers to it, with or without the canary.  Afterwards the dispatch
    of each layer maps logical experts to physical experts whose GPU has, in
    every tensor, the weights of that logical expert. *)
Theorem experts_always_served m (ws : layer_weights) dumps : config_ok → init_trivial sample shuffle args (Some c) seed = Ok (Some m) → weights_ok m ws →
  Forall (fun d => counts_ok (num_layers c) (num_logical_experts c) (logical_count d)) dumps →
  ∃ st, run_passes empty_like canary torch_garbage vec_rebalance sample shuffle cfg seed (mkSystem m ws (Waiting (ec_iterations cfg))) dumps = Ok st ∧
    ∀ id ts a rnd ids, es_weights st !! id = Some ts → algorithm_ok a → Forall (fun e => 0 ≤ e < num_logical_experts c) ids → Forall (Z.le 0) rnd → length rnd = length ids →
      ∃ out, topk_ids_logical_to_physical (Some a) (Some (es_meta st)) id rnd ids = Ok out ∧ Forall2 (computes ts) ids out.
Proof using Hempty Hgarbage Hsample Hshuffle.
  intros Hcfg Em Hw Hd. destruct (passes_ok _ dumps Hcfg (start_ok m ws Hcfg Em Hw) Hd) as (st & E & Hst). exists st. split; [done|].
  intros. by apply dispatch_served.
Qed.

(** ** Completion *)

Lemma updating_completes rest : ∀ m new (ws : layer_weights) chunks, config_ok → metadata_for args c n m → metadata_for args c n new → weights_ok m ws → chunks ≠ [] →
  chunks_ok m new ws chunks → length rest = length chunks →
  ∃ st, run_passes empty_like canary torch_garbage vec_rebalance sample shuffle cfg seed (mkSystem m ws (Updating (Some new) chunks)) rest = Ok st ∧
    es_phase st = Waiting (ec_iterations cfg - 1) ∧ (∀ id, is_Some (es_weights st !! id) ↔ is_Some (ws !! id)) ∧
    ∀ id, is_Some (ws !! id) → physical_to_logical_map (es_meta st) !! Z.to_nat id = physical_to_logical_map new !! Z.to_nat id.
Proof using Hempty.
  induction rest as [|d rest IH]; intros m new ws chunks Hcfg Hm Hn Hw Hne Hck Hl; [by destruct chunks|]. destruct chunks as [|ids chunks]; [done|]. injection Hl as Hl.
  destruct (chunk_step m new ws ids chunks Hcfg Hm Hn Hw Hck) as (m' & ws' & E & Hm' & Hw' & Hck' & Hdom). unfold run_passes in *. cbn [foldl mbind pyres_bind mret pyres_ret].
  unfold on_forward_pass_end at 2. cbn [es_phase es_meta es_weights]. rewrite E. cbn [mbind pyres_bind]. destruct chunks as [|ids' chunks].
  - destruct rest; [|done]. destruct (restart_ok m' ws' Hcfg Hm' Hw') as [-> _]. cbn [foldl]. eexists. split; [reflexivity|]. cbn [es_phase es_meta es_weights]. split; [done|]. split; [done|].
    intros id Hid. destruct Hck' as (_ & _ & _ & Hdone). apply Hdone; [by apply Hdom|]. by apply not_elem_of_nil.
  - destruct (IH m' new ws' (ids' :: chunks) Hcfg Hm' Hn Hw' ltac:(done) Hck' Hl) as (st & Es & Hp & Hd & Hrows). exists st. split; [exact Es|]. split; [done|]. split.
    + intros id. by rewrite Hd.
    + intros id Hid. apply Hrows. by apply Hdom.
Qed.

Lemma chunks_bound (chunks : list (list Z)) : Forall (fun c => c ≠ []) chunks → (length chunks ≤ length (concat chunks))%nat.
Proof using. clear. induction 1 as [|c chunks Hc _ IH]; [done|]. cbn [concat length]. rewrite length_app. destruct c; [done|]. simpl. lia. Qed.

(** C14: a rebalance finishes.  When the manager decides to rebalance, it
    computes a new placement, and after at most one forward pass for each layer
    of the model it waits again and every layer has the new placement; what the
    recorder reports in the meantime does not matter. *)
Theorem rebalance_completes st dump : config_ok → service_ok st → es_phase st = Waiting 0 → _check_rebalance_needed (ec_threshold cfg) (average_utilization dump) = true →
  counts_ok (num_layers c) (num_logical_experts c) (logical_count dump) →
  ∃ new k, init_by_eplb torch_garbage vec_rebalance sample shuffle args (ec_model cfg) (logical_count dump) seed = Ok (Some new) ∧ (k ≤ size (es_weights st))%nat ∧
    ∀ rest, length rest = k → ∃ st',
      run_passes empty_like canary torch_garbage vec_rebalance sample shuffle cfg seed st (dump :: rest) = Ok st' ∧ es_phase st' = Waiting (ec_iterations cfg - 1) ∧
      ∀ id, is_Some (es_weights st !! id) → is_Some (es_weights st' !! id) ∧ physical_to_logical_map (es_meta st') !! Z.to_nat id = physical_to_logical_map new !! Z.to_nat id.
Proof using Hempty Hgarbage Hsample Hshuffle.
  intros Hcfg [Hm Hw _] Hp Hneed Hd. destruct st as [m ws ph]. cbn [es_meta es_weights es_phase] in *. subst ph. rewrite (co_model Hcfg).
  destruct (init_by_eplb_ok torch_garbage Hgarbage vec_rebalance sample shuffle Hsample Hshuffle args c (logical_count dump) seed (co_args Hcfg) (co_policy Hcfg) Hd) as (new & Ei & Hn).
  destruct (all_chunks_ok ws Hcfg) as (chunks & Ec & Hne & Hnd & Hin). rewrite Ei.
  assert (chunks_ok m new ws chunks) as Hck. { split; [done|]. split; [done|]. split; [intros id Hid; by apply Hin|]. intros id Hid Hni. destruct Hni. by apply Hin. }
  assert (length chunks ≤ size ws)%nat as Hsize.
  { pose proof (chunks_bound chunks Hne). rewrite <-size_dom. unfold size, set_size. simpl. assert (concat chunks ≡ₚ elements (dom ws)) as Hperm%Permutation_length; [|lia].
    apply NoDup_Permutation; [done|apply NoDup_elements|]. intros id. by rewrite Hin, elem_of_elements, elem_of_dom. }
  exists new, (if decide (length chunks ≤ 1)%nat then 0%nat else length chunks). split; [done|]. split; [case_decide; lia|]. intros rest Hl.
  unfold run_passes. cbn [foldl mbind pyres_bind mret pyres_ret]. unfold on_forward_pass_end at 2. cbn [es_phase es_meta es_weights]. unfold rebalance. rewrite Hneed. cbn [negb Z.ltb Z.compare].
  rewrite (co_model Hcfg), Ei. cbn [mbind pyres_bind]. rewrite Ec. cbn [mbind pyres_bind]. destruct chunks as [|ids [|ids' chunks]]; simpl in Hl.
  - destruct rest; [|done]. destruct (restart_ok m ws Hcfg Hm Hw) as [-> _]. eexists. split; [reflexivity|]. split; [done|]. intros id Hid. split; [done|]. cbn [es_meta]. apply Hin in Hid. by apply elem_of_nil in Hid.
  - destruct rest; [|done]. destruct (chunk_step m new ws ids [] Hcfg Hm Hn Hw Hck) as (m' & ws' & -> & Hm' & Hw' & Hck' & Hdom). cbn [mbind pyres_bind]. destruct (restart_ok m' ws' Hcfg Hm' Hw') as [-> _].
    eexists. split; [reflexivity|]. split; [done|]. intros id Hid. cbn [es_meta es_weights]. split; [by apply Hdom|]. destruct Hck' as (_ & _ & _ & Hdone). apply Hdone; [by apply Hdom|]. by apply not_elem_of_nil.
  - destruct (updating_completes rest m new ws (ids :: ids' :: chunks) Hcfg Hm Hn Hw ltac:(done) Hck Hl) as (st & Es & Hp & Hdom & Hrows). exists st. split; [exact Es|]. split; [done|].
    intros id Hid. split; [by apply Hdom|by apply Hrows].
Qed.

End service.

(** ** An example *)

(** Two GPUs, four experts and two redundant ones in each of two layers; one
    layer at a time. *)
Module example.

Definition sample (r : unit) (l : list Z) (k : Z) : list Z * unit := (take (Z.to_nat k) l, r).
Definition shuffle (r : unit) (l : list Z) : list Z * unit := (l, r).
Definition vec_rebalance (_ : list (list (list Q))) (_ _ : Z) (_ : option Z) (_ : Z) (_ : bool) : pyres (list (list Z) * list (list (list Z)) * list (list Z)) :=
  Raise NotImplementedError.
Definition cfg : eplb_config := mkEplbConfig (mkExpertArgs 2 2 1 true "auto" 1) (Some (mkExpertConfig 2 4 None)) 3 (Some 1) 1 true.
Definition model : ModelConfigForExpertLocation := mkExpertConfig 2 4 None.
Definition value (i e : Z) : Z := 100 * i + e.
Definition weights : gmap Z (list (list (list Z))) :=
  <[0:=[[[0; 1; 2]; [100; 101; 102]]; [[3; 0; 1]; [103; 100; 101]]]]> (<[1:=[[[0; 1; 2]; [100; 101; 102]]; [[3; 0; 1]; [103; 100; 101]]]]> ∅).
Definition meta : ExpertLocationMetadata :=
  mkLocation [[0; 1; 2; 3; 0; 1]; [0; 1; 2; 3; 0; 1]]
    (replicate 2 [[0; 4; -1; -1; -1; -1]; [1; 5; -1; -1; -1; -1]; [2; -1; -1; -1; -1; -1]; [3; -1; -1; -1; -1; -1]])
    (replicate 2 [2; 2; 1; 1]) (Some [[4; 5; 2; 3]; [4; 5; 2; 3]]).
Definition dump : dump_record := mkDump [[[9; 1; 1; 1]; [1; 1; 8; 2]]; [[7; 1; 2; 1]; [1; 3; 9; 0]]]%Q None.

Lemma sample_ok r l k : 0 ≤ k ≤ len l → len (sample r l k).1 = k ∧ Forall (fun x => x ∈ l) (sample r l k).1.
Proof.
  intros Hk. unfold sample. cbn [fst]. split; [rewrite len_take; lia|]. apply Forall_forall. intros x Hx. eapply subseteq_take, Hx.
Qed.

Lemma config_holds : config_ok cfg model 2.
Proof.
  split; [done|split; simpl; [lia..|split; [lia|by exists 3]]| |simpl; lia|simpl; lia| |lia].
  - left. split; [done|]. split; simpl; [lia|split; [lia|by exists 4]|split; [lia|split; [by exists 1|by exists 2]]|split; [lia|by exists 3]].
  - intros k [= <-]. lia.
Qed.

Lemma weights_hold_start : weights_ok cfg model value 2 meta weights.
Proof.
  intros id ts Hts. unfold weights in Hts.
  assert (id = 0 ∨ id = 1) as Hid.
  { destruct (decide (id = 0)) as [->|H0]; [by left|]. destruct (decide (id = 1)) as [->|H1]; [by right|]. rewrite !lookup_insert_ne, lookup_empty in Hts by done. done. }
  assert (ts = [[[0; 1; 2]; [100; 101; 102]]; [[3; 0; 1]; [103; 100; 101]]]) as -> by (destruct Hid as [-> | ->]; vm_compute in Hts; by injection Hts).
  split; [simpl; lia|]. intros row Hrow. assert (row = [0; 1; 2; 3; 0; 1]) as -> by (destruct Hid as [-> | ->]; by injection Hrow).
  split; [done|]. intros r t Hr. assert (∀ i, 0 ≤ i < 2 → i = 0 ∨ i = 1) as H2 by lia.
  assert (∀ x, local 3 (Z.of_nat r) x → x = Z.of_nat r * 3 ∨ x = Z.of_nat r * 3 + 1 ∨ x = Z.of_nat r * 3 + 2) as H3 by (unfold local; lia).
  destruct r as [|[|r]]; [injection Hr as <-..|done]; (split; [split; [done|]; repeat match goal with |- Forall _ _ => constructor end; done|]);
    intros i x Hi Hx; destruct (H2 i Hi) as [-> | ->]; destruct (H3 x Hx) as [-> |[-> | ->]]; reflexivity.
Qed.

Lemma counts_hold : counts_ok 2 4 (logical_count dump).
Proof. repeat (match goal with |- Forall _ _ => constructor | |- _ ∧ _ => split | |- counts_ok _ _ _ => unfold counts_ok, dump; simpl end); try done; apply Qle_bool_iff; reflexivity. Qed.

#[local] Existing Instance fifo.

Definition passes (st : eplb_system) (dumps : list dump_record) : pyres eplb_system :=
  run_passes (fun t => t) (fun e => e) (fun n => replicate n 0) vec_rebalance sample shuffle cfg tt st dumps.
Definition start : eplb_system := mkSystem meta weights (Waiting 3).

Lemma experts_always_served_witness : ∃ st, passes start (replicate 6 dump) = Ok st ∧
  ∀ ts, es_weights st !! 1 = Some ts → ∃ out, topk_ids_logical_to_physical (Some "static"%string) (Some (es_meta st)) 1 [0; 0] [2; 3] = Ok out ∧ Forall2 (computes cfg model value 2 ts) [2; 3] out.
Proof.
  destruct (experts_always_served (fun t => t) (fun t => eq_refl) (fun e => e) (fun n => replicate n 0) (fun n => length_replicate n 0) vec_rebalance
    sample shuffle sample_ok (fun r l => reflexivity l) cfg model tt value 2 meta weights (replicate 6 dump)) as (st & E & Hst).
  - exact config_holds.
  - reflexivity.
  - exact weights_hold_start.
  - apply Forall_replicate. exact counts_hold.
  - exists st. split; [exact E|]. intros ts Hts. apply (Hst 1 ts "static"%string [0; 0] [2; 3] Hts).
    + left. split; reflexivity.
    + repeat match goal with |- Forall _ _ => constructor end; simpl; lia.
    + repeat match goal with |- Forall _ _ => constructor end; lia.
    + reflexivity.
Defined.

Definition before_rebalance : eplb_system := mkSystem meta weights (Waiting 0).

Lemma before_rebalance_ok : service_ok cfg model value 2 before_rebalance.
Proof.
  destruct (start_ok sample shuffle sample_ok (fun r l => reflexivity l) cfg model tt value 2 meta weights config_holds eq_refl weights_hold_start) as [H1 H2 _]. by split.
Qed.

Lemma rebalance_completes_witness : ∃ k, (k ≤ 2)%nat ∧ ∃ st', passes before_rebalance (dump :: replicate k dump) = Ok st' ∧ es_phase st' = Waiting 2.
Proof.
  destruct (rebalance_completes (fun t => t) (fun t => eq_refl) (fun e => e) (fun n => replicate n 0) (fun n => length_replicate n 0) vec_rebalance
    sample shuffle sample_ok (fun r l => reflexivity l) cfg model tt value 2 before_rebalance dump) as (new & k & _ & Hk & Hrun).
  - exact config_holds.
  - exact before_rebalance_ok.
  - reflexivity.
  - reflexivity.
  - exact counts_hold.
  - exists k. split; [exact Hk|]. destruct (Hrun (replicate k dump) (length_replicate k dump)) as (st' & E & Hp & _). exists st'. split; [exact E|exact Hp].
Defined.

(** After three passes the manager rebalances, then it moves one layer after
    the other. *)
Example passes_example :
  (match passes start (replicate 6 dump) with Ok st => Some (physical_to_logical_map (es_meta st), es_weights st !! 1, es_phase st) | Raise _ => None end)
  = Some ([[0; 0; 3; 0; 2; 1]; [2; 2; 3; 2; 1; 0]], Some [[[2; 2; 3]; [102; 102; 103]]; [[2; 1; 0]; [102; 101; 100]]], Waiting 2).
Proof. vm_compute. reflexivity. Qed.

End example.
