(* ===== verification/RWLock.v ===== *)
(** * The asynchronous readers-writer lock ([python/sglang/srt/aio_rwlock.py])

    [_lock] is taken at the start of every method and given up at its end or
    while waiting on [_cond], always before the coroutine suspends, so it is
    never found taken: the code between two suspensions is atomic.  A
    coroutine is at one of the points of [pc]; [notify_all] moves every
    sleeping coroutine to its retry point.  A coroutine that waits can be
    cancelled. *)

From S2P Require Import Prelude.

Module RWLock.

Record t := mk {
  _readers : Z;
  _writer_active : bool;
  _waiting_writers : Z;
}.

Definition init : t := mk 0 false 0.

(** Where a coroutine suspends: outside, waiting on [_cond] asleep or
    notified, and inside the locked region. *)
Inductive pc := Outside | RSleep | RReady | Reading | WSleep | WReady | Writing.

#[export] Instance pc_eq_dec : EqDecision pc.
Proof. solve_decision. Defined.

(** The loop of [acquire_reader], from its test to the next suspension. *)
Definition acquire_reader (s : t) : pc * t :=
  if _writer_active s || (0 <? _waiting_writers s) then (RSleep, s)
  else (Reading, mk (_readers s + 1) (_writer_active s) (_waiting_writers s)).

(** [true]: [notify_all] is called. *)
Definition release_reader (s : t) : bool * t :=
  let s := mk (_readers s - 1) (_writer_active s) (_waiting_writers s) in
  (_readers s =? 0, s).

(** The loop of [acquire_writer]; the [finally] block runs on success. *)
Definition acquire_writer_loop (s : t) : pc * t :=
  if _writer_active s || (0 <? _readers s) then (WSleep, s)
  else (Writing, mk (_readers s) true (_waiting_writers s - 1)).

Definition acquire_writer (s : t) : pc * t :=
  acquire_writer_loop (mk (_readers s) (_writer_active s) (_waiting_writers s + 1)).

(** The [finally] block of a cancelled [acquire_writer]. *)
Definition cancel_writer (s : t) : t :=
  mk (_readers s) (_writer_active s) (_waiting_writers s - 1).

Definition release_writer (s : t) : bool * t :=
  (true, mk (_readers s) false (_waiting_writers s)).

Definition wake (p : pc) : pc :=
  match p with RSleep => RReady | WSleep => WReady | p => p end.

Definition notify_all (b : bool) (ps : list pc) : list pc := if b then wake <$> ps else ps.
#[global] Arguments notify_all : simpl never.

(** ** Steps of a set of coroutines *)

Definition config : Type := t * list pc.

Inductive event := Run (i : nat) | Start_reader (i : nat) | Start_writer (i : nat) | Cancel (i : nat).

(** The effect of one event, when it is possible. *)
Definition exec (e : event) (c : config) : option config :=
  let '(s, ps) := c in
  match e with
  | Start_reader i =>
      match ps !! i with
      | Some Outside => let '(p, s) := acquire_reader s in Some (s, <[i := p]> ps)
      | _ => None
      end
  | Start_writer i =>
      match ps !! i with
      | Some Outside => let '(p, s) := acquire_writer s in Some (s, <[i := p]> ps)
      | _ => None
      end
  | Run i =>
      match ps !! i with
      | Some RReady => let '(p, s) := acquire_reader s in Some (s, <[i := p]> ps)
      | Some WReady => let '(p, s) := acquire_writer_loop s in Some (s, <[i := p]> ps)
      | Some Reading => let '(b, s) := release_reader s in Some (s, notify_all b (<[i := Outside]> ps))
      | Some Writing => let '(b, s) := release_writer s in Some (s, notify_all b (<[i := Outside]> ps))
      | _ => None
      end
  | Cancel i =>
      match ps !! i with
      | Some RSleep | Some RReady => Some (s, <[i := Outside]> ps)
      | Some WSleep | Some WReady => Some (cancel_writer s, <[i := Outside]> ps)
      | _ => None
      end
  end.

Definition is_cancel (e : event) : bool := match e with Cancel _ => true | _ => false end.

(** Reachable configurations; [cancel] allows cancellations. *)
Inductive reachable (cancel : bool) : config → Prop :=
  | reach_init n : reachable cancel (init, replicate n Outside)
  | reach_step e c c' : reachable cancel c → exec e c = Some c' →
      (is_cancel e = true → cancel = true) → reachable cancel c'.

(** ** The invariant *)

Definition count (P : pc → bool) (ps : list pc) : Z := zsum ((fun p => Z.b2z (P p)) <$> ps).

Definition reads (p : pc) : bool := match p with Reading => true | _ => false end.
Definition writes (p : pc) : bool := match p with Writing => true | _ => false end.
Definition waits (p : pc) : bool := match p with WSleep | WReady => true | _ => false end.
Definition asleep_r (p : pc) : bool := match p with RSleep => true | _ => false end.
Definition asleep_w (p : pc) : bool := match p with WSleep => true | _ => false end.
Definition ready_w (p : pc) : bool := match p with WReady => true | _ => false end.

Lemma count_nonneg P ps : 0 ≤ count P ps.
Proof. apply zsum_nonneg. intros x (p & -> & _)%list_elem_of_fmap. destruct (P p); simpl; lia. Qed.

Lemma count_insert P ps i p q :
  ps !! i = Some p → count P (<[i := q]> ps) = count P ps - Z.b2z (P p) + Z.b2z (P q).
Proof.
  unfold count. revert i. induction ps as [|x ps IH]; intros [|i] E; simplify_eq/=.
  - rewrite !zsum_cons. lia.
  - csimpl. rewrite !zsum_cons, (IH i E). lia.
Qed.

Lemma count_pos P ps i p : ps !! i = Some p → P p = true → 0 < count P ps.
Proof.
  intros E HP. revert i E. induction ps as [|x ps IH]; intros [|i] E; simplify_eq/=;
    pose proof (count_nonneg P ps) as Hn; unfold count in *; csimpl; rewrite zsum_cons.
  - rewrite HP. simpl. lia.
  - specialize (IH i E). destruct (P x); simpl; lia.
Qed.

Lemma count_notify P ps b :
  (∀ p, P (wake p) = P p) → count P (notify_all b ps) = count P ps.
Proof.
  intros HP. destruct b; [|done]. unfold notify_all, count. rewrite <-list_fmap_compose. f_equal.
  apply fmap_ext_elem. intros p _. simpl. by rewrite HP.
Qed.

Lemma count_woken P ps : (∀ p, P (wake p) = false) → count P (wake <$> ps) = 0.
Proof.
  intros HP. unfold count. rewrite <-list_fmap_compose, <-(zsum_zeros ps). f_equal.
  apply fmap_ext_elem. intros p _. simpl. by rewrite HP.
Qed.

(** At most one writer, and no reader beside it; the fields count. *)
Record lock_inv (c : config) : Prop := mk_inv {
  inv_readers : _readers c.1 = count reads c.2;
  inv_writer : count writes c.2 = Z.b2z (_writer_active c.1);
  inv_waiting : _waiting_writers c.1 = count waits c.2;
  inv_excl : _writer_active c.1 = true → _readers c.1 = 0;
}.

(** Every sleeper has somebody to wake it. *)
Definition awaited (c : config) : Prop :=
  (0 < count asleep_w c.2 → 0 < count reads c.2 + count writes c.2) ∧
  (0 < count asleep_r c.2 → 0 < count reads c.2 + count writes c.2 + count ready_w c.2).

(** Rewrite the counts of an updated configuration. *)
Ltac counts E :=
  cbn [fst snd _readers _writer_active _waiting_writers] in *;
  rewrite ?(count_notify reads), ?(count_notify writes), ?(count_notify waits) by (by intros []);
  rewrite ?(count_insert _ _ _ _ _ E); cbn [Z.b2z reads writes waits asleep_r asleep_w ready_w] in *.

Lemma waits_split ps : count waits ps = count asleep_w ps + count ready_w ps.
Proof.
  unfold count. induction ps as [|p ps IH]; [done|]. csimpl. rewrite !zsum_cons, IH. destruct p; simpl; lia.
Qed.

Lemma count_replicate P n : P Outside = false → count P (replicate n Outside) = 0.
Proof. intros HP. unfold count. induction n; [done|]. csimpl. rewrite zsum_cons, HP. simpl. lia. Qed.

Lemma exec_inv e c c' : lock_inv c → exec e c = Some c' → lock_inv c'.
Proof.
  destruct c as [[r w q] ps]. intros [I1 I2 I3 I4] E. simpl in *.
  pose proof (count_nonneg reads ps). pose proof (count_nonneg waits ps).
  pose proof (count_pos reads ps). pose proof (count_pos writes ps).
  destruct e as [i|i|i|i]; simpl in E; destruct (ps !! i) as [[]|] eqn:Ei; try discriminate E;
    unfold acquire_reader, acquire_writer, acquire_writer_loop in E; cbn in E;
    repeat match type of E with context [if ?b then _ else _] => destruct b eqn:? end;
    injection E as <-; split; counts Ei;
    try (specialize (H1 _ _ Ei eq_refl)); try (specialize (H2 _ _ Ei eq_refl)); try lia; destruct w; simpl in *; lia.
Qed.

Lemma notify_awaited b ps s :
  (b = false → awaited (s, ps)) → awaited (s, notify_all b ps).
Proof.
  destruct b; [|by auto]. intros _. unfold awaited, notify_all. simpl.
  rewrite (count_woken asleep_w), (count_woken asleep_r) by (by intros []). lia.
Qed.

Lemma exec_awaited e c c' :
  lock_inv c → awaited c → exec e c = Some c' → is_cancel e = false → awaited c'.
Proof.
  destruct c as [[r w q] ps]. intros [I1 I2 I3 I4] [A1 A2] E Hc. simpl in *.
  pose proof (waits_split ps) as Hw.
  pose proof (λ P, count_nonneg P ps) as Hn.
  pose proof (Hn reads). pose proof (Hn writes). pose proof (Hn asleep_w). pose proof (Hn ready_w). pose proof (Hn asleep_r).
  destruct e as [i|i|i|i]; try discriminate Hc; simpl in E; destruct (ps !! i) as [[]|] eqn:Ei; try discriminate E;
    unfold acquire_reader, acquire_writer, acquire_writer_loop in E; cbn in E;
    repeat match type of E with context [if ?b then _ else _] => destruct b eqn:Hb end;
    injection E as <-; try (apply notify_awaited; intros Hb); unfold awaited;
    cbn [snd fst]; rewrite ?(count_insert _ _ _ _ _ Ei); cbn [Z.b2z reads writes asleep_r asleep_w ready_w];
    try (pose proof (count_pos ready_w ps i _ Ei eq_refl)); try (pose proof (count_pos reads ps i _ Ei eq_refl));
    destruct w; simpl in *; lia.
Qed.

Lemma init_inv n : lock_inv (init, replicate n Outside) ∧ awaited (init, replicate n Outside).
Proof.
  unfold awaited. split; [split|]; simpl; rewrite ?count_replicate by done; simpl; try done; lia.
Qed.

Lemma reachable_inv cancel c : reachable cancel c → lock_inv c ∧ (cancel = false → awaited c).
Proof.
  induction 1 as [n|e c c' _ [I A] E Hc].
  - split; [|intros _]; apply init_inv.
  - split; [by eapply exec_inv|]. intros ->. eapply exec_awaited; [done|by apply A|done|].
    destruct (is_cancel e); [by discriminate Hc|done].
Qed.

Lemma writes_active s ps : lock_inv (s, ps) → _writer_active s = bool_decide (Writing ∈ ps).
Proof.
  intros [_ I2 _ _]. simpl in *. case_bool_decide as Hin.
  - apply list_elem_of_lookup in Hin as [i E]. pose proof (count_pos writes ps i _ E eq_refl).
    destruct (_writer_active s); [done|]. simpl in *. lia.
  - destruct (_writer_active s) eqn:Ew; [|done]. destruct Hin. simpl in I2.
    clear -I2. induction ps as [|p ps IH]; [done|]. unfold count in *. csimpl in I2. rewrite zsum_cons in I2.
    destruct (decide (p = Writing)) as [->|]; [left|]. right. apply IH. destruct p; simpl in *; done || lia.
Qed.

Lemma writer_alone s ps i j p : lock_inv (s, ps) → ps !! i = Some Writing → ps !! j = Some p → i ≠ j →
  p ≠ Writing ∧ p ≠ Reading.
Proof.
  intros [I1 I2 _ I4] Ei Ej Hij. simpl in *.
  assert (_writer_active s = true) as Ew.
  { pose proof (count_pos writes ps i _ Ei eq_refl). destruct (_writer_active s); [done|]. simpl in *. lia. }
  split; intros ->.
  - pose proof (count_insert writes ps i _ Outside Ei) as Hc. rewrite I2, Ew in Hc. simpl in Hc.
    pose proof (count_pos writes (<[i:=Outside]> ps) j Writing) as Hp.
    rewrite list_lookup_insert_ne in Hp by done. specialize (Hp Ej eq_refl). lia.
  - pose proof (count_pos reads ps j _ Ej eq_refl). specialize (I4 Ew). lia.
Qed.

(** C35: mutual exclusion, over every interleaving of coroutines that acquire
    and release the lock, wait, are notified and are cancelled while they
    wait.  In every reachable configuration [_readers] is the number of
    coroutines that read, [_waiting_writers] the number of those that wait to
    write, and [_writer_active] holds exactly when one writes; while a
    coroutine writes, no other one writes or reads. *)
Theorem rwlock_mutual_exclusion cancel s ps :
  reachable cancel (s, ps) →
  _readers s = count reads ps ∧ _waiting_writers s = count waits ps ∧ _writer_active s = bool_decide (Writing ∈ ps) ∧
  ∀ i j p, ps !! i = Some Writing → ps !! j = Some p → i ≠ j → p ≠ Writing ∧ p ≠ Reading.
Proof.
  intros R. destruct (reachable_inv _ _ R) as [I _].
  split_and!; [apply I|apply I|by apply writes_active|]. intros i j p. by apply writer_alone with (s := s).
Qed.

(** C36: without cancellations no wake-up is lost: whenever a coroutine
    sleeps, some coroutine holds the lock or a notified writer is about to
    run, and such a writer gets the lock when nobody holds it. *)
Theorem rwlock_no_lost_wakeup s ps i :
  reachable false (s, ps) → ps !! i = Some RSleep ∨ ps !! i = Some WSleep →
  0 < count reads ps + count writes ps ∨
  ∃ j s' ps', ps !! j = Some WReady ∧ exec (Run j) (s, ps) = Some (s', ps') ∧ ps' !! j = Some Writing.
Proof.
  intros R Hs. destruct (reachable_inv _ _ R) as [[I1 I2 I3 I4] [A1 A2]%(fun H => H eq_refl)]. simpl in *.
  destruct (decide (0 < count reads ps + count writes ps)) as [|Hno]; [by left|right].
  pose proof (count_nonneg reads ps). pose proof (count_nonneg writes ps).
  assert (0 < count ready_w ps) as Hr.
  { destruct Hs as [E|E].
    - specialize (A2 (count_pos asleep_r ps i _ E eq_refl)). lia.
    - specialize (A1 (count_pos asleep_w ps i _ E eq_refl)). lia. }
  assert (∃ j, ps !! j = Some WReady) as [j Ej].
  { clear -Hr. unfold count in Hr. induction ps as [|p ps IH]; [done|]. csimpl in Hr. rewrite zsum_cons in Hr.
    destruct (decide (p = WReady)) as [->|Hp]; [by exists 0%nat|].
    destruct IH as [j Ej]; [destruct p; simpl in *; done || lia|]. by exists (S j). }
  assert (_writer_active s = false) as Ew by (destruct (_writer_active s); [simpl in *; lia|done]).
  exists j. unfold exec. rewrite Ej. unfold acquire_writer_loop. rewrite Ew.
  destruct (Z.ltb_spec 0 (_readers s)); [lia|]. simpl. eexists _, _. split; [done|]. split; [done|].
  apply list_lookup_insert_eq. by eapply lookup_lt_Some.
Qed.

Definition run (es : list event) (c : config) : option config :=
  foldl (fun o e => o ≫= exec e) (Some c) es.

Lemma run_reachable cancel es c c' :
  reachable cancel c → run es c = Some c' → forallb (fun e => negb (is_cancel e) || cancel) es = true →
  reachable cancel c'.
Proof.
  revert c. induction es as [|e es IH]; intros c R E Hc; simpl in *; [by injection E as <-|].
  apply andb_true_iff in Hc as [He Hc]. unfold run in E. simpl in E.
  destruct (exec e c) as [c1|] eqn:Ee.
  - apply (IH c1); [|exact E|done]. eapply reach_step; [done..|]. intros Hi. by rewrite Hi in He.
  - exfalso. clear -E. induction es as [|e' es IH]; [done|]. simpl in E. by apply IH.
Qed.

(** cancellations can lose a wake-up.  A reader leaves and notifies a
    waiting writer and a waiting reader; the reader retries first and goes
    back to sleep because of the waiting writer; the writer is cancelled and
    notifies nobody: the reader sleeps although nobody holds or wants the
    lock. *)
Theorem rwlock_cancel_loses_wakeup :
  ∃ ps, reachable true (init, ps) ∧ ps = [Outside; Outside; RSleep].
Proof.
  eexists. split; [|reflexivity].
  apply (run_reachable true [Start_reader 0; Start_writer 1; Start_reader 2; Run 0; Run 2; Cancel 1]
    (init, replicate 3 Outside)); [constructor|reflexivity|reflexivity].
Qed.

Lemma rwlock_mutual_exclusion_witness :
  ∃ s, reachable true (s, [Writing; RSleep; WSleep]) ∧ _readers s = 0 ∧ _waiting_writers s = 1 ∧ _writer_active s = true.
Proof.
  exists (mk 0 true 1). assert (reachable true (mk 0 true 1, [Writing; RSleep; WSleep])) as R.
  { apply (run_reachable true [Start_writer 0; Start_reader 1; Start_writer 2] (init, replicate 3 Outside));
      [constructor|reflexivity|reflexivity]. }
  split; [exact R|]. destruct (rwlock_mutual_exclusion true _ _ R) as (E1 & E2 & E3 & _).
  split; [exact E1|]. split; [exact E2|]. exact E3.
Defined.

Lemma rwlock_no_lost_wakeup_witness :
  ∃ s, reachable false (s, [Writing; RSleep]) ∧
    (0 < count reads [Writing; RSleep] + count writes [Writing; RSleep] ∨
     ∃ j s' ps', [Writing; RSleep] !! j = Some WReady ∧
       exec (Run j) (s, [Writing; RSleep]) = Some (s', ps') ∧ ps' !! j = Some Writing).
Proof.
  exists (mk 0 true 0). assert (reachable false (mk 0 true 0, [Writing; RSleep])) as R.
  { apply (run_reachable false [Start_writer 0; Start_reader 1] (init, replicate 2 Outside));
      [constructor|reflexivity|reflexivity]. }
  split; [exact R|]. apply (rwlock_no_lost_wakeup _ _ 1 R). left. reflexivity.
Defined.

End RWLock.
