(* ===== verification/InputBlocker.v ===== *)
(** * Scheduler input: blocking and skipping

    [SchedulerInputBlocker] ([python/sglang/srt/managers/scheduler_input_blocker.py])
    holds requests back between a block and an unblock message and releases
    them once every rank has passed the barrier of
    [python/sglang/srt/poll_based_barrier.py]; [SchedulerRecvSkipper]
    ([python/sglang/srt/managers/scheduler_recv_skipper.py]) skips receiving.
    The collective [all_reduce(MIN)] is the conjunction of what the ranks of a
    round contribute. *)

From S2P Require Import Prelude Allocator PagedAllocator PagedProofs ReqPool SamplingParams Request KVAllocator ScheduleBatch.

(** ** The barrier *)

Record PollBasedBarrier := mkBarrier {
  barrier_noop : bool;
  _local_arrived : bool;
}.

Definition local_arrive (b : PollBasedBarrier) : pyres PollBasedBarrier :=
  py_assert (negb (_local_arrived b)) ;;
  mret (mkBarrier (barrier_noop b) true).

(** What a rank contributes to the reduction. *)
Definition contribution (b : PollBasedBarrier) : bool := barrier_noop b || _local_arrived b.

(** [global_arrived] is the result of the reduction. *)
Definition poll_global_arrived (global_arrived : bool) (b : PollBasedBarrier) : bool * PollBasedBarrier :=
  let output := _local_arrived b && global_arrived in
  (output, if output then mkBarrier (barrier_noop b) false else b).

(** ** The blocker *)

Inductive blocker_state := UNBLOCKED | BLOCKED | GLOBAL_UNBLOCK_BARRIER.

#[export] Instance blocker_state_eq_dec : EqDecision blocker_state.
Proof. solve_decision. Defined.

(** A received object: a control message or a request. *)
Inductive recv_req (R : Type) :=
  | BlockReq
  | UnblockReq
  | OtherReq (r : R).
Arguments BlockReq {R}.
Arguments UnblockReq {R}.
Arguments OtherReq {R} r.

Module InputBlocker.

Section blocker.
Context {R : Type}.

Record t := mk {
  _state : blocker_state;
  _pending_reqs : list R;
  _noop : bool;
  _global_unblock_barrier : PollBasedBarrier;
}.

Definition init (noop : bool) : t := mk UNBLOCKED [] noop (mkBarrier noop false).

Definition _change_state (original target : blocker_state) (b : t) : pyres t :=
  py_assert (bool_decide (_state b = original)) ;;
  mret (mk target (_pending_reqs b) (_noop b) (_global_unblock_barrier b)).

Definition _execute_block_req (b : t) : pyres t := _change_state UNBLOCKED BLOCKED b.

Definition _execute_unblock_req (b : t) : pyres t :=
  b ← _change_state BLOCKED GLOBAL_UNBLOCK_BARRIER b;
  bar ← local_arrive (_global_unblock_barrier b);
  mret (mk (_state b) (_pending_reqs b) (_noop b) bar).

Definition _handle_arrive_unblock_barrier (b : t) : pyres (list R * t) :=
  b ← _change_state GLOBAL_UNBLOCK_BARRIER UNBLOCKED b;
  mret (_pending_reqs b, mk (_state b) [] (_noop b) (_global_unblock_barrier b)).

Definition _handle_recv_req (r : recv_req R) (b : t) : pyres (list R * t) :=
  match r with
  | BlockReq => b ← _execute_block_req b; mret ([], b)
  | UnblockReq => b ← _execute_unblock_req b; mret ([], b)
  | OtherReq x =>
      if decide (_state b = UNBLOCKED) then mret ([x], b)
      else mret ([], mk (_state b) (_pending_reqs b ++ [x]) (_noop b) (_global_unblock_barrier b))
  end.

Fixpoint recv_loop (rs : list (recv_req R)) (b : t) : pyres (list R * t) :=
  match rs with
  | [] => mret ([], b)
  | r :: rs =>
      '(o, b) ← _handle_recv_req r b;
      '(os, b) ← recv_loop rs b;
      mret (o ++ os, b)
  end.

(** [handle] before and after the reduction. *)
Definition handle_recv (recv_reqs : option (list (recv_req R))) (b : t) : pyres (list R * t) :=
  py_assert (eqb (bool_decide (recv_reqs = None)) (_noop b)) ;;
  match recv_reqs with Some rs => recv_loop rs b | None => mret ([], b) end.

Definition handle_poll (global_arrived : bool) (output_reqs : list R) (b : t) : pyres (option (list R) * t) :=
  let '(arrived, bar) := poll_global_arrived global_arrived (_global_unblock_barrier b) in
  let b := mk (_state b) (_pending_reqs b) (_noop b) bar in
  '(out, b) ← (if bool_decide (_state b = GLOBAL_UNBLOCK_BARRIER) && arrived
               then '(o, b) ← _handle_arrive_unblock_barrier b; mret (output_reqs ++ o, b)
               else mret (output_reqs, b));
  mret (if _noop b then None else Some out, b).

(** [handle] when the other ranks contribute [others] in all. *)
Definition handle (recv_reqs : option (list (recv_req R))) (others : bool) (b : t)
    : pyres (option (list R) * t) :=
  '(out, b) ← handle_recv recv_reqs b;
  handle_poll (contribution (_global_unblock_barrier b) && others) out b.

(** ** Properties *)

(** The requests among the received objects. *)
Definition data (rs : list (recv_req R)) : list R :=
  omap (fun r => match r with OtherReq x => Some x | _ => None end) rs.

(** The control protocol: block only when unblocked, unblock only when blocked. *)
Fixpoint control (s : blocker_state) (rs : list (recv_req R)) : option blocker_state :=
  match rs with
  | [] => Some s
  | OtherReq _ :: rs => control s rs
  | BlockReq :: rs => if decide (s = UNBLOCKED) then control BLOCKED rs else None
  | UnblockReq :: rs => if decide (s = BLOCKED) then control GLOBAL_UNBLOCK_BARRIER rs else None
  end.

(** Requests are held back only while blocked, and a rank has arrived at the
    barrier exactly when it waits there. *)
Record blocker_inv (b : t) : Prop := mk_blocker_inv {
  bi_active : _noop b = false;
  bi_bnoop : barrier_noop (_global_unblock_barrier b) = false;
  bi_pending : _state b = UNBLOCKED → _pending_reqs b = [];
  bi_arrived : _local_arrived (_global_unblock_barrier b) = bool_decide (_state b = GLOBAL_UNBLOCK_BARRIER);
}.

Lemma recv_loop_ok rs b :
  blocker_inv b →
  match control (_state b) rs with
  | None => recv_loop rs b = Raise AssertionError
  | Some s => ∃ out b', recv_loop rs b = Ok (out, b') ∧ blocker_inv b' ∧ _state b' = s ∧
      out ++ _pending_reqs b' = _pending_reqs b ++ data rs ∧ (_state b ≠ UNBLOCKED → out = [])
  end.
Proof.
  revert b. induction rs as [|r rs IH]; intros b [N1 N2 P A]; simpl.
  { exists [], b. rewrite app_nil_r. split_and!; done. }
  destruct r as [| |x]; simpl.
  - unfold _execute_block_req, _change_state. destruct (decide (_state b = UNBLOCKED)) as [E|E].
    2:{ by rewrite bool_decide_eq_false_2. }
    rewrite bool_decide_eq_true_2 by done. simpl. specialize (P E).
    set (b1 := mk BLOCKED _ _ _). assert (blocker_inv b1) as I1.
    { split; simpl; try done. by rewrite A, E. }
    specialize (IH b1 I1). simpl in IH. destruct (control BLOCKED rs); [|by rewrite IH].
    destruct IH as (out & b' & -> & I' & Es & Ed & Eo). simpl. exists out, b'. split_and!; try done.
  - unfold _execute_unblock_req, _change_state. destruct (decide (_state b = BLOCKED)) as [E|E].
    2:{ by rewrite bool_decide_eq_false_2. }
    rewrite bool_decide_eq_true_2 by done. simpl. unfold local_arrive. simpl. rewrite A, E. simpl.
    set (b1 := mk GLOBAL_UNBLOCK_BARRIER _ _ _). assert (blocker_inv b1) as I1 by (split; done).
    specialize (IH b1 I1). simpl in IH. destruct (control GLOBAL_UNBLOCK_BARRIER rs); [|by rewrite IH].
    destruct IH as (out & b' & -> & I' & Es & Ed & Eo). simpl. exists out, b'. split_and!; try done.
    intros _. by apply Eo.
  - destruct (decide (_state b = UNBLOCKED)) as [E|E]; simpl.
    + specialize (IH b (mk_blocker_inv _ N1 N2 P A)). destruct (control (_state b) rs); [|by rewrite IH].
      destruct IH as (out & b' & -> & I' & Es & Ed & Eo). simpl. exists (x :: out), b'.
      split_and!; try done. rewrite (P E) in *. simpl in *. by rewrite Ed.
    + set (b1 := mk (_state b) _ _ _). assert (blocker_inv b1) as I1 by (split; done).
      specialize (IH b1 I1). simpl in IH. destruct (control (_state b) rs); [|by rewrite IH].
      destruct IH as (out & b' & -> & I' & Es & Ed & Eo). simpl. exists out, b'. split_and!; try done.
      by rewrite Ed, <-app_assoc.
Qed.

Lemma handle_poll_ok g out b :
  blocker_inv b →
  let release := bool_decide (_state b = GLOBAL_UNBLOCK_BARRIER) && g in
  ∃ b', handle_poll g out b = Ok (Some (if release then out ++ _pending_reqs b else out), b') ∧
    blocker_inv b' ∧ _state b' = (if release then UNBLOCKED else _state b) ∧
    _pending_reqs b' = (if release then [] else _pending_reqs b).
Proof.
  intros [N1 N2 P A] release. unfold handle_poll, poll_global_arrived. rewrite A. fold release.
  destruct release eqn:Er; subst release; simpl.
  - apply andb_true_iff in Er as [E%bool_decide_eq_true Eg]. rewrite E. simpl.
    unfold _handle_arrive_unblock_barrier, _change_state. simpl. rewrite N1.
    eexists. split; [done|]. split; [by split|done].
  - rewrite andb_false_r. simpl. rewrite N1. eexists. split; [done|].
    split; [by split|done].
Qed.

(** The new state after [handle]. *)
Definition after (s : blocker_state) (others : bool) : blocker_state :=
  if bool_decide (s = GLOBAL_UNBLOCK_BARRIER) && others then UNBLOCKED else s.

Lemma handle_ok rs others b :
  blocker_inv b →
  match control (_state b) rs with
  | None => handle (Some rs) others b = Raise AssertionError
  | Some s => ∃ out b', handle (Some rs) others b = Ok (Some out, b') ∧ blocker_inv b' ∧
      _state b' = after s others ∧ out ++ _pending_reqs b' = _pending_reqs b ++ data rs ∧
      (after s others ≠ UNBLOCKED → _state b ≠ UNBLOCKED → out = [])
  end.
Proof.
  intros I. pose proof I as [N1 _ _ _]. unfold handle, handle_recv. rewrite bool_decide_eq_false_2 by done.
  rewrite N1. simpl. pose proof (recv_loop_ok rs b I) as Hr.
  destruct (control (_state b) rs) as [s|]; [|by rewrite Hr].
  destruct Hr as (out & b1 & -> & I1 & Es & Ed & Eo). cbn [mbind pyres_bind].
  set (g := contribution _ && others).
  destruct (handle_poll_ok g out b1 I1) as (b' & -> & I' & Es' & Ep).
  assert (bool_decide (_state b1 = GLOBAL_UNBLOCK_BARRIER) && g = bool_decide (s = GLOBAL_UNBLOCK_BARRIER) && others) as Eg.
  { unfold g, contribution. destruct I1 as [_ -> _ ->]. rewrite Es. by repeat case_bool_decide; destruct others. }
  rewrite Eg in *. eexists _, b'. split; [done|]. split; [done|]. unfold after.
  rewrite Es', Ep. destruct (bool_decide (s = GLOBAL_UNBLOCK_BARRIER) && others); rewrite ?app_nil_r.
  - split; [done|]. split; [done|]. done.
  - rewrite Es. auto.
Qed.

(** A sequence of rounds: what the rank received, and what the other ranks
    contributed to the reduction. *)
Fixpoint handle_all (rounds : list (list (recv_req R) * bool)) (b : t) : pyres (list R * t) :=
  match rounds with
  | [] => mret ([], b)
  | (rs, others) :: rounds =>
      '(o, b) ← handle (Some rs) others b;
      '(os, b) ← handle_all rounds b;
      mret (default [] o ++ os, b)
  end.

Fixpoint control_all (s : blocker_state) (rounds : list (list (recv_req R) * bool)) : option blocker_state :=
  match rounds with
  | [] => Some s
  | (rs, others) :: rounds => s ← control s rs; control_all (after s others) rounds
  end.

Lemma handle_all_ok rounds b :
  blocker_inv b →
  match control_all (_state b) rounds with
  | None => handle_all rounds b = Raise AssertionError
  | Some s => ∃ out b', handle_all rounds b = Ok (out, b') ∧ blocker_inv b' ∧ _state b' = s ∧
      out ++ _pending_reqs b' = _pending_reqs b ++ data (concat rounds.*1)
  end.
Proof.
  revert b. induction rounds as [|[rs others] rounds IH]; intros b I; simpl.
  { exists [], b. by rewrite app_nil_r. }
  pose proof (handle_ok rs others b I) as Hh. destruct (control (_state b) rs) as [s|]; simpl; [|by rewrite Hh].
  destruct Hh as (out & b1 & -> & I1 & Es & Ed & _). cbn [mbind pyres_bind].
  specialize (IH b1 I1). rewrite Es in IH. destruct (control_all (after s others) rounds); [|by rewrite IH].
  destruct IH as (os & b' & -> & I' & Es' & Ed'). simpl. exists (out ++ os), b'.
  split; [done|]. split; [done|]. split; [done|].
  unfold data in *. by rewrite omap_app, app_assoc, <-Ed, <-!app_assoc, Ed'.
Qed.

End blocker.
#[global] Arguments t : clear implicits.


Example input_blocker_rounds :
  handle_all [([OtherReq 1; BlockReq; OtherReq 2], false); ([UnblockReq; OtherReq 3], false);
              ([OtherReq 4], true); ([OtherReq 5], false)] (init false)
  = Ok ([1; 2; 3; 4; 5], init false).
Proof. reflexivity. Qed.

(** *** All ranks leave the barrier in the same round *)

(** One round of the world: every rank handles its input up to the
    reduction, then all see the same result. *)
Definition world_round {R} (ranks : list (t R * list R)) : list (pyres (option (list R) * t R)) :=
  let g := forallb (fun r => contribution (_global_unblock_barrier r.1)) ranks in
  (fun r => handle_poll g r.2 r.1) <$> ranks.

Lemma polls_ok {R} g (ranks : list (t R * list R)) :
  Forall (fun r => blocker_inv r.1) ranks →
  ∃ res, (fun r => handle_poll g r.2 r.1) <$> ranks = Ok <$> res ∧ Forall (fun r => blocker_inv r.2) res ∧
    (fun r => _state r.2) <$> res = (fun r => after (_state r.1) g) <$> ranks.
Proof.
  induction 1 as [|[b o] ranks I _ (res & E & Hi & Hs)]; [by exists []|].
  destruct (handle_poll_ok g o b I) as (b' & E' & I' & Es & _).
  exists ((Some (if bool_decide (_state b = GLOBAL_UNBLOCK_BARRIER) && g then o ++ _pending_reqs b else o), b') :: res).
  csimpl. rewrite E, E', Hs, Es. split; [done|]. split; [by constructor|done].
Qed.

(** The reduction succeeds when every rank is at the barrier. *)
Lemma reduction_ok {R} (ranks : list (t R * list R)) :
  Forall (fun r => blocker_inv r.1) ranks →
  forallb (fun r => contribution (_global_unblock_barrier r.1)) ranks =
  bool_decide (Forall (fun r => _state r.1 = GLOBAL_UNBLOCK_BARRIER) ranks).
Proof.
  induction 1 as [|[b o] ranks [_ Hb _ Ha] _ IH]; [done|]. simpl. rewrite IH. unfold contribution.
  simpl in *. rewrite Hb, Ha. simpl. rewrite <-bool_decide_and. apply bool_decide_ext. by rewrite Forall_cons.
Qed.

(** the unblock barrier is global: in a round either all active ranks
    are at the barrier and all leave it together, or every rank keeps its
    state. *)
Theorem input_blocker_barrier {R} (ranks : list (t R * list R)) :
  Forall (fun r => blocker_inv r.1) ranks →
  ∃ res, world_round ranks = Ok <$> res ∧ Forall (fun r => blocker_inv r.2) res ∧
    (Forall (fun r => _state r.1 = GLOBAL_UNBLOCK_BARRIER) ranks →
       Forall (fun r => _state r.2 = UNBLOCKED) res) ∧
    (¬ Forall (fun r => _state r.1 = GLOBAL_UNBLOCK_BARRIER) ranks →
       (fun r => _state r.2) <$> res = (fun r => _state r.1) <$> ranks).
Proof.
  intros Hinv. unfold world_round. rewrite reduction_ok by done.
  destruct (polls_ok (bool_decide (Forall (fun r => _state r.1 = GLOBAL_UNBLOCK_BARRIER) ranks)) ranks Hinv)
    as (res & E & Hi & Hs). exists res. split; [done|]. split; [done|]. split; intros Hall.
  - rewrite bool_decide_eq_true_2 in Hs by done. apply (Forall_fmap (fun r => _state r.2) (fun s => s = UNBLOCKED)).
    rewrite Hs. apply Forall_fmap. eapply Forall_impl; [done|]. intros r Hr. simpl. by rewrite Hr.
  - rewrite Hs, bool_decide_eq_false_2 by done. apply fmap_ext_elem. intros r _.
    unfold after. by rewrite andb_false_r.
Qed.

Definition rank_at (s : blocker_state) (arrived : bool) : t Z := mk s [7] false (mkBarrier false arrived).

Lemma input_blocker_barrier_witness :
  ∃ res, world_round [(rank_at GLOBAL_UNBLOCK_BARRIER true, [1]); (rank_at GLOBAL_UNBLOCK_BARRIER true, [])]
    = Ok <$> res ∧ Forall (fun r => _state r.2 = UNBLOCKED) res.
Proof.
  destruct (input_blocker_barrier [(rank_at GLOBAL_UNBLOCK_BARRIER true, [1]); (rank_at GLOBAL_UNBLOCK_BARRIER true, [])])
    as (res & E & _ & H & _); [repeat constructor; discriminate|].
  exists res. split; [exact E|]. apply H. repeat constructor.
Defined.

End InputBlocker.

(** ** Skipping receives *)

Module RecvSkipper.

Record t := mk {
  _counter : Z;
  _threshold : Z;
}.

(** [scheduler_recv_interval] and [enable_dp_attention] of the server arguments. *)
Definition maybe_create (scheduler_recv_interval : Z) (enable_dp_attention : bool) : pyres (option t) :=
  if scheduler_recv_interval <=? 1 then mret None
  else py_assert (negb enable_dp_attention) ;; mret (Some (mk 0 scheduler_recv_interval)).

Inductive forward_mode := Decode | Target_verify | Other_mode.

(** Weights, 1000 by default; [None] is the absence of a last batch. *)
Definition weight (m : option forward_mode) : Z :=
  match m with
  | Some Decode | Some Target_verify | None => 1
  | Some Other_mode => 1000
  end.

Definition handle (m : option forward_mode) (s : t) : bool * t :=
  let c := _counter s + weight m in
  if _threshold s <=? c then (true, mk 0 (_threshold s)) else (false, mk c (_threshold s)).

Fixpoint handles (ms : list (option forward_mode)) (s : t) : list bool * t :=
  match ms with
  | [] => ([], s)
  | m :: ms => let '(b, s) := handle m s in let '(bs, s) := handles ms s in (b :: bs, s)
  end.

Lemma handles_skip ms s :
  0 ≤ _counter s < _threshold s → true ∉ (handles ms s).1 →
  _counter s + len ms ≤ _counter (handles ms s).2 < _threshold s.
Proof.
  revert s. induction ms as [|m ms IH]; intros s Hs Hno; simpl in *; [rewrite len_nil; lia|].
  rewrite len_cons. unfold handle in *. assert (1 ≤ weight m) by (destruct m as [[]|]; simpl; lia).
  destruct (Z.leb_spec (_threshold s) (_counter s + weight m)).
  - destruct (handles ms _) as [bs s'] eqn:E. simpl in Hno. set_solver.
  - specialize (IH (mk (_counter s + weight m) (_threshold s))). simpl in IH.
    destruct (handles ms _) as [bs s'] eqn:E. simpl in *. specialize (IH ltac:(lia) ltac:(set_solver)). lia.
Qed.

(** the skipper does not starve the receive loop: among any
    [scheduler_recv_interval] consecutive calls at least one receives. *)
Theorem recv_skipper_bounded n dp s ms :
  maybe_create n dp = Ok (Some s) → len ms = n → true ∈ (handles ms s).1.
Proof.
  unfold maybe_create. intros E Hl. destruct (Z.leb_spec n 1); [discriminate|].
  pyinv.
  destruct (decide (true ∈ (handles ms (mk 0 (len ms))).1)) as [|Hno]; [done|].
  pose proof (handles_skip ms (mk 0 (len ms)) ltac:(simpl; lia) Hno). simpl in *. lia.
Qed.

Lemma recv_skipper_bounded_witness : true ∈ (handles [None; Some Decode; None] (mk 0 3)).1.
Proof. apply (recv_skipper_bounded 3 false); reflexivity. Defined.

End RecvSkipper.
