(* ===== verification/MultiModalCache.v ===== *)
(** * Cache of encoder results ([python/sglang/srt/mem_cache/multimodal_cache.py])

    An [OrderedDict] in order of use with a byte budget.  An embedding is
    abstract; [tensor_size] is [element_size() * numel()]. *)

From S2P Require Import Prelude.

Module MultiModalCache.

Section cache.
Context {E : Type} (tensor_size : E → Z).

Record t := mk {
  max_size : Z;
  mm_cache : list (Z * E);
  current_size : Z;
}.

Definition init (max_size : Z) : t := mk max_size [] 0.

(** The loop pops the least recently used entry, the first of the dict. *)
Fixpoint allocate_loop (embedding_size max_size : Z) (d : list (Z * E)) (size : Z) : list (Z * E) * Z :=
  match d with
  | (_, old_embedding) :: d' =>
      if max_size <? size + embedding_size
      then allocate_loop embedding_size max_size d' (size - tensor_size old_embedding)
      else (d, size)
  | [] => (d, size)
  end.

Definition _allocate (embedding_size : Z) (c : t) : bool * t :=
  let '(d, size) := allocate_loop embedding_size (max_size c) (mm_cache c) (current_size c) in
  (negb (max_size c <? size + embedding_size), mk (max_size c) d size).

Definition put (mm_hash : Z) (embedding : E) (c : t) : bool * t :=
  let data_size := tensor_size embedding in
  let '(ok, c) := _allocate data_size c in
  if ok then (true, mk (max_size c) (od_set mm_hash embedding (mm_cache c)) (current_size c + data_size))
  else (false, c).

Definition has (mm_hash : Z) (c : t) : bool := bool_decide (is_Some (od_get mm_hash (mm_cache c))).

(** [move_to_end] *)
Definition get (mm_hash : Z) (c : t) : option E * t :=
  match od_get mm_hash (mm_cache c) with
  | Some e => (Some e, mk (max_size c) (od_del mm_hash (mm_cache c) ++ [(mm_hash, e)]) (current_size c))
  | None => (None, c)
  end.

Definition clear (c : t) : t := mk (max_size c) [] 0.

Definition __len__ (c : t) : Z := len (mm_cache c).

(** ** Properties *)

Definition bytes (d : list (Z * E)) : Z := zsum (tensor_size <$> d.*2).

(** The size is what the entries take, within the budget; keys are unique. *)
Record inv (c : t) : Prop := mk_inv {
  inv_size : current_size c = bytes (mm_cache c);
  inv_budget : current_size c ≤ max_size c;
  inv_keys : NoDup (mm_cache c).*1;
}.

Lemma bytes_cons k e d : bytes ((k, e) :: d) = tensor_size e + bytes d.
Proof. done. Qed.

(** What the loop keeps: a suffix, as long as the budget allows. *)
Lemma allocate_loop_ok n m d : ∀ s, s = bytes d →
  ∃ evicted kept, d = evicted ++ kept ∧ allocate_loop n m d s = (kept, bytes kept) ∧
    (kept = [] ∨ bytes kept + n ≤ m) ∧
    (∀ pre x, evicted = pre ++ [x] → m < bytes (x :: kept) + n).
Proof.
  induction d as [|[k e] d IH]; intros s ->; simpl.
  { exists [], []. split_and!; try done; [by left|]. intros pre x Hx. by destruct pre. }
  rewrite bytes_cons. destruct (Z.ltb_spec m (tensor_size e + bytes d + n)).
  - replace (tensor_size e + bytes d - tensor_size e) with (bytes d) by lia.
    destruct (IH (bytes d) eq_refl) as (ev & kept & -> & -> & Hk & Hmin).
    exists ((k, e) :: ev), kept. split_and!; try done. intros pre x Hx.
    destruct pre as [|y pre]; simplify_eq/=; [|by eapply Hmin].
    by rewrite bytes_cons.
  - exists [], ((k, e) :: d). split_and!; try done; [right; by rewrite bytes_cons|].
    intros pre x Hx. by destruct pre.
Qed.

Lemma od_set_fresh_bytes k e d :
  k ∉ d.*1 → bytes (od_set k e d) = bytes d + tensor_size e.
Proof.
  induction d as [|[k' e'] d IH]; simpl; intros Hk; [unfold bytes, zsum; simpl; lia|].
  rewrite decide_False by set_solver. rewrite !bytes_cons, IH by set_solver. lia.
Qed.

Lemma bytes_del k e d : od_get k d = Some e → bytes d = tensor_size e + bytes (od_del k d).
Proof.
  induction d as [|[k' e'] d IH]; simpl; [done|]. case_decide; intros Hk; [by simplify_eq|].
  rewrite !bytes_cons, (IH Hk). lia.
Qed.

Lemma bytes_app d d' : bytes (d ++ d') = bytes d + bytes d'.
Proof. unfold bytes. by rewrite !fmap_app, zsum_app. Qed.

Lemma bytes_nonneg : (∀ x, 0 ≤ tensor_size x) → ∀ d, 0 ≤ bytes d.
Proof. intros Hx d. induction d as [|[k e] d IH]; [done|]. rewrite bytes_cons. specialize (Hx e). lia. Qed.

Lemma od_get_moved (k : Z) (e : E) d i : NoDup d.*1 → od_get k d = Some e →
  od_get i (od_del k d ++ [(k, e)]) = od_get i d.
Proof.
  induction d as [|[k' e'] d IH]; simpl; [done|]. rewrite NoDup_cons. intros [Hk' Hnd] Hk.
  case_decide as Ek.
  - simplify_eq. clear IH. destruct (decide (i = k')) as [->|Ni].
    + apply od_get_None in Hk'. clear Hnd. induction d as [|[j x] d IH]; simpl in *; [by rewrite decide_True|].
      case_decide; [done|by apply IH].
    + clear Hk' Hnd. induction d as [|[j x] d IH]; simpl; [by rewrite decide_False|]. by case_decide.
  - simpl. case_decide; [done|by apply IH].
Qed.

Lemma get_inv k c : inv c → inv (get k c).2 ∧ bytes (mm_cache (get k c).2) = bytes (mm_cache c).
Proof.
  intros [I1 I2 I3]. unfold get. destruct (od_get k (mm_cache c)) as [e|] eqn:E1; [|by split].
  assert (bytes (od_del k (mm_cache c) ++ [(k, e)]) = bytes (mm_cache c)) as Eb.
  { rewrite bytes_app, (bytes_del k e _ E1), bytes_cons. unfold bytes, zsum. simpl. lia. }
  split; [|done]. split; simpl; [congruence|done|].
  destruct (od_del_keys k (mm_cache c) I3) as [Hnd Hk]. rewrite fmap_app. apply NoDup_app.
  split; [done|]. split; [set_solver|apply NoDup_singleton].
Qed.

End cache.
#[global] Arguments t : clear implicits.

(** The operations preserve the invariant and meet their specification:
    [put] of a new key evicts the least recently used entries (a prefix of
    the order of use), no more than needed, and stores the entry as most
    recently used, or fails when it is larger than the whole budget; [get]
    returns the stored entry and makes it the most recently used. *)
Theorem multimodal_cache_correct {E} (tensor_size : E → Z) (c : t E) k e :
  inv tensor_size c → (∀ x, 0 ≤ tensor_size x) → k ∉ (mm_cache c).*1 →
  (∃ evicted kept, mm_cache c = evicted ++ kept ∧
     (∀ pre x, evicted = pre ++ [x] → max_size c < bytes tensor_size (x :: kept) + tensor_size e) ∧
     let '(ok, c') := put tensor_size k e c in
     inv tensor_size c' ∧ ok = bool_decide (tensor_size e ≤ max_size c) ∧
     mm_cache c' = (if ok then kept ++ [(k, e)] else [])) ∧
  (∀ j x, od_get j (mm_cache c) = Some x →
     let '(r, c') := get j c in
     r = Some x ∧ inv tensor_size c' ∧ last (mm_cache c') = Some (j, x) ∧
     ∀ i, od_get i (mm_cache c') = od_get i (mm_cache c)).
Proof.
  intros I He Hk. pose proof I as [I1 I2 I3]. split.
  - destruct (allocate_loop_ok tensor_size (tensor_size e) (max_size c) (mm_cache c) (current_size c) I1)
      as (ev & kept & Ed & El & Hb & Hmin).
    exists ev, kept. split; [done|]. split; [done|]. unfold put, _allocate. rewrite El. simpl.
    assert (k ∉ kept.*1) as Hk' by (rewrite Ed, fmap_app in Hk; set_solver).
    assert (NoDup kept.*1) as Hnd by (rewrite Ed, fmap_app, NoDup_app in I3; tauto).
    assert (od_set k e kept = kept ++ [(k, e)]) as Eset.
    { clear -Hk'. induction kept as [|[k' e'] d IH]; simpl in *; [done|].
      rewrite decide_False by set_solver. rewrite IH by set_solver. done. }
    destruct (Z.ltb_spec (max_size c) (bytes tensor_size kept + tensor_size e)) as [Hlt|Hge]; simpl.
    + destruct Hb as [->|Hb]; [|lia]. change (bytes tensor_size []) with 0 in *.
      pose proof (bytes_nonneg tensor_size He (mm_cache c)).
      split; [split; simpl; [done|lia|constructor]|]. split; [|done].
      by rewrite bool_decide_eq_false_2 by lia.
    + pose proof (bytes_nonneg tensor_size He kept). rewrite Eset.
      split; [split; simpl|split; [by rewrite bool_decide_eq_true_2 by lia|done]].
      * rewrite bytes_app, bytes_cons. change (bytes tensor_size []) with 0. lia.
      * lia.
      * rewrite fmap_app, NoDup_app. split; [done|]. split; [set_solver|apply NoDup_singleton].
  - intros j x Hj. destruct (get_inv tensor_size j c I) as [I' _]. revert I'. unfold get. rewrite Hj. simpl.
    intros I'. split; [done|]. split; [done|]. split; [apply last_snoc|].
    intros i. by apply od_get_moved.
Qed.

Lemma multimodal_cache_correct_witness :
  (put id 3 6 (mk 10 [(1, 4); (2, 4)] 8)).2 = mk 10 [(2, 4); (3, 6)] 10 ∧
  inv id (put id 3 6 (mk 10 [(1, 4); (2, 4)] 8)).2.
Proof.
  split; [done|].
  destruct (multimodal_cache_correct Z.abs (mk 10 [(1, 4); (2, 4)] 8) 3 6) as [(ev & kept & _ & _ & H) _].
  - split; vm_compute; [done|done|]. apply (bool_decide_unpack (NoDup [1;2])). by vm_compute.
  - lia.
  - apply (bool_decide_unpack (3 ∉ [1; 2])). by vm_compute.
  - destruct H as [[I1 I2 I3] _]. by split.
Defined.

(** [put] of a key that is already stored adds its size again without
    subtracting the replaced entry's: the accounted size drifts above the
    bytes stored and later entries are evicted early. *)
Theorem multimodal_put_twice_drifts {E} (tensor_size : E → Z) (n : Z) k e :
  0 < tensor_size e → 2 * tensor_size e ≤ n →
  let c := (put tensor_size k e (put tensor_size k e (init n)).2).2 in
  current_size c = 2 * tensor_size e ∧ bytes tensor_size (mm_cache c) = tensor_size e.
Proof.
  intros He Hn. unfold put, _allocate, init. simpl.
  destruct (Z.ltb_spec n (0 + tensor_size e)); [lia|]. simpl.
  destruct (Z.ltb_spec n (0 + tensor_size e + tensor_size e)); [lia|]. simpl.
  destruct (Z.ltb_spec n (0 + tensor_size e + tensor_size e)); [lia|]. simpl.
  rewrite decide_True by done. rewrite bytes_cons. change (bytes tensor_size []) with 0. lia.
Qed.

End MultiModalCache.
