(* ===== verification/PyString.v ===== *)
(** * Python strings

    A [str] is its sequence of code points.  The string methods the parsers
    use: [in], [find], [split] with [maxsplit=1], [replace] by the empty
    string, [startswith], [strip] and its halves, [lower]. *)

From S2P Require Import Prelude.

Definition str := list Z.

(** [s.find(sub)], without the [-1]. *)
Fixpoint py_find (sub s : str) : option nat :=
  if decide (sub `prefix_of` s) then Some 0%nat
  else match s with
       | [] => None
       | _ :: s => S <$> py_find sub s
       end.

(** [sub in s] *)
Definition py_in (sub s : str) : bool := bool_decide (is_Some (py_find sub s)).

(** [s.startswith(p)] *)
Definition startswith (s p : str) : bool := bool_decide (p `prefix_of` s).

(** [s.endswith(p)] *)
Definition endswith (s p : str) : bool := bool_decide (p `suffix_of` s).

(** [s.split(sep, maxsplit=1)], for a separator that occurs. *)
Definition py_split1 (sep s : str) : pyres (str * str) :=
  if decide (sep = []) then Raise ValueError else
  match py_find sep s with
  | Some i => Ok (take i s, drop (i + length sep) s)
  | None => Raise IndexError
  end.

(** [s.replace(sub, "")]: the occurrences from left to right. *)
Fixpoint remove_fuel (fuel : nat) (sub s : str) : str :=
  match fuel, py_find sub s with
  | S fuel, Some i => take i s ++ remove_fuel fuel sub (drop (i + length sub) s)
  | _, _ => s
  end.
Definition py_remove (sub s : str) : str := remove_fuel (length s) sub s.

(** [str.isspace] of one character. *)
Definition is_space (c : Z) : bool :=
  ((9 <=? c) && (c <=? 13)) || ((28 <=? c) && (c <=? 32)) || (c =? 133) || (c =? 160) || (c =? 5760)
  || ((8192 <=? c) && (c <=? 8202)) || (c =? 8232) || (c =? 8233) || (c =? 8239) || (c =? 8287) || (c =? 12288).

Fixpoint lstrip (s : str) : str :=
  match s with
  | c :: s' => if is_space c then lstrip s' else s
  | [] => []
  end.
Definition rstrip (s : str) : str := reverse (lstrip (reverse s)).
Definition strip (s : str) : str := rstrip (lstrip s).

(** [s.lower()], up to characters whose lower case is not ASCII: the parsers
    compare the result with ASCII words only.  U+212A and U+0130 are the
    characters outside ASCII whose lower case has an ASCII character. *)
Definition lower_char (c : Z) : str :=
  if (65 <=? c) && (c <=? 90) then [c + 32]
  else if c =? 8490 then [107]
  else if c =? 304 then [105; 775]
  else [c].
Definition py_lower (s : str) : str := s ≫= lower_char.

(** The code points of an ASCII literal. *)
Fixpoint lit (s : string) : str :=
  match s with
  | EmptyString => []
  | String.String c s => Z.of_N (Ascii.N_of_ascii c) :: lit s
  end.

(** ** Finding *)

Lemma py_find_spec sub s i :
  py_find sub s = Some i ↔ (i ≤ length s)%nat ∧ sub `prefix_of` drop i s ∧ ∀ j, (j < i)%nat → ¬ sub `prefix_of` drop j s.
Proof.
  revert i. induction s as [|c s IH]; intros i; simpl.
  - destruct (decide (sub `prefix_of` [])) as [Hp|Hp].
    + split; [intros [= <-]; split_and!; [lia|done|lia]|]. intros (Hi & _). f_equal. lia.
    + split; [done|]. intros (Hi & Hd & _). replace i with 0%nat in Hd by lia. done.
  - destruct (decide (sub `prefix_of` c :: s)) as [Hp|Hp].
    + split; [intros [= <-]; split_and!; [lia|done|lia]|]. intros (_ & _ & Hn).
      destruct i as [|i]; [done|]. destruct (Hn 0%nat ltac:(lia)). done.
    + rewrite fmap_Some. split.
      * intros (k & (H1 & H2 & H3)%IH & ->). split; [lia|]. split; [done|].
        intros [|j] Hj; [done|]. simpl. apply H3. lia.
      * intros (H1 & H2 & H3). destruct i as [|i]; [done|]. exists i. split; [|done]. apply IH.
        split; [lia|]. split; [done|]. intros j Hj. apply (H3 (S j)). lia.
Qed.

Lemma py_find_None sub s : py_find sub s = None ↔ ∀ a b, s ≠ a ++ sub ++ b.
Proof.
  induction s as [|c s IH]; simpl.
  - destruct (decide (sub `prefix_of` [])) as [Hp|Hp]; (split; [|try done]); [done| |].
    + intros Hn. apply prefix_nil_inv in Hp as ->. by destruct (Hn [] []).
    + intros _ a b E. destruct a; [|done]. apply Hp. exists b. done.
  - destruct (decide (sub `prefix_of` c :: s)) as [[b Hp]|Hp].
    + split; [done|]. intros Hn. by destruct (Hn [] b).
    + rewrite fmap_None, IH. split; [|intros Hn a b ->; by apply (Hn (c :: a) b)].
      intros Hn [|x a] b E; simplify_eq/=; [|by apply (Hn a b)]. apply Hp. exists b. done.
Qed.

Lemma py_find_split sub s i : py_find sub s = Some i → s = take i s ++ sub ++ drop (i + length sub) s.
Proof.
  intros (_ & [b Hb] & _)%py_find_spec. rewrite <-drop_drop, Hb, drop_app_length, <-Hb.
  symmetry. apply take_drop.
Qed.

Lemma py_find_bound sub s i : py_find sub s = Some i → (i + length sub ≤ length s)%nat.
Proof. intros (H1 & H2%prefix_length & _)%py_find_spec. rewrite length_drop in H2. lia. Qed.

Lemma py_find_nil sub : sub ≠ [] → py_find sub [] = None.
Proof. intros Hs. simpl. rewrite decide_False; [done|]. by intros ?%prefix_nil_inv. Qed.

Lemma py_find_refl s : py_find s s = Some 0%nat.
Proof. apply py_find_spec. split; [lia|]. split; [done|lia]. Qed.

Lemma py_find_app sub a b i : py_find sub a = Some i → py_find sub (a ++ b) = Some i.
Proof.
  rewrite !py_find_spec. intros (H1 & H2 & H3). rewrite length_app. split; [lia|].
  assert (length sub ≤ length a - i)%nat as Hl by (apply prefix_length in H2; by rewrite length_drop in H2).
  rewrite drop_app_le by lia. split; [by apply prefix_app_r|]. intros j Hj [k Hk]. apply (H3 j Hj).
  rewrite drop_app_le in Hk by lia. exists (drop (length sub) (drop j a)).
  apply (f_equal (take (length sub))) in Hk. rewrite take_app_length, take_app_le in Hk by (rewrite length_drop; lia).
  rewrite <-Hk at 1. symmetry. apply take_drop.
Qed.

Lemma py_in_spec sub s : py_in sub s = true ↔ ∃ a b, s = a ++ sub ++ b.
Proof.
  unfold py_in. rewrite bool_decide_eq_true. destruct (py_find sub s) as [i|] eqn:E.
  - split; [|done]. intros _. eauto using py_find_split.
  - pose proof (proj1 (py_find_None sub s) E) as Hn. split; [by intros []|]. intros (a & b & ->). by destruct (Hn a b).
Qed.

Lemma py_in_false sub s : py_in sub s = false ↔ py_find sub s = None.
Proof. unfold py_in. destruct (py_find sub s); split; intros; naive_solver. Qed.

(** A part of a text has no tag the text does not have. *)
Lemma py_in_part sub a s b : py_in sub (a ++ s ++ b) = false → py_in sub s = false.
Proof.
  intros Hn. apply not_true_is_false. intros (x & y & ->)%py_in_spec. apply not_true_iff_false in Hn. apply Hn.
  apply py_in_spec. exists (a ++ x), (y ++ b). by rewrite <-!app_assoc.
Qed.

Lemma py_remove_absent sub s : py_in sub s = false → py_remove sub s = s.
Proof. intros E%py_in_false. unfold py_remove. destruct s; [done|]. simpl length. cbn [remove_fuel]. by rewrite E. Qed.

(** ** Stripping *)

Abbreviation spaces w := (forallb is_space w = true).

Lemma lstrip_split s : ∃ w, s = w ++ lstrip s ∧ spaces w.
Proof.
  induction s as [|c s (w & E & Hw)]; [by exists []|]. simpl. destruct (is_space c) eqn:Hc.
  - exists (c :: w). simpl. by rewrite Hc, Hw, <-E.
  - by exists [].
Qed.

Lemma lstrip_spaces w s : spaces w → lstrip (w ++ s) = lstrip s.
Proof. induction w as [|c w IH]; simpl; [done|]. by intros [-> ?%IH]%andb_prop. Qed.

Lemma lstrip_idem s : lstrip (lstrip s) = lstrip s.
Proof. induction s as [|c s IH]; [done|]. simpl. destruct (is_space c) eqn:Hc; [done|]. simpl. by rewrite Hc. Qed.

Lemma lstrip_head s : lstrip s = s → s = [] ∨ ∃ c t, s = c :: t ∧ is_space c = false.
Proof.
  destruct s as [|c s]; [by left|]. simpl. destruct (is_space c) eqn:Hc; [|right; eauto]. intros E.
  destruct (lstrip_split s) as (w & Es & _). apply (f_equal length) in Es, E. rewrite length_app in Es. simpl in E. lia.
Qed.

Lemma lstrip_snoc l c : is_space c = false → ∃ l', lstrip (l ++ [c]) = l' ++ [c].
Proof.
  intros Hc. induction l as [|x l IH]; simpl; [rewrite Hc; by exists []|]. destruct (is_space x); [done|]. by exists (x :: l).
Qed.

Lemma spaces_reverse w : spaces w → spaces (reverse w).
Proof.
  rewrite !forallb_forall. intros Hw x Hx. apply Hw. by apply list_elem_of_In, elem_of_reverse, list_elem_of_In.
Qed.

Lemma rstrip_spaces s w : spaces w → rstrip (s ++ w) = rstrip s.
Proof. intros Hw%spaces_reverse. unfold rstrip. by rewrite reverse_app, lstrip_spaces. Qed.

Lemma rstrip_split s : ∃ w, s = rstrip s ++ w ∧ spaces w.
Proof.
  destruct (lstrip_split (reverse s)) as (w & E & Hw%spaces_reverse). exists (reverse w). split; [|done].
  apply (f_equal reverse) in E. by rewrite reverse_involutive, reverse_app in E.
Qed.

Lemma rstrip_idem s : rstrip (rstrip s) = rstrip s.
Proof. unfold rstrip. by rewrite reverse_involutive, lstrip_idem. Qed.

Lemma rstrip_trimmed s : lstrip s = s → lstrip (rstrip s) = rstrip s.
Proof.
  intros [->|(c & t & -> & Hc)]%lstrip_head; [done|]. unfold rstrip. rewrite reverse_cons.
  destruct (lstrip_snoc (reverse t) c Hc) as [l ->]. rewrite reverse_snoc. simpl. by rewrite Hc.
Qed.

Lemma rstrip_last s : rstrip s = s → s = [] ∨ ∃ u d, s = u ++ [d] ∧ is_space d = false.
Proof.
  intros E. apply (f_equal reverse) in E. unfold rstrip in E. rewrite reverse_involutive in E.
  destruct (lstrip_head _ E) as [En|(d & t & Et & Hd)].
  - left. apply (f_equal reverse) in En. by rewrite reverse_involutive in En.
  - right. exists (reverse t), d. split; [|done]. apply (f_equal reverse) in Et. by rewrite reverse_involutive, reverse_cons in Et.
Qed.

Lemma rstrip_snoc s d : is_space d = false → rstrip (s ++ [d]) = s ++ [d].
Proof. intros Hd. unfold rstrip. rewrite reverse_snoc. simpl. rewrite Hd. by rewrite reverse_cons, reverse_involutive. Qed.

(** A trimmed end stays. *)
Lemma rstrip_app_last a s : s ≠ [] → rstrip s = s → rstrip (a ++ s) = a ++ s.
Proof. intros Hs [->|(u & d & -> & Hd)]%rstrip_last; [done|]. by rewrite app_assoc, rstrip_snoc. Qed.

(** No white space at either end. *)
Definition trimmed (s : str) : Prop := lstrip s = s ∧ rstrip s = s.

Lemma strip_split s : ∃ w1 w2, s = w1 ++ strip s ++ w2 ∧ spaces w1 ∧ spaces w2 ∧ trimmed (strip s).
Proof.
  destruct (lstrip_split s) as (w1 & E1 & H1). destruct (rstrip_split (lstrip s)) as (w2 & E2 & H2).
  exists w1, w2. unfold strip. rewrite <-E2, <-E1. split_and!; try done. split; [|apply rstrip_idem].
  apply rstrip_trimmed, lstrip_idem.
Qed.

Lemma strip_unique w1 t w2 : spaces w1 → spaces w2 → trimmed t → strip (w1 ++ t ++ w2) = t.
Proof.
  intros H1 H2 [Hl Hr]. unfold strip. rewrite lstrip_spaces by done. destruct (lstrip_head t Hl) as [->|(c & u & -> & Hc)].
  - simpl. rewrite <-(app_nil_r w2), lstrip_spaces by done. done.
  - simpl. rewrite Hc. change (c :: u ++ w2) with ((c :: u) ++ w2). by rewrite rstrip_spaces.
Qed.

(** Stripping one side first makes no difference. *)
Lemma strip_lstrip s : strip (lstrip s) = strip s.
Proof. unfold strip. by rewrite lstrip_idem. Qed.

Lemma strip_rstrip s : strip (rstrip s) = strip s.
Proof.
  destruct (strip_split s) as (w1 & w2 & E & H1 & H2 & Ht). rewrite E at 1. rewrite app_assoc, rstrip_spaces by done.
  destruct (decide (strip s = [])) as [En|En].
  - rewrite En, app_nil_r. change w1 with ([] ++ w1). by rewrite rstrip_spaces.
  - rewrite rstrip_app_last by (done || apply Ht). rewrite <-(app_nil_r (strip s)) at 1. by apply strip_unique.
Qed.

(** A text with a trimmed tag in it is stripped on the two sides of the tag. *)
Lemma strip_around a t b : t ≠ [] → trimmed t → strip (a ++ t ++ b) = lstrip a ++ t ++ rstrip b.
Proof.
  intros Ht [Hl Hr]. destruct (lstrip_head t Hl) as [->|(c & u & -> & Hc)]; [done|]. unfold strip.
  assert (lstrip (a ++ (c :: u) ++ b) = lstrip a ++ (c :: u) ++ b) as ->.
  { destruct (lstrip_split a) as (w & Ea & Hw). rewrite Ea at 1. rewrite <-app_assoc, lstrip_spaces by done.
    destruct (lstrip_head (lstrip a) (lstrip_idem a)) as [->|(x & y & -> & Hx)]; simpl; by rewrite ?Hc, ?Hx. }
  destruct (rstrip_split b) as (w & Eb & Hw). rewrite Eb at 1. rewrite !app_assoc, rstrip_spaces by done.
  destruct (decide (rstrip b = [])) as [->|En].
  - rewrite !app_nil_r. by apply rstrip_app_last.
  - apply rstrip_app_last; [done|apply rstrip_idem].
Qed.
