(* ===== verification/Reasoning.v ===== *)
(** * Reasoning parser

    Models [srt/reasoning_parser.py]: the detectors that split a model's
    output into reasoning and answer, in one pass and chunk by chunk, and the
    parser that chooses a detector by model type.  The detector of GPT-OSS
    delegates to the Harmony parser and is represented by its configuration
    only. *)

From S2P Require Import Prelude PyString.

(** [StreamingParseResult] *)
Record StreamingParseResult := mkParse { normal_text : str; reasoning_text : str }.

(** Two results in a row, as the client concatenates them. *)
Definition parse_app (a b : StreamingParseResult) : StreamingParseResult :=
  mkParse (normal_text a ++ normal_text b) (reasoning_text a ++ reasoning_text b).

(** ** [BaseReasoningFormatDetector] *)

Module Detector.

Record t := mk {
  think_start_token : str;
  think_end_token : str;
  _in_reasoning : bool;
  stream_reasoning : bool;
  _buffer : str;
  stripped_think_start : bool;
}.

Definition init (think_start_token think_end_token : str) (force_reasoning stream_reasoning : bool) : t :=
  mk think_start_token think_end_token force_reasoning stream_reasoning [] false.

Definition with_buffer (b : str) (d : t) : t :=
  mk (think_start_token d) (think_end_token d) (_in_reasoning d) (stream_reasoning d) b (stripped_think_start d).
Definition with_in_reasoning (b : bool) (d : t) : t :=
  mk (think_start_token d) (think_end_token d) b (stream_reasoning d) (_buffer d) (stripped_think_start d).
Definition with_stripped (b : bool) (d : t) : t :=
  mk (think_start_token d) (think_end_token d) (_in_reasoning d) (stream_reasoning d) (_buffer d) b.

Definition detect_and_parse (text : str) (d : t) : pyres StreamingParseResult :=
  let in_reasoning := _in_reasoning d || py_in (think_start_token d) text in
  if negb in_reasoning then mret (mkParse text []) else
  let processed_text := strip (py_remove (think_start_token d) text) in
  if negb (py_in (think_end_token d) processed_text) then mret (mkParse [] processed_text) else
  '(reasoning, normal) ← py_split1 (think_end_token d) processed_text;
  mret (mkParse (strip normal) reasoning).

(** [token.startswith(current_text) and token != current_text] *)
Definition partial_of (token current_text : str) : bool :=
  startswith token current_text && negb (bool_decide (token = current_text)).

Definition parse_streaming_increment (new_text : str) (d : t) : StreamingParseResult * t :=
  let d := with_buffer (_buffer d ++ new_text) d in
  let current_text := _buffer d in
  if existsb (fun token => partial_of token current_text) [think_start_token d; think_end_token d]
  then (mkParse [] [], d) else
  let '(current_text, d) :=
    if negb (stripped_think_start d) && py_in (think_start_token d) current_text
    then (py_remove (think_start_token d) current_text, with_in_reasoning true (with_stripped true d))
    else (current_text, d) in
  match (if _in_reasoning d then py_find (think_end_token d) current_text else None) with
  | Some end_idx =>
      let d := with_in_reasoning false (with_buffer [] d) in
      (mkParse (drop (end_idx + length (think_end_token d)) current_text) (rstrip (take end_idx current_text)), d)
  | None =>
      if _in_reasoning d then
        if stream_reasoning d then (mkParse [] current_text, with_buffer [] d) else (mkParse [] [], d)
      else (mkParse current_text [], with_buffer [] d)
  end.

(** A stream: the chunks in order, the results concatenated. *)
Fixpoint stream (chunks : list str) (d : t) : StreamingParseResult * t :=
  match chunks with
  | [] => (mkParse [] [], d)
  | chunk :: chunks =>
      let '(r, d) := parse_streaming_increment chunk d in
      let '(rs, d) := stream chunks d in
      (parse_app r rs, d)
  end.

End Detector.

(** ** The detectors *)

Inductive DetectorClass := DeepSeekR1Detector | Qwen3Detector | KimiDetector | GptOssDetector.

Definition THINK : str := lit "<think>".
Definition END_THINK : str := lit "</think>".
Definition KIMI_THINK : str := 9665 :: lit "think" ++ [9655].
Definition KIMI_END_THINK : str := 9665 :: lit "/think" ++ [9655].

(** The constructors; an absent [force_reasoning] takes the class's default. *)
Definition construct (c : DetectorClass) (stream_reasoning : bool) (force_reasoning : option bool) : Detector.t :=
  match c with
  | DeepSeekR1Detector => Detector.init THINK END_THINK true stream_reasoning
  | Qwen3Detector => Detector.init THINK END_THINK (default false force_reasoning) stream_reasoning
  | KimiDetector => Detector.init KIMI_THINK KIMI_END_THINK false stream_reasoning
  | GptOssDetector =>
      Detector.init (lit "<|channel|>analysis<|message|>") (lit "<|end|>") (default true force_reasoning) stream_reasoning
  end.

(** [ReasoningParser.DetectorMap] *)
Definition DetectorMap : list (str * DetectorClass) :=
  [(lit "deepseek-r1", DeepSeekR1Detector); (lit "deepseek-v3", Qwen3Detector); (lit "glm45", Qwen3Detector);
   (lit "gpt-oss", GptOssDetector); (lit "kimi", KimiDetector); (lit "qwen3", Qwen3Detector);
   (lit "qwen3-thinking", Qwen3Detector); (lit "step3", DeepSeekR1Detector)].

(** [ReasoningParser.__init__] *)
Definition ReasoningParser_init (model_type : option str) (stream_reasoning : bool) (force_reasoning : option bool)
    : pyres (DetectorClass * Detector.t) :=
  match model_type with
  | None | Some [] => Raise ValueError
  | Some model_type =>
      match od_get (py_lower model_type) DetectorMap with
      | None => Raise ValueError
      | Some c =>
          let force_reasoning :=
            if bool_decide (py_lower model_type ∈ [lit "qwen3-thinking"; lit "gpt-oss"]) then Some true
            else force_reasoning in
          mret (c, construct c stream_reasoning force_reasoning)
      end
  end.

(** [parse_non_stream] and [parse_stream_chunk], for the detectors with tags. *)
Definition parse_non_stream (full_text : str) (d : Detector.t) : pyres (str * str) :=
  ret ← Detector.detect_and_parse full_text d;
  mret (reasoning_text ret, normal_text ret).

Definition parse_stream_chunk (chunk_text : str) (d : Detector.t) : (str * str) * Detector.t :=
  let '(ret, d) := Detector.parse_streaming_increment chunk_text d in
  ((reasoning_text ret, normal_text ret), d).

(** ** Streaming and one-pass parsing agree *)

Section agree.
Import Detector.
Context (d0 : Detector.t).
Abbreviation start_tag := (think_start_token d0).
Abbreviation end_tag := (think_end_token d0).

(** The detector [d0] at another point of the stream, its start tag not seen. *)
Definition at_state (reasoning : bool) (buffer : str) : Detector.t :=
  mk start_tag end_tag reasoning (stream_reasoning d0) buffer false.

(** What the parser still holds back: nothing, or the beginning of a tag. *)
Definition held (buffer : str) : bool := existsb (fun token => partial_of token buffer) [start_tag; end_tag].

Lemma partial_of_spec token s : partial_of token s = true ↔ ∃ k, token = s ++ k ∧ k ≠ [].
Proof.
  unfold partial_of, startswith. rewrite andb_true_iff, negb_true_iff, bool_decide_eq_true, bool_decide_eq_false. split.
  - intros [[k ->] Hn]. exists k. split; [done|]. intros ->. by rewrite app_nil_r in Hn.
  - intros (k & -> & Hk). split; [by exists k|]. intros E. apply Hk. apply (app_inv_head s). by rewrite app_nil_r.
Qed.

Lemma held_nil : start_tag ≠ [] → held [] = true.
Proof.
  intros Hs. unfold held. simpl. assert (partial_of start_tag [] = true) as ->; [|done].
  apply partial_of_spec. by exists start_tag.
Qed.

Lemma step_normal c buffer : py_in start_tag (buffer ++ c) = false →
  parse_streaming_increment c (at_state false buffer) =
    if held (buffer ++ c) then (mkParse [] [], at_state false (buffer ++ c))
    else (mkParse (buffer ++ c) [], at_state false []).
Proof. intros E. unfold parse_streaming_increment, held, at_state, with_buffer. simpl. rewrite E. simpl. done. Qed.

Lemma stream_normal chunks : ∀ buffer,
  start_tag ≠ [] → held buffer = true → py_in start_tag (buffer ++ concat chunks) = false →
  ∃ n buffer', stream chunks (at_state false buffer) = (mkParse n [], at_state false buffer') ∧
    held buffer' = true ∧ n ++ buffer' = buffer ++ concat chunks.
Proof.
  induction chunks as [|c chunks IH]; intros buffer Hs Hh Hn.
  - exists [], buffer. by rewrite app_nil_r.
  - simpl in Hn. rewrite app_assoc in Hn. cbn [stream].
    rewrite step_normal by (by apply (py_in_part _ [] _ (concat chunks))).
    destruct (held (buffer ++ c)) eqn:Eh.
    + destruct (IH (buffer ++ c) Hs Eh Hn) as (n & b' & E & Hb & En). rewrite E. exists n, b'.
      split; [done|]. split; [done|]. rewrite En. simpl. by rewrite app_assoc.
    + destruct (IH [] Hs (held_nil Hs)) as (n & b' & E & Hb & En).
      { simpl. apply (py_in_part _ (buffer ++ c) _ []). by rewrite app_nil_r. }
      rewrite E. exists ((buffer ++ c) ++ n), b'. split; [done|]. split; [done|].
      rewrite <-app_assoc, En. simpl. by rewrite <-app_assoc.
Qed.

(** A text with the end tag in it is never held back. *)
Lemma end_not_held s i : py_find end_tag start_tag = None → py_find end_tag s = Some i → held s = false.
Proof.
  intros Hse Hf. pose proof (py_find_split _ _ _ Hf) as Es. apply not_true_is_false.
  unfold held. simpl. rewrite !orb_true_iff. intros [E|[E|E]]; [| |done].
  - apply partial_of_spec in E as (k & E & _). apply (proj1 (py_find_None _ _) Hse (take i s) (drop (i + length end_tag) s ++ k)).
    rewrite E. rewrite Es at 1. by rewrite <-!app_assoc.
  - apply partial_of_spec in E as (k & E & Hk). apply (f_equal length) in E, Es. rewrite !length_app in *.
    destruct k; [done|]. simpl in *. lia.
Qed.

Lemma step_reasoning c buffer :
  stream_reasoning d0 = false → py_find end_tag start_tag = None → py_in start_tag (buffer ++ c) = false →
  parse_streaming_increment c (at_state true buffer) =
    match py_find end_tag (buffer ++ c) with
    | Some i => (mkParse (drop (i + length end_tag) (buffer ++ c)) (rstrip (take i (buffer ++ c))), at_state false [])
    | None => (mkParse [] [], at_state true (buffer ++ c))
    end.
Proof.
  intros Hm Hse E. unfold parse_streaming_increment, at_state, with_buffer. simpl.
  change (partial_of start_tag (buffer ++ c) || (partial_of end_tag (buffer ++ c) || false)) with (held (buffer ++ c)).
  rewrite E. simpl. destruct (py_find end_tag (buffer ++ c)) as [i|] eqn:Ef.
  - by rewrite (end_not_held _ i).
  - rewrite Hm. by destruct (held (buffer ++ c)).
Qed.

Lemma stream_reasoning_ok chunks : ∀ buffer,
  stream_reasoning d0 = false → start_tag ≠ [] → py_find end_tag start_tag = None →
  let text := buffer ++ concat chunks in
  py_in start_tag text = false → py_find end_tag buffer = None →
  match py_find end_tag text with
  | None => stream chunks (at_state true buffer) = (mkParse [] [], at_state true text)
  | Some i => ∃ n buffer', stream chunks (at_state true buffer) = (mkParse n (rstrip (take i text)), at_state false buffer') ∧
      held buffer' = true ∧ n ++ buffer' = drop (i + length end_tag) text
  end.
Proof.
  induction chunks as [|c chunks IH]; intros buffer Hm Hs Hse text Hn Hb; unfold text in *; clear text.
  - simpl. rewrite app_nil_r. by rewrite Hb.
  - simpl in Hn |- *. rewrite app_assoc in Hn |- *.
    rewrite step_reasoning by (done || by apply (py_in_part _ [] _ (concat chunks))).
    destruct (py_find end_tag (buffer ++ c)) as [i|] eqn:Ef.
    + rewrite (py_find_app _ _ _ _ Ef).
      pose proof (py_find_bound _ _ _ Ef) as Hl.
      destruct (stream_normal chunks [] Hs (held_nil Hs)) as (n & b' & E & Hh & En).
      { simpl. apply (py_in_part _ (buffer ++ c) _ []). by rewrite app_nil_r. }
      rewrite E. eexists _, b'. split; [unfold parse_app; simpl; rewrite app_nil_r, (take_app_le (buffer ++ c)) by lia; reflexivity|].
      split; [done|]. rewrite <-app_assoc, En. simpl. by rewrite (drop_app_le (buffer ++ c)) by lia.
    + specialize (IH (buffer ++ c) Hm Hs Hse Hn Ef). destruct (py_find end_tag ((buffer ++ c) ++ concat chunks)).
      * destruct IH as (n' & b' & E & Hh & En). rewrite E. by exists n', b'.
      * by rewrite IH.
Qed.

(** Stripping does not move the first end tag. *)
Lemma find_strip text i :
  end_tag ≠ [] → trimmed end_tag → py_find end_tag text = Some i →
  strip text = lstrip (take i text) ++ end_tag ++ rstrip (drop (i + length end_tag) text) ∧
  py_find end_tag (strip text) = Some (length (lstrip (take i text))).
Proof.
  intros He Ht Hf. pose proof (py_find_split _ _ _ Hf) as Es.
  assert (strip text = lstrip (take i text) ++ end_tag ++ rstrip (drop (i + length end_tag) text)) as Estr.
  { rewrite Es at 1. by apply strip_around. }
  split; [done|]. apply py_find_spec. rewrite Estr. split; [rewrite length_app; lia|].
  split; [rewrite drop_app_length; by apply prefix_app_r|]. intros j Hj [k Hk].
  destruct (lstrip_split (take i text)) as (w & Ew & _). apply py_find_spec in Hf as (Hi & _ & Hmin).
  apply (Hmin (length w + j)%nat).
  { apply (f_equal length) in Ew. rewrite length_app, length_take in Ew. lia. }
  destruct (rstrip_split (drop (i + length end_tag) text)) as (v & Ev & _). exists (k ++ v).
  assert (drop (length w) text = (lstrip (take i text) ++ end_tag ++ rstrip (drop (i + length end_tag) text)) ++ v) as Ed.
  { rewrite Es at 1. rewrite Ew at 1. rewrite <-(app_assoc w), drop_app_length, <-!app_assoc. by rewrite <-Ev. }
  rewrite app_assoc, <-Hk, <-drop_drop, Ed, drop_app_le; [done|]. rewrite length_app. lia.
Qed.

Lemma detect_and_parse_ok text :
  _in_reasoning d0 = true → end_tag ≠ [] → trimmed end_tag → py_in start_tag text = false →
  detect_and_parse text d0 = Ok
    match py_find end_tag text with
    | None => mkParse [] (strip text)
    | Some i => mkParse (strip (drop (i + length end_tag) text)) (lstrip (take i text))
    end.
Proof.
  intros Hr He Ht Hs. unfold detect_and_parse. rewrite Hr. simpl. rewrite py_remove_absent by done.
  destruct (py_find end_tag text) as [i|] eqn:Ef.
  - destruct (find_strip text i He Ht Ef) as [Es Hf]. unfold py_in, py_split1. rewrite Hf, decide_False by done. simpl.
    rewrite Es, take_app_length, drop_app, drop_ge by lia. simpl.
    replace (length _ + length end_tag - length _)%nat with (length end_tag) by lia.
    rewrite drop_app_length, strip_rstrip. done.
  - assert (py_in end_tag (strip text) = false) as ->; [|done].
    destruct (strip_split text) as (w1 & w2 & E & _). apply (py_in_part _ w1 _ w2). rewrite <-E. by apply py_in_false.
Qed.

End agree.

(** C34: chunking does not matter, for a fresh detector that starts inside
    the reasoning with [stream_reasoning=False], whose tags are not empty,
    whose end tag has no surrounding white space and does not occur in the
    start tag, and for a text in which the start tag does not occur (with a
    start tag the stream keeps what [detect_and_parse] removes, see
    [reasoning_start_tag_kept]). Parsing any sequence of chunks then agrees
    with parsing their concatenation at once. If the text has an end tag,
    the reasoning is the text before the first one and the answer the text
    after it, up to surrounding white space, even if a chunk boundary splits
    the tag; of the answer only the beginning of a tag may not be delivered
    yet. If it has none, the stream has delivered nothing and holds the
    whole text, which [detect_and_parse] returns as reasoning. *)
Theorem reasoning_stream_agrees (d : Detector.t) (chunks : list str) :
  let text := concat chunks in
  let start_tag := Detector.think_start_token d in
  let end_tag := Detector.think_end_token d in
  start_tag ≠ [] → end_tag ≠ [] → trimmed end_tag → py_in end_tag start_tag = false →
  Detector._in_reasoning d = true → Detector.stream_reasoning d = false →
  Detector._buffer d = [] → Detector.stripped_think_start d = false → py_in start_tag text = false →
  ∃ n r d' one, Detector.stream chunks d = (mkParse n r, d') ∧ Detector.detect_and_parse text d = Ok one ∧
    Detector._in_reasoning d' = negb (py_in end_tag text) ∧
    if py_in end_tag text
    then strip r = strip (reasoning_text one) ∧ strip (n ++ Detector._buffer d') = normal_text one ∧
         held d (Detector._buffer d') = true
    else n = [] ∧ r = [] ∧ Detector._buffer d' = text ∧ reasoning_text one = strip text ∧ normal_text one = [].
Proof.
  intros text start_tag end_tag Hs He Ht Hse%py_in_false Hr Hm Hb Hst Hn.
  assert (d = at_state d true []) as Ed by (destruct d; simpl in *; subst; done).
  pose proof (stream_reasoning_ok d chunks [] Hm Hs Hse Hn) as Hstream. rewrite <-Ed in Hstream.
  rewrite (detect_and_parse_ok d text Hr He Ht Hn). simpl app in Hstream. fold text end_tag in Hstream |- *.
  destruct (py_find end_tag text) as [i|] eqn:Ef.
  - assert (py_in end_tag text = true) as -> by (unfold py_in; by rewrite Ef).
    destruct (Hstream (py_find_nil _ He)) as (n & b & E & Hh & En).
    eexists n, _, _, _. split; [exact E|]. split; [done|]. simpl. rewrite strip_rstrip, strip_lstrip, En. done.
  - assert (py_in end_tag text = false) as -> by (unfold py_in; by rewrite Ef).
    eexists [], [], _, _. split; [exact (Hstream (py_find_nil _ He))|done].
Qed.

Lemma reasoning_stream_agrees_witness :
  ∃ n r d' one,
    Detector.stream [lit "ab </thi"; lit "nk>"; lit "cd"; lit "</"] (construct DeepSeekR1Detector false None) = (mkParse n r, d') ∧
    Detector.detect_and_parse (lit "ab </think>cd</") (construct DeepSeekR1Detector false None) = Ok one ∧
    strip r = strip (reasoning_text one) ∧ strip (n ++ Detector._buffer d') = normal_text one.
Proof.
  destruct (reasoning_stream_agrees (construct DeepSeekR1Detector false None) [lit "ab </thi"; lit "nk>"; lit "cd"; lit "</"])
    as (n & r & d' & one & E & E1 & _ & H); [discriminate|discriminate|split; reflexivity|reflexivity..|].
  exists n, r, d', one. split; [exact E|]. split; [exact E1|]. destruct H as (H1 & H2 & _). split; [exact H1|exact H2].
Defined.

(** ** Tags that arrive as tokens of their own *)

Section tokens.
Import Detector.
Context (d0 : Detector.t).
Abbreviation start_tag := (think_start_token d0).
Abbreviation end_tag := (think_end_token d0).
Context (Hs : start_tag ≠ []) (He : end_tag ≠ []) (Hmode : stream_reasoning d0 = true).

(** The detector [d0] at another point of the stream. *)
Definition point (reasoning : bool) (buffer : str) (stripped : bool) : Detector.t :=
  mk start_tag end_tag reasoning (stream_reasoning d0) buffer stripped.

Lemma stream_app a b d :
  stream (a ++ b) d = let '(r1, d1) := stream a d in let '(r2, d2) := stream b d1 in (parse_app r1 r2, d2).
Proof using.
  clear. revert d. induction a as [|c a IH]; intros d; simpl.
  - destruct (stream b d) as [[n r] d2]. done.
  - destruct (parse_streaming_increment c d) as [r d1]. rewrite IH. destruct (stream a d1) as [r1 d2].
    destruct (stream b d2) as [r2 d3]. unfold parse_app. simpl. by rewrite !app_assoc.
Qed.

(** The pieces of a tag but the last are held back. *)
Lemma stream_partial tag pieces reasoning stripped : ∀ buffer k,
  tag ∈ [start_tag; end_tag] → tag = buffer ++ concat pieces ++ k → k ≠ [] →
  stream pieces (point reasoning buffer stripped) = (mkParse [] [], point reasoning (buffer ++ concat pieces) stripped).
Proof using.
  clear. induction pieces as [|c pieces IH]; intros buffer k Hin Et Hk; simpl; [by rewrite app_nil_r|].
  assert (held d0 (buffer ++ c) = true) as Eh.
  { simpl in Et. assert (partial_of tag (buffer ++ c) = true) as Ep.
    { apply partial_of_spec. exists (concat pieces ++ k). rewrite Et, <-!app_assoc. split; [done|].
      intros [_ ?]%app_nil. done. }
    unfold held. simpl. apply elem_of_cons in Hin as [<-|Hin%list_elem_of_singleton].
    - by rewrite Ep.
    - rewrite <-Hin, Ep. by rewrite orb_true_r. }
  unfold parse_streaming_increment at 1. unfold with_buffer. simpl.
  change (partial_of start_tag (buffer ++ c) || (partial_of end_tag (buffer ++ c) || false)) with (held d0 (buffer ++ c)).
  rewrite Eh. change (mk start_tag end_tag reasoning (stream_reasoning d0) (buffer ++ c) stripped) with (point reasoning (buffer ++ c) stripped).
  rewrite (IH (buffer ++ c) k); [by rewrite <-app_assoc|done|simpl in Et; by rewrite Et, <-!app_assoc|done].
Qed.

(** The pieces of a whole tag act as the tag. *)
Lemma stream_tag tag pieces reasoning stripped :
  tag ∈ [start_tag; end_tag] → concat pieces = tag → last pieces ≠ Some [] → tag ≠ [] →
  stream pieces (point reasoning [] stripped) = parse_streaming_increment tag (point reasoning [] stripped).
Proof using.
  clear. intros Hin Ec Hl Ht. destruct (decide (pieces = [])) as [->|Hp]; [by rewrite <-Ec in Ht|].
  destruct (exists_last Hp) as (ps & c & ->). rewrite last_snoc in Hl. rewrite concat_app in Ec. simpl in Ec. rewrite app_nil_r in Ec.
  assert (c ≠ []) as Hc by (by intros ->).
  rewrite stream_app, (stream_partial tag ps reasoning stripped [] c Hin) by done. simpl.
  assert (parse_streaming_increment c (point reasoning (concat ps) stripped)
    = parse_streaming_increment tag (point reasoning [] stripped)) as ->.
  { unfold parse_streaming_increment, with_buffer. simpl. by rewrite Ec. }
  destruct (parse_streaming_increment tag _) as [[n r] d]. unfold parse_app. simpl. by rewrite !app_nil_r.
Qed.

(** Neither tag is the beginning of the other. *)
Context (Hpse : ¬ start_tag `prefix_of` end_tag) (Hpes : ¬ end_tag `prefix_of` start_tag).

Lemma tag_not_held tag : tag ∈ [start_tag; end_tag] → held d0 tag = false.
Proof using Hpse Hpes.
  assert (∀ a, partial_of a a = false) as Hrefl.
  { intros a. unfold partial_of. rewrite bool_decide_eq_true_2 by done. apply andb_false_r. }
  unfold held. intros [->|Hin%list_elem_of_singleton]%elem_of_cons; [|subst tag]; simpl; rewrite Hrefl; unfold partial_of, startswith;
    rewrite bool_decide_eq_false_2 by done; done.
Qed.

Lemma step_start : parse_streaming_increment start_tag (point false [] false) = (mkParse [] [], point true [] true).
Proof using Hs He Hmode Hpse Hpes.
  unfold parse_streaming_increment, with_buffer. simpl.
  change (partial_of start_tag start_tag || (partial_of end_tag start_tag || false)) with (held d0 start_tag).
  rewrite tag_not_held by set_solver. pose proof (py_find_refl start_tag) as Ef.
  unfold py_in at 1. rewrite Ef. simpl. assert (py_remove start_tag start_tag = []) as ->.
  { unfold py_remove. destruct start_tag as [|x t] eqn:E; [done|]. simpl length. cbn [remove_fuel]. rewrite Ef.
    simpl. rewrite drop_ge by done. clear -Hs. by destruct (length t). }
  rewrite py_find_nil by done. simpl. unfold point. by rewrite Hmode.
Qed.

Lemma step_end : parse_streaming_increment end_tag (point true [] true) = (mkParse [] [], point false [] true).
Proof using All.
  unfold parse_streaming_increment, with_buffer. simpl.
  change (partial_of start_tag end_tag || (partial_of end_tag end_tag || false)) with (held d0 end_tag).
  rewrite tag_not_held by set_solver. simpl. rewrite py_find_refl. simpl. by rewrite drop_ge by done.
Qed.

(** A chunk of reasoning: no end tag, and not the beginning of a tag. *)
Definition plain (c : str) : Prop := c = [] ∨ held d0 c = false ∧ py_find end_tag c = None.

Lemma stream_plain chunks : Forall plain chunks →
  stream chunks (point true [] true) = (mkParse [] (concat chunks), point true [] true).
Proof using Hs Hmode.
  induction 1 as [|c chunks Hc _ IH]; [done|]. simpl.
  assert (parse_streaming_increment c (point true [] true) = (mkParse [] c, point true [] true)) as ->; [|by rewrite IH].
  unfold parse_streaming_increment, with_buffer. simpl.
  change (partial_of start_tag c || (partial_of end_tag c || false)) with (held d0 c).
  destruct Hc as [->|[-> ->]]; [by rewrite held_nil|]. simpl. unfold point. by rewrite Hmode.
Qed.

Lemma stream_answer chunks : ∀ buffer, held d0 buffer = true →
  ∃ n buffer', stream chunks (point false buffer true) = (mkParse n [], point false buffer' true) ∧
    held d0 buffer' = true ∧ n ++ buffer' = buffer ++ concat chunks.
Proof using Hs.
  induction chunks as [|c chunks IH]; intros buffer Hh.
  - exists [], buffer. by rewrite app_nil_r.
  - simpl. unfold parse_streaming_increment, with_buffer. simpl.
    change (partial_of start_tag (buffer ++ c) || (partial_of end_tag (buffer ++ c) || false)) with (held d0 (buffer ++ c)).
    destruct (held d0 (buffer ++ c)) eqn:Eh.
    + destruct (IH (buffer ++ c) Eh) as (n & b' & E & Hb & En). fold (point false (buffer ++ c) true). rewrite E.
      exists n, b'. split; [done|]. split; [done|]. by rewrite En, <-app_assoc.
    + destruct (IH [] (held_nil d0 Hs)) as (n & b' & E & Hb & En). fold (point false [] true). rewrite E.
      exists ((buffer ++ c) ++ n), b'. split; [done|]. split; [done|]. by rewrite <-!app_assoc, En.
Qed.

Lemma stream_tagged ss rs es ns :
  concat ss = start_tag → last ss ≠ Some [] → Forall plain rs → concat es = end_tag → last es ≠ Some [] →
  ∃ n buffer', stream (ss ++ rs ++ es ++ ns) (point false [] false) = (mkParse n (concat rs), point false buffer' true) ∧
    held d0 buffer' = true ∧ n ++ buffer' = concat ns.
Proof using All.
  intros E1 L1 Hr E2 L2. destruct (stream_answer ns [] (held_nil d0 Hs)) as (n & b & En & Hb & Ec).
  exists n, b. split; [|done]. rewrite stream_app, (stream_tag start_tag ss), step_start by (set_solver || done).
  rewrite stream_app, stream_plain by exact Hr. rewrite stream_app, (stream_tag end_tag es), step_end by (set_solver || done).
  rewrite En. unfold parse_app. simpl. by rewrite app_nil_r.
Qed.

End tokens.

(** streaming of reasoning.  If the tags arrive in chunks of their own
    (in pieces or whole) and no chunk of the reasoning contains the end tag or
    is the beginning of a tag, a detector with [stream_reasoning=True] delivers
    exactly the chunks between the tags as reasoning and the rest as the
    answer, up to a beginning of a tag it still holds back. *)
Theorem reasoning_stream_tokens (start_tag end_tag : str) (ss rs es ns : list str) :
  let d := Detector.init start_tag end_tag false true in
  start_tag ≠ [] → end_tag ≠ [] → ¬ start_tag `prefix_of` end_tag → ¬ end_tag `prefix_of` start_tag →
  concat ss = start_tag → last ss ≠ Some [] → concat es = end_tag → last es ≠ Some [] →
  Forall (plain d) rs →
  ∃ n d', Detector.stream (ss ++ rs ++ es ++ ns) d = (mkParse n (concat rs), d') ∧
    n ++ Detector._buffer d' = concat ns ∧ held d (Detector._buffer d') = true ∧ Detector._in_reasoning d' = false.
Proof.
  intros d Hs He H1 H2 E1 L1 E2 L2 Hr.
  destruct (stream_tagged d Hs He eq_refl H1 H2 ss rs es ns E1 L1 Hr E2 L2) as (n & b & E & Hh & En).
  exists n, (point d false b true). done.
Qed.

Lemma reasoning_stream_tokens_witness :
  ∃ n d', Detector.stream [lit "<th"; lit "ink>"; lit "a b"; lit "</think>"; lit "c<"; lit "<"] (construct Qwen3Detector true None)
      = (mkParse n (lit "a b"), d') ∧ n ++ Detector._buffer d' = lit "c<<".
Proof.
  destruct (reasoning_stream_tokens THINK END_THINK [lit "<th"; lit "ink>"] [lit "a b"] [lit "</think>"] [lit "c<"; lit "<"])
    as (n & d' & E & En & _);
    [discriminate|discriminate|by intros [? [=]]|by intros [? [=]]|reflexivity|discriminate|reflexivity|discriminate| |].
  { constructor; [|constructor]. right. split; reflexivity. }
  exists n, d'. split; [exact E|exact En].
Defined.

(** A tag whose beginning is the end of a chunk is missed when reasoning is
    streamed: the answer is delivered as reasoning. *)
Theorem reasoning_split_tag_missed :
  Detector.stream [lit "ab</thi"; lit "nk>c"] (construct DeepSeekR1Detector true None)
    = (mkParse [] (lit "ab</think>c"), construct DeepSeekR1Detector true None) ∧
  Detector.detect_and_parse (lit "ab</think>c") (construct DeepSeekR1Detector true None) = Ok (mkParse (lit "c") (lit "ab")).
Proof. split; vm_compute; reflexivity. Qed.

(** Without streaming, the start tag of an earlier chunk is delivered. *)
Theorem reasoning_start_tag_kept :
  (Detector.stream [lit "<think>ab"; lit "</think>c"] (construct Qwen3Detector false None)).1
    = mkParse (lit "c") (lit "<think>ab") ∧
  Detector.detect_and_parse (lit "<think>ab</think>c") (construct Qwen3Detector false None) = Ok (mkParse (lit "c") (lit "ab")).
Proof. split; vm_compute; reflexivity. Qed.
