(* ===== verification/LoraPool.v ===== *)
(** * The memory pool of the LoRA adapters

    Models [srt/lora/mem_pool.py], [srt/lora/utils.py] and the slicing of
    weights of [srt/lora/layers.py].  A batch uses at most
    [max_loras_per_batch] adapters; the pool has one slot for each, and loads
    the weights of an adapter into a slot when a batch needs it.  A matrix is
    a list of rows with elements of type [W]; [cast] is the conversion to the
    type of the pool, and [torch.empty] gives a tensor with any contents.  The
    kernels that read the buffers are not modelled. *)

From S2P Require Import Prelude PyString Eplb EplbProofs ExpertLocation.
Open Scope Z_scope.

(** A set of Python: a [for] loop visits its elements in an order that is not
    specified. *)
Class PySet := {
  set_iter {A} `{Countable A} : gset A → list A;
  set_iter_perm {A} `{Countable A} (s : gset A) : set_iter s ≡ₚ elements s;
}.

#[export] Instance elements_set : PySet := {| set_iter A _ _ s := elements s; set_iter_perm A _ _ s := reflexivity _ |}.

(** ** Names of modules ([utils.py]) *)

(** The fields of the model's configuration that are read. *)
Record hf_config := mkHF {
  hidden_size : Z; num_attention_heads : Z; num_key_value_heads : Z; intermediate_size : Z;
  head_dim : option Z; num_hidden_layers : Z
}.

Definition py_floordiv (a b : Z) : pyres Z := if b =? 0 then Raise ZeroDivisionError else mret (a / b).

(** [own] is the method [get_hidden_dim] of the model, if it has one. *)
Definition get_hidden_dim (own : option (str → pyres (Z * Z))) (module_name : str) (config : hf_config) : pyres (Z * Z) :=
  match own with
  | Some f => f module_name
  | None =>
      d ← py_floordiv (hidden_size config) (num_attention_heads config);
      let hd := default d (head_dim config) in
      if bool_decide (module_name = lit "qkv_proj") then
        mret (hidden_size config, hd * (num_attention_heads config + num_key_value_heads config * 2))
      else if bool_decide (module_name = lit "o_proj") then mret (hd * num_attention_heads config, hidden_size config)
      else if bool_decide (module_name = lit "gate_up_proj") then mret (hidden_size config, intermediate_size config * 2)
      else if bool_decide (module_name = lit "down_proj") then mret (intermediate_size config, hidden_size config)
      else Raise NotImplementedError
  end.

Definition params_mapping : list (str * str) :=
  [(lit "q_proj", lit "qkv_proj"); (lit "k_proj", lit "qkv_proj"); (lit "v_proj", lit "qkv_proj");
   (lit "gate_proj", lit "gate_up_proj"); (lit "up_proj", lit "gate_up_proj")].

Definition normalized_name (name : str) : str := default name (od_get name params_mapping).
Definition get_normalized_target_modules (target_modules : list str) : gset str :=
  foldl (fun result name => {[ normalized_name name ]} ∪ result) ∅ target_modules.

Definition get_stacked_multiply (module_name : str) : Z :=
  if bool_decide (module_name = lit "qkv_proj") then 3 else if bool_decide (module_name = lit "gate_up_proj") then 2 else 1.

(** The loop over the set [target_modules]. *)
Fixpoint get_target_module_name (full_module_name : str) (target_modules : list str) : pyres str :=
  match target_modules with
  | [] => Raise ValueError
  | target_module :: rest => if py_in target_module full_module_name then mret target_module else get_target_module_name full_module_name rest
  end.

Definition ROW_PARALLELISM_LINEAR_LORA_NAMES : list str := [lit "o_proj"; lit "down_proj"].

(** [divide] of [distributed/utils.py] *)
Definition divide (numerator denominator : Z) : pyres Z :=
  (if denominator =? 0 then Raise ZeroDivisionError else py_assert (numerator mod denominator =? 0)) ;;
  mret (numerator / denominator).

(** ** Adapters *)

(** [lora_id] is generated with [uuid4]. *)
Record LoRARef := mkRef { lora_id : string; lora_name : option string; lora_path : option string; pinned : option bool }.

(** [LoRAConfig]: a file can give one string in the place of the list of modules. *)
Inductive modules_spec := ModuleList (l : list str) | ModuleString (s : str).
Record LoRAConfig := mkConfig { path : string; target_modules : modules_spec; r : Z; lora_alpha : Z; peft_type : option str }.

(** What a loop over [target_modules] visits: a string is visited character by character. *)
Definition spec_names (s : modules_spec) : list str := match s with ModuleList l => l | ModuleString s => (fun c => [c]) <$> s end.

Section tensors.
Context {W : Type}.

Record tensor := mkT { t_cols : Z; t_rows : list (list W) }.
Definition t_shape (t : tensor) : Z * Z := (len (t_rows t), t_cols t).
(** [t[lo:hi, :]] and [t[:, lo:hi]] *)
Definition t_slice_rows (lo hi : Z) (t : tensor) : tensor := mkT (t_cols t) (py_slice lo hi (t_rows t)).
Definition t_slice_cols (lo hi : Z) (t : tensor) : tensor :=
  mkT (Z.of_nat (py_norm (t_cols t) hi - py_norm (t_cols t) lo)) (py_slice lo hi <$> t_rows t).
(** [torch.cat(ts, 0)] *)
Definition t_cat (t u : tensor) : pyres tensor :=
  if t_cols t =? t_cols u then mret (mkT (t_cols t) (t_rows t ++ t_rows u)) else Raise RuntimeError.

(** ** Slicing for tensor parallelism ([layers.py]) *)

(** The sizes [QKVParallelLinear] computes ([layers/linear.py]). *)
Record qkv_sizes := mkQKV { q_proj_shard_size : Z; kv_proj_shard_size : Z; num_kv_head_replicas : Z; output_sizes : Z * Z * Z }.

Definition QKVParallelLinear (head_size total_num_heads total_num_kv_heads tp_size : Z) : pyres qkv_sizes :=
  num_heads ← divide total_num_heads tp_size;
  '(num_kv_heads, replicas) ← (if total_num_kv_heads <=? tp_size then n ← divide tp_size total_num_kv_heads; mret (1, n)
                               else n ← divide total_num_kv_heads tp_size; mret (n, 1));
  mret (mkQKV (num_heads * head_size) (num_kv_heads * head_size) replicas
    (num_heads * head_size * tp_size, num_kv_heads * head_size * tp_size, num_kv_heads * head_size * tp_size)).

(** The layers with LoRA, with the sizes of their base layer. *)
Inductive lora_layer :=
  | VocabParallelEmbeddingWithLoRA
  | ColumnParallelLinearWithLoRA (shard_size : Z)
  | MergedColumnParallelLinearWithLoRA (shard_size gate_size : Z)
  | QKVParallelLinearWithLoRA (base_layer : qkv_sizes)
  | RowParallelLinearWithLoRA (input_size_per_partition : Z).

Definition slice_lora_a_weights (l : lora_layer) (A : tensor) (tp_rank : Z) : option tensor :=
  match l with
  | VocabParallelEmbeddingWithLoRA => None
  | ColumnParallelLinearWithLoRA _ | MergedColumnParallelLinearWithLoRA _ _ | QKVParallelLinearWithLoRA _ => Some A
  | RowParallelLinearWithLoRA shard_size => Some (t_slice_cols (tp_rank * shard_size) ((tp_rank + 1) * shard_size) A)
  end.

Definition qkv_slice (b : qkv_sizes) (B : tensor) (tp_rank : Z) : pyres tensor :=
  let q_start_idx := q_proj_shard_size b * tp_rank in
  let q_end_idx := q_start_idx + q_proj_shard_size b in
  kv_shard_id ← py_floordiv tp_rank (num_kv_head_replicas b);
  let kv_start_idx := kv_proj_shard_size b * kv_shard_id in
  let kv_end_idx := kv_start_idx + kv_proj_shard_size b in
  let '(q_size, k_size, _) := output_sizes b in
  let B_q_shard := t_slice_rows q_start_idx q_end_idx B in
  let B_k_shard := t_slice_rows (q_size + kv_start_idx) (q_size + kv_end_idx) B in
  let B_v_shard := t_slice_rows (q_size + k_size + kv_start_idx) (q_size + k_size + kv_end_idx) B in
  B_qk ← t_cat B_q_shard B_k_shard; t_cat B_qk B_v_shard.

(** [B] is [None] when the adapter has only the other matrix of the module. *)
Definition slice_lora_b_weights (l : lora_layer) (B : option tensor) (tp_rank : Z) : pyres (option tensor) :=
  match l, B with
  | VocabParallelEmbeddingWithLoRA, _ => mret None
  | RowParallelLinearWithLoRA _, _ => mret B
  | ColumnParallelLinearWithLoRA shard_size, Some B =>
      mret (Some (t_slice_rows (tp_rank * shard_size) ((tp_rank + 1) * shard_size) B))
  | MergedColumnParallelLinearWithLoRA shard_size gate_size, Some B =>
      let start_idx := tp_rank * shard_size in
      let end_idx := (tp_rank + 1) * shard_size in
      B ← t_cat (t_slice_rows start_idx end_idx B) (t_slice_rows (gate_size + start_idx) (gate_size + end_idx) B); mret (Some B)
  | QKVParallelLinearWithLoRA b, Some B => B ← qkv_slice b B tp_rank; mret (Some B)
  | _, None => Raise TypeError
  end.

(** [LoRAAdapter]: the weights of each layer by name, in the order of the dict,
    and [lora_alpha / r] as the two numbers. *)
Record LoRAAdapter := mkAdapter { uid : string; config : LoRAConfig; scaling : Z * Z; layers : list (list (str * tensor)) }.

(** ** The pool *)

(** [buffer_id_to_uid] holds [EMPTY_SLOT], [None] for the base model, or the
    id of an adapter. *)
Inductive slot := EmptySlot | Uid (u : option string).
#[export] Instance slot_eq_dec : EqDecision slot.
Proof. solve_decision. Defined.

(** A buffer: for each module, for each layer, the matrix of each slot. *)
Abbreviation buffers := (gmap str (list (list tensor))).

Record LoRAMemoryPool := mkPool {
  base_hf_config : hf_config;
  num_layer : Z;
  max_loras_per_batch : Z;
  tp_size : Z;
  tp_rank : Z;
  max_lora_rank : Z;
  pool_target_modules : gset str;
  A_buffer : buffers;
  B_buffer : buffers;
  uid_to_buffer_id : gmap (option string) Z;
  buffer_id_to_uid : list slot;
}.

Definition set_buffers (A B : buffers) (p : LoRAMemoryPool) : LoRAMemoryPool :=
  mkPool (base_hf_config p) (num_layer p) (max_loras_per_batch p) (tp_size p) (tp_rank p) (max_lora_rank p) (pool_target_modules p)
    A B (uid_to_buffer_id p) (buffer_id_to_uid p).
Definition set_slots (ids : gmap (option string) Z) (uids : list slot) (p : LoRAMemoryPool) : LoRAMemoryPool :=
  mkPool (base_hf_config p) (num_layer p) (max_loras_per_batch p) (tp_size p) (tp_rank p) (max_lora_rank p) (pool_target_modules p)
    (A_buffer p) (B_buffer p) ids uids.

Context `{PySet} (zero : W) (cast : W → W).

Definition can_support (p : LoRAMemoryPool) (config : LoRAConfig) : bool :=
  negb (max_lora_rank p <? r config) &&
  bool_decide (get_normalized_target_modules (spec_names (target_modules config)) ⊆ pool_target_modules p).

Definition get_lora_A_shape (own : option (str → pyres (Z * Z))) (p : LoRAMemoryPool) (module_name : str) (max_lora_dim : Z) : pyres (Z * Z * Z) :=
  '(input_dim, _) ← get_hidden_dim own module_name (base_hf_config p);
  let c := get_stacked_multiply module_name in
  input_dim ← (if (1 <? tp_size p) && bool_decide (module_name ∈ ROW_PARALLELISM_LINEAR_LORA_NAMES) then divide input_dim (tp_size p) else mret input_dim);
  mret (max_loras_per_batch p, max_lora_dim * c, input_dim).

Definition get_lora_B_shape (own : option (str → pyres (Z * Z))) (p : LoRAMemoryPool) (module_name : str) (max_lora_dim : Z) : pyres (Z * Z * Z) :=
  '(_, output_dim) ← get_hidden_dim own module_name (base_hf_config p);
  output_dim ← (if (1 <? tp_size p) && bool_decide (module_name ∉ ROW_PARALLELISM_LINEAR_LORA_NAMES) then divide output_dim (tp_size p) else mret output_dim);
  mret (max_loras_per_batch p, output_dim, max_lora_dim).

(** [torch.empty(shape)], where [fill] is what the memory holds. *)
Definition torch_empty (fill : Z → Z → Z → W) (shape : Z * Z * Z) : pyres (list tensor) :=
  let '(n, rows, cols) := shape in
  if (n <? 0) || (rows <? 0) || (cols <? 0) then Raise RuntimeError else
  mret ((fun s => mkT cols ((fun i => fill s i <$> arange 0 cols) <$> arange 0 rows)) <$> arange 0 n).

(** [init_buffer]; [fill] gives the memory of each module and layer. *)
Fixpoint init_buffer (fill : str → Z → Z → Z → Z → W) (shape_fn : str → Z → pyres (Z * Z * Z)) (p : LoRAMemoryPool) (modules : list str) (buffer : buffers) : pyres buffers :=
  match modules with
  | [] => mret buffer
  | module_name :: rest =>
      lora_shape ← shape_fn module_name (max_lora_rank p);
      ls ← mapM (fun i => torch_empty (fill module_name i) lora_shape) (arange 0 (num_layer p));
      init_buffer fill shape_fn p rest (<[module_name := ls]> buffer)
  end.

Definition init_buffers (fill : bool → str → Z → Z → Z → Z → W) (own : option (str → pyres (Z * Z))) (p : LoRAMemoryPool) : pyres LoRAMemoryPool :=
  A ← init_buffer (fill true) (get_lora_A_shape own p) p (set_iter (pool_target_modules p)) (A_buffer p);
  B ← init_buffer (fill false) (get_lora_B_shape own p) p (set_iter (pool_target_modules p)) (B_buffer p);
  mret (set_buffers A B p).

(** [LoRAMemoryPool.__init__] *)
Definition LoRAMemoryPool_init (fill : bool → str → Z → Z → Z → Z → W) (own : option (str → pyres (Z * Z)))
    (base_hf_config : hf_config) (max_loras_per_batch tp_size tp_rank max_lora_rank : Z) (target_modules : gset str) : pyres LoRAMemoryPool :=
  init_buffers fill own (mkPool base_hf_config (num_hidden_layers base_hf_config) max_loras_per_batch tp_size tp_rank max_lora_rank
    target_modules ∅ ∅ ∅ (replicate (Z.to_nat max_loras_per_batch) EmptySlot)).

(** *** Loading the weights of an adapter *)

Definition zero_like (t : tensor) : tensor := mkT (t_cols t) (fmap (M := list) (fun _ => zero) <$> t_rows t).

(** [load_lora_weight_tensor]: what the view holds afterwards. *)
Definition load_lora_weight_tensor (buffer_view : tensor) (weight : option tensor) : pyres tensor :=
  match weight with
  | None => mret (zero_like buffer_view)
  | Some w => py_assert (bool_decide (t_shape buffer_view = t_shape w)) ;; mret (mkT (t_cols w) (fmap (M := list) cast <$> t_rows w))
  end.

(** [load_lora_weight_tensor(t[:n, :], weight)] and [load_lora_weight_tensor(t[:, :n], weight)] *)
Definition load_rows (n : Z) (weight : option tensor) (t : tensor) : pyres tensor :=
  v ← load_lora_weight_tensor (mkT (t_cols t) (t_rows t).[: n]) weight; mret (mkT (t_cols t) (t_rows v ++ (t_rows t).[n :])).
Definition load_cols (n : Z) (weight : option tensor) (t : tensor) : pyres tensor :=
  v ← load_lora_weight_tensor (t_slice_cols 0 n t) weight;
  mret (mkT (t_cols t) (zip_with (fun x row => x ++ row.[n :]) (t_rows v) (t_rows t))).

(** [buffer[name][layer_id][buffer_id]] is changed by [f]. *)
Definition update_slot (f : tensor → pyres tensor) (name : str) (layer_id buffer_id : Z) (buffer : buffers) : pyres buffers :=
  match buffer !! name with
  | None => Raise KeyError
  | Some ls =>
      l ← py_index ls layer_id; t ← py_index l buffer_id; t ← f t;
      mret (<[name := set_at layer_id (set_at buffer_id t l) ls]> buffer)
  end.

(** The weights of a layer by module: [temp_A_buffer] and [temp_B_buffer], where
    a module that is missing is [None]. *)
Fixpoint split_weights (modules : list str) (ws : list (str * tensor)) (temps : gmap str tensor * gmap str tensor) : pyres (gmap str tensor * gmap str tensor) :=
  match ws with
  | [] => mret temps
  | (name, weights) :: rest =>
      target_module ← get_target_module_name name modules;
      split_weights modules rest (if py_in (lit "lora_A") name then (<[target_module := weights]> temps.1, temps.2)
                                  else (temps.1, <[target_module := weights]> temps.2))
  end.

(** [temp[target_module] = value] *)
Definition assign (name : str) (v : option tensor) (temp : gmap str tensor) : gmap str tensor :=
  match v with Some t => <[name := t]> temp | None => delete name temp end.

Fixpoint slice_weights (modules : list str) (tp_rank : Z) (cur_layer_modules : list (str * lora_layer)) (temps : gmap str tensor * gmap str tensor)
    : pyres (gmap str tensor * gmap str tensor) :=
  match cur_layer_modules with
  | [] => mret temps
  | (module_name, module) :: rest =>
      target_module ← get_target_module_name module_name modules;
      match temps.1 !! target_module with
      | None => slice_weights modules tp_rank rest temps
      | Some A =>
          b ← slice_lora_b_weights module (temps.2 !! target_module) tp_rank;
          slice_weights modules tp_rank rest (assign target_module (slice_lora_a_weights module A tp_rank) temps.1, assign target_module b temps.2)
      end
  end.

Definition lora_modules_t : Type := list (list (str * lora_layer)).

(** The two dicts of a layer when they are copied to the buffers. *)
Definition layer_temps (p : LoRAMemoryPool) (lora_modules : lora_modules_t) (layer_id : Z) (layer_weights : list (str * tensor))
    : pyres (gmap str tensor * gmap str tensor) :=
  temps ← split_weights (set_iter (pool_target_modules p)) layer_weights (∅, ∅);
  if 1 <? tp_size p then
    cur_layer_modules ← py_index lora_modules layer_id;
    slice_weights (set_iter (pool_target_modules p)) (tp_rank p) cur_layer_modules temps
  else mret temps.

(** A loop over the modules that changes the slot [buffer_id] of each. *)
Fixpoint store_slots (f : str → tensor → pyres tensor) (names : list str) (layer_id buffer_id : Z) (buffer : buffers) : pyres buffers :=
  match names with
  | [] => mret buffer
  | name :: rest => buffer ← update_slot (f name) name layer_id buffer_id buffer; store_slots f rest layer_id buffer_id buffer
  end.

(** The loops over [temp_A_buffer.items()] and [temp_B_buffer.items()]. *)
Definition store_A (names : list str) (lora_rank layer_id buffer_id : Z) (temp : gmap str tensor) : buffers → pyres buffers :=
  store_slots (fun name => load_rows (lora_rank * get_stacked_multiply name) (temp !! name)) names layer_id buffer_id.
Definition store_B (names : list str) (lora_rank layer_id buffer_id : Z) (temp : gmap str tensor) : buffers → pyres buffers :=
  store_slots (fun name => load_cols lora_rank (temp !! name)) names layer_id buffer_id.

Fixpoint load_layers (lora_adapter : LoRAAdapter) (lora_modules : lora_modules_t) (buffer_id : Z) (ids : list Z) (p : LoRAMemoryPool) : pyres LoRAMemoryPool :=
  match ids with
  | [] => mret p
  | layer_id :: rest =>
      layer_weights ← py_index (layers lora_adapter) layer_id;
      '(temp_A, temp_B) ← layer_temps p lora_modules layer_id layer_weights;
      A ← store_A (set_iter (pool_target_modules p)) (r (config lora_adapter)) layer_id buffer_id temp_A (A_buffer p);
      B ← store_B (set_iter (pool_target_modules p)) (r (config lora_adapter)) layer_id buffer_id temp_B (B_buffer p);
      load_layers lora_adapter lora_modules buffer_id rest (set_buffers A B p)
  end.

(** [for k in self.A_buffer.keys(): self.A_buffer[k][i][buffer_id] = 0] *)
Definition zero_A (names : list str) (layer_id buffer_id : Z) : buffers → pyres buffers :=
  store_slots (fun _ t => mret (zero_like t)) names layer_id buffer_id.

Definition load_lora_weight_to_buffer (uid : option string) (buffer_id : Z) (lora_adapter : option LoRAAdapter) (lora_modules : lora_modules_t)
    (p : LoRAMemoryPool) : pyres LoRAMemoryPool :=
  match uid, lora_adapter with
  | None, _ =>
      A ← foldl (fun acc i => A ← acc; zero_A (set_iter (pool_target_modules p)) i buffer_id A) (mret (A_buffer p)) (arange 0 (num_layer p));
      mret (set_buffers A (B_buffer p) p)
  | Some _, None => Raise AssertionError
  | Some _, Some lora_adapter => load_layers lora_adapter lora_modules buffer_id (arange 0 (num_layer p)) p
  end.

(** *** Preparing a batch *)

(** The two loops of [get_available_buffer_slot]. *)
Fixpoint find_empty (ids : list Z) (p : LoRAMemoryPool) : pyres (option Z) :=
  match ids with
  | [] => mret None
  | buffer_id :: rest => s ← py_index (buffer_id_to_uid p) buffer_id; if bool_decide (s = EmptySlot) then mret (Some buffer_id) else find_empty rest p
  end.

Definition is_pinned (lora_refs : gmap string LoRARef) (u : option string) : bool :=
  match u with
  | Some u => match lora_refs !! u with Some lora_ref => default false (pinned lora_ref) | None => false end
  | None => false
  end.

Fixpoint evict_slot (cur_uids : gset (option string)) (lora_refs : gmap string LoRARef) (ids : list Z) (p : LoRAMemoryPool) : pyres (Z * LoRAMemoryPool) :=
  match ids with
  | [] => Raise ValueError
  | buffer_id :: rest =>
      s ← py_index (buffer_id_to_uid p) buffer_id;
      match s with
      | EmptySlot => Raise KeyError
      | Uid u =>
          if bool_decide (u ∈ cur_uids) || is_pinned lora_refs u then evict_slot cur_uids lora_refs rest p
          else match uid_to_buffer_id p !! u with
               | None => Raise KeyError
               | Some _ => mret (buffer_id, set_slots (delete u (uid_to_buffer_id p)) (set_at buffer_id EmptySlot (buffer_id_to_uid p)) p)
               end
      end
  end.

Definition get_available_buffer_slot (cur_uids : gset (option string)) (lora_refs : gmap string LoRARef) (p : LoRAMemoryPool) : pyres (Z * LoRAMemoryPool) :=
  e ← find_empty (arange 0 (max_loras_per_batch p)) p;
  match e with
  | Some buffer_id => mret (buffer_id, p)
  | None => evict_slot cur_uids lora_refs (arange 0 (max_loras_per_batch p)) p
  end.

Definition prepare_one (cur_uids : gset (option string)) (lora_adapters : gmap string LoRAAdapter) (lora_modules : lora_modules_t)
    (lora_refs : gmap string LoRARef) (uid : option string) (p : LoRAMemoryPool) : pyres LoRAMemoryPool :=
  match uid_to_buffer_id p !! uid with
  | Some _ => mret p
  | None =>
      '(buffer_id, p) ← get_available_buffer_slot cur_uids lora_refs p;
      p ← load_lora_weight_to_buffer uid buffer_id (u ← uid; lora_adapters !! u) lora_modules p;
      mret (set_slots (<[uid := buffer_id]> (uid_to_buffer_id p)) (set_at buffer_id (Uid uid) (buffer_id_to_uid p)) p)
  end.

Definition prepare_lora_batch (cur_uids : gset (option string)) (lora_adapters : gmap string LoRAAdapter) (lora_modules : lora_modules_t)
    (lora_refs : gmap string LoRARef) (p : LoRAMemoryPool) : pyres LoRAMemoryPool :=
  foldl (fun acc uid => p ← acc; prepare_one cur_uids lora_adapters lora_modules lora_refs uid p) (mret p) (set_iter cur_uids).

Definition get_buffer_id (p : LoRAMemoryPool) (lora_uid : option string) : pyres Z :=
  match uid_to_buffer_id p !! lora_uid with Some i => mret i | None => Raise KeyError end.

(** [get_tensor], where [true] is [LoRAType.LORA_A] *)
Definition get_tensor (p : LoRAMemoryPool) (target_module : str) (layer_id : Z) (lora_type : bool) : pyres (list tensor) :=
  match (if lora_type then A_buffer p else B_buffer p) !! target_module with
  | Some ls => py_index ls layer_id
  | None => Raise KeyError
  end.
End tensors.
Arguments tensor : clear implicits.
Arguments LoRAAdapter : clear implicits.
Arguments LoRAMemoryPool : clear implicits.
