(* ===== verification/LoraPoolProofs.v ===== *)
(** * The slots of the LoRA memory pool

    The pool of [LoraPool]: its two maps are inverse, the matrices keep their
    shapes, loading an adapter changes one slot and leaves the weights of the
    adapter there, and a batch whose adapters fit beside the pinned ones can
    always be prepared. *)

From S2P Require Import Prelude PyString Eplb EplbProofs ExpertLocation LoraPool.
Open Scope Z_scope.

Section pool.
Context {W : Type} `{PySet} (zero : W) (cast : W → W).
Abbreviation tensor := (tensor W).
Abbreviation buffers := (gmap str (list (list tensor))).
Abbreviation pool := (LoRAMemoryPool W).
Implicit Types (t : tensor) (buf : buffers) (p : pool) (name : str).

(** ** One matrix *)

Definition t_ok (n m : Z) (t : tensor) : Prop := len (t_rows t) = n ∧ t_cols t = m ∧ Forall (fun row => len row = m) (t_rows t).

Definition zeros (n m : Z) : list (list W) := replicate (Z.to_nat n) (replicate (Z.to_nat m) zero).

(** What the first rows or columns of a slot hold for a weight. *)
Definition weight_rows (n m : Z) (w : option tensor) : list (list W) :=
  match w with Some w => fmap (M := list) cast <$> t_rows w | None => zeros n m end.

Definition weight_ok (n m : Z) (w : option tensor) : Prop := match w with Some w => t_ok n m w | None => True end.

Lemma zeros_fmap (rows : list (list W)) n m : len rows = n → Forall (fun row => len row = m) rows →
  fmap (M := list) (fun _ => zero) <$> rows = zeros n m.
Proof.
  intros <- Hf. unfold zeros, len. rewrite Nat2Z.id. induction Hf as [|row rows Hr _ IH]; [done|]. csimpl. rewrite IH. f_equal.
  rewrite <-Hr. unfold len. rewrite Nat2Z.id. clear. induction row as [|x row IH]; [done|]. csimpl. by rewrite IH.
Qed.

Lemma Forall_zeros n m : 0 ≤ m → Forall (fun row => len row = m) (zeros n m).
Proof. intros Hm. apply Forall_replicate. unfold len. rewrite length_replicate. lia. Qed.

Lemma weight_rows_ok n m w : 0 ≤ n → 0 ≤ m → weight_ok n m w → len (weight_rows n m w) = n ∧ Forall (fun row => len row = m) (weight_rows n m w).
Proof.
  intros Hn Hm. destruct w as [w|]; simpl.
  - intros (Hl & _ & Hf). rewrite len_fmap. split; [done|]. apply Forall_fmap. eapply Forall_impl; [exact Hf|]. intros row. simpl. by rewrite len_fmap.
  - intros _. split; [|by apply Forall_zeros]. unfold zeros, len. rewrite length_replicate. lia.
Qed.

Lemma load_tensor_ok (v : tensor) n m w : t_ok n m v → weight_ok n m w →
  ∃ v', load_lora_weight_tensor zero cast v w = Ok v' ∧ t_rows v' = weight_rows n m w.
Proof.
  intros (Hl & Hc & Hf) Hw. destruct w as [w|]; simpl in *.
  - destruct Hw as (Hl' & Hc' & _). unfold t_shape. rewrite bool_decide_true by (f_equal; lia). simpl. eauto.
  - eexists. split; [done|]. simpl. by apply zeros_fmap.
Qed.

Lemma load_rows_ok n N m w t : 0 ≤ n ≤ N → 0 ≤ m → t_ok N m t → weight_ok n m w →
  ∃ t', load_rows zero cast n w t = Ok t' ∧ t_ok N m t' ∧ (t_rows t').[: n] = weight_rows n m w.
Proof.
  intros Hn Hm (Hl & Hc & Hf) Hw. unfold load_rows.
  destruct (load_tensor_ok (mkT (t_cols t) (t_rows t).[: n]) n m w) as (v & -> & Hv); [|done|].
  { unfold t_ok. simpl. rewrite len_py_take by lia. split; [lia|]. split; [done|]. rewrite py_take_nonneg by lia. by apply Forall_take. }
  destruct (weight_rows_ok n m w) as [Hwl Hwf]; [lia|done|done|].
  cbn [mbind pyres_bind]. eexists. split; [done|]. unfold t_ok. simpl. rewrite Hv. split; [split|].
  - rewrite len_app, len_py_drop, Hwl by lia. lia.
  - split; [done|]. apply Forall_app. split; [done|]. rewrite py_drop_nonneg by lia. by apply Forall_drop.
  - rewrite py_take_nonneg by lia. apply take_app_length'. unfold len in Hwl. lia.
Qed.

Lemma slice_cols_row n M (row : list W) : 0 ≤ n ≤ M → len row = M → py_slice 0 n row = row.[: n].
Proof. intros Hn Hr. rewrite py_slice_nonneg, py_take_nonneg by lia. simpl. by rewrite Nat.sub_0_r. Qed.

Lemma load_cols_ok n N M w t : 0 ≤ n ≤ M → 0 ≤ N → t_ok N M t → weight_ok N n w →
  ∃ t', load_cols zero cast n w t = Ok t' ∧ t_ok N M t' ∧ (py_take n <$> t_rows t') = weight_rows N n w.
Proof.
  intros Hn HN (Hl & Hc & Hf) Hw. unfold load_cols.
  destruct (load_tensor_ok (t_slice_cols 0 n t) N n w) as (v & -> & Hv); [|done|].
  { unfold t_ok, t_slice_cols. simpl. rewrite len_fmap, Hc, !py_norm_nonneg by lia. split; [done|]. split; [lia|].
    apply Forall_fmap. eapply Forall_impl; [exact Hf|]. intros row Hr. cbv beta in *. unfold compose. rewrite (slice_cols_row n M), len_py_take by (done || lia). lia. }
  destruct (weight_rows_ok N n w) as [Hwl Hwf]; [done|lia|done|].
  cbn [mbind pyres_bind]. eexists. split; [done|]. unfold t_ok. simpl. rewrite Hv. clear Hv Hw.
  assert (length (weight_rows N n w) = length (t_rows t)) as Hlen by (unfold len in *; lia).
  revert Hwf Hf Hlen. generalize (weight_rows N n w). rewrite <-Hl, Hc. generalize (t_rows t). clear -Hn.
  intros rows k. revert rows. induction k as [|x k IH]; intros [|row rows] Hx Hr El; try done.
  apply Forall_cons in Hx as [Hx Hk]. apply Forall_cons in Hr as [Hr Hrs]. injection El as El. destruct (IH rows Hk Hrs El) as ((I1 & _ & I2) & I3). csimpl.
  split; [split; [rewrite !len_cons; lia|split; [done|constructor; [|done]]]|].
  - rewrite len_app, len_py_drop by lia. lia.
  - rewrite I3. f_equal. rewrite py_take_nonneg by lia. apply take_app_length'. unfold len in Hx. lia.
Qed.

(** ** The slots of the buffers *)

Definition slot_at buf name (i s : nat) : option tensor := ls ← buf !! name; l ← ls !! i; l !! s.

Lemma update_slot_ok f name i s buf t t' : slot_at buf name i s = Some t → f t = Ok t' →
  ∃ buf', update_slot f name (Z.of_nat i) (Z.of_nat s) buf = Ok buf' ∧
    ∀ name' i' s', slot_at buf' name' i' s' = if decide (name' = name ∧ i' = i ∧ s' = s) then Some t' else slot_at buf name' i' s'.
Proof.
  intros Hs Hf. unfold slot_at in Hs. destruct (buf !! name) as [ls|] eqn:En; [|done]. simpl in Hs. destruct (ls !! i) as [l|] eqn:El; [|done]. simpl in Hs.
  unfold update_slot. rewrite En, (py_index_ok ls _ l) by (rewrite ?Nat2Z.id; done || lia). cbn [mbind pyres_bind].
  rewrite (py_index_ok l _ t) by (rewrite ?Nat2Z.id; done || lia). cbn [mbind pyres_bind]. rewrite Hf.
  eexists. split; [done|]. intros name' i' s'. unfold slot_at, set_at. rewrite !Nat2Z.id.
  destruct (decide (name' = name)) as [->|Hne]; [|rewrite lookup_insert_ne, decide_False by naive_solver; done].
  rewrite lookup_insert_eq, En. cbn [mbind option_bind].
  destruct (decide (i' = i)) as [->|Hni]; [|rewrite list_lookup_insert_ne, decide_False by naive_solver; done].
  rewrite list_lookup_insert_eq by (by apply lookup_lt_Some in El). rewrite El. cbn [mbind option_bind].
  destruct (decide (s' = s)) as [->|Hns]; [|rewrite list_lookup_insert_ne, decide_False by naive_solver; done].
  rewrite list_lookup_insert_eq by (by apply lookup_lt_Some in Hs). rewrite decide_True by done. done.
Qed.

Lemma store_slots_ok f (Q : str → tensor → Prop) i s names : ∀ buf, NoDup names →
  (∀ name, name ∈ names → ∃ t t', slot_at buf name i s = Some t ∧ f name t = Ok t' ∧ Q name t') →
  ∃ buf', store_slots f names (Z.of_nat i) (Z.of_nat s) buf = Ok buf' ∧
    (∀ name, name ∈ names → ∃ t', slot_at buf' name i s = Some t' ∧ Q name t') ∧
    (∀ name i' s', (i', s') ≠ (i, s) ∨ name ∉ names → slot_at buf' name i' s' = slot_at buf name i' s').
Proof.
  induction names as [|name names IH]; intros buf Hnd Hn; [exists buf; set_solver|]. apply NoDup_cons in Hnd as [Hni Hnd]. cbn [store_slots].
  destruct (Hn name) as (t & t' & Ht & Hf & Hq); [set_solver|]. destruct (update_slot_ok (f name) name i s buf t t' Ht Hf) as (buf1 & -> & H1).
  cbn [mbind pyres_bind]. destruct (IH buf1 Hnd) as (buf2 & -> & Hin & Hout).
  { intros n Hn'. rewrite H1, decide_False by set_solver. apply Hn. set_solver. }
  exists buf2. split; [done|]. split.
  - intros n [->|Hn']%elem_of_cons; [|by apply Hin]. exists t'. split; [|done]. rewrite Hout, H1, decide_True by (done || by right). done.
  - intros n i' s' Hne. rewrite Hout, H1 by set_solver. rewrite decide_False by set_solver. done.
Qed.

(** The shapes of all slots: [R name] rows and [C name] columns. *)
Definition shaped (tm : gset str) (n k : nat) (R C : str → Z) (buf : buffers) : Prop :=
  ∀ name i s, name ∈ tm → (i < n)%nat → (s < k)%nat → ∃ t, slot_at buf name i s = Some t ∧ t_ok (R name) (C name) t.

(** ** Loading an adapter *)

(** The widths of the inputs and the outputs of the modules on this rank. *)
Context (in_dim out_dim : str → Z).

Abbreviation tm p := (pool_target_modules p).
Abbreviation layers_of p := (Z.to_nat (num_layer p)).
Abbreviation slots_of p := (Z.to_nat (max_loras_per_batch p)).

Record pool_shaped p : Prop := {
  dims_nonneg name : name ∈ tm p → 0 ≤ in_dim name ∧ 0 ≤ out_dim name;
  A_shaped : shaped (tm p) (layers_of p) (slots_of p) (fun name => max_lora_rank p * get_stacked_multiply name) in_dim (A_buffer p);
  B_shaped : shaped (tm p) (layers_of p) (slots_of p) out_dim (fun _ => max_lora_rank p) (B_buffer p);
}.

(** The weights of an adapter can be copied to the slots of the pool. *)
Definition temps_ok p (rank : Z) (temps : gmap str tensor * gmap str tensor) : Prop :=
  ∀ name, name ∈ tm p → weight_ok (rank * get_stacked_multiply name) (in_dim name) (temps.1 !! name) ∧ weight_ok (out_dim name) rank (temps.2 !! name).

Definition fits p (mods : lora_modules_t) (ad : LoRAAdapter W) : Prop :=
  0 ≤ r (config ad) ≤ max_lora_rank p ∧
  ∀ i, (i < layers_of p)%nat → ∃ ws temps, layers ad !! i = Some ws ∧ layer_temps p mods (Z.of_nat i) ws = Ok temps ∧ temps_ok p (r (config ad)) temps.

(** The slot [s] holds the weights of the adapter: the first rows of the [A]
    matrices and the first columns of the [B] matrices, as many as its rank;
    zeros for a module that the adapter does not change. *)
Definition holds_layer p (mods : lora_modules_t) (ad : LoRAAdapter W) (s i : nat) : Prop :=
  ∃ ws temps, layers ad !! i = Some ws ∧ layer_temps p mods (Z.of_nat i) ws = Ok temps ∧
    ∀ name, name ∈ tm p → ∃ a b, slot_at (A_buffer p) name i s = Some a ∧ slot_at (B_buffer p) name i s = Some b ∧
      let rank := r (config ad) in
      (t_rows a).[: rank * get_stacked_multiply name] = weight_rows (rank * get_stacked_multiply name) (in_dim name) (temps.1 !! name) ∧
      (py_take rank <$> t_rows b) = weight_rows (out_dim name) rank (temps.2 !! name).
Definition holds p mods ad (s : nat) : Prop := ∀ i, (i < layers_of p)%nat → holds_layer p mods ad s i.

(** The base model: the [A] matrices are zero. *)
Definition holds_base p (s : nat) : Prop :=
  ∀ name i, name ∈ tm p → (i < layers_of p)%nat →
    ∃ a, slot_at (A_buffer p) name i s = Some a ∧ t_rows a = zeros (max_lora_rank p * get_stacked_multiply name) (in_dim name).

Lemma stacked_pos name : 1 ≤ get_stacked_multiply name ≤ 3.
Proof using. unfold get_stacked_multiply. repeat case_bool_decide; lia. Qed.

Lemma NoDup_set_iter {A} `{Countable A} (X : gset A) : NoDup (set_iter X).
Proof using H. rewrite set_iter_perm. apply NoDup_elements. Qed.
Lemma elem_of_set_iter {A} `{Countable A} (X : gset A) x : x ∈ set_iter X ↔ x ∈ X.
Proof using H. by rewrite set_iter_perm, elem_of_elements. Qed.

Lemma arange_seq n : arange 0 n = Z.of_nat <$> seq 0 (Z.to_nat n).
Proof using. unfold arange, seqZ. rewrite Z.sub_0_r. apply list_fmap_ext. intros i x _. lia. Qed.

(** A loop over the modules keeps the shapes and the other slots. *)
Lemma store_shaped f (Q : str → tensor → Prop) (R C : str → Z) p i s buf :
  (i < layers_of p)%nat → (s < slots_of p)%nat → shaped (tm p) (layers_of p) (slots_of p) R C buf →
  (∀ name t, name ∈ tm p → t_ok (R name) (C name) t → ∃ t', f name t = Ok t' ∧ t_ok (R name) (C name) t' ∧ Q name t') →
  ∃ buf', store_slots f (set_iter (tm p)) (Z.of_nat i) (Z.of_nat s) buf = Ok buf' ∧
    shaped (tm p) (layers_of p) (slots_of p) R C buf' ∧
    (∀ name, name ∈ tm p → ∃ t', slot_at buf' name i s = Some t' ∧ Q name t') ∧
    (∀ name i' s', (i', s') ≠ (i, s) → slot_at buf' name i' s' = slot_at buf name i' s').
Proof.
  intros Hi Hs Sh Hf.
  destruct (store_slots_ok f (fun name t' => t_ok (R name) (C name) t' ∧ Q name t') i s (set_iter (tm p)) buf) as (buf' & E & Hin & Hout).
  { apply NoDup_set_iter. }
  { intros name Hn%elem_of_set_iter. destruct (Sh name i s Hn Hi Hs) as (t & Ht & Ok1). destruct (Hf name t Hn Ok1) as (t' & ? & ? & ?). by exists t, t'. }
  exists buf'. split; [done|]. split; [|split].
  - intros name i' s' Hn Hi' Hs'. destruct (decide ((i', s') = (i, s))) as [[= -> ->]|Hne].
    + destruct (Hin name) as (t' & ? & ? & _); [by apply elem_of_set_iter|]. eauto.
    + rewrite Hout by auto. by apply Sh.
  - intros name Hn. destruct (Hin name) as (t' & ? & _ & ?); [by apply elem_of_set_iter|]. eauto.
  - intros name i' s' Hne. by apply Hout; left.
Qed.

(** Only the slot [s] of the layers in [js] changes. *)
Definition slots_kept p p' (js : list nat) (s : nat) : Prop :=
  ∀ name i s', i ∉ js ∨ s' ≠ s → slot_at (A_buffer p') name i s' = slot_at (A_buffer p) name i s' ∧
    slot_at (B_buffer p') name i s' = slot_at (B_buffer p) name i s'.

Lemma load_layers_ok mods ad (s : nat) js : ∀ p, pool_shaped p → fits p mods ad → (s < slots_of p)%nat → NoDup js → Forall (fun i => (i < layers_of p)%nat) js →
  ∃ A B, load_layers zero cast ad mods (Z.of_nat s) (Z.of_nat <$> js) p = Ok (set_buffers A B p) ∧
    pool_shaped (set_buffers A B p) ∧ Forall (holds_layer (set_buffers A B p) mods ad s) js ∧ slots_kept p (set_buffers A B p) js s.
Proof.
  induction js as [|i js IH]; intros p Sh Hfit Hs Hnd Hlt.
  { exists (A_buffer p), (B_buffer p). destruct p. split; [done|]. split; [done|]. split; [done|]. by intros name i s' _. }
  apply NoDup_cons in Hnd as [Hni Hnd]. apply Forall_cons in Hlt as [Hi Hlt]. csimpl.
  destruct (proj2 Hfit i Hi) as (ws & [tA tB] & Hws & Htemps & Hok). rewrite (py_index_ok _ _ ws) by (rewrite ?Nat2Z.id; done || lia).
  cbn [mbind pyres_bind]. rewrite Htemps. cbn [mbind pyres_bind]. destruct (proj1 Hfit) as [Hr0 Hr1].
  destruct (store_shaped (fun name => load_rows zero cast (r (config ad) * get_stacked_multiply name) (tA !! name))
    (fun name t => (t_rows t).[: r (config ad) * get_stacked_multiply name] = weight_rows (r (config ad) * get_stacked_multiply name) (in_dim name) (tA !! name))
    _ _ p i s (A_buffer p) Hi Hs (A_shaped p Sh)) as (A & EA & ShA & QA & KA).
  { intros name t Hn Ht. pose proof (stacked_pos name). apply load_rows_ok; [nia|by apply (dims_nonneg p Sh)|done|by apply (Hok name Hn)]. }
  destruct (store_shaped (fun name => load_cols zero cast (r (config ad)) (tB !! name))
    (fun name t => (py_take (r (config ad)) <$> t_rows t) = weight_rows (out_dim name) (r (config ad)) (tB !! name))
    _ _ p i s (B_buffer p) Hi Hs (B_shaped p Sh)) as (B & EB & ShB & QB & KB).
  { intros name t Hn Ht. apply load_cols_ok; [lia|by apply (dims_nonneg p Sh)|done|by apply (Hok name Hn)]. }
  unfold store_A, store_B. rewrite EA. cbn [mbind pyres_bind]. rewrite EB. cbn [mbind pyres_bind].
  destruct (IH (set_buffers A B p)) as (A2 & B2 & E2 & Sh2 & H2 & K2); [by destruct Sh|exact Hfit|done..|].
  exists A2, B2. split; [exact E2|]. split; [exact Sh2|]. split; [constructor; [|exact H2]|].
  - exists ws, (tA, tB). split; [done|]. split; [exact Htemps|]. intros name Hn. destruct (QA name Hn) as (a & Ha & Qa), (QB name Hn) as (b & Hb & Qb).
    exists a, b. destruct (K2 name i s) as [E3 E4]; [by left|]. split; [exact (eq_trans E3 Ha)|]. split; [exact (eq_trans E4 Hb)|]. done.
  - intros name i' s' Hne. destruct (K2 name i' s') as [E3 E4]; [set_solver|]. split.
    + etransitivity; [exact E3|]. apply KA. set_solver.
    + etransitivity; [exact E4|]. apply KB. set_solver.
Qed.

Lemma zero_layers_ok p s js : pool_shaped p → (s < slots_of p)%nat → Forall (fun i => (i < layers_of p)%nat) js → NoDup js → ∀ A0,
  shaped (tm p) (layers_of p) (slots_of p) (fun name => max_lora_rank p * get_stacked_multiply name) in_dim A0 →
  ∃ A, foldl (fun acc i => A ← acc; zero_A zero (set_iter (tm p)) i (Z.of_nat s) A) (mret A0) (Z.of_nat <$> js) = Ok A ∧
    shaped (tm p) (layers_of p) (slots_of p) (fun name => max_lora_rank p * get_stacked_multiply name) in_dim A ∧
    (∀ name i, name ∈ tm p → i ∈ js → ∃ a, slot_at A name i s = Some a ∧ t_rows a = zeros (max_lora_rank p * get_stacked_multiply name) (in_dim name)) ∧
    (∀ name i s', i ∉ js ∨ s' ≠ s → slot_at A name i s' = slot_at A0 name i s').
Proof.
  intros Sh Hs. induction js as [|i js IH]; intros Hlt Hnd A0 Sh0; [exists A0; set_solver|]. apply NoDup_cons in Hnd as [Hni Hnd].
  apply Forall_cons in Hlt as [Hi Hlt]. csimpl. cbn [mbind pyres_bind mret pyres_ret].
  destruct (store_shaped (fun _ t => mret (zero_like zero t)) (fun name t => t_rows t = zeros (max_lora_rank p * get_stacked_multiply name) (in_dim name))
    _ _ p i s A0 Hi Hs Sh0) as (A1 & E1 & Sh1 & Q1 & K1).
  { intros name t Hn (Hl & Hc & Hf). eexists. split; [done|]. unfold t_ok. simpl. rewrite (zeros_fmap _ _ _ Hl Hf). split; [|done].
    split; [|split; [done|apply Forall_zeros, (dims_nonneg p Sh name Hn)]]. unfold zeros, len. rewrite length_replicate. len_pos. lia. }
  unfold zero_A. rewrite E1. destruct (IH Hlt Hnd A1 Sh1) as (A2 & E2 & Sh2 & Q2 & K2). exists A2. split; [exact E2|]. split; [done|]. split.
  - intros name i' Hn [->|Hi']%elem_of_cons; [|by apply Q2]. destruct (Q1 name Hn) as (a & Ha & Qa). exists a. split; [|done]. rewrite K2; [done|by left].
  - intros name i' s' Hne. rewrite K2, K1 by set_solver. done.
Qed.

(** Loading changes one slot, and leaves there what the batch needs. *)
Lemma load_ok p mods u (ad : option (LoRAAdapter W)) s : pool_shaped p → (s < slots_of p)%nat →
  (match u with None => True | Some _ => match ad with Some ad => fits p mods ad | None => False end end) →
  ∃ A B, load_lora_weight_to_buffer zero cast u (Z.of_nat s) ad mods p = Ok (set_buffers A B p) ∧ pool_shaped (set_buffers A B p) ∧
    (match u with None => holds_base (set_buffers A B p) s | Some _ => match ad with Some ad => holds (set_buffers A B p) mods ad s | None => False end end) ∧
    (∀ name i s', s' ≠ s → slot_at A name i s' = slot_at (A_buffer p) name i s' ∧ slot_at B name i s' = slot_at (B_buffer p) name i s').
Proof.
  intros Sh Hs Hu. unfold load_lora_weight_to_buffer. rewrite arange_seq.
  assert (Forall (fun i => (i < layers_of p)%nat) (seq 0 (layers_of p))) as Hlt by (apply Forall_forall; intros i ?%elem_of_seq; lia).
  pose proof (NoDup_seq 0 (layers_of p)) as Hnd. destruct u as [u|].
  - destruct ad as [ad|]; [|done]. destruct (load_layers_ok mods ad s (seq 0 (layers_of p)) p) as (A & B & E & Sh' & Hh & K); [done..|].
    exists A, B. split; [done|]. split; [done|]. split.
    + intros i Hi. apply (proj1 (Forall_forall _ _) Hh). apply elem_of_seq. simpl in Hi. lia.
    + intros name i s' Hne. apply (K name i s'). by right.
  - destruct (zero_layers_ok p s (seq 0 (layers_of p)) Sh Hs Hlt Hnd (A_buffer p) (A_shaped p Sh)) as (A & E & Sh' & Q & K).
    rewrite E. cbn [mbind pyres_bind]. exists A, (B_buffer p). split; [done|]. split; [by destruct Sh|]. split.
    + intros name i Hn Hi. apply Q; [done|]. apply elem_of_seq. simpl in Hi. lia.
    + intros name i s' Hne. rewrite K by (by right). done.
Qed.

(** ** Choosing a slot *)

(** The pool with new buffers and new maps. *)
Definition changed A B ids us p : pool := set_slots ids us (set_buffers A B p).

(** What depends only on one slot is kept when the slot is. *)
Definition slot_kept A B p (s : nat) : Prop :=
  ∀ name i, slot_at A name i s = slot_at (A_buffer p) name i s ∧ slot_at B name i s = slot_at (B_buffer p) name i s.

Lemma holds_kept A B ids us p mods ad s : slot_kept A B p s → holds p mods ad s → holds (changed A B ids us p) mods ad s.
Proof.
  intros K Hh i Hi. destruct (Hh i Hi) as (ws & temps & Hw & Ht & Hn). exists ws, temps. split; [done|]. split; [exact Ht|]. intros name Hname.
  destruct (Hn name Hname) as (a & b & Ha & Hb & Hab). exists a, b. destruct (K name i) as [EA EB].
  split; [exact (eq_trans EA Ha)|]. split; [exact (eq_trans EB Hb)|exact Hab].
Qed.
Lemma holds_base_kept A B ids us p s : slot_kept A B p s → holds_base p s → holds_base (changed A B ids us p) s.
Proof. intros K Hh name i Hn Hi. destruct (Hh name i Hn Hi) as (a & Ha & Hz). exists a. split; [|done]. exact (eq_trans (proj1 (K name i)) Ha). Qed.
Lemma shaped_changed A B ids us p : pool_shaped (set_buffers A B p) → pool_shaped (changed A B ids us p).
Proof. by intros []. Qed.

(** The two maps are inverse. *)
Record maps_ok (max : Z) (ids : gmap (option string) Z) (us : list slot) : Prop := {
  uids_len : len us = max;
  maps_inverse u s : ids !! u = Some s ↔ 0 ≤ s ∧ us !! Z.to_nat s = Some (Uid u);
}.

Lemma maps_ok_evict max ids us u s : maps_ok max ids us → 0 ≤ s → us !! Z.to_nat s = Some (Uid u) → maps_ok max (delete u ids) (set_at s EmptySlot us).
Proof using.
  clear in_dim out_dim zero cast W.
  intros [Hl Hi] Hs Hu. assert (ids !! u = Some s) as Hus by (by apply Hi). split; [unfold set_at, len; by rewrite length_insert|]. intros v t. unfold set_at.
  rewrite list_lookup_insert_Some. destruct (decide (v = u)) as [->|Hne].
  - rewrite lookup_delete_eq. split; [done|]. intros [Ht [(_ & [=] & _)|(Hne & Hv)]]. assert (ids !! u = Some t) as Hut by (by apply Hi).
    rewrite Hus in Hut. by injection Hut as ->.
  - rewrite lookup_delete_ne, Hi by done. split; [|naive_solver]. intros [Ht Hv]. split; [done|]. right. split; [|done].
    intros E. rewrite E, Hv in Hu. by injection Hu as ->.
Qed.

Lemma maps_ok_place max ids us u s : maps_ok max ids us → 0 ≤ s → us !! Z.to_nat s = Some EmptySlot → ids !! u = None →
  maps_ok max (<[u := s]> ids) (set_at s (Uid u) us).
Proof using.
  clear in_dim out_dim zero cast W.
  intros [Hl Hi] Hs Hu Hn. split; [unfold set_at, len; by rewrite length_insert|]. intros v t. unfold set_at. rewrite list_lookup_insert_Some.
  assert (Z.to_nat s < length us)%nat by (by eapply lookup_lt_Some).
  destruct (decide (v = u)) as [->|Hne].
  - rewrite lookup_insert_eq. split; [intros [= ->]; auto|]. intros [Ht [(E & _ & _)|(_ & Hv)]]; [f_equal; lia|].
    assert (ids !! u = Some t) by (by apply Hi). congruence.
  - rewrite lookup_insert_ne, Hi by done. split; [|naive_solver]. intros [Ht Hv]. split; [done|]. right. split; [|done]. intros E. congruence.
Qed.

Lemma find_empty_ok p bs : Forall (fun i => 0 ≤ i < len (buffer_id_to_uid p)) bs →
  ∃ e, find_empty bs p = Ok e ∧ match e with
    | Some b => b ∈ bs ∧ buffer_id_to_uid p !! Z.to_nat b = Some EmptySlot
    | None => ∀ b, b ∈ bs → ∃ u, buffer_id_to_uid p !! Z.to_nat b = Some (Uid u)
    end.
Proof.
  induction 1 as [|b bs Hb _ (e & E & He)]; [exists None; set_solver|]. cbn [find_empty]. destruct (lookup_lt_is_Some_2 (buffer_id_to_uid p) (Z.to_nat b)) as [x Hx].
  { unfold len in Hb. lia. } rewrite (py_index_ok _ _ x) by (done || lia). cbn [mbind pyres_bind]. destruct x as [|u].
  - rewrite bool_decide_true by done. exists (Some b). set_solver.
  - rewrite bool_decide_false by done. exists e. split; [done|]. destruct e as [b'|]; [set_solver|]. intros b' [->|?]%elem_of_cons; eauto.
Qed.

(** A slot that holds what the batch does not need and is not pinned is evicted, if there is one. *)
Lemma evict_slot_ok p (cur : gset (option string)) refs bs : maps_ok (max_loras_per_batch p) (uid_to_buffer_id p) (buffer_id_to_uid p) →
  (∀ b, b ∈ bs → 0 ≤ b ∧ ∃ u, buffer_id_to_uid p !! Z.to_nat b = Some (Uid u)) →
  (∃ b v, b ∈ bs ∧ buffer_id_to_uid p !! Z.to_nat b = Some (Uid v) ∧ v ∉ cur ∧ is_pinned refs v = false) →
  ∃ b v, evict_slot cur refs bs p = Ok (b, set_slots (delete v (uid_to_buffer_id p)) (set_at b EmptySlot (buffer_id_to_uid p)) p) ∧
    b ∈ bs ∧ buffer_id_to_uid p !! Z.to_nat b = Some (Uid v) ∧ v ∉ cur ∧ is_pinned refs v = false.
Proof.
  intros M. induction bs as [|b bs IH]; intros Hall (b0 & v0 & Hb0 & Hv0 & Hc0 & Hp0); [set_solver|]. cbn [evict_slot].
  destruct (Hall b) as (Hb & u & Hu); [set_solver|]. rewrite (py_index_ok _ _ (Uid u)) by done. cbn [mbind pyres_bind].
  destruct (bool_decide (u ∈ cur) || is_pinned refs u) eqn:Eb.
  - destruct IH as (b' & v & E & Hb' & Hv); [set_solver| |exists b', v; set_solver]. exists b0, v0. split; [|done].
    apply elem_of_cons in Hb0 as [->|]; [|done]. rewrite Hu in Hv0. injection Hv0 as ->. rewrite Hp0, bool_decide_false in Eb by done. done.
  - apply orb_false_iff in Eb as [Hc%bool_decide_eq_false Hp]. assert (uid_to_buffer_id p !! u = Some b) as -> by (by apply (maps_inverse _ _ _ M)).
    exists b, u. set_solver.
Qed.

(** ** Counting *)

Definition pinned_uids (refs : gmap string LoRARef) : gset (option string) :=
  set_map Some (dom (filter (fun kv => pinned kv.2 = Some true) refs)).

Lemma elem_of_pinned_uids refs u : u ∈ pinned_uids refs ↔ is_pinned refs u = true.
Proof using.
  clear in_dim out_dim zero cast W.
  unfold pinned_uids. rewrite elem_of_map. unfold is_pinned. split.
  - intros (k & -> & [x [Hx Hp]%map_lookup_filter_Some]%elem_of_dom). rewrite Hx. simpl in Hp. by rewrite Hp.
  - destruct u as [k|]; [|done]. destruct (refs !! k) as [x|] eqn:E; [|done]. intros Hp. exists k. split; [done|]. apply elem_of_dom. exists x.
    apply map_lookup_filter_Some. split; [done|]. simpl. destruct (pinned x) as [[]|]; naive_solver.
Qed.

(** A batch has room beside the pinned adapters it does not use. *)
Definition room (max : Z) (cur : gset (option string)) (refs : gmap string LoRARef) : Prop :=
  Z.of_nat (size cur) + Z.of_nat (size (pinned_uids refs ∖ cur)) ≤ max.

Definition resident (us : list slot) : list (option string) := omap (fun s => match s with Uid u => Some u | EmptySlot => None end) us.

Lemma resident_NoDup max ids us : maps_ok max ids us → NoDup (resident us).
Proof using.
  clear in_dim out_dim zero cast W.
  intros [_ Hi]. assert (∀ i j u, us !! i = Some (Uid u) → us !! j = Some (Uid u) → i = j) as Inj.
  { intros i j u Ei Ej. assert (ids !! u = Some (Z.of_nat i) ∧ ids !! u = Some (Z.of_nat j)) as [E1 E2]; [|rewrite E1 in E2; injection E2; lia].
    split; apply Hi; rewrite Nat2Z.id; (split; [lia|done]). }
  clear Hi. induction us as [|x us IH]; [constructor|].
  assert (NoDup (resident us)) as IH'. { apply IH. intros i j u Ei Ej. by assert (S i = S j) as [= ->] by (by apply (Inj (S i) (S j) u)). }
  destruct x as [|u]; [done|]. unfold resident in *. csimpl. constructor; [|done]. intros (y & Hy & Ey)%list_elem_of_omap. destruct y as [|v]; [done|].
  injection Ey as ->. apply list_elem_of_lookup in Hy as [j Hj]. by pose proof (Inj 0%nat (S j) u eq_refl Hj).
Qed.

Lemma resident_full us : (∀ x, x ∈ us → ∃ u, x = Uid u) → length (resident us) = length us.
Proof using.
  clear in_dim out_dim zero cast W.
  induction us as [|x us IH]; intros Hx; [done|]. destruct (Hx x) as [u ->]; [set_solver|]. unfold resident in *. csimpl. rewrite IH; [done|]. set_solver.
Qed.

Lemma room_evictable (max : Z) (ids : gmap (option string) Z) (us : list slot) (cur : gset (option string)) refs u : maps_ok max ids us → u ∈ cur → ids !! u = None → room max cur refs →
  (∀ x, x ∈ us → ∃ v, x = Uid v) → ∃ b v, 0 ≤ b < max ∧ us !! Z.to_nat b = Some (Uid v) ∧ v ∉ cur ∧ is_pinned refs v = false.
Proof using.
  clear in_dim out_dim zero cast W.
  intros M Hu Hn Hroom Hfull.
  destruct (decide (Exists (fun v => v ∉ cur ∧ is_pinned refs v = false) (resident us))) as [(v & Hv & Hc)%Exists_exists|Hno].
  - apply list_elem_of_omap in Hv as ([|w] & Hw & Ew); [done|]. injection Ew as ->. apply list_elem_of_lookup in Hw as [j Hj].
    exists (Z.of_nat j), v. rewrite Nat2Z.id. split; [|done]. pose proof (lookup_lt_Some _ _ _ Hj). pose proof (uids_len _ _ _ M). unfold len in *. lia.
  - exfalso. assert (list_to_set (resident us) ⊆@{gset (option string)} (cur ∖ {[u]}) ∪ (pinned_uids refs ∖ cur)) as Hsub.
    { intros v [x [Hx Ex]]%elem_of_list_to_set%list_elem_of_omap. destruct x as [|w]; [done|]. injection Ex as ->.
      apply elem_of_union. rewrite !elem_of_difference, elem_of_pinned_uids, elem_of_singleton. destruct (decide (v ∈ cur)) as [Hc|Hc].
      - left. split; [done|]. intros ->. apply list_elem_of_lookup in Hx as [j Hj]. enough (ids !! u = Some (Z.of_nat j)) by congruence.
        apply (maps_inverse _ _ _ M). rewrite Nat2Z.id. split; [lia|done].
      - right. split; [|done]. apply not_false_is_true. intros Hp. apply Hno, Exists_exists. exists v. split; [|done].
        apply list_elem_of_omap. by exists (Uid v). }
    apply subseteq_size in Hsub. rewrite size_list_to_set in Hsub by (by eapply resident_NoDup). rewrite (resident_full _ Hfull) in Hsub.
    rewrite size_union_alt in Hsub. rewrite (size_difference cur {[u]}), size_singleton in Hsub by set_solver.
    pose proof (subseteq_size ((pinned_uids refs ∖ cur) ∖ (cur ∖ {[u]})) (pinned_uids refs ∖ cur) ltac:(set_solver)).
    assert (size cur ≠ 0%nat) by (rewrite size_non_empty_iff; set_solver). pose proof (uids_len _ _ _ M). unfold room, len in *. lia.
Qed.

(** ** Preparing a batch *)

Record pool_ok p : Prop := {
  ok_shaped : pool_shaped p;
  ok_maps : maps_ok (max_loras_per_batch p) (uid_to_buffer_id p) (buffer_id_to_uid p);
}.

(** Every slot holds the weights of the adapter it is said to hold. *)
Definition contents p mods (adapters : gmap string (LoRAAdapter W)) : Prop :=
  ∀ u s, uid_to_buffer_id p !! u = Some s →
    match u with None => holds_base p (Z.to_nat s) | Some k => ∀ ad, adapters !! k = Some ad → holds p mods ad (Z.to_nat s) end.

(** What a batch finds in its slot stays there while the batch is prepared,
    and so does a pinned adapter. *)
Definition kept p p' (cur : gset (option string)) (refs : gmap string LoRARef) : Prop :=
  ∀ v s, uid_to_buffer_id p !! v = Some s → v ∈ cur ∨ is_pinned refs v = true → uid_to_buffer_id p' !! v = Some s.

(** Only the adapters of the batch come to the pool. *)
Definition entered p (ids : gmap (option string) Z) (cur : gset (option string)) : Prop := ∀ v, is_Some (ids !! v) → v ∈ cur ∨ is_Some (uid_to_buffer_id p !! v).

Lemma get_available_ok p (cur : gset (option string)) refs u : pool_ok p → u ∈ cur → uid_to_buffer_id p !! u = None → room (max_loras_per_batch p) cur refs →
  ∃ b ids us, get_available_buffer_slot cur refs p = Ok (Z.of_nat b, set_slots ids us p) ∧ (b < slots_of p)%nat ∧
    maps_ok (max_loras_per_batch p) ids us ∧ us !! b = Some EmptySlot ∧ ids !! u = None ∧ ids ⊆ uid_to_buffer_id p ∧ kept p (set_slots ids us p) cur refs.
Proof.
  intros [_ M] Hu Hn Hroom. unfold get_available_buffer_slot. pose proof (uids_len _ _ _ M) as Hl.
  destruct (find_empty_ok p (arange 0 (max_loras_per_batch p))) as (e & -> & He). { apply Forall_forall. intros i ?%elem_of_arange. lia. }
  cbn [mbind pyres_bind]. destruct e as [b|].
  - destruct He as [Hb%elem_of_arange Eb]. exists (Z.to_nat b), (uid_to_buffer_id p), (buffer_id_to_uid p). rewrite Z2Nat.id by lia.
    replace (set_slots _ _ p) with p by (by destruct p). split_and!; try done; [lia|by intros v s].
  - assert (∀ b, b ∈ arange 0 (max_loras_per_batch p) → 0 ≤ b ∧ ∃ v, buffer_id_to_uid p !! Z.to_nat b = Some (Uid v)) as Hall.
    { intros b Hb. split; [apply elem_of_arange in Hb; lia|by apply He]. }
    destruct (room_evictable _ _ _ cur refs u M Hu Hn Hroom) as (b0 & v0 & Hb0 & Hv0 & Hx0).
    { intros x [j Hj]%list_elem_of_lookup. destruct (He (Z.of_nat j)) as [v Hv].
      - apply elem_of_arange. apply lookup_lt_Some in Hj. unfold len in Hl. lia.
      - rewrite Nat2Z.id, Hj in Hv. injection Hv as ->. eauto. }
    destruct (evict_slot_ok p cur refs _ M Hall) as (b & v & -> & Hb%elem_of_arange & Hv & Hc & Hp).
    { exists b0, v0. split; [by apply elem_of_arange|done]. }
    exists (Z.to_nat b), (delete v (uid_to_buffer_id p)), (set_at b EmptySlot (buffer_id_to_uid p)). rewrite Z2Nat.id by lia.
    split; [done|]. split; [lia|]. split; [apply maps_ok_evict; [done|lia|done]|]. split.
    { unfold set_at. rewrite list_lookup_insert_eq; [done|]. by eapply lookup_lt_Some. }
    split; [rewrite lookup_delete_ne; [done|]; intros ->; done|]. split; [apply delete_subseteq|].
    intros w s Hw Hkeep. simpl. rewrite lookup_delete_ne; [done|]. intros ->. destruct Hkeep as [?|?]; congruence.
Qed.

Section batch.
Context (cur : gset (option string)) (mods : lora_modules_t) (adapters : gmap string (LoRAAdapter W)) (refs : gmap string LoRARef).

(** The adapter can be loaded if it is not in the pool. *)
Definition available p (u : option string) : Prop :=
  uid_to_buffer_id p !! u = None → match u with Some k => ∃ ad, adapters !! k = Some ad ∧ fits p mods ad | None => True end.

Lemma prepare_one_ok p u : pool_ok p → contents p mods adapters → room (max_loras_per_batch p) cur refs → u ∈ cur → available p u →
  ∃ A B ids us, let p' := changed A B ids us p in
    prepare_one zero cast cur adapters mods refs u p = Ok p' ∧ pool_ok p' ∧ contents p' mods adapters ∧ is_Some (ids !! u) ∧ kept p p' cur refs ∧ entered p ids cur.
Proof.
  intros [Sh M] Hc Hroom Hu Hav. unfold prepare_one. destruct (uid_to_buffer_id p !! u) as [s|] eqn:Eu.
  { exists (A_buffer p), (B_buffer p), (uid_to_buffer_id p), (buffer_id_to_uid p). replace (changed _ _ _ _ p) with p by (by destruct p).
    split_and!; try done; eauto; [by intros v t|by right]. }
  destruct (get_available_ok p cur refs u) as (b & ids & us & -> & Hb & M1 & Hempty & Hn1 & Hsub & K1); [done..|]. cbn [mbind pyres_bind].
  destruct (load_ok (set_slots ids us p) mods u (u ≫= fun k => adapters !! k) b) as (A & B & -> & Sh2 & Hh & Kb).
  { by destruct Sh. } { done. } { specialize (Hav Eu). destruct u as [k|]; [|done]. destruct Hav as (ad & Had & Hf). simpl. by rewrite Had. }
  cbn [mbind pyres_bind]. exists A, B, (<[u := Z.of_nat b]> ids), (set_at (Z.of_nat b) (Uid u) us). cbv zeta. split; [done|]. split; [split|].
  - by destruct Sh2.
  - apply maps_ok_place; [done|lia|by rewrite Nat2Z.id|done].
  - split; [|split; [by rewrite lookup_insert_eq|]].
    + intros v s Hv. simpl in Hv. destruct (decide (v = u)) as [->|Hne].
      * rewrite lookup_insert_eq in Hv. injection Hv as <-. rewrite Nat2Z.id. destruct u as [k|]; [|exact Hh]. intros ad Had. simpl in Hh. rewrite Had in Hh. exact Hh.
      * rewrite lookup_insert_ne in Hv by done. assert (Z.to_nat s ≠ b) as Hsb.
        { intros <-. apply (maps_inverse _ _ _ M1) in Hv as [_ Hv]. congruence. }
        pose proof (lookup_weaken _ _ _ _ Hv Hsub) as Hv0. specialize (Hc v s Hv0).
        assert (slot_kept A B p (Z.to_nat s)) as Ks by (intros name i; by apply Kb). destruct v as [k|]; [|by apply holds_base_kept]. intros ad Had. by apply holds_kept, Hc.
    + split.
      * intros v s Hv Hk. simpl. specialize (K1 v s Hv Hk). simpl in K1. rewrite lookup_insert_ne; [done|]. congruence.
      * intros v [s [(-> & _)|(_ & Hv)]%lookup_insert_Some]; [by left|]. right. exists s. by eapply lookup_weaken.
Qed.

(** A batch that has room is prepared: every adapter of it gets a slot with
    its weights, and no pinned adapter is evicted. *)
Lemma pool_prepare_ok p : pool_ok p → contents p mods adapters → room (max_loras_per_batch p) cur refs → (∀ u, u ∈ cur → available p u) →
  ∃ A B ids us, let p' := changed A B ids us p in
    prepare_lora_batch zero cast cur adapters mods refs p = Ok p' ∧ pool_ok p' ∧ contents p' mods adapters ∧
    (∀ u, u ∈ cur → is_Some (ids !! u)) ∧ kept p p' cur refs ∧ entered p ids cur.
Proof.
  intros Hok Hc Hroom Hav. unfold prepare_lora_batch.
  assert (∀ l, (∀ u, u ∈ l → u ∈ cur) → ∀ q, pool_ok q → contents q mods adapters → room (max_loras_per_batch q) cur refs → (∀ u, u ∈ cur → available q u) →
    ∃ A B ids us, let p' := changed A B ids us q in
      foldl (fun acc u => p ← acc; prepare_one zero cast cur adapters mods refs u p) (mret q) l = Ok p' ∧ pool_ok p' ∧ contents p' mods adapters ∧
      (∀ u, u ∈ l → is_Some (ids !! u)) ∧ kept q p' cur refs ∧ entered q ids cur) as Hl.
  { clear p Hok Hc Hroom Hav. induction l as [|u l IH]; intros Hin q Hok Hc Hroom Hav.
    { exists (A_buffer q), (B_buffer q), (uid_to_buffer_id q), (buffer_id_to_uid q). replace (changed _ _ _ _ q) with q by (by destruct q).
      split_and!; try done; [set_solver|by intros v t|by right]. }
    destruct (prepare_one_ok q u) as (A & B & ids & us & E & Hok1 & Hc1 & Hu1 & K1 & N1); [done|done|done|apply Hin; set_solver|apply Hav, Hin; set_solver|].
    cbn [foldl mbind pyres_bind mret pyres_ret]. rewrite E.
    destruct (IH ltac:(set_solver) (changed A B ids us q) Hok1 Hc1 Hroom) as (A2 & B2 & ids2 & us2 & E2 & Hok2 & Hc2 & Hu2 & K2 & N2).
    { intros v Hv Hnv. apply (Hav v Hv). destruct (uid_to_buffer_id q !! v) as [s|] eqn:Ev; [|done]. by rewrite (K1 v s Ev (or_introl Hv)) in Hnv. }
    exists A2, B2, ids2, us2. split; [exact E2|]. split; [exact Hok2|]. split; [exact Hc2|]. split.
    - intros v [->|Hv]%elem_of_cons; [|by apply Hu2]. destruct Hu1 as [s Hs]. exists s. apply (K2 u s Hs). left. apply Hin. set_solver.
    - split; [intros v s Hv Hk; exact (K2 v s (K1 v s Hv Hk) Hk)|]. intros v Hv. destruct (N2 v Hv) as [?|Hv1]; [by left|]. exact (N1 v Hv1). }
  destruct (Hl (set_iter cur) (fun u Hu => proj1 (elem_of_set_iter cur u) Hu) p Hok Hc Hroom Hav) as (A & B & ids & us & E & Hok' & Hc' & Hu & K & N).
  exists A, B, ids, us. split_and!; try done. intros u Hu'. apply Hu. by apply elem_of_set_iter.
Qed.
End batch.

(** ** A new pool *)

Lemma torch_empty_ok (fill : Z → Z → Z → W) n rows cols : 0 ≤ n → 0 ≤ rows → 0 ≤ cols →
  ∃ l, torch_empty fill (n, rows, cols) = Ok l ∧ length l = Z.to_nat n ∧ Forall (t_ok rows cols) l.
Proof.
  intros Hn Hr Hc. unfold torch_empty. rewrite !(proj2 (Z.ltb_ge _ 0)) by done. eexists. split; [done|].
  rewrite length_fmap. unfold arange at 1. rewrite length_seqZ. split; [lia|]. apply Forall_fmap, Forall_forall. intros s _. unfold t_ok. simpl. rewrite len_fmap, len_arange.
  split; [lia|]. split; [done|]. apply Forall_fmap, Forall_forall. intros i _. simpl. rewrite len_fmap, len_arange. lia.
Qed.

Lemma init_buffer_ok fill shape_fn p (R C : str → Z) names : ∀ buf, NoDup names → 0 ≤ max_loras_per_batch p →
  (∀ name, name ∈ names → shape_fn name (max_lora_rank p) = Ok (max_loras_per_batch p, R name, C name) ∧ 0 ≤ R name ∧ 0 ≤ C name) →
  ∃ buf', init_buffer fill shape_fn p names buf = Ok buf' ∧ (∀ name, name ∉ names → buf' !! name = buf !! name) ∧
    ∀ name i s, name ∈ names → (i < layers_of p)%nat → (s < slots_of p)%nat → ∃ t, slot_at buf' name i s = Some t ∧ t_ok (R name) (C name) t.
Proof.
  induction names as [|name names IH]; intros buf Hnd Hmax Hsh; [exists buf; set_solver|]. apply NoDup_cons in Hnd as [Hni Hnd]. cbn [init_buffer].
  destruct (Hsh name) as (-> & HR & HC); [set_solver|]. cbn [mbind pyres_bind].
  destruct (mapM_ok (fun i => torch_empty (fill name i) (max_loras_per_batch p, R name, C name)) (fun l => length l = slots_of p ∧ Forall (t_ok (R name) (C name)) l)
    (arange 0 (num_layer p))) as (ls & -> & Hls & Hlen). { apply Forall_forall. intros i _. by apply torch_empty_ok. }
  cbn [mbind pyres_bind]. destruct (IH (<[name := ls]> buf) Hnd Hmax) as (buf' & -> & Hout & Hin); [set_solver|]. exists buf'. split; [done|]. split.
  - intros n Hn. rewrite Hout, lookup_insert_ne by set_solver. done.
  - intros n i s [->|Hn]%elem_of_cons Hi Hs; [|by apply Hin]. unfold slot_at. rewrite Hout, lookup_insert_eq by done. simpl.
    unfold arange in Hlen. rewrite length_seqZ, Z.sub_0_r in Hlen. destruct (lookup_lt_is_Some_2 ls i) as [l El]; [lia|]. rewrite El. simpl.
    pose proof (proj1 (Forall_lookup _ _) Hls i l El) as [Hl Ht]. destruct (lookup_lt_is_Some_2 l s) as [t Et]; [lia|].
    exists t. split; [done|]. by apply (proj1 (Forall_lookup _ _) Ht s).
Qed.

(** A new pool has the shapes of the modules and is empty. *)
Lemma pool_init_ok (fill : bool → str → Z → Z → Z → Z → W) (own : option (str → pyres (Z * Z))) (cfg : hf_config) (max tps tpr rank : Z) (modules : gset str) : 0 ≤ max → 0 ≤ rank →
  let p0 := mkPool cfg (num_hidden_layers cfg) max tps tpr rank modules ∅ ∅ ∅ (replicate (Z.to_nat max) EmptySlot) : pool in
  (∀ name, name ∈ modules → get_lora_A_shape own p0 name rank = Ok (max, rank * get_stacked_multiply name, in_dim name) ∧
    get_lora_B_shape own p0 name rank = Ok (max, out_dim name, rank) ∧ 0 ≤ in_dim name ∧ 0 ≤ out_dim name) →
  ∃ A B, LoRAMemoryPool_init fill own cfg max tps tpr rank modules = Ok (set_buffers A B p0) ∧ pool_ok (set_buffers A B p0) ∧
    ∀ mods adapters, contents (set_buffers A B p0) mods adapters.
Proof.
  intros Hmax Hrank p0 Hsh. unfold LoRAMemoryPool_init, init_buffers. fold p0.
  destruct (init_buffer_ok (fill true) (get_lora_A_shape own p0) p0 (fun name => rank * get_stacked_multiply name) in_dim (set_iter modules) ∅)
    as (A & EA & _ & HA); [apply NoDup_set_iter|done| |].
  { intros name Hn%elem_of_set_iter. destruct (Hsh name Hn) as (E & _ & Hi & _). split; [exact E|]. pose proof (stacked_pos name). split; [nia|done]. }
  destruct (init_buffer_ok (fill false) (get_lora_B_shape own p0) p0 out_dim (fun _ => rank) (set_iter modules) ∅) as (B & EB & _ & HB); [apply NoDup_set_iter|done| |].
  { intros name Hn%elem_of_set_iter. destruct (Hsh name Hn) as (_ & E & _ & Ho). done. }
  change (pool_target_modules p0) with modules. change (A_buffer p0) with (∅ : buffers). change (B_buffer p0) with (∅ : buffers).
  rewrite EA. cbn [mbind pyres_bind]. rewrite EB. cbn [mbind pyres_bind]. exists A, B. split; [done|]. split; [split; [split|split]|].
  - intros name Hn. by destruct (Hsh name Hn) as (_ & _ & ? & ?).
  - intros name i s Hn. apply HA. by apply elem_of_set_iter.
  - intros name i s Hn. apply HB. by apply elem_of_set_iter.
  - simpl. unfold len. rewrite length_replicate. lia.
  - intros u s. simpl. rewrite lookup_empty, lookup_replicate. naive_solver.
  - intros mods adapters u s. simpl. by rewrite lookup_empty.
Qed.

End pool.
