(* ===== verification/LoraShards.v ===== *)
(** * Tensor-parallel shards of LoRA weights

    With tensor parallelism every rank keeps a part of the [B] matrix of
    [qkv_proj] ([QKVParallelLinearWithLoRA] of [srt/lora/layers.py]): the parts
    of the ranks have the shape of the buffers of the pool and make up the
    matrix, when the ranks share the key-value heads evenly. *)

From S2P Require Import Prelude PyString Eplb EplbProofs ExpertLocation LoraPool LoraPoolProofs.
Open Scope Z_scope.

(** ** Pieces of a list *)

(** The [n] pieces of length [s]. *)
Definition pieces {A} (s n : nat) (l : list A) : list (list A) := (fun i => take s (drop (i * s) l)) <$> seq 0 n.

Lemma concat_pieces {A} s n (l : list A) : length l = (n * s)%nat → concat (pieces s n l) = l.
Proof.
  revert l. unfold pieces. induction n as [|n IH]; intros l Hl; [by destruct l|]. cbn [seq fmap list_fmap concat]. rewrite Nat.mul_0_l, drop_0.
  rewrite <-fmap_S_seq, <-list_fmap_compose. etransitivity; [|apply (take_drop s)]. f_equal. etransitivity; [|apply IH; rewrite length_drop; lia].
  f_equal. apply list_fmap_ext. intros i x _. unfold compose. rewrite drop_drop. f_equal.
Qed.

Section shards.
Context {W : Type}.
Context (h N K T : Z) (Hh : 0 ≤ h) (HN : 0 ≤ N) (HK : 0 < K) (HT : 0 < T) (HTN : (T | N)) (HTK : (T | K)).
Context (B : tensor W) (HB : t_ok ((N + K * 2) * h) (t_cols B) B).

Abbreviation qn := (N / T * h).
Abbreviation kn := (K / T * h).

Lemma exact_shares : N = T * (N / T) ∧ K = T * (K / T) ∧ 0 ≤ N / T ∧ 0 < K / T.
Proof.
  destruct HTN as [a ->], HTK as [b ->]. rewrite !Z.div_mul by lia. split_and!; nia.
Qed.

Lemma divide_ok a b : 0 < b → (b | a) → divide a b = Ok (a / b).
Proof. intros Hb Hd. unfold divide. rewrite (proj2 (Z.eqb_neq b 0)) by lia. by rewrite (proj2 (Z.eqb_eq (a mod b) 0)) by (by apply Z.mod_divide; [lia|]). Qed.

Lemma qkv_layer_ok : QKVParallelLinear h N K T = Ok (mkQKV qn kn 1 (N * h, K * h, K * h)).
Proof.
  destruct exact_shares as (EN & EK & Hn & Hk). unfold QKVParallelLinear. rewrite (divide_ok N T HT HTN). cbn [mbind pyres_bind].
  replace (N / T * h * T) with (N * h) by (rewrite EN at 1; ring).
  destruct (K <=? T) eqn:Ele.
  - apply Z.leb_le in Ele. assert (K / T = 1) as E1 by nia. rewrite E1 in *. assert (T = K) as HTe by lia. rewrite HTe, (divide_ok K K) by (done || lia). cbn [mbind pyres_bind mret pyres_ret].
    rewrite Z.div_same by lia. do 2 f_equal. f_equal; [f_equal|]; ring.
  - rewrite (divide_ok K T HT HTK). cbn [mbind pyres_bind mret pyres_ret]. do 2 f_equal. replace (K / T * h * T) with (K * h) by (rewrite EK at 1; ring). done.
Qed.

(** The share of a rank of the rows from [off] on. *)
Definition part (i : nat) (off size : Z) : list (list W) := take (Z.to_nat size) (drop (i * Z.to_nat size) (drop (Z.to_nat off) (t_rows B))).
(** The rows of a rank: its share of the queries, of the keys and of the values. *)
Definition shard_rows (i : nat) : list (list W) := part i 0 qn ++ part i (N * h) kn ++ part i (N * h + K * h) kn.

Lemma slice_part off size (i : nat) : 0 ≤ off → 0 ≤ size →
  py_slice (off + size * Z.of_nat i) (off + size * Z.of_nat i + size) (t_rows B) = part i off size.
Proof. intros Ho Hs. unfold part. rewrite py_slice_nonneg by nia. rewrite drop_drop. f_equal; [nia|f_equal; nia]. Qed.

Lemma shard_ok (i : nat) : Z.of_nat i < T → qkv_slice (mkQKV qn kn 1 (N * h, K * h, K * h)) B (Z.of_nat i) = Ok (mkT (t_cols B) (shard_rows i)).
Proof.
  intros Hi. destruct exact_shares as (EN & EK & Hn & Hk). unfold qkv_slice, py_floordiv. cbn [q_proj_shard_size kv_proj_shard_size num_kv_head_replicas output_sizes]. rewrite Z.div_1_r.
  cbn [mbind pyres_bind Z.eqb mret pyres_ret]. unfold t_cat, t_slice_rows. cbn [t_cols t_rows]. rewrite Z.eqb_refl. cbn [mbind pyres_bind mret pyres_ret t_cols t_rows]. rewrite Z.eqb_refl.
  unfold shard_rows. rewrite <-!slice_part by nia. rewrite !Z.add_0_l, !Z.add_assoc, <-app_assoc. done.
Qed.

Lemma part_length off size (i : nat) : 0 ≤ off → 0 ≤ size → Z.of_nat i < T → off + T * size ≤ (N + K * 2) * h →
  length (part i off size) = Z.to_nat size.
Proof. intros Ho Hs Hi Hle. unfold part. destruct HB as (Hl & _). rewrite length_take, !length_drop. unfold len in Hl. nia. Qed.

(** The three shares of a shard. *)
Definition q_share (S : tensor W) : list (list W) := take (Z.to_nat qn) (t_rows S).
Definition k_share (S : tensor W) : list (list W) := take (Z.to_nat kn) (drop (Z.to_nat qn) (t_rows S)).
Definition v_share (S : tensor W) : list (list W) := drop (Z.to_nat kn) (drop (Z.to_nat qn) (t_rows S)).

Lemma shares_of (i : nat) : Z.of_nat i < T → let S := mkT (t_cols B) (shard_rows i) in
  t_ok (qn + kn * 2) (t_cols B) S ∧ q_share S = part i 0 qn ∧ k_share S = part i (N * h) kn ∧ v_share S = part i (N * h + K * h) kn.
Proof.
  intros Hi S. destruct exact_shares as (EN & EK & Hn & Hk).
  assert (length (part i 0 qn) = Z.to_nat qn) as L1 by (apply part_length; nia).
  assert (length (part i (N * h) kn) = Z.to_nat kn) as L2 by (apply part_length; nia).
  assert (length (part i (N * h + K * h) kn) = Z.to_nat kn) as L3 by (apply part_length; nia).
  unfold q_share, k_share, v_share, S, shard_rows. cbn [t_rows]. split_and!.
  - split_and!; [cbn [t_rows]; unfold len; rewrite !length_app, L1, L2, L3; nia|done|]. cbn [t_rows]. destruct HB as (_ & _ & Hf).
    unfold part. rewrite !Forall_app. split_and!; apply Forall_take, Forall_drop, Forall_drop; done.
  - by rewrite <-L1, take_app_length.
  - rewrite <-L1, drop_app_length. by rewrite <-L2, take_app_length.
  - rewrite <-L1, drop_app_length. by rewrite <-L2, drop_app_length.
Qed.

Lemma concat_share (share : tensor W → list (list W)) off size : 0 ≤ off → 0 ≤ size → off + T * size ≤ (N + K * 2) * h →
  (∀ i : nat, Z.of_nat i < T → share (mkT (t_cols B) (shard_rows i)) = part i off size) →
  concat (share <$> ((fun i => mkT (t_cols B) (shard_rows i)) <$> seq 0 (Z.to_nat T))) = take (Z.to_nat (T * size)) (drop (Z.to_nat off) (t_rows B)).
Proof.
  intros Ho Hs Hle Hsh. destruct HB as (Hl & _). assert (Z.to_nat (T * size) = Z.to_nat T * Z.to_nat size)%nat as Em by (apply Z2Nat.inj_mul; lia). rewrite <-(concat_pieces (Z.to_nat size) (Z.to_nat T) (take _ _)).
  2: { rewrite length_take, length_drop. unfold len in Hl. rewrite <-Em. lia. }
  f_equal. unfold pieces. rewrite <-list_fmap_compose. apply list_fmap_ext. intros i x [-> Hi]%lookup_seq. unfold compose. simpl. rewrite Hsh by lia. unfold part.
  rewrite !take_drop_commute, take_take. do 2 f_equal. rewrite Em. pose proof (Nat.mul_le_mono_r (i + 1) (Z.to_nat T) (Z.to_nat size) ltac:(lia)) as Hm. rewrite Nat.mul_add_distr_r, Nat.mul_1_l in Hm. f_equal. lia.
Qed.
Lemma shards_mapM : mapM (qkv_slice (mkQKV qn kn 1 (N * h, K * h, K * h)) B) (arange 0 T) = Ok ((fun i => mkT (t_cols B) (shard_rows i)) <$> seq 0 (Z.to_nat T)).
Proof.
  rewrite arange_seq. assert (Forall (fun i : nat => Z.of_nat i < T) (seq 0 (Z.to_nat T))) as Hf by (apply Forall_forall; intros i [_ ?]%elem_of_seq; lia).
  induction Hf as [|i l Hi _ IH]; [done|]. rewrite !fmap_cons. cbn [mapM]. rewrite shard_ok by done. cbn [mbind pyres_bind]. by rewrite IH.
Qed.

(** C11: when the ranks of a tensor-parallel group share the query and the
    key-value heads evenly, slicing the [B] matrix of [qkv_proj] succeeds on
    every rank, gives each rank a matrix of the shape of its buffer in the
    pool, and loses nothing: the query rows of all ranks, then their key rows,
    then their value rows are the matrix. *)
Theorem lora_qkv_shards :
  ∃ b shards, QKVParallelLinear h N K T = Ok b ∧ mapM (qkv_slice b B) (arange 0 T) = Ok shards ∧
    Forall (t_ok ((N + K * 2) * h / T) (t_cols B)) shards ∧
    concat (q_share <$> shards) ++ concat (k_share <$> shards) ++ concat (v_share <$> shards) = t_rows B ∧
    ∀ p : LoRAMemoryPool W, 1 < tp_size p → tp_size p = T → num_attention_heads (base_hf_config p) = N → N ≠ 0 → num_key_value_heads (base_hf_config p) = K →
      head_dim (base_hf_config p) = Some h → ∀ rank, get_lora_B_shape None p (lit "qkv_proj") rank = Ok (max_loras_per_batch p, (N + K * 2) * h / T, rank).
Proof.
  destruct exact_shares as (EN & EK & Hn & Hk). assert ((N + K * 2) * h / T = qn + kn * 2) as Ew.
  { rewrite EN, EK at 1. replace ((T * (N / T) + T * (K / T) * 2) * h) with ((qn + kn * 2) * T) by ring. apply Z.div_mul. lia. }
  eexists _, _. split; [exact qkv_layer_ok|]. split; [exact shards_mapM|]. rewrite Ew. split; [|split].
  - apply Forall_fmap, Forall_forall. intros i [_ Hi]%elem_of_seq. apply shares_of. lia.
  - rewrite (concat_share q_share 0 qn), (concat_share k_share (N * h) kn), (concat_share v_share (N * h + K * h) kn); try nia.
    2-4: intros i Hi; apply (shares_of i Hi).
    replace (T * qn) with (N * h) by (rewrite EN at 1; ring). replace (T * kn) with (K * h) by (rewrite EK at 1; ring).
    rewrite drop_0. rewrite (Z2Nat.inj_add (N * h)), <-drop_drop by nia. rewrite (take_ge (drop (Z.to_nat (K * h)) _)), !take_drop; [done|].
    rewrite !length_drop. destruct HB as (Hl & _). unfold len in Hl. nia.
  - intros p H1 Ht HNa HN0 HKa Hd rank. unfold get_lora_B_shape, get_hidden_dim, py_floordiv. rewrite HNa, HKa, Hd, (proj2 (Z.eqb_neq N 0)) by done.
    cbn [mbind pyres_bind mret pyres_ret default]. rewrite (bool_decide_true (lit _ = _)) by done. cbn [mbind pyres_bind mret pyres_ret].
    rewrite (proj2 (Z.ltb_lt 1 (tp_size p))) by done. rewrite (bool_decide_true (_ ∉ _)) by (apply (bool_decide_unpack _); vm_compute; done). rewrite Ht. cbn [andb default]. rewrite divide_ok.
    + cbn [mbind pyres_bind mret pyres_ret]. rewrite <-Ew, (Z.mul_comm (N + K * 2) h). reflexivity.
    + done.
    + exists (qn + kn * 2). change (h * (N + K * 2) = (qn + kn * 2) * T). rewrite EN, EK at 1. ring.
Qed.
End shards.

(** Two ranks, two heads of each kind of width 1. *)
Definition small_B : tensor Z := mkT 1 [[1]; [2]; [3]; [4]; [5]; [6]].
Lemma lora_qkv_shards_witness :
  ∃ b shards, QKVParallelLinear 1 2 2 2 = Ok b ∧ mapM (qkv_slice b small_B) (arange 0 2) = Ok shards ∧
    Forall (t_ok ((2 + 2 * 2) * 1 / 2) 1) shards ∧
    concat (q_share 1 2 2 <$> shards) ++ concat (k_share 1 2 2 2 <$> shards) ++ concat (v_share 1 2 2 2 <$> shards) = t_rows small_B ∧
    ∀ p : LoRAMemoryPool Z, 1 < tp_size p → tp_size p = 2 → num_attention_heads (base_hf_config p) = 2 → 2 ≠ 0 → num_key_value_heads (base_hf_config p) = 2 →
      head_dim (base_hf_config p) = Some 1 → ∀ rank, get_lora_B_shape None p (lit "qkv_proj") rank = Ok (max_loras_per_batch p, (2 + 2 * 2) * 1 / 2, rank).
Proof.
  apply (lora_qkv_shards 1 2 2 2); try lia.
  - by exists 1.
  - by exists 1.
  - split; [done|]. split; [done|]. repeat constructor.
Defined.

(** With twice as many ranks as key-value heads, the matrix a rank gets has the
    shape of its buffer, but no row of the values: the offset of the values
    counts the copies of the heads, which the matrix does not have. *)
Example qkv_shard_without_values :
  let B : tensor Z := mkT 1 [[1]; [2]; [3]; [4]; [5]; [6]] in  (* four query heads, one key head, one value head *)
  let p := mkPool (mkHF 4 4 1 4 (Some 1) 1) 1 2 2 0 1 ∅ ∅ ∅ ∅ [] : LoRAMemoryPool Z in
  (b ← QKVParallelLinear 1 4 1 2; qkv_slice b B 0) = Ok (mkT 1 [[1]; [2]; [5]]) ∧
  get_lora_B_shape None p (lit "qkv_proj") 1 = Ok (2, 3, 1).
Proof. vm_compute. done. Qed.
