(* ===== verification/LoraManager.v ===== *)
(** * The LoRA manager

    Models [srt/lora/lora_manager.py], [srt/lora/lora.py] and
    [srt/lora/lora_config.py]: adapters are read from disk, checked and kept on
    the CPU; before a batch runs, its adapters are brought to the memory pool and
    the backend is told which slot each request uses.  The files
    ([adapter_config.json] and the weights) are parameters; the log and the
    texts of the errors are not modelled, nor is the list of loaded adapters
    that a result displays. *)

From S2P Require Import Prelude PyString Eplb EplbProofs ExpertLocation LoraPool.
Open Scope Z_scope.

(** ** Strings *)

(** [s.replace(old, new)] *)
Fixpoint replace_fuel (fuel : nat) (old new s : str) : str :=
  match fuel, py_find old s with
  | S fuel, Some i => take i s ++ new ++ replace_fuel fuel old new (drop (i + length old) s)
  | _, _ => s
  end.
Definition py_replace (old new s : str) : str := replace_fuel (length s) old new s.

(** [s.split(".")[-1]] *)
Fixpoint last_part (s cur : str) : str :=
  match s with
  | [] => cur
  | c :: s => if decide (lit "." = [c]) then last_part s [] else last_part s (cur ++ [c])
  end.

Definition is_digit (c : Z) : bool := (48 <=? c) && (c <=? 57).
(** [\d+\.] at the start of [s], for ASCII digits: the number. *)
Fixpoint number_dot (s : str) (seen : bool) (n : Z) : option Z :=
  match s with
  | [] => None
  | c :: s => if is_digit c then number_dot s true (10 * n + (c - 48)) else if seen && bool_decide (lit "." = [c]) then Some n else None
  end.

(** [re.search(r"layers\.(\d+)\.", name)] *)
Fixpoint get_layer_id (name : str) : option Z :=
  match (if startswith name (lit "layers.") then number_dot (drop 7 name) false 0 else None), name with
  | Some n, _ => Some n
  | None, [] => None
  | None, _ :: name => get_layer_id name
  end.

(** ** Reading adapters *)

(** The keys of [adapter_config.json] that are read. *)
Record raw_config := mkRaw { raw_target_modules : option modules_spec; raw_r : option Z; raw_lora_alpha : option Z; raw_peft_type : option str }.

Definition py_key {A} (x : option A) : pyres A := match x with Some x => Ok x | None => Raise KeyError end.

(** [module in self.target_modules] *)
Definition in_spec (module : str) (s : modules_spec) : bool :=
  match s with ModuleList l => bool_decide (module ∈ l) | ModuleString s => py_in module s end.

(** What [triton] and [flashinfer] are called. *)
Definition backend := str.

Section manager.
Context {W : Type} `{PySet} (zero : W) (cast : W → W).
Abbreviation tensor := (tensor W).
Abbreviation adapter := (LoRAAdapter W).
Abbreviation pool := (LoRAMemoryPool W).

(** The files of an adapter. *)
Context (config_file : string → pyres raw_config) (weights_file : string → pyres (list (str * tensor))).

Definition LoRAConfig_init (path : string) : pyres LoRAConfig :=
  hf ← config_file path;
  tms ← py_key (raw_target_modules hf);
  (if in_spec (lit "embed_tokens") tms || in_spec (lit "lm_head") tms then Raise ValueError else mret tt) ;;
  r ← py_key (raw_r hf);
  lora_alpha ← py_key (raw_lora_alpha hf);
  mret (mkConfig path tms r lora_alpha (raw_peft_type hf)).

Definition zeros_like (t : tensor) : tensor := zero_like zero t.
(** [t.repeat(n, 1)] *)
Definition t_repeat (n : nat) (t : tensor) : tensor := mkT (t_cols t) (concat (replicate n (t_rows t))).

Abbreviation weights_t := (list (str * tensor)).
Definition w_get (name : str) (w : weights_t) : pyres tensor := py_key (od_get name w).
(** [weights.pop(name)] *)
Definition w_pop (name : str) (w : weights_t) : pyres weights_t := py_key (od_get name w) ;; mret (od_del name w).

Definition found_modules (weight_names : list str) : list str :=
  weight_names ≫= fun n => filter (fun m => py_in m n = true) [lit "k_proj"; lit "q_proj"; lit "v_proj"; lit "qkv_proj"].

(** The body of the loop of [normalize_qkv_proj]. *)
Definition normalize_qkv_one (target_module : list str) (weight_name : str) (weights : weights_t) : pyres weights_t :=
  if py_in (lit "q_proj") weight_name then
    let q_name := weight_name in
    let k_name := py_replace (lit "q_proj") (lit "k_proj") weight_name in
    let v_name := py_replace (lit "q_proj") (lit "v_proj") weight_name in
    let qkv_name := py_replace (lit "q_proj") (lit "qkv_proj") weight_name in
    let has_k := bool_decide (lit "k_proj" ∈ target_module) in
    k_proj_weight ← (if has_k then w_get k_name weights else v ← w_get v_name weights; mret (zeros_like v));
    q ← w_get q_name weights;
    v ← w_get v_name weights;
    qk ← t_cat q k_proj_weight;
    qkv ← t_cat qk v;
    let weights := od_set qkv_name qkv weights in
    weights ← w_pop q_name weights;
    weights ← (if has_k then w_pop k_name weights else mret weights);
    w_pop v_name weights
  else if py_in (lit "qkv_proj") weight_name then
    if py_in (lit "lora_A") weight_name then w ← w_get weight_name weights; mret (od_set weight_name (t_repeat 3 w) weights)
    else mret weights
  else mret weights.

Definition normalize_qkv_proj (weight_names : list str) (weights : weights_t) : pyres weights_t :=
  let target_module := found_modules weight_names in
  if bool_decide (target_module = []) then mret weights else
  foldl (fun acc n => w ← acc; normalize_qkv_one target_module n w) (mret weights) weight_names.

Definition normalize_gate_up_one (backend_name : backend) (weight_name : str) (weights : weights_t) : pyres weights_t :=
  if py_in (lit "gate_proj") weight_name then
    let up_name := py_replace (lit "gate_proj") (lit "up_proj") weight_name in
    let gate_up_name := py_replace (lit "gate_proj") (lit "gate_up_proj") weight_name in
    weights ← (match od_get up_name weights with
               | Some _ => mret weights
               | None => w ← w_get weight_name weights; py_assert (bool_decide (backend_name = lit "triton")) ;; mret (od_set up_name (zeros_like w) weights)
               end);
    gate ← w_get weight_name weights;
    up ← w_get up_name weights;
    gate_up ← t_cat gate up;
    let weights := od_set gate_up_name gate_up weights in
    weights ← w_pop weight_name weights;
    match od_get up_name weights with Some _ => w_pop up_name weights | None => mret weights end
  else if py_in (lit "gate_up_proj") weight_name then
    if py_in (lit "lora_A") weight_name then w ← w_get weight_name weights; mret (od_set weight_name (t_repeat 2 w) weights)
    else mret weights
  else mret weights.

Definition normalize_gate_up_proj (backend_name : backend) (weight_names : list str) (weights : weights_t) : pyres weights_t :=
  foldl (fun acc n => w ← acc; normalize_gate_up_one backend_name n w) (mret weights) weight_names.

(** The weights of the layers; a weight outside the layers is kept apart and never read. *)
Fixpoint split_layers (ws : weights_t) (ls : list weights_t) : pyres (list weights_t) :=
  match ws with
  | [] => mret ls
  | (name, loaded_weight) :: rest =>
      match get_layer_id name with
      | Some layer_id => l ← py_index ls layer_id; split_layers rest (set_at layer_id (od_set name loaded_weight l) ls)
      | None => split_layers rest ls
      end
  end.

Definition normalize_layer (backend_name : backend) (weights : weights_t) : pyres weights_t :=
  let weight_names := weights.*1 in
  weights ← normalize_qkv_proj weight_names weights;
  normalize_gate_up_proj backend_name weight_names weights.

(** [LoRAAdapter.__init__] and [initialize_weights] *)
Definition LoRAAdapter_init (uid : string) (c : LoRAConfig) (num_hidden_layers : Z) : pyres adapter :=
  peft_type ← py_key (peft_type c);
  py_assert (bool_decide (py_lower peft_type = lit "lora")) ;;
  (if r c =? 0 then Raise ZeroDivisionError else mret tt) ;;
  mret (mkAdapter uid c (lora_alpha c, r c) (replicate (Z.to_nat num_hidden_layers) [])).

Definition initialize_weights (backend_name : backend) (a : adapter) : pyres adapter :=
  ws ← weights_file (path (config a));
  ls ← split_layers ws (layers a);
  ls ← mapM (normalize_layer backend_name) ls;
  mret (mkAdapter (uid a) (config a) (scaling a) ls).

(** ** The state of the manager *)

(** [LoRABatchInfo]: a scaling is [lora_alpha / r] as the two numbers. *)
Record LoRABatchInfo := mkInfo {
  bs : Z; seg_lens : list Z; seg_indptr : list Z; max_len : Z;
  weight_indices : list Z; lora_ranks : list Z; scalings : list (Z * Z)
}.

Record LoRAManager := mkManager {
  hf : hf_config;
  m_max_loras_per_batch : Z;
  m_tp_size : Z;
  m_tp_rank : Z;
  backend_name : backend;
  configs : gmap string LoRAConfig;
  loras : gmap string adapter;
  lora_refs : gmap string LoRARef;
  num_pinned_loras : Z;
  m_target_modules : gset str;
  m_max_lora_rank : Z;
  lora_modules : lora_modules_t;
  memory_pool : option pool;
  cuda_graph : option (Z * LoRABatchInfo);  (* [max_bs_in_cuda_graph], [cuda_graph_batch_info] *)
  batch_info : option LoRABatchInfo;        (* of the backend *)
}.

Definition with_adapters (cs : gmap string LoRAConfig) (ls : gmap string adapter) (rs : gmap string LoRARef) (n : Z) (m : LoRAManager) : LoRAManager :=
  mkManager (hf m) (m_max_loras_per_batch m) (m_tp_size m) (m_tp_rank m) (backend_name m) cs ls rs n
    (m_target_modules m) (m_max_lora_rank m) (lora_modules m) (memory_pool m) (cuda_graph m) (batch_info m).
Definition with_shapes (tms : gset str) (rank : Z) (m : LoRAManager) : LoRAManager :=
  mkManager (hf m) (m_max_loras_per_batch m) (m_tp_size m) (m_tp_rank m) (backend_name m) (configs m) (loras m) (lora_refs m) (num_pinned_loras m)
    tms rank (lora_modules m) (memory_pool m) (cuda_graph m) (batch_info m).
Definition with_modules (mods : lora_modules_t) (m : LoRAManager) : LoRAManager :=
  mkManager (hf m) (m_max_loras_per_batch m) (m_tp_size m) (m_tp_rank m) (backend_name m) (configs m) (loras m) (lora_refs m) (num_pinned_loras m)
    (m_target_modules m) (m_max_lora_rank m) mods (memory_pool m) (cuda_graph m) (batch_info m).
Definition with_pool (p : option pool) (m : LoRAManager) : LoRAManager :=
  mkManager (hf m) (m_max_loras_per_batch m) (m_tp_size m) (m_tp_rank m) (backend_name m) (configs m) (loras m) (lora_refs m) (num_pinned_loras m)
    (m_target_modules m) (m_max_lora_rank m) (lora_modules m) p (cuda_graph m) (batch_info m).
Definition with_info (g : option (Z * LoRABatchInfo)) (b : option LoRABatchInfo) (m : LoRAManager) : LoRAManager :=
  mkManager (hf m) (m_max_loras_per_batch m) (m_tp_size m) (m_tp_rank m) (backend_name m) (configs m) (loras m) (lora_refs m) (num_pinned_loras m)
    (m_target_modules m) (m_max_lora_rank m) (lora_modules m) (memory_pool m) g b.

(** ** Loading and unloading *)

(** [LoRAUpdateResult]: [None] is success, [Some] the error that was caught. *)
Abbreviation update_result := (option pyexn).

(** [int(b)] *)
Definition py_int (b : option bool) : pyres Z := match b with Some b => Ok (if b then 1 else 0) | None => Raise TypeError end.

Definition validate_new_adapter (lora_config : LoRAConfig) (lora_ref : LoRARef) (m : LoRAManager) : pyres unit :=
  if (match memory_pool m with Some p => negb (can_support p lora_config) | None => false end) then Raise ValueError
  else if default false (pinned lora_ref) && (m_max_loras_per_batch m - 1 <=? num_pinned_loras m) then Raise ValueError
  else mret tt.

Definition load_lora_weights (lora_ref : LoRARef) (m : LoRAManager) : pyres adapter :=
  c ← py_key (configs m !! lora_id lora_ref);
  a ← LoRAAdapter_init (lora_id lora_ref) c (num_hidden_layers (hf m));
  initialize_weights (backend_name m) a.

(** The [try] block, which keeps what it changed when it raises. *)
Definition load_adapter_body (lora_path : string) (lora_ref : LoRARef) (m : LoRAManager) : update_result * LoRAManager :=
  match LoRAConfig_init lora_path with
  | Raise e => (Some e, m)
  | Ok new_adapter =>
      match validate_new_adapter new_adapter lora_ref m with
      | Raise e => (Some e, m)
      | Ok _ =>
          let m := with_adapters (<[lora_id lora_ref := new_adapter]> (configs m)) (loras m) (lora_refs m) (num_pinned_loras m) m in
          match load_lora_weights lora_ref m with
          | Raise e => (Some e, m)
          | Ok a =>
              let ls := <[lora_id lora_ref := a]> (loras m) in
              let rs := <[lora_id lora_ref := lora_ref]> (lora_refs m) in
              match py_int (pinned lora_ref) with
              | Raise e => (Some e, with_adapters (configs m) ls rs (num_pinned_loras m) m)
              | Ok n => (None, with_adapters (configs m) ls rs (num_pinned_loras m + n) m)
              end
          end
      end
  end.

Definition load_lora_adapter (lora_ref : LoRARef) (m : LoRAManager) : pyres (update_result * LoRAManager) :=
  match lora_name lora_ref, lora_path lora_ref with
  | Some _, Some path =>
      py_assert (bool_decide (loras m !! lora_id lora_ref = None)) ;;
      mret (load_adapter_body path lora_ref m)
  | _, _ => Raise AssertionError
  end.

(** The message of the assertion reads [lora_ref.lora_id]. *)
Definition unload_lora_adapter (ref : LoRARef) (m : LoRAManager) : pyres (update_result * LoRAManager) :=
  match lora_refs m !! lora_id ref, configs m !! lora_id ref with
  | None, _ => Raise AttributeError
  | Some _, None => Raise AssertionError
  | Some lora_ref, Some _ =>
      let id := lora_id lora_ref in
      let m := with_adapters (delete id (configs m)) (loras m) (lora_refs m) (num_pinned_loras m) m in
      match loras m !! id with
      | None => mret (Some KeyError, m)
      | Some _ =>
          let m := with_adapters (configs m) (delete id (loras m)) (lora_refs m) (num_pinned_loras m) m in
          match lora_refs m !! id with
          | None => mret (Some KeyError, m)
          | Some _ =>
              let rs := delete id (lora_refs m) in
              match py_int (pinned lora_ref) with
              | Raise e => mret (Some e, with_adapters (configs m) (loras m) rs (num_pinned_loras m) m)
              | Ok n => mret (None, with_adapters (configs m) (loras m) rs (num_pinned_loras m - n) m)
              end
          end
      end
  end.

(** ** Batches *)

Definition count_pinned (lora_refs : gmap string LoRARef) (ids : list (option string)) : pyres Z :=
  foldl (fun acc id =>
    n ← acc;
    match id with
    | None => mret n
    | Some k => match lora_refs !! k with None => Raise AssertionError | Some ref => b ← py_int (pinned ref); mret (n + b) end
    end) (mret 0) ids.

Definition validate_lora_batch (lora_ids : gset (option string)) (m : LoRAManager) : pyres bool :=
  if m_max_loras_per_batch m <? Z.of_nat (size lora_ids) then mret false
  else if num_pinned_loras m =? 0 then mret true
  else
    pinned_loras_in_batch ← count_pinned (lora_refs m) (set_iter lora_ids);
    py_assert (pinned_loras_in_batch <=? num_pinned_loras m) ;;
    let required_slots := Z.of_nat (size lora_ids) - pinned_loras_in_batch in
    match memory_pool m with
    | None => Raise AttributeError
    | Some p => mret (required_slots <=? max_loras_per_batch p - num_pinned_loras m)
    end.

(** The fields of [ForwardBatch] that are read. *)
Record forward_batch := mkForward {
  fb_lora_ids : list (option string); fb_batch_size : Z; is_extend : bool; is_cuda_graph : bool; extend_seq_lens : list Z
}.

(** [dst[:n].copy_(src)]: a source of one element is broadcast. *)
Definition copy_prefix {A} (n : Z) (src dst : list A) : pyres (list A) :=
  let view := dst.[: n] in
  if len view =? len src then mret (src ++ dst.[n :])
  else match src with [x] => mret (((fun _ => x) <$> view) ++ dst.[n :]) | _ => Raise RuntimeError end.

Definition adapter_info : Type := list Z * list Z * list (Z * Z).

(** The loop of [transfer_adapter_info] over the requests. *)
Fixpoint adapter_info_loop (p : pool) (ls : gmap string adapter) (ids : list (option string)) (info : adapter_info) : pyres adapter_info :=
  match ids with
  | [] => mret info
  | uid :: rest =>
      i ← get_buffer_id p uid;
      let '(weight_indices, lora_ranks, scalings) := info in
      match uid with
      | None => adapter_info_loop p ls rest (weight_indices ++ [i], lora_ranks, scalings)
      | Some k =>
          lora ← py_key (ls !! k);
          py_index lora_ranks i ;;
          py_index scalings i ;;
          adapter_info_loop p ls rest (weight_indices ++ [i], set_at i (r (config lora)) lora_ranks, set_at i (scaling lora) scalings)
      end
  end.

Definition transfer_adapter_info (p : pool) (m : LoRAManager) (fb : forward_batch) (out : adapter_info) : pyres adapter_info :=
  let k := Z.to_nat (m_max_loras_per_batch m) in
  '(weight_indices, lora_ranks, scalings) ← adapter_info_loop p (loras m) (fb_lora_ids fb) ([], replicate k 0, replicate k (0, 1));
  let '(weight_indices_out, lora_ranks_out, scalings_out) := out in
  w ← copy_prefix (fb_batch_size fb) weight_indices weight_indices_out;
  l ← copy_prefix (m_max_loras_per_batch m) lora_ranks lora_ranks_out;
  s ← copy_prefix (m_max_loras_per_batch m) scalings scalings_out;
  mret (w, l, s).

(** [torch.cumsum] *)
Fixpoint cumsum (a : Z) (l : list Z) : list Z := match l with [] => [] | x :: l => (a + x) :: cumsum (a + x) l end.
Definition py_max (l : list Z) : pyres Z := match l with [] => Raise ValueError | x :: l => mret (foldl Z.max x l) end.

(** The batch information in new tensors; [fresh] is what [torch.empty] finds. *)
Definition new_batch_info (fresh : Z → Z) (p : pool) (fb : forward_batch) (m : LoRAManager) : pyres LoRABatchInfo :=
  let n := fb_batch_size fb in
  let k := Z.to_nat (m_max_loras_per_batch m) in
  '(w, l, s) ← transfer_adapter_info p m fb (fresh <$> arange 0 n, replicate k 0, replicate k (0, 1));
  let lens := if is_extend fb then extend_seq_lens fb else replicate (Z.to_nat n) 1 in
  max_len ← (if is_extend fb then py_max (extend_seq_lens fb) else mret 1);
  indptr ← copy_prefix n (cumsum 0 lens) (replicate (Z.to_nat n) 0);
  mret (mkInfo n lens (0 :: indptr) max_len w l s).

(** The batch information of the CUDA graph, changed in place. *)
Definition graph_batch_info (g : LoRABatchInfo) (p : pool) (fb : forward_batch) (m : LoRAManager) : pyres LoRABatchInfo :=
  '(w, l, s) ← transfer_adapter_info p m fb (weight_indices g, lora_ranks g, scalings g);
  mret (mkInfo (fb_batch_size fb) (seg_lens g) (seg_indptr g) 1 w l s).

Definition set_batch_info (fresh : Z → Z) (p : pool) (fb : forward_batch) (m : LoRAManager) : pyres LoRAManager :=
  match cuda_graph m with
  | Some (max_bs, g) =>
      if (fb_batch_size fb <=? max_bs) && is_cuda_graph fb then
        g ← graph_batch_info g p fb m; mret (with_info (Some (max_bs, g)) (Some g) m)
      else i ← new_batch_info fresh p fb m; mret (with_info (cuda_graph m) (Some i) m)
  | None => i ← new_batch_info fresh p fb m; mret (with_info (cuda_graph m) (Some i) m)
  end.

(** [LoRAManager.prepare_lora_batch] *)
Definition prepare_lora_batch_m (fresh : Z → Z) (fb : forward_batch) (m : LoRAManager) : pyres LoRAManager :=
  let cur_uids := list_to_set (fb_lora_ids fb) in
  py_assert (Z.of_nat (size (cur_uids : gset (option string))) <=? m_max_loras_per_batch m) ;;
  p ← match memory_pool m with None => Raise AttributeError | Some p => mret p end;
  p ← prepare_lora_batch zero cast cur_uids (loras m) (lora_modules m) (lora_refs m) p;
  set_batch_info fresh p fb (with_pool (Some p) m).

Definition init_cuda_graph_batch_info (max_bs : Z) (m : LoRAManager) : LoRAManager :=
  let ones := replicate (Z.to_nat max_bs) 1 in
  let k := Z.to_nat (m_max_loras_per_batch m) in
  with_info (Some (max_bs, mkInfo max_bs ones (0 :: cumsum 0 ones) 1 (replicate (Z.to_nat max_bs) 0) (replicate k 0) (replicate k (0, 1)))) (batch_info m) m.

(** ** Start *)

Fixpoint init_lora_adapters (lora_paths : list LoRARef) (m : LoRAManager) : pyres LoRAManager :=
  match lora_paths with
  | [] => mret m
  | lora_ref :: rest =>
      '(result, m) ← load_lora_adapter lora_ref m;
      match result with Some _ => Raise RuntimeError | None => init_lora_adapters rest m end
  end.

(** The loop of [init_lora_shapes] over the adapters. *)
Fixpoint infer_modules (given : bool) (cs : list LoRAConfig) (tms : gset str) : pyres (gset str) :=
  match cs with
  | [] => mret tms
  | c :: rest =>
      match target_modules c with
      | ModuleString _ => Raise ValueError
      | ModuleList l =>
          let adapter_target_modules := get_normalized_target_modules l in
          if given then if bool_decide (adapter_target_modules ⊆ tms) then infer_modules given rest tms else Raise ValueError
          else infer_modules given rest (tms ∪ adapter_target_modules)
      end
  end.

Definition init_lora_shapes (max_lora_rank : option Z) (target_modules : option (list str)) (m : LoRAManager) : pyres LoRAManager :=
  let cs := (map_to_list (configs m)).*2 in
  tms ← infer_modules (bool_decide (is_Some target_modules)) cs (get_normalized_target_modules (default [] target_modules));
  mret (with_shapes tms (match max_lora_rank with Some n => n | None => match r <$> cs with [] => 0 | x :: l => foldl Z.max x l end end) m).

(** The base model: its modules by name, those that have a layer with LoRA
    ([get_lora_layer] raises for the others), and [should_apply_lora]. *)
Context (named_modules : list (str * option lora_layer)) (should_apply_lora : option (str → bool)).

Fixpoint init_lora_modules_loop (modules : list (str * option lora_layer)) (tms : gset str) (ls : lora_modules_t) : pyres lora_modules_t :=
  match modules with
  | [] => mret ls
  | (module_name, module) :: rest =>
      if (match should_apply_lora with Some f => negb (f module_name) | None => false end) then init_lora_modules_loop rest tms ls
      else if bool_decide (last_part module_name [] ∈ tms) then
        match get_layer_id module_name, module with
        | _, None => Raise RuntimeError
        | None, Some _ => Raise TypeError
        | Some layer_id, Some lora_module =>
            l ← py_index ls layer_id;
            init_lora_modules_loop rest tms (set_at layer_id (od_set module_name lora_module l) ls)
        end
      else init_lora_modules_loop rest tms ls
  end.
Definition init_lora_modules (m : LoRAManager) : pyres LoRAManager :=
  ls ← init_lora_modules_loop named_modules (m_target_modules m) (replicate (Z.to_nat (num_hidden_layers (hf m))) []);
  mret (with_modules ls m).

Definition init_memory_pool (fill : bool → str → Z → Z → Z → Z → W) (own : option (str → pyres (Z * Z))) (m : LoRAManager) : pyres LoRAManager :=
  p ← LoRAMemoryPool_init fill own (hf m) (m_max_loras_per_batch m) (m_tp_size m) (m_tp_rank m) (m_max_lora_rank m) (m_target_modules m);
  mret (with_pool (Some p) m).

(** Every layer is given the buffers of its module, which it shares with the pool. *)
Definition update_lora_info (m : LoRAManager) : pyres unit :=
  match memory_pool m with
  | None => Raise AttributeError
  | Some p =>
      foldl (fun acc (il : Z * list (str * lora_layer)) =>
        acc ;;
        foldl (fun acc nm => acc ;; tm ← get_target_module_name nm.1 (set_iter (pool_target_modules p)); get_tensor p tm il.1 true ;; get_tensor p tm il.1 false ;; mret tt)
          (mret tt) il.2) (mret tt) (zip (arange 0 (len (lora_modules m))) (lora_modules m))
  end.

(** A manager before [init_state]. *)
Definition new_manager (hf : hf_config) (max tp_size tp_rank : Z) (backend_name : backend) : LoRAManager :=
  mkManager hf max tp_size tp_rank backend_name ∅ ∅ ∅ 0 ∅ 0 [] None None None.

Definition init_state (fill : bool → str → Z → Z → Z → Z → W) (own : option (str → pyres (Z * Z)))
    (max_lora_rank : option Z) (target_modules : option (list str)) (lora_paths : list LoRARef) (m : LoRAManager) : pyres LoRAManager :=
  py_assert (bool_decide (lora_paths ≠ []) || (bool_decide (is_Some max_lora_rank) && bool_decide (is_Some target_modules))) ;;
  m ← init_lora_adapters lora_paths m;
  m ← init_lora_shapes max_lora_rank target_modules m;
  m ← init_lora_modules m;
  m ← init_memory_pool fill own m;
  update_lora_info m ;;
  mret m.
End manager.
Arguments LoRAManager : clear implicits.
