(* ===== verification/LoraManagerProofs.v ===== *)
(** * Batches with LoRA adapters

    The manager of [LoraManager]: loading, unloading and preparing batches keep
    the count of the pinned adapters and the weights in the slots; a batch that
    [validate_lora_batch] accepts is prepared, and each of its requests is told
    the slot, the rank and the scaling of its own adapter. *)

From S2P Require Import Prelude PyString Eplb EplbProofs ExpertLocation LoraPool LoraPoolProofs LoraManager.
Open Scope Z_scope.

Lemma copy_prefix_ok {A} (n : Z) (src dst : list A) : len src = n → n ≤ len dst →
  ∃ out, copy_prefix n src dst = Ok out ∧ len out = len dst ∧ ∀ i, (i < length src)%nat → out !! i = src !! i.
Proof.
  intros Hs Hd. unfold copy_prefix. pose proof (len_nonneg src). rewrite len_py_take by lia. rewrite (proj2 (Z.eqb_eq _ _)) by lia. eexists. split; [done|].
  rewrite len_app, len_py_drop by lia. split; [lia|]. intros i Hi. by rewrite lookup_app_l.
Qed.

Section manager.
Context {W : Type} `{PySet} (zero : W) (cast : W → W).
Context (config_file : string → pyres raw_config) (weights_file : string → pyres (list (str * tensor W))).
Context (in_dim out_dim : str → Z).
Abbreviation manager := (LoRAManager W).
Abbreviation load := (load_lora_adapter zero config_file weights_file).
Implicit Types (m : manager) (p : LoRAMemoryPool W).

(** ** Adapters and pinned adapters *)

Record refs_ok m : Prop := {
  same_ids : dom (loras m) = dom (lora_refs m);
  refs_configs : dom (lora_refs m) ⊆ dom (configs m);
  refs_keys k ref : lora_refs m !! k = Some ref → lora_id ref = k ∧ is_Some (pinned ref);
  pinned_counted : num_pinned_loras m = Z.of_nat (size (pinned_uids (lora_refs m)));
  pinned_bound : num_pinned_loras m ≤ Z.max 0 (m_max_loras_per_batch m - 1);
}.

Lemma pinned_uids_insert (refs : gmap string LoRARef) k ref : refs !! k = None →
  pinned_uids (<[k := ref]> refs) = if decide (pinned ref = Some true) then {[Some k]} ∪ pinned_uids refs else pinned_uids refs.
Proof.
  intros Hk. apply set_eq. intros u. assert (u ∈ pinned_uids (<[k := ref]> refs) ↔ (u = Some k ∧ pinned ref = Some true) ∨ u ∈ pinned_uids refs) as ->.
  { rewrite !elem_of_pinned_uids. unfold is_pinned. destruct u as [v|]; [|naive_solver]. destruct (decide (v = k)) as [->|Hne].
    - rewrite lookup_insert_eq, Hk. destruct (pinned ref) as [[]|]; naive_solver.
    - rewrite lookup_insert_ne by done. naive_solver. }
  case_decide; set_solver.
Qed.

Lemma pinned_uids_size (refs : gmap string LoRARef) k ref n : refs !! k = None → py_int (pinned ref) = Ok n →
  Z.of_nat (size (pinned_uids (<[k := ref]> refs))) = Z.of_nat (size (pinned_uids refs)) + n.
Proof.
  intros Hk Hn. rewrite (pinned_uids_insert _ _ _ Hk). destruct (pinned ref) as [[]|]; [injection Hn as <-|injection Hn as <-|done]; case_decide; try done; [|lia].
  rewrite size_union, size_singleton; [lia|]. apply disjoint_singleton_l. rewrite elem_of_pinned_uids. unfold is_pinned. by rewrite Hk.
Qed.

(** A load either changes nothing but [configs], or adds the adapter. *)
Lemma load_cases ref m res m' : refs_ok m → is_Some (pinned ref) → load ref m = Ok (res, m') →
  loras m !! lora_id ref = None ∧ ∃ cs, dom (configs m) ⊆ dom cs ∧
    match res with
    | Some _ => m' = with_adapters cs (loras m) (lora_refs m) (num_pinned_loras m) m
    | None => ∃ ad n, py_int (pinned ref) = Ok n ∧ is_Some (cs !! lora_id ref) ∧ (n = 1 → num_pinned_loras m < m_max_loras_per_batch m - 1) ∧
        m' = with_adapters cs (<[lora_id ref := ad]> (loras m)) (<[lora_id ref := ref]> (lora_refs m)) (num_pinned_loras m + n) m
    end.
Proof.
  intros R [pin Hpin] E. unfold load_lora_adapter in E. destruct (lora_name ref); [|done]. destruct (lora_path ref) as [path|]; [|done]. pyinv.
  match goal with H : bool_decide _ = true |- _ => apply bool_decide_eq_true in H as Hnew end. split; [done|].
  unfold load_adapter_body in *. assert (with_adapters (configs m) (loras m) (lora_refs m) (num_pinned_loras m) m = m) as Hsame by (by destruct m).
  destruct (LoRAConfig_init _ path) as [c|e]; [|injection E as <- <-; exists (configs m); split; [done|by rewrite Hsame]].
  destruct (validate_new_adapter c ref m) as [u|e] eqn:Ev; [|injection E as <- <-; exists (configs m); split; [done|by rewrite Hsame]].
  exists (<[lora_id ref := c]> (configs m)). split; [set_solver|]. cbv zeta in *. destruct (load_lora_weights _ _ ref _) as [ad|e]; [|by injection E as <- <-].
  rewrite Hpin in *. cbn [py_int] in *. injection E as <- <-. exists ad, (if pin then 1 else 0). split; [done|]. split; [by rewrite lookup_insert_eq|]. split; [|done].
  intros Hn. destruct pin; [|done]. unfold validate_new_adapter in Ev. rewrite Hpin in Ev. destruct (match memory_pool m with Some _ => _ | None => _ end); [done|].
  simpl in Ev. destruct (m_max_loras_per_batch m - 1 <=? num_pinned_loras m) eqn:Ele; [done|]. apply Z.leb_gt in Ele. lia.
Qed.

Lemma load_refs_ok ref m res m' : refs_ok m → is_Some (pinned ref) → load ref m = Ok (res, m') → refs_ok m'.
Proof.
  intros R Hpin E. destruct (load_cases ref m res m' R Hpin E) as (Hnew & cs & Hcs & Hm). destruct R as [R1 R2 R3 R4 R5]. destruct res as [e|].
  - subst m'. split; try done. simpl. set_solver.
  - destruct Hm as (ad & n & Hn & Hc & Hlt & ->). assert (lora_refs m !! lora_id ref = None) as Hnr by (apply not_elem_of_dom; rewrite <-R1; by apply not_elem_of_dom).
    split; simpl.
    + rewrite !dom_insert_L. by rewrite R1.
    + rewrite dom_insert_L. apply elem_of_dom in Hc. set_solver.
    + intros k ref'. destruct (decide (k = lora_id ref)) as [->|Hne]; [rewrite lookup_insert_eq; by intros [= <-]|rewrite lookup_insert_ne by done; apply R3].
    + by rewrite (pinned_uids_size _ _ _ n Hnr Hn), R4.
    + destruct Hpin as [[] Hp]; rewrite Hp in Hn; injection Hn as <-; [specialize (Hlt eq_refl)|]; lia.
Qed.

(** Unloading an adapter that is loaded succeeds and takes it out. *)
Lemma unload_cases ref m : refs_ok m → is_Some (lora_refs m !! lora_id ref) →
  let id := lora_id ref in
  ∃ n, unload_lora_adapter ref m = Ok (None, with_adapters (delete id (configs m)) (delete id (loras m)) (delete id (lora_refs m)) n m) ∧
    n = Z.of_nat (size (pinned_uids (delete id (lora_refs m)))).
Proof.
  intros R [old Hold]. destruct (refs_keys m R _ _ Hold) as [Hid [b Hb]]. unfold unload_lora_adapter. rewrite Hold.
  assert (is_Some (configs m !! lora_id ref)) as [c ->] by (apply elem_of_dom, (refs_configs m R), elem_of_dom; eauto).
  cbv zeta. simpl. rewrite Hid. assert (is_Some (loras m !! lora_id ref)) as [ad ->] by (apply elem_of_dom; rewrite (same_ids m R); apply elem_of_dom; eauto).
  rewrite Hold, Hb. eexists. split; [done|]. rewrite (pinned_counted m R).
  rewrite <-(insert_delete_id (lora_refs m) _ _ Hold) at 1.
  rewrite (pinned_uids_size (delete (lora_id ref) (lora_refs m)) _ old (if b then 1 else 0)); [lia|by rewrite lookup_delete_eq|by rewrite Hb].
Qed.

Lemma unload_refs_ok id n m cs : refs_ok m → n = Z.of_nat (size (pinned_uids (delete id (lora_refs m)))) → cs = delete id (configs m) →
  refs_ok (with_adapters cs (delete id (loras m)) (delete id (lora_refs m)) n m).
Proof.
  intros R -> ->. destruct R as [R1 R2 R3 R4 R5]. split; simpl.
  - by rewrite !dom_delete_L, R1.
  - rewrite !dom_delete_L. set_solver.
  - intros k ref [_ Hk]%lookup_delete_Some. by apply R3.
  - done.
  - assert (size (pinned_uids (delete id (lora_refs m))) ≤ size (pinned_uids (lora_refs m)))%nat; [|lia]. apply subseteq_size. intros u.
    rewrite !elem_of_pinned_uids. unfold is_pinned. destruct u as [k|]; [|done]. destruct (decide (k = id)) as [->|Hne]; [by rewrite lookup_delete_eq|by rewrite lookup_delete_ne].
Qed.

(** ** Validation *)

Lemma count_pinned_ok (refs : gmap string LoRARef) (l : list (option string)) : (∀ k ref, refs !! k = Some ref → is_Some (pinned ref)) →
  NoDup l → (∀ k, Some k ∈ l → is_Some (refs !! k)) →
  count_pinned refs l = Ok (Z.of_nat (size (list_to_set l ∩ pinned_uids refs))).
Proof.
  intros Hp Hnd Hl. unfold count_pinned.
  assert (∀ n, foldl (fun acc id => n ← acc; match id with None => mret n | Some k => match refs !! k with None => Raise AssertionError
    | Some ref => b ← py_int (pinned ref); mret (n + b) end end) (mret n) l = Ok (n + Z.of_nat (size (list_to_set l ∩ pinned_uids refs)))) as ->; [|done].
  induction Hnd as [|u l Hu Hnd IH]; intros n.
  { simpl. by rewrite intersection_empty_l_L, size_empty, Z.add_0_r. }
  assert (list_to_set l ## ({[u]} : gset (option string))) as Hdis by (apply disjoint_singleton_r; by rewrite elem_of_list_to_set).
  cbn [foldl mbind pyres_bind mret pyres_ret list_to_set]. destruct u as [k|].
  - destruct (Hl k) as [ref Hr]; [set_solver|]. destruct (Hp k ref Hr) as [b Hb]. rewrite Hr, Hb. cbn [py_int mbind pyres_bind mret pyres_ret].
    rewrite IH by (intros v Hv; apply Hl; set_solver). f_equal. destruct b.
    + assert (Some k ∈ pinned_uids refs) by (rewrite elem_of_pinned_uids; unfold is_pinned; by rewrite Hr, Hb).
      replace (({[Some k]} ∪ list_to_set l) ∩ pinned_uids refs) with ({[Some k]} ∪ (list_to_set l ∩ pinned_uids refs)) by set_solver.
      assert (({[Some k]} : gset (option string)) ## list_to_set l ∩ pinned_uids refs) as Hd by set_solver. rewrite (size_union _ _ Hd), size_singleton. lia.
    + assert (Some k ∉ pinned_uids refs) by (rewrite elem_of_pinned_uids; unfold is_pinned; by rewrite Hr, Hb).
      replace (({[Some k]} ∪ list_to_set l) ∩ pinned_uids refs) with (list_to_set l ∩ pinned_uids refs) by set_solver. lia.
  - assert (None ∉ pinned_uids refs) by (rewrite elem_of_pinned_uids; done).
    replace (({[None]} ∪ list_to_set l) ∩ pinned_uids refs) with (list_to_set l ∩ pinned_uids refs) by set_solver.
    apply IH. intros v Hv. apply Hl. set_solver.
Qed.

(** The answer is exactly whether there is room beside the pinned adapters. *)
Lemma validate_ok m p (ids : gset (option string)) : refs_ok m → memory_pool m = Some p → max_loras_per_batch p = m_max_loras_per_batch m →
  (∀ k, Some k ∈ ids → is_Some (lora_refs m !! k)) →
  ∃ b, validate_lora_batch ids m = Ok b ∧ (b = true ↔ room (m_max_loras_per_batch m) ids (lora_refs m)).
Proof.
  intros R Hp Hmax Hids. unfold validate_lora_batch, room. pose proof (pinned_counted m R) as Hn. rewrite size_difference_alt.
  pose proof (subseteq_size (pinned_uids (lora_refs m) ∩ ids) (pinned_uids (lora_refs m)) ltac:(set_solver)) as Hi.
  destruct (m_max_loras_per_batch m <? Z.of_nat (size ids)) eqn:El.
  { exists false. split; [done|]. apply Z.ltb_lt in El. split; [done|]. intros ?. lia. }
  apply Z.ltb_ge in El. destruct (num_pinned_loras m =? 0) eqn:E0.
  { exists true. split; [done|]. apply Z.eqb_eq in E0. split; [|done]. intros _. lia. }
  rewrite (count_pinned_ok (lora_refs m) (set_iter ids)).
  2: { intros k ref Hr. apply (refs_keys m R k ref Hr). } 2: { apply NoDup_set_iter. } 2: { intros k Hk%elem_of_set_iter. by apply Hids. }
  assert (list_to_set (set_iter ids) ∩ pinned_uids (lora_refs m) = pinned_uids (lora_refs m) ∩ ids) as ->.
  { apply set_eq. intros u. rewrite !elem_of_intersection, elem_of_list_to_set, elem_of_set_iter. naive_solver. }
  cbn [mbind pyres_bind]. rewrite (proj2 (Z.leb_le _ _)) by lia. rewrite Hp. cbn [py_assert mbind pyres_bind mret pyres_ret]. eexists. split; [done|]. rewrite Z.leb_le. lia.
Qed.

(** ** What the backend is told *)

Section info.
Context (ids : gmap (option string) Z) (us : list slot) (max : Z) (M : maps_ok max ids us).
Context (p : LoRAMemoryPool W) (Hp : uid_to_buffer_id p = ids) (ads : gmap string (LoRAAdapter W)).

(** The rank and the scaling in the slot of every adapter of the batch. *)
Definition told (l : list (option string)) (ranks : list Z) (scales : list (Z * Z)) : Prop :=
  ∀ k s ad, Some k ∈ l → ids !! Some k = Some s → ads !! k = Some ad →
    ranks !! Z.to_nat s = Some (r (config ad)) ∧ scales !! Z.to_nat s = Some (scaling ad).
Definition untouched (l : list (option string)) (ranks ranks' : list Z) : Prop :=
  ∀ j, (∀ k s, Some k ∈ l → ids !! Some k = Some s → Z.to_nat s ≠ j) → ranks' !! j = ranks !! j.

Lemma slot_range u s : ids !! u = Some s → 0 ≤ s < max.
Proof using M. intros [Hs Hu%lookup_lt_Some]%(maps_inverse _ _ _ M). pose proof (uids_len _ _ _ M). unfold len in *. lia. Qed.

Lemma uid_slot_inj u v s t : ids !! u = Some s → ids !! v = Some t → Z.to_nat s = Z.to_nat t → u = v.
Proof using M. intros [_ Hu]%(maps_inverse _ _ _ M) [_ Hv]%(maps_inverse _ _ _ M) E. rewrite E, Hv in Hu. by injection Hu. Qed.

Lemma adapter_info_ok l : ∀ seen w ranks scales, (∀ u, u ∈ l → is_Some (ids !! u)) → (∀ k, Some k ∈ l → is_Some (ads !! k)) →
  len ranks = max → len scales = max → told seen ranks scales →
  ∃ w' ranks' scales', adapter_info_loop p ads l (w, ranks, scales) = Ok (w ++ w', ranks', scales') ∧
    Forall2 (fun u s => ids !! u = Some s) l w' ∧ len ranks' = max ∧ len scales' = max ∧ told (l ++ seen) ranks' scales' ∧ untouched l ranks ranks'.
Proof using M Hp.
  clear zero cast in_dim out_dim config_file weights_file. induction l as [|u l IH]; intros seen w ranks scales Hr Ha Lr Ls T.
  { exists [], ranks, scales. rewrite app_nil_r. split_and!; try done. }
  destruct (Hr u) as [s Hs]; [set_solver|]. pose proof (slot_range u s Hs) as Hrange. cbn [adapter_info_loop]. unfold get_buffer_id. rewrite Hp, Hs. cbn [mbind pyres_bind mret pyres_ret].
  destruct u as [k|].
  - destruct (Ha k) as [ad Had]; [set_solver|]. rewrite Had. cbn [py_key mbind pyres_bind].
    destruct (lookup_lt_is_Some_2 ranks (Z.to_nat s)) as [x Hx]; [unfold len in Lr; lia|]. destruct (lookup_lt_is_Some_2 scales (Z.to_nat s)) as [y Hy]; [unfold len in Ls; lia|].
    rewrite (py_index_ok ranks s x) by (done || lia). cbn [mbind pyres_bind]. rewrite (py_index_ok scales s y) by (done || lia). cbn [mbind pyres_bind].
    destruct (IH (Some k :: seen) (w ++ [s]) (set_at s (r (config ad)) ranks) (set_at s (scaling ad) scales)) as (w' & ranks' & scales' & E & F & Lr' & Ls' & T' & U').
    + set_solver. + set_solver. + unfold set_at, len. by rewrite length_insert. + unfold set_at, len. by rewrite length_insert.
    + intros k' s' ad' Hk' Hs' Had'. unfold set_at. destruct (decide (k' = k)) as [->|Hne].
      * simplify_eq. rewrite !list_lookup_insert_eq by (by eapply lookup_lt_Some). done.
      * assert (Z.to_nat s ≠ Z.to_nat s') by (intros E; apply Hne; by pose proof (uid_slot_inj _ _ _ _ Hs Hs' E) as [= ->]).
        rewrite !list_lookup_insert_ne by done. apply (T k'); [set_solver|done|done].
    + exists (s :: w'), ranks', scales'. rewrite E, <-app_assoc. split; [done|]. split; [by constructor|]. split; [done|]. split; [done|]. split.
      * intros k' s' ad' Hk'. apply (T' k'). set_solver.
      * intros j Hj. rewrite (U' j); [|intros k' s' Hk'; apply (Hj k'); set_solver]. unfold set_at. rewrite list_lookup_insert_ne; [done|]. apply (Hj k s); [set_solver|done].
  - destruct (IH seen (w ++ [s]) ranks scales) as (w' & ranks' & scales' & E & F & Lr' & Ls' & T' & U'); [set_solver|set_solver|done..|].
    exists (s :: w'), ranks', scales'. rewrite E, <-app_assoc. split; [done|]. split; [by constructor|]. split; [done|]. split; [done|]. split.
    + intros k' s' ad' Hk'. apply (T' k'). set_solver.
    + intros j Hj. apply (U' j). intros k' s' Hk'. apply (Hj k'). set_solver.
Qed.
End info.

(** ** The invariant of the manager *)

Record mgr_ok m p : Prop := {
  m_refs : refs_ok m;
  m_pool : memory_pool m = Some p;
  m_max : max_loras_per_batch p = m_max_loras_per_batch m;
  m_pool_ok : pool_ok in_dim out_dim p;
  m_contents : contents zero cast in_dim out_dim p (lora_modules m) (loras m);
  m_fits k ad : loras m !! k = Some ad → fits in_dim out_dim p (lora_modules m) ad;
  m_graph : match cuda_graph m with
            | Some (max_bs, g) => len (weight_indices g) = max_bs ∧ len (lora_ranks g) = m_max_loras_per_batch m ∧ len (scalings g) = m_max_loras_per_batch m
            | None => True
            end;
}.

(** What a batch is: a request for each id; a prefill batch has the lengths of its requests. *)
Definition batch_wf (fb : forward_batch) : Prop :=
  fb_batch_size fb = len (fb_lora_ids fb) ∧ fb_lora_ids fb ≠ [] ∧ (is_extend fb = true → len (extend_seq_lens fb) = fb_batch_size fb).

Definition loaded m (l : list (option string)) : Prop := ∀ k, Some k ∈ l → is_Some (loras m !! k).

(** Each request finds its own adapter. *)
Definition served m p (l : list (option string)) (info : LoRABatchInfo) : Prop :=
  ∀ i u, l !! i = Some u → ∃ s, weight_indices info !! i = Some s ∧ uid_to_buffer_id p !! u = Some s ∧ 0 ≤ s < m_max_loras_per_batch m ∧
    match u with
    | None => lora_ranks info !! Z.to_nat s = Some 0 ∧ holds_base zero in_dim p (Z.to_nat s)
    | Some k => ∃ ad, loras m !! k = Some ad ∧ holds zero cast in_dim out_dim p (lora_modules m) ad (Z.to_nat s) ∧
        lora_ranks info !! Z.to_nat s = Some (r (config ad)) ∧ scalings info !! Z.to_nat s = Some (scaling ad)
    end.

Lemma transfer_ok m p fb (out : adapter_info) : maps_ok (m_max_loras_per_batch m) (uid_to_buffer_id p) (buffer_id_to_uid p) →
  (∀ u, u ∈ fb_lora_ids fb → is_Some (uid_to_buffer_id p !! u)) → loaded m (fb_lora_ids fb) → fb_batch_size fb = len (fb_lora_ids fb) →
  0 ≤ m_max_loras_per_batch m →
  len (fb_lora_ids fb) ≤ len out.1.1 → len out.1.2 = m_max_loras_per_batch m → len out.2 = m_max_loras_per_batch m →
  contents zero cast in_dim out_dim p (lora_modules m) (loras m) →
  ∃ w l s, transfer_adapter_info p m fb out = Ok (w, l, s) ∧ len w = len out.1.1 ∧ len l = m_max_loras_per_batch m ∧ len s = m_max_loras_per_batch m ∧
    ∀ n lens indptr ml, served m p (fb_lora_ids fb) (mkInfo n lens indptr ml w l s).
Proof.
  intros M Hres Hload Hbs Hmax H1 H2 H3 Hc. destruct out as [[w0 l0] s0]. simpl in H1, H2, H3. unfold transfer_adapter_info.
  assert (∀ (A : Type) (x : A), len (replicate (Z.to_nat (m_max_loras_per_batch m)) x) = m_max_loras_per_batch m) as Lrep
    by (intros A x; unfold len; rewrite length_replicate; lia).
  destruct (adapter_info_ok _ _ _ M p eq_refl (loras m) (fb_lora_ids fb) [] [] (replicate (Z.to_nat (m_max_loras_per_batch m)) 0) (replicate (Z.to_nat (m_max_loras_per_batch m)) (0, 1)))
    as (w & ranks & scales & -> & F & Lr & Ls & T & U); [done|done|by apply Lrep|by apply Lrep|by intros k s ad ?%not_elem_of_nil|]. cbn [mbind pyres_bind].
  rewrite app_nil_l. pose proof (Forall2_length _ _ _ F) as Lw.
  destruct (copy_prefix_ok (fb_batch_size fb) w w0) as (w1 & -> & Lw1 & Hw1); [unfold len in *; lia|lia|]. cbn [mbind pyres_bind].
  destruct (copy_prefix_ok (m_max_loras_per_batch m) ranks l0) as (l1 & -> & Ll1 & Hl1); [lia|lia|]. cbn [mbind pyres_bind].
  destruct (copy_prefix_ok (m_max_loras_per_batch m) scales s0) as (s1 & -> & Ls1 & Hs1); [lia|lia|]. cbn [mbind pyres_bind].
  exists w1, l1, s1. split; [done|]. split; [done|]. split; [lia|]. split; [lia|]. intros n lens indptr ml i u Hu. simpl.
  destruct (Forall2_lookup_l _ _ _ _ _ F Hu) as (s & Hs & Hus). exists s. rewrite Hw1 by (by eapply lookup_lt_Some). split; [done|]. split; [done|].
  pose proof (slot_range _ _ _ M u s Hus) as Hr. split; [done|]. rewrite Hl1 by (unfold len in *; lia). specialize (Hc u s Hus). destruct u as [k|].
  - destruct (Hload k) as [ad Had]; [by eapply list_elem_of_lookup_2|]. exists ad. rewrite Hs1 by (unfold len in *; lia). split; [done|]. split; [by apply Hc|].
    apply (T k s ad); [|done|done]. rewrite app_nil_r. by eapply list_elem_of_lookup_2.
  - split; [|done]. rewrite (U (Z.to_nat s)); [apply lookup_replicate_2; lia|]. intros k s' _ Hk Es. by pose proof (uid_slot_inj _ _ _ M _ _ _ _ Hk Hus Es).
Qed.

Abbreviation prepare := (prepare_lora_batch_m zero cast).

Lemma mgr_ok_prepared m p A B ids us g b : let p' := changed A B ids us p in
  mgr_ok m p → pool_ok in_dim out_dim p' → contents zero cast in_dim out_dim p' (lora_modules m) (loras m) →
  (match g with Some (max_bs, g) => len (weight_indices g) = max_bs ∧ len (lora_ranks g) = m_max_loras_per_batch m ∧ len (scalings g) = m_max_loras_per_batch m | None => True end) →
  mgr_ok (with_info g b (with_pool (Some p') m)) p'.
Proof. intros p' [R Hp Hm _ _ Hf _] Hok Hc Hg. by split; [destruct R|..]. Qed.

Lemma len_cumsum a l : len (cumsum a l) = len l.
Proof. revert a. induction l as [|x l IH]; intros a; cbn [cumsum]; rewrite ?len_cons, ?IH; done. Qed.
Lemma len_replicate {A} n (x : A) : 0 ≤ n → len (replicate (Z.to_nat n) x) = n.
Proof. intros Hn. unfold len. rewrite length_replicate. lia. Qed.

(** The information is computed for every batch whose adapters are in the pool. *)
Definition ready m p (fb : forward_batch) : Prop :=
  ∀ out : adapter_info, len (fb_lora_ids fb) ≤ len out.1.1 → len out.1.2 = m_max_loras_per_batch m → len out.2 = m_max_loras_per_batch m →
    ∃ w l s, transfer_adapter_info p m fb out = Ok (w, l, s) ∧ len w = len out.1.1 ∧ len l = m_max_loras_per_batch m ∧ len s = m_max_loras_per_batch m ∧
      ∀ n lens indptr ml, served m p (fb_lora_ids fb) (mkInfo n lens indptr ml w l s).

Lemma new_batch_info_ok m p fresh fb : batch_wf fb → 0 ≤ m_max_loras_per_batch m → ready m p fb →
  ∃ info, new_batch_info fresh p fb m = Ok info ∧ bs info = fb_batch_size fb ∧ served m p (fb_lora_ids fb) info.
Proof.
  intros (Hbs & Hne & Hext) Hmax Hr. assert (len (fb_lora_ids fb) ≠ 0) by (by rewrite len_zero). pose proof (len_nonneg (fb_lora_ids fb)). unfold new_batch_info. cbv zeta.
  edestruct Hr as (w & l & s & -> & _ & _ & _ & Hs); [simpl; rewrite len_fmap, len_arange; lia|by apply len_replicate|by apply len_replicate|]. cbn [mbind pyres_bind].
  assert (∃ ml, (if is_extend fb then py_max (extend_seq_lens fb) else mret 1) = Ok ml) as [ml ->].
  { destruct (is_extend fb); [|by exists 1]. specialize (Hext eq_refl). destruct (extend_seq_lens fb); [rewrite len_nil in Hext; lia|by eexists]. }
  cbn [mbind pyres_bind].
  edestruct (copy_prefix_ok (fb_batch_size fb) (cumsum 0 (if is_extend fb then extend_seq_lens fb else replicate (Z.to_nat (fb_batch_size fb)) 1)))
    as (indptr & -> & _); [| |cbn [mbind pyres_bind]; eexists; split; [done|]; split; [done|]; apply Hs].
  - rewrite len_cumsum. destruct (is_extend fb); [by apply Hext|apply len_replicate; lia].
  - rewrite len_replicate; lia.
Qed.

Lemma set_batch_info_ok m p fresh fb : batch_wf fb → mgr_ok m p → ready m p fb →
  ∃ g info, set_batch_info fresh p fb m = Ok (with_info g (Some info) m) ∧ bs info = fb_batch_size fb ∧ served m p (fb_lora_ids fb) info ∧
    (match g with Some (max_bs, g) => len (weight_indices g) = max_bs ∧ len (lora_ranks g) = m_max_loras_per_batch m ∧ len (scalings g) = m_max_loras_per_batch m | None => True end).
Proof.
  intros Hwf Hm Hr. assert (0 ≤ m_max_loras_per_batch m) as Hpos.
  { rewrite <-(m_max m p Hm), <-(uids_len _ _ _ (ok_maps _ _ _ (m_pool_ok m p Hm))). apply len_nonneg. }
  destruct (new_batch_info_ok m p fresh fb Hwf Hpos Hr) as (info & E & Hb & Hs). pose proof (m_graph m p Hm) as Hg. unfold set_batch_info.
  destruct (cuda_graph m) as [[max_bs g]|]; [|exists None, info; rewrite E; done].
  destruct ((fb_batch_size fb <=? max_bs) && is_cuda_graph fb) eqn:Eb; [|exists (Some (max_bs, g)), info; rewrite E; done].
  apply andb_true_iff in Eb as [Eb%Z.leb_le _]. destruct Hg as (G1 & G2 & G3), Hwf as (Hbs & _). unfold graph_batch_info.
  destruct (Hr (weight_indices g, lora_ranks g, scalings g)) as (w & l & s & -> & L1 & L2 & L3 & Hs'); [simpl; lia|done|done|]. cbn [mbind pyres_bind].
  eexists _, _. split; [done|]. split; [done|]. split; [apply Hs'|]. simpl in *. split_and!; [lia|done|done].
Qed.

(** A batch with room is prepared and served. *)
Lemma prepare_batch_ok m p fresh fb : mgr_ok m p → batch_wf fb → loaded m (fb_lora_ids fb) →
  room (m_max_loras_per_batch m) (list_to_set (fb_lora_ids fb)) (lora_refs m) →
  ∃ g A B ids us info, let p' := changed A B ids us p in let m' := with_info g (Some info) (with_pool (Some p') m) in
    prepare fresh fb m = Ok m' ∧ mgr_ok m' p' ∧ bs info = fb_batch_size fb ∧ served m' p' (fb_lora_ids fb) info ∧
    kept p p' (list_to_set (fb_lora_ids fb)) (lora_refs m) ∧ entered p ids (list_to_set (fb_lora_ids fb)).
Proof.
  intros Hm Hwf Hload Hroom. pose proof Hm as [R Hp Hmax Hok Hc Hf Hg].
  destruct (pool_prepare_ok zero cast in_dim out_dim (list_to_set (fb_lora_ids fb)) (lora_modules m) (loras m) (lora_refs m) p Hok Hc) as (A & B & ids & us & E & Hok' & Hc' & Hres & K & N).
  { by rewrite Hmax. }
  { intros u Hu _. destruct u as [k|]; [|done]. destruct (Hload k) as [ad Had]; [set_solver|]. eauto. }
  assert (mgr_ok (with_pool (Some (changed A B ids us p)) m) (changed A B ids us p)) as Hm1.
  { pose proof (mgr_ok_prepared m p A B ids us (cuda_graph m) (batch_info m) Hm Hok' Hc' Hg) as Hm1. exact Hm1. }
  destruct (set_batch_info_ok (with_pool (Some (changed A B ids us p)) m) (changed A B ids us p) fresh fb Hwf Hm1) as (g & info & Ei & Hb & Hs & Hg').
  { intros out H1 H2 H3. apply transfer_ok; try done.
    - rewrite <-(m_max _ _ Hm1). apply (ok_maps _ _ _ Hok').
    - intros u Hu. apply Hres. by apply elem_of_list_to_set.
    - apply Hwf.
    - simpl. rewrite <-Hmax, <-(uids_len _ _ _ (ok_maps _ _ _ Hok)). apply len_nonneg. }
  exists g, A, B, ids, us, info. cbv zeta. unfold prepare_lora_batch_m. rewrite (proj2 (Z.leb_le _ _)) by (unfold room in Hroom; lia).
  cbn [py_assert mbind pyres_bind]. rewrite Hp. cbn [mbind pyres_bind mret pyres_ret]. rewrite E. split; [exact Ei|]. split; [by apply mgr_ok_prepared|]. done.
Qed.

(** ** The life of the manager *)

(** Loading an adapter with a new id whose weights fit the pool, unloading an
    adapter that is loaded, and running a batch of loaded adapters that was
    accepted. *)
Inductive lora_step m : manager → Prop :=
  | step_load ref p res m' : is_Some (pinned ref) → memory_pool m = Some p → uid_to_buffer_id p !! Some (lora_id ref) = None →
      load ref m = Ok (res, m') → (∀ ad, loras m' !! lora_id ref = Some ad → fits in_dim out_dim p (lora_modules m) ad) → lora_step m m'
  | step_unload ref res m' : is_Some (lora_refs m !! lora_id ref) → unload_lora_adapter ref m = Ok (res, m') → lora_step m m'
  | step_batch fresh fb m' : batch_wf fb → loaded m (fb_lora_ids fb) → validate_lora_batch (list_to_set (fb_lora_ids fb)) m = Ok true →
      prepare fresh fb m = Ok m' → lora_step m m'.

Lemma loaded_refs m l : refs_ok m → loaded m l → ∀ k, Some k ∈ l → is_Some (lora_refs m !! k).
Proof. intros R Hl k Hk. apply elem_of_dom. rewrite <-(same_ids m R). by apply elem_of_dom, Hl. Qed.

Lemma validated_room m p l : mgr_ok m p → loaded m l →
  ∃ b, validate_lora_batch (list_to_set l) m = Ok b ∧ (b = true ↔ room (m_max_loras_per_batch m) (list_to_set l) (lora_refs m)).
Proof.
  intros Hm Hl. apply (validate_ok m p); [apply Hm|apply Hm|apply (m_max m p Hm)|]. intros k Hk%elem_of_list_to_set. by eapply loaded_refs; [apply Hm|..].
Qed.

Lemma load_mgr_ok m p ref res m' : mgr_ok m p → is_Some (pinned ref) → uid_to_buffer_id p !! Some (lora_id ref) = None → load ref m = Ok (res, m') →
  (∀ ad, loras m' !! lora_id ref = Some ad → fits in_dim out_dim p (lora_modules m) ad) → mgr_ok m' p.
Proof.
  intros Hm Hpin Hnew E Hfit. pose proof (load_refs_ok ref m res m' (m_refs m p Hm) Hpin E) as R'.
  destruct (load_cases ref m res m' (m_refs m p Hm) Hpin E) as (Hn & cs & _ & Hres). destruct Hm as [R Hp Hmax Hok Hc Hf Hg]. destruct res as [e|].
  - subst m'. by split.
  - destruct Hres as (ad & n & _ & _ & _ & ->). split; try done.
    + intros u s Hu. specialize (Hc u s Hu). destruct u as [k|]; [|done]. simpl. intros ad' [(<- & _)|(_ & Had)]%lookup_insert_Some; [congruence|]. by apply Hc.
    + simpl in *. intros k ad' [(<- & <-)|(_ & Had)]%lookup_insert_Some; [apply Hfit; by rewrite lookup_insert_eq|by eapply Hf].
Qed.

Lemma unload_mgr_ok m p ref : mgr_ok m p → is_Some (lora_refs m !! lora_id ref) → ∃ m', unload_lora_adapter ref m = Ok (None, m') ∧ mgr_ok m' p.
Proof.
  intros Hm Hl. destruct (unload_cases ref m (m_refs m p Hm) Hl) as (n & E & Hn). eexists. split; [exact E|]. destruct Hm as [R Hp Hmax Hok Hc Hf Hg].
  split; try done; [by apply unload_refs_ok| |].
  - intros u s Hu. specialize (Hc u s Hu). destruct u as [k|]; [|done]. simpl. intros ad' [_ Had]%lookup_delete_Some. by apply Hc.
  - simpl. intros k ad' [_ Had]%lookup_delete_Some. by eapply Hf.
Qed.

Lemma lora_steps_ok m m' p : rtc lora_step m m' → mgr_ok m p → ∃ p', mgr_ok m' p'.
Proof.
  intros Hs. revert p. induction Hs as [m|m m1 m2 Hstep _ IH]; intros p Hm; [eauto|].
  enough (∃ p1, mgr_ok m1 p1) as (p1 & Hm1) by eauto. destruct Hstep as [ref q res m1 Hpin Hq Hnew E Hfit|ref res m1 Hl E|fresh fb m1 Hwf Hl Hv E].
  - rewrite (m_pool m p Hm) in Hq. injection Hq as <-. exists p. by eapply load_mgr_ok.
  - destruct (unload_mgr_ok m p ref Hm Hl) as (m1' & E' & Hm1). rewrite E in E'. injection E' as -> ->. eauto.
  - destruct (validated_room m p _ Hm Hl) as (b & Eb & Hr). rewrite Hv in Eb. injection Eb as <-.
    destruct (prepare_batch_ok m p fresh fb Hm Hwf Hl (proj1 Hr eq_refl)) as (g & A & B & ids & us & info & E' & Hm1 & _). rewrite E in E'. injection E' as ->. eauto.
Qed.

(** ** Start *)

Context (named_modules : list (str * option lora_layer)) (should_apply_lora : option (str → bool)).
Context (fill : bool → str → Z → Z → Z → Z → W) (own : option (str → pyres (Z * Z))).
Abbreviation start := (init_state zero config_file weights_file named_modules should_apply_lora fill own).

(** [in_dim] and [out_dim] are the sizes of the modules of the model. *)
Definition model_dims p : Prop := ∀ name, name ∈ pool_target_modules p →
  get_lora_A_shape own p name (max_lora_rank p) = Ok (max_loras_per_batch p, max_lora_rank p * get_stacked_multiply name, in_dim name) ∧
  get_lora_B_shape own p name (max_lora_rank p) = Ok (max_loras_per_batch p, out_dim name, max_lora_rank p) ∧ 0 ≤ in_dim name ∧ 0 ≤ out_dim name.

Lemma init_adapters_ok paths : ∀ m m', refs_ok m → Forall (fun ref => is_Some (pinned ref)) paths →
  init_lora_adapters zero config_file weights_file paths m = Ok m' → refs_ok m' ∧ m' = with_adapters (configs m') (loras m') (lora_refs m') (num_pinned_loras m') m.
Proof.
  induction paths as [|ref paths IH]; intros m m' R Hf E; cbn [init_lora_adapters] in E; [injection E as <-; split; [done|by destruct m]|].
  apply Forall_cons in Hf as [Hp Hf]. pyinv. destruct a as [res m1]. destruct res as [e|]; [done|]. destruct (IH m1 m') as [R' Em]; [by eapply load_refs_ok|done|done|].
  split; [done|]. destruct (load_cases ref m None m1 R Hp) as (_ & cs & _ & ad & n & _ & _ & _ & E1); [done|]. by rewrite Em, E1.
Qed.

Lemma init_state_ok max tps tpr hf bk rank tms paths m p : start rank tms paths (new_manager hf max tps tpr bk) = Ok m → 0 ≤ max →
  Forall (fun ref => is_Some (pinned ref)) paths → memory_pool m = Some p → 0 ≤ max_lora_rank p → model_dims p →
  (∀ k ad, loras m !! k = Some ad → fits in_dim out_dim p (lora_modules m) ad) → mgr_ok m p.
Proof.
  intros E Hmax Hpin Hp Hrank Hdims Hfit. unfold init_state in E. apply pyres_bind_ok in E as (? & _ & E). apply pyres_bind_ok in E as (m1 & E1 & E).
  apply pyres_bind_ok in E as (m2 & E2 & E). apply pyres_bind_ok in E as (m3 & E3 & E). apply pyres_bind_ok in E as (m4 & E4 & E). apply pyres_bind_ok in E as (? & _ & E). injection E as ->.
  apply init_adapters_ok in E1 as [R1 E1]; [|by split; simpl; try set_solver; lia|done].
  unfold init_lora_shapes in E2. apply pyres_bind_ok in E2 as (tset & _ & E2). injection E2 as <-. unfold init_lora_modules in E3. apply pyres_bind_ok in E3 as (mods & _ & E3). injection E3 as <-.
  unfold init_memory_pool in E4. apply pyres_bind_ok in E4 as (p1 & Ep & E4). injection E4 as <-. simpl in Hp. injection Hp as ->.
  assert (m_max_loras_per_batch m1 = max ∧ cuda_graph m1 = None) as [Hm1 Hg1] by (by rewrite E1). simpl in *.
  match type of Ep with context [LoRAMemoryPool_init _ _ _ _ _ _ ?x _] => set (rk := x) in * end.
  assert (∃ A B, p = set_buffers A B (mkPool (LoraManager.hf m1) (num_hidden_layers (LoraManager.hf m1)) (m_max_loras_per_batch m1) (m_tp_size m1) (m_tp_rank m1) rk tset ∅ ∅ ∅
    (replicate (Z.to_nat (m_max_loras_per_batch m1)) EmptySlot))) as (A0 & B0 & Ep0).
  { unfold LoRAMemoryPool_init, init_buffers in Ep. pyinv. eauto. }
  destruct (pool_init_ok zero cast in_dim out_dim fill own (LoraManager.hf m1) (m_max_loras_per_batch m1) (m_tp_size m1) (m_tp_rank m1) rk tset) as (A & B & Ep' & Hok & Hcont).
  { lia. } { by rewrite Ep0 in Hrank. } { intros name Hn. rewrite Ep0 in Hdims. exact (Hdims name Hn). }
  rewrite Ep in Ep'. injection Ep' as ->. split; try done.
  - by destruct R1.
  - simpl. by rewrite Hg1.
Qed.

(** C8: batches of loaded adapters. The references of the adapters have
    their [pinned] flag set, an adapter is loaded under an id that no slot
    of the pool still holds, the pool has the dimensions of the model, and
    the weights of every adapter loaded fit the pool ([fits]): its rank is
    at most that of the pool and its weights normalise to the shapes its
    configuration and the model promise, which the code does not check (see
    [up_proj_only_unusable]). From the start of the server on, whatever such
    adapters are loaded and unloaded and whatever accepted batches run,
    [validate_lora_batch] answers for every well-formed batch of loaded
    adapters, and says yes exactly when the batch fits beside the pinned
    adapters it does not use; an accepted batch is then prepared without an
    error, every request finds the weights, the rank and the scaling of its
    own adapter in its slot (the base model zeros and rank 0), and no pinned
    adapter leaves its slot. *)
Theorem lora_batches_served max tps tpr hf bk rank tms paths m0 p0 m fb fresh :
  start rank tms paths (new_manager hf max tps tpr bk) = Ok m0 → 0 ≤ max → Forall (fun ref => is_Some (pinned ref)) paths →
  memory_pool m0 = Some p0 → 0 ≤ max_lora_rank p0 → model_dims p0 →
  (∀ k ad, loras m0 !! k = Some ad → fits in_dim out_dim p0 (lora_modules m0) ad) →
  rtc lora_step m0 m → batch_wf fb → loaded m (fb_lora_ids fb) →
  ∃ b, validate_lora_batch (list_to_set (fb_lora_ids fb)) m = Ok b ∧
    (b = true ↔ room (m_max_loras_per_batch m) (list_to_set (fb_lora_ids fb)) (lora_refs m)) ∧
    (b = true → ∃ p p' m' info, memory_pool m = Some p ∧ prepare fresh fb m = Ok m' ∧ memory_pool m' = Some p' ∧ batch_info m' = Some info ∧
      bs info = fb_batch_size fb ∧ served m' p' (fb_lora_ids fb) info ∧
      ∀ u s, is_pinned (lora_refs m) u = true → uid_to_buffer_id p !! u = Some s → uid_to_buffer_id p' !! u = Some s).
Proof.
  intros E Hmax Hpin Hp0 Hr Hd Hf Hs Hwf Hl. destruct (lora_steps_ok m0 m p0 Hs) as (p & Hm); [by eapply init_state_ok|].
  destruct (validated_room m p _ Hm Hl) as (b & Eb & Hb). exists b. split; [done|]. split; [done|]. intros ->.
  destruct (prepare_batch_ok m p fresh fb Hm Hwf Hl (proj1 Hb eq_refl)) as (g & A & B & ids & us & info & E' & Hm' & Hbs & Hsv & K & _).
  eexists p, (changed A B ids us p), _, info. split; [apply Hm|]. split; [exact E'|]. split; [done|]. split; [done|]. split; [done|]. split; [exact Hsv|].
  intros u s Hu Hus. apply (K u s Hus). by right.
Qed.

End manager.
