(* ===== verification/LoraExamples.v ===== *)
(** * LoRA adapters of a small model

    A model with one layer, an adapter for all its modules and others that are
    not complete: the batches of [LoraManagerProofs] run on them, and the
    adapters that are accepted although no batch can use them. *)

From S2P Require Import Prelude PyString Eplb EplbProofs ExpertLocation LoraPool LoraPoolProofs LoraManager LoraManagerProofs.
Open Scope Z_scope.

(** ** Deciding whether an adapter fits *)

Section check.
Context {W : Type} `{PySet} (in_dim out_dim : str → Z).

Definition weight_okb (n m : Z) (w : option (tensor W)) : bool :=
  match w with
  | Some w => (len (t_rows w) =? n) && (t_cols w =? m) && forallb (fun row => len row =? m) (t_rows w)
  | None => true
  end.

Definition fitsb (p : LoRAMemoryPool W) (mods : lora_modules_t) (ad : LoRAAdapter W) : bool :=
  (0 <=? r (config ad)) && (r (config ad) <=? max_lora_rank p) &&
  forallb (fun i =>
    match layers ad !! i with
    | Some ws =>
        match layer_temps p mods (Z.of_nat i) ws with
        | Ok temps => forallb (fun name => weight_okb (r (config ad) * get_stacked_multiply name) (in_dim name) (temps.1 !! name) &&
                                 weight_okb (out_dim name) (r (config ad)) (temps.2 !! name)) (elements (pool_target_modules p))
        | Raise _ => false
        end
    | None => false
    end) (seq 0 (Z.to_nat (num_layer p))).

Lemma weight_okb_ok n m w : weight_okb n m w = true → weight_ok n m w.
Proof.
  destruct w as [w|]; [|done]. simpl. intros [[Hl Hc]%andb_true_iff Hf]%andb_true_iff. split; [by apply Z.eqb_eq|]. split; [by apply Z.eqb_eq|].
  apply Forall_forall. intros row Hrow. apply Z.eqb_eq.
  apply (proj1 (forallb_forall _ _) Hf). by apply list_elem_of_In.
Qed.

Lemma fitsb_ok p mods ad : fitsb p mods ad = true → fits in_dim out_dim p mods ad.
Proof.
  unfold fitsb. intros [[H1%Z.leb_le H2%Z.leb_le]%andb_true_iff Hf]%andb_true_iff. split; [lia|]. intros i Hi.
  assert (In i (seq 0 (Z.to_nat (num_layer p)))) as Hin by (apply in_seq; lia). pose proof (proj1 (forallb_forall _ _) Hf i Hin) as Hfi. simpl in Hfi.
  destruct (layers ad !! i) as [ws|]; [|done]. destruct (layer_temps p mods (Z.of_nat i) ws) as [temps|] eqn:Et; [|done]. exists ws, temps. split; [done|]. split; [done|].
  intros name Hn%elem_of_elements%list_elem_of_In. pose proof (proj1 (forallb_forall _ _) Hfi name Hn) as [Ha Hb]%andb_true_iff. split; by apply weight_okb_ok.
Qed.
End check.

(** ** The model *)

Definition small_hf : hf_config := mkHF 2 2 2 2 None 1.
Definition small_in (name : str) : Z := 2.
Definition small_out (name : str) : Z := if bool_decide (name = lit "qkv_proj") then 6 else if bool_decide (name = lit "gate_up_proj") then 4 else 2.

Definition row_vector (x : Z) : tensor Z := mkT 2 [[x; x + 1]].
Definition col_vector (x : Z) : tensor Z := mkT 1 [[x]; [x + 1]].

(** The two matrices of a module, of rank 1. *)
Definition module_weights (module : string) (x : Z) : list (str * tensor Z) :=
  [(lit ("model.layers.0." +:+ module +:+ ".lora_A.weight"), row_vector x); (lit ("model.layers.0." +:+ module +:+ ".lora_B.weight"), col_vector x)].

Definition small_modules (path : string) : list string :=
  if bool_decide (path = "up"%string) then ["mlp.up_proj"%string] else ["attn.q_proj"; "attn.k_proj"; "attn.v_proj"; "attn.o_proj"; "mlp.gate_proj"]%string.

Definition small_config (path : string) : pyres raw_config :=
  mret (mkRaw (Some (ModuleList (if bool_decide (path = "up"%string) then [lit "up_proj"]
                                 else [lit "q_proj"; lit "k_proj"; lit "v_proj"; lit "o_proj"; lit "gate_proj"])))
    (Some 1) (Some 2) (Some (lit "LORA"))).
Definition small_weights (path : string) : pyres (list (str * tensor Z)) :=
  mret (concat (imap (fun i n => module_weights n (10 * Z.of_nat i)) (small_modules path))).

Definition small_named : list (str * option lora_layer) :=
  [(lit "model", None); (lit "model.layers.0.attn.qkv_proj", Some (QKVParallelLinearWithLoRA (mkQKV 2 2 1 (2, 2, 2))));
   (lit "model.layers.0.attn.o_proj", Some (RowParallelLinearWithLoRA 2)); (lit "model.layers.0.mlp.gate_up_proj", Some (MergedColumnParallelLinearWithLoRA 2 2))].

Definition all_modules : list str := [lit "q_proj"; lit "k_proj"; lit "v_proj"; lit "o_proj"; lit "gate_proj"; lit "up_proj"].

Definition small_start (rank : option Z) (paths : list LoRARef) : pyres (LoRAManager Z) :=
  init_state 0 small_config small_weights small_named None (fun _ _ _ _ _ _ => 7) None rank (Some all_modules) paths (new_manager small_hf 2 1 0 (lit "triton")).

Definition small_ref (id : string) (path : string) (pin : bool) : LoRARef := mkRef id (Some id) (Some path) (Some pin).
Abbreviation small_load := (load_lora_adapter 0 small_config small_weights).
Abbreviation small_prepare := (prepare_lora_batch_m 0 id (fun _ => 5)).

Definition manager_of (x : pyres (LoRAManager Z)) : LoRAManager Z := match x with Ok m => m | Raise _ => new_manager small_hf 2 1 0 [] end.
Definition loaded_of (x : pyres (option pyexn * LoRAManager Z)) : LoRAManager Z := manager_of (rm ← x; mret rm.2).
Definition pool_of (m : LoRAManager Z) : LoRAMemoryPool Z :=
  default (mkPool small_hf 1 0 1 0 0 ∅ ∅ ∅ ∅ []) (memory_pool m).

(** A pinned adapter at the start, then another one, then one that changes only [up_proj]. *)
Definition m_start := Eval vm_compute in manager_of (small_start (Some 2) [small_ref "a" "dir" true]).
Definition m_two := Eval vm_compute in loaded_of (small_load (small_ref "b" "dir" false) m_start).
Definition decode_batch (ids : list (option string)) : forward_batch := mkForward ids (len ids) false false [].

Definition pair_batch : forward_batch := decode_batch [Some "b"%string; Some "a"%string; Some "b"%string].

Lemma small_dims : model_dims small_in small_out None (pool_of m_start).
Proof.
  intros name Hn. assert (Forall (fun name => get_lora_A_shape None (pool_of m_start) name 2 = Ok (2, 2 * get_stacked_multiply name, 2) ∧
    get_lora_B_shape None (pool_of m_start) name 2 = Ok (2, small_out name, 2) ∧ 0 ≤ small_out name) (elements (pool_target_modules (pool_of m_start)))) as Hf.
  { vm_compute. repeat constructor; done. }
  apply elem_of_elements in Hn. destruct (proj1 (Forall_forall _ _) Hf name Hn) as (H1 & H2 & H3). split; [exact H1|]. split; [exact H2|]. split; [done|exact H3].
Qed.

Lemma small_fits (m : LoRAManager Z) p : forallb (fun kv => fitsb small_in small_out p (lora_modules m) kv.2) (map_to_list (loras m)) = true →
  ∀ k ad, loras m !! k = Some ad → fits small_in small_out p (lora_modules m) ad.
Proof.
  intros Hf k ad Had. apply fitsb_ok. apply elem_of_map_to_list, list_elem_of_In in Had. apply (proj1 (forallb_forall _ _) Hf (k, ad) Had).
Qed.

Lemma small_step : lora_step 0 id small_config small_weights small_in small_out m_start m_two.
Proof.
  eapply (step_load _ _ _ _ _ _ _ (small_ref "b" "dir" false) (pool_of m_start) None); [by eexists|vm_compute; reflexivity..|].
  intros ad Had. apply fitsb_ok. revert ad Had. assert (match loras m_two !! lora_id (small_ref "b" "dir" false) with Some ad => fitsb small_in small_out (pool_of m_start) (lora_modules m_start) ad | None => true end = true) as Hf
    by (vm_compute; reflexivity). intros ad Had. by rewrite Had in Hf.
Qed.

(** Two adapters, one pinned, and a batch with both. *)
Lemma lora_batches_served_witness :
  validate_lora_batch (list_to_set (fb_lora_ids pair_batch)) m_two = Ok true ∧
  ∃ b, validate_lora_batch (list_to_set (fb_lora_ids pair_batch)) m_two = Ok b ∧
    (b = true ↔ room (m_max_loras_per_batch m_two) (list_to_set (fb_lora_ids pair_batch)) (lora_refs m_two)) ∧
    (b = true → ∃ p p' m' info, memory_pool m_two = Some p ∧ small_prepare pair_batch m_two = Ok m' ∧ memory_pool m' = Some p' ∧ batch_info m' = Some info ∧
      bs info = fb_batch_size pair_batch ∧ served 0 id small_in small_out m' p' (fb_lora_ids pair_batch) info ∧
      ∀ u s, is_pinned (lora_refs m_two) u = true → uid_to_buffer_id p !! u = Some s → uid_to_buffer_id p' !! u = Some s).
Proof.
  split; [vm_compute; reflexivity|].
  apply (lora_batches_served 0 id small_config small_weights small_in small_out small_named None (fun _ _ _ _ _ _ => 7) None 2 1 0 small_hf (lit "triton") (Some 2) (Some all_modules)
    [small_ref "a" "dir" true] m_start (pool_of m_start) m_two pair_batch (fun _ => 5)).
  - vm_compute. reflexivity.
  - lia.
  - constructor; [by eexists|constructor].
  - reflexivity.
  - vm_compute. discriminate.
  - exact small_dims.
  - apply small_fits. vm_compute. reflexivity.
  - eapply rtc_l; [exact small_step|apply rtc_refl].
  - split; [reflexivity|]. split; [done|]. done.
  - intros k Hk. assert (k = "a"%string ∨ k = "b"%string) as [-> | ->] by (cbn in Hk; set_solver); vm_compute; eauto.
Defined.

(** ** Adapters that no batch can use *)

(** An adapter that changes only [up_proj] is accepted and loaded, its batch is
    validated, and preparing the batch raises: no module of the pool has the
    name of its weights, since only the weights of [gate_proj] are renamed. *)
Example up_proj_only_unusable :
  let m := loaded_of (small_load (small_ref "c" "up" false) m_two) in
  match small_load (small_ref "c" "up" false) m_two with Ok (res, _) => res = None | Raise _ => False end ∧
  validate_lora_batch {[Some "c"%string]} m = Ok true ∧ small_prepare (decode_batch [Some "c"%string]) m = Raise ValueError.
Proof. vm_compute. done. Qed.

(** An adapter given at the start is not compared with [max_lora_rank]: the
    server starts, and the first batch with the adapter raises. *)
Example start_rank_unchecked :
  let m := manager_of (small_start (Some 0) [small_ref "a" "dir" true]) in
  match small_start (Some 0) [small_ref "a" "dir" true] with Ok _ => True | Raise _ => False end ∧
  validate_lora_batch {[Some "a"%string]} m = Ok true ∧ small_prepare (decode_batch [Some "a"%string]) m = Raise AssertionError.
Proof. vm_compute. done. Qed.

(** A load without [pinned] fails after the adapter was stored. *)
Example load_unset_pinned_stored :
  match small_load (mkRef "d" (Some "d"%string) (Some "dir"%string) None) m_two with
  | Ok (res, m) => res = Some TypeError ∧ is_Some (loras m !! "d"%string) ∧ is_Some (lora_refs m !! "d"%string)
  | Raise _ => False
  end.
Proof. vm_compute. split; [done|]. split; eauto. Qed.
