(* ===== verification/LoraRegistry.v ===== *)
(** * The LoRA registry of the tokenizer process

    Models [srt/lora/lora_registry.py] and the parts of
    [srt/managers/tokenizer_manager.py] that use it: names are looked up and the
    use of each adapter is counted, so that an adapter is unloaded only when no
    request needs it.  The coroutines of one event loop interleave; an event is
    what one of them does between two suspensions.  A section under the writer
    lock does not suspend, so it is one event, which is possible while no
    coroutine is between the lookup and the increments of [acquire], the only
    section under the reader lock that suspends.  [ConcurrentCounter] is a number:
    its condition is never held across a suspension.

    The scheduler is a [LoraBackend]: messages to it are handled in the order in
    which they are sent.  [leaked] is not in the code: it lists the uses of
    adapters that were counted and will never be released. *)

From S2P Require Import Prelude LoraPool.
Open Scope Z_scope.

(** ** The scheduler *)

(** What the tokenizer relies on: loading and unloading change the set of loaded
    adapters, and batches of loaded adapters run.  [b_known] are the ids that
    left a trace in the scheduler. *)
Class LoraBackend (B Batch : Type) := {
  b_ok : B → Prop;
  b_loaded : B → gset string;
  b_known : B → gset string;
  b_load : LoRARef → B → pyres (bool * B);
  b_unload : LoRARef → B → pyres (bool * B);
  b_batch : Batch → B → pyres (bool * B);
  b_ids : Batch → gset string;
  b_loaded_known b : b_ok b → b_loaded b ⊆ b_known b;
  b_load_ok ref b : b_ok b → is_Some (lora_name ref) → is_Some (lora_path ref) → is_Some (pinned ref) → lora_id ref ∉ b_known b →
    ∃ res b', b_load ref b = Ok (res, b') ∧ b_ok b' ∧ b_known b' ⊆ {[lora_id ref]} ∪ b_known b ∧
      b_loaded b' = if res then {[lora_id ref]} ∪ b_loaded b else b_loaded b;
  b_unload_ok ref b : b_ok b → lora_id ref ∈ b_loaded b →
    ∃ b', b_unload ref b = Ok (true, b') ∧ b_ok b' ∧ b_known b' ⊆ b_known b ∧ b_loaded b' = b_loaded b ∖ {[lora_id ref]};
  b_batch_ok x b : b_ok b → b_ids x ⊆ b_loaded b →
    ∃ res b', b_batch x b = Ok (res, b') ∧ b_ok b' ∧ b_known b' ⊆ b_known b ∧ b_loaded b' = b_loaded b;
}.

(** ** State *)

(** A [generate_request]: in [acquire], with the ids that were counted, those
    that are still to be, and the ids of the requests it will send; then sending. *)
Inductive task := Acquiring (done todo sends : list string) | Sending (sends : list string).

(** The coroutine that holds [lora_update_lock]. *)
Inductive update :=
  | Idle
  | Loading (ref : LoRARef)       (* the scheduler loads the adapter *)
  | Registering (ref : LoRARef)   (* it succeeded; waiting for the writer lock *)
  | Waiting (id : string)         (* in [wait_for_unload] *)
  | Unloading (id : string).      (* the scheduler unloads the adapter *)

Section registry.
Context {B Batch : Type} `{LoraBackend B Batch}.
Context (max_loaded_loras : option Z).

Record state := mkState {
  _registry : gmap (option string) LoRARef;
  _counters : gmap string Z;
  tasks : list task;
  running : list string;     (* the adapters of the requests in [rid_to_state] *)
  releasing : list string;   (* the pending calls of [release] *)
  updating : update;
  scheduler : B;
  used : gset string;        (* the ids [uuid4] has given *)
  leaked : list string;
}.

Definition with_registry (r : gmap (option string) LoRARef) (c : gmap string Z) (u : update) (s : state) : state :=
  mkState r c (tasks s) (running s) (releasing s) u (scheduler s) (used s) (leaked s).
Definition with_counters (c : gmap string Z) (s : state) : state :=
  mkState (_registry s) c (tasks s) (running s) (releasing s) (updating s) (scheduler s) (used s) (leaked s).
Definition with_requests (ts : list task) (run rel leak : list string) (s : state) : state :=
  mkState (_registry s) (_counters s) ts run rel (updating s) (scheduler s) (used s) leak.
Definition with_scheduler (u : update) (b : B) (s : state) : state :=
  mkState (_registry s) (_counters s) (tasks s) (running s) (releasing s) u b (used s) (leaked s).

(** No coroutine holds the reader lock across a suspension. *)
Definition is_acquiring (t : task) : bool := match t with Acquiring _ _ _ => true | Sending _ => false end.
Definition no_readers (s : state) : bool := forallb (fun t => negb (is_acquiring t)) (tasks s).

(** ** Operations of the registry *)

Definition _lookup (s : state) (name : option string) : pyres (option string) :=
  match name with
  | None => mret None
  | Some _ => match _registry s !! name with None => Raise ValueError | Some ref => mret (Some (lora_id ref)) end
  end.

(** The counters are looked up before the increments run. *)
Definition increment (id : string) (s : state) : state :=
  match _counters s !! id with Some n => with_counters (<[id := n + 1]> (_counters s)) s | None => s end.
Definition decrement (id : string) (s : state) : pyres state :=
  match _counters s !! id with Some n => mret (with_counters (<[id := n - 1]> (_counters s)) s) | None => Raise KeyError end.

Definition _register_adapter (ref : LoRARef) (s : state) : pyres state :=
  match _registry s !! lora_name ref with
  | Some _ => Raise ValueError
  | None => mret (with_registry (<[lora_name ref := ref]> (_registry s)) (<[lora_id ref := 0]> (_counters s)) (updating s) s)
  end.

Definition unregister (name : string) (s : state) : pyres (string * state) :=
  match _registry s !! Some name with
  | None => Raise ValueError
  | Some ref => mret (lora_id ref, with_registry (delete (Some name) (_registry s)) (_counters s) (updating s) s)
  end.

(** The assertions of [wait_for_unload], and what it does when the counter is zero. *)
Definition wait_checks (id : string) (s : state) : pyres unit :=
  py_assert (bool_decide (_registry s !! Some id = None)) ;; py_assert (bool_decide (is_Some (_counters s !! id))).
Definition wait_done (id : string) (s : state) : option state :=
  match _counters s !! id with
  | Some n => if n =? 0 then Some (with_registry (_registry s) (delete id (_counters s)) (Unloading id) s) else None
  | None => None
  end.

(** ** Events *)

Inductive event :=
  | EAcquire (lora_path : list (option string)) (parallel_sample_num : nat)  (* [acquire] up to the increments *)
  | EIncrement (i : nat)                 (* a counter of task [i] *)
  | EAcquired (i : nat)                  (* task [i] leaves [acquire] *)
  | ESend (i : nat)                      (* task [i] sends its next request *)
  | EFail (i : nat)                      (* task [i] raises before it sent all requests *)
  | EFinish (j : nat)                    (* an output finishes request [j]: [_handle_batch_output] *)
  | EServerError (j : nat)               (* the same, with a server error, which the waiting coroutine sees *)
  | EReject (j : nat)                    (* the queue is full: [_handle_abort_req], then [_wait_one_response] *)
  | EAbortQueued (j : nat)               (* the request is aborted in the queue: [_handle_abort_req] *)
  | ERelease (j : nat)                   (* a pending [release] runs *)
  | EBatch (x : Batch)                   (* the scheduler runs a batch *)
  | ELoad (id : string) (name path : string) (pinned : bool)  (* [load_lora_adapter], up to the message *)
  | ELoaded                              (* the answer of the scheduler *)
  | ERegister
  | EUnload (name : string)              (* [unload_lora_adapter], up to the wait *)
  | EWaited
  | EUnloaded.

(** The requests a batch sends: with parallel sampling, one for the common prefix of each prompt first. *)
Definition sends_of (n : nat) (ids : list (option string)) : list string :=
  omap id ids ++ (if (1 <? n)%nat then omap id (take (length ids / n) ids) else []).

Definition repeat_ids (n : nat) (l : list (option string)) : list (option string) := concat (replicate n l).

(** The result of an event: [None] when it is not possible in the state, [Raise]
    when the scheduler raises. *)
Abbreviation outcome := (option (pyres state)).

(** [acquire] up to the increments; an unknown name is a [ValueError] to the client. *)
Definition acquire (names : list (option string)) (n : nat) (s : state) : outcome :=
  match mapM (_lookup s) (repeat_ids n names) with
  | Raise _ => Some (Ok s)
  | Ok ids =>
      if negb (forallb (fun id => bool_decide (is_Some (_counters s !! id))) (omap id ids)) then Some (Ok s)  (* [KeyError] *)
      else Some (Ok (with_requests (tasks s ++ [Acquiring [] (omap id ids) (sends_of n ids)]) (running s) (releasing s) (leaked s) s))
  end.

(** One of the coroutines that [acquire] gathers. *)
Definition acquire_increment (i : nat) (s : state) : outcome :=
  match tasks s !! i with
  | Some (Acquiring d (id :: todo) sends) =>
      Some (Ok (increment id (with_requests (<[i := Acquiring (d ++ [id]) todo sends]> (tasks s)) (running s) (releasing s) (leaked s) s)))
  | _ => None
  end.
Definition acquired (i : nat) (s : state) : outcome :=
  match tasks s !! i with
  | Some (Acquiring _ [] sends) => Some (Ok (with_requests (<[i := Sending sends]> (tasks s)) (running s) (releasing s) (leaked s) s))
  | _ => None
  end.

Definition _send_one_request (i : nat) (s : state) : outcome :=
  match tasks s !! i with
  | Some (Sending (id :: sends)) => Some (Ok (with_requests (<[i := Sending sends]> (tasks s)) (running s ++ [id]) (releasing s) (leaked s) s))
  | _ => None
  end.

(** [generate_request] raises, for instance because a prompt is too long. *)
Definition generate_request_raises (i : nat) (s : state) : outcome :=
  match tasks s !! i with
  | Some (Sending sends) => Some (Ok (with_requests (delete i (tasks s)) (running s) (releasing s) (leaked s ++ sends) s))
  | _ => None
  end.

(** The last output of a request deletes its state and starts [release]. *)
Definition _handle_batch_output (j : nat) (s : state) : outcome :=
  id ← running s !! j; Some (Ok (with_requests (tasks s) (delete j (running s)) (releasing s ++ [id]) (leaked s) s)).

(** For a server error, the coroutine that waits for the response calls [release] too. *)
Definition output_server_error (j : nat) (s : state) : outcome :=
  id ← running s !! j; Some (Ok (with_requests (tasks s) (delete j (running s)) (releasing s ++ [id; id]) (leaked s) s)).

(** [_handle_abort_req] for a full queue: [_wait_one_response] deletes the state and calls [release]. *)
Definition abort_queue_full (j : nat) (s : state) : outcome :=
  id ← running s !! j; Some (Ok (with_requests (tasks s) (delete j (running s)) (releasing s ++ [id]) (leaked s) s)).

(** [_handle_abort_req] for a request that was aborted in the queue: nothing releases the adapter. *)
Definition abort_before_prefill (j : nat) (s : state) : outcome :=
  id ← running s !! j; Some (Ok (with_requests (tasks s) (delete j (running s)) (releasing s) (leaked s ++ [id]) s)).

(** A missing counter is a [KeyError] that ends the coroutine. *)
Definition release (j : nat) (s : state) : outcome :=
  id ← releasing s !! j;
  let s := with_requests (tasks s) (running s) (delete j (releasing s)) (leaked s) s in
  match decrement id s with Ok s => Some (Ok s) | Raise _ => Some (Ok s) end.

(** The scheduler runs a batch of requests in flight. *)
Definition run_requests (x : Batch) (s : state) : outcome :=
  if decide (b_ids x ⊆ list_to_set (running s)) then Some ('(_, b) ← b_batch x (scheduler s); Ok (with_scheduler (updating s) b s))
  else None.

(** [load_lora_adapter] up to the message, its answer, and [register]. *)
Definition load_lora_adapter (id name path : string) (pin : bool) (s : state) : outcome :=
  match updating s with
  | Idle =>
      if decide (id ∈ used s) then None
      else if match max_loaded_loras with Some n => n <=? Z.of_nat (size (_registry s)) | None => false end then Some (Ok s)
      else Some (Ok (mkState (_registry s) (_counters s) (tasks s) (running s) (releasing s)
             (Loading (mkRef id (Some name) (Some path) (Some pin))) (scheduler s) ({[id]} ∪ used s) (leaked s)))
  | _ => None
  end.
Definition load_answered (s : state) : outcome :=
  match updating s with
  | Loading ref => Some ('(res, b) ← b_load ref (scheduler s); Ok (with_scheduler (if (res : bool) then Registering ref else Idle) b s))
  | _ => None
  end.
Definition register (s : state) : outcome :=
  match updating s with
  | Registering ref =>
      if no_readers s then
        match _register_adapter ref s with
        | Ok s => Some (Ok (with_scheduler Idle (scheduler s) s))
        | Raise _ => Some (Ok (with_scheduler Idle (scheduler s) s))
        end
      else None
  | _ => None
  end.

(** [unload_lora_adapter] up to the wait, the end of the wait, and the answer. *)
Definition unload_lora_adapter (name : string) (s : state) : outcome :=
  match updating s with
  | Idle =>
      if no_readers s then
        match unregister name s with
        | Ok (id, s) => match wait_checks id s with
                        | Ok _ => Some (Ok (with_scheduler (Waiting id) (scheduler s) s))
                        | Raise _ => Some (Ok s)
                        end
        | Raise _ => Some (Ok s)
        end
      else None
  | _ => None
  end.
Definition wait_for_unload (s : state) : outcome :=
  match updating s with Waiting id => s ← wait_done id s; Some (Ok s) | _ => None end.
Definition unload_answered (s : state) : outcome :=
  match updating s with
  | Unloading id => Some ('(_, b) ← b_unload (mkRef id None None None) (scheduler s); Ok (with_scheduler Idle b s))
  | _ => None
  end.

Definition exec (e : event) (s : state) : outcome :=
  match e with
  | EAcquire names n => acquire names n s
  | EIncrement i => acquire_increment i s
  | EAcquired i => acquired i s
  | ESend i => _send_one_request i s
  | EFail i => generate_request_raises i s
  | EFinish j => _handle_batch_output j s
  | EServerError j => output_server_error j s
  | EReject j => abort_queue_full j s
  | EAbortQueued j => abort_before_prefill j s
  | ERelease j => release j s
  | EBatch x => run_requests x s
  | ELoad id name path pin => load_lora_adapter id name path pin s
  | ELoaded => load_answered s
  | ERegister => register s
  | EUnload name => unload_lora_adapter name s
  | EWaited => wait_for_unload s
  | EUnloaded => unload_answered s
  end.

(** [LoRARegistry.__init__] with the adapters the scheduler loaded at the start. *)
Definition init (lora_paths : list LoRARef) (b : B) : pyres state :=
  foldl (fun acc ref => s ← acc; _register_adapter ref s)
    (mret (mkState ∅ ∅ [] [] [] Idle b (list_to_set (lora_id <$> lora_paths)) [])) lora_paths.

(** What goes beyond one release for each counted use: parallel sampling, and
    a server error that ends a request. *)
Definition fair (e : event) : bool :=
  match e with EAcquire _ n => (n =? 1)%nat | EServerError _ => false | _ => true end.

Inductive step (s : state) : state → Prop :=
  | step_event e s' : fair e = true → exec e s = Some (Ok s') → step s s'.
End registry.
Arguments state : clear implicits.
