(* ===== verification/LoraRegistryProofs.v ===== *)
(** * Requests and the adapters they use

    The registry of [LoraRegistry], for requests without parallel sampling and
    without server errors: the counter of an adapter is the number of its uses,
    an adapter is loaded as long as a request uses it, the scheduler never
    raises, and unloading an adapter ends exactly if none of its uses leaks. *)

From S2P Require Import Prelude LoraPool LoraRegistry.
Open Scope Z_scope.

(** ** Counting *)

Definition cnt (x : string) (l : list string) : Z := len (filter (fun y => y = x) l).

Lemma cnt_app x l k : cnt x (l ++ k) = cnt x l + cnt x k.
Proof. unfold cnt. by rewrite filter_app, len_app. Qed.
Lemma cnt_cons x y l : cnt x (y :: l) = (if decide (y = x) then 1 else 0) + cnt x l.
Proof. unfold cnt. rewrite filter_cons. case_decide; [by rewrite len_cons|done]. Qed.
Lemma cnt_perm x l k : l ≡ₚ k → cnt x l = cnt x k.
Proof. intros E. unfold cnt. apply len_perm. by rewrite E. Qed.
Lemma cnt_nonneg x l : 0 ≤ cnt x l.
Proof. apply len_nonneg. Qed.
Lemma cnt_zero x l : cnt x l = 0 ↔ x ∉ l.
Proof.
  unfold cnt. rewrite len_zero. split.
  - intros E Hx. assert (x ∈ filter (fun y => y = x) l) as Hf by (by apply list_elem_of_filter). rewrite E in Hf. by apply not_elem_of_nil in Hf.
  - intros Hx. apply filter_none. intros y Hy ->. done.
Qed.

Lemma insert_perm {A} (l : list A) i x y : l !! i = Some x → <[i := y]> l ≡ₚ y :: delete i l.
Proof.
  intros Hi. pose proof (lookup_lt_Some _ _ _ Hi). rewrite insert_take_drop, delete_take_drop by done. by rewrite Permutation_middle.
Qed.

(** The handler of an event. *)
Ltac exec_cbn := cbn [LoraRegistry.exec]; cbv beta delta [acquire acquire_increment acquired _send_one_request generate_request_raises _handle_batch_output
  output_server_error abort_queue_full abort_before_prefill release run_requests LoraRegistry.load_lora_adapter load_answered register
  LoraRegistry.unload_lora_adapter wait_for_unload unload_answered].
Ltac exec_cbn_in H := cbn [LoraRegistry.exec] in H; cbv beta delta [acquire acquire_increment acquired _send_one_request generate_request_raises _handle_batch_output
  output_server_error abort_queue_full abort_before_prefill release run_requests LoraRegistry.load_lora_adapter load_answered register
  LoraRegistry.unload_lora_adapter wait_for_unload unload_answered] in H.

Section proofs.
Context {B Batch : Type} `{LoraBackend B Batch} (max_loaded_loras : option Z).
Abbreviation state := (state B).
Abbreviation exec := (exec max_loaded_loras).
Implicit Types (s : state).

(** ** The uses of adapters *)

Definition held (t : task) : list string := match t with Acquiring d _ _ => d | Sending l => l end.
Definition uses s : list string := (tasks s ≫= held) ++ running s ++ releasing s ++ leaked s.

Lemma tasks_split (ts : list task) i t : ts !! i = Some t → ts ≫= held ≡ₚ held t ++ (delete i ts ≫= held).
Proof. intros Ht. by rewrite (delete_Permutation _ _ _ Ht) at 1. Qed.
Lemma tasks_update (ts : list task) i t t' : ts !! i = Some t → <[i := t']> ts ≫= held ≡ₚ held t' ++ (delete i ts ≫= held).
Proof. intros Ht. by rewrite (insert_perm _ _ _ _ Ht). Qed.

Definition registered s (id : string) : Prop := ∃ name ref, _registry s !! name = Some ref ∧ lora_id ref = id.

Record reg_inv s : Prop := {
  counted id n : _counters s !! id = Some n → n = cnt id (uses s);
  uses_counted id : id ∈ uses s → id ∈ dom (_counters s);
  acquiring_ok d todo sends : Acquiring d todo sends ∈ tasks s → sends = d ++ todo ∧ Forall (registered s) (d ++ todo);
  names_inj n1 n2 r1 r2 : _registry s !! n1 = Some r1 → _registry s !! n2 = Some r2 → lora_id r1 = lora_id r2 → n1 = n2;
  registered_counted id : registered s id → id ∈ dom (_counters s);
  counted_loaded : dom (_counters s) ⊆ b_loaded (scheduler s);
  sched_ok : b_ok (scheduler s);
  sched_known : b_known (scheduler s) ⊆ used s;
  updating_ok : match updating s with
    | Idle => True
    | Loading ref => is_Some (lora_name ref) ∧ is_Some (lora_path ref) ∧ is_Some (pinned ref) ∧ lora_id ref ∈ used s ∧ lora_id ref ∉ b_known (scheduler s)
    | Registering ref => lora_id ref ∈ b_loaded (scheduler s) ∧ lora_id ref ∉ dom (_counters s)
    | Waiting id => id ∈ dom (_counters s) ∧ ¬ registered s id
    | Unloading id => id ∈ b_loaded (scheduler s) ∧ id ∉ dom (_counters s)
    end;
}.

(** Requests move, and the uses stay. *)
Lemma inv_requests s ts run rel leak : reg_inv s → (ts ≫= held) ++ run ++ rel ++ leak ≡ₚ uses s →
  (∀ d todo sends, Acquiring d todo sends ∈ ts → sends = d ++ todo ∧ Forall (registered s) (d ++ todo)) → reg_inv (with_requests ts run rel leak s).
Proof.
  intros [I1 I2 I3 I4 I5 I6 I7 I8 I9] E Hts. assert (uses (with_requests ts run rel leak s) ≡ₚ uses s) as Eu by done. split; try done.
  - intros id n Hn. rewrite (cnt_perm _ _ _ Eu). by apply I1.
  - intros id Hid. rewrite Eu in Hid. by apply I2.
Qed.

Lemma elem_insert {A} (l : list A) i x y z : l !! i = Some x → z ∈ <[i := y]> l → z = y ∨ z ∈ l.
Proof. intros Hi Hz. apply list_elem_of_lookup in Hz as [j Hj]. apply list_lookup_insert_Some in Hj as [(_ & <- & _)|(_ & Hj)]; [by left|right; by eapply list_elem_of_lookup_2]. Qed.
Lemma elem_delete {A} (l : list A) i z : z ∈ delete i l → z ∈ l.
Proof. intros [j Hj]%list_elem_of_lookup. rewrite list_lookup_delete in Hj. case_decide; by eapply list_elem_of_lookup_2. Qed.

(** ** Requests *)

Lemma lookups_registered s names ids : mapM (_lookup s) names = Ok ids → Forall (registered s) (omap id ids).
Proof.
  revert ids. induction names as [|name names IH]; intros ids E; cbn [mapM] in E; pyinv; [done|]. specialize (IH _ ltac:(done)).
  destruct name as [name|]; simpl in *; [|pyinv; done]. destruct (_registry s !! Some name) as [ref|] eqn:Er; [|done]. pyinv. csimpl. constructor; [by exists (Some name), ref|done].
Qed.

Lemma inv_acquire s names s' : reg_inv s → exec (EAcquire names 1) s = Some (Ok s') → reg_inv s'.
Proof.
  intros I E. exec_cbn_in E. destruct (mapM (_lookup s) (repeat_ids 1 names)) as [ids|e] eqn:Em; [|by simplify_eq].
  destruct (negb _); [by simplify_eq|]. simplify_eq. apply inv_requests; [done| |].
  - rewrite bind_app. csimpl. by rewrite app_nil_r.
  - intros d todo sends [Ht|Ht]%elem_of_app; [by apply (acquiring_ok s I)|]. apply list_elem_of_singleton in Ht. simplify_eq. unfold sends_of. simpl. rewrite app_nil_r.
    split; [done|]. by eapply lookups_registered.
Qed.

Lemma inv_increment s i d id todo sends : reg_inv s → tasks s !! i = Some (Acquiring d (id :: todo) sends) →
  reg_inv (increment id (with_requests (<[i := Acquiring (d ++ [id]) todo sends]> (tasks s)) (running s) (releasing s) (leaked s) s)).
Proof.
  intros I Ht. destruct (acquiring_ok s I _ _ _ (list_elem_of_lookup_2 _ _ _ Ht)) as [-> Hreg]. assert (registered s id) as Hid by (apply (proj1 (Forall_forall _ _) Hreg); set_solver).
  pose proof (registered_counted s I id Hid) as Hc. apply elem_of_dom in Hc as [n Hn]. unfold increment. simpl. rewrite Hn.
  set (s' := with_counters _ _). assert (uses s' ≡ₚ id :: uses s) as Eu.
  { unfold uses, s'. simpl. rewrite (tasks_update _ _ _ _ Ht), (tasks_split _ _ _ Ht). simpl. rewrite <-!app_assoc. simpl. by rewrite <-Permutation_middle. }
  assert (dom (_counters s') = dom (_counters s)) as Ed by (unfold s'; simpl; apply dom_insert_lookup_L; eauto).
  destruct I as [I1 I2 I3 I4 I5 I6 I7 I8 I9]. split; try done.
  - intros id' m Hm. rewrite (cnt_perm _ _ _ Eu), cnt_cons. unfold s' in Hm. simpl in Hm. apply lookup_insert_Some in Hm as [(<- & <-)|(Hne & Hm)].
    + rewrite decide_True by done. rewrite <-(I1 _ _ Hn). lia.
    + rewrite decide_False by done. by apply I1.
  - intros id' Hid'. rewrite Eu in Hid'. rewrite Ed. apply elem_of_cons in Hid' as [->|]; [by apply elem_of_dom|by apply I2].
  - intros d' todo' sends' Hin. unfold s' in Hin. simpl in Hin. destruct (elem_insert _ _ _ _ _ Ht Hin) as [Eq|Hin']; [|by apply I3]. simplify_eq. by rewrite <-app_assoc.
  - intros id' Hr. rewrite Ed. by apply I5.
  - by rewrite Ed.
  - unfold s'. simpl. destruct (updating s); try done; rewrite dom_insert_lookup_L by eauto; done.
Qed.

Lemma inv_task s i t run rel leak t' : reg_inv s → tasks s !! i = Some t → (∀ d todo sends, t' ≠ Acquiring d todo sends) →
  held t' ++ run ++ rel ++ leak ≡ₚ held t ++ running s ++ releasing s ++ leaked s → reg_inv (with_requests (<[i := t']> (tasks s)) run rel leak s).
Proof.
  intros I Ht Hna E. apply inv_requests; [done| |].
  - unfold uses. rewrite (tasks_update _ _ _ _ Ht), (tasks_split _ _ _ Ht). rewrite <-!app_assoc, !(Permutation_app_swap_app _ (delete i (tasks s) ≫= held)). by rewrite E.
  - intros d todo sends Hin. destruct (elem_insert _ _ _ _ _ Ht Hin) as [Eq|Hin']; [by destruct (Hna d todo sends)|by apply (acquiring_ok s I)].
Qed.

Lemma inv_fail s i sends : reg_inv s → tasks s !! i = Some (Sending sends) → reg_inv (with_requests (delete i (tasks s)) (running s) (releasing s) (leaked s ++ sends) s).
Proof.
  intros I Ht. apply inv_requests; [done| |].
  - unfold uses. rewrite (tasks_split _ _ _ Ht). simpl. solve_Permutation.
  - intros d todo sends' Hin%elem_delete. by apply (acquiring_ok s I).
Qed.

Lemma inv_finish s j id rel leak : reg_inv s → running s !! j = Some id → rel ++ leak ≡ₚ id :: releasing s ++ leaked s →
  reg_inv (with_requests (tasks s) (delete j (running s)) rel leak s).
Proof.
  intros I Hj E. apply inv_requests; [done| |by apply (acquiring_ok s I)]. unfold uses. apply Permutation_app_head.
  rewrite E. etransitivity; [|apply Permutation_app_tail; symmetry; apply (delete_Permutation _ _ _ Hj)]. symmetry. apply Permutation_middle.
Qed.

Lemma inv_release s j id : reg_inv s → releasing s !! j = Some id →
  let s0 := with_requests (tasks s) (running s) (delete j (releasing s)) (leaked s) s in ∃ s', decrement id s0 = Ok s' ∧ reg_inv s'.
Proof.
  intros I Hj s0. assert (uses s ≡ₚ id :: uses s0) as Eu.
  { unfold uses, s0. simpl. etransitivity; [do 2 apply Permutation_app_head; apply Permutation_app_tail, (delete_Permutation _ _ _ Hj)|]. solve_Permutation. }
  assert (id ∈ dom (_counters s)) as Hc by (apply (uses_counted s I); rewrite Eu; set_solver). apply elem_of_dom in Hc as [n Hn].
  unfold decrement. simpl. rewrite Hn. eexists. split; [done|]. set (s' := with_counters _ _). assert (uses s' = uses s0) as Eu' by done.
  assert (dom (_counters s') = dom (_counters s)) as Ed by (unfold s'; simpl; apply dom_insert_lookup_L; eauto).
  destruct I as [I1 I2 I3 I4 I5 I6 I7 I8 I9]. split; try done.
  - intros id' m Hm. rewrite Eu'. unfold s' in Hm. simpl in Hm. apply lookup_insert_Some in Hm as [(<- & <-)|(Hne & Hm)].
    + rewrite (I1 _ _ Hn), (cnt_perm _ _ _ Eu), cnt_cons, decide_True by done. lia.
    + rewrite (I1 _ _ Hm), (cnt_perm _ _ _ Eu), cnt_cons, decide_False by done. lia.
  - intros id' Hid'. rewrite Ed. apply I2. rewrite Eu. apply elem_of_cons. by right.
  - intros id' Hr. rewrite Ed. by apply I5.
  - by rewrite Ed.
  - unfold s'. simpl. destruct (updating s); try done; rewrite dom_insert_lookup_L by eauto; done.
Qed.

(** ** Adapters *)

(** The scheduler changes without touching the adapters that are counted. *)
Lemma inv_scheduler s u b : reg_inv s → b_ok b → b_known b ⊆ used s → dom (_counters s) ⊆ b_loaded b →
  (match u with
   | Idle => True
   | Loading ref => is_Some (lora_name ref) ∧ is_Some (lora_path ref) ∧ is_Some (pinned ref) ∧ lora_id ref ∈ used s ∧ lora_id ref ∉ b_known b
   | Registering ref => lora_id ref ∈ b_loaded b ∧ lora_id ref ∉ dom (_counters s)
   | Waiting id => id ∈ dom (_counters s) ∧ ¬ registered s id
   | Unloading id => id ∈ b_loaded b ∧ id ∉ dom (_counters s)
   end) → reg_inv (with_scheduler u b s).
Proof. by intros []. Qed.

Lemma inv_batch s x : reg_inv s → b_ids x ⊆ list_to_set (running s) → ∃ res b, b_batch x (scheduler s) = Ok (res, b) ∧ reg_inv (with_scheduler (updating s) b s).
Proof.
  intros I Hx. destruct (b_batch_ok x (scheduler s) (sched_ok s I)) as (res & b & E & Hok & Hk & Hl).
  { intros id Hid%Hx%elem_of_list_to_set. apply (counted_loaded s I), (uses_counted s I). unfold uses. set_solver. }
  exists res, b. split; [done|]. pose proof (sched_known s I). apply inv_scheduler; [done|done|set_solver|rewrite Hl; apply I|].
  pose proof (updating_ok s I) as Hu. destruct (updating s); rewrite ?Hl; set_solver.
Qed.

Lemma inv_loaded s ref : reg_inv s → updating s = Loading ref →
  ∃ res b, b_load ref (scheduler s) = Ok (res, b) ∧ reg_inv (with_scheduler (if (res : bool) then Registering ref else Idle) b s).
Proof.
  intros I Eu. pose proof (updating_ok s I) as Hu. rewrite Eu in Hu. destruct Hu as (Hn & Hp & Hpin & Hused & Hnew).
  destruct (b_load_ok ref (scheduler s) (sched_ok s I) Hn Hp Hpin Hnew) as (res & b & E & Hok & Hk & Hl). exists res, b. split; [done|].
  pose proof (sched_known s I). pose proof (counted_loaded s I) as Hcl. pose proof (b_loaded_known _ (sched_ok s I)) as Hlk.
  apply inv_scheduler; [done|done|set_solver|rewrite Hl; destruct res; set_solver|]. destruct res; [|done]. rewrite Hl. split; [set_solver|]. intros Hd%Hcl%Hlk. done.
Qed.

Lemma inv_register s ref : reg_inv s → updating s = Registering ref →
  match _register_adapter ref s with Ok s' => reg_inv (with_scheduler Idle (scheduler s') s') | Raise _ => reg_inv (with_scheduler Idle (scheduler s) s) end.
Proof.
  intros I Eu. pose proof (updating_ok s I) as Hu. rewrite Eu in Hu. destruct Hu as [Hload Hnew]. unfold _register_adapter.
  destruct (_registry s !! lora_name ref) as [old|] eqn:Er; [by apply inv_scheduler; destruct I|].
  assert (∀ id, registered s id → id ≠ lora_id ref) as Hne. { intros id Hr ->. by apply Hnew, (registered_counted s I). }
  destruct I as [I1 I2 I3 I4 I5 I6 I7 I8 I9]. split; simpl.
  - intros id n [(<- & <-)|(_ & Hn)]%lookup_insert_Some; [|by apply I1]. symmetry. apply cnt_zero. intros Hin. by apply Hnew, I2.
  - intros id Hin. rewrite dom_insert_L. apply elem_of_union. right. by apply I2.
  - intros d todo sends Hin. destruct (I3 _ _ _ Hin) as [-> Hf]. split; [done|]. eapply Forall_impl; [exact Hf|]. intros id (name & r & Hr & <-). exists name, r. split; [|done].
    simpl. rewrite lookup_insert_ne; [done|]. congruence.
  - intros n1 n2 r1 r2 [(<- & <-)|(Hn1 & H1)]%lookup_insert_Some [(<- & <-)|(Hn2 & H2)]%lookup_insert_Some E; try done; [..|by eapply I4].
    + destruct (Hne (lora_id r2)); [by eexists _, _|done].
    + destruct (Hne (lora_id r1)); [by eexists _, _|done].
  - intros id (name & r & Hr & <-). simpl in Hr. apply lookup_insert_Some in Hr as [(<- & <-)|(_ & Hr)]; rewrite dom_insert_L; [set_solver|]. apply elem_of_union. right. apply I5. by eexists _, _.
  - rewrite dom_insert_L. set_solver.
  - done.
  - done.
  - done.
Qed.

Lemma no_readers_ok s d todo sends : no_readers s = true → Acquiring d todo sends ∉ tasks s.
Proof. unfold no_readers. intros Hf Hin. apply list_elem_of_In in Hin. by pose proof (proj1 (forallb_forall _ _) Hf _ Hin). Qed.

Lemma inv_unload s name id s' : reg_inv s → no_readers s = true → updating s = Idle → unregister name s = Ok (id, s') →
  reg_inv s' ∧ id ∈ dom (_counters s') ∧ ¬ registered s' id.
Proof.
  intros I Hr Eu E. unfold unregister in E. destruct (_registry s !! Some name) as [ref|] eqn:Er; [|done]. injection E as <- <-.
  assert (lora_id ref ∈ dom (_counters s)) as Hc by (apply (registered_counted s I); by eexists _, _). destruct I as [I1 I2 I3 I4 I5 I6 I7 I8 I9]. split; [split; simpl; try done|split].
  - intros d todo sends Hin. by apply no_readers_ok in Hin.
  - intros n1 n2 r1 r2 [_ H1]%lookup_delete_Some [_ H2]%lookup_delete_Some. by apply I4.
  - intros id (n & r & Hn & <-). simpl in Hn. apply lookup_delete_Some in Hn as [_ Hn]. apply I5. by eexists _, _.
  - by rewrite Eu.
  - done.
  - intros (n & r & Hn & Eid). simpl in Hn. apply lookup_delete_Some in Hn as [Hne Hn]. apply Hne. by eapply I4.
Qed.

Lemma inv_waited s id s' : reg_inv s → updating s = Waiting id → wait_done id s = Some s' → reg_inv s' ∧ id ∉ uses s.
Proof.
  intros I Eu E. pose proof (updating_ok s I) as Hu. rewrite Eu in Hu. destruct Hu as [Hc Hnr]. unfold wait_done in E. destruct (_counters s !! id) as [n|] eqn:En; [|done].
  destruct (n =? 0) eqn:Ez; [|done]. apply Z.eqb_eq in Ez as ->. injection E as <-. assert (id ∉ uses s) as Hnu by (apply cnt_zero; symmetry; by apply (counted s I)). split; [|done].
  destruct I as [I1 I2 I3 I4 I5 I6 I7 I8 I9]. split; simpl; try done.
  - intros id' n [_ Hn]%lookup_delete_Some. by apply I1.
  - intros id' Hin. rewrite dom_delete_L. apply elem_of_difference. split; [by apply I2|]. rewrite elem_of_singleton. intros ->. done.
  - intros id' Hr. rewrite dom_delete_L. apply elem_of_difference. split; [by apply I5|]. rewrite elem_of_singleton. intros ->. done.
  - rewrite dom_delete_L. set_solver.
  - rewrite dom_delete_L. set_solver.
Qed.

Lemma inv_unloaded s id : reg_inv s → updating s = Unloading id →
  ∃ b, b_unload (mkRef id None None None) (scheduler s) = Ok (true, b) ∧ b_loaded b = b_loaded (scheduler s) ∖ {[id]} ∧ reg_inv (with_scheduler Idle b s).
Proof.
  intros I Eu. pose proof (updating_ok s I) as Hu. rewrite Eu in Hu. destruct Hu as [Hl Hnc].
  destruct (b_unload_ok (mkRef id None None None) (scheduler s) (sched_ok s I) Hl) as (b & E & Hok & Hk & Hl'). exists b. split; [done|]. split; [done|].
  pose proof (sched_known s I). pose proof (counted_loaded s I). simpl in Hl'. apply inv_scheduler; [done|done|set_solver|set_solver|done].
Qed.

(** ** Every event *)

(** An event that is possible does not raise, and keeps the invariant. *)
Lemma event_keeps_inv e s : reg_inv s → fair e = true → match exec e s with None => True | Some x => ∃ s', x = Ok s' ∧ reg_inv s' end.
Proof.
  intros I Hf. destruct e as [names n|i|i|i|i|j|j|j|j|j|x|id name path pin| | |name| |]; try done; exec_cbn.
  - simpl in Hf. apply Nat.eqb_eq in Hf as ->. pose proof (inv_acquire s names) as Ha. exec_cbn_in Ha.
    destruct (mapM _ _) as [ids|]; [destruct (negb _)|]; eexists; (split; [done|]); eauto.
  - destruct (tasks s !! i) as [[d [|id todo] sends|]|] eqn:Et; try done. eexists. split; [done|]. by apply inv_increment.
  - destruct (tasks s !! i) as [[d [|id todo] sends|]|] eqn:Et; try done. eexists. split; [done|]. eapply inv_task; [done|done|done|].
    destruct (acquiring_ok s I _ _ _ (list_elem_of_lookup_2 _ _ _ Et)) as [-> _]. simpl. by rewrite app_nil_r.
  - destruct (tasks s !! i) as [[|[|id sends]]|] eqn:Et; try done. eexists. split; [done|]. eapply inv_task; [done|done|done|]. simpl. solve_Permutation.
  - destruct (tasks s !! i) as [[|sends]|] eqn:Et; try done. eexists. split; [done|]. by apply inv_fail.
  - destruct (running s !! j) as [id|] eqn:Ej; [|done]. simpl. eexists. split; [done|]. eapply inv_finish; [done|done|]. solve_Permutation.
  - destruct (running s !! j) as [id|] eqn:Ej; [|done]. simpl. eexists. split; [done|]. eapply inv_finish; [done|done|]. solve_Permutation.
  - destruct (running s !! j) as [id|] eqn:Ej; [|done]. simpl. eexists. split; [done|]. eapply inv_finish; [done|done|]. solve_Permutation.
  - destruct (releasing s !! j) as [id|] eqn:Ej; [|done]. cbn [mbind option_bind]. destruct (inv_release s j id I Ej) as (s' & -> & I'). eauto.
  - case_decide as Hx; [|done]. destruct (inv_batch s x I Hx) as (res & b & -> & I'). simpl. eauto.
  - destruct (updating s) eqn:Eu; try done. case_decide as Hid; [done|]. destruct (match max_loaded_loras with Some _ => _ | None => _ end); eexists; (split; [done|]); [done|].
    destruct I as [I1 I2 I3 I4 I5 I6 I7 I8 I9]. split; simpl; try done; [set_solver|]. split_and!; eauto; set_solver.
  - destruct (updating s) as [|ref|ref|id|id] eqn:Eu; try done. destruct (inv_loaded s ref I Eu) as (res & b & -> & I'). simpl. eauto.
  - destruct (updating s) as [|ref|ref|id|id] eqn:Eu; try done. destruct (no_readers s); [|done]. pose proof (inv_register s ref I Eu) as I'. destruct (_register_adapter ref s); eauto.
  - destruct (updating s) eqn:Eu; try done. destruct (no_readers s) eqn:Er; [|done]. destruct (unregister name s) as [[id s']|] eqn:En; [|eauto].
    destruct (inv_unload s name id s' I Er Eu En) as (I' & Hc & Hnr). destruct (wait_checks id s'); [|eauto]. eexists. split; [done|]. by apply inv_scheduler; destruct I'.
  - destruct (updating s) as [|ref|ref|id|id] eqn:Eu; try done. destruct (wait_done id s) as [s'|] eqn:Ew; [|done]. simpl. eexists. split; [done|]. by eapply inv_waited.
  - destruct (updating s) as [|ref|ref|id|id] eqn:Eu; try done. destruct (inv_unloaded s id I Eu) as (b & -> & _ & I'). simpl. eauto.
Qed.

Lemma steps_inv s s' : rtc (step max_loaded_loras) s s' → reg_inv s → reg_inv s'.
Proof.
  induction 1 as [s|s s1 s2 [e s1' Hf E] _ IH]; [done|]. intros I. apply IH. pose proof (event_keeps_inv e s I Hf) as Hx. rewrite E in Hx. destruct Hx as (? & [= ->] & I'). done.
Qed.

(** ** The start *)

(** The scheduler has loaded the adapters of the command line, and no others. *)
Definition started (paths : list LoRARef) (b : B) : Prop :=
  b_ok b ∧ NoDup (lora_id <$> paths) ∧ b_loaded b = list_to_set (lora_id <$> paths) ∧ b_known b ⊆ list_to_set (lora_id <$> paths).

Lemma registry_init_inv paths b s : started paths b → init paths b = Ok s → reg_inv s ∧ updating s = Idle ∧ running s = [].
Proof.
  intros (Hok & Hnd & Hl & Hk). unfold init. set (s0 := mkState _ _ _ _ _ _ _ _ _).
  assert (reg_inv s0) as I0.
  { split; simpl; try done; try set_solver. intros id (n & r & Hr & _). simpl in Hr. by rewrite lookup_empty in Hr. }
  assert (∀ l s1 s2, l ⊆ paths → NoDup (lora_id <$> l) → reg_inv s1 → updating s1 = Idle → running s1 = [] → scheduler s1 = b →
    (∀ ref, ref ∈ l → lora_id ref ∉ dom (_counters s1)) → foldl (fun acc ref => s ← acc; _register_adapter ref s) (mret s1) l = Ok s2 →
    reg_inv s2 ∧ updating s2 = Idle ∧ running s2 = []) as Hf.
  { induction l as [|ref l IH]; intros s1 s2 Hsub Hnd' I1 Hu Hr Hb Hnew E; [cbn in E; by injection E as <-|]. cbn [foldl mbind pyres_bind mret pyres_ret] in E.
    rewrite fmap_cons in Hnd'. apply NoDup_cons in Hnd' as [Hni Hnd'].
    assert (reg_inv (with_scheduler (Registering ref) (scheduler s1) s1)) as I1'.
    { apply inv_scheduler; [done|apply I1|apply I1|apply I1|]. split; [|apply Hnew; set_solver]. rewrite Hb, Hl. apply elem_of_list_to_set, list_elem_of_fmap. exists ref. set_solver. }
    pose proof (inv_register _ ref I1' eq_refl) as Hreg. unfold _register_adapter in *. simpl in Hreg. destruct (_registry s1 !! lora_name ref) eqn:Er.
    { exfalso. clear -E. induction l as [|x l IHl]; [done|]. by apply IHl. }
    eapply IH; [set_solver|done| | | | | |exact E]; simpl; try done.
    - replace (with_registry _ _ _ s1) with (with_scheduler Idle (scheduler s1) (with_registry (<[lora_name ref := ref]> (_registry s1)) (<[lora_id ref := 0]> (_counters s1)) (Registering ref) (with_scheduler (Registering ref) (scheduler s1) s1))); [exact Hreg|].
      destruct s1. simpl in *. by subst.
    - intros ref' Hin. rewrite dom_insert_L. intros [Heq%elem_of_singleton|Hd]%elem_of_union; [|by apply (Hnew ref'); [set_solver|]].
      apply Hni. rewrite <-Heq. apply list_elem_of_fmap. eauto. }
  intros E. apply (Hf paths s0 s); try done.
Qed.

(** ** Unloading *)

Lemma leaked_kept e s s' id : reg_inv s → fair e = true → exec e s = Some (Ok s') → updating s = Waiting id → id ∈ leaked s →
  updating s' = Waiting id ∧ id ∈ leaked s'.
Proof.
  intros I Hf E Eu Hl. assert (∀ x, wait_done id s = Some x → False) as Hw.
  { intros x Hx. destruct (inv_waited s id x I Eu Hx) as [_ Hn]. apply Hn. unfold uses. set_solver. }
  destruct e as [names n|i|i|i|i|j|j|j|j|j|x|id' name path pin| | |name| |]; try done; exec_cbn_in E; rewrite ?Eu in E; try done.
  - destruct (mapM _ _) as [ids|]; [destruct (negb _)|]; by simplify_eq.
  - destruct (tasks s !! i) as [[d [|id' todo] sends|]|]; try done. simplify_eq. unfold increment. simpl. by destruct (_counters s !! id').
  - destruct (tasks s !! i) as [[d [|id' todo] sends|]|]; try done. by simplify_eq.
  - destruct (tasks s !! i) as [[|[|id' sends]]|]; try done. by simplify_eq.
  - destruct (tasks s !! i) as [[|sends]|]; try done. simplify_eq. simpl. split; [done|set_solver].
  - destruct (running s !! j); [|done]. by simplify_eq/=.
  - destruct (running s !! j); [|done]. by simplify_eq/=.
  - destruct (running s !! j); [|done]. simplify_eq/=. split; [done|set_solver].
  - destruct (releasing s !! j) as [id'|]; [|done]. cbn [mbind option_bind] in E. unfold decrement in E. simpl in E. destruct (_counters s !! id'); by simplify_eq/=.
  - case_decide; [|done]. destruct (b_batch x (scheduler s)) as [[res b]|]; by simplify_eq/=.
  - destruct (wait_done id s) as [x|] eqn:Ew; [|done]. by destruct (Hw x).
Qed.

Lemma waits_forever s s' id : rtc (step max_loaded_loras) s s' → reg_inv s → updating s = Waiting id → id ∈ leaked s → updating s' = Waiting id.
Proof.
  induction 1 as [s|s s1 s2 [e s1' Hf E] _ IH]; [done|]. intros I Eu Hl. destruct (leaked_kept e s s1' id I Hf E Eu Hl) as [Eu' Hl'].
  pose proof (event_keeps_inv e s I Hf) as Hx. rewrite E in Hx. destruct Hx as (? & [= ->] & I'). by apply IH.
Qed.

(** Requests that are sent, run and released. *)
Definition to_send (t : task) : list string := match t with Sending l => l | Acquiring _ _ _ => [] end.
Definition work s : nat := 3 * length (tasks s ≫= to_send) + 2 * length (running s) + length (releasing s).
Definition quiet s : Prop := tasks s ≫= to_send = [] ∧ running s = [] ∧ releasing s = [].

Lemma progress s : reg_inv s → ¬ quiet s →
  ∃ s', step max_loaded_loras s s' ∧ reg_inv s' ∧ updating s' = updating s ∧ leaked s' = leaked s ∧ (work s' < work s)%nat.
Proof.
  intros I Hq. assert (∃ e s', fair e = true ∧ exec e s = Some (Ok s') ∧ updating s' = updating s ∧ leaked s' = leaked s ∧ (work s' < work s)%nat) as (e & s' & Hf & E & Hrest).
  { destruct (decide (Exists (fun t => to_send t ≠ []) (tasks s))) as [Hex|Hno].
    - apply Exists_exists in Hex as (t & [i Hi]%list_elem_of_lookup & Ht). destruct t as [|[|id sends]]; try done.
      exists (ESend i). eexists. split; [done|]. exec_cbn. rewrite Hi. split; [done|]. split; [done|]. split; [done|]. unfold work. simpl.
      rewrite (Permutation_length (bind_Permutation to_send _ _ (insert_perm _ _ _ (Sending sends) Hi))), (Permutation_length (bind_Permutation to_send _ _ (delete_Permutation _ _ _ Hi))).
      csimpl. rewrite !length_app. simpl. lia.
    - destruct (running s) as [|id run] eqn:Er.
      + destruct (releasing s) as [|id rel] eqn:El.
        * destruct Hq. split; [|done]. clear -Hno. induction (tasks s) as [|t ts IH]; [done|]. csimpl. rewrite Exists_cons in Hno.
          rewrite IH by naive_solver. destruct (to_send t) eqn:Et; [done|]. destruct Hno. by left.
        * assert (releasing s !! 0%nat = Some id) as Hj by (by rewrite El). destruct (inv_release s 0 id I Hj) as (s' & Ed & _). exists (ERelease 0), s'. split; [done|].
          exec_cbn. rewrite Hj. cbn [mbind option_bind]. rewrite Ed. split; [done|]. unfold decrement in Ed. simpl in Ed. destruct (_counters s !! id); [|done].
          injection Ed as <-. split; [done|]. split; [done|]. unfold work. simpl. rewrite El. simpl. lia.
      + exists (EFinish 0). eexists. split; [done|]. exec_cbn. rewrite Er. simpl. split; [done|]. split; [done|]. split; [done|]. unfold work. simpl. rewrite Er, length_app. simpl. lia. }
  exists s'. split; [by econstructor|]. split; [|done]. pose proof (event_keeps_inv e s I Hf) as Hx. rewrite E in Hx. by destruct Hx as (? & [= ->] & ?).
Qed.

Lemma drain s : reg_inv s → ∃ s', rtc (step max_loaded_loras) s s' ∧ reg_inv s' ∧ updating s' = updating s ∧ leaked s' = leaked s ∧ quiet s'.
Proof.
  remember (work s) as n eqn:En. revert s En. induction (lt_wf n) as [n _ IH]. intros s -> I.
  destruct (decide (tasks s ≫= to_send = [] ∧ running s = [] ∧ releasing s = [])) as [Hq|Hq]; [by exists s|].
  destruct (progress s I Hq) as (s1 & Hs & I1 & Hu & Hl & Hw). destruct (IH _ Hw s1 eq_refl I1) as (s' & Hr & I' & Hu' & Hl' & Hq').
  exists s'. split; [by eapply rtc_l|]. split; [done|]. split; [congruence|]. split; [congruence|done].
Qed.

(** While an adapter is being unloaded, no request can be acquiring it. *)
Lemma quiet_uses s id : reg_inv s → updating s = Waiting id → quiet s → id ∈ uses s → id ∈ leaked s.
Proof.
  intros I Eu (Hs & Hr & Hl) Hin. unfold uses in Hin. rewrite Hr, Hl in Hin. apply elem_of_app in Hin as [Hin|Hin]; [|done].
  apply list_elem_of_bind in Hin as (t & Ht & Hid). pose proof (updating_ok s I) as Hu. rewrite Eu in Hu. destruct Hu as [_ Hn]. destruct t as [d todo sends|l].
  - destruct (acquiring_ok s I _ _ _ Hid) as [_ Hf]. destruct Hn. apply (proj1 (Forall_forall _ _) Hf). apply elem_of_app. by left.
  - assert (id ∈ tasks s ≫= to_send) as Hx by (apply list_elem_of_bind; by exists (Sending l)). rewrite Hs in Hx. by apply not_elem_of_nil in Hx.
Qed.

Lemma unload_ends s id : reg_inv s → updating s = Waiting id → id ∉ leaked s →
  ∃ s', rtc (step max_loaded_loras) s s' ∧ updating s' = Idle ∧ id ∉ b_loaded (scheduler s').
Proof.
  intros I Eu Hl. destruct (drain s I) as (s1 & Hr & I1 & Hu & Hl1 & Hq). rewrite Eu in Hu. rewrite <-Hl1 in Hl.
  assert (cnt id (uses s1) = 0) as Hz by (apply cnt_zero; intros Hin; apply Hl; by eapply quiet_uses).
  pose proof (updating_ok s1 I1) as Hu1. rewrite Hu in Hu1. destruct Hu1 as [[n Hn]%elem_of_dom _]. rewrite <-(counted s1 I1 _ _ Hn) in Hz. subst n.
  set (s2 := with_registry (_registry s1) (delete id (_counters s1)) (Unloading id) s1).
  assert (wait_done id s1 = Some s2) as Ew by (unfold wait_done; by rewrite Hn). destruct (inv_waited s1 id s2 I1 Hu Ew) as [I2 _].
  destruct (inv_unloaded s2 id I2 eq_refl) as (b & Eb & Hb & I3). exists (with_scheduler Idle b s2). split; [|split; [done|simpl; rewrite Hb; set_solver]].
  etransitivity; [exact Hr|]. eapply rtc_l; [|eapply rtc_once].
  - apply (step_event _ _ EWaited s2); [done|]. exec_cbn. rewrite Hu. cbn [mbind option_bind]. by rewrite Ew.
  - apply (step_event _ _ EUnloaded); [done|]. exec_cbn. change (updating s2) with (Unloading id). change (scheduler s1) with (scheduler s2). cbv iota. by rewrite Eb.
Qed.

(** C9: the registry protects the adapters in use, over every scheduler that
    keeps the laws of [LoraBackend]: loads and unloads answer, and batches
    of loaded adapters run without an error. (The LoRA manager keeps them
    when the weights of every adapter it accepts have the promised shapes,
    [manager_backend] and [files_fit]; without this an accepted adapter can
    fail in a batch, see [up_proj_only_unusable].) The server starts with
    adapters of distinct ids, all loaded. As long as every counted use is
    released at most once ([fair]: no parallel sampling and no server
    errors), whatever requests come, fail, are aborted or rejected, and
    whatever adapters are loaded and unloaded meanwhile: the adapter of
    every request that was sent to the scheduler and has not finished is
    loaded there, and no [fair] event raises. *)
Theorem lora_adapters_kept paths b s0 s : started paths b → init paths b = Ok s0 → rtc (step max_loaded_loras) s0 s →
  (∀ id, id ∈ running s → id ∈ b_loaded (scheduler s)) ∧ ∀ e, fair e = true → ∀ x, exec e s ≠ Some (Raise x).
Proof.
  intros Hs E Hr. destruct (registry_init_inv paths b s0 Hs E) as (I0 & _). pose proof (steps_inv s0 s Hr I0) as I. split.
  - intros id Hid. apply (counted_loaded s I), (uses_counted s I). unfold uses. set_solver.
  - intros e Hf x Ex. pose proof (event_keeps_inv e s I Hf) as Hx. rewrite Ex in Hx. by destruct Hx as (? & [=] & _).
Qed.

(** C10: the wait for an adapter that is being unloaded, over every
    scheduler that keeps the laws of [LoraBackend], from a start with
    adapters of distinct ids on, and for [fair] events only, that is without
    parallel sampling and server errors, so that every counted use is
    released at most once. The wait can end, with the adapter unloaded, if
    none of its uses has leaked; if one has (its request failed before it
    was sent, or was aborted in the queue), the server stays in this wait
    whatever [fair] events happen, and no adapter is ever loaded or unloaded
    again. (With parallel sampling a request releases its adapter more often
    than it counted it, which can end the wait.) *)
Theorem lora_unload_waits paths b s0 s id : started paths b → init paths b = Ok s0 → rtc (step max_loaded_loras) s0 s → updating s = Waiting id →
  (id ∉ leaked s → ∃ s', rtc (step max_loaded_loras) s s' ∧ updating s' = Idle ∧ id ∉ b_loaded (scheduler s')) ∧
  (id ∈ leaked s → ∀ s', rtc (step max_loaded_loras) s s' → updating s' = Waiting id).
Proof.
  intros Hs E Hr Eu. destruct (registry_init_inv paths b s0 Hs E) as (I0 & _). pose proof (steps_inv s0 s Hr I0) as I. split.
  - intros Hl. by apply unload_ends.
  - intros Hl s' Hs'. by eapply waits_forever.
Qed.

End proofs.

(** ** A scheduler that only keeps the set of its adapters *)

#[export] Instance set_backend : LoraBackend (gset string) (gset string).
Proof.
  refine {| b_ok _ := True; b_loaded b := b; b_known b := b; b_load ref b := Ok (true, {[lora_id ref]} ∪ b);
    b_unload ref b := if decide (lora_id ref ∈ b) then Ok (true, b ∖ {[lora_id ref]}) else Raise AssertionError;
    b_batch x b := if decide (x ⊆ b) then Ok (true, b) else Raise AssertionError; b_ids x := x |}.
  - done.
  - intros ref b _ _ _ _ _. by exists true, ({[lora_id ref]} ∪ b).
  - intros ref b _ Hin. exists (b ∖ {[lora_id ref]}). rewrite decide_True by done. split_and!; try done. set_solver.
  - intros x b _ Hx. exists true, b. by rewrite decide_True.
Defined.

Definition demo_ref : LoRARef := mkRef "x" (Some "A"%string) (Some "dir"%string) (Some false).
Definition demo_start : state (gset string) := mkState {[Some "A"%string := demo_ref]} {["x"%string := 0]} [] [] [] Idle {["x"%string]} {["x"%string]} [].

(** The state after a list of events. *)
Definition run (es : list (event (Batch := gset string))) (s : state (gset string)) : option (state (gset string)) :=
  foldl (fun acc e => s ← acc; match exec None e s with Some (Ok s) => Some s | _ => None end) (Some s) es.

(** A request with the adapter, from its lookup to its release. *)
Definition request_events : list (event (Batch := gset string)) := [EAcquire [Some "A"%string] 1; EIncrement 0; EAcquired 0; ESend 0].

Lemma run_steps es s s' : forallb fair es = true → run es s = Some s' → rtc (step None) s s'.
Proof.
  revert s. induction es as [|e es IH]; intros s Hf E; [by injection E as <-|]. apply andb_true_iff in Hf as [Hf Hfs]. cbn in E.
  destruct (exec None e s) as [[s1|x]|] eqn:Ee.
  - eapply rtc_l; [by econstructor|]. by apply IH.
  - exfalso. clear -E. induction es; [done|by apply IHes].
  - exfalso. clear -E. induction es; [done|by apply IHes].
Qed.

Lemma demo_started : started [demo_ref] ({["x"%string]} : gset string).
Proof. split; [done|]. split; [apply NoDup_singleton|]. split; vm_compute; done. Qed.

Definition serving_state : state (gset string) := default demo_start (run request_events demo_start).
Lemma lora_adapters_kept_witness : "x"%string ∈ running serving_state ∧
  (∀ id, id ∈ running serving_state → id ∈ b_loaded (scheduler serving_state)) ∧ ∀ e, fair e = true → ∀ x, exec None e serving_state ≠ Some (Raise x).
Proof.
  split; [vm_compute; set_solver|]. apply (lora_adapters_kept None [demo_ref] {["x"%string]} demo_start).
  - exact demo_started.
  - vm_compute. reflexivity.
  - apply (run_steps request_events); vm_compute; reflexivity.
Defined.

(** The adapter is unloaded while a request runs, and while the use of a request that was aborted in the queue has leaked. *)
Definition waiting_state : state (gset string) := default demo_start (run (request_events ++ [EUnload "A"]) demo_start).
Lemma lora_unload_waits_witness : updating waiting_state = Waiting "x" ∧
  ("x"%string ∉ leaked waiting_state → ∃ s', rtc (step None) waiting_state s' ∧ updating s' = Idle ∧ "x"%string ∉ b_loaded (scheduler s')) ∧
  ("x"%string ∈ leaked waiting_state → ∀ s', rtc (step None) waiting_state s' → updating s' = Waiting "x").
Proof.
  split; [vm_compute; reflexivity|]. apply (lora_unload_waits None [demo_ref] {["x"%string]} demo_start).
  - exact demo_started.
  - vm_compute. reflexivity.
  - apply (run_steps (request_events ++ [EUnload "A"])); vm_compute; reflexivity.
  - vm_compute. reflexivity.
Defined.

(** ** What breaks the counting *)

(** An abort in the queue leaks the use of the adapter. *)
Example abort_in_queue_leaks :
  match run (request_events ++ [EAbortQueued 0; EUnload "A"]) demo_start with
  | Some s => running s = [] ∧ releasing s = [] ∧ updating s = Waiting "x" ∧ _counters s !! "x"%string = Some 1
  | None => False
  end.
Proof. vm_compute. done. Qed.

(** A request with two parallel samples is counted twice and released three
    times: the next request has the counter at zero, and its adapter is
    unloaded while it runs. *)
Definition parallel_events : list (event (Batch := gset string)) :=
  [EAcquire [Some "A"%string] 2; EIncrement 0; EIncrement 0; EAcquired 0; ESend 0; ESend 0; ESend 0;
   EFinish 0; EFinish 0; EFinish 0; ERelease 0; ERelease 0; ERelease 0].
Example parallel_sampling_unloads :
  match run (parallel_events ++ [EAcquire [Some "A"%string] 1; EIncrement 1; EAcquired 1; ESend 1; EUnload "A"; EWaited; EUnloaded]) demo_start with
  | Some s => running s = ["x"%string] ∧ "x"%string ∉ scheduler s ∧ exec None (EBatch {["x"%string]}) s = Some (Raise AssertionError)
  | None => False
  end.
Proof. vm_compute. split; [done|]. split; [|done]. by apply (bool_decide_unpack _). Qed.

(** Alone, such a request leaves the counter below zero, and the adapter cannot be unloaded. *)
Example parallel_sampling_below_zero :
  match run (parallel_events ++ [EUnload "A"]) demo_start with
  | Some s => updating s = Waiting "x" ∧ _counters s !! "x"%string = Some (-1) ∧ exec None EWaited s = None
  | None => False
  end.
Proof. vm_compute. done. Qed.

(** An adapter with a name that is taken is loaded by the scheduler before the
    registry refuses it; it stays loaded and has no name. *)
Example duplicate_name_stays_loaded :
  match run [ELoad "y" "A" "dir" true; ELoaded; ERegister] demo_start with
  | Some s => updating s = Idle ∧ scheduler s = {["x"%string; "y"%string]} ∧ _registry s = _registry demo_start
  | None => False
  end.
Proof. vm_compute. done. Qed.
