(* ===== verification/LoraService.v ===== *)
(** * Serving requests with LoRA adapters

    The registry of the tokenizer process ([LoraRegistry]) with the LoRA manager
    of the scheduler ([LoraManager]) as its backend: from the start of the server
    on, every batch of requests in flight is validated or refused without an
    error, and a validated batch finds its adapters. *)

From S2P Require Import Prelude PyString Eplb EplbProofs ExpertLocation LoraPool LoraPoolProofs LoraManager LoraManagerProofs LoraRegistry LoraRegistryProofs LoraExamples.
Open Scope Z_scope.

Section service.
Context {W : Type} `{PySet} (zero : W) (cast : W → W).
Context (config_file : string → pyres raw_config) (weights_file : string → pyres (list (str * tensor W))).
Context (in_dim out_dim : str → Z).
Abbreviation manager := (LoRAManager W).
Abbreviation load := (LoraManager.load_lora_adapter zero config_file weights_file).
Abbreviation prepare := (prepare_lora_batch_m zero cast).
Implicit Types (m : manager) (p : LoRAMemoryPool W).

(** The manager after its start. *)
Context (m0 : manager) (p0 : LoRAMemoryPool W) (fresh : Z → Z).

(** The weights of every adapter the pool supports have the shapes its
    configuration and the model promise. *)
Definition files_fit : Prop := ∀ uid path c a ad,
  LoRAConfig_init config_file path = Ok c → can_support p0 c = true → LoRAAdapter_init uid c (num_hidden_layers (hf m0)) = Ok a →
  initialize_weights zero weights_file (backend_name m0) a = Ok ad → fits in_dim out_dim p0 (lora_modules m0) ad.

(** ** The manager as a backend *)

(** What does not change after the start. *)
Definition same_model m p : Prop :=
  lora_modules m = lora_modules m0 ∧ hf m = hf m0 ∧ backend_name m = backend_name m0 ∧ ∃ A B ids us, p = changed A B ids us p0.

Definition manager_ok m : Prop := ∃ p, mgr_ok zero cast in_dim out_dim m p ∧ same_model m p.

Definition resident_ids (p : option (LoRAMemoryPool W)) : gset string :=
  match p with Some p => list_to_set (omap id (elements (dom (uid_to_buffer_id p)))) | None => ∅ end.
Definition known_ids m : gset string := dom (loras m) ∪ resident_ids (memory_pool m).

Lemma elem_of_resident_ids p k : k ∈ resident_ids (Some p) ↔ is_Some (uid_to_buffer_id p !! Some k).
Proof.
  simpl. rewrite elem_of_list_to_set, list_elem_of_omap. split.
  - intros (u & Hu%elem_of_elements & E). simpl in E. subst u. by apply elem_of_dom.
  - intros Hu. exists (Some k). split; [by apply elem_of_elements, elem_of_dom|done].
Qed.

Definition load_adapter (ref : LoRARef) m : pyres (bool * manager) := '(res, m) ← load ref m; mret (bool_decide (res = None), m).
Definition unload_adapter (ref : LoRARef) m : pyres (bool * manager) := '(res, m) ← LoraManager.unload_lora_adapter ref m; mret (bool_decide (res = None), m).

(** The scheduler asks [can_run_lora_batch] before it runs a batch. *)
Definition run_batch (fb : forward_batch) m : pyres (bool * manager) :=
  ok ← validate_lora_batch (list_to_set (fb_lora_ids fb)) m;
  if (ok : bool) then m ← prepare fresh fb m; mret (true, m) else mret (false, m).
Definition batch_ids (fb : forward_batch) : gset string := list_to_set (omap id (fb_lora_ids fb)).

Lemma elem_of_batch_ids fb k : k ∈ batch_ids fb ↔ Some k ∈ fb_lora_ids fb.
Proof.
  unfold batch_ids. rewrite elem_of_list_to_set, list_elem_of_omap. split; [|intros Hk; by exists (Some k)]. intros (u & Hu & E). simpl in E. by subst u.
Qed.

Lemma load_keeps ref m res m' p : files_fit → mgr_ok zero cast in_dim out_dim m p → same_model m p → is_Some (pinned ref) → load ref m = Ok (res, m') →
  memory_pool m' = memory_pool m ∧ same_model m' p ∧ ∀ ad, loras m' !! lora_id ref = Some ad → fits in_dim out_dim p (lora_modules m) ad.
Proof.
  intros Hfiles Hm Hsm Hpin E. pose proof (m_pool _ _ _ _ _ _ Hm) as Hp.
  unfold LoraManager.load_lora_adapter in E. destruct (lora_name ref); [|done]. destruct (lora_path ref) as [path|]; [|done].
  apply pyres_bind_ok in E as (? & Eassert%py_assert_ok & E). injection E as E. pose proof Hsm as (Hmods & Hhf & Hbk & A & B & ids & us & Ep). match goal with H : bool_decide _ = true |- _ => apply bool_decide_eq_true in H as Hnew end.
  unfold load_adapter_body in *. destruct (LoRAConfig_init _ path) as [c|e] eqn:Ec; [|injection E as <- <-; split; [done|]; split; [done|]; intros ad; by rewrite Hnew].
  destruct (validate_new_adapter c ref m) as [u|e] eqn:Ev; [|injection E as <- <-; split; [done|]; split; [done|]; intros ad; by rewrite Hnew].
  assert (can_support p c = true) as Hcs by (unfold validate_new_adapter in Ev; rewrite Hp in Ev; by destruct (can_support p c)).
  cbv zeta in E. destruct (load_lora_weights _ _ ref _) as [ad|e] eqn:El; [|injection E as <- <-; split; [done|]; split; [done|]; simpl; intros ad; by rewrite Hnew].
  assert (fits in_dim out_dim p (lora_modules m) ad) as Hfit.
  { unfold load_lora_weights in El. simpl in El. rewrite lookup_insert_eq in El. cbn [py_key mbind pyres_bind] in El. apply pyres_bind_ok in El as (a & Ea & El).
    rewrite Hhf in Ea. rewrite Hbk in El. rewrite Ep in Hcs. pose proof (Hfiles _ _ _ _ _ Ec Hcs Ea El) as Hf. rewrite Hmods, Ep. exact Hf. }
  destruct Hpin as [b Hb]. rewrite Hb in E. simpl in E. injection E as <- <-. split; [done|]. split; [done|]. simpl. intros ad'. rewrite lookup_insert_eq. by intros [= <-].
Qed.

#[local] Instance manager_backend (Hfiles : files_fit) : LoraBackend manager { fb | batch_wf fb }.
Proof.
  refine {| b_ok := manager_ok; b_loaded m := dom (loras m); b_known := known_ids; b_load := load_adapter; b_unload := unload_adapter;
    b_batch fb := run_batch (proj1_sig fb); b_ids fb := batch_ids (proj1_sig fb) |}.
  - intros m _. unfold known_ids. set_solver.
  - intros ref m (p & Hm & Hsm) Hname Hpath Hpin Hnew. unfold known_ids in Hnew. rewrite (m_pool _ _ _ _ _ _ Hm), not_elem_of_union, elem_of_resident_ids in Hnew. destruct Hnew as [Hn1 Hn2].
    assert (∃ res m', load ref m = Ok (res, m')) as (res & m' & E).
    { unfold LoraManager.load_lora_adapter. destruct Hname as [? ->], Hpath as [path ->]. rewrite bool_decide_true by (by apply not_elem_of_dom). cbn [py_assert mbind pyres_bind mret pyres_ret].
      destruct (load_adapter_body _ _ _ path ref m) as [res m']. eauto. }
    destruct (load_keeps ref m res m' p Hfiles Hm Hsm Hpin E) as (Hp & Hsm' & Hfit). unfold load_adapter. rewrite E. simpl. eexists _, m'. split; [done|].
    assert (mgr_ok zero cast in_dim out_dim m' p) as Hm'. { eapply load_mgr_ok; eauto. by apply eq_None_not_Some. }
    split; [by exists p|]. pose proof E as Hcases. eapply load_cases in Hcases as (_ & cs & _ & Hres); [|eauto|apply (m_refs _ _ _ _ _ _ Hm)|done].
    assert (dom (loras m') = if bool_decide (res = None) then {[lora_id ref]} ∪ dom (loras m) else dom (loras m)) as Hd.
    { destruct res as [e|]; [by subst m'|]. destruct Hres as (ad & n & _ & _ & _ & ->). simpl. by rewrite dom_insert_L. }
    split; [|done]. unfold known_ids. rewrite Hp, Hd. destruct (bool_decide _); set_solver.
  - intros ref m (p & Hm & Hsm) Hl. assert (is_Some (lora_refs m !! lora_id ref)) as Hr by (apply elem_of_dom; by rewrite <-(same_ids m (m_refs _ _ _ _ _ _ Hm))).
    destruct (unload_mgr_ok zero cast config_file weights_file in_dim out_dim m p ref Hm Hr) as (m' & E & Hm'). destruct (unload_cases zero cast config_file weights_file ref m (m_refs _ _ _ _ _ _ Hm) Hr) as (n & E' & _).
    rewrite E in E'. injection E' as ->. eexists. unfold unload_adapter. rewrite E. split; [done|]. split; [by exists p|]. simpl. rewrite dom_delete_L. split; [|done].
    unfold known_ids. simpl. rewrite dom_delete_L. set_solver.
  - intros [fb Hwf] m (p & Hm & Hsm) Hids. simpl in *. assert (loaded m (fb_lora_ids fb)) as Hl.
    { intros k Hk. apply elem_of_dom, Hids. by apply elem_of_batch_ids. }
    unfold run_batch. destruct (validated_room zero cast config_file weights_file in_dim out_dim m p _ Hm Hl) as (v & -> & Hv). cbn [mbind pyres_bind]. destruct v; [|exists false, m; split_and!; try done; by exists p].
    destruct (prepare_batch_ok zero cast in_dim out_dim m p fresh fb Hm Hwf Hl (proj1 Hv eq_refl)) as (g & A & B & ids & us & info & -> & Hm' & _ & Hs & _ & N).
    cbn [mbind pyres_bind]. eexists true, _. split; [done|]. split.
    + exists (changed A B ids us p). split; [done|]. destruct Hsm as (? & ? & ? & A0 & B0 & ids0 & us0 & ->). split_and!; try done. by exists A, B, ids, us.
    + split; [|done]. unfold known_ids. intros k. rewrite !elem_of_union. simpl memory_pool. rewrite (m_pool _ _ _ _ _ _ Hm), !elem_of_resident_ids. intros [Hk|Hk]; [by left|].
      destruct (N (Some k) Hk) as [Hc%elem_of_list_to_set|Hr]; [left; apply elem_of_dom; by apply Hl|by right].
Defined.
(** ** The start of the server *)

Lemma init_adapters_ids paths : ∀ m m', refs_ok m → Forall (fun ref => is_Some (pinned ref)) paths →
  init_lora_adapters zero config_file weights_file paths m = Ok m' →
  dom (loras m') = dom (loras m) ∪ list_to_set (lora_id <$> paths) ∧ NoDup (lora_id <$> paths) ∧ (∀ id, id ∈ lora_id <$> paths → id ∉ dom (loras m)).
Proof.
  induction paths as [|ref paths IH]; intros m m' R Hf E; cbn [init_lora_adapters] in E.
  { injection E as <-. simpl. split; [set_solver|]. split; [constructor|set_solver]. }
  apply Forall_cons in Hf as [Hp Hf]. apply pyres_bind_ok in E as ([res m1] & E1 & E). destruct res as [e|]; [done|].
  pose proof E1 as Hcases. eapply load_cases in Hcases as (Hnew & cs & _ & ad & n & _ & _ & _ & Em1); [|eauto|done|done].
  destruct (IH m1 m') as (Hd & Hnd & Hni); [by eapply load_refs_ok; eauto|done|done|]. assert (dom (loras m1) = {[lora_id ref]} ∪ dom (loras m)) as Hd1 by (rewrite Em1; simpl; by rewrite dom_insert_L).
  rewrite fmap_cons. split; [rewrite Hd, Hd1; simpl; set_solver|]. split.
  - constructor; [|done]. intros Hin. apply (Hni _ Hin). rewrite Hd1. set_solver.
  - intros id [->|Hin]%elem_of_cons; [by apply not_elem_of_dom|]. specialize (Hni id Hin). rewrite Hd1 in Hni. set_solver.
Qed.

Context (named_modules : list (str * option lora_layer)) (should_apply_lora : option (str → bool)).
Context (fill : bool → str → Z → Z → Z → Z → W) (own : option (str → pyres (Z * Z))).
Abbreviation start := (init_state zero config_file weights_file named_modules should_apply_lora fill own).

Lemma start_ids hf max tps tpr bk rank tms paths : start rank tms paths (new_manager hf max tps tpr bk) = Ok m0 → Forall (fun ref => is_Some (pinned ref)) paths → memory_pool m0 = Some p0 →
  dom (loras m0) = list_to_set (lora_id <$> paths) ∧ NoDup (lora_id <$> paths) ∧ uid_to_buffer_id p0 = ∅.
Proof.
  intros E Hpin Hp. unfold init_state in E. apply pyres_bind_ok in E as (? & _ & E). apply pyres_bind_ok in E as (m1 & E1 & E).
  apply pyres_bind_ok in E as (m2 & E2 & E). apply pyres_bind_ok in E as (m3 & E3 & E). apply pyres_bind_ok in E as (m4 & E4 & E). apply pyres_bind_ok in E as (? & _ & E). injection E as ->.
  apply init_adapters_ids in E1 as (Hd & Hnd & _); [|by split; simpl; try set_solver; lia|done].
  unfold init_lora_shapes in E2. apply pyres_bind_ok in E2 as (tset & _ & E2). injection E2 as <-. unfold init_lora_modules in E3. apply pyres_bind_ok in E3 as (mods & _ & E3). injection E3 as <-.
  unfold init_memory_pool in E4. apply pyres_bind_ok in E4 as (p1 & Ep & E4). injection E4 as <-. simpl in Hp. injection Hp as ->. split; [|split; [done|]].
  - simpl. rewrite Hd. simpl. set_solver.
  - unfold LoRAMemoryPool_init, init_buffers in Ep. apply pyres_bind_ok in Ep as (A & _ & Ep). apply pyres_bind_ok in Ep as (B & _ & Ep). injection Ep as <-. done.
Qed.

Context (Hfiles : files_fit).
Abbreviation lora_steps max_loaded := (rtc (@step _ _ (manager_backend Hfiles) max_loaded)).

Lemma start_started hf max tps tpr bk rank tms paths : start rank tms paths (new_manager hf max tps tpr bk) = Ok m0 → 0 ≤ max →
  Forall (fun ref => is_Some (pinned ref)) paths → memory_pool m0 = Some p0 → 0 ≤ max_lora_rank p0 → model_dims in_dim out_dim own p0 →
  (∀ k ad, loras m0 !! k = Some ad → fits in_dim out_dim p0 (lora_modules m0) ad) → @started _ _ (manager_backend Hfiles) paths m0.
Proof.
  intros E Hmax Hpin Hp Hr Hd Hfit. destruct (start_ids hf max tps tpr bk rank tms paths E Hpin Hp) as (Hids & Hnd & Hempty). split; [|split; [done|split; [done|]]].
  - exists p0. split; [by eapply init_state_ok; eauto|]. split_and!; try done. exists (A_buffer p0), (B_buffer p0), (uid_to_buffer_id p0), (buffer_id_to_uid p0). by destruct p0.
  - simpl. unfold known_ids. rewrite Hp, Hids. intros k. rewrite elem_of_union, elem_of_resident_ids, Hempty, lookup_empty. intros [Hk|[? [=]]]. done.
Qed.

(** C7: the server with LoRA from its start on. The references of the
    adapters have their [pinned] flag set, the pool has the dimensions of
    the model, none of its sizes is negative, and the adapter files fit
    ([fits], [files_fit]): the rank of every adapter that is accepted is at
    most that of the pool, and its weights normalise to the shapes its
    configuration and the model promise. Nothing in the code checks this; an
    adapter that changes only [up_proj] is loaded and then fails, see
    [up_proj_only_unusable]. There is no parallel sampling and no server
    error. Then, whatever requests come and end and whatever adapters are
    loaded and unloaded in whatever order, for every well-formed batch of
    requests in flight [validate_lora_batch] answers without an error; if it
    says yes, the batch is prepared without an error and each request finds
    the weights, the rank and the scaling of its own adapter. *)
Theorem lora_requests_served hf max tps tpr bk rank tms paths max_loaded s0 s fb :
  start rank tms paths (new_manager hf max tps tpr bk) = Ok m0 → 0 ≤ max → Forall (fun ref => is_Some (pinned ref)) paths →
  memory_pool m0 = Some p0 → 0 ≤ max_lora_rank p0 → model_dims in_dim out_dim own p0 →
  (∀ k ad, loras m0 !! k = Some ad → fits in_dim out_dim p0 (lora_modules m0) ad) →
  init paths m0 = Ok s0 → lora_steps max_loaded s0 s → batch_wf fb → batch_ids fb ⊆ list_to_set (running s) →
  ∃ b, validate_lora_batch (list_to_set (fb_lora_ids fb)) (scheduler s) = Ok b ∧
    (b = true → ∃ m' p' info, prepare fresh fb (scheduler s) = Ok m' ∧ memory_pool m' = Some p' ∧ batch_info m' = Some info ∧ bs info = fb_batch_size fb ∧
      served zero cast in_dim out_dim m' p' (fb_lora_ids fb) info).
Proof.
  intros E Hmax Hpin Hp Hr Hd Hfit Hinit Hs Hwf Hids. pose proof (start_started hf max tps tpr bk rank tms paths E Hmax Hpin Hp Hr Hd Hfit) as Hst.
  destruct (@registry_init_inv _ _ (manager_backend Hfiles) paths m0 s0 Hst Hinit) as (I0 & _). pose proof (@steps_inv _ _ (manager_backend Hfiles) _ _ _ Hs I0) as I.
  destruct (@sched_ok _ _ (manager_backend Hfiles) s I) as (p & Hm & _). assert (loaded (scheduler s) (fb_lora_ids fb)) as Hl.
  { intros k Hk. apply elem_of_dom. apply (@counted_loaded _ _ (manager_backend Hfiles) s I), (@uses_counted _ _ (manager_backend Hfiles) s I).
    unfold uses. rewrite !elem_of_app. right. left. apply elem_of_batch_ids in Hk. apply Hids, elem_of_list_to_set in Hk. exact Hk. }
  destruct (validated_room zero cast config_file weights_file in_dim out_dim (scheduler s) p _ Hm Hl) as (b & Eb & Hb). exists b. split; [done|]. intros ->.
  destruct (prepare_batch_ok zero cast in_dim out_dim (scheduler s) p fresh fb Hm Hwf Hl (proj1 Hb eq_refl)) as (g & A & B & ids & us & info & E' & Hm' & Hbs & Hsv & _).
  eexists _, _, info. split; [exact E'|]. split; [done|]. split; [done|]. split; [done|]. exact Hsv.
Qed.

End service.

(** ** The small model *)

(** Its adapters are complete: every path has the files of [LoraExamples]. *)
Definition full_config (path : string) : pyres raw_config := small_config "dir".
Definition full_weights (path : string) : pyres (list (str * tensor Z)) := small_weights "dir".

Definition full_start : pyres (LoRAManager Z) :=
  init_state 0 full_config full_weights small_named None (fun _ _ _ _ _ _ => 7) None (Some 2) (Some all_modules) [small_ref "a" "dir" true] (new_manager small_hf 2 1 0 (lit "triton")).
Definition m_full := Eval vm_compute in manager_of full_start.

Lemma small_files_fit : files_fit 0 full_config full_weights small_in small_out m_full (pool_of m_full).
Proof.
  intros uid path c a ad Ec _ Ea El. vm_compute in Ec. injection Ec as <-. vm_compute in Ea. injection Ea as <-. vm_compute in El. injection El as <-.
  apply fitsb_ok. vm_compute. reflexivity.
Qed.

Abbreviation small_backend := (manager_backend 0 id full_config full_weights small_in small_out m_full (pool_of m_full) (fun _ => 5) small_files_fit).
Definition run_small (es : list (event (Batch := { fb | batch_wf fb }))) (s : state (LoRAManager Z)) : option (state (LoRAManager Z)) :=
  foldl (fun acc e => s ← acc; match @exec _ _ small_backend None e s with Some (Ok s) => Some s | _ => None end) (Some s) es.

Lemma run_small_steps es s s' : forallb fair es = true → run_small es s = Some s' → rtc (@step _ _ small_backend None) s s'.
Proof.
  revert s. induction es as [|e es IH]; intros s Hf E; [by injection E as <-|]. apply andb_true_iff in Hf as [Hf Hfs]. cbn [run_small foldl mbind option_bind] in E.
  unfold run_small in E. cbn [foldl mbind option_bind] in E. destruct (@exec _ _ small_backend None e s) as [[s1|x]|] eqn:Ee.
  - eapply rtc_l; [by econstructor|]. by apply IH.
  - exfalso. clear -E. induction es; [done|by apply IHes].
  - exfalso. clear -E. induction es; [done|by apply IHes].
Qed.

(** The adapter [b] is loaded, and a request for each adapter is sent. *)
Definition service_events : list (event (Batch := { fb | batch_wf fb })) :=
  [ELoad "b" "b" "dir" false; ELoaded; ERegister; EAcquire [Some "a"%string; Some "b"%string] 1; EIncrement 0; EIncrement 0; EAcquired 0; ESend 0; ESend 0].

Definition s_start : state (LoRAManager Z) := match init [small_ref "a" "dir" true] m_full with Ok s => s | Raise _ => mkState ∅ ∅ [] [] [] Idle m_full ∅ [] end.
Definition s_service : state (LoRAManager Z) := default s_start (run_small service_events s_start).

Lemma lora_requests_served_witness : running s_service = ["a"%string; "b"%string] ∧
  validate_lora_batch (list_to_set (fb_lora_ids pair_batch)) (scheduler s_service) = Ok true ∧
  ∃ b, validate_lora_batch (list_to_set (fb_lora_ids pair_batch)) (scheduler s_service) = Ok b ∧
    (b = true → ∃ m' p' info, small_prepare pair_batch (scheduler s_service) = Ok m' ∧ memory_pool m' = Some p' ∧ batch_info m' = Some info ∧ bs info = fb_batch_size pair_batch ∧
      served 0 id small_in small_out m' p' (fb_lora_ids pair_batch) info).
Proof.
  split; [vm_compute; reflexivity|]. split; [vm_compute; reflexivity|].
  apply (lora_requests_served 0 id full_config full_weights small_in small_out m_full (pool_of m_full) (fun _ => 5) small_named None (fun _ _ _ _ _ _ => 7) None small_files_fit
    small_hf 2 1 0 (lit "triton") (Some 2) (Some all_modules) [small_ref "a" "dir" true] None s_start s_service pair_batch).
  - vm_compute. reflexivity.
  - lia.
  - constructor; [by eexists|constructor].
  - reflexivity.
  - vm_compute. discriminate.
  - exact small_dims.
  - apply small_fits. vm_compute. reflexivity.
  - vm_compute. reflexivity.
  - apply (run_small_steps service_events); vm_compute; reflexivity.
  - split; [reflexivity|]. split; [done|]. done.
  - apply (bool_decide_unpack _). vm_compute. done.
Defined.
